(* ===== verification/_CoqProject ===== *)
-Q . S2P
Prelude.v
RustStr.v
RustText.v
RustFloat.v
Bounded.v
Contract.v
RouterContract.v
ToolContract.v
Transactions.v
SocketContract.v
Privileged.v
PlanStore.v
Effects.v
Monitor.v
ToolTypes.v
ToolRunner.v
ToolParsers.v
ToolFiles.v
ToolCommands.v
ToolSystem.v
ToolService.v
Executor.v
SystemService.v
Queue.v
Framing.v
Chunks.v
RouterApi.v
Privacy.v
BrokerProtocol.v
RouterTools.v
ToolSafety.v
HealthTypes.v
HealthAlert.v
HealthCollector.v
HealthMonitor.v
HealthSafety.v
HealthDaemon.v
Providers.v
Router.v
RouterStream.v
RouterEgress.v
StreamState.v
ClientStream.v
Connection.v
ConnectionLoop.v
RouterConnection.v
RouterRequests.v
LlamaHttp.v
LlamaClient.v
LlamaSafety.v
LlamaTransfer.v
BrokerServer.v
BrokerConnection.v
RouterListener.v
SettingsFile.v
LocalChat.v
WorkerProtocol.v
ProviderAdapters.v
ProviderAnswers.v
ProviderWorker.v
ProviderSafety.v
ProviderSession.v
RetrievalConfig.v
RetrievalIndex.v
RetrievalSafety.v
RetrievalTable.v
RetrievalQuery.v
RetrievalCommand.v
EditDistance.v
UiTransport.v
UiTerminal.v
UiPrivileged.v
UiMonitor.v
UiFirstBoot.v
Client.v
ClientSafety.v
ClientExchange.v
ClientConsent.v
ClientRouter.v
ChatDelivery.v
