(* ===== verification/Prelude.v ===== *)
(** * Sentia Linux: a verification development of the Rust services

    Sentia Linux is a desktop distribution with an assistant.  Its Rust services are
    under src/crates.  This library models the ones that decide what the assistant may
    do, and proves what they promise to the user.

    ** The program

    - The PRIVILEGED BROKER (sentia-privileged) is a root service on the system bus.  A
      client first calls [prepare]: the broker identifies the caller, records the state
      of the machine and stores a plan for one typed operation (a service action, a
      package change, ending a process).  The user sees the plan; [apply] names it by id
      and digest, asks polkit, checks that caller and state are unchanged and carries the
      plan out.
    - The LOCAL BROKER (sentia-local-broker) shares one model process between the users
      of the machine: a bounded queue admits chats, each chat waits for the model and
      relays its output as events.
    - The ROUTER (sentia-router) runs once per user.  It reads request frames from its
      socket, chooses the local broker or a remote provider under the user's policy,
      redacts and limits what may leave the machine, runs the agent loop with read-only
      tools, and turns its internal events into numbered frames and one result.
    - The TOOL SERVICE (sentia-tools) answers read-only questions about the machine: it
      validates the arguments, reads files and procfs, runs a few fixed programs with a
      timeout and returns bounded results.
    - The HEALTH MONITOR (sentia-health) samples procfs, sysfs and four programs, raises
      alerts with hysteresis, adapts its interval and serves the latest snapshot.
    - A PROVIDER WORKER (sentia-providers) is one process per remote provider.  It reads
      its credential from a descriptor, serves one inference at a time over pipes, sends
      one HTTPS request for it and reports the text or a reviewed error.
    - The RETRIEVAL program (sentia-retrieval) indexes packaged documentation, package
      metadata and manual pages into a sqlite table, and answers full-text queries over it.
    - The CLIENT (sentia-client) is the command [ai]: it sends one request to the router of
      its user, shows the stream of the answer, changes settings, and asks for consent before
      a request may leave the machine.
    - The DESKTOP programs (sentia-ui) are a terminal that explains unknown commands, a window
      of the health of the machine and a first boot wizard; a ticket guards the use of a
      prepared privileged plan.
    - The PROTOCOL (sentia-protocol) holds the types and validators all of them share.

    The router calls the local broker through its socket, the tool service through
    another, and never the privileged broker: the model cannot cause a privileged
    action.

    ** The files

    Shared:
    - [Prelude]: results with panics ([result]), its notations and tactics, the hint
      databases, machine-integer and list lemmas.
    - [RustStr], [RustText]: the standard library functions on str, String, integers and Path
      that the code calls, and facts about valid text.
    - [RustFloat]: f64 and f32 as the formal binary64 and binary32 of the Standard Library.
    - [Effects]: computations over an environment.  [eff call S E A] is code that makes
      the calls [call], keeps the state [S] and fails with [E]; running it yields the
      events it caused (its trace), the final state and the value.  The environment sees
      the whole history and may answer every call differently.  [does] and [ensures] are
      its two program logics; [Monitor] adds one for errors and one for protocols.

    Protocol (crates/sentia-protocol/src):
    - [Bounded]: bounded.rs.  [Contract]: errors.rs, evidence.rs, metrics.rs,
      provider.rs.  [RouterContract]: router.rs.  [ToolContract]: tools.rs.
      [Transactions]: transactions.rs.  [SocketContract]: socket.rs.

    Privileged broker (crates/sentia-privileged/src):
    - [Privileged]: lib.rs, the operations and their validation.
    - [PlanStore]: broker.rs, the table of prepared plans.
    - [Executor]: executor.rs, every contact with the machine as a [syscall].
    - [SystemService]: service.rs, [identify], [authorize] and the two bus methods.

    Local broker (crates/sentia-local-broker/src):
    - [Queue]: queue.rs as a step relation, one step for each point where the code
      releases its mutex.
    - [BrokerProtocol]: protocol.rs and config.rs.
    - [LlamaHttp], [LlamaClient]: llama.rs, the HTTP client of the model process: reading a
      response, and the checks, the request and the event stream over the calls [lsys].
    - [BrokerServer]: server.rs, from a parsed request to its events, and the creation of
      the public socket; the client of the model process is its environment.
    - [BrokerConnection]: the rest of server.rs, a connection from its first byte to its
      close and the accept loop.
    - [LlamaSafety], [LlamaTransfer] and [LocalChat] hold no new code; they prove the
      properties of the client alone and of [BrokerServer] composed with it.

    Router (crates/sentia-router/src):
    - [Framing]: the readers of newline-delimited frames of both servers, of provider.rs
      and of tools.rs.  [Chunks]: the text cutting of server.rs.
    - [RouterApi]: api.rs, config.rs, settings.rs.  [Privacy]: privacy.rs.
      [RouterTools]: tools.rs.  [Providers]: provider.rs.  [Router]: router.rs.
    - [StreamState]: the request decoding and the stream state of server.rs.
    - [RouterConnection], [RouterRequests], [RouterListener]: the rest of server.rs, the loop
      of a connection, the task of one request, the private socket and the accept loop.
    - [SettingsFile]: the loading, updating and private replacement of settings.rs.
    - [RouterStream], [RouterEgress] and [ClientStream] hold no new code; they prove the
      properties of [Router] alone and of [Router] composed with [StreamState].

    Both socket servers:
    - [Connection]: the table of running requests a connection shares with its tasks, under a
      schedule of the other tasks, and the logic [serves] of code that keeps it in order.
    - [ConnectionLoop]: the loop, the end of a connection and the writer task, once for both.

    Tool service (crates/sentia-tools/src):
    - [ToolTypes]: error.rs, result.rs, validation.rs and the calls to the machine ([tsys]).
      [ToolRunner]: runner.rs, one child process and the
      readers of its pipes.  [ToolParsers]: parsers/mod.rs.
    - [ToolFiles], [ToolCommands], [ToolSystem]: tools/*.rs, one definition per tool.
    - [ToolService]: protocol.rs, the registry, [invoke_tool] and [handle_request].
    - [ToolSafety] holds no new code: what the service can do, and how its registry fits
      the router's.

    Health monitor (crates/sentia-health/src):
    - [HealthTypes]: schema.rs and procfs.rs.  [HealthAlert]: alert.rs.
      [HealthCollector]: collector.rs over the calls [hsys].  [HealthMonitor]: monitor.rs.
      [HealthDaemon]: daemon.rs and main.rs.
    - [HealthSafety] holds no new code: the bounds of a sample and when it panics.

    Provider workers (crates/sentia-providers/src):
    - [WorkerProtocol]: error.rs, protocol.rs, integration.rs.  [ProviderAdapters]:
      adapter/*.rs.  [ProviderWorker]: credential.rs, transport.rs, worker.rs and the entry
      point, over the calls [psys]; the task of a request is [infer].
    - [ProviderAnswers], [ProviderSafety] and [ProviderSession] hold no new code: the accepted
      answers, the requests and errors of [infer], the session of [run_stdio] with concrete
      runs.

    Retrieval (crates/sentia-retrieval/src):
    - [RetrievalConfig]: error.rs, config.rs, lib.rs, the reports of model.rs and the command
      line of main.rs.  [RetrievalIndex]: path_guard.rs and indexer.rs over the calls [rsys];
      the budget, the counters and the documents of a source are its state.
      [RetrievalQuery]: query.rs and the responses of model.rs over the calls [qsys], with the
      theorems on queries and answers.  [RetrievalCommand]: the rest of main.rs.
    - [RetrievalSafety] and [RetrievalTable] hold no new code: what is read and stored, the
      table after an update, and concrete runs.

    Command line client (crates/sentia-client/src):
    - [Client]: main.rs over the calls [csys].  What a connection delivers is a list of
      arrivals (bytes, a failed read, an interrupt of the keyboard), which may end with a
      silence that lasts, so a run covers every cutting of the stream, every moment of the
      interrupt and a router that does not answer: the client then waits for ever.
    - [ClientSafety], [ClientExchange], [ClientConsent], [ClientRouter] and [ChatDelivery] hold
      no new code: whom the client talks to, how exchanges end and what they show, the consent
      at the terminal, and the client composed with the router, with the frames it serves for
      a chat and with the terminal's suggestions.

    Desktop programs (crates/sentia-ui/src):
    - [EditDistance]: levenshtein of terminal/mod.rs and its specification.  [UiTransport]:
      transport.rs and the calls [usys].  [UiTerminal]: the rest of terminal/mod.rs, and
      [spawn_shell] of bin/sentia-terminal.rs.  [UiPrivileged]: privileged.rs.  [UiMonitor]:
      monitor.rs and the text of bin/sentia-monitor.rs.  [UiFirstBoot]: firstboot.rs and the
      handlers of bin/sentia-firstboot.rs; a widget is the value it holds.

    ** What the theorems show

    - Privileged actions: an [apply] call that changes the machine has the consent of
      polkit for exactly the plan that was previewed, to the caller who previewed it, whom the
      same call identified again, with the same state of the machine, after polkit answered, and
      does only what the plan says, once ([SystemService], [Executor], [PlanStore]).  The
      abstract specification is [carries_out]: the one event a plan permits.  Helpers
      are fixed trusted binaries, callers are active local users.
    - Disclosure: a remote provider receives only a sanitized payload that the policy,
      the categories of the settings or a consumed consent permit; a consent works once;
      redacted texts carry no credential label ([RouterEgress], [Privacy]).
    - Provider workers: in every environment the credential goes only to the provider's
      endpoint, an answer is accepted exactly when it is text, an error discloses only a
      reviewed message and a safe code, and the session follows its automaton
      ([ProviderSafety], [ProviderAnswers], [ProviderSession]).
    - Retrieval: in every environment indexing opens documents only by a resolved path under
      a resolved root and package databases only by their configured path, keeps its budget, and leaves the table in step with its source, for a
      database that answers from its table ([honest_database]); a query is a conjunction of
      the words of its text, reads only a protected index and returns bounded contents; the program
      keeps both promises ([RetrievalSafety], [RetrievalTable], [RetrievalQuery],
      [RetrievalCommand]).
    - Tools: only read-only tools with a closed schema are offered and invoked, each call one
      the model asked for under an identifier it had not used, only
      through a socket of the same user ([RouterTools], [RouterEgress]).  In every
      environment the tool service starts only fixed programs, answers unknown and
      privileged names without touching the machine, keeps every listing within its limit
      and ends its child within the timeout ([ToolSafety], [ToolRunner]).
    - Health: an alert follows its hysteresis automaton, the interval follows the last
      samples, a sample keeps its limits and runs only its probes, the daemon only samples
      and serves ([HealthAlert], [HealthMonitor], [HealthSafety], [HealthDaemon]).
    - Streams: [chat] always returns; its events follow an automaton; the client gets
      numbered events, one terminal event and one valid result with the text of the
      answer ([RouterStream], [ClientStream]).  A local chat ends with one final event
      ([BrokerServer]), which is a completion after a text, valid tool calls, or the error or
      cancellation its run calls for ([LocalChat]); the client writes only to the checked socket of the model process
      ([LlamaSafety]), decodes every framing ([LlamaHttp]), and its answer does not depend
      on how the response is transferred ([LlamaTransfer]).
    - Connections: under every schedule of the tasks a connection reads until its end, a failure
      or a shutdown and answers every frame, starts a request once, cancels only what a
      cancel frame names, never runs more than its limit, keeps its table in step with the
      running tasks and leaves none behind ([RouterConnection], [BrokerConnection]); a started request
      ends with one result ([RouterRequests]); the router's socket is private before it
      accepts, and its connections are bounded ([RouterListener]).
    - The client: in every environment it writes only to a checked socket of its own user
      ([ClientSafety]); a request that may leave the machine follows the preview the user
      confirmed ([ClientConsent]); an exchange returns and prints exactly the stream of its
      request however it is cut, and a run exits with the status of its command, its error the
      last thing printed, unless the router stays silent for ever ([ClientExchange]); the
      router takes and decodes every request it makes, but for the one that clears the
      provider ([ClientRouter]); the texts the providers answered are what the terminal shows
      ([ChatDelivery]).
    - The desktop: the classification of a line is right, with the true edit distance
      ([UiTerminal], [EditDistance]); a ticket lets through one attempt, the one for its plan and connection,
      and the store then consumes that plan ([UiPrivileged]); the choices of the wizard are read back ([UiFirstBoot]); the
      health window always has a text ([UiMonitor]).
    - Settings: an update replaces the file whole or leaves it ([SettingsFile]).
    - Bounds: the admission queue keeps its limits in every interleaving and drains
      ([Queue]); one request makes a bounded number of provider calls; frames are bounded
      and independent of how the kernel cuts the bytes ([Framing]); answers are cut
      without loss ([Chunks]); the breaker opens exactly as configured ([Providers]).
    - Contracts: the status machine ends, accepted configurations are safe, the registry
      check is complete, canonical JSON does not depend on order, and the two servers and
      the contract agree on the broker socket.

    Some theorems and examples record where the code falls short: a path on which the
    router path check panics, plans whose canonical form depends on the order, a
    credential after a doubled space that is not redacted, a fallback announced for a
    request that never ran remotely ([fallback_without_remote_run]), a credential
    directory that is not a forbidden path ([credential_directory_itself]), tool arguments
    that are read as options ([checked_arguments_can_be_options]), a file policy that
    compares spellings ([path_policy_depends_on_spelling]), IPv6 addresses in the wrong
    byte order ([socket_addresses_decoded]), a listing and a redaction that panic
    ([directory_listing_needs_text], [sample_panics_only_on_messages]), an error message
    that panics a chat ([chat_panics_only_on_reports]), a schema the router and the service
    do not share ([router_and_service_schemas]), a last error that may be lost with its
    connection ([last_error_may_be_lost]), a failed update that has replaced the settings
    ([failed_update_may_replace_the_file]); in [RetrievalTable] manual pages that
    never match, packages that are not installed, private roots told by their spelling,
    labels that stay and extensions that match too much; a suggested command the client
    refuses ([suggested_command_is_refused]), a provider that cannot be cleared
    ([provider_is_never_cleared]), a line lost with an interrupt
    ([interrupt_loses_the_line]), a capture buffer that stops after one large output
    ([one_large_output_stops_capture]) or never returns ([no_room_never_returns]), a window
    that refuses every snapshot of the daemon ([daemon_snapshot_is_refused]) and a
    conventional terminal that inherits the hook
    ([conventional_terminal_inherits_hooks]).

    ** Fuel and bounds

    Loops that are not structural take fuel that their theorems show to be enough: the
    frame readers take the number of pending bytes plus one, [split_bounded] the length
    of the text, the wait for an ended process the source's 30 polls, [ready_loop] one
    turn per 250 ms of the connect timeout and two more (each sleep advances the clock by
    at least that much, hypothesis [ticks]), the agent loop [max_agent_rounds], as in the
    source; the wait of [run_command] takes 50 turns per second of its timeout and two
    more (one turn sleeps 20 ms, hypothesis [clock_counts]); the HTTP reader and the event
    loop take one turn per pending byte and one more, and so does the loop of a connection;
    the reader and the exchange of the client take one turn per arrival and byte and one more;
    its wait for the router takes one turn per 250 ms of its 30 s and two more (hypothesis
    [working]: the clock counts the sleeps);
    the endless loops of the health
    daemon and of a provider worker run for a given number of turns (and of waiting
    clients per turn), and their theorems hold for all of them.
    Integers are [Z] with the wrap-around, saturation or panic of the source written out
    where the code can reach it; the products of the health monitor's [parse_meminfo] wrap
    as in a release build.  A sort by floating-point keys is the stable sort of its keys,
    none of which is NaN.

    ** What is a parameter

    serde_json (printing and parsing), SHA-256, random bytes, the iteration order of hash
    maps ([HashOrder], [hash_order]), the Unicode tables of the standard library ([UnicodeTables]), the
    derived deserializers of tool inputs ([SerdeInputs]), the target architecture, the
    clock, the kernel, the bus, polkit, logind, the package worker, the model process, the
    remote providers, of reqwest the URL parser and the header check, gzip, TOML, the
    directory walker and sqlite.  Where a theorem needs something of them it is a
    named hypothesis: the JSON parser does not panic, the serializer succeeds on a
    payload, what the router and the broker call does not panic ([calm], [calm_broker]),
    the provider registry files every provider by its own locality ([honest_registry]), a
    connection of the client ends some time,
    a hash map is iterated in a permutation of its keys, worker events survive
    serialization, the router parses what the client serialized ([SameWire], where a cleared
    provider arrives as a patch that says nothing of it), the terminal of the client can be written, and the task a worker waits for is its own inference.

    ** What is not modelled

    The layout of the windows of sentia-ui (GTK widgets and their placement), the entry points
    of the three socket services (they load a configuration, start the modelled server and wait
    for a signal), the JSON and TOML codecs, which are third-party, the package worker (C++),
    and packaging and build scripts.  Overwriting secrets in memory has no counterpart. *)

From stdpp Require Export base tactics option list strings gmap numbers pretty.
From Stdlib Require Export ZArith Lia.
From Stdlib Require Import Permutation Sorted.

#[global] Open Scope string_scope.
#[global] Open Scope list_scope.
#[global] Open Scope Z_scope.
#[global] Set Default Goal Selector "!".

(** ** Fallible Rust code

    [result E A] is Rust's [Result<A, E>] together with the third way a Rust
    function can stop: a panic (slice index out of order, [expect] on an
    error, ...).  [bind] is the [?] operator. *)

Inductive result (E A : Type) : Type :=
| Ok (a : A)
| Err (e : E)
| Panic.
Arguments Ok {E A} a.
Arguments Err {E A} e.
Arguments Panic {E A}.

#[global] Instance result_ret E : MRet (result E) := fun A a => Ok a.
#[global] Instance result_bind E : MBind (result E) := fun A B f r =>
  match r with
  | Ok a => f a
  | Err e => Err e
  | Panic => Panic
  end.
#[global] Instance result_fmap E : FMap (result E) := fun A B f r =>
  match r with
  | Ok a => Ok (f a)
  | Err e => Err e
  | Panic => Panic
  end.

#[global] Instance result_eq_dec `{EqDecision E} `{EqDecision A} : EqDecision (result E A).
Proof. solve_decision. Defined.

(** [if b { return Err(e) }] *)
Definition fail_if {E} (b : bool) (e : E) : result E unit :=
  if b then Err e else Ok tt.

(** [Option::ok_or] *)
Definition ok_or {E A} (o : option A) (e : E) : result E A :=
  match o with
  | Some a => Ok a
  | None => Err e
  end.

(** [Result::map_err] *)
Definition map_err {E F A} (f : E -> F) (r : result E A) : result F A :=
  match r with
  | Ok a => Ok a
  | Err e => Err (f e)
  | Panic => Panic
  end.

(** [Result::ok] *)
Definition ok {E A} (r : result E A) : option A :=
  match r with
  | Ok a => Some a
  | _ => None
  end.

Definition is_ok {E A} (r : result E A) : bool :=
  match r with
  | Ok _ => true
  | _ => false
  end.

(** [iter().map(f).collect::<Result<Vec<_>, _>>()] *)
Fixpoint map_result {E A B} (f : A -> result E B) (l : list A) : result E (list B) :=
  match l with
  | [] => Ok []
  | a :: l' => b ← f a; bs ← map_result f l'; Ok (b :: bs)
  end.

Definition no_panic {E A} (r : result E A) : bool :=
  match r with
  | Panic => false
  | _ => true
  end.

Section result_lemmas.
Context {E A B : Type}.
Implicit Types (r : result E A) (k : A -> result E B).

Lemma bind_Ok r k b : (r ≫= k) = Ok b <-> exists a, r = Ok a /\ k a = Ok b.
Proof. destruct r; cbn; naive_solver. Qed.

Lemma bind_Err r k e :
  (r ≫= k) = Err e <-> r = Err e \/ exists a, r = Ok a /\ k a = Err e.
Proof. destruct r; cbn; naive_solver. Qed.

Lemma bind_Panic r k :
  (r ≫= k) = Panic <-> r = Panic \/ exists a, r = Ok a /\ k a = Panic.
Proof. destruct r; cbn; naive_solver. Qed.

Lemma fail_if_Ok (b : bool) (e : E) u : fail_if b e = Ok u <-> b = false.
Proof. destruct b, u; cbn; naive_solver. Qed.

Lemma fail_if_Err (b : bool) (e e' : E) : fail_if b e = Err e' <-> b = true /\ e = e'.
Proof. destruct b; cbn; naive_solver. Qed.

Lemma fail_if_no_panic (b : bool) (e : E) : fail_if b e = Panic <-> False.
Proof. destruct b; cbn; naive_solver. Qed.

Lemma ok_or_Ok (o : option A) (e : E) a : ok_or o e = Ok a <-> o = Some a.
Proof. destruct o; cbn; naive_solver. Qed.

Lemma ok_or_Err (o : option A) (e e' : E) : ok_or o e = Err e' <-> o = None /\ e = e'.
Proof. destruct o; cbn; naive_solver. Qed.

Lemma no_panic_spec r : no_panic r = true <-> r <> Panic.
Proof. destruct r; cbn; naive_solver. Qed.

Lemma no_panic_bind r k :
  no_panic r = true -> (forall a, r = Ok a -> no_panic (k a) = true) -> no_panic (r ≫= k) = true.
Proof. destruct r; cbn; naive_solver. Qed.

Lemma no_panic_fail_if (b : bool) (e : E) : no_panic (fail_if b e) = true.
Proof. by destruct b. Qed.
End result_lemmas.

Lemma map_result_Forall2 {E A B} (f : A -> result E B) l bs :
  map_result f l = Ok bs -> Forall2 (fun a b => f a = Ok b) l bs.
Proof.
  revert bs. induction l as [|a l IH]; intros bs; cbn [map_result]; [intros [= <-]; constructor|].
  rewrite bind_Ok. intros (b & Hb & H). apply bind_Ok in H as (bs' & Hbs & [= <-]).
  constructor; auto.
Qed.

Lemma map_result_no_panic {E A B} (f : A -> result E B) l :
  (forall a, f a <> Panic) -> map_result f l <> Panic.
Proof.
  intros Hf. induction l as [|a l IH]; cbn [map_result]; [done|]. specialize (Hf a).
  destruct (f a); cbn; [|done|done]. by destruct (map_result f l).
Qed.

Lemma map_err_Ok {E F A} (f : E -> F) (r : result E A) a :
  map_err f r = Ok a <-> r = Ok a.
Proof. destruct r; cbn; naive_solver. Qed.

Lemma map_err_Err {E F A} (f : E -> F) (r : result E A) e :
  map_err f r = Err e <-> exists e', r = Err e' /\ f e' = e.
Proof. destruct r; cbn; naive_solver. Qed.

(** The first element without [P] comes after a list that satisfies it. *)
Lemma split_at_significant {A} (P : A -> Prop) l u b e a :
  Forall P l -> ~ P e -> l ++ u = b ++ e :: a -> exists b', b = l ++ b' /\ u = b' ++ e :: a.
Proof.
  intros Hl He. revert b. induction Hl as [|x l Hx Hl IH]; intros b; [by exists b|].
  destruct b as [|y b]; cbn; [by intros [= <- _]|]. intros [= <- H].
  apply IH in H as (b' & -> & ->). by exists b'.
Qed.

(** An element of a concatenation lies in one of its parts. *)
Lemma split_app_cons {A} (l u b a : list A) e :
  l ++ u = b ++ e :: a -> e ∈ l \/ exists b', b = l ++ b' /\ u = b' ++ e :: a.
Proof.
  revert b. induction l as [|x l IH]; intros b; [by right; exists b|].
  destruct b as [|y b]; cbn; intros [= -> H]; [left; constructor|].
  destruct (IH _ H) as [|(b' & -> & ->)]; [left; by constructor|right; by exists b'].
Qed.

(** Case analysis on chains of [?]: turns every hypothesis about the outcome of
    a bind, a guard or a conversion into facts about its parts. *)
Ltac inv_result :=
  repeat match goal with
  | H : (_ ≫= _) = Ok _ |- _ => apply bind_Ok in H as (? & ? & ?)
  | H : fail_if _ _ = Ok _ |- _ => apply fail_if_Ok in H
  | H : fail_if _ _ = Err _ |- _ => apply fail_if_Err in H as [? ?]
  | H : fail_if _ _ = Panic |- _ => apply fail_if_no_panic in H; destruct H
  | H : ok_or _ _ = Ok _ |- _ => apply ok_or_Ok in H
  | H : ok_or _ _ = Err _ |- _ => apply ok_or_Err in H as [? ?]
  | H : map_err _ _ = Ok _ |- _ => apply map_err_Ok in H
  | H : Ok _ = Ok _ |- _ => injection H as H
  | H : Ok _ = Err _ |- _ => discriminate H
  | H : Err _ = Ok _ |- _ => discriminate H
  | H : Panic = Ok _ |- _ => discriminate H
  | H : unit |- _ => destruct H
  | H : (_ || _)%bool = false |- _ => apply orb_false_iff in H as [? ?]
  | H : (_ && _)%bool = true |- _ => apply andb_true_iff in H as [? ?]
  | H : negb _ = false |- _ => apply negb_false_iff in H
  | H : negb _ = true |- _ => apply negb_true_iff in H
  | H : bool_decide _ = true |- _ => apply bool_decide_eq_true in H
  | H : bool_decide _ = false |- _ => apply bool_decide_eq_false in H
  end.

(** Boolean integer tests of the code, as propositions for [lia]. *)
Ltac zbool :=
  repeat match goal with
  | H : (_ =? _) = true |- _ => apply Z.eqb_eq in H
  | H : (_ =? _) = false |- _ => apply Z.eqb_neq in H
  | H : (_ <? _) = true |- _ => apply Z.ltb_lt in H
  | H : (_ <? _) = false |- _ => apply Z.ltb_ge in H
  | H : (_ <=? _) = true |- _ => apply Z.leb_le in H
  | H : (_ <=? _) = false |- _ => apply Z.leb_gt in H
  | H : (_ >? _) = true |- _ => rewrite Z.gtb_ltb in H
  | H : (_ >? _) = false |- _ => rewrite Z.gtb_ltb in H
  | H : (_ >=? _) = true |- _ => rewrite Z.geb_leb in H
  | H : (_ >=? _) = false |- _ => rewrite Z.geb_leb in H
  end.

(** ** Machine integers

    Every fixed-width integer of the source is a [Z]; its range is a predicate
    and the arithmetic that is checked or saturating in the source is written
    out. *)

Abbreviation u8 := Z (only parsing).
Abbreviation u16 := Z (only parsing).
Abbreviation u32 := Z (only parsing).
Abbreviation u64 := Z (only parsing).
Abbreviation i64 := Z (only parsing).
Abbreviation usize := Z (only parsing).

Definition U32_MAX : Z := 4294967295.
Definition I32_MAX : Z := 2147483647.
Definition U64_MAX : Z := 18446744073709551615.
Definition USIZE_MAX : Z := U64_MAX.

Definition checked_add (max a b : Z) : option Z :=
  if a + b <=? max then Some (a + b) else None.
Definition saturating_add (max a b : Z) : Z := Z.min max (a + b).
Definition saturating_sub (a b : Z) : Z := Z.max 0 (a - b).

Lemma checked_add_Some max a b c :
  checked_add max a b = Some c <-> c = a + b /\ a + b <= max.
Proof. unfold checked_add. destruct (Z.leb_spec (a + b) max); naive_solver lia. Qed.

(** The number of elements of a vector, as the [usize] the source compares. *)
Definition vlen {A} (l : list A) : usize := Z.of_nat (length l).

Lemma vlen_nonneg {A} (l : list A) : 0 <= vlen l.
Proof. unfold vlen. lia. Qed.
Lemma vlen_app {A} (l k : list A) : vlen (l ++ k) = vlen l + vlen k.
Proof. unfold vlen. rewrite length_app. lia. Qed.
Lemma vlen_cons {A} (x : A) l : vlen (x :: l) = 1 + vlen l.
Proof. unfold vlen. cbn [length]. lia. Qed.
Lemma vlen_nil {A} : vlen (@nil A) = 0.
Proof. reflexivity. Qed.

Create HintDb sentia.
#[export] Hint Rewrite @vlen_app @vlen_cons @vlen_nil : sentia.
#[export] Hint Resolve @vlen_nonneg : sentia.

(** ** Stable sorting

    [slice::sort] and [slice::sort_by] are stable; [sort_by le] inserts from the
    right, each element before the first one it is not greater than, so equal
    elements keep their order. *)

Section sorting.
Context {A : Type} (leb : A -> A -> bool).

Fixpoint insert_by (x : A) (l : list A) : list A :=
  match l with
  | [] => [x]
  | y :: l' => if leb x y then x :: y :: l' else y :: insert_by x l'
  end.

Fixpoint sort_by (l : list A) : list A :=
  match l with
  | [] => []
  | x :: l' => insert_by x (sort_by l')
  end.

Definition lep (x y : A) : Prop := leb x y = true.

Lemma insert_by_perm x l : Permutation (insert_by x l) (x :: l).
Proof.
  induction l as [|y l IH]; cbn; [done|].
  destruct (leb x y); [done|].
  rewrite IH. apply perm_swap.
Qed.

Lemma sort_by_perm l : Permutation (sort_by l) l.
Proof.
  induction l as [|x l IH]; cbn; [done|].
  by rewrite insert_by_perm, IH.
Qed.

Lemma length_sort_by l : length (sort_by l) = length l.
Proof. by rewrite sort_by_perm. Qed.

Hypothesis leb_total : forall x y, leb x y = true \/ leb y x = true.
Hypothesis leb_trans : forall x y z, leb x y = true -> leb y z = true -> leb x z = true.

Lemma insert_by_sorted x l : StronglySorted lep l -> StronglySorted lep (insert_by x l).
Proof.
  induction 1 as [|y l Hs IH Hy]; cbn; [by repeat constructor|].
  destruct (leb x y) eqn:Hxy.
  - constructor; [by constructor|].
    constructor; [done|]. eapply Forall_impl; [exact Hy|].
    intros z Hz. by eapply leb_trans.
  - constructor; [done|]. rewrite insert_by_perm.
    constructor; [|done]. destruct (leb_total x y); [congruence|done].
Qed.

Lemma sort_by_sorted l : StronglySorted lep (sort_by l).
Proof. induction l; cbn; [constructor|]. by apply insert_by_sorted. Qed.

Lemma sort_by_sorted_id l : StronglySorted lep l -> sort_by l = l.
Proof.
  induction 1 as [|x l Hs IH Hx]; cbn; [done|]. rewrite IH.
  destruct l as [|y l]; cbn; [done|].
  apply Forall_cons in Hx as [Hxy _]. unfold lep in Hxy. by rewrite Hxy.
Qed.

Lemma sort_by_idemp l : sort_by (sort_by l) = sort_by l.
Proof. apply sort_by_sorted_id, sort_by_sorted. Qed.

(** Two sorted permutations of each other agree when the order distinguishes the
    elements they hold. *)
Lemma sorted_perm_eq l k :
  (forall x y, x ∈ l -> y ∈ l -> leb x y = true -> leb y x = true -> x = y) ->
  StronglySorted lep l -> StronglySorted lep k -> Permutation l k -> l = k.
Proof.
  intros Hanti Hl. revert k. induction Hl as [|x l Hl IH Hx]; intros k Hk Hp.
  { apply Permutation_nil in Hp. done. }
  destruct Hk as [|y k Hk Hy]; [by apply Permutation_sym, Permutation_nil_cons in Hp|].
  rewrite Forall_forall in Hx, Hy.
  assert (x = y) as <-.
  { destruct (leb x y) eqn:E.
    - assert (y ∈ x :: l) as Hyl by (rewrite Hp; left).
      assert (x ∈ y :: k) as Hxk by (rewrite <-Hp; left).
      apply Hanti; [left|done|done|].
      apply elem_of_cons in Hxk as [->|Hxk]; [done|by apply Hy].
    - assert (y ∈ x :: l) as Hyl by (rewrite Hp; left).
      apply elem_of_cons in Hyl as [->|Hyl]; [done|].
      apply Hx in Hyl. unfold lep in Hyl. congruence. }
  f_equal. apply IH; [|done|by eapply Permutation_cons_inv].
  intros a b Ha Hb. apply Hanti; by right.
Qed.

Lemma sort_by_perm_eq l k :
  (forall x y, x ∈ l -> y ∈ l -> leb x y = true -> leb y x = true -> x = y) ->
  Permutation l k -> sort_by l = sort_by k.
Proof.
  intros Hanti Hp. apply sorted_perm_eq; try apply sort_by_sorted.
  - intros x y. rewrite !sort_by_perm. apply Hanti.
  - by rewrite !sort_by_perm.
Qed.
End sorting.

(** ** Comparators

    [Ord::cmp] returns a [comparison]; [leb_of] is the test a sort uses.  A lawful
    comparator stays lawful under [then], under [Option] (where [None] is least)
    and when pulled back along a key. *)

Definition leb_of {A} (cmp : A -> A -> comparison) (x y : A) : bool :=
  match cmp x y with Gt => false | _ => true end.

Record lawful_cmp {A} (cmp : A -> A -> comparison) : Prop := {
  cmp_sym : forall x y, cmp y x = CompOpp (cmp x y);
  cmp_lt_trans : forall x y z, cmp x y = Lt -> cmp y z = Lt -> cmp x z = Lt;
  cmp_eq_l : forall x y z, cmp x y = Eq -> cmp x z = cmp y z;
}.

Definition cmp_then (c d : comparison) : comparison := match c with Eq => d | _ => c end.
Definition cmp_on {A B} (f : A -> B) (cmp : B -> B -> comparison) (x y : A) : comparison :=
  cmp (f x) (f y).
Definition cmp_option {A} (cmp : A -> A -> comparison) (x y : option A) : comparison :=
  match x, y with
  | None, None => Eq
  | None, Some _ => Lt
  | Some _, None => Gt
  | Some a, Some b => cmp a b
  end.

Section comparators.
Context {A B : Type}.

Lemma lawful_on (f : A -> B) cmp : lawful_cmp cmp -> lawful_cmp (cmp_on f cmp).
Proof. intros [H1 H2 H3]. split; unfold cmp_on; eauto. Qed.

Lemma lawful_then (c d : A -> A -> comparison) :
  lawful_cmp c -> lawful_cmp d -> lawful_cmp (fun x y => cmp_then (c x y) (d x y)).
Proof.
  intros [S1 T1 E1] [S2 T2 E2]. split; unfold cmp_then.
  - intros x y. rewrite (S1 x y), (S2 x y). by destruct (c x y).
  - intros x y z. destruct (c x y) eqn:Exy; try done.
    + rewrite (E1 _ _ z Exy). destruct (c y z); try done. eauto.
    + intros _. destruct (c y z) eqn:Eyz; try done.
      * intros _. assert (c z y = Eq) as Ezy by (rewrite S1, Eyz; done).
        assert (c x z = Lt) as ->; [|done].
        rewrite (S1 z x), (E1 _ _ x Ezy), (S1 x y), Exy. done.
      * intros _. by rewrite (T1 _ _ _ Exy Eyz).
  - intros x y z. destruct (c x y) eqn:Exy; try done. intros Hd.
    rewrite (E1 _ _ z Exy). destruct (c y z); try done. by apply E2.
Qed.

Lemma lawful_option (cmp : A -> A -> comparison) : lawful_cmp cmp -> lawful_cmp (cmp_option cmp).
Proof.
  intros [S T E]. split.
  - by intros [x|] [y|]; cbn.
  - intros [x|] [y|] [z|]; cbn; try done. eauto.
  - intros [x|] [y|] [z|]; cbn; try done. eauto.
Qed.

Lemma leb_of_total (cmp : A -> A -> comparison) x y :
  lawful_cmp cmp -> leb_of cmp x y = true \/ leb_of cmp y x = true.
Proof. intros [S _ _]. unfold leb_of. rewrite (S x y). destruct (cmp x y); cbn; auto. Qed.

Lemma leb_of_trans (cmp : A -> A -> comparison) x y z :
  lawful_cmp cmp -> leb_of cmp x y = true -> leb_of cmp y z = true -> leb_of cmp x z = true.
Proof.
  intros [S T E]. unfold leb_of.
  destruct (cmp x y) eqn:Exy; try done.
  - by rewrite (E _ _ z Exy).
  - destruct (cmp y z) eqn:Eyz; try done.
    + assert (cmp z y = Eq) as Ezy by (rewrite S, Eyz; done).
      by rewrite (S z x), (E _ _ x Ezy), (S x y), Exy.
    + by rewrite (T _ _ _ Exy Eyz).
Qed.

Lemma leb_of_antisym (cmp : A -> A -> comparison) x y :
  lawful_cmp cmp -> leb_of cmp x y = true -> leb_of cmp y x = true -> cmp x y = Eq.
Proof. intros [S _ _]. unfold leb_of. rewrite (S x y). by destruct (cmp x y). Qed.
End comparators.

(** Sorting by a lawful comparator: the result does not depend on the order of
    the input as long as the comparator tells its elements apart. *)
Lemma sort_cmp_perm_eq {A} (cmp : A -> A -> comparison) l k :
  lawful_cmp cmp -> (forall x y, x ∈ l -> y ∈ l -> cmp x y = Eq -> x = y) ->
  Permutation l k -> sort_by (leb_of cmp) l = sort_by (leb_of cmp) k.
Proof.
  intros Hc Hd Hp. apply sort_by_perm_eq; try done.
  - intros x y. by apply leb_of_total.
  - intros x y z. by apply leb_of_trans.
  - intros x y Hx Hy Hxy Hyx. apply Hd; try done. by apply leb_of_antisym.
Qed.

Lemma sort_cmp_idemp {A} (cmp : A -> A -> comparison) l :
  lawful_cmp cmp -> sort_by (leb_of cmp) (sort_by (leb_of cmp) l) = sort_by (leb_of cmp) l.
Proof.
  intros Hc. apply sort_by_idemp; intros.
  - by apply leb_of_total.
  - by eapply leb_of_trans.
Qed.
