(* ===== verification/RustStr.v ===== *)
(** * Rust strings

    A Rust [str] is a sequence of bytes that is valid UTF-8; here it is a
    [string] (a list of 8-bit characters), so [len] is the byte length, string
    comparison is bytewise, and the operations that work on [char]s go through
    [chars], which splits the bytes into the encodings of the scalar values.
    Every function below is the standard library's function of the same name.  Below are
    the validity of UTF-8 and the functions of [Path]. *)

From Stdlib Require Import Ascii String.
From S2P Require Import Prelude.

#[global] Arguments String.append : simpl nomatch.

(** ** Bytes *)

Definition byte (c : ascii) : Z := Z.of_N (N_of_ascii c).

Definition is_ascii_lowercase (c : ascii) : bool := (97 <=? byte c) && (byte c <=? 122).
Definition is_ascii_uppercase (c : ascii) : bool := (65 <=? byte c) && (byte c <=? 90).
Definition is_ascii_digit (c : ascii) : bool := (48 <=? byte c) && (byte c <=? 57).
Definition is_ascii_alphanumeric (c : ascii) : bool :=
  is_ascii_lowercase c || is_ascii_uppercase c || is_ascii_digit c.
Definition is_lower_hex (c : ascii) : bool :=
  is_ascii_digit c || ((97 <=? byte c) && (byte c <=? 102)).

Definition ascii_lower (c : ascii) : ascii :=
  if is_ascii_uppercase c then ascii_of_N (N_of_ascii c + 32) else c.

Definition one_of (s : string) (c : ascii) : bool :=
  existsb (Ascii.eqb c) (list_ascii_of_string s).

(** ** Byte-level operations *)

Definition len (s : string) : usize := Z.of_nat (String.length s).
Definition is_empty (s : string) : bool := match s with EmptyString => true | _ => false end.
Definition bytes_all (p : ascii -> bool) (s : string) : bool :=
  forallb p (list_ascii_of_string s).
Definition first_byte (p : ascii -> bool) (s : string) : bool :=
  match s with EmptyString => false | String c _ => p c end.

Fixpoint to_ascii_lowercase (s : string) : string :=
  match s with
  | EmptyString => EmptyString
  | String c s' => String (ascii_lower c) (to_ascii_lowercase s')
  end.

Definition eq_ignore_ascii_case (a b : string) : bool :=
  String.eqb (to_ascii_lowercase a) (to_ascii_lowercase b).

Fixpoint strip_prefix (p s : string) : option string :=
  match p, s with
  | EmptyString, _ => Some s
  | String c p', String d s' => if Ascii.eqb c d then strip_prefix p' s' else None
  | String _ _, EmptyString => None
  end.

Definition starts_with (p s : string) : bool :=
  match strip_prefix p s with Some _ => true | None => false end.

Fixpoint contains (needle s : string) : bool :=
  starts_with needle s ||
  match s with
  | EmptyString => false
  | String _ s' => contains needle s'
  end.

Fixpoint strip_suffix (q s : string) : option string :=
  if String.eqb q s then Some EmptyString
  else match s with
       | EmptyString => None
       | String c s' => String c <$> strip_suffix q s'
       end.

Definition ends_with (q s : string) : bool :=
  match strip_suffix q s with Some _ => true | None => false end.

(** The bytes [s[0..n]] and [s[n..]]. *)
Fixpoint stake (n : nat) (s : string) : string :=
  match n, s with
  | S n', String c s' => String c (stake n' s')
  | _, _ => EmptyString
  end.

Fixpoint sdrop (n : nat) (s : string) : string :=
  match n, s with
  | S n', String _ s' => sdrop n' s'
  | _, _ => s
  end.

(** [&s[a..b]]: panics when the range is out of order or out of bounds. *)
Definition slice {E} (s : string) (a b : Z) : result E string :=
  if (a <=? b) && (b <=? len s) then
    Ok (stake (Z.to_nat (b - a)) (sdrop (Z.to_nat a) s))
  else Panic.

Fixpoint sconcat (l : list string) : string :=
  match l with
  | [] => EmptyString
  | s :: l' => s +:+ sconcat l'
  end.

Definition join (sep : string) (l : list string) : string := String.concat sep l.

(** [split_once(c)] and [rsplit_once(c)] for an ASCII separator. *)
Fixpoint split_once (sep : ascii) (s : string) : option (string * string) :=
  match s with
  | EmptyString => None
  | String c s' =>
      if Ascii.eqb c sep then Some (EmptyString, s')
      else match split_once sep s' with
           | Some (a, b) => Some (String c a, b)
           | None => None
           end
  end.

Fixpoint rsplit_once (sep : ascii) (s : string) : option (string * string) :=
  match s with
  | EmptyString => None
  | String c s' =>
      match rsplit_once sep s' with
      | Some (a, b) => Some (String c a, b)
      | None => if Ascii.eqb c sep then Some (EmptyString, s') else None
      end
  end.

(** [s.rsplit(sep).next().unwrap()]: what follows the last separator. *)
Definition after_last (sep : ascii) (s : string) : string :=
  match rsplit_once sep s with Some (_, b) => b | None => s end.

(** [str::lines]: split at line feeds, without the terminators; a final empty
    line is not produced and one carriage return before the feed is dropped. *)
Definition LF : ascii := ascii_of_N 10.
Definition CR : ascii := ascii_of_N 13.

Definition strip_cr (s : string) : string :=
  default s (strip_suffix (String CR EmptyString) s).

(** Pieces between line feeds; the piece after the last feed is dropped when
    empty. *)
Fixpoint split_lf (acc : string) (s : string) : list string :=
  match s with
  | EmptyString => if is_empty acc then [] else [acc]
  | String c s' =>
      if Ascii.eqb c LF then strip_cr acc :: split_lf EmptyString s'
      else split_lf (acc +:+ String c EmptyString) s'
  end.

Definition lines (s : string) : list string := split_lf EmptyString s.

(** Decimal parsing as [str::parse::<uN>]: an optional plus sign, at least one
    digit, no overflow. *)
Fixpoint parse_digits (max acc : Z) (s : string) : option Z :=
  match s with
  | EmptyString => Some acc
  | String c s' =>
      if is_ascii_digit c then
        let acc' := acc * 10 + (byte c - 48) in
        if acc' <=? max then parse_digits max acc' s' else None
      else None
  end.

Definition parse_uint (max : Z) (s : string) : option Z :=
  let s' := match s with
            | String c r => if Ascii.eqb c (ascii_of_N 43) then r else s
            | EmptyString => s
            end in
  if is_empty s' then None else parse_digits max 0 s'.

(** [format!("{}", n)] for an unsigned integer. *)
Definition show_uint (n : Z) : string := pretty (Z.to_N n).

(** [Vec::dedup] on strings. *)
Fixpoint dedup (l : list string) : list string :=
  match l with
  | x :: (y :: _) as l' => if String.eqb x y then dedup l' else x :: dedup l'
  | _ => l
  end.

(** ** Scalar values *)

Definition is_cont (c : ascii) : bool := (128 <=? byte c) && (byte c <=? 191).

(** The UTF-8 encodings of the scalar values of [s], in order: a byte that is
    followed by continuation bytes starts a longer encoding. *)
Fixpoint chars (s : string) : list string :=
  match s with
  | EmptyString => []
  | String c s' =>
      match chars s' with
      | g :: gs =>
          if first_byte is_cont s' then String c g :: gs
          else String c EmptyString :: g :: gs
      | [] => [String c EmptyString]
      end
  end.

(** The well-formed encodings (RFC 3629, Table 3-7 of the Unicode standard). *)
Definition char_ok (g : string) : bool :=
  match List.map byte (list_ascii_of_string g) with
  | [a] => a <? 128
  | [a; b] => (194 <=? a) && (a <=? 223) && (128 <=? b) && (b <=? 191)
  | [a; b; c] =>
      (224 <=? a) && (a <=? 239) && (128 <=? b) && (b <=? 191)
      && (128 <=? c) && (c <=? 191)
      && negb ((a =? 224) && (b <? 160)) && negb ((a =? 237) && (159 <? b))
  | [a; b; c; d] =>
      (240 <=? a) && (a <=? 244) && (128 <=? b) && (b <=? 191)
      && (128 <=? c) && (c <=? 191) && (128 <=? d) && (d <=? 191)
      && negb ((a =? 240) && (b <? 144)) && negb ((a =? 244) && (143 <? b))
  | _ => false
  end.

Definition valid_utf8 (s : string) : bool := forallb char_ok (chars s).

(** [char::is_whitespace]: the White_Space code points of Unicode. *)
Definition is_whitespace (g : string) : bool :=
  match List.map byte (list_ascii_of_string g) with
  | [a] => ((9 <=? a) && (a <=? 13)) || (a =? 32)
  | [a; b] => (a =? 194) && ((b =? 133) || (b =? 160))
  | [a; b; c] =>
      ((a =? 225) && (b =? 154) && (c =? 128))
      || ((a =? 226) && (b =? 128)
          && (((128 <=? c) && (c <=? 138)) || (c =? 168) || (c =? 169) || (c =? 175)))
      || ((a =? 226) && (b =? 129) && (c =? 159))
      || ((a =? 227) && (b =? 128) && (c =? 128))
  | _ => false
  end.

Fixpoint drop_while {A} (p : A -> bool) (l : list A) : list A :=
  match l with
  | [] => []
  | x :: l' => if p x then drop_while p l' else l
  end.

Definition drop_while_end {A} (p : A -> bool) (l : list A) : list A :=
  rev (drop_while p (rev l)).

Definition trim_end (s : string) : string :=
  sconcat (drop_while_end is_whitespace (chars s)).
Definition trim (s : string) : string :=
  sconcat (drop_while_end is_whitespace (drop_while is_whitespace (chars s))).

(** [chars().take(n).collect()] *)
Definition take_chars (n : nat) (s : string) : string := sconcat (take n (chars s)).

(** [split_inclusive(char::is_whitespace)]: every piece but perhaps the last ends
    with the whitespace character that closed it. *)
Fixpoint split_inclusive_aux (p : string -> bool) (acc : string) (cs : list string)
  : list string :=
  match cs with
  | [] => if is_empty acc then [] else [acc]
  | c :: cs' =>
      if p c then (acc +:+ c) :: split_inclusive_aux p EmptyString cs'
      else split_inclusive_aux p (acc +:+ c) cs'
  end.

Definition split_inclusive_ws (s : string) : list string :=
  split_inclusive_aux is_whitespace EmptyString (chars s).

(** [split_whitespace] *)
Fixpoint split_ws_aux (acc : string) (cs : list string) : list string :=
  match cs with
  | [] => if is_empty acc then [] else [acc]
  | c :: cs' =>
      if is_whitespace c
      then if is_empty acc then split_ws_aux EmptyString cs'
           else acc :: split_ws_aux EmptyString cs'
      else split_ws_aux (acc +:+ c) cs'
  end.

Definition split_whitespace (s : string) : list string := split_ws_aux EmptyString (chars s).

(** [is_char_boundary(i)]: the ends of the string, or a byte that is not a
    continuation byte. *)
Definition byte_at (s : string) (i : nat) : option ascii := String.get i s.

Definition is_char_boundary (s : string) (i : nat) : bool :=
  if (i =? 0)%nat then true
  else match byte_at s i with
       | Some c => negb (is_cont c)
       | None => (i =? String.length s)%nat
       end.

(** ** Lemmas *)

Lemma app_empty_r (s : string) : s +:+ EmptyString = s.
Proof. induction s; cbn; [done|by f_equal]. Qed.

Lemma str_app_assoc (a b c : string) : (a +:+ b) +:+ c = a +:+ (b +:+ c).
Proof. induction a; cbn; [done|by f_equal]. Qed.

Lemma str_length_app (a b : string) :
  String.length (a +:+ b) = (String.length a + String.length b)%nat.
Proof. induction a; cbn; lia. Qed.

Lemma len_app (a b : string) : len (a +:+ b) = len a + len b.
Proof. unfold len. rewrite str_length_app. lia. Qed.

Lemma len_nonneg (s : string) : 0 <= len s.
Proof. unfold len. lia. Qed.

Lemma len_empty_iff (s : string) : len s = 0 <-> s = EmptyString.
Proof. destruct s; unfold len; cbn; split; intros; first [done | lia]. Qed.

Lemma is_empty_true (s : string) : is_empty s = true <-> s = EmptyString.
Proof. destruct s; cbn; split; intros; done. Qed.

Lemma is_empty_false (s : string) : is_empty s = false <-> 0 < len s.
Proof. destruct s; unfold len; cbn; split; intros; first [done | lia]. Qed.

#[export] Hint Rewrite len_app str_app_assoc app_empty_r : sentia.
#[export] Hint Resolve len_nonneg : sentia.

Lemma str_app_inj_l (p a b : string) : p +:+ a = p +:+ b -> a = b.
Proof. induction p; cbn; naive_solver. Qed.

Lemma str_app_inj_len (a b c d : string) :
  len a = len c -> a +:+ b = c +:+ d -> a = c /\ b = d.
Proof.
  revert c. induction a as [|x a IH]; intros [|y c] Hl; unfold len in *; cbn in *; try lia.
  - done.
  - intros [= -> H]. destruct (IH c) as [-> ->]; [lia|done|done].
Qed.

Lemma strip_prefix_Some (p s r : string) : strip_prefix p s = Some r <-> s = p +:+ r.
Proof.
  revert s. induction p as [|c p IH]; intros s; cbn; [naive_solver|].
  destruct s as [|d s]; [naive_solver|].
  destruct (Ascii.eqb_spec c d) as [<-|Hne]; [|naive_solver].
  rewrite IH. naive_solver.
Qed.

Lemma starts_with_true (p s : string) : starts_with p s = true <-> exists r, s = p +:+ r.
Proof.
  unfold starts_with. setoid_rewrite <-strip_prefix_Some.
  destruct (strip_prefix p s); naive_solver.
Qed.

Lemma strip_suffix_Some (q s r : string) : strip_suffix q s = Some r <-> s = r +:+ q.
Proof.
  revert r. induction s as [|c s IH]; intros r; cbn -[String.eqb].
  - destruct (String.eqb_spec q EmptyString) as [->|Hne].
    + rewrite app_empty_r. naive_solver.
    + split; [done|]. intros H. exfalso. destruct r; cbn in H; naive_solver.
  - destruct (String.eqb_spec q (String c s)) as [->|Hne].
    + split.
      * intros [= <-]. done.
      * intros H. f_equal. apply (f_equal len) in H. rewrite len_app in H.
        symmetry. apply len_empty_iff. lia.
    + destruct r as [|d r]; cbn.
      * destruct (strip_suffix q s) eqn:E; cbn; naive_solver.
      * specialize (IH r). destruct (strip_suffix q s) eqn:E; cbn; naive_solver.
Qed.

Lemma ends_with_true (q s : string) : ends_with q s = true <-> exists r, s = r +:+ q.
Proof.
  unfold ends_with. setoid_rewrite <-strip_suffix_Some.
  destruct (strip_suffix q s); naive_solver.
Qed.

Lemma stake_sdrop n s : stake n s +:+ sdrop n s = s.
Proof. revert s. induction n; intros [|c s]; cbn; try done. by f_equal. Qed.

Lemma length_stake n s : (n <= String.length s)%nat -> String.length (stake n s) = n.
Proof. revert s. induction n; intros [|c s]; cbn; intros; try lia. f_equal. apply IHn. lia. Qed.

Lemma length_sdrop n s : String.length (sdrop n s) = (String.length s - n)%nat.
Proof. revert s. induction n; intros [|c s]; cbn; intros; try lia. apply IHn. Qed.

Lemma stake_app_len (a b : string) : stake (String.length a) (a +:+ b) = a.
Proof. induction a; cbn; [by destruct b|by f_equal]. Qed.

Lemma sdrop_app_len (a b : string) : sdrop (String.length a) (a +:+ b) = b.
Proof. induction a; cbn; [done|done]. Qed.

Lemma stake_all s : stake (String.length s) s = s.
Proof. pose proof (stake_app_len s EmptyString) as H. by rewrite app_empty_r in H. Qed.

Lemma sdrop_all s : sdrop (String.length s) s = EmptyString.
Proof. pose proof (sdrop_app_len s EmptyString) as H. by rewrite app_empty_r in H. Qed.

(** A slice in order selects the middle of a decomposition. *)
Lemma slice_middle {E} (a m b : string) :
  slice (E := E) (a +:+ m +:+ b) (len a) (len (a +:+ m +:+ b) - len b) = Ok m.
Proof.
  unfold slice. rewrite !len_app.
  pose proof (len_nonneg a); pose proof (len_nonneg b); pose proof (len_nonneg m).
  replace (len a <=? len a + (len m + len b) - len b) with true
    by (symmetry; apply Z.leb_le; lia).
  replace (len a + (len m + len b) - len b <=? len a + (len m + len b)) with true
    by (symmetry; apply Z.leb_le; lia).
  cbn. f_equal.
  replace (Z.to_nat (len a)) with (String.length a) by (unfold len; lia).
  rewrite sdrop_app_len.
  replace (Z.to_nat _) with (String.length m) by (unfold len; lia).
  apply stake_app_len.
Qed.

Lemma sconcat_app l k : sconcat (l ++ k) = sconcat l +:+ sconcat k.
Proof. induction l; cbn; [done|]. by rewrite IHl, str_app_assoc. Qed.

Lemma sconcat_chars s : sconcat (chars s) = s.
Proof.
  induction s as [|c s IH]; cbn; [done|].
  destruct (chars s) as [|g gs] eqn:E; cbn in *.
  - by rewrite IH.
  - destruct (first_byte is_cont s); cbn; by rewrite IH.
Qed.

Lemma bytes_all_app p a b : bytes_all p (a +:+ b) = bytes_all p a && bytes_all p b.
Proof. unfold bytes_all. induction a; cbn; [done|]. by rewrite IHa, andb_assoc. Qed.

Lemma stake_app_le n (a b : string) :
  (n <= String.length a)%nat -> stake n (a +:+ b) = stake n a.
Proof.
  revert a. induction n as [|n IH]; intros [|c a] H; cbn in *; try done; try lia.
  f_equal. apply IH. lia.
Qed.

Lemma slice_Panic {E} (s : string) a b :
  slice (E := E) s a b = Panic <-> ~ (a <= b /\ b <= len s).
Proof.
  unfold slice. destruct (Z.leb_spec a b), (Z.leb_spec b (len s)); cbn; naive_solver lia.
Qed.

Lemma slice_Ok {E} (s t : string) a b :
  slice (E := E) s a b = Ok t ->
  a <= b <= len s /\ t = stake (Z.to_nat (b - a)) (sdrop (Z.to_nat a) s).
Proof.
  unfold slice. destruct (Z.leb_spec a b), (Z.leb_spec b (len s)); cbn; naive_solver lia.
Qed.

(** Splitting at a separator the rest does not contain. *)
Definition lacks (sep : ascii) (s : string) : bool := bytes_all (fun c => negb (Ascii.eqb c sep)) s.

Lemma lacks_cons sep c s : lacks sep (String c s) = negb (Ascii.eqb c sep) && lacks sep s.
Proof. done. Qed.

Lemma lacks_app sep a b : lacks sep (a +:+ b) = lacks sep a && lacks sep b.
Proof. apply bytes_all_app. Qed.

Lemma rsplit_once_lacks sep b : lacks sep b = true -> rsplit_once sep b = None.
Proof.
  induction b as [|c b IH]; cbn; [done|]. intros [Hc Hb]%andb_true_iff.
  rewrite (IH Hb). by destruct (Ascii.eqb c sep).
Qed.

Lemma rsplit_once_app sep a b :
  lacks sep b = true -> rsplit_once sep (a +:+ String sep b) = Some (a, b).
Proof.
  intros Hb. induction a as [|c a IH]; cbn.
  - by rewrite (rsplit_once_lacks _ _ Hb), Ascii.eqb_refl.
  - by rewrite IH.
Qed.

Lemma rsplit_once_Some sep s a b :
  rsplit_once sep s = Some (a, b) -> s = a +:+ String sep b /\ lacks sep b = true.
Proof.
  revert a. induction s as [|c s IH]; intros a; cbn [rsplit_once]; [done|].
  destruct (rsplit_once sep s) as [[a' b']|] eqn:E.
  - intros [= <- <-]. destruct (IH a' eq_refl) as [-> Hb]. done.
  - destruct (Ascii.eqb_spec c sep) as [->|]; [|done]. intros [= <- <-]. split; [done|].
    clear IH. induction s as [|d s IH]; [done|]. cbn [rsplit_once] in E.
    destruct (rsplit_once sep s) as [[]|]; [done|].
    rewrite lacks_cons. destruct (Ascii.eqb_spec d sep); [done|]. by rewrite IH.
Qed.

Lemma rsplit_once_starts sep s : rsplit_once sep (String sep s) <> None.
Proof. cbn [rsplit_once]. destruct (rsplit_once sep s) as [[]|]; [done|]. by rewrite Ascii.eqb_refl. Qed.

Lemma split_once_app sep a b :
  lacks sep a = true -> split_once sep (a +:+ String sep b) = Some (a, b).
Proof.
  induction a as [|c a IH]; cbn; [by rewrite Ascii.eqb_refl|].
  intros [Hc Ha]%andb_true_iff. apply negb_true_iff in Hc. by rewrite Hc, (IH Ha).
Qed.

(** ** [Ord for str] *)

Lemma str_compare_lawful : lawful_cmp String.compare.
Proof.
  split.
  - intros x y. apply String.compare_antisym.
  - induction x as [|a x IH]; intros [|b y] [|c z]; cbn; try done.
    unfold Ascii.compare.
    destruct (N.compare_spec (N_of_ascii a) (N_of_ascii b)) as [E|E|E];
      destruct (N.compare_spec (N_of_ascii b) (N_of_ascii c)) as [F|F|F];
      destruct (N.compare_spec (N_of_ascii a) (N_of_ascii c)) as [G|G|G];
      try done; try lia; eauto.
  - intros x y z H. apply String.compare_eq_iff in H. by subst.
Qed.

(** * Characters of valid text

    Facts about the splitting of UTF-8 text into characters, for the code that walks
    over text ([split_bounded], [redact_secrets], [split_whitespace]). *)

Lemma chars_cons c s :
  chars (String c s) =
  match chars s with
  | g :: gs => if first_byte is_cont s then String c g :: gs
               else String c EmptyString :: g :: gs
  | [] => [String c EmptyString]
  end.
Proof. done. Qed.

Lemma chars_nil_iff s : chars s = [] <-> s = EmptyString.
Proof.
  split; [|by intros ->]. destruct s as [|c s]; [done|]. rewrite chars_cons.
  destruct (chars s); [done|]. by destruct (first_byte is_cont s).
Qed.

(** Characters do not cross a boundary. *)
Lemma chars_app a b : first_byte is_cont b = false -> chars (a +:+ b) = chars a ++ chars b.
Proof.
  intros Hb. induction a as [|c a IH]; [done|]. cbn [String.append]. rewrite !chars_cons, IH.
  destruct a as [|d a].
  - cbn [String.append chars app]. destruct (chars b) eqn:E; [done|]. by rewrite Hb.
  - destruct (chars (String d a)) as [|g gs] eqn:E; [by apply chars_nil_iff in E|].
    cbn [app String.append first_byte]. by destruct (is_cont d).
Qed.

Lemma valid_utf8_app a b :
  first_byte is_cont b = false -> valid_utf8 (a +:+ b) = valid_utf8 a && valid_utf8 b.
Proof. intros Hb. unfold valid_utf8. by rewrite chars_app, forallb_app. Qed.

(** The first character of valid text: one to four bytes, then a boundary. *)
Lemma char_ok_len g : char_ok g = true -> (1 <= String.length g <= 4)%nat.
Proof.
  unfold char_ok. destruct g as [|a [|b [|c [|d [|e g]]]]]; cbn; intros H; try done; lia.
Qed.

Lemma char_ok_first c g : char_ok (String c g) = true -> is_cont c = false.
Proof.
  unfold char_ok, is_cont. set (a := byte c). intros H. cbn [list_ascii_of_string List.map] in H.
  fold a in H. destruct (Z.leb_spec 128 a), (Z.leb_spec a 191); cbn; try done.
  exfalso. destruct g as [|c1 [|c2 [|c3 [|]]]]; cbn in H; inv_result; zbool; try done; lia.
Qed.

(** A non-empty string is its first character and the rest. *)
Lemma chars_split s :
  chars s = [] \/ exists g gs, chars s = g :: gs /\ s = g +:+ sconcat gs /\
    first_byte is_cont (sconcat gs) = false.
Proof.
  induction s as [|c s IH]; [by left|]. right. rewrite chars_cons.
  destruct IH as [E|(g & gs & E & Hs & Hb)]; rewrite E.
  - apply chars_nil_iff in E as ->. by exists (String c EmptyString), [].
  - destruct (first_byte is_cont s) eqn:Hc.
    + exists (String c g), gs. cbn. by rewrite <-Hs.
    + exists (String c EmptyString), (g :: gs). cbn [sconcat String.append]. by rewrite <-Hs.
Qed.

Lemma first_char s :
  valid_utf8 s = true -> s <> EmptyString ->
  exists g r, s = g +:+ r /\ char_ok g = true /\ first_byte is_cont r = false.
Proof.
  intros Hv Hne. destruct (chars_split s) as [E|(g & gs & E & Hs & Hb)].
  - by apply chars_nil_iff in E.
  - unfold valid_utf8 in Hv. rewrite E in Hv. cbn in Hv. apply andb_true_iff in Hv as [Hg _].
    by exists g, (sconcat gs).
Qed.

Lemma valid_first s : valid_utf8 s = true -> first_byte is_cont s = false.
Proof.
  intros Hv. destruct s as [|c s]; [done|]. destruct (first_char _ Hv) as (g & r & Hg & Hok & _); [done|].
  destruct g as [|d g]; [done|]. injection Hg as <- _. by eapply char_ok_first.
Qed.

(** Text built from well-formed characters splits into exactly those. *)
Lemma chars_char g : char_ok g = true -> chars g = [g].
Proof.
  unfold char_ok. destruct g as [|a [|b [|c [|d [|e g]]]]]; cbn [list_ascii_of_string List.map];
    intros H; try done; inv_result; rewrite !chars_cons; cbn [chars first_byte];
    unfold is_cont; repeat match goal with H : _ = true |- _ => rewrite H end; done.
Qed.

Abbreviation well_formed cs := (Forall (fun g => char_ok g = true) cs) (only parsing).

Lemma forallb_well_formed cs : forallb char_ok cs = true <-> well_formed cs.
Proof.
  rewrite forallb_forall, Forall_forall. split; intros H g Hg; apply H; by apply list_elem_of_In.
Qed.

Lemma chars_sconcat cs : well_formed cs -> chars (sconcat cs) = cs.
Proof.
  induction 1 as [|g cs Hg Hcs IH]; [done|]. cbn [sconcat].
  rewrite chars_app, (chars_char g Hg), IH; [done|].
  apply valid_first. unfold valid_utf8. rewrite IH. by apply forallb_well_formed.
Qed.

Lemma valid_sconcat cs : well_formed cs -> valid_utf8 (sconcat cs) = true.
Proof.
  intros H. unfold valid_utf8. rewrite chars_sconcat by done. by apply forallb_well_formed.
Qed.

Lemma valid_chars s : valid_utf8 s = true -> well_formed (chars s).
Proof. apply forallb_well_formed. Qed.

Lemma drop_while_app {A} (p : A -> bool) l k :
  Forall (fun x => p x = true) l -> drop_while p (l ++ k) = drop_while p k.
Proof. induction 1 as [|x l Hx Hl IH]; [done|]. cbn. by rewrite Hx. Qed.

Lemma drop_while_id {A} (p : A -> bool) l :
  Forall (fun x => p x = false) l -> drop_while p l = l.
Proof. destruct 1 as [|x l Hx Hl]; [done|]. cbn. by rewrite Hx. Qed.

(** * Rust paths

    [std::path::Path] on Unix: a path is its sequence of components, which is what
    every operation the services use ([is_absolute], [parent], [starts_with],
    [components], [push]) depends on. *)
From Stdlib Require Import Ascii String.

Inductive Component := RootDir | CurDir | ParentDir | Normal (name : string).

#[global] Instance Component_eq_dec : EqDecision Component.
Proof. solve_decision. Defined.

(** Pieces between slashes. *)
Fixpoint split_slash (acc s : string) : list string :=
  match s with
  | EmptyString => [acc]
  | String c s' =>
      if Ascii.eqb c "/"%char then acc :: split_slash EmptyString s'
      else split_slash (acc +:+ String c EmptyString) s'
  end.

(** A piece after the first: empty pieces and dots vanish. *)
Definition component_of (piece : string) : list Component :=
  if String.eqb piece "" || String.eqb piece "." then []
  else if String.eqb piece ".." then [ParentDir]
  else [Normal piece].

Definition components (path : string) : list Component :=
  match split_slash EmptyString path with
  | first :: rest =>
      (if String.eqb first "" then
         match path with EmptyString => [] | _ => [RootDir] end
       else if String.eqb first "." then [CurDir]
       else component_of first)
      ++ List.concat (map component_of rest)
  | [] => []
  end.

Definition is_absolute (path : string) : bool := starts_with "/" path.

(** [Path::starts_with]: component by component. *)
Fixpoint components_prefix (root path : list Component) : bool :=
  match root, path with
  | [], _ => true
  | r :: root', p :: path' => bool_decide (r = p) && components_prefix root' path'
  | _ :: _, [] => false
  end.

Definition path_starts_with (root path : string) : bool :=
  components_prefix (components root) (components path).

(** [Path::parent], as the components of the result. *)
Definition parent (path : list Component) : option (list Component) :=
  match rev path with
  | [] | RootDir :: _ => None
  | _ :: init => Some (rev init)
  end.

(** [PathBuf::push] of one component onto a path in text form. *)
Definition push (current : string) (c : Component) : string :=
  let piece := match c with
               | RootDir => "/" | CurDir => "." | ParentDir => ".." | Normal name => name
               end in
  if starts_with "/" piece then piece
  else if is_empty current || ends_with "/" current then current +:+ piece
  else current +:+ "/" +:+ piece.

Example components_usr : components "/usr//bin/./env/.." =
  [RootDir; Normal "usr"; Normal "bin"; Normal "env"; ParentDir].
Proof. reflexivity. Qed.

Example push_usr : fold_left push (components "/usr/bin") "" = "/usr/bin".
Proof. reflexivity. Qed.

(** [Path::join] of a relative or absolute path in text form. *)
Definition path_join (base p : string) : string := push base (Normal p).

(** [Path::file_name]: the last component, when it is a name. *)
Definition file_name (path : string) : option string :=
  match rev (components path) with
  | Normal name :: _ => Some name
  | _ => None
  end.

(** [Path::extension]: what follows the last dot of the file name, unless the dot is
    its first byte. *)
Definition extension (path : string) : option string :=
  name ← file_name path;
  '(stem, ext) ← rsplit_once "." name;
  if is_empty stem then None else Some ext.

Example file_name_ex : file_name "/proc/1/./environ" = Some "environ" /\ file_name "/" = None
  /\ extension "/usr/share/doc/bash/README.gz" = Some "gz" /\ extension "/a/.bashrc" = None.
Proof. repeat split; reflexivity. Qed.
