(* ===== verification/RustText.v ===== *)
(** * More of the Rust standard library on text

    The functions on [str], [String] and the integer types that the tool, health and
    provider services call: lossy decoding, integer parsing with its errors, number
    formatting, replacement and splitting.  Unicode lower-casing outside ASCII is a
    table of the standard library and is the parameter [UnicodeTables]. *)

From Stdlib Require Import Ascii String.
From S2P Require Import Prelude RustStr.

(** ** [String::from_utf8_lossy]

    Every maximal ill-formed part becomes one U+FFFD. *)

Definition chr (n : Z) : ascii := ascii_of_N (Z.to_N n).
Definition REPLACEMENT : string := String (chr 239) (String (chr 191) (String (chr 189) EmptyString)).

(** The second byte may be [b] after the lead byte [a] of a three-byte encoding. *)
Definition second_of_3 (a b : ascii) : bool :=
  (224 <=? byte a) && (byte a <=? 239) && is_cont b
  && negb ((byte a =? 224) && (byte b <? 160)) && negb ((byte a =? 237) && (159 <? byte b)).
Definition second_of_4 (a b : ascii) : bool :=
  (240 <=? byte a) && (byte a <=? 244) && is_cont b
  && negb ((byte a =? 240) && (byte b <? 144)) && negb ((byte a =? 244) && (143 <? byte b)).
Definition second_of_2 (a b : ascii) : bool :=
  (194 <=? byte a) && (byte a <=? 223) && is_cont b.

Fixpoint from_utf8_lossy (s : string) : string :=
  match s with
  | EmptyString => EmptyString
  | String a s1 =>
      if byte a <? 128 then String a (from_utf8_lossy s1)
      else
        match s1 with
        | EmptyString => REPLACEMENT
        | String b s2 =>
            if second_of_2 a b then String a (String b (from_utf8_lossy s2))
            else if second_of_3 a b then
              match s2 with
              | EmptyString => REPLACEMENT
              | String c s3 =>
                  if is_cont c then String a (String b (String c (from_utf8_lossy s3)))
                  else REPLACEMENT +:+ from_utf8_lossy s2
              end
            else if second_of_4 a b then
              match s2 with
              | EmptyString => REPLACEMENT
              | String c s3 =>
                  if is_cont c then
                    match s3 with
                    | EmptyString => REPLACEMENT
                    | String d s4 =>
                        if is_cont d
                        then String a (String b (String c (String d (from_utf8_lossy s4))))
                        else REPLACEMENT +:+ from_utf8_lossy s3
                    end
                  else REPLACEMENT +:+ from_utf8_lossy s2
              end
            else REPLACEMENT +:+ from_utf8_lossy s1
        end
  end.

Definition text_like (s : string) : Prop := exists cs, well_formed cs /\ s = sconcat cs.

Lemma text_like_valid s : text_like s -> valid_utf8 s = true.
Proof. intros (cs & Hcs & ->). by apply valid_sconcat. Qed.

Lemma text_like_cons g s : char_ok g = true -> text_like s -> text_like (g +:+ s).
Proof. intros Hg (cs & Hcs & ->). exists (g :: cs). split; [by constructor|done]. Qed.

Lemma text_like_nil : text_like EmptyString.
Proof. by exists []. Qed.

Lemma replacement_ok : char_ok REPLACEMENT = true.
Proof. reflexivity. Qed.

Lemma text_like_replacement s : text_like s -> text_like (REPLACEMENT +:+ s).
Proof. apply text_like_cons, replacement_ok. Qed.

Lemma lossy_char_1 a : (byte a <? 128) = true -> char_ok (String a EmptyString) = true.
Proof. done. Qed.
Lemma lossy_char_2 a b : second_of_2 a b = true -> char_ok (String a (String b EmptyString)) = true.
Proof.
  unfold second_of_2, char_ok, is_cont. intros. inv_result.
  cbn [list_ascii_of_string List.map]. by repeat match goal with H : _ = true |- _ => rewrite H; clear H end.
Qed.
Lemma lossy_char_3 a b c : second_of_3 a b = true -> is_cont c = true ->
  char_ok (String a (String b (String c EmptyString))) = true.
Proof.
  unfold second_of_3, char_ok, is_cont. intros. inv_result.
  cbn [list_ascii_of_string List.map].
  repeat match goal with H : _ = true |- _ => rewrite H; clear H end.
  by repeat match goal with H : _ && _ = false |- _ => rewrite H; clear H end.
Qed.
Lemma lossy_char_4 a b c d : second_of_4 a b = true -> is_cont c = true -> is_cont d = true ->
  char_ok (String a (String b (String c (String d EmptyString)))) = true.
Proof.
  unfold second_of_4, char_ok, is_cont. intros. inv_result.
  cbn [list_ascii_of_string List.map].
  repeat match goal with H : _ = true |- _ => rewrite H; clear H end.
  by repeat match goal with H : _ && _ = false |- _ => rewrite H; clear H end.
Qed.

Lemma from_utf8_lossy_text s : text_like (from_utf8_lossy s).
Proof.
  enough (forall n s, (String.length s <= n)%nat -> text_like (from_utf8_lossy s)) as H by eauto.
  clear s. induction n as [|n IH]; intros s Hn.
  { destruct s; [apply text_like_nil|cbn in Hn; lia]. }
  pose proof (text_like_replacement _ text_like_nil) as Hr. rewrite app_empty_r in Hr.
  destruct s as [|a s1]; [apply text_like_nil|]. cbn [String.length] in Hn. cbn [from_utf8_lossy].
  destruct (byte a <? 128) eqn:Ha.
  { apply (text_like_cons (String a EmptyString)); [by apply lossy_char_1|apply IH; lia]. }
  destruct s1 as [|b s2]; [done|]. cbn [String.length] in Hn.
  destruct (second_of_2 a b) eqn:H2.
  { apply (text_like_cons (String a (String b EmptyString))); [by apply lossy_char_2|apply IH; lia]. }
  destruct (second_of_3 a b) eqn:H3.
  { destruct s2 as [|c s3]; [done|]. cbn [String.length] in Hn. destruct (is_cont c) eqn:Hc.
    - apply (text_like_cons (String a (String b (String c EmptyString)))); [by apply lossy_char_3|apply IH; lia].
    - apply text_like_replacement, IH. cbn [String.length]. lia. }
  destruct (second_of_4 a b) eqn:H4; [|apply text_like_replacement, IH; cbn [String.length]; lia].
  destruct s2 as [|c s3]; [done|]. cbn [String.length] in Hn.
  destruct (is_cont c) eqn:Hc; [|apply text_like_replacement, IH; cbn [String.length]; lia].
  destruct s3 as [|d s4]; [done|]. cbn [String.length] in Hn. destruct (is_cont d) eqn:Hd.
  - apply (text_like_cons (String a (String b (String c (String d EmptyString)))));
      [by apply lossy_char_4|apply IH; lia].
  - apply text_like_replacement, IH. cbn [String.length]. lia.
Qed.

(** Lossy decoding yields valid text and leaves valid text alone. *)
Lemma from_utf8_lossy_valid s : valid_utf8 (from_utf8_lossy s) = true.
Proof. apply text_like_valid, from_utf8_lossy_text. Qed.

Lemma from_utf8_lossy_char g s : char_ok g = true -> from_utf8_lossy (g +:+ s) = g +:+ from_utf8_lossy s.
Proof.
  unfold char_ok. destruct g as [|a [|b [|c [|d [|e g]]]]]; cbn [list_ascii_of_string List.map];
    intros H; try done; cbn [String.append from_utf8_lossy]; inv_result.
  - by rewrite H.
  - replace (byte a <? 128) with false by (symmetry; zbool; apply Z.ltb_ge; lia).
    unfold second_of_2, is_cont. by repeat match goal with H : _ = true |- _ => rewrite H; clear H end.
  - replace (byte a <? 128) with false by (symmetry; zbool; apply Z.ltb_ge; lia).
    replace (second_of_2 a b) with false
      by (symmetry; unfold second_of_2; zbool; destruct (Z.leb_spec (byte a) 223); [lia|];
          cbn; by rewrite andb_false_r).
    unfold second_of_3, is_cont.
    repeat match goal with H : _ = true |- _ => rewrite H; clear H end.
    by repeat match goal with H : _ && _ = false |- _ => rewrite H; clear H end.
  - replace (byte a <? 128) with false by (symmetry; zbool; apply Z.ltb_ge; lia).
    replace (second_of_2 a b) with false
      by (symmetry; unfold second_of_2; zbool; destruct (Z.leb_spec (byte a) 223); [lia|];
          cbn; by rewrite andb_false_r).
    replace (second_of_3 a b) with false
      by (symmetry; unfold second_of_3; zbool; destruct (Z.leb_spec (byte a) 239); [lia|];
          cbn; by rewrite andb_false_r).
    unfold second_of_4, is_cont.
    repeat match goal with H : _ = true |- _ => rewrite H; clear H end.
    by repeat match goal with H : _ && _ = false |- _ => rewrite H; clear H end.
Qed.

Lemma from_utf8_lossy_id s : valid_utf8 s = true -> from_utf8_lossy s = s.
Proof.
  intros Hv%valid_chars. rewrite <-(sconcat_chars s) at 2. rewrite <-(sconcat_chars s) at 1.
  induction Hv as [|g gs Hg Hgs IH]; [done|]. cbn [sconcat]. by rewrite from_utf8_lossy_char, IH.
Qed.

(** ** Integer parsing

    [from_str_radix] of a [signed] or unsigned type with the values [min..=max]: an
    optional sign (minus only for signed types), then at least one digit; the first
    character that is no digit or makes the value leave the range is the error. *)

Inductive IntErrorKind := IntEmpty | IntInvalidDigit | IntPosOverflow | IntNegOverflow.

(** [Display for ParseIntError] *)
Definition IntError_fmt (e : IntErrorKind) : string :=
  match e with
  | IntEmpty => "cannot parse integer from empty string"
  | IntInvalidDigit => "invalid digit found in string"
  | IntPosOverflow => "number too large to fit in target type"
  | IntNegOverflow => "number too small to fit in target type"
  end.

(** [char::to_digit] *)
Definition to_digit (radix : Z) (c : ascii) : option Z :=
  let d := if is_ascii_digit c then byte c - 48
           else if (97 <=? byte c) && (byte c <=? 122) then byte c - 87
           else if (65 <=? byte c) && (byte c <=? 90) then byte c - 55
           else radix in
  if d <? radix then Some d else None.

Fixpoint int_digits (radix max acc : Z) (s : string) : result IntErrorKind Z :=
  match s with
  | EmptyString => Ok acc
  | String c s' =>
      d ← ok_or (to_digit radix c) IntInvalidDigit;
      fail_if (max <? acc * radix + d) IntPosOverflow;;
      int_digits radix max (acc * radix + d) s'
  end.

Fixpoint neg_digits (radix min acc : Z) (s : string) : result IntErrorKind Z :=
  match s with
  | EmptyString => Ok acc
  | String c s' =>
      d ← ok_or (to_digit radix c) IntInvalidDigit;
      fail_if (acc * radix - d <? min) IntNegOverflow;;
      neg_digits radix min (acc * radix - d) s'
  end.

Definition from_str_radix (signed : bool) (min max radix : Z) (s : string) : result IntErrorKind Z :=
  match s with
  | EmptyString => Err IntEmpty
  | String c r =>
      if (Ascii.eqb c "+" || Ascii.eqb c "-") && is_empty r then Err IntInvalidDigit
      else if Ascii.eqb c "+" then int_digits radix max 0 r
      else if signed && Ascii.eqb c "-" then neg_digits radix min 0 r
      else int_digits radix max 0 s
  end.

Definition U8_MAX : Z := 255.
Definition U16_MAX : Z := 65535.
Definition I32_MIN : Z := -2147483648.

Definition parse_u8 : string -> result IntErrorKind Z := from_str_radix false 0 U8_MAX 10.
Definition parse_u32 : string -> result IntErrorKind Z := from_str_radix false 0 U32_MAX 10.
Definition parse_u64 : string -> result IntErrorKind Z := from_str_radix false 0 U64_MAX 10.
Definition parse_i32 : string -> result IntErrorKind Z := from_str_radix true I32_MIN I32_MAX 10.

Lemma to_digit_bounds radix c d : 0 < radix -> to_digit radix c = Some d -> 0 <= d < radix.
Proof.
  intros Hr. unfold to_digit, is_ascii_digit.
  destruct (Z.leb_spec 48 (byte c)), (Z.leb_spec (byte c) 57); cbn [andb];
  destruct (Z.leb_spec 97 (byte c)), (Z.leb_spec (byte c) 122); cbn [andb];
  destruct (Z.leb_spec 65 (byte c)), (Z.leb_spec (byte c) 90); cbn [andb];
  match goal with |- context [?a <? radix] => destruct (Z.ltb_spec a radix) end;
  intros [= <-]; lia.
Qed.

Lemma int_digits_bounds radix max acc s n :
  0 < radix -> 0 <= acc <= max -> int_digits radix max acc s = Ok n -> 0 <= n <= max.
Proof.
  intros Hr. revert acc. induction s as [|c s IH]; intros acc Ha H; cbn in H; inv_result; [by subst|].
  apply to_digit_bounds in H; [|done]. zbool. eapply IH; [|done]. nia.
Qed.

Lemma neg_digits_bounds radix min acc s n :
  0 < radix -> min <= acc <= 0 -> neg_digits radix min acc s = Ok n -> min <= n <= 0.
Proof.
  intros Hr. revert acc. induction s as [|c s IH]; intros acc Ha H; cbn in H; inv_result; [by subst|].
  apply to_digit_bounds in H; [|done]. zbool. eapply IH; [|done]. nia.
Qed.

(** A parsed integer is in the range of its type. *)
Lemma from_str_radix_range signed min max radix s n :
  0 < radix -> min <= 0 <= max -> from_str_radix signed min max radix s = Ok n -> min <= n <= max.
Proof.
  intros Hr Hm. unfold from_str_radix. destruct s as [|c r]; [done|].
  destruct (_ && is_empty r); [done|]. destruct (Ascii.eqb c "+").
  { intros H%int_digits_bounds; lia. }
  destruct (signed && _); [intros H%neg_digits_bounds; lia|intros H%int_digits_bounds; lia].
Qed.

Lemma int_digits_no_panic radix max acc s : int_digits radix max acc s <> Panic.
Proof.
  revert acc. induction s as [|c s IH]; intros acc; cbn; [done|].
  destruct (to_digit radix c); cbn; [|done]. destruct (max <? _); cbn; [done|apply IH].
Qed.
Lemma neg_digits_no_panic radix min acc s : neg_digits radix min acc s <> Panic.
Proof.
  revert acc. induction s as [|c s IH]; intros acc; cbn; [done|].
  destruct (to_digit radix c); cbn; [|done]. destruct (_ <? min); cbn; [done|apply IH].
Qed.
Lemma from_str_radix_no_panic signed min max radix s : from_str_radix signed min max radix s <> Panic.
Proof.
  unfold from_str_radix. destruct s; [done|]. destruct (_ && _); [done|].
  destruct (Ascii.eqb _ _); [apply int_digits_no_panic|].
  destruct (signed && _); [apply neg_digits_no_panic|apply int_digits_no_panic].
Qed.

(** ** Number formatting *)

(** [format!("{}", n)] for a signed integer. *)
Definition show_int (n : Z) : string :=
  if n <? 0 then "-" +:+ show_uint (- n) else show_uint n.

Definition digit_char (d : Z) : ascii := chr (if d <? 10 then 48 + d else 87 + d).

(** The digits of [n], most significant first; [fuel] bounds their number. *)
Fixpoint radix_digits (fuel : nat) (radix n : Z) (acc : string) : string :=
  match fuel with
  | O => acc
  | S fuel' =>
      let acc := String (digit_char (n mod radix)) acc in
      if n <? radix then acc else radix_digits fuel' radix (n / radix) acc
  end.

(** [{:x}] and [{:04o}] of a value of at most 64 bits. *)
Definition show_hex (n : Z) : string := radix_digits 16 16 n EmptyString.
Definition show_octal4 (n : Z) : string :=
  let s := radix_digits 22 8 n EmptyString in
  stake (4 - String.length s) "0000" +:+ s.

Example show_hex_ex : show_hex 48879 = "beef" /\ show_hex 0 = "0".
Proof. split; reflexivity. Qed.
Example show_octal_ex : show_octal4 420 = "0644" /\ show_octal4 2541 = "4755" /\ show_octal4 0 = "0000".
Proof. repeat split; reflexivity. Qed.

(** ** Case, trimming, replacement, splitting *)

(** What [str::to_lowercase] makes of text with characters outside ASCII. *)
Class UnicodeTables := { lowercase_unicode : string -> string }.

Definition is_ascii (c : ascii) : bool := byte c <? 128.

Definition to_lowercase `{UnicodeTables} (s : string) : string :=
  if bytes_all is_ascii s then to_ascii_lowercase s else lowercase_unicode s.

(** [trim_start_matches(p)] for a string pattern: the prefix as often as it occurs. *)
Fixpoint trim_start_str (fuel : nat) (p s : string) : string :=
  match fuel with
  | O => s
  | S fuel' => match strip_prefix p s with Some r => trim_start_str fuel' p r | None => s end
  end.
Definition trim_start_matches (p s : string) : string := trim_start_str (String.length s) p s.

(** [trim_end_matches(c)], [trim_matches(c)] for an ASCII character. *)
Fixpoint trim_start_char (c : ascii) (s : string) : string :=
  match s with
  | String d s' => if Ascii.eqb d c then trim_start_char c s' else s
  | EmptyString => EmptyString
  end.
Fixpoint trim_end_char (c : ascii) (s : string) : string :=
  match s with
  | EmptyString => EmptyString
  | String d s' =>
      let r := trim_end_char c s' in
      if is_empty r && Ascii.eqb d c then EmptyString else String d r
  end.
Definition trim_matches_char (c : ascii) (s : string) : string := trim_end_char c (trim_start_char c s).

(** [trim_end_matches] of a set of ASCII characters, [trim_start]. *)
Fixpoint trim_end_bytes (p : ascii -> bool) (s : string) : string :=
  match s with
  | EmptyString => EmptyString
  | String d s' =>
      let r := trim_end_bytes p s' in
      if is_empty r && p d then EmptyString else String d r
  end.
Definition trim_start (s : string) : string := sconcat (drop_while is_whitespace (chars s)).

(** [String::truncate] *)
Definition truncate {E} (s : string) (n : usize) : result E string :=
  if len s <=? n then Ok s
  else if is_char_boundary s (Z.to_nat n) then Ok (stake (Z.to_nat n) s) else Panic.

(** [str::split(c)] for an ASCII character: always at least one piece. *)
Fixpoint split_char_aux (c : ascii) (acc s : string) : list string :=
  match s with
  | EmptyString => [acc]
  | String d s' =>
      if Ascii.eqb d c then acc :: split_char_aux c EmptyString s'
      else split_char_aux c (acc +:+ String d EmptyString) s'
  end.
Definition split_char (c : ascii) (s : string) : list string := split_char_aux c EmptyString s.

(** [str::split_once(p)] for a string pattern. *)
Fixpoint split_once_str (p s : string) : option (string * string) :=
  match strip_prefix p s with
  | Some r => Some (EmptyString, r)
  | None =>
      match s with
      | EmptyString => None
      | String c s' =>
          match split_once_str p s' with
          | Some (a, b) => Some (String c a, b)
          | None => None
          end
      end
  end.

(** [str::replace(p, q)] for a non-empty pattern: left to right, not overlapping. *)
Fixpoint replace_str (fuel : nat) (p q s : string) : string :=
  match fuel with
  | O => s
  | S fuel' =>
      match split_once_str p s with
      | Some (a, b) => a +:+ q +:+ replace_str fuel' p q b
      | None => s
      end
  end.
Definition replace (p q s : string) : string := replace_str (String.length s) p q s.

(** A pattern of one character is replaced wherever it occurs. *)
Fixpoint substituted (c : ascii) (q s : string) : string :=
  match s with
  | EmptyString => EmptyString
  | String d s' => if Ascii.eqb d c then q +:+ substituted c q s' else String d (substituted c q s')
  end.

Lemma replace_single c q s : replace (String c EmptyString) q s = substituted c q s.
Proof.
  unfold replace. assert (forall fuel, (String.length s <= fuel)%nat ->
    replace_str fuel (String c EmptyString) q s = substituted c q s) as H; [|by apply H].
  induction s as [|d s IH]; intros fuel; [by destruct fuel|]. cbn [String.length]. intros Hf.
  destruct fuel as [|fuel]; [lia|]. cbn [replace_str split_once_str strip_prefix substituted].
  destruct (Ascii.eqb_spec d c) as [->|Hc].
  - rewrite Ascii.eqb_refl. cbn. by rewrite IH by lia.
  - rewrite (proj2 (Ascii.eqb_neq c d)) by congruence. rewrite <-(IH (S fuel)) by lia. cbn [replace_str].
    by destruct (split_once_str (String c EmptyString) s) as [[a b]|].
Qed.

(** [chars().count()] *)
Definition char_count (s : string) : usize := vlen (chars s).

Example replace_ex : replace "::" "." "org::sentia::apply" = "org.sentia.apply".
Proof. reflexivity. Qed.
Definition QUOTE : ascii := chr 34.
Example trim_ex : trim_matches_char QUOTE (String QUOTE ("Debian" +:+ String QUOTE EmptyString)) = "Debian"
  /\ trim_end_char "%" "42%" = "42"
  /\ trim_start_matches "0x" "0x1003" = "1003".
Proof. repeat split; reflexivity. Qed.

(** ** Fields separated by spaces *)

(** Text without whitespace, made of ASCII characters. *)
Definition word_char (c : ascii) : bool := (33 <=? byte c) && (byte c <=? 126).
Definition is_word (s : string) : bool := negb (is_empty s) && bytes_all word_char s.

Lemma byte_range c : 0 <= byte c < 256.
Proof. unfold byte. pose proof (N_ascii_bounded c). lia. Qed.

Lemma word_char_not_cont c : word_char c = true -> is_cont c = false.
Proof. unfold word_char, is_cont. intros. inv_result. zbool. destruct (Z.leb_spec 128 (byte c)); [lia|done]. Qed.

(** ASCII text is cut into its bytes. *)
Lemma chars_ascii s : bytes_all is_ascii s = true ->
  chars s = map (fun c => String c EmptyString) (list_ascii_of_string s).
Proof.
  unfold bytes_all. induction s as [|c s IH]; [done|].
  cbn [list_ascii_of_string map forallb]. intros [Hc Hs]%andb_true_iff.
  rewrite chars_cons, (IH Hs). destruct s as [|d s]; [done|].
  cbn [list_ascii_of_string map]. cbn [first_byte].
  replace (is_cont d) with false; [done|]. symmetry.
  cbn [list_ascii_of_string forallb] in Hs. apply andb_true_iff in Hs as [Hd _].
  unfold is_ascii, is_cont in *. zbool. by destruct (Z.leb_spec 128 (byte d)); [lia|].
Qed.

Lemma split_ws_solid acc w k : bytes_all word_char w = true ->
  split_ws_aux acc (map (fun c => String c EmptyString) (list_ascii_of_string w) ++ k)
  = split_ws_aux (acc +:+ w) k.
Proof.
  unfold bytes_all. revert acc. induction w as [|c w IH]; intros acc Hw.
  { by rewrite app_empty_r. }
  cbn [list_ascii_of_string map forallb app split_ws_aux] in *. apply andb_true_iff in Hw as [Hc Hw].
  replace (is_whitespace (String c EmptyString)) with false.
  - rewrite IH by done. by rewrite str_app_assoc.
  - unfold is_whitespace, word_char in *. cbn [list_ascii_of_string List.map]. inv_result. zbool.
    symmetry. destruct (Z.leb_spec (byte c) 13), (Z.eqb_spec (byte c) 32); lia.
Qed.

Lemma words_ascii ws : Forall (fun w => is_word w = true) ws -> bytes_all is_ascii (join " " ws) = true.
Proof.
  assert (forall w, is_word w = true -> bytes_all is_ascii w = true) as Hw.
  { unfold is_word. intros w [_ H]%andb_true_iff. unfold bytes_all in *. rewrite forallb_forall in *.
    intros c Hc. apply H in Hc. unfold word_char, is_ascii in *. inv_result. zbool. apply Z.ltb_lt. lia. }
  induction 1 as [|w ws H Hs IH]; [done|]. destruct ws as [|v ws]; [by apply Hw|].
  change (join " " (w :: v :: ws)) with (w +:+ " " +:+ join " " (v :: ws)).
  rewrite !bytes_all_app, (Hw w H), IH. done.
Qed.

Lemma list_ascii_app a b :
  list_ascii_of_string (a +:+ b) = list_ascii_of_string a ++ list_ascii_of_string b.
Proof. induction a as [|c a IH]; [done|]. cbn. by rewrite IH. Qed.

(** Words joined by single spaces are found again. *)
Lemma split_whitespace_join ws : Forall (fun w => is_word w = true) ws -> split_whitespace (join " " ws) = ws.
Proof.
  intros Hws. unfold split_whitespace. rewrite chars_ascii by by apply words_ascii.
  induction Hws as [|w ws Hw Hws IH]; [done|]. unfold is_word in Hw. apply andb_true_iff in Hw as [Hne Hw].
  assert (is_empty w = false) as He by by apply negb_true_iff.
  destruct ws as [|v ws].
  - change (join " " [w]) with w. rewrite <-(app_nil_r (map _ _)), split_ws_solid by done.
    cbn. by rewrite He.
  - change (join " " (w :: v :: ws)) with (w +:+ String " " (join " " (v :: ws))).
    rewrite list_ascii_app, map_app, split_ws_solid by done.
    cbn [list_ascii_of_string map split_ws_aux String.append].
    replace (is_whitespace " ") with true by done. rewrite He. by rewrite IH.
Qed.

(** ** Printed numbers are read back *)

Lemma pretty_char_digit x : (x < 10)%N -> to_digit 10 (pretty_N_char x) = Some (Z.of_N x)
  /\ is_ascii_digit (pretty_N_char x) = true.
Proof.
  intros H. assert (x = 0 \/ x = 1 \/ x = 2 \/ x = 3 \/ x = 4 \/ x = 5 \/ x = 6 \/ x = 7 \/ x = 8 \/ x = 9)%N
    as Hx by lia. by destruct_or! Hx; subst.
Qed.

Lemma digits_pretty_go max x s : Z.of_N x <= max ->
  int_digits 10 max 0 (pretty_N_go x s) = int_digits 10 max (Z.of_N x) s.
Proof.
  revert s. induction (N.lt_wf_0 x) as [x _ IH]; intros s Hx.
  destruct (decide (x = 0)%N) as [->|]; [by rewrite pretty_N_go_0|].
  assert (Z.of_N (x / 10) = Z.of_N x / 10) as Hd by (rewrite N2Z.inj_div; lia).
  rewrite pretty_N_go_step by lia. rewrite IH; [|apply N.div_lt; lia|rewrite Hd; Z.to_euclidean_division_equations; lia].
  cbn [int_digits]. destruct (pretty_char_digit (x mod 10)%N) as [-> _]; [by apply N.mod_lt|].
  cbn [ok_or mbind result_bind]. rewrite Hd, N2Z.inj_mod.
  replace (Z.of_N x / 10 * 10 + Z.of_N x mod Z.of_N 10) with (Z.of_N x)
    by (change (Z.of_N 10) with 10; Z.to_euclidean_division_equations; lia).
  replace (max <? Z.of_N x) with false by (symmetry; apply Z.ltb_ge; lia). done.
Qed.

Lemma pretty_go_all (p : ascii -> bool) x s :
  (forall c, is_ascii_digit c = true -> p c = true) -> bytes_all p s = true ->
  bytes_all p (pretty_N_go x s) = true.
Proof.
  intros Hp. revert s. induction (N.lt_wf_0 x) as [x _ IH]; intros s Hs.
  destruct (decide (x = 0)%N) as [->|]; [by rewrite pretty_N_go_0|].
  rewrite pretty_N_go_step by lia. apply IH; [apply N.div_lt; lia|].
  unfold bytes_all in *. cbn [list_ascii_of_string forallb]. rewrite Hs, Hp; [done|].
  apply pretty_char_digit. by apply N.mod_lt.
Qed.

Lemma show_uint_digits n : bytes_all is_ascii_digit (show_uint n) = true.
Proof.
  unfold show_uint, pretty, pretty_N. case_decide; [done|]. by apply pretty_go_all.
Qed.

Lemma show_uint_nonempty n : is_empty (show_uint n) = false.
Proof.
  unfold show_uint, pretty, pretty_N. case_decide as Hn; [done|].
  generalize EmptyString. revert Hn. generalize (Z.to_N n). intros x.
  induction (N.lt_wf_0 x) as [x _ IH]; intros Hx s. rewrite pretty_N_go_step by lia.
  destruct (decide (x / 10 = 0)%N) as [->|Hd]; [by rewrite pretty_N_go_0|].
  apply IH; [apply N.div_lt; lia|done].
Qed.

Lemma show_uint_word n : is_word (show_uint n) = true.
Proof.
  unfold is_word. rewrite show_uint_nonempty. cbn [negb andb].
  pose proof (show_uint_digits n) as H. unfold bytes_all in *. rewrite forallb_forall in *.
  intros c Hc. apply H in Hc. unfold is_ascii_digit, word_char in *. inv_result. zbool.
  apply andb_true_iff. split; apply Z.leb_le; lia.
Qed.

(** [n.to_string().parse()] is [n]. *)
Lemma parse_show_uint signed min max n :
  0 <= n <= max -> from_str_radix signed min max 10 (show_uint n) = Ok n.
Proof.
  intros Hn. pose proof (show_uint_nonempty n) as Hne. pose proof (show_uint_digits n) as Hd.
  assert (int_digits 10 max 0 (show_uint n) = Ok n) as Hp.
  { unfold show_uint, pretty, pretty_N. case_decide.
    - replace n with 0 by lia. cbn [int_digits]. change (to_digit 10 _) with (Some 0). cbn [ok_or mbind result_bind].
      change (0 * 10 + 0) with 0. by destruct (Z.ltb_spec max 0); [lia|].
    - rewrite digits_pretty_go by lia. cbn. f_equal. lia. }
  destruct (show_uint n) as [|c r]; [done|]. unfold from_str_radix.
  unfold bytes_all in Hd. cbn [list_ascii_of_string forallb] in Hd. apply andb_true_iff in Hd as [Hc _].
  destruct (Ascii.eqb_spec c "+") as [->|]; [done|]. destruct (Ascii.eqb_spec c "-") as [->|]; [done|].
  cbn [orb andb]. by rewrite andb_false_r.
Qed.

(** ** Process status lines *)

(** The text of /proc/<pid>/stat: the kernel prints the command name between
    parentheses, unescaped, and then the numeric fields. *)
Definition stat_line (pid name fields : string) : string :=
  (pid +:+ " ") +:+ String "("%char (name +:+ String ")"%char fields).

Lemma split_comm pid name fields :
  lacks "(" pid = true -> lacks ")" fields = true ->
  rsplit_once ")" (stat_line pid name fields) = Some (pid +:+ " (" +:+ name, fields) /\
  split_once "(" (stat_line pid name fields)
    = Some (pid +:+ " ", name +:+ String ")"%char fields).
Proof.
  intros Hp Hf. unfold stat_line. split.
  - replace ((pid +:+ " ") +:+ String "(" (name +:+ String ")" fields))
      with ((pid +:+ " (" +:+ name) +:+ String ")" fields)
      by (by rewrite !str_app_assoc).
    by apply rsplit_once_app.
  - apply split_once_app. unfold lacks in *. by rewrite bytes_all_app, Hp.
Qed.

(** ** Trimming around words *)

Definition spaces (n : nat) : string := sconcat (repeat " " n).
Abbreviation singles s := (map (fun c => String c EmptyString) (list_ascii_of_string s)).

Lemma sconcat_singles s : sconcat (singles s) = s.
Proof. induction s as [|c s IH]; [done|]. cbn. by rewrite IH. Qed.

Lemma singles_spaces n : singles (spaces n) = repeat " " n.
Proof. induction n as [|n IH]; [done|]. unfold spaces in *. cbn. by rewrite IH. Qed.

Lemma spaces_ascii n : bytes_all is_ascii (spaces n) = true.
Proof. induction n as [|n IH]; [done|]. unfold spaces in *. cbn [repeat sconcat]. by rewrite bytes_all_app, IH. Qed.

Lemma word_char_solid c : word_char c = true -> is_whitespace (String c EmptyString) = false.
Proof.
  unfold is_whitespace, word_char. cbn [list_ascii_of_string List.map]. intros. inv_result. zbool.
  destruct (Z.leb_spec (byte c) 13), (Z.eqb_spec (byte c) 32); lia.
Qed.

Lemma repeat_spaces_ws n : Forall (fun g => is_whitespace g = true) (repeat " " n).
Proof. by induction n; constructor. Qed.

(** Text that begins and ends with a solid character. *)
Definition solid (s : string) : Prop :=
  bytes_all is_ascii s = true /\
  (s = EmptyString \/ exists c d a b, s = String c a /\ s = b +:+ String d EmptyString /\
     word_char c = true /\ word_char d = true).

Lemma drop_while_hd {A} (p : A -> bool) l :
  match l with x :: _ => p x = false | [] => True end -> drop_while p l = l.
Proof. destruct l as [|x l]; [done|]. cbn. by intros ->. Qed.

Lemma rev_repeat {A} (x : A) n : rev (repeat x n) = repeat x n.
Proof.
  induction n as [|n IH]; [done|]. cbn [repeat rev]. rewrite IH. clear IH.
  induction n as [|n IH]; [done|]. cbn. by rewrite IH.
Qed.

Lemma trim_solid n s k : solid s -> trim (spaces n +:+ s +:+ spaces k) = s.
Proof.
  intros [Ha Hs]. unfold trim. rewrite chars_ascii by by rewrite !bytes_all_app, !spaces_ascii, Ha.
  rewrite !list_ascii_app, !map_app, !singles_spaces, drop_while_app by apply repeat_spaces_ws.
  destruct Hs as [->|(c & d & a & b & Hc & Hd & Wc & Wd)].
  { cbn [list_ascii_of_string map app]. rewrite <-(app_nil_r (repeat _ _)), drop_while_app by apply repeat_spaces_ws.
    done. }
  rewrite drop_while_hd.
  - unfold drop_while_end. rewrite rev_app_distr, rev_repeat, drop_while_app by apply repeat_spaces_ws.
    rewrite Hd at 1. rewrite list_ascii_app, map_app, rev_app_distr. cbn [list_ascii_of_string map rev app].
    cbn [drop_while]. rewrite word_char_solid by done. cbn [rev]. rewrite rev_involutive, sconcat_app, sconcat_singles.
    by rewrite Hd.
  - rewrite Hc. cbn [list_ascii_of_string map app]. by apply word_char_solid.
Qed.

Lemma is_word_ends w : is_word w = true -> exists c d a b,
  w = String c a /\ w = b +:+ String d EmptyString /\ word_char c = true /\ word_char d = true.
Proof.
  unfold is_word, bytes_all. intros [Hne Hw]%andb_true_iff. destruct w as [|c a]; [done|].
  assert (exists d b, String c a = b +:+ String d EmptyString /\ word_char d = true) as (d & b & Hd & Wd).
  { clear Hne. revert c Hw. induction a as [|e a IH]; intros c Hw.
    - exists c, EmptyString. cbn in Hw. by apply andb_true_iff in Hw as [? _].
    - cbn [list_ascii_of_string forallb] in Hw. apply andb_true_iff in Hw as [_ Hw].
      destruct (IH e Hw) as (d & b & -> & Wd). by exists d, (String c b). }
  cbn [list_ascii_of_string forallb] in Hw. apply andb_true_iff in Hw as [Wc _].
  exists c, d, a, b. by repeat split.
Qed.

Lemma solid_words ws : Forall (fun w => is_word w = true) ws -> solid (join " " ws).
Proof.
  intros Hws. split; [by apply words_ascii|]. induction Hws as [|w ws Hw Hws IH]; [by left|]. right.
  destruct (is_word_ends w Hw) as (c & d & a & b & Hc & Hd & Wc & Wd).
  destruct ws as [|v ws]; [by exists c, d, a, b|].
  change (join " " (w :: v :: ws)) with (w +:+ " " +:+ join " " (v :: ws)).
  destruct IH as [E|(c' & d' & a' & b' & _ & Hd' & _ & Wd')].
  { exfalso. apply Forall_cons in Hws as [Hv _]. unfold is_word in Hv. destruct v; [done|]. by destruct ws. }
  exists c, d', (a +:+ " " +:+ join " " (v :: ws)), (w +:+ " " +:+ b'). split; [by rewrite Hc|].
  split; [by rewrite Hd' at 1; rewrite !str_app_assoc|done].
Qed.

Lemma solid_word w : is_word w = true -> solid w.
Proof. intros Hw. apply (solid_words [w]). by constructor. Qed.

Lemma trim_id s : solid s -> trim s = s.
Proof.
  intros Hs. pose proof (trim_solid 0 s 0 Hs) as H. unfold spaces in H.
  cbn [repeat sconcat String.append] in H. by rewrite app_empty_r in H.
Qed.

(** ** Hexadecimal numbers are read back *)

Lemma hex_digit_ind (p : Z -> bool) d : forallb p (seqZ 0 16) = true -> 0 <= d < 16 -> p d = true.
Proof. rewrite forallb_forall. intros H Hd. apply H, list_elem_of_In, elem_of_seqZ. lia. Qed.

Lemma to_digit_char d : 0 <= d < 16 -> to_digit 16 (digit_char d) = Some d.
Proof.
  intros Hd. pose proof (hex_digit_ind (fun d => bool_decide (to_digit 16 (digit_char d) = Some d)) d) as H.
  by apply bool_decide_eq_true in H.
Qed.

Lemma int_digits_radix fuel max n acc :
  0 <= n <= max -> n < 16 ^ Z.of_nat fuel ->
  int_digits 16 max 0 (radix_digits fuel 16 n acc) = int_digits 16 max n acc.
Proof.
  revert n acc. induction fuel as [|fuel IH]; intros n acc Hn Hf.
  { cbn [radix_digits]. by replace n with 0 by lia. }
  pose proof (Z.mod_pos_bound n 16 ltac:(lia)) as Hm. pose proof (Z.div_mod n 16 ltac:(lia)) as Hd.
  assert (forall a, a * 16 + n mod 16 = n -> int_digits 16 max a (String (digit_char (n mod 16)) acc)
            = int_digits 16 max n acc) as Hstep.
  { intros a Ha. cbn [int_digits]. rewrite to_digit_char by done. cbn [ok_or mbind result_bind]. rewrite Ha.
    destruct (Z.ltb_spec max n); [lia|done]. }
  cbn [radix_digits]. destruct (Z.ltb_spec n 16).
  - apply Hstep. rewrite Z.mod_small; lia.
  - rewrite IH; [apply Hstep; lia| |].
    + split; [apply Z.div_pos; lia|]. apply Z.div_le_upper_bound; lia.
    + apply Z.div_lt_upper_bound; [lia|]. rewrite <-Z.pow_succ_r by lia. by rewrite <-Nat2Z.inj_succ.
Qed.

Lemma is_lower_hex_digit d : 0 <= d < 16 -> is_lower_hex (digit_char d) = true.
Proof.
  by apply (hex_digit_ind (fun d => is_lower_hex (digit_char d))).
Qed.

Lemma radix_digits_hex fuel n acc :
  bytes_all is_lower_hex acc = true -> bytes_all is_lower_hex (radix_digits fuel 16 n acc) = true.
Proof.
  revert n acc. induction fuel as [|fuel IH]; intros n acc Ha; [done|]. cbn [radix_digits].
  assert (bytes_all is_lower_hex (String (digit_char (n mod 16)) acc) = true) as H.
  { unfold bytes_all in *. cbn [list_ascii_of_string forallb]. rewrite Ha, andb_true_r.
    apply is_lower_hex_digit, Z.mod_pos_bound. lia. }
  destruct (n <? 16); [done|by apply IH].
Qed.

Lemma length_radix_digits fuel n acc :
  (String.length acc < String.length (radix_digits (S fuel) 16 n acc) <= S fuel + String.length acc)%nat.
Proof.
  revert n acc. induction fuel as [|fuel IH]; intros n acc; cbn [radix_digits].
  - destruct (n <? 16); cbn; lia.
  - destruct (n <? 16); [cbn; lia|]. specialize (IH (n / 16) (String (digit_char (n mod 16)) acc)).
    cbn [radix_digits String.length] in *. lia.
Qed.

(** A number of at most 64 bits in hexadecimal: 1 to 16 digits, and its value. *)
Lemma show_hex_shape n : bytes_all is_lower_hex (show_hex n) = true /\ 1 <= len (show_hex n) <= 16.
Proof.
  split; [by apply radix_digits_hex|]. pose proof (length_radix_digits 15 n EmptyString) as H.
  unfold show_hex, len in *. change (String.length EmptyString) with 0%nat in H. lia.
Qed.

Lemma parse_show_hex n : 0 <= n <= U64_MAX -> from_str_radix false 0 U64_MAX 16 (show_hex n) = Ok n.
Proof.
  intros Hn. destruct (show_hex_shape n) as [Hh Hl]. unfold from_str_radix.
  destruct (show_hex n) as [|c r] eqn:E; [by unfold len in Hl; cbn in Hl; lia|].
  assert (Ascii.eqb c "+" = false /\ Ascii.eqb c "-" = false) as [-> ->].
  { unfold bytes_all in Hh. cbn [list_ascii_of_string forallb] in Hh. apply andb_true_iff in Hh as [Hc _].
    split; [by destruct (Ascii.eqb_spec c "+") as [->|]|by destruct (Ascii.eqb_spec c "-") as [->|]]. }
  cbn [orb andb]. rewrite <-E. unfold show_hex. rewrite int_digits_radix; [done|done|].
  apply (Z.le_lt_trans _ U64_MAX); [lia|done].
Qed.

(** Hexadecimal digits are words. *)
Lemma hex_word s : bytes_all is_lower_hex s = true -> 1 <= len s -> is_word s = true.
Proof.
  intros Hs Hl. unfold is_word. replace (is_empty s) with false by (symmetry; apply is_empty_false; lia).
  cbn [negb andb]. unfold bytes_all in *. rewrite forallb_forall in *. intros c Hc. apply Hs in Hc.
  unfold is_lower_hex, is_ascii_digit, word_char in *. apply orb_true_iff in Hc as [Hc|Hc]; inv_result; zbool;
    apply andb_true_iff; split; apply Z.leb_le; lia.
Qed.

Lemma word_ascii s : bytes_all word_char s = true -> bytes_all is_ascii s = true.
Proof.
  unfold bytes_all. rewrite !forallb_forall. intros H c Hc. apply H in Hc.
  unfold word_char, is_ascii in *. inv_result. zbool. apply Z.ltb_lt. lia.
Qed.

Lemma ascii_valid s : bytes_all is_ascii s = true -> valid_utf8 s = true.
Proof.
  intros Hs. unfold valid_utf8. rewrite chars_ascii by done. unfold bytes_all in Hs.
  rewrite forallb_forall in *. intros g Hg. apply in_map_iff in Hg as (c & <- & Hc). apply Hs in Hc.
  exact Hc.
Qed.

(** Whitespace in ASCII after a word is trimmed. *)
Definition ascii_ws (c : ascii) : bool := ((9 <=? byte c) && (byte c <=? 13)) || (byte c =? 32).

Lemma trim_word_ws w b : is_word w = true -> bytes_all ascii_ws b = true -> trim (w +:+ b) = w.
Proof.
  intros Hw Hb. destruct (is_word_ends w Hw) as (c & d & a & e & Hc & Hd & Wc & Wd).
  unfold is_word in Hw. apply andb_true_iff in Hw as [_ Hw].
  assert (bytes_all is_ascii b = true) as Ab.
  { unfold bytes_all in *. rewrite forallb_forall in *. intros x Hx. apply Hb in Hx.
    unfold ascii_ws, is_ascii in *. apply orb_true_iff in Hx as [Hx|Hx]; inv_result; zbool; apply Z.ltb_lt; lia. }
  unfold trim. rewrite chars_ascii by by rewrite bytes_all_app, (word_ascii w), Ab.
  rewrite list_ascii_app, map_app, drop_while_hd.
  2: { rewrite Hc. cbn [list_ascii_of_string map app]. by apply word_char_solid. }
  unfold drop_while_end. rewrite rev_app_distr, drop_while_app.
  - rewrite Hd at 1. rewrite list_ascii_app, map_app, rev_app_distr. cbn [list_ascii_of_string map rev app].
    cbn [drop_while]. rewrite word_char_solid by done. cbn [rev]. by rewrite rev_involutive, sconcat_app, sconcat_singles, Hd.
  - apply Forall_rev. apply Forall_forall. intros g Hg. apply list_elem_of_In, in_map_iff in Hg as (x & <- & Hx).
    unfold bytes_all in Hb. rewrite forallb_forall in Hb. by apply Hb in Hx.
Qed.

(** A separator that does not occur does not split. *)
Lemma split_char_lacks c s acc : lacks c s = true -> split_char_aux c acc s = [acc +:+ s].
Proof.
  revert acc. induction s as [|d s IH]; intros acc; cbn [split_char_aux]; [by rewrite app_empty_r|].
  rewrite lacks_cons. intros [Hd Hs]%andb_true_iff. apply negb_true_iff in Hd. rewrite Hd.
  rewrite IH by done. by rewrite str_app_assoc.
Qed.

(** Every position of ASCII text is a boundary. *)
Lemma ascii_boundary s i : bytes_all is_ascii s = true -> (i <= String.length s)%nat ->
  is_char_boundary s i = true.
Proof.
  intros Hs Hi. unfold is_char_boundary. destruct (Nat.eqb_spec i 0); [done|].
  unfold byte_at. destruct (String.get i s) as [c|] eqn:E.
  - enough (is_ascii c = true) as Hc.
    { unfold is_ascii, is_cont in *. zbool. destruct (Z.leb_spec 128 (byte c)); [lia|done]. }
    clear - Hs E. unfold bytes_all in Hs. revert i E. induction s as [|d s IH]; intros i E; [by destruct i|].
    cbn [list_ascii_of_string forallb] in Hs. apply andb_true_iff in Hs as [Hd Hs].
    destruct i; cbn in E; [by injection E as ->|by eapply IH].
  - apply Nat.eqb_eq. clear - Hi E. revert i Hi E. induction s as [|d s IH]; intros i Hi E; cbn in Hi; [cbn; lia|].
    destruct i; [done|]. cbn in *. f_equal. apply IH; [lia|done].
Qed.
