(* ===== verification/RustFloat.v ===== *)
(** * Floating-point numbers

    [f64] is IEEE 754 binary64: the formal floats of the Standard Library with 53 bits of
    precision, rounded to nearest even.  What the sources use of it: conversions, the four
    operations, comparisons, [clamp], [max], parsing and the [{:.n}] format. *)

From Stdlib Require Import Ascii String.
From Stdlib Require Import SpecFloat.
From S2P Require Import Prelude RustStr RustText.

Definition f64 : Type := spec_float.

Declare Scope f64_scope.
Delimit Scope f64_scope with f64.

(** [n as f64] *)
Definition of_Z (n : Z) : f64 := binary_normalize 53 1024 n 0 false.

Definition fadd : f64 -> f64 -> f64 := SFadd 53 1024.
Definition fsub : f64 -> f64 -> f64 := SFsub 53 1024.
Definition fmul : f64 -> f64 -> f64 := SFmul 53 1024.
Definition fdiv : f64 -> f64 -> f64 := SFdiv 53 1024.
Definition fabs : f64 -> f64 := SFabs.

Notation "x + y" := (fadd x y) : f64_scope.
Notation "x - y" := (fsub x y) : f64_scope.
Notation "x * y" := (fmul x y) : f64_scope.
Notation "x / y" := (fdiv x y) : f64_scope.

Definition partial_cmp : f64 -> f64 -> option comparison := SFcompare.
Definition flt (x y : f64) : bool := SFltb x y.
Definition fle (x y : f64) : bool := SFleb x y.

Notation "x <=? y" := (fle x y) : f64_scope.
Notation "x <? y" := (flt x y) : f64_scope.

Definition is_nan (x : f64) : bool := match x with S754_nan => true | _ => false end.

Definition clamp (x lo hi : f64) : f64 :=
  let x := if (x <? lo)%f64 then lo else x in
  if (hi <? x)%f64 then hi else x.

(** [f64::max], which ignores a NaN. *)
Definition fmax (x y : f64) : f64 :=
  if is_nan x then y else if is_nan y then x else if (x <? y)%f64 then y else x.

(** [partial_cmp(..).unwrap_or(Equal)] *)
Definition cmp_or_equal (x y : f64) : comparison := default Eq (partial_cmp x y).

(** The integer part of a nonnegative quotient, and the half-even rounding. *)
Definition div_half_even (n d : Z) : Z :=
  let q := n / d in
  match Z.compare (2 * (n mod d)) d with
  | Lt => q
  | Gt => q + 1
  | Eq => if Z.even q then q else q + 1
  end.

Definition pow2 (e : Z) : Z := 2 ^ (Z.max 0 e).

(** [x as usize], which saturates. *)
Definition as_usize (x : f64) : usize :=
  match x with
  | S754_finite false m e => Z.min USIZE_MAX (Zpos m * pow2 e / pow2 (- e))
  | S754_infinity false => USIZE_MAX
  | _ => 0
  end.

(** The decimal number [m * 10 ^ e], rounded to [prec] bits. *)
Definition decimal_to (prec emax : Z) (negative : bool) (m e : Z) : spec_float :=
  match m with
  | Zpos _ =>
      if 0 <=? e then
        let x := binary_normalize prec emax (m * 10 ^ e) 0 false in if negative then SFopp x else x
      else
        let '(q, e', l) := SFdiv_core_binary prec emax m 0 (10 ^ (- e)) 0 in
        binary_round_aux prec emax negative q e' l
  | _ => S754_zero negative
  end.
Definition of_decimal : bool -> Z -> Z -> f64 := decimal_to 53 1024.

(** A literal with [k] digits after the point. *)
Definition lit (m k : Z) : f64 := of_decimal false m (- k).

(** The [f64] with the given bits. *)
Definition of_bits (bits : Z) : f64 :=
  let negative := Z.testbit bits 63 in
  let exponent := Z.land (Z.shiftr bits 52) 2047 in
  let mantissa := Z.land bits (2 ^ 52 - 1) in
  if exponent =? 2047 then if mantissa =? 0 then S754_infinity negative else S754_nan
  else if exponent =? 0 then
    match mantissa with Zpos m => S754_finite negative m (-1074) | _ => S754_zero negative end
  else
    match mantissa + 2 ^ 52 with Zpos m => S754_finite negative m (exponent - 1075) | _ => S754_nan end.

(** ** Text *)

(** The digits at the start: their value, their number and the rest. *)
Fixpoint take_digits (value count : Z) (s : string) : Z * Z * string :=
  match s with
  | String c rest =>
      match to_digit 10 c with
      | Some d => take_digits (10 * value + d) (count + 1) rest
      | None => (value, count, s)
      end
  | EmptyString => (value, count, s)
  end.

Definition parse_exponent (s : string) : option Z :=
  match s with
  | EmptyString => Some 0
  | String c rest =>
      if one_of "eE" c then
        let '(negative, rest) :=
          match rest with
          | String "-" r => (true, r)
          | String "+" r => (false, r)
          | _ => (false, rest)
          end in
        let '(e, n, rest) := take_digits 0 0 rest in
        if (n =? 0) || negb (is_empty rest) then None else Some (if negative then - e else e)
      else None
  end.

Definition parse_number (rounded : bool -> Z -> Z -> spec_float) (negative : bool) (s : string) : option spec_float :=
  let '(whole, n, rest) := take_digits 0 0 s in
  let '(m, k, rest) :=
    match rest with
    | String "." r => take_digits whole 0 r
    | _ => (whole, 0, rest)
    end in
  if n + k =? 0 then None
  else e ← parse_exponent rest; Some (rounded negative m (e - k)).

(** [str::parse::<f64>().ok()], and the same for [f32]. *)
Definition parse_float (rounded : bool -> Z -> Z -> spec_float) (s : string) : option spec_float :=
  let '(negative, rest) :=
    match s with
    | String "-" r => (true, r)
    | String "+" r => (false, r)
    | _ => (false, s)
    end in
  if eq_ignore_ascii_case rest "inf" || eq_ignore_ascii_case rest "infinity" then Some (S754_infinity negative)
  else if eq_ignore_ascii_case rest "nan" then Some S754_nan
  else parse_number rounded negative rest.
Definition parse_f64 : string -> option f64 := parse_float of_decimal.

(** [format!("{:.k}", x)] *)
Definition zeros (n : nat) : string := sconcat (repeat "0" n).
Definition fixed_digits (k : nat) (n : Z) : string :=
  let digits := show_uint n in
  let digits := zeros (k + 1 - String.length digits) +:+ digits in
  let whole := (String.length digits - k)%nat in
  stake whole digits +:+ "." +:+ sdrop whole digits.
Definition fixed (k : nat) (x : f64) : string :=
  match x with
  | S754_nan => "NaN"
  | S754_infinity s => (if s then "-inf" else "inf")
  | S754_zero s => (if s then "-" else "") +:+ fixed_digits k 0
  | S754_finite s m e =>
      (if s then "-" else "")
      +:+ fixed_digits k (div_half_even (Zpos m * 10 ^ Z.of_nat k * pow2 e) (pow2 (- e)))
  end.

(** ** f32

    IEEE 754 binary32: the same with 24 bits of precision. *)

Definition f32 : Type := spec_float.
Definition of_Z_32 (n : Z) : f32 := binary_normalize 24 128 n 0 false.
Definition fdiv_32 : f32 -> f32 -> f32 := SFdiv 24 128.
Definition fmul_32 : f32 -> f32 -> f32 := SFmul 24 128.
Definition parse_f32 : string -> option f32 := parse_float (decimal_to 24 128).

Example parse_examples :
  parse_f64 "0.3" = Some (S754_finite false 5404319552844595 (-54)) /\
  parse_f64 "-12.50e-1" = Some (SFopp (of_decimal false 125 (-2))) /\ parse_f64 "." = None /\
  parse_f64 "1e" = None /\ parse_f64 "+NaN" = Some S754_nan /\ parse_f64 "1e400" = Some (S754_infinity false).
Proof. vm_compute. done. Qed.

Example fixed_examples :
  fixed 1 (lit 25 2) = "0.2"%string /\ fixed 1 (lit 9996 2) = "100.0"%string /\
  fixed 2 (SFopp (lit 5 3)) = "-0.01"%string /\ as_usize (lit 39 1) = 3 /\
  of_bits 4607182418800017408 = of_Z 1.
Proof. vm_compute. done. Qed.

(** ** Order *)

Lemma fle_nan_l x : (S754_nan <=? x)%f64 = false.
Proof. done. Qed.
Lemma fle_nan_r x : (x <=? S754_nan)%f64 = false.
Proof. by destruct x. Qed.

Lemma pos_compare_opp p q : Pos.compare p q = CompOpp (Pos.compare q p).
Proof. apply Pos.compare_antisym. Qed.

(** Comparing the other way round. *)
Lemma partial_cmp_antisym x y : partial_cmp y x = CompOpp <$> partial_cmp x y.
Proof.
  unfold partial_cmp. destruct x as [s|s| |s m e], y as [s'|s'| |s' m' e']; cbn; try by repeat case_match.
  f_equal. change (Pos.compare_cont Eq) with Pos.compare.
  rewrite (Z.compare_antisym e e'), (pos_compare_opp m' m).
  destruct s, s', (Z.compare e e'), (Pos.compare m m'); done.
Qed.

Lemma flt_fle x y : (x <? y)%f64 = false -> is_nan x = false -> is_nan y = false -> (y <=? x)%f64 = true.
Proof.
  unfold flt, fle, SFltb, SFleb. intros H Hx Hy. pose proof (partial_cmp_antisym x y) as Ha.
  unfold partial_cmp in Ha. rewrite Ha.
  destruct (SFcompare x y) as [[]|] eqn:E; cbn; try done.
  destruct x, y; cbn in *; by repeat case_match.
Qed.

Lemma flt_fle_weak x y : (x <? y)%f64 = true -> (x <=? y)%f64 = true.
Proof. unfold flt, fle, SFltb, SFleb. by destruct (SFcompare x y) as [[]|]. Qed.

Lemma fle_refl x : is_nan x = false -> (x <=? x)%f64 = true.
Proof.
  unfold fle, SFleb. destruct x as [s|s| |s m e]; try done; cbn.
  - by destruct s.
  - intros _. rewrite Z.compare_refl. change (Pos.compare_cont Eq m m) with (Pos.compare m m).
    rewrite Pos.compare_refl. by destruct s.
Qed.

(** A clamped number lies in the interval, or was not a number. *)
Lemma clamp_bounds x lo hi :
  is_nan x = false -> is_nan lo = false -> is_nan hi = false -> (lo <=? hi)%f64 = true ->
  (lo <=? clamp x lo hi)%f64 = true /\ (clamp x lo hi <=? hi)%f64 = true.
Proof.
  intros Hx Hlo Hhi Hle. unfold clamp.
  destruct (x <? lo)%f64 eqn:E1.
  - destruct (hi <? lo)%f64 eqn:E2; [split; [done|by apply fle_refl]|].
    split; [by apply fle_refl|done].
  - apply flt_fle in E1; [|done..]. destruct (hi <? x)%f64 eqn:E2.
    + split; [done|by apply fle_refl].
    + by apply flt_fle in E2.
Qed.

(** [fle] is transitive; a NaN is below and above nothing. *)
Lemma fle_trans x y z : (x <=? y)%f64 = true -> (y <=? z)%f64 = true -> (x <=? z)%f64 = true.
Proof.
  unfold fle, SFleb. destruct x as [s|s| |s m e], y as [s'|s'| |s' m' e'], z as [s2|s2| |s2 m2 e2]; cbn;
    try by repeat case_match.
  change (Pos.compare_cont Eq) with Pos.compare.
  destruct s, s', s2; cbn; try done.
  all: destruct (Z.compare_spec e e'), (Z.compare_spec e' e2), (Z.compare_spec e e2); subst; try lia; try done.
  all: destruct (Pos.compare_spec m m'), (Pos.compare_spec m' m2), (Pos.compare_spec m m2); subst; try lia; try done.
Qed.
