(* ===== verification/Bounded.v ===== *)
(** * Bounded strings and vectors (crates/sentia-protocol/src/bounded.rs)

    The field of [BoundedString] is private and [new] is the only way to make
    one, so the bound is part of the type here: a value carries the evidence
    that its length is within [MAX].  The same holds for [BoundedVec]. *)

From S2P Require Import Prelude RustStr.

Record BoundedStringError := { bse_max : usize; bse_actual : usize }.

Definition BoundedStringError_fmt (e : BoundedStringError) : string :=
  "string length " +:+ show_uint (bse_actual e) +:+ " exceeds maximum "
    +:+ show_uint (bse_max e).

Record BoundedString (MAX : usize) := BStr {
  as_str : string;
  bs_fits : (len as_str <=? MAX) = true;
}.
Arguments BStr {MAX} & as_str bs_fits.
Arguments as_str {MAX} b.
Arguments bs_fits {MAX} b.

Record BoundedVecError := { bve_max : usize; bve_actual : usize }.

Definition BoundedVecError_fmt (e : BoundedVecError) : string :=
  "vector length " +:+ show_uint (bve_actual e) +:+ " exceeds maximum "
    +:+ show_uint (bve_max e).

Record BoundedVec (T : Type) (MAX : usize) := BVec {
  as_slice : list T;
  bv_fits : (vlen as_slice <=? MAX) = true;
}.
Arguments BVec {T MAX} & as_slice bv_fits.
Arguments as_slice {T MAX} b.
Arguments bv_fits {T MAX} b.

(** [BoundedString::new] *)
Definition BoundedString_new {MAX : usize} (value : string)
  : result BoundedStringError (BoundedString MAX) :=
  let actual := len value in
  match Sumbool.sumbool_of_bool (actual <=? MAX) with
  | left fits => Ok (BStr value fits)
  | right _ => Err {| bse_max := MAX; bse_actual := actual |}
  end.

(** [Deserialize for BoundedString]: [raw] is what [String::deserialize]
    returned and [custom] is the deserializer's error constructor. *)
Definition BoundedString_deserialize {DE} {MAX : usize} (custom : string -> DE)
    (raw : result DE string) : result DE (BoundedString MAX) :=
  raw ← raw;
  map_err (fun e => custom (BoundedStringError_fmt e)) (BoundedString_new raw).

(** [BoundedVec::new] *)
Definition BoundedVec_new {T} {MAX : usize} (values : list T)
  : result BoundedVecError (BoundedVec T MAX) :=
  let actual := vlen values in
  match Sumbool.sumbool_of_bool (actual <=? MAX) with
  | left fits => Ok (BVec values fits)
  | right _ => Err {| bve_max := MAX; bve_actual := actual |}
  end.

Definition BoundedVec_deserialize {DE T} {MAX : usize} (custom : string -> DE)
    (values : result DE (list T)) : result DE (BoundedVec T MAX) :=
  values ← values;
  map_err (fun e => custom (BoundedVecError_fmt e)) (BoundedVec_new values).

(** A literal whose length fits by computation. *)
Notation "'bstr' s" := (BStr s%string eq_refl) (at level 10, s at level 9).
Notation "'bvec' l" := (BVec l%list eq_refl) (at level 10, l at level 9).

(** ** Lemmas *)

Lemma BoundedString_ext {MAX} (a b : BoundedString MAX) : as_str a = as_str b -> a = b.
Proof.
  destruct a as [s H], b as [t H']. cbn. intros ->. f_equal.
  apply Eqdep_dec.UIP_dec, Bool.bool_dec.
Qed.

Lemma BoundedVec_ext {T MAX} (a b : BoundedVec T MAX) : as_slice a = as_slice b -> a = b.
Proof.
  destruct a as [s H], b as [t H']. cbn. intros ->. f_equal.
  apply Eqdep_dec.UIP_dec, Bool.bool_dec.
Qed.

#[global] Instance BoundedString_eq_dec MAX : EqDecision (BoundedString MAX).
Proof.
  intros a b. destruct (decide (as_str a = as_str b)) as [H|H].
  - left. by apply BoundedString_ext.
  - right. by intros ->.
Defined.

#[global] Instance BoundedVec_eq_dec `{EqDecision T} MAX : EqDecision (BoundedVec T MAX).
Proof.
  intros a b. destruct (decide (as_slice a = as_slice b)) as [H|H].
  - left. by apply BoundedVec_ext.
  - right. by intros ->.
Defined.

Lemma BoundedString_bound {MAX} (b : BoundedString MAX) : len (as_str b) <= MAX.
Proof. apply Z.leb_le, bs_fits. Qed.

Lemma BoundedVec_bound {T MAX} (b : BoundedVec T MAX) : vlen (as_slice b) <= MAX.
Proof. apply Z.leb_le, bv_fits. Qed.

Lemma BoundedString_new_Ok {MAX} s (b : BoundedString MAX) :
  BoundedString_new s = Ok b <-> as_str b = s.
Proof.
  unfold BoundedString_new. destruct (Sumbool.sumbool_of_bool _) as [H|H].
  - split; [by intros [= <-]|]. intros E. f_equal. by apply BoundedString_ext.
  - split; [done|]. intros <-. by rewrite bs_fits in H.
Qed.

Lemma BoundedString_new_Err {MAX} s e :
  @BoundedString_new MAX s = Err e <->
  MAX < len s /\ e = {| bse_max := MAX; bse_actual := len s |}.
Proof.
  unfold BoundedString_new. destruct (Sumbool.sumbool_of_bool _) as [H|H]; zbool.
  - split; [done|]. lia.
  - split; [intros [= <-]; done|]. by intros [_ ->].
Qed.

Lemma BoundedString_new_fits {MAX} s :
  len s <= MAX -> exists b, @BoundedString_new MAX s = Ok b /\ as_str b = s.
Proof.
  intros H. destruct (BoundedString_new s) as [b|e|] eqn:E.
  - exists b. split; [done|]. by apply BoundedString_new_Ok in E.
  - apply BoundedString_new_Err in E. lia.
  - exfalso. revert E. unfold BoundedString_new. by destruct (Sumbool.sumbool_of_bool _).
Qed.

Lemma BoundedString_new_as_str {MAX} (b : BoundedString MAX) :
  BoundedString_new (as_str b) = Ok b.
Proof. by apply BoundedString_new_Ok. Qed.

Lemma BoundedString_new_no_panic {MAX} s : no_panic (@BoundedString_new MAX s) = true.
Proof. unfold BoundedString_new. by destruct (Sumbool.sumbool_of_bool _). Qed.

#[export] Hint Resolve BoundedString_bound BoundedVec_bound : sentia.
