(* ===== verification/Contract.v ===== *)
(** * Contract records (crates/sentia-protocol/src/errors.rs, evidence.rs,
    metrics.rs, provider.rs)

    The error, evidence, metric and provider records every service exchanges,
    with the source's field names and enum variants.  A [serde_json] value is a
    tree; numbers are integers or an opaque floating-point number. *)

From S2P Require Import Prelude RustStr Bounded.

(** ** JSON values

    [serde_json] is built without [preserve_order]: an object is a [BTreeMap], here
    a list of members with distinct keys. *)

Inductive Number :=
| NInt (n : Z)
| NFloat (bits : Z).

Inductive Value :=
| VNull
| VBool (b : bool)
| VNumber (n : Number)
| VString (s : string)
| VArray (l : list Value)
| VObject (m : list (string * Value)).

Fixpoint member {A} (k : string) (m : list (string * A)) : option A :=
  match m with
  | [] => None
  | (k', v) :: m' => if String.eqb k k' then Some v else member k m'
  end.

(** [Value::get], [as_str], [as_bool], [as_u64], [as_object], [as_array] *)
Definition get (v : Value) (k : string) : option Value :=
  match v with VObject m => member k m | _ => None end.
Definition v_as_str (v : Value) : option string :=
  match v with VString s => Some s | _ => None end.
Definition v_as_bool (v : Value) : option bool :=
  match v with VBool b => Some b | _ => None end.
Definition v_as_u64 (v : Value) : option u64 :=
  match v with
  | VNumber (NInt n) => if (0 <=? n) && (n <=? U64_MAX) then Some n else None
  | _ => None
  end.
Definition v_as_object (v : Value) : option (list (string * Value)) :=
  match v with VObject m => Some m | _ => None end.
Definition v_as_array (v : Value) : option (list Value) :=
  match v with VArray l => Some l | _ => None end.

(** [BTreeMap::insert] on the members in key order, and the [json!] object literal. *)
Fixpoint bt_insert {A} (k : string) (v : A) (m : list (string * A)) : list (string * A) :=
  match m with
  | [] => [(k, v)]
  | (k', v') :: m' =>
      match String.compare k k' with
      | Lt => (k, v) :: (k', v') :: m'
      | Eq => (k, v) :: m'
      | Gt => (k', v') :: bt_insert k v m'
      end
  end.
Definition bt_of {A} (l : list (string * A)) : list (string * A) :=
  fold_left (fun m '(k, v) => bt_insert k v m) l [].
Definition object (l : list (string * Value)) : Value := VObject (bt_of l).
Definition is_object (v : Value) : bool := match v with VObject _ => true | _ => false end.

(** [value[key] = v] on an object. *)
Definition set_key (v : Value) (k : string) (x : Value) : Value :=
  match v with VObject m => VObject (bt_insert k x m) | _ => v end.

Lemma member_bt_insert {A} k k' (v : A) m :
  member k (bt_insert k' v m) = if String.eqb k k' then Some v else member k m.
Proof.
  induction m as [|[k2 v2] m IH]; cbn; [done|].
  destruct (String.compare k' k2) eqn:E; cbn.
  - apply String.compare_eq_iff in E as ->. by destruct (String.eqb k k2).
  - done.
  - rewrite IH. destruct (String.eqb_spec k k2) as [->|]; [|done].
    destruct (String.eqb_spec k2 k') as [<-|]; [|done].
    pose proof (String.compare_antisym k2 k2) as H. by rewrite E in H.
Qed.

(** Induction under arrays and objects. *)
Lemma Value_rect' (P : Value -> Type)
    (Hnull : P VNull) (Hbool : forall b, P (VBool b)) (Hnum : forall n, P (VNumber n))
    (Hstr : forall s, P (VString s))
    (Harr : forall l, (fix all (l : list Value) : Type := match l with [] => unit | v :: l' => (P v * all l')%type end) l
                      -> P (VArray l))
    (Hobj : forall m, (fix all (m : list (string * Value)) : Type := match m with [] => unit | (_, v) :: m' => (P v * all m')%type end) m
                      -> P (VObject m)) :
  forall v, P v.
Proof.
  fix IH 1. intros [ | | | | l | m].
  - exact Hnull.
  - apply Hbool.
  - apply Hnum.
  - apply Hstr.
  - apply Harr. induction l as [|v l IHl]; [exact tt|]. split; [apply IH|exact IHl].
  - apply Hobj. induction m as [|[k v] m IHm]; [exact tt|]. split; [apply IH|exact IHm].
Defined.

#[global] Instance Number_eq_dec : EqDecision Number.
Proof. solve_decision. Defined.

#[global] Instance Value_eq_dec : EqDecision Value.
Proof.
  intros v. induction v as [ |b|n|s|l IH|m IH] using Value_rect'; intros w;
    destruct w as [ |b'|n'|s'|l'|m'];
    try (right; discriminate).
  - by left.
  - destruct (decide (b = b')) as [->|H]; [by left|right; congruence].
  - destruct (decide (n = n')) as [->|H]; [by left|right; congruence].
  - destruct (decide (s = s')) as [->|H]; [by left|right; congruence].
  - revert l'. induction l as [|v l IHl]; intros [|v' l']; try (right; discriminate).
    + by left.
    + destruct IH as [Hv Hl]. destruct (Hv v') as [->|H]; [|right; congruence].
      destruct (IHl Hl l') as [H|H]; [left; congruence|right; congruence].
  - revert m'. induction m as [|[k v] m IHm]; intros [|[k' v'] m']; try (right; discriminate).
    + by left.
    + destruct IH as [Hv Hm]. destruct (decide (k = k')) as [->|H]; [|right; congruence].
      destruct (Hv v') as [->|H]; [|right; congruence].
      destruct (IHm Hm m') as [H|H]; [left; congruence|right; congruence].
Defined.

(** ** errors.rs *)

Inductive ContractErrorCode :=
| InvalidRequest
| UnsupportedVersion
| PermissionDenied
| PolicyDenied
| PayloadTooLarge
| ErrTimeout
| ErrCancelled
| ProviderUnavailable
| ToolUnavailable
| ValidationFailed
| ErrInternal.

#[global] Instance ContractErrorCode_eq_dec : EqDecision ContractErrorCode.
Proof. solve_decision. Defined.

Record ContractError := MkContractError {
  ce_code : ContractErrorCode;
  ce_message : string;
  ce_retryable : bool;
  ce_details : gmap string Value;
}.

#[global] Instance ContractError_eq_dec : EqDecision ContractError.
Proof. solve_decision. Defined.

Definition ContractError_new (code : ContractErrorCode) (message : string) (retryable : bool)
  : ContractError :=
  {| ce_code := code; ce_message := message; ce_retryable := retryable; ce_details := ∅ |}.

Definition with_detail (self : ContractError) (key : string) (value : Value) : ContractError :=
  {| ce_code := ce_code self; ce_message := ce_message self;
     ce_retryable := ce_retryable self; ce_details := <[key := value]> (ce_details self) |}.

(** ** evidence.rs *)

Definition EvidenceId : Type := BoundedString 80.

Inductive EvidenceDomain :=
| BUILD | LIVE | INSTALL | DISK | OFFLINE | AI | TOOLS | SHELL | HEALTH | ROUTER
| PRIVACY | TRUST | SECUREBOOT.

Inductive EvidenceStatus :=
| EvMissing | EvCollected | EvVerified | EvFailed | EvRedacted.

Inductive EvidencePointerKind :=
| IsoChecksum | BuildLog | SerialLog | JournalLog | Screenshot | ArtifactManifest | TestReport.

Record EvidencePointer := {
  ep_kind : EvidencePointerKind;
  ep_path : string;
  ep_sha256 : option string;
}.

Record EvidenceRecord := {
  er_evidence_id : EvidenceId;
  er_domain : EvidenceDomain;
  er_required : bool;
  er_status : EvidenceStatus;
  er_assertion : string;
  er_pointers : BoundedVec EvidencePointer 32;
  er_failure_reason : option string;
}.

(** ** metrics.rs (an [f64] is kept as its bit pattern) *)

Definition MetricName : Type := BoundedString 64.
Abbreviation f64 := Z (only parsing).

Inductive MetricUnit := MCount | MMilliseconds | MBytes | MPercent.

Record MetricSample := {
  ms_name : MetricName;
  ms_unit : MetricUnit;
  ms_value : f64;
  ms_observed_at_ms : u64;
  ms_component : option string;
}.

Record RouterMetrics := {
  rm_request_id : BoundedString 64;
  rm_queue_depth : u32;
  rm_local_latency_ms : option f64;
  rm_remote_latency_ms : option f64;
  rm_fallback_count : u32;
  rm_cancellation_count : u32;
  rm_payload_input_bytes : u32;
  rm_payload_output_bytes : u32;
  rm_samples : BoundedVec MetricSample 128;
}.

(** ** provider.rs *)

Definition ProviderId : Type := BoundedString 48.
Definition ProviderName : Type := BoundedString 64.

Inductive ProviderHealth := Healthy | Degraded | Unavailable | Disabled | Starting.

Inductive ProviderState := Idle | Warming | Serving | Backoff | PFailed.

Inductive ProviderCapability :=
| InferenceText | InferenceStructured | Streaming | Cancellation | ConsentPreviewCap
| Classification.

Record ProviderCapabilities := {
  pc_provider_id : ProviderId;
  pc_provider_name : ProviderName;
  pc_supports_remote_egress : bool;
  pc_requires_explicit_consent : bool;
  pc_max_input_bytes : u32;
  pc_max_output_bytes : u32;
  pc_capabilities : BoundedVec ProviderCapability 16;
}.

Record ProviderStatus := MkProviderStatus {
  ps_provider_id : ProviderId;
  ps_health : ProviderHealth;
  ps_state : ProviderState;
  ps_checked_at_ms : u64;
  ps_message : option string;
  ps_observed_latency_ms : option u32;
}.

Inductive ProviderErrorCode :=
| Network | Dns | Authentication | Quota | PTimeout | UnsupportedCapability
| MalformedResponse | ProcessFailure | CircuitOpen | PInternal.

Record ContractProviderError := {
  cpe_code : ProviderErrorCode;
  cpe_provider_id : ProviderId;
  cpe_retryable : bool;
  cpe_message : string;
  cpe_upstream_status : option u16;
}.

#[global] Instance EvidenceDomain_eq_dec : EqDecision EvidenceDomain.
Proof. solve_decision. Defined.
#[global] Instance MetricUnit_eq_dec : EqDecision MetricUnit.
Proof. solve_decision. Defined.
#[global] Instance MetricSample_eq_dec : EqDecision MetricSample.
Proof. solve_decision. Defined.
#[global] Instance ProviderHealth_eq_dec : EqDecision ProviderHealth.
Proof. solve_decision. Defined.
#[global] Instance ProviderState_eq_dec : EqDecision ProviderState.
Proof. solve_decision. Defined.
#[global] Instance ProviderErrorCode_eq_dec : EqDecision ProviderErrorCode.
Proof. solve_decision. Defined.
#[global] Instance ProviderStatus_eq_dec : EqDecision ProviderStatus.
Proof. solve_decision. Defined.

(** ** Lemmas *)

Lemma with_detail_lookup e k v k' :
  ce_details (with_detail e k v) !! k' = if decide (k = k') then Some v else ce_details e !! k'.
Proof. cbn. apply lookup_insert. Qed.

Lemma member_In {A} k (m : list (string * A)) v : member k m = Some v -> (k, v) ∈ m.
Proof.
  induction m as [|[k' v'] m IH]; cbn; [done|].
  destruct (String.eqb_spec k k') as [->|]; [intros [= ->]; left|intros; right; auto].
Qed.

Lemma member_None {A} k (m : list (string * A)) : member k m = None <-> k ∉ m.*1.
Proof.
  induction m as [|[k' v'] m IH]; cbn; [set_solver|].
  destruct (String.eqb_spec k k') as [->|]; [set_solver|]. rewrite IH. set_solver.
Qed.
