(* ===== verification/RouterContract.v ===== *)
(** * Router contract (crates/sentia-protocol/src/router.rs)

    Requests, results, the request status machine, the socket endpoint policy
    and the router configuration, each with its validator. *)

From S2P Require Import Prelude RustStr Bounded Contract.
From Stdlib Require Import Ascii String.

Definition PROTOCOL_VERSION_V1 : string := "sentia.v1".
Definition MAX_REQUEST_PAYLOAD_BYTES_V1 : usize := 262144.
Definition MAX_RESULT_PAYLOAD_BYTES_V1 : usize := 262144.
Definition INFERENCE_SOCKET_PATH_V1 : string := "/run/sentia-inference/llama.sock".
Definition LOCAL_BROKER_SOCKET_PATH_V1 : string := "/run/sentia-local/broker.sock".
Definition HEALTH_METRICS_SOCKET_PATH_V1 : string := "/run/sentia-health/metrics.sock".
Definition USER_ROUTER_SOCKET_TEMPLATE_V1 : string := "$XDG_RUNTIME_DIR/sentia/router.sock".

Definition ProtocolVersion : Type := BoundedString 24.
Definition RequestId : Type := BoundedString 64.
Definition SessionId : Type := BoundedString 64.
Definition TraceId : Type := BoundedString 64.
Definition SocketPath : Type := BoundedString 256.
Definition SocketMode : Type := BoundedString 4.
Definition SystemUser : Type := BoundedString 64.

(** ** Data *)

Inductive RoutingPolicy := LocalOnly | LocalPreferred | RemotePreferred | AskBeforeRemote.

Inductive RouterCapability :=
| Inference | Tooling | PackagePlanning | HealthCap | Retrieval | IntentClassification.

Inductive ProvenanceSource :=
| UserInput | TerminalOutput | FileSnippet | SystemTool | ProviderResponse.

Inductive DataSensitivity := Public | Internal | Sensitive | Restricted.

Record DataProvenance := {
  dp_source : ProvenanceSource;
  dp_sensitivity : DataSensitivity;
  dp_redaction_applied : bool;
  dp_origin_label : BoundedString 128;
  dp_trace_id : option TraceId;
}.

Record RequestPayload := {
  rp_mime_type : BoundedString 64;
  rp_content : BoundedString 262144;
  rp_byte_count : u32;
  rp_truncated : bool;
}.

Record ResultPayload := {
  sp_mime_type : BoundedString 64;
  sp_content : BoundedString 262144;
  sp_byte_count : u32;
  sp_truncated : bool;
}.

Record ConsentToken := {
  ct_token_id : BoundedString 64;
  ct_payload_sha256 : BoundedString 64;
  ct_provider_id : option ProviderId;
  ct_issued_at_ms : u64;
  ct_expires_at_ms : u64;
}.

Record RouterRequest := {
  rr_version : ProtocolVersion;
  rr_request_id : RequestId;
  rr_session_id : SessionId;
  rr_created_at_ms : u64;
  rr_capability : RouterCapability;
  rr_policy : RoutingPolicy;
  rr_provider_id : option ProviderId;
  rr_provenance : DataProvenance;
  rr_payload : RequestPayload;
  rr_consent_token : option ConsentToken;
}.

Inductive RequestStatus :=
| Received | Queued | AwaitingConsent | RunningLocal | RunningRemote | FallbackToLocal
| Completed | Failed | CancelRequested | Cancelled.

Record RouterResult := {
  rs_version : ProtocolVersion;
  rs_request_id : RequestId;
  rs_status : RequestStatus;
  rs_provider_status : option ProviderStatus;
  rs_payload : option ResultPayload;
  rs_error : option ContractError;
  rs_metrics : list MetricSample;
}.

Inductive SocketEndpointRole := InferencePrivate | LocalBroker | HealthMetrics | UserRouter.

Inductive SocketAccessScope := PrivateSystem | LocalMultiUser | PerUser.

Record SocketEndpointPolicy := {
  se_role : SocketEndpointRole;
  se_access_scope : SocketAccessScope;
  se_path : SocketPath;
  se_owner_user : option SystemUser;
  se_directory_mode_octal : SocketMode;
  se_socket_mode_octal : SocketMode;
  se_require_peer_uid_check : bool;
  se_enforce_peer_uid_quotas : bool;
  se_nonsecret_metrics_only : bool;
  se_allow_cross_user_journal_access : bool;
  se_privileged_mutation_authority : bool;
  se_deviation_reason : option string;
}.

Record IntegrationSocketDefaults := {
  is_inference : SocketEndpointPolicy;
  is_local_broker : SocketEndpointPolicy;
  is_health_metrics : SocketEndpointPolicy;
  is_user_router : SocketEndpointPolicy;
}.

Record RouterConfig := {
  rc_version : ProtocolVersion;
  rc_socket_path : string;
  rc_default_policy : RoutingPolicy;
  rc_allow_remote_providers : bool;
  rc_max_in_flight_requests : u16;
  rc_max_queue_depth : u16;
  rc_max_payload_bytes : u32;
  rc_max_stream_event_bytes : u32;
  rc_allowed_provider_ids : BoundedVec ProviderId 32;
  rc_integration_sockets : IntegrationSocketDefaults;
}.

#[global] Instance RoutingPolicy_eq_dec : EqDecision RoutingPolicy.
Proof. solve_decision. Defined.
#[global] Instance RouterCapability_eq_dec : EqDecision RouterCapability.
Proof. solve_decision. Defined.
#[global] Instance DataSensitivity_eq_dec : EqDecision DataSensitivity.
Proof. solve_decision. Defined.
#[global] Instance RequestStatus_eq_dec : EqDecision RequestStatus.
Proof. solve_decision. Defined.
#[global] Instance SocketEndpointRole_eq_dec : EqDecision SocketEndpointRole.
Proof. solve_decision. Defined.
#[global] Instance SocketAccessScope_eq_dec : EqDecision SocketAccessScope.
Proof. solve_decision. Defined.
#[global] Instance ResultPayload_eq_dec : EqDecision ResultPayload.
Proof. solve_decision. Defined.
#[global] Instance ConsentToken_eq_dec : EqDecision ConsentToken.
Proof. solve_decision. Defined.

Definition is_none {A} (o : option A) : bool := match o with None => true | Some _ => false end.
Definition is_some {A} (o : option A) : bool := negb (is_none o).

(** ** Payload, request and result validation *)

Definition invalid (message : string) : ContractError :=
  ContractError_new ValidationFailed message false.
Definition bad_version (message : string) : ContractError :=
  ContractError_new UnsupportedVersion message false.

Definition RequestPayload_validate (self : RequestPayload) : result ContractError unit :=
  let actual := len (as_str (rp_content self)) in
  fail_if (MAX_REQUEST_PAYLOAD_BYTES_V1 <? actual)
    (ContractError_new PayloadTooLarge "request payload exceeds v1 byte bound" false);;
  fail_if (negb (actual =? rp_byte_count self))
    (invalid "request payload byte_count does not match content length").

Definition ResultPayload_validate (self : ResultPayload) : result ContractError unit :=
  let actual := len (as_str (sp_content self)) in
  fail_if (MAX_RESULT_PAYLOAD_BYTES_V1 <? actual)
    (ContractError_new PayloadTooLarge "result payload exceeds v1 byte bound" false);;
  fail_if (negb (actual =? sp_byte_count self))
    (invalid "result payload byte_count does not match content length").

Definition RouterRequest_validate (self : RouterRequest) : result ContractError unit :=
  fail_if (negb (String.eqb (as_str (rr_version self)) PROTOCOL_VERSION_V1))
    (bad_version "router request version is not sentia.v1");;
  RequestPayload_validate (rr_payload self);;
  fail_if (bool_decide (rr_policy self = AskBeforeRemote) && is_none (rr_consent_token self))
    (ContractError_new PolicyDenied
       "ASK_BEFORE_REMOTE requires a consent token issued by trusted UI" false);;
  match rr_consent_token self with
  | Some token =>
      fail_if (ct_expires_at_ms token <=? ct_issued_at_ms token)
        (invalid "consent token expiry must be after issue timestamp")
  | None => Ok tt
  end.

Definition is_valid_status_transition (from to : RequestStatus) : bool :=
  match from, to with
  | Received, Queued
  | Received, AwaitingConsent
  | Queued, RunningLocal
  | Queued, RunningRemote
  | Queued, CancelRequested
  | AwaitingConsent, RunningRemote
  | AwaitingConsent, CancelRequested
  | RunningRemote, FallbackToLocal
  | RunningRemote, Completed
  | RunningRemote, Failed
  | RunningRemote, CancelRequested
  | FallbackToLocal, RunningLocal
  | RunningLocal, Completed
  | RunningLocal, Failed
  | RunningLocal, CancelRequested
  | CancelRequested, Cancelled => true
  | _, _ => false
  end.

Definition RouterResult_validate (self : RouterResult) : result ContractError unit :=
  fail_if (negb (String.eqb (as_str (rs_version self)) PROTOCOL_VERSION_V1))
    (bad_version "router result version is not sentia.v1");;
  match rs_payload self with
  | Some payload => ResultPayload_validate payload
  | None => Ok tt
  end;;
  fail_if (bool_decide (rs_status self = Completed) && is_none (rs_payload self))
    (invalid "completed result requires payload");;
  fail_if (bool_decide (rs_status self = Failed) && is_none (rs_error self))
    (invalid "failed result requires structured error").

(** ** Socket endpoints *)

Definition validate_socket_mode (mode field : string) : result ContractError unit :=
  let chars := chars mode in
  let octal c := existsb (String.eqb c) ["0"; "1"; "2"; "3"; "4"; "5"; "6"; "7"] in
  fail_if
    (negb (vlen chars =? 4)
     || match chars with
        | c0 :: rest => negb (String.eqb c0 "0") || existsb (fun c => negb (octal c)) rest
        | [] => false
        end)
    (invalid (field +:+ " must be a 4-char octal mode like 0700")).

Definition ensure_default_or_deviation (actual expected : string)
    (deviation_reason : option string) (label : string) : result ContractError unit :=
  if String.eqb actual expected then Ok tt
  else
    let refuse := Err (invalid
      (label +:+ " deviates from default and requires a documented deviation_reason")) in
    match deviation_reason with
    | Some reason => if negb (is_empty (trim reason)) then Ok tt else refuse
    | None => refuse
    end.

Definition run_user : string := "/run/user/".
Definition router_sock : string := "/sentia/router.sock".

Definition is_valid_user_router_path {E} (path : string) : result E bool :=
  if String.eqb path USER_ROUTER_SOCKET_TEMPLATE_V1 then Ok true
  else if negb (starts_with run_user path) || negb (ends_with router_sock path) then Ok false
  else
    uid_segment ← slice path (len run_user) (len path - len router_sock);
    Ok (negb (is_empty uid_segment) && bytes_all is_ascii_digit uid_segment).

Definition bounded_socket_path (value : string) : result ContractError SocketPath :=
  match BoundedString_new value with Ok v => Ok v | _ => Panic end.
Definition bounded_socket_mode (value : string) : result ContractError SocketMode :=
  match BoundedString_new value with Ok v => Ok v | _ => Panic end.
Definition bounded_system_user (value : string) : result ContractError SystemUser :=
  match BoundedString_new value with Ok v => Ok v | _ => Panic end.

Definition endpoint (role : SocketEndpointRole) (scope : SocketAccessScope)
    (path : string) (owner : option string) (dir sock : string) (nonsecret : bool)
  : result ContractError SocketEndpointPolicy :=
  path ← bounded_socket_path path;
  owner ← match owner with
          | Some o => o ← bounded_system_user o; Ok (Some o)
          | None => Ok None
          end;
  dir ← bounded_socket_mode dir;
  sock ← bounded_socket_mode sock;
  Ok {| se_role := role; se_access_scope := scope; se_path := path; se_owner_user := owner;
        se_directory_mode_octal := dir; se_socket_mode_octal := sock;
        se_require_peer_uid_check := true; se_enforce_peer_uid_quotas := true;
        se_nonsecret_metrics_only := nonsecret; se_allow_cross_user_journal_access := false;
        se_privileged_mutation_authority := false; se_deviation_reason := None |}.

(** [Default for IntegrationSocketDefaults]; the [expect]s are the panics. *)
Definition IntegrationSocketDefaults_default : result ContractError IntegrationSocketDefaults :=
  inference ← endpoint InferencePrivate PrivateSystem INFERENCE_SOCKET_PATH_V1
                (Some "sentia-inference") "0700" "0600" false;
  local_broker ← endpoint LocalBroker LocalMultiUser LOCAL_BROKER_SOCKET_PATH_V1
                   None "0755" "0666" false;
  health_metrics ← endpoint HealthMetrics LocalMultiUser HEALTH_METRICS_SOCKET_PATH_V1
                     None "0755" "0666" true;
  user_router ← endpoint UserRouter PerUser USER_ROUTER_SOCKET_TEMPLATE_V1
                  None "0700" "0600" false;
  Ok {| is_inference := inference; is_local_broker := local_broker;
        is_health_metrics := health_metrics; is_user_router := user_router |}.

Definition validate_endpoint (e : SocketEndpointPolicy) : result ContractError unit :=
  let reason := se_deviation_reason e in
  validate_socket_mode (as_str (se_directory_mode_octal e)) "directory_mode_octal";;
  validate_socket_mode (as_str (se_socket_mode_octal e)) "socket_mode_octal";;
  fail_if (se_privileged_mutation_authority e)
    (invalid "public metrics and inference sockets must not grant privileged mutation authority");;
  match se_role e with
  | InferencePrivate =>
      fail_if (negb (bool_decide (se_access_scope e = PrivateSystem)))
        (invalid "inference endpoint must use private_system scope");;
      ensure_default_or_deviation (as_str (se_path e)) INFERENCE_SOCKET_PATH_V1 reason
        "inference socket path";;
      ensure_default_or_deviation (as_str (se_directory_mode_octal e)) "0700" reason
        "inference directory mode";;
      ensure_default_or_deviation
        (match se_owner_user e with Some v => as_str v | None => "" end)
        "sentia-inference" reason "inference owner user";;
      fail_if (negb (se_require_peer_uid_check e))
        (invalid "inference socket must enforce peer uid checks")
  | LocalBroker =>
      fail_if (negb (bool_decide (se_access_scope e = LocalMultiUser)))
        (invalid "local broker endpoint must use local_multi_user scope");;
      ensure_default_or_deviation (as_str (se_path e)) LOCAL_BROKER_SOCKET_PATH_V1 reason
        "local broker socket path";;
      fail_if (negb (se_require_peer_uid_check e) || negb (se_enforce_peer_uid_quotas e))
        (invalid "local broker requires peer uid checks and quotas")
  | HealthMetrics =>
      fail_if (negb (bool_decide (se_access_scope e = LocalMultiUser)))
        (invalid "health metrics endpoint must use local_multi_user scope");;
      ensure_default_or_deviation (as_str (se_path e)) HEALTH_METRICS_SOCKET_PATH_V1 reason
        "health metrics socket path";;
      fail_if (negb (se_nonsecret_metrics_only e))
        (invalid "health metrics endpoint must remain nonsecret-only");;
      fail_if (se_allow_cross_user_journal_access e)
        (invalid "health metrics endpoint must not expose unrestricted cross-user journals")
  | UserRouter =>
      fail_if (negb (bool_decide (se_access_scope e = PerUser)))
        (invalid "user router endpoint must use per_user scope");;
      valid ← is_valid_user_router_path (as_str (se_path e));
      fail_if (negb valid)
        (invalid "user router socket path must be $XDG_RUNTIME_DIR/sentia/router.sock or /run/user/<uid>/sentia/router.sock");;
      ensure_default_or_deviation (as_str (se_socket_mode_octal e)) "0600" reason
        "user router socket mode";;
      fail_if (negb (se_require_peer_uid_check e))
        (invalid "user router endpoint must enforce peer uid checks")
  end.

Definition IntegrationSocketDefaults_validate (self : IntegrationSocketDefaults)
  : result ContractError unit :=
  fail_if (negb (bool_decide (se_role (is_inference self) = InferencePrivate))
           || negb (bool_decide (se_role (is_local_broker self) = LocalBroker))
           || negb (bool_decide (se_role (is_health_metrics self) = HealthMetrics))
           || negb (bool_decide (se_role (is_user_router self) = UserRouter)))
    (invalid "integration socket roles do not match required endpoint slots");;
  validate_endpoint (is_inference self);;
  validate_endpoint (is_local_broker self);;
  validate_endpoint (is_health_metrics self);;
  validate_endpoint (is_user_router self);;
  Ok tt.

(** The [{:?}] rendering of a role. *)
Definition role_debug (r : SocketEndpointRole) : string :=
  match r with
  | InferencePrivate => "InferencePrivate"
  | LocalBroker => "LocalBroker"
  | HealthMetrics => "HealthMetrics"
  | UserRouter => "UserRouter"
  end.

Definition deviations (self : IntegrationSocketDefaults) : list string :=
  omap (fun e => (fun reason => role_debug (se_role e) +:+ ": " +:+ reason)
                   <$> se_deviation_reason e)
    [is_inference self; is_local_broker self; is_health_metrics self; is_user_router self].

Definition RouterConfig_validate (self : RouterConfig) : result ContractError unit :=
  fail_if (negb (String.eqb (as_str (rc_version self)) PROTOCOL_VERSION_V1))
    (bad_version "router config version is not sentia.v1");;
  fail_if (MAX_REQUEST_PAYLOAD_BYTES_V1 <? rc_max_payload_bytes self)
    (invalid "router max_payload_bytes exceeds protocol bound");;
  valid ← is_valid_user_router_path (rc_socket_path self);
  fail_if (negb valid)
    (invalid "router socket_path must be $XDG_RUNTIME_DIR/sentia/router.sock or /run/user/<uid>/sentia/router.sock");;
  IntegrationSocketDefaults_validate (rc_integration_sockets self);;
  fail_if (negb (String.eqb (rc_socket_path self)
                   (as_str (se_path (is_user_router (rc_integration_sockets self))))))
    (invalid "router socket_path must match integration_sockets.user_router.path").

(** ** The user router path *)

Lemma user_path_shape (path : string) :
  starts_with run_user path = true -> ends_with router_sock path = true ->
  path = "/run/user/sentia/router.sock" \/
  exists uid, path = run_user +:+ uid +:+ router_sock.
Proof.
  intros [r Hr]%starts_with_true [q Hq]%ends_with_true.
  destruct (decide (String.length q < 10)%nat) as [Hlt|Hge].
  - left.
    assert (q = stake (String.length q) run_user) as Eq.
    { rewrite <-(stake_app_len q router_sock) at 1. rewrite <-Hq, Hr.
      apply stake_app_le. cbn. lia. }
    rewrite Eq in Hq. rewrite Hr in Hq |- *. clear Hr Eq.
    destruct (String.length q) as [|[|[|[|[|[|[|[|[|[|]]]]]]]]]];
      try lia; cbn in Hq; naive_solver.
  - right. exists (sdrop 10 q).
    rewrite Hq. rewrite <-str_app_assoc. f_equal.
    rewrite <-(stake_sdrop 10 q) at 1. f_equal.
    rewrite <-(stake_app_le 10 q router_sock) by lia.
    rewrite <-Hq, Hr. apply (stake_app_len run_user).
Qed.

Lemma user_path_middle {E} uid :
  @is_valid_user_router_path E (run_user +:+ uid +:+ router_sock) =
  Ok (negb (is_empty uid) && bytes_all is_ascii_digit uid).
Proof.
  unfold is_valid_user_router_path.
  destruct (String.eqb_spec (run_user +:+ uid +:+ router_sock) USER_ROUTER_SOCKET_TEMPLATE_V1)
    as [H|_]; [discriminate H|].
  assert (starts_with run_user (run_user +:+ uid +:+ router_sock) = true) as ->
    by (apply starts_with_true; eauto).
  assert (ends_with router_sock (run_user +:+ uid +:+ router_sock) = true) as ->.
  { apply ends_with_true. exists (run_user +:+ uid). by rewrite str_app_assoc. }
  cbn [negb orb]. by rewrite slice_middle.
Qed.

(** A path is accepted as the user router socket exactly when it is the
    documented template or [/run/user/<uid>/sentia/router.sock] with a non-empty,
    all-digit uid. *)
Theorem user_router_path_accepts (path : string) :
  @is_valid_user_router_path ContractError path = Ok true <->
  path = USER_ROUTER_SOCKET_TEMPLATE_V1 \/
  exists uid, path = run_user +:+ uid +:+ router_sock /\ uid <> "" /\
              bytes_all is_ascii_digit uid = true.
Proof.
  split.
  - unfold is_valid_user_router_path.
    destruct (String.eqb_spec path USER_ROUTER_SOCKET_TEMPLATE_V1); [by left|].
    destruct (starts_with run_user path) eqn:Hs, (ends_with router_sock path) eqn:He;
      cbn [negb orb]; try done.
    destruct (user_path_shape path Hs He) as [->|[uid ->]]; [done|].
    rewrite slice_middle. cbn. intros [= [Hne Hd]%andb_true_iff]. right. exists uid.
    split; [done|]. split; [by intros ->|done].
  - intros [->|(uid & -> & Hne & Hd)]; [done|].
    rewrite user_path_middle, Hd. by destruct uid.
Qed.

(** The check panics on exactly one path: the one whose prefix and suffix
    overlap in their slash, so that the uid segment is sliced from byte 10 to
    byte 9.  Every other path is answered. *)
Theorem user_router_path_panics (path : string) :
  @is_valid_user_router_path ContractError path = Panic <->
  path = "/run/user/sentia/router.sock".
Proof.
  split; [|by intros ->].
  unfold is_valid_user_router_path.
  destruct (String.eqb path USER_ROUTER_SOCKET_TEMPLATE_V1); [done|].
  destruct (starts_with run_user path) eqn:Hs, (ends_with router_sock path) eqn:He;
    cbn [negb orb]; try done.
  destruct (user_path_shape path Hs He) as [->|[uid ->]]; [done|].
  by rewrite slice_middle.
Qed.

(** ** Payloads *)

(** The [payload_too_large] branch is unreachable: the bound is already part of
    the content's type. *)
Lemma RequestPayload_validate_iff p :
  RequestPayload_validate p = Ok tt <-> rp_byte_count p = len (as_str (rp_content p)).
Proof.
  unfold RequestPayload_validate, MAX_REQUEST_PAYLOAD_BYTES_V1.
  pose proof (BoundedString_bound (rp_content p)) as Hb.
  destruct (Z.ltb_spec 262144 (len (as_str (rp_content p)))); [lia|]. cbn.
  destruct (Z.eqb_spec (len (as_str (rp_content p))) (rp_byte_count p)); cbn; naive_solver.
Qed.

Lemma ResultPayload_validate_iff p :
  ResultPayload_validate p = Ok tt <-> sp_byte_count p = len (as_str (sp_content p)).
Proof.
  unfold ResultPayload_validate, MAX_RESULT_PAYLOAD_BYTES_V1.
  pose proof (BoundedString_bound (sp_content p)) as Hb.
  destruct (Z.ltb_spec 262144 (len (as_str (sp_content p)))); [lia|]. cbn.
  destruct (Z.eqb_spec (len (as_str (sp_content p))) (sp_byte_count p)); cbn; naive_solver.
Qed.

(** A router request is accepted exactly when its version is sentia.v1, its
    declared byte count is the byte length of its content, an ASK_BEFORE_REMOTE
    request carries a consent token, and a carried token expires after it was
    issued. *)
Theorem router_request_accepts (r : RouterRequest) :
  RouterRequest_validate r = Ok tt <->
  as_str (rr_version r) = PROTOCOL_VERSION_V1 /\
  rp_byte_count (rr_payload r) = len (as_str (rp_content (rr_payload r))) /\
  (rr_policy r = AskBeforeRemote -> is_Some (rr_consent_token r)) /\
  (forall token, rr_consent_token r = Some token ->
     ct_issued_at_ms token < ct_expires_at_ms token).
Proof.
  unfold RouterRequest_validate. rewrite <-RequestPayload_validate_iff.
  split.
  - intros H. inv_result. apply String.eqb_eq in H as Hv. apply andb_false_iff in H1.
    repeat split; [done|done| |].
    + intros Hp. destruct (rr_consent_token r); [done|].
      destruct H1 as [H1|H1]; [by rewrite bool_decide_eq_false in H1|done].
    + intros token Ht. rewrite Ht in H2. inv_result. zbool. lia.
  - intros (Hv & Hp & Hc & He).
    rewrite (proj2 (String.eqb_eq _ _) Hv). cbn. rewrite Hp. cbn.
    destruct (rr_consent_token r) as [token|]; cbn.
    + rewrite andb_false_r. cbn. specialize (He token eq_refl).
      destruct (Z.leb_spec (ct_expires_at_ms token) (ct_issued_at_ms token)); [lia|done].
    + rewrite andb_true_r. rewrite bool_decide_eq_false_2; [done|].
      intros Ha. by destruct (Hc Ha).
Qed.

(** ** The request status machine *)

Definition status_step (from to : RequestStatus) : Prop :=
  is_valid_status_transition from to = true.

Definition terminal (s : RequestStatus) : Prop := s = Completed \/ s = Failed \/ s = Cancelled.

(** Progress of a request through its life: every permitted step increases it. *)
Definition status_rank (s : RequestStatus) : nat :=
  match s with
  | Received => 0
  | Queued | AwaitingConsent => 1
  | RunningRemote => 2
  | FallbackToLocal => 3
  | RunningLocal => 4
  | CancelRequested => 5
  | Completed | Failed | Cancelled => 6
  end.

Lemma status_step_rank s t : status_step s t -> (status_rank s < status_rank t)%nat.
Proof. unfold status_step. destruct s, t; cbn; intros; try done; lia. Qed.

Lemma status_steps_rank n s t :
  nsteps status_step n s t -> (status_rank s + n <= status_rank t)%nat.
Proof.
  induction 1 as [s|n s t u Hst Htu IH]; [lia|].
  apply status_step_rank in Hst. lia.
Qed.

(** The permitted transitions form a machine that always ends: no run makes
    more than six steps, a state has no successor exactly when it is completed,
    failed or cancelled, and from every state one of those is reachable. *)
Theorem status_machine_terminates (s : RequestStatus) :
  (forall n t, nsteps status_step n s t -> (n <= 6)%nat) /\
  ((forall t, ~ status_step s t) <-> terminal s) /\
  (exists t, rtc status_step s t /\ terminal t).
Proof.
  split; [|split].
  - intros n t H. apply status_steps_rank in H. destruct t; cbn in H; lia.
  - unfold terminal. split.
    + intros H. destruct s; try (by auto); exfalso;
        first [ by eapply (H Queued) | by eapply (H RunningRemote)
              | by eapply (H RunningLocal) | by eapply (H Cancelled)
              | by eapply (H Completed) ].
    + intros [->|[->| ->]] t; by destruct t.
  - exists (match s with
            | CancelRequested | Cancelled => Cancelled
            | Failed => Failed
            | _ => Completed
            end).
    split; [|unfold terminal; destruct s; auto].
    destruct s; repeat (first [ apply rtc_refl
                              | eapply (rtc_l _ _ RunningLocal); [done|]
                              | eapply (rtc_l _ _ RunningRemote); [done|]
                              | eapply (rtc_l _ _ Completed); [done|]
                              | eapply (rtc_l _ _ Cancelled); [done|]
                              | eapply (rtc_l _ _ Queued); [done|] ]).
Qed.

(** ** Configuration *)

Lemma ensure_default_or_deviation_Ok actual expected reason label u :
  ensure_default_or_deviation actual expected reason label = Ok u ->
  actual = expected \/ exists r, reason = Some r /\ trim r <> "".
Proof.
  unfold ensure_default_or_deviation.
  destruct (String.eqb_spec actual expected); [by left|].
  destruct reason as [r|]; [|done].
  destruct (is_empty (trim r)) eqn:E; [done|]. intros _. right. exists r.
  split; [done|]. intros H. by rewrite H in E.
Qed.

Definition documented (e : SocketEndpointPolicy) : Prop :=
  exists r, se_deviation_reason e = Some r /\ trim r <> "".

(** A validated configuration never weakens an endpoint: every slot holds its
    own role, no endpoint has privileged mutation authority, the inference, broker
    and user-router endpoints check the peer uid (the broker with quotas), health
    metrics stay nonsecret and per-journal, the inference directory is 0700 and the
    user-router socket 0600 unless a deviation is documented, and the router
    listens on the validated user-router path within the payload bound. *)
Theorem validated_config_is_safe (c : RouterConfig) :
  RouterConfig_validate c = Ok tt ->
  let s := rc_integration_sockets c in
  let all := [is_inference s; is_local_broker s; is_health_metrics s; is_user_router s] in
  map se_role all = [InferencePrivate; LocalBroker; HealthMetrics; UserRouter] /\
  map se_access_scope all = [PrivateSystem; LocalMultiUser; LocalMultiUser; PerUser] /\
  Forall (fun e => se_privileged_mutation_authority e = false) all /\
  Forall (fun e => se_require_peer_uid_check e = true)
    [is_inference s; is_local_broker s; is_user_router s] /\
  se_enforce_peer_uid_quotas (is_local_broker s) = true /\
  se_nonsecret_metrics_only (is_health_metrics s) = true /\
  se_allow_cross_user_journal_access (is_health_metrics s) = false /\
  (as_str (se_directory_mode_octal (is_inference s)) = "0700" \/ documented (is_inference s)) /\
  (as_str (se_socket_mode_octal (is_user_router s)) = "0600" \/ documented (is_user_router s)) /\
  rc_socket_path c = as_str (se_path (is_user_router s)) /\
  rc_max_payload_bytes c <= MAX_REQUEST_PAYLOAD_BYTES_V1.
Proof.
  unfold RouterConfig_validate, IntegrationSocketDefaults_validate.
  intros H. inv_result. unfold validate_endpoint in *.
  repeat match goal with
         | Hr : se_role _ = _, Hm : context [match se_role _ with _ => _ end] |- _ =>
             rewrite Hr in Hm
         end.
  inv_result.
  repeat match goal with
         | H : ensure_default_or_deviation _ _ _ _ = Ok _ |- _ =>
             apply ensure_default_or_deviation_Ok in H
         end.
  repeat match goal with
         | H : String.eqb _ _ = true |- _ => apply String.eqb_eq in H
         end.
  zbool. cbn. unfold documented.
  repeat match goal with
         | |- _ /\ _ => split
         | |- Forall _ _ => repeat constructor
         end; try done; try congruence.
Qed.

Definition default_router_config : result ContractError RouterConfig :=
  sockets ← IntegrationSocketDefaults_default;
  Ok {| rc_version := bstr "sentia.v1"; rc_socket_path := USER_ROUTER_SOCKET_TEMPLATE_V1;
        rc_default_policy := LocalOnly; rc_allow_remote_providers := false;
        rc_max_in_flight_requests := 8; rc_max_queue_depth := 16;
        rc_max_payload_bytes := 262144; rc_max_stream_event_bytes := 8192;
        rc_allowed_provider_ids := bvec []; rc_integration_sockets := sockets |}.

Lemma validated_config_is_safe_witness :
  match default_router_config with
  | Ok c => RouterConfig_validate c = Ok tt /\
            rc_socket_path c =
              as_str (se_path (is_user_router (rc_integration_sockets c)))
  | _ => False
  end.
Proof.
  destruct default_router_config as [c| |] eqn:E; [|by vm_compute in E..].
  assert (RouterConfig_validate c = Ok tt) as Hc.
  { vm_compute in E. injection E as <-. by vm_compute. }
  split; [done|]. apply (validated_config_is_safe c Hc).
Defined.
