(* ===== verification/ToolContract.v ===== *)
(** * Tool contract (crates/sentia-protocol/src/tools.rs)

    Tool names, requests, results, definitions and the registry of required tools.
    JSON serialization belongs to [serde_json] and is the parameter [to_vec]: the
    serialized bytes, or the text of the error. *)

From S2P Require Import Prelude RustStr Bounded Contract RouterContract.
From Stdlib Require Import Ascii String.

(** ** Data *)

Inductive ToolArea :=
| Commands | Packages | Services | Logs | Resources | NetworkProcesses | FilesSystem.

Inductive PrivilegeClass := User | ElevatedBroker | RootBroker.

Inductive PrivacyClass := PcPublic | PcSession | HostSensitive | PcRestricted | Secret.

Inductive CancellationPolicy := NotCancellable | BestEffort | MustCancel.

Definition MAX_TOOL_INPUT_BYTES_V1 : usize := 65536.
Definition MAX_TOOL_OUTPUT_BYTES_V1 : usize := 262144.

Inductive ToolProvenanceSource := TpRouter | TpCli | TpUi | TpSystemTask.

Record ToolProvenance := {
  tp_source : ToolProvenanceSource;
  tp_timestamp_ms : u64;
  tp_request_id : option RequestId;
}.

Inductive ToolResultStatus :=
| TrOk | TrUnavailable | TrPermissionDenied | TrTimeout | TrFailed | TrCancelled.

Inductive ToolEvidenceKind := EkCommand | EkLog | EkJson | EkSnapshot | EkChecksum.

Record ToolEvidence := {
  te_kind : ToolEvidenceKind;
  te_path : string;
  te_sha256 : option (BoundedString 64);
}.

Inductive ToolName :=
| CommandExists
| CommandLookup
| CommandHelp
| CommandHistory
| AptSearch
| AptPackageInfo
| AptPackagePolicy
| AptSimulateInstall
| AptInstall
| AptRemove
| AptUpdate
| AptUpgrade
| PackageOwnsFile
| ServiceList
| ServiceStatus
| ServiceStart
| ServiceStop
| ServiceRestart
| ServiceEnable
| JournalRecent
| JournalErrors
| KernelMessages
| CpuStatus
| MemoryStatus
| SwapStatus
| FilesystemStatus
| DiskStatus
| DiskHealth
| TemperatureStatus
| NetworkStatus
| NetworkInterfaces
| ListeningPorts
| ProcessList
| ProcessDetails
| ProcessKill
| FileExists
| FileType
| FilePermissions
| DirectoryContents
| DiskUsage
| OsInformation
| HardwareInformation.

Definition ToolName_ALL : list ToolName :=
  [CommandExists; CommandLookup; CommandHelp; CommandHistory; AptSearch; AptPackageInfo; AptPackagePolicy; AptSimulateInstall; AptInstall; AptRemove; AptUpdate; AptUpgrade; PackageOwnsFile; ServiceList; ServiceStatus; ServiceStart; ServiceStop; ServiceRestart; ServiceEnable; JournalRecent; JournalErrors; KernelMessages; CpuStatus; MemoryStatus; SwapStatus; FilesystemStatus; DiskStatus; DiskHealth; TemperatureStatus; NetworkStatus; NetworkInterfaces; ListeningPorts; ProcessList; ProcessDetails; ProcessKill; FileExists; FileType; FilePermissions; DirectoryContents; DiskUsage; OsInformation; HardwareInformation].

Definition ToolName_as_str (self : ToolName) : string :=
  match self with
  | CommandExists => "command_exists"
  | CommandLookup => "command_lookup"
  | CommandHelp => "command_help"
  | CommandHistory => "command_history"
  | AptSearch => "apt_search"
  | AptPackageInfo => "apt_package_info"
  | AptPackagePolicy => "apt_package_policy"
  | AptSimulateInstall => "apt_simulate_install"
  | AptInstall => "apt_install"
  | AptRemove => "apt_remove"
  | AptUpdate => "apt_update"
  | AptUpgrade => "apt_upgrade"
  | PackageOwnsFile => "package_owns_file"
  | ServiceList => "service_list"
  | ServiceStatus => "service_status"
  | ServiceStart => "service_start"
  | ServiceStop => "service_stop"
  | ServiceRestart => "service_restart"
  | ServiceEnable => "service_enable"
  | JournalRecent => "journal_recent"
  | JournalErrors => "journal_errors"
  | KernelMessages => "kernel_messages"
  | CpuStatus => "cpu_status"
  | MemoryStatus => "memory_status"
  | SwapStatus => "swap_status"
  | FilesystemStatus => "filesystem_status"
  | DiskStatus => "disk_status"
  | DiskHealth => "disk_health"
  | TemperatureStatus => "temperature_status"
  | NetworkStatus => "network_status"
  | NetworkInterfaces => "network_interfaces"
  | ListeningPorts => "listening_ports"
  | ProcessList => "process_list"
  | ProcessDetails => "process_details"
  | ProcessKill => "process_kill"
  | FileExists => "file_exists"
  | FileType => "file_type"
  | FilePermissions => "file_permissions"
  | DirectoryContents => "directory_contents"
  | DiskUsage => "disk_usage"
  | OsInformation => "os_information"
  | HardwareInformation => "hardware_information"
  end.

#[global] Instance ToolName_eq_dec : EqDecision ToolName.
Proof. solve_decision. Defined.

(** The serde name of a variant is its [as_str]: deserializing a name looks it up
    among all of them. *)
Definition ToolName_deserialize (name : string) : option ToolName :=
  List.find (fun t => String.eqb (ToolName_as_str t) name) ToolName_ALL.

Lemma ToolName_deserialize_as_str t : ToolName_deserialize (ToolName_as_str t) = Some t.
Proof. by destruct t. Qed.

#[global] Instance ToolName_countable : Countable ToolName :=
  inj_countable ToolName_as_str ToolName_deserialize ToolName_deserialize_as_str.

Record ToolRequest := {
  tq_version : string;
  tq_request_id : RequestId;
  tq_name : ToolName;
  tq_args : Value;
  tq_max_input_bytes : u32;
  tq_provenance : ToolProvenance;
}.

Record ToolResult := {
  tr_version : string;
  tr_request_id : RequestId;
  tr_name : ToolName;
  tr_status : ToolResultStatus;
  tr_data : Value;
  tr_evidence : list ToolEvidence;
  tr_error : option ContractError;
  tr_max_output_bytes : u32;
  tr_duration_ms : u32;
  tr_truncated : bool;
}.

Record ToolDefinition := {
  td_name : ToolName;
  td_area : ToolArea;
  td_privilege_class : PrivilegeClass;
  td_privacy_class : PrivacyClass;
  td_input_schema_ref : string;
  td_output_schema_ref : string;
  td_provenance_required : bool;
  td_timeout_ms : u32;
  td_cancellation_policy : CancellationPolicy;
  td_max_input_bytes : u32;
  td_max_output_bytes : u32;
}.

Record ToolRegistry := {
  tg_version : string;
  tg_tools : list ToolDefinition;
}.

#[global] Instance PrivilegeClass_eq_dec : EqDecision PrivilegeClass.
Proof. solve_decision. Defined.
#[global] Instance ToolResultStatus_eq_dec : EqDecision ToolResultStatus.
Proof. solve_decision. Defined.

(** ** Requests and results *)

Section validation.
Context (to_vec : Value -> result string string).

Definition json_serialized_size (value : Value) (context : string)
  : result ContractError usize :=
  map_err (fun error => ContractError_new ErrInternal
             (context +:+ " failed to serialize for bounded-size check: " +:+ error) false)
    (len <$> to_vec value).

Definition ToolRequest_validate (self : ToolRequest) : result ContractError unit :=
  fail_if (negb (String.eqb (tq_version self) PROTOCOL_VERSION_V1))
    (bad_version "tool request version is not sentia.v1");;
  fail_if ((tq_max_input_bytes self =? 0) || (MAX_TOOL_INPUT_BYTES_V1 <? tq_max_input_bytes self))
    (invalid "tool request max_input_bytes exceeds protocol bounds");;
  size ← json_serialized_size (tq_args self) "tool request args";
  fail_if (tq_max_input_bytes self <? size)
    (ContractError_new PayloadTooLarge
       "tool request args exceed declared max_input_bytes" false).

Definition ToolResult_validate (self : ToolResult) : result ContractError unit :=
  fail_if (negb (String.eqb (tr_version self) PROTOCOL_VERSION_V1))
    (bad_version "tool result version is not sentia.v1");;
  fail_if ((tr_max_output_bytes self =? 0)
           || (MAX_TOOL_OUTPUT_BYTES_V1 <? tr_max_output_bytes self))
    (invalid "tool result max_output_bytes exceeds protocol bounds");;
  size ← json_serialized_size (tr_data self) "tool result data";
  fail_if (tr_max_output_bytes self <? size)
    (ContractError_new PayloadTooLarge
       "tool result data exceeds declared max_output_bytes" false);;
  match tr_status self with
  | TrOk => fail_if (is_some (tr_error self))
              (invalid "tool result status=ok cannot include error")
  | _ => fail_if (is_none (tr_error self))
           (invalid "tool result status requires structured error details")
  end.
End validation.

(** ** Definitions *)

Definition inferred_area (name : ToolName) : ToolArea :=
  match name with
  | CommandExists | CommandLookup | CommandHelp | CommandHistory => Commands
  | AptSearch | AptPackageInfo | AptPackagePolicy | AptSimulateInstall | AptInstall | AptRemove | AptUpdate | AptUpgrade | PackageOwnsFile => Packages
  | ServiceList | ServiceStatus | ServiceStart | ServiceStop | ServiceRestart | ServiceEnable => Services
  | JournalRecent | JournalErrors | KernelMessages => Logs
  | CpuStatus | MemoryStatus | SwapStatus | FilesystemStatus | DiskStatus | DiskHealth | TemperatureStatus => Resources
  | NetworkStatus | NetworkInterfaces | ListeningPorts | ProcessList | ProcessDetails | ProcessKill => NetworkProcesses
  | FileExists | FileType | FilePermissions | DirectoryContents | DiskUsage | OsInformation | HardwareInformation => FilesSystem
  end.

Definition inferred_privacy (name : ToolName) : PrivacyClass :=
  match name with
  | CommandHistory => PcSession
  | JournalRecent | JournalErrors | KernelMessages | NetworkStatus | NetworkInterfaces | ListeningPorts | ProcessList | ProcessDetails | ProcessKill | FilePermissions | DirectoryContents | DiskUsage | HardwareInformation | DiskHealth | TemperatureStatus => HostSensitive
  | AptInstall | AptRemove | AptUpdate | AptUpgrade | ServiceStart | ServiceStop | ServiceRestart | ServiceEnable => PcRestricted
  | _ => PcPublic
  end.

Definition required_definition (name : ToolName) : ToolDefinition :=
  let '(area, privilege_class, privacy_class, timeout_ms, cancellation_policy) :=
    match name with
    | AptInstall | AptRemove | AptUpdate | AptUpgrade =>
        (Packages, RootBroker, PcRestricted, 120000, BestEffort)
    | ServiceStart | ServiceStop | ServiceRestart | ServiceEnable =>
        (Services, RootBroker, PcRestricted, 30000, BestEffort)
    | ProcessKill =>
        (NetworkProcesses, ElevatedBroker, HostSensitive, 10000, BestEffort)
    | DiskHealth | TemperatureStatus | JournalRecent | JournalErrors | KernelMessages
    | ProcessDetails =>
        (inferred_area name, ElevatedBroker, HostSensitive, 10000, MustCancel)
    | _ => (inferred_area name, User, inferred_privacy name, 5000, MustCancel)
    end in
  {| td_name := name; td_area := area; td_privilege_class := privilege_class;
     td_privacy_class := privacy_class;
     td_input_schema_ref := "schemas/tools/tool-invocation-v1.schema.json#/$defs/tool_request";
     td_output_schema_ref := "schemas/tools/tool-invocation-v1.schema.json#/$defs/tool_result";
     td_provenance_required := true; td_timeout_ms := timeout_ms;
     td_cancellation_policy := cancellation_policy;
     td_max_input_bytes := 65536; td_max_output_bytes := 262144 |}.

(** ** Registry *)

Definition required_v1 : ToolRegistry :=
  {| tg_version := PROTOCOL_VERSION_V1; tg_tools := map required_definition ToolName_ALL |}.

(** The loop over the registered tools; [seen] is the [BTreeSet]. *)
Fixpoint register_all (seen : gset ToolName) (tools : list ToolDefinition)
  : result ContractError (gset ToolName) :=
  match tools with
  | [] => Ok seen
  | tool :: tools' =>
      fail_if (bool_decide (td_name tool ∈ seen))
        (invalid ("duplicate tool registration: " +:+ ToolName_as_str (td_name tool)));;
      fail_if ((td_max_input_bytes tool =? 0) || (td_max_output_bytes tool =? 0))
        (invalid ("tool " +:+ ToolName_as_str (td_name tool) +:+ " has invalid payload bounds"));;
      register_all ({[td_name tool]} ∪ seen) tools'
  end.

Fixpoint require_all (seen : gset ToolName) (required : list ToolName)
  : result ContractError unit :=
  match required with
  | [] => Ok tt
  | name :: required' =>
      fail_if (negb (bool_decide (name ∈ seen)))
        (invalid ("missing required tool " +:+ ToolName_as_str name));;
      require_all seen required'
  end.

Definition validate_complete_required_set (self : ToolRegistry) : result ContractError unit :=
  fail_if (negb (String.eqb (tg_version self) PROTOCOL_VERSION_V1))
    (bad_version "tool registry version is not sentia.v1");;
  seen ← register_all ∅ (tg_tools self);
  require_all seen ToolName_ALL.

(** ** Lemmas *)

Lemma elem_of_ToolName_ALL t : t ∈ ToolName_ALL.
Proof. apply list_elem_of_In. destruct t; cbn; tauto. Qed.

Lemma NoDup_ToolName_ALL : NoDup ToolName_ALL.
Proof. apply (bool_decide_unpack _). by vm_compute. Qed.

Definition bounds_ok (tool : ToolDefinition) : Prop :=
  td_max_input_bytes tool <> 0 /\ td_max_output_bytes tool <> 0.

Lemma register_all_Ok seen tools seen' :
  register_all seen tools = Ok seen' <->
  seen' = list_to_set (map td_name tools) ∪ seen /\
  NoDup (map td_name tools) /\ (forall t, t ∈ map td_name tools -> t ∉ seen) /\
  Forall bounds_ok tools.
Proof.
  revert seen. induction tools as [|tool tools IH]; intros seen; cbn -[String.append].
  { split; [intros [= <-]; repeat split; [set_solver|constructor|set_solver|constructor]|].
    intros [-> _]. f_equal. set_solver. }
  rewrite NoDup_cons, Forall_cons. unfold bounds_ok at 1.
  destruct (bool_decide_reflect (td_name tool ∈ seen)) as [Hin|Hnin]; cbn -[String.append].
  { split; [done|]. intros (_ & _ & Hd & _). exfalso. apply (Hd (td_name tool)); set_solver. }
  destruct (Z.eqb_spec (td_max_input_bytes tool) 0), (Z.eqb_spec (td_max_output_bytes tool) 0);
    cbn -[String.append]; try (by split; [done|naive_solver]).
  rewrite IH. split.
  - intros (-> & Hnd & Hd & Hb). repeat split; try done; try set_solver.
  - intros (-> & [Hnt Hnd] & Hd & _ & Hb). repeat split; try done; try set_solver.
Qed.

Lemma require_all_Ok seen required :
  require_all seen required = Ok tt <-> Forall (fun t => t ∈ seen) required.
Proof.
  induction required as [|t required IH]; cbn -[String.append]; [by split; [constructor|]|].
  rewrite Forall_cons, <-IH.
  destruct (bool_decide_reflect (t ∈ seen)); cbn -[String.append]; naive_solver.
Qed.

(** The registry check is complete: it accepts exactly the registries of
    version sentia.v1 whose tool names are the 42 required ones, each once and in
    any order, with non-zero payload bounds. *)
Theorem registry_accepts (r : ToolRegistry) :
  validate_complete_required_set r = Ok tt <->
  tg_version r = PROTOCOL_VERSION_V1 /\ map td_name (tg_tools r) ≡ₚ ToolName_ALL /\
  Forall bounds_ok (tg_tools r).
Proof.
  unfold validate_complete_required_set. split.
  - intros H. inv_result. apply String.eqb_eq in H.
    apply register_all_Ok in H0 as (-> & Hnd & _ & Hb). apply require_all_Ok in H1.
    repeat split; [done| |done].
    apply NoDup_Permutation; [done|apply NoDup_ToolName_ALL|].
    intros t. split; [intros _; apply elem_of_ToolName_ALL|].
    intros Ht. rewrite Forall_forall in H1. specialize (H1 t Ht). set_solver.
  - intros (Hv & Hp & Hb). rewrite (proj2 (String.eqb_eq _ _) Hv). cbn -[require_all].
    rewrite (proj2 (register_all_Ok ∅ (tg_tools r)
               (list_to_set (map td_name (tg_tools r)) ∪ ∅))); [cbn -[require_all]|].
    2: { split; [reflexivity|]. split; [rewrite Hp; apply NoDup_ToolName_ALL|].
         split; [set_solver|done]. }
    apply require_all_Ok, Forall_forall. intros t _. rewrite Hp.
    pose proof (elem_of_ToolName_ALL t). set_solver.
Qed.

Lemma required_v1_valid : validate_complete_required_set required_v1 = Ok tt.
Proof. by vm_compute. Qed.

(** A validated tool request or result is bounded: its JSON body is no larger
    than the bound it declares, which is itself positive and within the protocol
    bound; an ok result carries no error and any other result carries one. *)
Theorem tool_messages_bounded (to_vec : Value -> result string string)
    (q : ToolRequest) (r : ToolResult) :
  (ToolRequest_validate to_vec q = Ok tt ->
   exists bytes, to_vec (tq_args q) = Ok bytes /\
     len bytes <= tq_max_input_bytes q <= MAX_TOOL_INPUT_BYTES_V1 /\
     tq_max_input_bytes q <> 0) /\
  (ToolResult_validate to_vec r = Ok tt ->
   (exists bytes, to_vec (tr_data r) = Ok bytes /\
     len bytes <= tr_max_output_bytes r <= MAX_TOOL_OUTPUT_BYTES_V1) /\
   (tr_status r = TrOk <-> tr_error r = None)).
Proof.
  assert (forall v ctx size, json_serialized_size to_vec v ctx = Ok size ->
            exists bytes, to_vec v = Ok bytes /\ size = len bytes) as Hsize.
  { intros v ctx size H. unfold json_serialized_size in H. inv_result.
    destruct (to_vec v) as [bytes| |]; cbn in H; naive_solver. }
  split; intros H.
  - unfold ToolRequest_validate in H. inv_result.
    match goal with H : json_serialized_size _ _ _ = Ok _ |- _ =>
      apply Hsize in H as (bytes & Hb & ->) end.
    exists bytes. zbool. split; [done|]. lia.
  - unfold ToolResult_validate in H. inv_result.
    match goal with H : json_serialized_size _ _ _ = Ok _ |- _ =>
      apply Hsize in H as (bytes & Hb & ->) end.
    split; [exists bytes; zbool; split; [done|lia]|].
    destruct (tr_status r); destruct (tr_error r); inv_result; done.
Qed.

Definition sample_to_vec (v : Value) : result string string :=
  match v with VNull => Ok "null" | VBool true => Ok "true" | _ => Err "unsupported" end.

Definition sample_tool_request : ToolRequest :=
  {| tq_version := "sentia.v1"; tq_request_id := bstr "call-1"; tq_name := CpuStatus;
     tq_args := VNull; tq_max_input_bytes := 64;
     tq_provenance := {| tp_source := TpRouter; tp_timestamp_ms := 5; tp_request_id := None |} |}.

Definition sample_tool_result : ToolResult :=
  {| tr_version := "sentia.v1"; tr_request_id := bstr "call-1"; tr_name := CpuStatus;
     tr_status := TrOk; tr_data := VBool true; tr_evidence := []; tr_error := None;
     tr_max_output_bytes := 64; tr_duration_ms := 3; tr_truncated := false |}.

Lemma tool_messages_bounded_witness :
  ToolRequest_validate sample_to_vec sample_tool_request = Ok tt /\
  ToolResult_validate sample_to_vec sample_tool_result = Ok tt /\
  exists bytes, sample_to_vec VNull = Ok bytes /\ len bytes <= 64 <= MAX_TOOL_INPUT_BYTES_V1 /\
                64 <> 0.
Proof.
  split; [done|]. split; [done|].
  exact (proj1 (tool_messages_bounded sample_to_vec sample_tool_request sample_tool_result)
           eq_refl).
Defined.
