(* ===== verification/Transactions.v ===== *)
(** * Transactions and approvals (crates/sentia-protocol/src/transactions.rs)

    Canonical transaction plans, approval plans and grants, and the prepare/apply
    messages, each with its validator.  [serde_json::to_string] is the parameter
    [to_string]. *)

From S2P Require Import Prelude RustStr Bounded Contract RouterContract.
From Stdlib Require Import Ascii String Permutation.

Definition PlanId : Type := BoundedString 64.
Definition ApprovalId : Type := BoundedString 64.
Definition Sha256Digest : Type := BoundedString 64.
Definition AuthorizationRequestId : Type := BoundedString 64.
Definition AuthorizationSessionId : Type := BoundedString 64.

(** ** Data *)

Inductive TransactionKind :=
| TAptInstall | TAptRemove | TAptUpdate | TAptUpgrade | TServiceStart | TServiceStop
| TServiceRestart | TServiceEnable | TProcessKill.

Record PackageDelta := {
  pd_package : BoundedString 128;
  pd_from_version : option (BoundedString 64);
  pd_to_version : option (BoundedString 64);
  pd_download_bytes : u64;
  pd_installed_size_delta_bytes : i64;
  pd_service_effect : option string;
}.

Record ServiceDelta := {
  sd_service : BoundedString 128;
  sd_action : BoundedString 64;
  sd_expected_state : option (BoundedString 32);
}.

Record CanonicalTransactionPlan := {
  tx_version : BoundedString 24;
  tx_plan_id : PlanId;
  tx_created_at_ms : u64;
  tx_requester_uid : u32;
  tx_kind : TransactionKind;
  tx_requested_targets : list (BoundedString 128);
  tx_package_changes : list PackageDelta;
  tx_service_changes : list ServiceDelta;
  tx_unknown_effects : list (BoundedString 256);
  tx_state_fingerprint_sha256 : Sha256Digest;
  tx_approval_required : bool;
}.

Record RequiredEvidence := {
  re_case_id : BoundedString 64;
  re_rationale : BoundedString 256;
}.

Record ApprovalBinding := {
  ab_session_id : BoundedString 64;
  ab_caller_uid : u32;
  ab_operation_digest_sha256 : Sha256Digest;
  ab_relevant_state_digest_sha256 : Sha256Digest;
  ab_issued_at_ms : u64;
  ab_expires_at_ms : u64;
  ab_single_use : bool;
  ab_polkit_action : BoundedString 128;
}.

Record ApprovalPlan := {
  ap_version : BoundedString 24;
  ap_approval_id : ApprovalId;
  ap_transaction_plan : CanonicalTransactionPlan;
  ap_binding : ApprovalBinding;
  ap_required_evidence : list RequiredEvidence;
}.

Record ApprovalGrant := {
  ag_approval_id : ApprovalId;
  ag_grant_id : BoundedString 64;
  ag_broker_token : BoundedString 128;
  ag_granted_at_ms : u64;
  ag_expires_at_ms : u64;
}.

Inductive AuthorizationOperation := AoPrepare | AoApply.

Record AuthorizationPrepareRequest := {
  apr_version : BoundedString 24;
  apr_request_id : AuthorizationRequestId;
  apr_session_id : AuthorizationSessionId;
  apr_caller_uid : u32;
  apr_kind : TransactionKind;
  apr_requested_targets : list (BoundedString 128);
  apr_state_fingerprint_sha256 : Sha256Digest;
  apr_require_non_cached_auth : bool;
}.

Record AuthorizationPrepareResult := {
  aps_version : BoundedString 24;
  aps_request_id : AuthorizationRequestId;
  aps_operation : AuthorizationOperation;
  aps_approval_plan : ApprovalPlan;
}.

Record AuthorizationApplyRequest := {
  aar_version : BoundedString 24;
  aar_request_id : AuthorizationRequestId;
  aar_session_id : AuthorizationSessionId;
  aar_caller_uid : u32;
  aar_approval_grant : ApprovalGrant;
  aar_expected_operation_digest_sha256 : Sha256Digest;
  aar_expected_state_digest_sha256 : Sha256Digest;
}.

Record AuthorizationApplyResult := {
  aas_version : BoundedString 24;
  aas_request_id : AuthorizationRequestId;
  aas_operation : AuthorizationOperation;
  aas_approval_id : ApprovalId;
  aas_applied : bool;
  aas_applied_at_ms : u64;
  aas_evidence : list RequiredEvidence;
  aas_error : option ContractError;
}.

#[global] Instance AuthorizationOperation_eq_dec : EqDecision AuthorizationOperation.
Proof. solve_decision. Defined.

Definition is_nil {A} (l : list A) : bool := match l with [] => true | _ => false end.

Definition version_ok {MAX} (version : BoundedString MAX) (message : string)
  : result ContractError unit :=
  fail_if (negb (String.eqb (as_str version) PROTOCOL_VERSION_V1)) (bad_version message).

(** ** Plans *)

Definition CanonicalTransactionPlan_validate (self : CanonicalTransactionPlan)
  : result ContractError unit :=
  version_ok (tx_version self) "transaction plan version is not sentia.v1";;
  fail_if (is_nil (tx_requested_targets self) && is_nil (tx_package_changes self)
           && is_nil (tx_service_changes self))
    (invalid "transaction plan has no targets or changes").

Definition bstr_cmp {MAX} : BoundedString MAX -> BoundedString MAX -> comparison :=
  cmp_on as_str String.compare.

Definition package_cmp (a b : PackageDelta) : comparison :=
  cmp_then (cmp_on pd_package bstr_cmp a b) (cmp_on pd_to_version (cmp_option bstr_cmp) a b).

Definition service_cmp (a b : ServiceDelta) : comparison :=
  cmp_then (cmp_on sd_service bstr_cmp a b) (cmp_on sd_action bstr_cmp a b).

Definition canonicalized (self : CanonicalTransactionPlan) : CanonicalTransactionPlan :=
  {| tx_version := tx_version self; tx_plan_id := tx_plan_id self;
     tx_created_at_ms := tx_created_at_ms self; tx_requester_uid := tx_requester_uid self;
     tx_kind := tx_kind self;
     tx_requested_targets := sort_by (leb_of bstr_cmp) (tx_requested_targets self);
     tx_package_changes := sort_by (leb_of package_cmp) (tx_package_changes self);
     tx_service_changes := sort_by (leb_of service_cmp) (tx_service_changes self);
     tx_unknown_effects := sort_by (leb_of bstr_cmp) (tx_unknown_effects self);
     tx_state_fingerprint_sha256 := tx_state_fingerprint_sha256 self;
     tx_approval_required := tx_approval_required self |}.

Definition canonical_json (to_string : CanonicalTransactionPlan -> result string string)
    (self : CanonicalTransactionPlan) : result ContractError string :=
  CanonicalTransactionPlan_validate self;;
  map_err (fun e => ContractError_new ErrInternal
             ("failed to serialize canonical transaction plan: " +:+ e) false)
    (to_string (canonicalized self)).

(** ** Approvals *)

Definition ApprovalPlan_validate (self : ApprovalPlan) : result ContractError unit :=
  version_ok (ap_version self) "approval plan version is not sentia.v1";;
  CanonicalTransactionPlan_validate (ap_transaction_plan self);;
  fail_if (ab_expires_at_ms (ap_binding self) <=? ab_issued_at_ms (ap_binding self))
    (invalid "approval binding expiry must be after issued timestamp");;
  fail_if (is_nil (ap_required_evidence self))
    (invalid "approval plan requires at least one evidence requirement").

Definition ApprovalGrant_validate (self : ApprovalGrant) : result ContractError unit :=
  fail_if (ag_expires_at_ms self <=? ag_granted_at_ms self)
    (invalid "approval grant expiry must be after granted timestamp").

Definition AuthorizationPrepareRequest_validate (self : AuthorizationPrepareRequest)
  : result ContractError unit :=
  version_ok (apr_version self) "authorization prepare request version is not sentia.v1";;
  fail_if (is_nil (apr_requested_targets self))
    (invalid "authorization prepare request requires at least one requested target").

Definition AuthorizationPrepareResult_validate (self : AuthorizationPrepareResult)
  : result ContractError unit :=
  version_ok (aps_version self) "authorization prepare result version is not sentia.v1";;
  fail_if (negb (bool_decide (aps_operation self = AoPrepare)))
    (invalid "authorization prepare result operation must be prepare");;
  ApprovalPlan_validate (aps_approval_plan self).

Definition AuthorizationApplyRequest_validate (self : AuthorizationApplyRequest)
  : result ContractError unit :=
  version_ok (aar_version self) "authorization apply request version is not sentia.v1";;
  ApprovalGrant_validate (aar_approval_grant self);;
  Ok tt.

Definition AuthorizationApplyResult_validate (self : AuthorizationApplyResult)
  : result ContractError unit :=
  version_ok (aas_version self) "authorization apply result version is not sentia.v1";;
  fail_if (negb (bool_decide (aas_operation self = AoApply)))
    (invalid "authorization apply result operation must be apply");;
  if aas_applied self then
    fail_if (is_some (aas_error self))
      (invalid "applied authorization result cannot include error")
  else
    fail_if (is_none (aas_error self))
      (invalid "failed authorization apply result requires structured error").

(** ** Canonicalization *)

Lemma bstr_cmp_lawful MAX : lawful_cmp (@bstr_cmp MAX).
Proof. apply lawful_on, str_compare_lawful. Qed.

Lemma package_cmp_lawful : lawful_cmp package_cmp.
Proof.
  apply lawful_then; apply lawful_on; [|apply lawful_option]; apply bstr_cmp_lawful.
Qed.

Lemma service_cmp_lawful : lawful_cmp service_cmp.
Proof. apply lawful_then; apply lawful_on, bstr_cmp_lawful. Qed.

Lemma bstr_cmp_Eq MAX (a b : BoundedString MAX) : bstr_cmp a b = Eq -> a = b.
Proof. intros H. by apply BoundedString_ext, String.compare_eq_iff. Qed.

Definition package_key (d : PackageDelta) := (pd_package d, pd_to_version d).
Definition service_key (d : ServiceDelta) := (sd_service d, sd_action d).

Lemma package_cmp_Eq a b : package_cmp a b = Eq -> package_key a = package_key b.
Proof.
  unfold package_cmp, cmp_then, cmp_on, package_key. intros H.
  destruct (bstr_cmp (pd_package a) (pd_package b)) eqn:E; try done.
  apply bstr_cmp_Eq in E. rewrite E. f_equal.
  destruct (pd_to_version a), (pd_to_version b); cbn in H; try done.
  by apply bstr_cmp_Eq in H as ->.
Qed.

Lemma service_cmp_Eq a b : service_cmp a b = Eq -> service_key a = service_key b.
Proof.
  unfold service_cmp, cmp_then, cmp_on, service_key. intros H.
  destruct (bstr_cmp (sd_service a) (sd_service b)) eqn:E; try done.
  apply bstr_cmp_Eq in E, H. by rewrite E, H.
Qed.

(** Two plans that list the same targets, changes and effects in another order. *)
Record same_content (p q : CanonicalTransactionPlan) : Prop := {
  sc_version : tx_version p = tx_version q;
  sc_plan_id : tx_plan_id p = tx_plan_id q;
  sc_created : tx_created_at_ms p = tx_created_at_ms q;
  sc_uid : tx_requester_uid p = tx_requester_uid q;
  sc_kind : tx_kind p = tx_kind q;
  sc_fingerprint : tx_state_fingerprint_sha256 p = tx_state_fingerprint_sha256 q;
  sc_approval : tx_approval_required p = tx_approval_required q;
  sc_targets : tx_requested_targets p ≡ₚ tx_requested_targets q;
  sc_packages : tx_package_changes p ≡ₚ tx_package_changes q;
  sc_services : tx_service_changes p ≡ₚ tx_service_changes q;
  sc_effects : tx_unknown_effects p ≡ₚ tx_unknown_effects q;
}.

#[global] Instance same_content_equiv : Equivalence same_content.
Proof.
  split.
  - intros p. by split.
  - intros p q []. by split.
  - intros p q r [] []. split; by etransitivity.
Qed.

Lemma canonicalized_same_content p : same_content (canonicalized p) p.
Proof. split; try done; apply sort_by_perm. Qed.

Lemma is_nil_perm {A} (l k : list A) : l ≡ₚ k -> is_nil l = is_nil k.
Proof.
  intros H. destruct l, k; try done.
  - by apply Permutation_nil_cons in H.
  - by apply Permutation_sym, Permutation_nil_cons in H.
Qed.

#[global] Instance validate_same_content :
  Proper (same_content ==> eq) CanonicalTransactionPlan_validate.
Proof.
  intros p q []. unfold CanonicalTransactionPlan_validate, version_ok.
  by rewrite sc_version0, (is_nil_perm _ _ sc_targets0), (is_nil_perm _ _ sc_packages0),
    (is_nil_perm _ _ sc_services0).
Qed.

Lemma NoDup_map_inj {A B} (f : A -> B) l x y :
  NoDup (map f l) -> x ∈ l -> y ∈ l -> f x = f y -> x = y.
Proof.
  induction l as [|z l IH]; cbn; [set_solver|].
  rewrite NoDup_cons, !elem_of_cons. intros [Hz Hnd] [->|Hx] [->|Hy] E; try done.
  - exfalso. apply Hz. rewrite E. by apply list_elem_of_fmap_2.
  - exfalso. apply Hz. rewrite <-E. by apply list_elem_of_fmap_2.
  - by apply IH.
Qed.

(** Canonical JSON is canonical: two plans with the same content in any order
    have the same canonical form and the same JSON (or the same error), provided
    no two package changes share package and target version and no two service
    changes share service and action. *)
Theorem canonical_json_order_independent to_string (p q : CanonicalTransactionPlan) :
  same_content p q ->
  NoDup (map package_key (tx_package_changes p)) ->
  NoDup (map service_key (tx_service_changes p)) ->
  canonicalized p = canonicalized q /\ canonical_json to_string p = canonical_json to_string q.
Proof.
  intros Hs Hp Hv.
  assert (canonicalized p = canonicalized q) as E.
  { unfold canonicalized. destruct Hs. f_equal; try done.
    - apply sort_cmp_perm_eq; [apply bstr_cmp_lawful| |done]. intros. by apply bstr_cmp_Eq.
    - apply sort_cmp_perm_eq; [apply package_cmp_lawful| |done].
      intros x y Hx Hy E%package_cmp_Eq. by eapply NoDup_map_inj.
    - apply sort_cmp_perm_eq; [apply service_cmp_lawful| |done].
      intros x y Hx Hy E%service_cmp_Eq. by eapply NoDup_map_inj.
    - apply sort_cmp_perm_eq; [apply bstr_cmp_lawful| |done]. intros. by apply bstr_cmp_Eq. }
  split; [done|]. unfold canonical_json. by rewrite E, Hs.
Qed.

Lemma canonicalized_idemp p : canonicalized (canonicalized p) = canonicalized p.
Proof.
  unfold canonicalized; cbn. f_equal; apply sort_cmp_idemp;
    auto using bstr_cmp_lawful, package_cmp_lawful, service_cmp_lawful.
Qed.

Definition sample_delta (from : BoundedString 64) (size : Z) : PackageDelta :=
  {| pd_package := bstr "libc6"; pd_from_version := Some from;
     pd_to_version := Some (bstr "2.41-12" : BoundedString 64); pd_download_bytes := size;
     pd_installed_size_delta_bytes := 0; pd_service_effect := None |}.

Definition sample_plan (targets : list (BoundedString 128)) (changes : list PackageDelta)
  : CanonicalTransactionPlan :=
  {| tx_version := bstr "sentia.v1"; tx_plan_id := bstr "plan-1"; tx_created_at_ms := 1;
     tx_requester_uid := 1000; tx_kind := TAptUpgrade; tx_requested_targets := targets;
     tx_package_changes := changes; tx_service_changes := []; tx_unknown_effects := [];
     tx_state_fingerprint_sha256 := bstr "00"; tx_approval_required := true |}.

Lemma canonical_json_order_independent_witness :
  let a : BoundedString 128 := bstr "vim" in
  let b : BoundedString 128 := bstr "apt" in
  let p := sample_plan [a; b] [sample_delta (bstr "2.41-9") 7] in
  let q := sample_plan [b; a] [sample_delta (bstr "2.41-9") 7] in
  p <> q /\ canonicalized p = canonicalized q.
Proof.
  split; [discriminate|].
  apply (canonical_json_order_independent (fun _ => Ok "json")).
  - split; try done. apply perm_swap.
  - cbn. apply NoDup_singleton.
  - constructor.
Defined.

(** Without distinct keys the canonical form still depends on the order: two
    plans with the same content (two architectures of one package moving to the
    same version) whose canonical forms differ. *)
Theorem canonical_form_order_sensitive :
  exists p q, same_content p q /\ CanonicalTransactionPlan_validate p = Ok tt /\
              canonicalized p <> canonicalized q.
Proof.
  exists (sample_plan [] [sample_delta (bstr "2.41-9") 7; sample_delta (bstr "2.41-8") 9]),
         (sample_plan [] [sample_delta (bstr "2.41-8") 9; sample_delta (bstr "2.41-9") 7]).
  split; [|split; [done|by vm_compute]]. split; try done. apply perm_swap.
Qed.
