(* ===== verification/SocketContract.v ===== *)
(** * Socket frames (crates/sentia-protocol/src/socket.rs)

    The JSON-lines frames exchanged over the unix sockets, and the version check
    every receiver applies first. *)

From S2P Require Import Prelude RustStr Bounded Contract RouterContract ToolContract.
From Stdlib Require Import Ascii String.

Definition SOCKET_TRANSPORT_V1 : string := "jsonl-unix-v1".

Definition FrameId : Type := BoundedString 64.
Definition StreamId : Type := BoundedString 64.
Definition EventId : Type := BoundedString 64.
Definition CancelId : Type := BoundedString 64.

Record UnixSocketSecurity := {
  us_transport : string;
  us_runtime_dir_only : bool;
  us_require_peer_credentials : bool;
  us_directory_mode_octal : string;
  us_socket_mode_octal : string;
}.

Definition UnixSocketSecurity_default : UnixSocketSecurity :=
  {| us_transport := SOCKET_TRANSPORT_V1; us_runtime_dir_only := true;
     us_require_peer_credentials := true; us_directory_mode_octal := "0700";
     us_socket_mode_octal := "0600" |}.

Inductive ToolPhase :=
| PhQueued | PhValidating | PhRunning | PhVerifying | PhCompleted | PhFailed.

Inductive EventPayload :=
| EpStateTransition (from to : RequestStatus)
| EpOutputDelta (delta : BoundedString 8192) (cumulative_bytes : u32)
| EpProviderStatus (provider_status : ProviderStatus)
| EpToolProgress (tool : ToolName) (phase : ToolPhase) (detail : option string)
| EpTerminal (final_status : RequestStatus).

Record StreamEvent := {
  sv_event_id : EventId;
  sv_request_id : RequestId;
  sv_sequence : u64;
  sv_status : RequestStatus;
  sv_emitted_at_ms : u64;
  sv_payload : EventPayload;
}.

Inductive CancelReason := UserRequested | CrTimeout | ClientDisconnect | ServiceShutdown.

Record CancelRequest := {
  cq_cancel_id : CancelId;
  cq_request_id : RequestId;
  cq_reason : CancelReason;
  cq_requested_at_ms : u64;
}.

Record CancelAck := {
  ca_cancel_id : CancelId;
  ca_request_id : RequestId;
  ca_accepted : bool;
  ca_final_status : RequestStatus;
  ca_message : option string;
}.

Inductive JsonlFrame :=
| FRequest (version : string) (frame_id : FrameId) (stream_id : StreamId)
    (request : RouterRequest)
| FEvent (version : string) (frame_id : FrameId) (stream_id : StreamId) (event : StreamEvent)
| FResult (version : string) (frame_id : FrameId) (stream_id : StreamId)
    (result : RouterResult)
| FError (version : string) (frame_id : FrameId) (stream_id : StreamId)
    (error : ContractError)
| FCancel (version : string) (frame_id : FrameId) (stream_id : StreamId)
    (cancel : CancelRequest)
| FCancelAck (version : string) (frame_id : FrameId) (stream_id : StreamId)
    (cancel_ack : CancelAck)
| FToolRequest (version : string) (frame_id : FrameId) (stream_id : StreamId)
    (tool_request : ToolRequest)
| FToolResult (version : string) (frame_id : FrameId) (stream_id : StreamId)
    (tool_result : ToolResult).

Definition frame_version (self : JsonlFrame) : string :=
  match self with
  | FRequest version _ _ _ | FEvent version _ _ _ | FResult version _ _ _
  | FError version _ _ _ | FCancel version _ _ _ | FCancelAck version _ _ _
  | FToolRequest version _ _ _ | FToolResult version _ _ _ => version
  end.

Definition validate_version (self : JsonlFrame) : result ContractError unit :=
  if String.eqb (frame_version self) PROTOCOL_VERSION_V1 then Ok tt
  else Err (ContractError_new UnsupportedVersion "frame version is not sentia.v1" false).

Lemma validate_version_Ok f :
  validate_version f = Ok tt <-> frame_version f = PROTOCOL_VERSION_V1.
Proof.
  unfold validate_version.
  destruct (String.eqb_spec (frame_version f) PROTOCOL_VERSION_V1); naive_solver.
Qed.
