(* ===== verification/Privileged.v ===== *)
(** * Privileged operations (crates/sentia-privileged/src/lib.rs)

    The typed operations the root broker accepts, their validation, the polkit
    action each needs, and the digest of a serialized value.  An [Error] is the
    static string it wraps.  [serde_json] and SHA-256 are arguments of the
    definitions that call them. *)

From S2P Require Import Prelude RustStr Bounded Contract.
From Stdlib Require Import Ascii String.

Abbreviation Error := string (only parsing).
Abbreviation Res A := (result string A) (only parsing).

Definition PLAN_LIFETIME_SECONDS : u64 := 120.
Definition MAX_REQUEST_BYTES : usize := 16384.

Inductive ServiceAction := Start | Stop | Restart | Enable.

Definition ServiceAction_argument (self : ServiceAction) : string :=
  match self with
  | Start => "start"
  | Stop => "stop"
  | Restart => "restart"
  | Enable => "enable"
  end.

Inductive Operation :=
| OpService (action : ServiceAction) (unit : string)
| OpProcessKill (pid : u32)
| OpAptInstall (packages : list string)
| OpAptRemove (packages : list string)
| OpAptUpdate
| OpAptUpgrade.

#[global] Instance ServiceAction_eq_dec : EqDecision ServiceAction.
Proof. solve_decision. Defined.
#[global] Instance Operation_eq_dec : EqDecision Operation.
Proof. solve_decision. Defined.

(** ** Validation *)

Definition validate_unit (unit : string) : Res Datatypes.unit :=
  stem ← ok_or (strip_suffix ".service" unit) "invalid_unit";
  fail_if ((255 <? len unit)
           || is_empty stem
           || negb (first_byte is_ascii_alphanumeric stem)
           || negb (bytes_all (fun c => is_ascii_alphanumeric c || one_of "_.-" c) stem)
           || contains ".." unit)
    "invalid_unit".

Definition package_byte (c : ascii) : bool :=
  is_ascii_lowercase c || is_ascii_digit c || one_of "+.-" c.

Definition validate_package (package : string) : Res unit :=
  fail_if ((len package <? 2)
           || (128 <? len package)
           || (negb (first_byte is_ascii_lowercase package)
               && negb (first_byte is_ascii_digit package))
           || negb (bytes_all package_byte package))
    "invalid_package".

(** The loop over the packages; [unique] is the [BTreeSet]. *)
Fixpoint validate_packages (unique : gset string) (packages : list string) : Res unit :=
  match packages with
  | [] => Ok tt
  | package :: packages' =>
      validate_package package;;
      fail_if (bool_decide (package ∈ unique)) "duplicate_package";;
      validate_packages ({[package]} ∪ unique) packages'
  end.

Definition Operation_validate (self : Operation) : Res unit :=
  match self with
  | OpService _ unit => validate_unit unit
  | OpProcessKill pid =>
      if (pid <=? 1) || (I32_MAX <? pid) then Err "invalid_pid" else Ok tt
  | OpAptInstall packages | OpAptRemove packages =>
      fail_if ((vlen packages =? 0) || (64 <? vlen packages)) "invalid_packages";;
      validate_packages ∅ packages
  | _ => Ok tt
  end.

Definition action_id (self : Operation) : string :=
  match self with
  | OpService action _ =>
      match action with
      | Start => "org.sentia.system.service-start"
      | Stop => "org.sentia.system.service-stop"
      | Restart => "org.sentia.system.service-restart"
      | Enable => "org.sentia.system.service-enable"
      end
  | OpProcessKill _ => "org.sentia.system.process-terminate"
  | OpAptInstall _ => "org.sentia.system.package-install"
  | OpAptRemove _ => "org.sentia.system.package-remove"
  | OpAptUpdate => "org.sentia.system.package-update"
  | OpAptUpgrade => "org.sentia.system.package-upgrade"
  end.

Record PrepareRequest := { pr_version : u32; pr_operation : Operation }.

(** [from_str] is [serde_json::from_str::<PrepareRequest>] with its error dropped. *)
Definition parse_request (from_str : string -> option PrepareRequest) (json : string)
  : Res Operation :=
  fail_if (MAX_REQUEST_BYTES <? len json) "request_too_large";;
  request ← ok_or (from_str json) "invalid_request";
  fail_if (negb (pr_version request =? 1)) "unsupported_version";;
  Operation_validate (pr_operation request);;
  Ok (pr_operation request).

(** [digest]: the serialized bytes hashed and printed in hexadecimal. *)
Definition digest_of (sha256_hex : string -> string) (serialized : option string)
  : Res string :=
  bytes ← ok_or serialized "serialization_failed";
  Ok (sha256_hex bytes).

(** ** Lemmas *)

Lemma validate_packages_Ok unique packages :
  validate_packages unique packages = Ok tt <->
  NoDup packages /\ (forall p, p ∈ packages -> p ∉ unique) /\
  Forall (fun p => validate_package p = Ok tt) packages.
Proof.
  revert unique. induction packages as [|p packages IH]; intros unique; cbn.
  { split; [|done]. intros _. split; [constructor|]. split; [set_solver|constructor]. }
  rewrite NoDup_cons, Forall_cons.
  destruct (validate_package p) as [[]| |]; cbn; [|naive_solver..].
  destruct (bool_decide_reflect (p ∈ unique)) as [Hin|Hnin]; cbn.
  - split; [done|]. intros (_ & Hd & _). exfalso. apply (Hd p); [left|done].
  - rewrite IH. split.
    + intros (Hnd & Hd & Hv). repeat split; try done; set_solver.
    + intros ((Hp & Hnd) & Hd & _ & Hv). repeat split; try done; set_solver.
Qed.

Lemma validate_unit_Ok unit :
  validate_unit unit = Ok tt ->
  exists stem, unit = stem +:+ ".service" /\ len unit <= 255 /\
    first_byte is_ascii_alphanumeric stem = true /\
    bytes_all (fun c => is_ascii_alphanumeric c || one_of "_.-" c) stem = true /\
    contains ".." unit = false.
Proof.
  unfold validate_unit. intros H. inv_result. zbool.
  apply strip_suffix_Some in H. eauto 10.
Qed.

(** Bytes that can never reach an argument vector or a worker request. *)
Definition shell_safe (c : ascii) : bool := is_ascii_alphanumeric c || one_of "_.-+" c.

Lemma bytes_all_impl (p q : ascii -> bool) s :
  (forall c, p c = true -> q c = true) -> bytes_all p s = true -> bytes_all q s = true.
Proof. unfold bytes_all. intros H. rewrite !forallb_forall. eauto. Qed.

Lemma one_of_mono s t c :
  (forall d, In d (list_ascii_of_string s) -> In d (list_ascii_of_string t)) ->
  one_of s c = true -> one_of t c = true.
Proof.
  unfold one_of. rewrite !existsb_exists. intros Hi (d & Hd & E). eauto.
Qed.

(** What passes validation cannot be read as an option, a path, a glob or shell
    text: a validated unit ends in .service, has at most 255 bytes, starts with a
    letter or digit and holds only letters, digits, dot, dash and underscore; the
    packages of a validated request are between 1 and 64, pairwise different,
    2 to 128 bytes long, start with a lower-case letter or digit and hold only
    bytes of that kind; a validated pid is above 1 and fits an i32. *)
Theorem validated_operation_is_literal (op : Operation) :
  Operation_validate op = Ok tt ->
  match op with
  | OpService _ unit =>
      ends_with ".service" unit = true /\ len unit <= 255 /\
      first_byte is_ascii_alphanumeric unit = true /\ bytes_all shell_safe unit = true
  | OpProcessKill pid => 1 < pid <= I32_MAX
  | OpAptInstall packages | OpAptRemove packages =>
      1 <= vlen packages <= 64 /\ NoDup packages /\
      Forall (fun p => 2 <= len p <= 128 /\ first_byte is_ascii_alphanumeric p = true /\
                       bytes_all shell_safe p = true) packages
  | OpAptUpdate | OpAptUpgrade => True
  end.
Proof.
  assert (forall packages,
    (fail_if ((vlen packages =? 0) || (64 <? vlen packages)) "invalid_packages";;
     validate_packages ∅ packages) = Ok tt ->
    1 <= vlen packages <= 64 /\ NoDup packages /\
    Forall (fun p => 2 <= len p <= 128 /\ first_byte is_ascii_alphanumeric p = true /\
                     bytes_all shell_safe p = true) packages) as Hpk.
  { intros packages H. inv_result. apply validate_packages_Ok in H0 as (Hnd & _ & Hv).
    pose proof (vlen_nonneg packages). zbool. split; [lia|]. split; [done|].
    eapply Forall_impl; [exact Hv|]. intros p Hp. unfold validate_package in Hp.
    inv_result. zbool. split; [lia|]. split.
    - destruct p as [|c p]; [done|]. cbn in *. unfold is_ascii_alphanumeric.
      destruct (is_ascii_lowercase c), (is_ascii_digit c); cbn in *;
        rewrite ?orb_true_r; done.
    - eapply bytes_all_impl; [|eassumption]. intros c. unfold package_byte, shell_safe,
        is_ascii_alphanumeric.
      destruct (is_ascii_lowercase c), (is_ascii_digit c), (is_ascii_uppercase c);
        cbn [orb]; try done.
      apply one_of_mono. cbn. tauto. }
  destruct op as [action unit|pid|packages|packages| |]; cbn; auto.
  - intros (stem & -> & Hl & Hf & Ha & _)%validate_unit_Ok. repeat split; [|done| |].
    + apply ends_with_true. eauto.
    + by destruct stem.
    + rewrite bytes_all_app, andb_true_iff. split; [|done].
      eapply bytes_all_impl; [|exact Ha]. intros c. unfold shell_safe.
      destruct (is_ascii_alphanumeric c); [done|]. apply one_of_mono. cbn. tauto.
  - destruct (Z.leb_spec pid 1), (Z.ltb_spec I32_MAX pid); cbn; done.
Qed.

Lemma validated_operation_is_literal_witness :
  Operation_validate (OpService Restart "ssh.service") = Ok tt /\
  Operation_validate (OpAptInstall ["curl"; "libstdc++6"]) = Ok tt /\
  NoDup ["curl"; "libstdc++6"].
Proof.
  split; [done|]. split; [done|].
  apply (validated_operation_is_literal (OpAptInstall ["curl"; "libstdc++6"]) eq_refl).
Defined.
