(* ===== verification/PlanStore.v ===== *)
(** * The plan store (crates/sentia-privileged/src/broker.rs)

    Prepared plans wait here between the preview and the apply call.  The store is
    the [HashMap] from plan id to prepared plan; [prepare] and [consume] return the
    new store beside their result, because both change it on some error paths. *)

From S2P Require Import Prelude RustStr Bounded Contract Privileged.
From Stdlib Require Import Ascii String.

Record Caller := {
  unique_name : string;
  caller_uid : u32;
  caller_pid : u32;
  process_start : u64;
  session : string;
}.

Record CanonicalPlan := MkPlan {
  plan_version : u32;
  plan_id : string;
  plan_caller : Caller;
  plan_action_id : string;
  plan_operation : Operation;
  argument_digest : string;
  plan_state : Value;
  issued_at : u64;
  expires_at : u64;
}.

Record Prepared := MkPrepared { prepared_plan : CanonicalPlan; prepared_digest : string }.

#[global] Instance Caller_eq_dec : EqDecision Caller.
Proof. solve_decision. Defined.

Abbreviation PlanStore := (gmap string Prepared) (only parsing).

(** ** The interface to serialization and hashing *)

(** [serde_json::to_vec] on the three types the broker hashes, and SHA-256 printed
    in lower-case hexadecimal. *)
Class Digests := {
  to_vec_operation : Operation -> option string;
  to_vec_plan : CanonicalPlan -> option string;
  to_vec_caller : Caller -> option string;
  sha256_hex : string -> string;
}.

(** A SHA-256 digest has 32 bytes, hence 64 hexadecimal digits. *)
Class DigestsOk `{Digests} : Prop := sha256_hex_len : forall bytes, len (sha256_hex bytes) = 64.

(** [format!("{b:02x}")] *)
Definition hex_digit (n : Z) : ascii :=
  ascii_of_N (Z.to_N (if n <? 10 then 48 + n else 87 + n)).
Definition hex_byte (b : u8) : string :=
  String (hex_digit (b / 16)) (String (hex_digit (b mod 16)) EmptyString).
Definition hex_encode (nonce : list u8) : string := sconcat (map hex_byte nonce).

Section store.
Context `{D : Digests}.

Definition digest_operation (op : Operation) : result string string :=
  digest_of sha256_hex (to_vec_operation op).
Definition digest_plan (plan : CanonicalPlan) : result string string :=
  digest_of sha256_hex (to_vec_plan plan).

(** [self.plans.retain(|_, p| now < p.plan.expires_at)] *)
Definition retain_live (now : u64) (plans : PlanStore) : PlanStore :=
  filter (fun '(_, p) => now < expires_at (prepared_plan p)) plans.

Definition plans_of (name : string) (plans : PlanStore) : PlanStore :=
  filter (fun '(_, p) => unique_name (plan_caller (prepared_plan p)) = name) plans.

(** What follows the quota check in [prepare]: the plan is built field by field, in
    the order of the struct literal. *)
Definition build_prepared (caller : Caller) (operation : Operation) (state : Value) (now : u64)
    (entropy : option (list u8)) : result string Prepared :=
  nonce ← ok_or entropy "entropy_unavailable";
  let id := hex_encode nonce in
  argument_digest ← digest_operation operation;
  expires ← ok_or (checked_add U64_MAX now PLAN_LIFETIME_SECONDS) "invalid_time";
  let plan := {| plan_version := 1; plan_id := id; plan_caller := caller;
                 plan_action_id := action_id operation; plan_operation := operation;
                 argument_digest := argument_digest; plan_state := state;
                 issued_at := now; expires_at := expires |} in
  digest ← digest_plan plan;
  Ok {| prepared_plan := plan; prepared_digest := digest |}.

(** [PlanStore::prepare]; [entropy] is what the operating system's generator
    returned ([None] when it failed). *)
Definition prepare (plans : PlanStore) (caller : Caller) (operation : Operation)
    (state : Value) (now : u64) (entropy : option (list u8))
  : PlanStore * result string Prepared :=
  match Operation_validate operation with
  | Ok _ =>
      let plans := retain_live now plans in
      if (256 <=? Z.of_nat (size plans))
         || (8 <=? Z.of_nat (size (plans_of (unique_name caller) plans)))
      then (plans, Err "too_many_pending_plans")
      else
        match build_prepared caller operation state now entropy with
        | Ok prepared => (<[plan_id (prepared_plan prepared) := prepared]> plans, Ok prepared)
        | Err e => (plans, Err e)
        | Panic => (plans, Panic)
        end
  | Err e => (plans, Err e)
  | Panic => (plans, Panic)
  end.

(** [PlanStore::consume] *)
Definition consume (plans : PlanStore) (id expected_digest : string) (caller : Caller)
    (now : u64) : PlanStore * result string CanonicalPlan :=
  if negb (len id =? 64) || negb (len expected_digest =? 64)
  then (plans, Err "invalid_plan_reference")
  else
    match plans !! id with
    | None => (plans, Err "unknown_or_used_plan")
    | Some prepared =>
        if negb (bool_decide (plan_caller (prepared_plan prepared) = caller))
        then (plans, Err "caller_changed")
        else
          let plans := delete id plans in
          if (now <? issued_at (prepared_plan prepared))
             || (expires_at (prepared_plan prepared) <=? now)
          then (plans, Err "plan_expired")
          else if negb (String.eqb (prepared_digest prepared) expected_digest)
          then (plans, Err "plan_digest_changed")
          else (plans, Ok (prepared_plan prepared))
    end.

Definition revalidate (plan : CanonicalPlan) (caller : Caller) (state : Value) (now : u64)
  : result string unit :=
  fail_if (negb (bool_decide (plan_caller plan = caller))) "caller_changed";;
  fail_if ((now <? issued_at plan) || (expires_at plan <=? now)) "plan_expired";;
  fail_if (negb (bool_decide (plan_state plan = state))) "state_changed_prepare_again";;
  (if negb (String.eqb (plan_action_id plan) (action_id (plan_operation plan)))
   then Err "plan_changed"
   else digest ← digest_operation (plan_operation plan);
        fail_if (negb (String.eqb (argument_digest plan) digest)) "plan_changed");;
  Operation_validate (plan_operation plan).

(** ** Invariant *)

(** What every stored plan satisfies: it is stored under its own id, its operation
    passed validation, its action and digests are those of its content, and it
    lives for exactly the plan lifetime. *)
Record plan_wf (id : string) (p : Prepared) : Prop := {
  wf_id : plan_id (prepared_plan p) = id;
  wf_valid : Operation_validate (plan_operation (prepared_plan p)) = Ok tt;
  wf_action : plan_action_id (prepared_plan p) = action_id (plan_operation (prepared_plan p));
  wf_argument : digest_operation (plan_operation (prepared_plan p))
                = Ok (argument_digest (prepared_plan p));
  wf_digest : digest_plan (prepared_plan p) = Ok (prepared_digest p);
  wf_lifetime : expires_at (prepared_plan p)
                = issued_at (prepared_plan p) + PLAN_LIFETIME_SECONDS;
  wf_time : expires_at (prepared_plan p) <= U64_MAX;
}.

(** The store holds at most 256 plans and at most 8 per bus connection. *)
Record store_wf (plans : PlanStore) : Prop := {
  sw_plans : map_Forall plan_wf plans;
  sw_size : Z.of_nat (size plans) <= 256;
  sw_caller : forall name, Z.of_nat (size (plans_of name plans)) <= 8;
}.

Lemma map_size_mono (m n : PlanStore) : m ⊆ n -> (size m <= size n)%nat.
Proof. apply map_subseteq_size. Qed.

Lemma plans_of_mono name (m n : PlanStore) : m ⊆ n -> plans_of name m ⊆ plans_of name n.
Proof. apply map_filter_subseteq_mono. Qed.

Lemma store_wf_mono (m n : PlanStore) : m ⊆ n -> store_wf n -> store_wf m.
Proof.
  intros Hs [Hp Hz Hc]. split.
  - intros id p Hid. apply (Hp id p). by eapply lookup_weaken.
  - apply map_size_mono in Hs. lia.
  - intros name. specialize (Hc name).
    pose proof (map_size_mono _ _ (plans_of_mono name _ _ Hs)). lia.
Qed.

Lemma store_wf_empty : store_wf ∅.
Proof.
  split; [apply map_Forall_empty|by rewrite map_size_empty|].
  intros name. unfold plans_of. rewrite map_filter_empty, map_size_empty. done.
Qed.

Lemma retain_live_subseteq now (plans : PlanStore) : retain_live now plans ⊆ plans.
Proof. apply map_filter_subseteq. Qed.

Lemma build_prepared_wf caller op state now entropy p :
  Operation_validate op = Ok tt ->
  build_prepared caller op state now entropy = Ok p ->
  plan_wf (plan_id (prepared_plan p)) p /\ plan_caller (prepared_plan p) = caller /\
  plan_operation (prepared_plan p) = op /\ plan_state (prepared_plan p) = state /\
  issued_at (prepared_plan p) = now /\
  exists nonce, entropy = Some nonce /\ plan_id (prepared_plan p) = hex_encode nonce.
Proof.
  intros Hop H. unfold build_prepared in H. inv_result. subst p.
  match goal with H : checked_add _ _ _ = Some _ |- _ => apply checked_add_Some in H as [-> ?] end.
  repeat split; cbn; try done. eauto.
Qed.

Lemma plans_of_insert_size name id p (plans : PlanStore) :
  (size (plans_of name (<[id := p]> plans)) <=
   if decide (unique_name (plan_caller (prepared_plan p)) = name)
   then S (size (plans_of name plans)) else size (plans_of name plans))%nat.
Proof.
  unfold plans_of. case_decide as Hn.
  - rewrite map_filter_insert_True by done. rewrite map_size_insert.
    case_match; cbn; lia.
  - rewrite map_filter_insert_False by done.
    apply map_size_mono, map_filter_subseteq_mono, delete_subseteq.
Qed.

Lemma prepare_preserves_wf plans caller op state now entropy :
  store_wf plans -> store_wf (prepare plans caller op state now entropy).1.
Proof.
  intros Hwf. unfold prepare.
  destruct (Operation_validate op) as [[]| |] eqn:Hop; [|done..].
  pose proof (store_wf_mono _ _ (retain_live_subseteq now plans) Hwf) as Hlive.
  set (live := retain_live now plans) in *. clearbody live. clear Hwf.
  destruct ((256 <=? Z.of_nat (size live)) || _) eqn:Hquota; [done|]. inv_result. zbool.
  destruct (build_prepared caller op state now entropy) as [p| |] eqn:Hp; [|done..].
  destruct (build_prepared_wf _ _ _ _ _ _ Hop Hp) as (Hpwf & Hcaller & _).
  destruct Hlive as [Hall Hsize Hper]. split; cbn.
  - by apply map_Forall_insert_2.
  - rewrite map_size_insert. case_match; cbn; lia.
  - intros name. specialize (Hper name).
    pose proof (plans_of_insert_size name (plan_id (prepared_plan p)) p live).
    case_decide as E; [|lia]. rewrite Hcaller in E. subst name. lia.
Qed.

Lemma consume_subseteq plans id digest caller now :
  (consume plans id digest caller now).1 ⊆ plans.
Proof.
  unfold consume. repeat case_match; cbn; try done; apply delete_subseteq.
Qed.

Lemma consume_preserves_wf plans id digest caller now :
  store_wf plans -> store_wf (consume plans id digest caller now).1.
Proof. apply store_wf_mono, consume_subseteq. Qed.

(** The whole behaviour of [consume] in terms of the stored plan. *)
Lemma consume_cases plans id digest caller now :
  (len id = 64 /\ len digest = 64 /\ exists p, plans !! id = Some p /\
   plan_caller (prepared_plan p) = caller /\
   (consume plans id digest caller now).1 = delete id plans /\
   (consume plans id digest caller now).2 =
     if (now <? issued_at (prepared_plan p)) || (expires_at (prepared_plan p) <=? now)
     then Err "plan_expired"
     else if String.eqb (prepared_digest p) digest then Ok (prepared_plan p)
     else Err "plan_digest_changed") \/
  ((consume plans id digest caller now).1 = plans /\
   exists e, (consume plans id digest caller now).2 = Err e /\
     e ∈ ["invalid_plan_reference"; "unknown_or_used_plan"; "caller_changed"]).
Proof.
  unfold consume.
  destruct (Z.eqb_spec (len id) 64), (Z.eqb_spec (len digest) 64); cbn;
    try (right; split; [done|]; eexists; split; [done|set_solver]).
  destruct (plans !! id) as [p|]; cbn;
    [|right; split; [done|]; eexists; split; [done|set_solver]].
  destruct (bool_decide_reflect (plan_caller (prepared_plan p) = caller)); cbn;
    [|right; split; [done|]; eexists; split; [done|set_solver]].
  left. split; [done|]. split; [done|]. exists p.
  destruct (_ || _); cbn; [done|]. by destruct (String.eqb (prepared_digest p) digest).
Qed.

(** ** Properties *)

(** A call on the store, with the readings of the clock and of the generator. *)
Inductive store_call :=
| CallPrepare (caller : Caller) (op : Operation) (state : Value) (now : u64)
    (entropy : option (list u8))
| CallConsume (id digest : string) (caller : Caller) (now : u64).

Definition run_call (plans : PlanStore) (c : store_call) : PlanStore :=
  match c with
  | CallPrepare caller op state now entropy => (prepare plans caller op state now entropy).1
  | CallConsume id digest caller now => (consume plans id digest caller now).1
  end.

(** C11 The store stays well formed: whatever sequence of prepare and consume calls
    is made from the empty store (with any callers, clock readings, entropy and
    digests), it holds at most 256 plans and at most 8 per bus connection, each
    stored under its own id, validated, bound to its action and digests, and
    living 120 seconds. *)
Theorem store_invariant (calls : list store_call) : store_wf (fold_left run_call calls ∅).
Proof.
  assert (forall plans, store_wf plans -> store_wf (fold_left run_call calls plans)) as H.
  { induction calls as [|c calls IH]; intros plans Hwf; [done|]. cbn. apply IH.
    destruct c; [by apply prepare_preserves_wf|by apply consume_preserves_wf]. }
  apply H, store_wf_empty.
Qed.

(** A consumed plan is the one that was previewed: [consume] returns a plan only
    to the caller it was prepared for, under the reference that names it, with the
    digest it was shown under, inside its lifetime, and the plan is gone from the
    store afterwards so that a second attempt fails. *)
Theorem consume_returns_previewed_plan plans id digest caller now plan :
  (consume plans id digest caller now).2 = Ok plan ->
  plans !! id = Some {| prepared_plan := plan; prepared_digest := digest |} /\
  plan_caller plan = caller /\ issued_at plan <= now < expires_at plan /\
  (consume plans id digest caller now).1 = delete id plans /\
  (forall digest' caller' now',
     len digest' = 64 ->
     consume (consume plans id digest caller now).1 id digest' caller' now'
     = (delete id plans, Err "unknown_or_used_plan")).
Proof.
  intros H. destruct (consume_cases plans id digest caller now)
    as [(Hli & Hld & p & Hp & Hc & Hs & Hr)|(_ & e & He & _)]; [|congruence].
  rewrite Hr in H.
  destruct (_ || _) eqn:Ht; [done|]. inv_result. zbool.
  destruct (String.eqb_spec (prepared_digest p) digest) as [Hd|]; [|done].
  injection H as <-. split; [by destruct p; cbn in *; subst|]. split; [done|]. split; [lia|].
  split; [done|]. intros digest' caller' now' Hl. rewrite Hs. unfold consume.
  rewrite Hli, Hl. cbn. by rewrite lookup_delete_eq.
Qed.

(** Callers are isolated: no call made by another bus connection removes or
    changes a live plan (a prepare call could only replace it by drawing the very
    nonce that is its id), and a consume call by anyone touches no other plan. *)
Theorem live_plans_are_isolated plans id p :
  plans !! id = Some p ->
  (forall digest caller now, plan_caller (prepared_plan p) <> caller ->
     (consume plans id digest caller now).1 !! id = Some p) /\
  (forall id' digest caller now, id' <> id ->
     (consume plans id' digest caller now).1 !! id = Some p) /\
  (forall caller op state now entropy,
     now < expires_at (prepared_plan p) ->
     (forall nonce, entropy = Some nonce -> hex_encode nonce <> id) ->
     (prepare plans caller op state now entropy).1 !! id = Some p).
Proof.
  intros Hp. split; [|split].
  - intros digest caller now Hne.
    destruct (consume_cases plans id digest caller now)
      as [(_ & _ & q & Hq & Hc & _)|(-> & _)]; [|done]. congruence.
  - intros id' digest caller now Hne.
    destruct (consume_cases plans id' digest caller now)
      as [(_ & _ & q & _ & _ & -> & _)|(-> & _)]; [|done].
    by rewrite lookup_delete_ne.
  - intros caller op state now entropy Hlive Hnonce. unfold prepare.
    assert (retain_live now plans !! id = Some p) as Hr by (apply map_lookup_filter_Some; done).
    destruct (Operation_validate op) as [[]| |] eqn:Hop; [|done..].
    destruct (_ || _); [done|].
    destruct (build_prepared caller op state now entropy) as [q| |] eqn:Hq; [|done..].
    destruct (build_prepared_wf _ _ _ _ _ _ Hop Hq) as (_ & _ & _ & _ & _ & nonce & Hn & Hid).
    cbn. rewrite Hid, lookup_insert_ne; [done|]. by apply Hnonce.
Qed.
End store.

(** ** Witnesses *)

Definition demo_caller : Caller :=
  {| unique_name := ":1.42"; caller_uid := 1000; caller_pid := 4242; process_start := 9001;
     session := "/org/freedesktop/login1/session/_31" |}.
Definition demo_other : Caller :=
  {| unique_name := ":1.43"; caller_uid := 1001; caller_pid := 4300; process_start := 9100;
     session := "/org/freedesktop/login1/session/_32" |}.

(** A digest of the right length: the first byte's class repeated 64 times. *)
Definition demo_digests : Digests := {|
  to_vec_operation op := Some (action_id op);
  to_vec_plan plan := Some (plan_id plan);
  to_vec_caller c := Some (unique_name c);
  sha256_hex bytes := sconcat (repeat (if contains "service" bytes then "a" else "b") 64);
|}.

#[global] Instance demo_digests_ok : @DigestsOk demo_digests.
Proof. intros bytes. cbn. by destruct (contains "service" bytes). Qed.

Definition demo_nonce : list u8 := repeat 171 32.
Definition demo_store : PlanStore :=
  (prepare (D := demo_digests) ∅ demo_caller (OpService Restart "ssh.service") VNull 1000
     (Some demo_nonce)).1.
Definition demo_id : string := hex_encode demo_nonce.
Definition demo_digest : string := sconcat (repeat "b" 64).

Lemma consume_returns_previewed_plan_witness :
  exists plan, (consume demo_store demo_id demo_digest demo_caller 1119).2 = Ok plan /\
    plan_caller plan = demo_caller /\
    (consume demo_store demo_id demo_digest demo_caller 1119).1 = delete demo_id demo_store.
Proof.
  eexists. split; [vm_compute; reflexivity|].
  edestruct (consume_returns_previewed_plan demo_store demo_id demo_digest demo_caller 1119)
    as (_ & Hc & _ & Hs & _); [vm_compute; reflexivity|].
  split; [exact Hc|exact Hs].
Defined.

Lemma live_plans_are_isolated_witness :
  exists p, demo_store !! demo_id = Some p /\
    (consume demo_store demo_id demo_digest demo_other 1000).1 !! demo_id = Some p.
Proof.
  eexists. split; [vm_compute; reflexivity|].
  refine (proj1 (live_plans_are_isolated (D := demo_digests) demo_store demo_id _ _)
            demo_digest demo_other 1000 _); [vm_compute; reflexivity|].
  by intros [=].
Defined.
