(* ===== verification/Effects.v ===== *)
(** * Programs that talk to their environment

    The handlers of the services interleave computation with calls to the
    operating system, the message bus, the model processes and the clock.  Such
    code is a function of an environment that answers every call.  The
    environment sees the whole history, so a theorem over all environments covers
    every change of the outside world between two calls.  Running a computation
    yields the events it caused, its final state and its result. *)

From S2P Require Import Prelude.

Section effects.
Context {call : Type -> Type}.

Record event := Event { ev_type : Type; ev_call : call ev_type; ev_reply : ev_type }.

Definition environment := list event -> forall A, call A -> A.

Record outcome (S E A : Type) := Outcome {
  trace : list event;
  final : S;
  value : result E A;
}.
Arguments Outcome {S E A} _ _ _.
Arguments trace {S E A} _.
Arguments final {S E A} _.
Arguments value {S E A} _.

Definition eff (S E A : Type) : Type := environment -> list event -> S -> outcome S E A.

#[global] Instance eff_ret S E : MRet (eff S E) := fun A a _ _ s => Outcome [] s (Ok a).

#[global] Instance eff_bind S E : MBind (eff S E) := fun A B k m env h s =>
  let o := m env h s in
  match value o with
  | Ok a =>
      let o' := k a env (h ++ trace o) (final o) in
      Outcome (trace o ++ trace o') (final o') (value o')
  | Err e => Outcome (trace o) (final o) (Err e)
  | Panic => Outcome (trace o) (final o) Panic
  end.

#[global] Instance eff_fmap S E : FMap (eff S E) := fun A B f m => a ← m; mret (f a).

(** A call to the environment. *)
Definition perform {S E A} (c : call A) : eff S E A := fun env h s =>
  let r := env h A c in Outcome [Event A c r] s (Ok r).

(** Computation without effect, [?] included. *)
Definition lift {S E A} (r : result E A) : eff S E A := fun _ _ s => Outcome [] s r.

(** [match fut.await { Ok.. Err.. }]: the result as a value. *)
Definition attempt {S E F A} (m : eff S E A) : eff S F (result E A) := fun env h s =>
  let o := m env h s in
  match value o with
  | Panic => Outcome (trace o) (final o) Panic
  | r => Outcome (trace o) (final o) (Ok r)
  end.

(** [map_err] *)
Definition eff_map_err {S E F A} (f : E -> F) (m : eff S E A) : eff S F A := fun env h s =>
  let o := m env h s in Outcome (trace o) (final o) (map_err f (value o)).

(** An operation on the shared state. *)
Definition with_state {S E A} (f : S -> S * result E A) : eff S E A := fun _ _ s =>
  let '(s', r) := f s in Outcome [] s' r.

(** A computation on a part of the state. *)
Definition zoom {S T E A} (get : T -> S) (set : S -> T -> T) (m : eff S E A) : eff T E A := fun env h t =>
  let o := m env h (get t) in Outcome (trace o) (set (final o) t) (value o).

(** ** What a computation can emit *)

Definition emits (P : event -> Prop) {S E A} (m : eff S E A) : Prop :=
  forall env h s, Forall P (trace (m env h s)).

Definition keeps_state {S E A} (m : eff S E A) : Prop :=
  forall env h s, final (m env h s) = s.

Section rules.
Context {S E : Type} (P : event -> Prop).

Lemma emits_ret A (a : A) : emits P (mret a : eff S E A).
Proof. intros env h s. constructor. Qed.

Lemma emits_lift A (r : result E A) : emits P (lift (S := S) r).
Proof. intros env h s. constructor. Qed.

Lemma emits_with_state A (f : S -> S * result E A) : emits P (with_state f).
Proof. intros env h s. unfold with_state. destruct (f s). constructor. Qed.

Lemma emits_perform A (c : call A) :
  (forall r, P (Event A c r)) -> emits P (perform (S := S) (E := E) c).
Proof. intros H env h s. repeat constructor. apply H. Qed.

Lemma emits_bind A B (m : eff S E A) (k : A -> eff S E B) :
  emits P m -> (forall a, emits P (k a)) -> emits P (m ≫= k).
Proof.
  intros Hm Hk env h s. unfold mbind, eff_bind.
  destruct (value (m env h s)); cbn; [|apply Hm..].
  apply Forall_app; split; [apply Hm|apply Hk].
Qed.

Lemma emits_attempt F A (m : eff S E A) : emits P m -> emits P (attempt (F := F) m).
Proof.
  intros Hm env h s. unfold attempt. destruct (value (m env h s)); apply Hm.
Qed.

Lemma emits_zoom T A (get : T -> S) (set : S -> T -> T) (m : eff S E A) : emits P m -> emits P (zoom get set m).
Proof. intros Hm env h t. apply Hm. Qed.

Lemma emits_map_err F A (f : E -> F) (m : eff S E A) : emits P m -> emits P (eff_map_err f m).
Proof. intros Hm env h s. apply Hm. Qed.
End rules.

Section state_rules.
Context {S E : Type}.

Lemma keeps_ret A (a : A) : keeps_state (mret a : eff S E A).
Proof. by intros env h s. Qed.

Lemma keeps_lift A (r : result E A) : keeps_state (lift (S := S) r).
Proof. by intros env h s. Qed.

Lemma keeps_perform A (c : call A) : keeps_state (perform (S := S) (E := E) c).
Proof. by intros env h s. Qed.

Lemma keeps_bind A B (m : eff S E A) (k : A -> eff S E B) :
  keeps_state m -> (forall a, keeps_state (k a)) -> keeps_state (m ≫= k).
Proof.
  intros Hm Hk env h s. unfold mbind, eff_bind.
  destruct (value (m env h s)); cbn; rewrite ?Hk; apply Hm.
Qed.

Lemma keeps_attempt F A (m : eff S E A) : keeps_state m -> keeps_state (attempt (F := F) m).
Proof. intros Hm env h s. unfold attempt. destruct (value (m env h s)); apply Hm. Qed.

Lemma keeps_map_err F A (f : E -> F) (m : eff S E A) :
  keeps_state m -> keeps_state (eff_map_err f m).
Proof. intros Hm env h s. apply Hm. Qed.
End state_rules.

(** ** Looking into a run *)

(** A result of a sequence comes from both parts. *)
Lemma run_bind_Ok {S E A B} (m : eff S E A) (k : A -> eff S E B) env h s b :
  value ((m ≫= k) env h s) = Ok b ->
  exists a, value (m env h s) = Ok a /\
    value (k a env (h ++ trace (m env h s)) (final (m env h s))) = Ok b /\
    trace ((m ≫= k) env h s) = trace (m env h s)
      ++ trace (k a env (h ++ trace (m env h s)) (final (m env h s))) /\
    final ((m ≫= k) env h s) = final (k a env (h ++ trace (m env h s)) (final (m env h s))).
Proof.
  unfold mbind, eff_bind. destruct (value (m env h s)) as [a| |]; cbn; intros H; eauto; done.
Qed.

(** Every run of a sequence stops in its first part or goes on to the second. *)
Lemma run_bind_cases {S E A B} (m : eff S E A) (k : A -> eff S E B) env h s :
  (exists a, value (m env h s) = Ok a /\
    (m ≫= k) env h s =
      let o := k a env (h ++ trace (m env h s)) (final (m env h s)) in
      Outcome (trace (m env h s) ++ trace o) (final o) (value o)) \/
  ((forall a, value (m env h s) <> Ok a) /\
   trace ((m ≫= k) env h s) = trace (m env h s) /\
   final ((m ≫= k) env h s) = final (m env h s) /\
   (forall b, value ((m ≫= k) env h s) <> Ok b)).
Proof.
  unfold mbind, eff_bind.
  destruct (value (m env h s)) as [a| |]; cbn; [left; by eauto|right; done..].
Qed.

(** An event its first part cannot emit comes from the second part of a sequence. *)
Lemma effect_after_bind {S E A B} (P : event -> Prop) (m : eff S E A) (k : A -> eff S E B)
    env h s :
  emits P m ->
  Exists (fun e => ~ P e) (trace ((m ≫= k) env h s)) ->
  exists a, value (m env h s) = Ok a /\
    let o := k a env (h ++ trace (m env h s)) (final (m env h s)) in
    trace ((m ≫= k) env h s) = trace (m env h s) ++ trace o /\
    final ((m ≫= k) env h s) = final o /\
    Exists (fun e => ~ P e) (trace o).
Proof.
  intros Hm H.
  assert (~ Exists (fun e => ~ P e) (trace (m env h s))) as Hno.
  { intros Hex. apply Exists_exists in Hex as (e & Hin & HP).
    specialize (Hm env h s). rewrite Forall_forall in Hm. by apply HP, Hm. }
  destruct (run_bind_cases m k env h s) as [(a & Ha & E')|(_ & Ht & _)].
  - exists a. rewrite E' in H |- *. cbn in *. apply Exists_app in H as [H|H]; [done|]. eauto.
  - rewrite Ht in H. done.
Qed.

(** ** Postconditions

    [ensures m F]: whenever [m] returns [a] after emitting [t], [F env a t] holds. *)

Definition ensures {S E A} (m : eff S E A) (F : environment -> A -> list event -> Prop) : Prop :=
  forall env h s a, value (m env h s) = Ok a -> F env a (trace (m env h s)).

Section post_rules.
Context {S E : Type}.

Lemma ensures_bind A B (m : eff S E A) (k : A -> eff S E B) F (G : A -> environment -> B -> list event -> Prop)
    (H : environment -> B -> list event -> Prop) :
  ensures m F -> (forall a, ensures (k a) (G a)) ->
  (forall env a t b u, F env a t -> G a env b u -> H env b (t ++ u)) ->
  ensures (m ≫= k) H.
Proof.
  intros Hm Hk Hi env h s b Hb. apply run_bind_Ok in Hb as (a & Ha & Hb & -> & _).
  apply Hm in Ha. apply Hk in Hb. eauto.
Qed.

(** The rule for long sequences: what the first part establishes is assumed in the
    postcondition of the rest. *)
Lemma ensures_step A B (m : eff S E A) (k : A -> eff S E B) F
    (H : environment -> B -> list event -> Prop) :
  ensures m F ->
  (forall a, ensures (k a) (fun env b u => forall t, F env a t -> H env b (t ++ u))) ->
  ensures (m ≫= k) H.
Proof.
  intros Hm Hk env h s b Hb. apply run_bind_Ok in Hb as (a & Ha & Hb & -> & _).
  apply Hm in Ha. apply Hk in Hb. eauto.
Qed.

Lemma ensures_lift A (r : result E A) : ensures (lift (S := S) r) (fun _ a t => r = Ok a /\ t = []).
Proof. by intros env h s a. Qed.

Lemma ensures_ret A (a : A) : ensures (mret a : eff S E A) (fun _ b t => b = a /\ t = []).
Proof. by intros env h s b [= ->]. Qed.

Lemma ensures_perform A (c : call A) :
  ensures (perform (S := S) (E := E) c) (fun _ a t => t = [Event A c a]).
Proof. intros env h s b H. cbn in *. by injection H as <-. Qed.

(** What is known without looking inside: the run itself and what it can emit. *)
Lemma ensures_emits A P (m : eff S E A) :
  emits P m -> ensures m (fun env a t => Forall P t /\ exists h s, value (m env h s) = Ok a).
Proof. intros Hm env h s a Ha. split; [apply Hm|eauto]. Qed.

Lemma ensures_and A (m : eff S E A) F G :
  ensures m F -> ensures m G -> ensures m (fun env a t => F env a t /\ G env a t).
Proof. intros HF HG env h s a Ha. split; eauto. Qed.

Lemma ensures_mono A (m : eff S E A) (F G : environment -> A -> list event -> Prop) :
  (forall env a t, F env a t -> G env a t) -> ensures m F -> ensures m G.
Proof. intros Hi HF env h s a Ha. auto. Qed.

Lemma ensures_attempt F A (m : eff S E A) G :
  ensures m G -> ensures (attempt (F := F) m)
    (fun env r t => match r with Ok a => G env a t | Err _ => True | Panic => False end).
Proof.
  intros Hm env h s r. unfold attempt. destruct (value (m env h s)) as [a| |] eqn:Ha; cbn; try done.
  - intros [= <-]. by apply Hm.
  - by intros [= <-].
Qed.
End post_rules.

(** ** Computations with at most one significant event

    [does Q act m]: every run of [m] emits only [Q]-events, or [Q]-events around one
    event [e] with [act before e], where [before] is what [m] emitted before it. *)

Definition does (Q : event -> Prop) (act : list event -> event -> Prop) {S E A}
    (m : eff S E A) : Prop :=
  forall env h s, let t := trace (m env h s) in
    Forall Q t \/ exists before e after,
      t = before ++ e :: after /\ Forall Q before /\ act before e /\ Forall Q after.

Lemma does_perform {S E A} (Q : event -> Prop) (act : list event -> event -> Prop) (c : call A) :
  (forall r, act [] (Event A c r)) -> does Q act (perform (S := S) (E := E) c).
Proof. intros H env h s. right. exists [], (Event A c (env h A c)), []. by repeat split. Qed.

Lemma does_emits {S E A} (Q : event -> Prop) act (m : eff S E A) : emits Q m -> does Q act m.
Proof. intros H env h s. left. apply H. Qed.

Lemma does_bind_l {S E A B} Q act (m : eff S E A) (k : A -> eff S E B) :
  does Q act m -> (forall a, emits Q (k a)) -> does Q act (m ≫= k).
Proof.
  intros Hm Hk env h s. cbn zeta.
  destruct (run_bind_cases m k env h s) as [(a & _ & ->)|(_ & -> & _)]; [|apply Hm].
  cbn. specialize (Hk a env (h ++ trace (m env h s)) (final (m env h s))).
  set (t := trace (k a env _ _)) in *. clearbody t.
  destruct (Hm env h s) as [H|(b & e & c & -> & Hb & He & Hc)].
  - left. by apply Forall_app.
  - right. exists b, e, (c ++ t). split; [by rewrite <-app_assoc|].
    split; [done|]. split; [done|]. by apply Forall_app.
Qed.

(** A first part that only observes, whose result establishes [F]. *)
Lemma does_bind_r {S E A B} Q (act1 : A -> list event -> event -> Prop) act2
    (F : A -> list event -> Prop) (m : eff S E A) (k : A -> eff S E B) :
  emits Q m ->
  (forall env h s a, value (m env h s) = Ok a -> F a (trace (m env h s))) ->
  (forall a, does Q (act1 a) (k a)) ->
  (forall a t0 t1 e, F a t0 -> act1 a t1 e -> act2 (t0 ++ t1) e) ->
  does Q act2 (m ≫= k).
Proof.
  intros Hm HF Hk Hact env h s. cbn zeta.
  destruct (run_bind_cases m k env h s) as [(a & Ha & ->)|(_ & -> & _)]; [|left; apply Hm].
  apply HF in Ha. specialize (Hm env h s). cbn.
  destruct (Hk a env (h ++ trace (m env h s)) (final (m env h s)))
    as [H|(b & e & c & -> & Hb & He & Hc)].
  - left. by apply Forall_app.
  - right. exists (trace (m env h s) ++ b), e, c.
    split; [by rewrite <-app_assoc|]. split; [by apply Forall_app|]. split; [|done].
    by eapply Hact.
Qed.

Lemma does_bind_lift {S E A B} Q act (r : result E A) (k : A -> eff S E B) :
  (forall a, r = Ok a -> does Q act (k a)) -> does Q act (lift r ≫= k).
Proof.
  intros Hk env h s. cbn zeta. unfold mbind, eff_bind, lift.
  destruct r as [a| |]; cbn; [|by left..]. rewrite app_nil_r. by apply Hk.
Qed.

Lemma does_mono {S E A} Q (act1 act2 : list event -> event -> Prop) (m : eff S E A) :
  (forall b e, act1 b e -> act2 b e) -> does Q act1 m -> does Q act2 m.
Proof.
  intros Hi Hm env h s. destruct (Hm env h s) as [H|(b & e & c & Ht & Hb & He & Hc)]; [by left|].
  right. exists b, e, c. auto.
Qed.

Lemma lift_value {S E A} (r : result E A) env h (s : S) : value (lift r env h s) = r.
Proof. done. Qed.

(** The same for a first part that keeps the state. *)
Lemma effect_after_step {S E A B} (P : event -> Prop) (m : eff S E A) (k : A -> eff S E B)
    env h s :
  emits P m -> keeps_state m ->
  Exists (fun e => ~ P e) (trace ((m ≫= k) env h s)) ->
  exists a t, value (m env h s) = Ok a /\ t = trace (m env h s) /\ Forall P t /\
    trace ((m ≫= k) env h s) = t ++ trace (k a env (h ++ t) s) /\
    final ((m ≫= k) env h s) = final (k a env (h ++ t) s) /\
    Exists (fun e => ~ P e) (trace (k a env (h ++ t) s)).
Proof.
  intros Hm Hk H. apply (effect_after_bind P) in H as (a & Ha & Ht & Hf & H); [|done].
  rewrite Hk in *. exists a, (trace (m env h s)). repeat split; first [done|apply Hm].
Qed.

(** A part of a run: [m] started after the history [h] in the state [s], emitted [t] and
    returned [a]. *)
Definition ran {S E A} (m : eff S E A) (env : environment) (h : list event) (s : S) (t : list event) (a : A) : Prop :=
  trace (m env h s) = t /\ value (m env h s) = Ok a.

Lemma run_step {S E A B} (m : eff S E A) (k : A -> eff S E B) env h s b :
  keeps_state m -> value ((m ≫= k) env h s) = Ok b ->
  exists a t, ran m env h s t a /\ value (k a env (h ++ t) s) = Ok b /\
    trace ((m ≫= k) env h s) = t ++ trace (k a env (h ++ t) s).
Proof.
  intros Hk H. apply run_bind_Ok in H as (a & Ha & Hb & Ht & _). rewrite Hk in *.
  exists a, (trace (m env h s)). split; [by split|done].
Qed.

Lemma run_lift_step {S E A B} (r : result E A) (k : A -> eff S E B) env h s b :
  value ((lift r ≫= k) env h s) = Ok b ->
  exists a, r = Ok a /\ value (k a env h s) = Ok b /\ trace ((lift r ≫= k) env h s) = trace (k a env h s).
Proof.
  intros H. apply run_step in H as (a & t & [<- Hr] & Hb & ->); [|apply keeps_lift]. cbn in *.
  rewrite app_nil_r in *. eauto.
Qed.

(** What a run from a given state can emit. *)
Lemma run_bind_Forall {S E A B} (P : event -> Prop) (m : eff S E A) (k : A -> eff S E B) env h s :
  Forall P (trace (m env h s)) ->
  (forall a, value (m env h s) = Ok a ->
     Forall P (trace (k a env (h ++ trace (m env h s)) (final (m env h s))))) ->
  Forall P (trace ((m ≫= k) env h s)).
Proof.
  intros Hm Hk. destruct (run_bind_cases m k env h s) as [(a & Ha & ->)|(_ & -> & _)]; [|done].
  apply Forall_app. auto.
Qed.

(** A significant event of a sequence whose first part has none comes after all of it. *)
Lemma run_bind_after {S E A B} P (m : eff S E A) (k : A -> eff S E B) F env h s before e after :
  emits P m -> ensures m F -> ~ P e -> trace ((m ≫= k) env h s) = before ++ e :: after ->
  exists a u, before = trace (m env h s) ++ u /\ F env a (trace (m env h s)) /\
    trace (k a env (h ++ trace (m env h s)) (final (m env h s))) = u ++ e :: after.
Proof.
  intros Hm HF He. destruct (run_bind_cases m k env h s) as [(a & Ha & ->)|(_ & -> & _)].
  - cbn [trace]. intros Ht. eapply split_at_significant in Ht as (u & -> & Hu); [|apply Hm|done].
    exists a, u. auto.
  - intros Ht. specialize (Hm env h s). rewrite Ht in Hm. apply Forall_app in Hm as [_ [H _]%Forall_cons]. done.
Qed.

(** What the first part returns may restrict what the rest can emit. *)
Lemma emits_bind_ensures {S E A B} P (m : eff S E A) (k : A -> eff S E B) F :
  emits P m -> ensures m F -> (forall env a t, F env a t -> emits P (k a)) -> emits P (m ≫= k).
Proof.
  intros Hm HF Hk env h s. apply run_bind_Forall; [apply Hm|].
  intros a Ha. eapply Hk. by apply HF.
Qed.

Lemma emits_not_Exists {S E A} P (m : eff S E A) env h s :
  emits P m -> ~ Exists (fun e => ~ P e) (trace (m env h s)).
Proof.
  intros Hm [e [Hin He]]%Exists_exists. specialize (Hm env h s). rewrite Forall_forall in Hm. auto.
Qed.

Lemma emits_mono {S E A} (P Q : event -> Prop) (m : eff S E A) :
  (forall e, P e -> Q e) -> emits P m -> emits Q m.
Proof. intros Hi Hm env h s. eapply Forall_impl; [apply Hm|apply Hi]. Qed.

Lemma emits_bind_lift {S E A B} (P : event -> Prop) (r : result E A) (k : A -> eff S E B) :
  (forall a, r = Ok a -> emits P (k a)) -> emits P (lift r ≫= k).
Proof.
  intros Hk. eapply emits_bind_ensures; [apply emits_lift|apply ensures_lift|].
  intros env a t [Ha _]. by apply Hk.
Qed.

(** ** Results

    [yields m F]: whatever [m] returns satisfies [F]. *)

Definition yields {S E A} (m : eff S E A) (F : A -> Prop) : Prop :=
  forall env h s a, value (m env h s) = Ok a -> F a.

Lemma yields_ret {S E A} (a : A) (F : A -> Prop) : F a -> yields (mret a : eff S E A) F.
Proof. by intros Ha env h s b [= <-]. Qed.

Lemma yields_bind {S E A B} (m : eff S E A) (k : A -> eff S E B) F :
  (forall a, yields (k a) F) -> yields (m ≫= k) F.
Proof. intros Hk env h s b Hb. apply run_bind_Ok in Hb as (a & _ & Hb & _). by eapply Hk. Qed.

Lemma yields_bind_lift {S E A B} (r : result E A) (k : A -> eff S E B) F :
  (forall a, r = Ok a -> yields (k a) F) -> yields (lift r ≫= k) F.
Proof. intros Hk env h s b Hb. apply run_bind_Ok in Hb as (a & Ha & Hb & _). by eapply Hk. Qed.

Lemma yields_bind_post {S E A B} (m : eff S E A) (k : A -> eff S E B) G F :
  yields m G -> (forall a, G a -> yields (k a) F) -> yields (m ≫= k) F.
Proof. intros Hm Hk env h s b Hb. apply run_bind_Ok in Hb as (a & Ha & Hb & _). eapply Hk; eauto. Qed.

Lemma emits_bind_yields {S E A B} P (m : eff S E A) (k : A -> eff S E B) F :
  emits P m -> yields m F -> (forall a, F a -> emits P (k a)) -> emits P (m ≫= k).
Proof.
  intros Hm HF Hk env h s. apply run_bind_Forall; [apply Hm|]. intros a Ha. apply Hk. by eapply HF.
Qed.

(** ** Counting events *)

Section counting.
Context (p : event -> bool).

Definition count_events (t : list event) : nat := length (List.filter p t).

(** [m] causes at most [n] events of the kind. *)
Definition costs (n : nat) {S E A} (m : eff S E A) : Prop :=
  forall env h s, (count_events (trace (m env h s)) <= n)%nat.

Lemma count_events_app t u : count_events (t ++ u) = (count_events t + count_events u)%nat.
Proof. unfold count_events. by rewrite List.filter_app, length_app. Qed.

Lemma costs_bind {S E A B} n k (m : eff S E A) (f : A -> eff S E B) :
  costs n m -> (forall a, costs k (f a)) -> costs (n + k) (m ≫= f).
Proof.
  intros Hm Hf env h s. specialize (Hm env h s).
  destruct (run_bind_cases m f env h s) as [(a & _ & ->)|(_ & -> & _)]; [|lia].
  cbn [trace]. rewrite count_events_app. specialize (Hf a env (h ++ trace (m env h s)) (final (m env h s))). lia.
Qed.

Lemma costs_bind_ensures {S E A B} n k (m : eff S E A) (f : A -> eff S E B) F :
  costs n m -> ensures m F -> (forall env a t, F env a t -> costs k (f a)) -> costs (n + k) (m ≫= f).
Proof.
  intros Hm HF Hf env h s. specialize (Hm env h s).
  destruct (run_bind_cases m f env h s) as [(a & Ha & ->)|(_ & -> & _)]; [|lia].
  cbn [trace]. rewrite count_events_app. apply HF in Ha.
  specialize (Hf _ a _ Ha env (h ++ trace (m env h s)) (final (m env h s))). lia.
Qed.

Lemma costs_mono {S E A} n k (m : eff S E A) : (n <= k)%nat -> costs n m -> costs k m.
Proof. intros Hn Hm env h s. specialize (Hm env h s). lia. Qed.

(** What emits no such event costs nothing. *)
Lemma costs_emits {S E A} (m : eff S E A) : emits (fun e => p e = false) m -> costs 0 m.
Proof.
  intros Hm env h s. specialize (Hm env h s). unfold count_events.
  induction Hm as [|e t He Ht IH]; cbn; [lia|]. rewrite He. lia.
Qed.

Lemma costs_perform {S E A} (c : call A) : costs 1 (perform (S := S) (E := E) c).
Proof. intros env h s. cbn. unfold count_events. cbn. destruct (p _); cbn; lia. Qed.

Lemma costs_attempt {S E F A} n (m : eff S E A) : costs n m -> costs n (attempt (F := F) m).
Proof. intros Hm env h s. specialize (Hm env h s). unfold attempt. by destruct (value _). Qed.
End counting.

(** ** State relations

    [relates R m]: every run of [m] from [s] to [s'] that emits [t] satisfies [R s t s']. *)

Definition relates {S} (R : S -> list event -> S -> Prop) {E A} (m : eff S E A) : Prop :=
  forall env h s, R s (trace (m env h s)) (final (m env h s)).

Section relates_rules.
Context {S : Type} (R : S -> list event -> S -> Prop).
Hypothesis R_refl : forall s t, R s t s.
Hypothesis R_trans : forall s t s' t' s'', R s t s' -> R s' t' s'' -> R s (t ++ t') s''.

Lemma relates_keeps E A (m : eff S E A) : keeps_state m -> relates R m.
Proof. intros Hm env h s. rewrite Hm. apply R_refl. Qed.

Lemma relates_bind E A B (m : eff S E A) (k : A -> eff S E B) :
  relates R m -> (forall a, relates R (k a)) -> relates R (m ≫= k).
Proof.
  intros Hm Hk env h s. destruct (run_bind_cases m k env h s) as [(a & _ & ->)|(_ & -> & -> & _)];
    [|apply Hm]. eapply R_trans; [apply Hm|apply Hk].
Qed.

Lemma relates_attempt E F A (m : eff S E A) : relates R m -> relates R (attempt (F := F) m).
Proof. intros Hm env h s. specialize (Hm env h s). unfold attempt. by destruct (value (m env h s)). Qed.
End relates_rules.

Lemma bind_lift_run {S E A B} (m : eff S E A) (f : A -> result E B) env h s :
  trace ((a ← m; lift (f a)) env h s) = trace (m env h s) /\
  final ((a ← m; lift (f a)) env h s) = final (m env h s).
Proof.
  unfold mbind, eff_bind, lift. destruct (value (m env h s)); cbn; rewrite ?app_nil_r; done.
Qed.

Lemma run_perform_ret {S E A B} (c : call A) (f : A -> B) env h (s : S) :
  (a ← perform c; mret (f a) : eff S E B) env h s =
    Outcome [Event A c (env h A c)] s (Ok (f (env h A c))).
Proof. done. Qed.

(** A call that cannot itself be the significant event. *)
Lemma effect_after_perform {S E A B} (P : event -> Prop) (c : call A) (k : A -> eff S E B) env h s :
  (forall r, P (Event A c r)) ->
  Exists (fun e => ~ P e) (trace ((perform c ≫= k) env h s)) ->
  exists a, let o := k a env (h ++ [Event A c a]) s in
    Exists (fun e => ~ P e) (trace o) /\
    trace ((perform c ≫= k) env h s) = Event A c a :: trace o.
Proof.
  intros HP H. exists (env h A c). cbn zeta. split; [|done].
  unfold mbind, eff_bind, perform in H. cbn in H. apply Exists_cons in H as [H|H]; [|done].
  by destruct H.
Qed.

(** A guard that is a pure computation. *)
Lemma effect_after_lift {S E A B} (P : event -> Prop) (r : result E A) (k : A -> eff S E B)
    env h s :
  Exists (fun e => ~ P e) (trace ((lift r ≫= k) env h s)) ->
  exists a, r = Ok a /\ Exists (fun e => ~ P e) (trace (k a env h s)) /\
    (lift r ≫= k) env h s = k a env h s.
Proof.
  unfold mbind, eff_bind, lift. destruct r as [a| |]; cbn.
  - rewrite app_nil_r. intros H. exists a. split; [done|]. split; [done|]. by destruct (k a env h s).
  - by intros ?%Exists_nil.
  - by intros ?%Exists_nil.
Qed.

(** ** Runs that come to an end

    [returns env m]: in [env], no run of [m] panics (or runs out of fuel). *)

Definition returns (env : environment) {S E A} (m : eff S E A) : Prop :=
  forall h s, value (m env h s) <> Panic.

Section returns_rules.
Context (env : environment) {S E : Type}.

Lemma returns_ret A (a : A) : returns env (mret a : eff S E A).
Proof. by intros h s. Qed.

Lemma returns_lift A (r : result E A) : r <> Panic -> returns env (lift (S := S) r).
Proof. by intros Hr h s. Qed.

Lemma returns_perform A (c : call A) : returns env (perform (S := S) (E := E) c).
Proof. by intros h s. Qed.

Lemma returns_bind A B (m : eff S E A) (k : A -> eff S E B) :
  returns env m -> (forall a, returns env (k a)) -> returns env (m ≫= k).
Proof.
  intros Hm Hk h s. unfold mbind, eff_bind. specialize (Hm h s).
  destruct (value (m env h s)); cbn; [apply Hk|done|done].
Qed.

Lemma returns_bind_lift A B (r : result E A) (k : A -> eff S E B) :
  r <> Panic -> (forall a, r = Ok a -> returns env (k a)) -> returns env (lift r ≫= k).
Proof.
  intros Hr Hk h s. unfold mbind, eff_bind, lift. destruct r; cbn; [by apply Hk|done|done].
Qed.

Lemma returns_with_state A (f : S -> S * result E A) : (forall s, (f s).2 <> Panic) -> returns env (with_state f).
Proof. intros Hf h s. unfold with_state. specialize (Hf s). by destruct (f s). Qed.

Lemma returns_zoom T A (get : T -> S) (set : S -> T -> T) (m : eff S E A) :
  returns env m -> returns env (zoom get set m).
Proof. intros Hm h t. apply Hm. Qed.

Lemma returns_attempt F A (m : eff S E A) : returns env m -> returns env (attempt (F := F) m).
Proof. intros Hm h s. specialize (Hm h s). unfold attempt. by destruct (value (m env h s)). Qed.
End returns_rules.
End effects.

Arguments event : clear implicits.
Arguments environment : clear implicits.
Arguments eff : clear implicits.
Arguments outcome : clear implicits.
Arguments Outcome {call S E A} _ _ _.
Arguments trace {call S E A} _.
Arguments final {call S E A} _.
Arguments value {call S E A} _.
Arguments Event {call} _ _ _.

#[export] Hint Resolve emits_ret emits_lift emits_with_state emits_bind emits_attempt emits_map_err : sentia.
#[export] Hint Resolve keeps_ret keeps_lift keeps_perform keeps_bind keeps_attempt
  keeps_map_err : sentia.

#[export] Hint Resolve returns_ret returns_perform returns_bind returns_attempt : sentia.

(** Walks through a handler and leaves the pure results that must not panic. *)
Ltac returns_tac :=
  repeat match goal with
  | |- returns _ (mret _) => apply returns_ret
  | |- returns _ (lift _) => apply returns_lift
  | |- returns _ (perform _) => apply returns_perform
  | |- returns _ (attempt _) => apply returns_attempt
  | |- returns _ (_ ≫= _) => apply returns_bind; [|intros ?]
  | |- returns _ (if ?b then _ else _) => destruct b
  | |- returns _ (match ?x with _ => _ end) => destruct x
  | |- returns _ (let '_ := ?x in _) => destruct x
  | |- returns _ _ => solve [eauto with sentia]
  end.

(** Walks through a handler and leaves the calls it performs. *)
Ltac emits_tac :=
  repeat match goal with
  | |- emits _ (mret _) => apply emits_ret
  | |- emits _ (lift _) => apply emits_lift
  | |- emits _ (with_state _) => apply emits_with_state
  | |- emits _ (attempt _) => apply emits_attempt
  | |- emits _ (eff_map_err _ _) => apply emits_map_err
  | |- emits _ (_ ≫= _) => apply emits_bind; [|intros ?]
  | |- emits _ (perform _) => apply emits_perform; intros ?
  | |- emits _ (if ?b then _ else _) => destruct b
  | |- emits _ (match ?x with _ => _ end) => destruct x
  | |- emits _ (let '_ := ?x in _) => destruct x
  | |- emits _ _ => solve [eauto with sentia]
  end.

Ltac keeps_tac :=
  repeat match goal with
  | |- keeps_state (mret _) => apply keeps_ret
  | |- keeps_state (lift _) => apply keeps_lift
  | |- keeps_state (perform _) => apply keeps_perform
  | |- keeps_state (attempt _) => apply keeps_attempt
  | |- keeps_state (eff_map_err _ _) => apply keeps_map_err
  | |- keeps_state (_ ≫= _) => apply keeps_bind; [|intros ?]
  | |- keeps_state (if ?b then _ else _) => destruct b
  | |- keeps_state (match ?x with _ => _ end) => destruct x
  | |- keeps_state _ => solve [eauto with sentia]
  end.
