(* ===== verification/Monitor.v ===== *)
(** * Errors and protocols of effectful programs

    Two program logics over [Effects].  [blames P r] and [raises P m]: every error of a
    computation satisfies [P].  [follows env q m F]: in [env], the events of [m] drive an
    automaton that is in state [q] without getting stuck. *)

From S2P Require Import Prelude Effects.

(** ** Errors *)

Section errors.
Context {E : Type} (P : E -> Prop).

Definition blames {A} (r : result E A) : Prop := forall e, r = Err e -> P e.

Lemma blames_Ok {A} (a : A) : blames (Ok a).
Proof. by intros e. Qed.

Lemma blames_Err {A} e : P e -> blames (Err e : result E A).
Proof. by intros He e' [= <-]. Qed.

Lemma blames_fail_if (b : bool) e : P e -> blames (fail_if b e).
Proof. intros He e' Hb. apply fail_if_Err in Hb as [_ ->]. done. Qed.

Lemma blames_ok_or {A} (o : option A) e : P e -> blames (ok_or o e).
Proof. intros He e' Hb. apply ok_or_Err in Hb as [_ ->]. done. Qed.

Lemma blames_bind {A B} (r : result E A) (k : A -> result E B) :
  blames r -> (forall a, blames (k a)) -> blames (r ≫= k).
Proof. intros Hr Hk e [He|(a & _ & He)]%bind_Err; [by apply Hr|by eapply Hk]. Qed.
End errors.

Section raises.
Context {call : Type -> Type} {S E : Type} (P : E -> Prop).

Definition raises {A} (m : eff call S E A) : Prop := forall env h s, blames P (value (m env h s)).

Lemma raises_ret {A} (a : A) : raises (mret a).
Proof. by intros env h s e. Qed.

Lemma raises_lift {A} (r : result E A) : blames P r -> raises (lift r).
Proof. by intros Hr env h s. Qed.

Lemma raises_perform {A} (c : call A) : raises (perform c).
Proof. by intros env h s e. Qed.

Lemma raises_bind {A B} (m : eff call S E A) (k : A -> eff call S E B) :
  raises m -> (forall a, raises (k a)) -> raises (m ≫= k).
Proof.
  intros Hm Hk env h s. specialize (Hm env h s). unfold mbind, eff_bind.
  destruct (value (m env h s)) as [a|e|]; cbn; [apply Hk| |by intros e].
  intros e' [= <-]. by apply Hm.
Qed.
End raises.

(** Walks through a computation and leaves the errors it can end with. *)
Ltac blames_tac :=
  repeat match goal with
  | |- raises _ (mret _) => apply raises_ret
  | |- raises _ (lift _) => apply raises_lift
  | |- raises _ (perform _) => apply raises_perform
  | |- raises _ (_ ≫= _) => apply raises_bind; [|intros ?]
  | |- blames _ (Ok _) => apply blames_Ok
  | |- blames _ (Err _) => apply blames_Err
  | |- blames _ (fail_if _ _) => apply blames_fail_if
  | |- blames _ (ok_or _ _) => apply blames_ok_or
  | |- blames _ (_ ≫= _) => apply blames_bind; [|intros ?]
  | |- blames _ (if ?b then _ else _) => destruct b
  | |- blames _ (match ?x with _ => _ end) => destruct x
  | |- blames _ _ => solve [eauto with sentia]
  end.

(** ** Protocols *)

Section monitor.
Context {call : Type -> Type} {Q : Type} (step : Q -> event call -> option Q).

Fixpoint steps (q : Q) (t : list (event call)) : option Q :=
  match t with
  | [] => Some q
  | e :: t' => q' ← step q e; steps q' t'
  end.

Lemma steps_app q t u : steps q (t ++ u) = (q' ← steps q t; steps q' u).
Proof. revert q. induction t as [|e t IH]; intros q; cbn; [done|]. by destruct (step q e); cbn. Qed.

Context (env : environment call) {S E : Type}.

Definition follows (q : Q) {A} (m : eff call S E A) (F : A -> Q -> Prop) : Prop :=
  forall h s, let o := m env h s in
    exists q', steps q (trace o) = Some q' /\ forall a, value o = Ok a -> F a q'.

Lemma follows_ret q {A} (a : A) (F : A -> Q -> Prop) : F a q -> follows q (mret a) F.
Proof. intros Ha h s. exists q. split; [done|]. by intros b [= <-]. Qed.

Lemma follows_lift q {A} (r : result E A) (F : A -> Q -> Prop) :
  (forall a, r = Ok a -> F a q) -> follows q (lift r) F.
Proof. intros Hr h s. exists q. split; [done|]. apply Hr. Qed.

(** The reply of a call is one the environment gives. *)
Lemma follows_perform q {A} (c : call A) (F : A -> Q -> Prop) :
  (forall h, exists q', step q (Event A c (env h A c)) = Some q' /\ F (env h A c) q') -> follows q (perform c) F.
Proof.
  intros Hc h s. destruct (Hc h) as (q' & Hs & Hq). exists q'. cbn. rewrite Hs.
  split; [done|]. by intros a [= <-].
Qed.

Lemma follows_bind q {A B} (m : eff call S E A) (k : A -> eff call S E B) (F : A -> Q -> Prop) (G : B -> Q -> Prop) :
  follows q m F -> (forall a q', F a q' -> follows q' (k a) G) -> follows q (m ≫= k) G.
Proof.
  intros Hm Hk h s. destruct (Hm h s) as (q' & Hs & HF).
  unfold mbind, eff_bind. destruct (value (m env h s)) as [a|e|] eqn:Hv; cbn.
  - destruct (Hk a q' (HF a eq_refl) (h ++ trace (m env h s)) (final (m env h s))) as (q'' & Hs' & HG).
    exists q''. rewrite steps_app, Hs. auto.
  - exists q'. by split.
  - exists q'. by split.
Qed.

Lemma follows_mono q {A} (m : eff call S E A) (F G : A -> Q -> Prop) :
  (forall a q', F a q' -> G a q') -> follows q m F -> follows q m G.
Proof. intros Hi Hm h s. destruct (Hm h s) as (q' & Hs & HF). eauto. Qed.

(** Sequences, the common cases. *)
Lemma follows_lift_then q {A B} (r : result E A) (k : A -> eff call S E B) (G : B -> Q -> Prop) :
  (forall a, r = Ok a -> follows q (k a) G) -> follows q (lift r ≫= k) G.
Proof.
  intros Hk. eapply follows_bind; [apply (follows_lift _ _ (fun a q' => r = Ok a /\ q' = q)); auto|].
  intros a q' [Ha ->]. auto.
Qed.

Lemma follows_perform_then q {A B} (c : call A) (k : A -> eff call S E B) (G : B -> Q -> Prop) :
  (forall h, exists q', step q (Event A c (env h A c)) = Some q' /\ follows q' (k (env h A c)) G) ->
  follows q (perform c ≫= k) G.
Proof.
  intros Hc. eapply (follows_bind _ _ _ (fun a q' => follows q' (k a) G)); [|done].
  apply follows_perform. intros h. destruct (Hc h) as (q' & Hs & Hk). eauto.
Qed.
End monitor.

(** *** The same for failures

    [drives q m F]: in every environment the events of [m] drive the automaton from [q]
    without getting stuck, and [F] holds of the outcome, errors included, and the state. *)
Section drives.
Context {call : Type -> Type} {Q : Type} (step : Q -> event call -> option Q) {S : Type}.

Definition drives (q : Q) {E A} (m : eff call S E A) (F : result E A -> Q -> Prop) : Prop :=
  forall env h s, let o := m env h s in exists q', steps step q (trace o) = Some q' /\ F (value o) q'.

Lemma drives_ret {E A} q (a : A) (F : result E A -> Q -> Prop) : F (Ok a) q -> drives q (mret a) F.
Proof. intros Ha env h s. by exists q. Qed.

Lemma drives_lift {E A} q (r : result E A) (F : result E A -> Q -> Prop) : F r q -> drives q (lift r) F.
Proof. intros Hr env h s. by exists q. Qed.

Lemma drives_with_state {E A} q (f : S -> S * result E A) (F : result E A -> Q -> Prop) :
  (forall s, F (f s).2 q) -> drives q (with_state f) F.
Proof. intros Hf env h s. exists q. unfold with_state. specialize (Hf s). by destruct (f s). Qed.

Lemma drives_perform {E A} q (c : call A) (F : result E A -> Q -> Prop) :
  (forall r, exists q', step q (Event A c r) = Some q' /\ F (Ok r) q') -> drives q (perform c) F.
Proof. intros Hc env h s. destruct (Hc (env h A c)) as (q' & Hs & HF). exists q'. cbn. by rewrite Hs. Qed.

Lemma drives_bind {E A B} q (m : eff call S E A) (k : A -> eff call S E B) F (G : result E B -> Q -> Prop) :
  drives q m F -> (forall a q', F (Ok a) q' -> drives q' (k a) G) ->
  (forall e q', F (Err e) q' -> G (Err e) q') -> (forall q', F Panic q' -> G Panic q') -> drives q (m ≫= k) G.
Proof.
  intros Hm Hk He Hp env h s. destruct (Hm env h s) as (q' & Hs & HF). unfold mbind, eff_bind.
  destruct (value (m env h s)) as [a|e|]; cbn; [|by exists q'; auto..].
  destruct (Hk a q' HF env (h ++ trace (m env h s)) (final (m env h s))) as (q'' & Hs' & HG).
  exists q''. by rewrite steps_app, Hs.
Qed.

Lemma drives_attempt {E F' A} q (m : eff call S E A) (F : result F' (result E A) -> Q -> Prop) :
  drives q m (fun r => F match r with Panic => Panic | r => Ok r end) -> drives q (attempt m) F.
Proof. intros Hm env h s. specialize (Hm env h s). revert Hm. unfold attempt. cbn zeta. by destruct (value (m env h s)). Qed.

Lemma drives_mono {E A} q (m : eff call S E A) (F G : result E A -> Q -> Prop) :
  (forall r q', F r q' -> G r q') -> drives q m F -> drives q m G.
Proof. intros Hi Hm env h s. destruct (Hm env h s) as (q' & Hs & HF). eauto. Qed.

(** A computation that leaves the automaton alone. *)
Lemma drives_silent {E A} q (m : eff call S E A) (P : event call -> Prop) :
  (forall e, P e -> step q e = Some q) -> emits P m -> drives q m (fun _ q' => q' = q).
Proof.
  intros HP Hm env h s. exists q. split; [|done]. specialize (Hm env h s). induction Hm as [|e t He _ IH]; [done|].
  cbn. by rewrite HP.
Qed.
End drives.

(** ** Events and what came before

    [guarded P m]: whenever a run of [m] emits [e] after [before], [P before e] holds. *)

(** A position of a concatenation is a position of one of its parts. *)
Lemma split_position {A} (l u b a : list A) e :
  l ++ u = b ++ e :: a -> (exists a', l = b ++ e :: a') \/ exists b', b = l ++ b' /\ u = b' ++ e :: a.
Proof.
  revert b. induction l as [|x l IH]; intros b; [by right; exists b|].
  destruct b as [|y b]; cbn; intros [= -> H]; [left; by exists l|].
  destruct (IH _ H) as [[a' ->]|(b' & -> & ->)]; [left; by exists a'|right; by exists b'].
Qed.

Section guarded.
Context {call : Type -> Type} {S E : Type}.
Implicit Types P : list (event call) -> event call -> Prop.

Definition guarded P {A} (m : eff call S E A) : Prop :=
  forall env h s before e after, trace (m env h s) = before ++ e :: after -> P before e.

Lemma guarded_ret P {A} (a : A) : guarded P (mret a).
Proof. intros env h s before e after H. by destruct before. Qed.

Lemma guarded_lift P {A} (r : result E A) : guarded P (lift r).
Proof. intros env h s before e after H. by destruct before. Qed.

Lemma guarded_with_state P {A} (f : S -> S * result E A) : guarded P (with_state f).
Proof. intros env h s before e after. unfold with_state. destruct (f s). by destruct before. Qed.

Lemma guarded_perform P {A} (c : call A) : (forall r, P [] (Event A c r)) -> guarded P (perform c).
Proof.
  intros Hc env h s [|e' before] e after; cbn; [intros [= <- _]; apply Hc|]. intros [= _ H]. by destruct before.
Qed.

(** The second part may rely on what the first one established. *)
Lemma guarded_bind P {A B} (m : eff call S E A) (k : A -> eff call S E B) F :
  guarded P m -> ensures m F ->
  (forall env a t, F env a t -> guarded (fun before => P (t ++ before)) (k a)) -> guarded P (m ≫= k).
Proof.
  intros Hm HF Hk env h s before e after.
  destruct (run_bind_cases m k env h s) as [(a & Ha & ->)|(_ & -> & _)]; [|apply Hm].
  cbn [trace]. apply HF in Ha. intros [[a' Ht]|(b' & -> & Ht)]%split_position; [by eapply Hm|].
  by eapply Hk.
Qed.

Lemma guarded_mono (P Q : list (event call) -> event call -> Prop) {A} (m : eff call S E A) :
  (forall before e, P before e -> Q before e) -> guarded P m -> guarded Q m.
Proof. intros Hi Hm env h s before e after Ht. eapply Hi, Hm, Ht. Qed.

(** When the property does not look back, it is one of the single events. *)
Lemma guarded_emits P Q {A} (m : eff call S E A) :
  (forall before e, Q e -> P before e) -> emits Q m -> guarded P m.
Proof.
  intros Hi Hm env h s before e after Ht. specialize (Hm env h s). rewrite Ht in Hm.
  apply Forall_app in Hm as [_ [He _]%Forall_cons]. by apply Hi.
Qed.

(** A call, or a call whose reply is converted, and then the rest. *)
Lemma guarded_perform_then P {A B} (c : call A) (k : A -> eff call S E B) :
  (forall r, P [] (Event A c r)) -> (forall r, guarded (fun before => P (Event A c r :: before)) (k r)) ->
  guarded P (perform c ≫= k).
Proof.
  intros Hc Hk. eapply guarded_bind; [by apply guarded_perform|apply ensures_perform|].
  intros env a t ->. apply Hk.
Qed.

Lemma guarded_reply_then P {A B C} (c : call A) (f : A -> B) (k : B -> eff call S E C) :
  (forall r, P [] (Event A c r)) -> (forall r, guarded (fun before => P (Event A c r :: before)) (k (f r))) ->
  guarded P ((r ← perform c; mret (f r)) ≫= k).
Proof.
  intros Hc Hk. eapply (guarded_bind _ _ _ (fun _ b t => exists r, t = [Event A c r] /\ b = f r)).
  - apply guarded_perform_then; [done|]. intros r. apply guarded_ret.
  - intros env h s b Hb. rewrite run_perform_ret in Hb |- *. cbn in *. injection Hb as <-. eauto.
  - intros env b t (r & -> & ->). apply Hk.
Qed.

(** Properties that hold of more history when they hold of less. *)
Definition monotone P : Prop := forall t before e, P before e -> P (t ++ before) e.

Lemma guarded_seq P {A B} (m : eff call S E A) (k : A -> eff call S E B) :
  monotone P -> guarded P m -> (forall a, guarded P (k a)) -> guarded P (m ≫= k).
Proof.
  intros HP Hm Hk. eapply (guarded_bind _ _ _ (fun _ _ _ => True)); [done|by intros env h s a|].
  intros env a t _. eapply guarded_mono; [|apply Hk]. intros before e. apply HP.
Qed.
End guarded.
