(* ===== verification/ToolTypes.v ===== *)
(** * The tool service: errors, results and its contact with the machine
    (crates/sentia-tools/src/error.rs, result.rs, validation.rs)

    The read-only tools answer with a [ToolResult] or a [ToolError].  Every contact with
    the machine is a [tsys] call: file metadata, bounded reads, directory listings and
    the one child process of [run_command].  Below are the input checks and the path policy. *)

From Stdlib Require Import Ascii String.
From S2P Require Import Prelude RustStr RustText Contract Effects.

(** ** error.rs *)

Inductive ToolError :=
| InvalidInput (message : string)
| NotFound (message : string)
| PermissionDenied (message : string)
| Unavailable (message : string)
| Timeout (operation : string) (timeout_secs : u64)
| OutputLimitExceeded (stream : string) (limit_bytes : usize)
| Io (context message : string)
| Parse (source message : string).

#[global] Instance ToolError_eq_dec : EqDecision ToolError.
Proof. solve_decision. Defined.

Definition ToolError_fmt (e : ToolError) : string :=
  match e with
  | InvalidInput message => "invalid input: " +:+ message
  | NotFound message => "not found: " +:+ message
  | PermissionDenied message => "permission denied: " +:+ message
  | Unavailable message => "unavailable: " +:+ message
  | Timeout operation timeout_secs =>
      "timeout after " +:+ show_uint timeout_secs +:+ "s while running " +:+ operation
  | OutputLimitExceeded stream limit_bytes =>
      stream +:+ " output exceeded " +:+ show_uint limit_bytes +:+ " bytes"
  | Io context message => "io error (" +:+ context +:+ "): " +:+ message
  | Parse source message => "parse error (" +:+ source +:+ "): " +:+ message
  end.

(** ** result.rs *)

Inductive PrivilegeClass := UserReadOnly.
Inductive PrivacyClass := PublicMetadata | SystemMetadata | PotentiallySensitive.

Record Provenance := { pr_source : string; pr_detail : string }.

Record ToolResult := {
  tl_tool_name : string;
  tl_timestamp_unix_ms : u64;
  tl_privilege_class : PrivilegeClass;
  tl_privacy_class : PrivacyClass;
  tl_timeout_ms : u64;
  tl_cancellation_policy : string;
  tl_provenance : list Provenance;
  tl_partial : bool;
  tl_data : Value;
}.

(** ** The machine *)

Inductive IoErrorKind := IoNotFound | IoPermissionDenied | IoBrokenPipe | IoOther.
Record IoError := { io_kind : IoErrorKind; io_text : string }.

Inductive FileKind :=
  FkFile | FkDirectory | FkSymlink | FkCharDevice | FkBlockDevice | FkFifo | FkSocket | FkUnknown.

#[global] Instance IoErrorKind_eq_dec : EqDecision IoErrorKind.
Proof. solve_decision. Defined.
#[global] Instance FileKind_eq_dec : EqDecision FileKind.
Proof. solve_decision. Defined.

Record FileMetadata := {
  fm_kind : FileKind; fm_mode : u32; fm_uid : u32; fm_gid : u32; fm_size : u64;
}.

Definition is_kind (k : FileKind) (m : FileMetadata) : bool := bool_decide (fm_kind m = k).

Inductive Pipe := Stdout | Stderr.

(** The child process of [run_command]: its file, arguments and whole environment. *)
Record ChildCommand := {
  cc_executable : string; cc_args : list string; cc_env : list (string * string);
}.

(** [std::io::Result], and the [map_err(..)?] the tools apply to it. *)
Definition io (A : Type) : Type := (IoError + A)%type.
Definition io_or {E A} (f : IoError -> E) (r : io A) : result E A :=
  match r with inl e => Err (f e) | inr a => Ok a end.
Definition io_ok {A} (r : io A) : option A := match r with inl _ => None | inr a => Some a end.

Inductive tsys : Type -> Type :=
| UnixMillis : tsys Z
| Metadata (path : string) : tsys (io FileMetadata)
| SymlinkMetadata (path : string) : tsys (io FileMetadata)
| TryExists (path : string) : tsys (io bool)
| ReadDir (path : string) : tsys (io (list (io string)))
| ReadLink (path : string) : tsys (io string)
| OpenFile (path : string) : tsys (io unit)
| ReadOpened (path : string) : tsys (io string)
| ReadFile (path : string) : tsys (io string)
| ReadToString (path : string) : tsys (io string)
| SpawnChild (command : ChildCommand) : tsys (io unit)
| TryWait : tsys (io (option (option Z)))
| Elapsed : tsys Z
| SleepMillis (ms : u64) : tsys unit
| KillChild : tsys unit
| WaitChild : tsys unit
| JoinReader (pipe : Pipe) : tsys (option (io (list string))).

Abbreviation teff A := (eff tsys unit ToolError A).

(** [ToolResult::new] with a [Duration::from_secs]. *)
Definition ToolResult_new (tool_name : string) (privacy_class : PrivacyClass) (timeout_secs : u64)
    (provenance : list Provenance) (partial : bool) (data : Value) : teff ToolResult :=
  millis ← perform UnixMillis;
  mret {| tl_tool_name := tool_name;
          tl_timestamp_unix_ms := Z.min U64_MAX millis;
          tl_privilege_class := UserReadOnly;
          tl_privacy_class := privacy_class;
          tl_timeout_ms := Z.min U64_MAX (timeout_secs * 1000);
          tl_cancellation_policy :=
            "caller-cancellable-before-spawn; child process killed on timeout";
          tl_provenance := provenance;
          tl_partial := partial;
          tl_data := data |}.

(** ** JSON of the tools' data *)

Definition VInt (n : Z) : Value := VNumber (NInt n).
Definition VOption {A} (f : A -> Value) (o : option A) : Value :=
  match o with Some a => f a | None => VNull end.
Definition VStrings (l : list string) : Value := VArray (map VString l).

(** [json!] of a path panics unless the path is valid text ([to_value(..).unwrap()]). *)
Definition path_value {E} (p : string) : result E Value :=
  if valid_utf8 p then Ok (VString p) else Panic.

(** [path.display()], [to_string_lossy] *)
Definition display (p : string) : string := from_utf8_lossy p.

(** * Tool inputs and bounded reads (crates/sentia-tools/src/validation.rs)

    Limits, tokens, service names and the path policy every tool applies to its input
    before it touches the machine.  A [str] is valid text, on which [chars().all(p)] for
    a predicate that holds only of ASCII characters is [bytes_all p]. *)

Definition DEFAULT_TIMEOUT_SECS : u64 := 4.
Definition DEFAULT_OUTPUT_LIMIT : usize := 65536.
Definition DEFAULT_HISTORY_LIMIT : usize := 100.
Definition MAX_HISTORY_ENTRIES : usize := 2000.
Definition MAX_HISTORY_LIMIT : usize := 500.
Definition DEFAULT_DIRECTORY_LIMIT : usize := 200.
Definition MAX_DIRECTORY_LIMIT : usize := 2000.
Definition DEFAULT_LIST_LIMIT : usize := 200.
Definition MAX_LIST_LIMIT : usize := 2000.
Definition DEFAULT_LOG_LINES : usize := 120.
Definition MAX_LOG_LINES : usize := 1000.
Definition MAX_COMMAND_TOKEN_LEN : usize := 80.
Definition MAX_SERVICE_NAME_LEN : usize := 128.

Definition token_char (c : ascii) : bool := is_ascii_alphanumeric c || one_of "-_.+" c.
Definition service_char (c : ascii) : bool := is_ascii_alphanumeric c || one_of "-_.@" c.

Definition validate_command_token (token : string) : result ToolError unit :=
  fail_if (is_empty token) (InvalidInput "command token cannot be empty");;
  fail_if (MAX_COMMAND_TOKEN_LEN <? len token) (InvalidInput "command token exceeds 80 characters");;
  fail_if (contains "/" token) (InvalidInput "command token must not include path separators");;
  fail_if (negb (bytes_all token_char token))
    (InvalidInput "command token contains unsupported characters").

Definition normalize_service_name (service : string) : result ToolError string :=
  fail_if (is_empty service) (InvalidInput "service name cannot be empty");;
  fail_if (MAX_SERVICE_NAME_LEN <? len service) (InvalidInput "service name exceeds 128 characters");;
  fail_if (negb (bytes_all service_char service))
    (InvalidInput "service name contains unsupported characters");;
  if ends_with ".service" service then Ok service else Ok (service +:+ ".service").

Definition bounded_limit (user_limit : option usize) (default_value max_value : usize)
    (field_name : string) : result ToolError usize :=
  let value := default default_value user_limit in
  fail_if (value =? 0) (InvalidInput (field_name +:+ " must be greater than zero"));;
  fail_if (max_value <? value) (InvalidInput (field_name +:+ " must be <= " +:+ show_uint max_value));;
  Ok value.

Definition is_dot (c : Component) : bool := match c with ParentDir | CurDir => true | _ => false end.

Definition validate_absolute_path (path : string) : result ToolError unit :=
  fail_if (negb (is_absolute path)) (InvalidInput "path must be an absolute filesystem path");;
  fail_if (existsb is_dot (components path))
    (InvalidInput "path must not contain dot or dot-dot components").

(** Why the default policy refuses a path. *)
Definition denied_reason (path : string) : option string :=
  let path_str := display path in
  if starts_with "/root" path_str then Some "root-owned home content"
  else if existsb (String.eqb path_str)
            ["/etc/shadow"; "/etc/gshadow"; "/etc/sudoers"; "/etc/security/opasswd"]
  then Some "credential or password policy content"
  else if contains "/.ssh/" path_str || ends_with "/.ssh" path_str then Some "ssh credential material"
  else if contains "/.gnupg/" path_str || ends_with "/.gnupg" path_str then Some "gnupg private material"
  else if starts_with "/proc/" path_str
          && existsb (fun name => match file_name path with
                                  | Some value => valid_utf8 value && String.eqb value name
                                  | None => false
                                  end) ["environ"; "mem"; "kcore"; "cmdline"]
  then Some "process-sensitive kernel pseudo files"
  else if ends_with ".pem" path_str || ends_with ".key" path_str || ends_with ".p12" path_str
  then Some "likely key or certificate material"
  else None.

Definition enforce_path_policy (path : string) (allow_sensitive : bool) : result ToolError unit :=
  validate_absolute_path path;;
  if allow_sensitive then Ok tt
  else
    match denied_reason path with
    | Some reason =>
        Err (PermissionDenied ("access to sensitive path denied by default policy (" +:+ reason +:+ ")"))
    | None => Ok tt
    end.

(** [File::open] and [take(limit + 1).read_to_end]. *)
Definition read_text_file_bounded (path : string) (limit_bytes : usize) : teff string :=
  opened ← perform (OpenFile path);
  lift (io_or (fun err =>
    if bool_decide (io_kind err = IoPermissionDenied)
    then PermissionDenied ("cannot read " +:+ display path +:+ ": " +:+ io_text err)
    else Io ("opening " +:+ display path) (io_text err)) opened);;
  contents ← perform (ReadOpened path);
  contents ← lift (io_or (fun err => Io ("reading " +:+ display path) (io_text err)) contents);
  let buffer := stake (Z.to_nat (limit_bytes + 1)) contents in
  lift (fail_if (limit_bytes <? len buffer) (OutputLimitExceeded (display path) limit_bytes));;
  mret (from_utf8_lossy buffer).

(** ** What validation guarantees *)

Lemma bounded_limit_Ok user_limit d m field v :
  bounded_limit user_limit d m field = Ok v -> v <> 0 /\ v <= m /\ v = default d user_limit.
Proof. unfold bounded_limit. intros H. inv_result. zbool. by subst. Qed.

Lemma validate_command_token_Ok token :
  validate_command_token token = Ok tt <->
  1 <= len token <= MAX_COMMAND_TOKEN_LEN /\ bytes_all token_char token = true.
Proof.
  unfold validate_command_token. split.
  - intros H. inv_result. zbool. apply is_empty_false in H. split; [lia|done].
  - intros [Hl Ht]. rewrite Ht. replace (is_empty token) with false by (symmetry; apply is_empty_false; lia).
    replace (MAX_COMMAND_TOKEN_LEN <? len token) with false by (symmetry; apply Z.ltb_ge; lia). cbn [fail_if].
    replace (contains "/" token) with false; [done|]. symmetry. clear Hl.
    unfold bytes_all in Ht. induction token as [|c token IH]; [done|].
    cbn [list_ascii_of_string forallb] in Ht. apply andb_true_iff in Ht as [Hc Ht].
    cbn [contains]. rewrite (IH Ht), orb_false_r. unfold starts_with. cbn [strip_prefix].
    destruct (Ascii.eqb_spec "/" c) as [<-|]; [done|done].
Qed.

Lemma normalize_service_name_Ok service unit :
  normalize_service_name service = Ok unit ->
  ends_with ".service" unit = true /\ bytes_all service_char unit = true /\
  1 <= len unit <= MAX_SERVICE_NAME_LEN + 8.
Proof.
  unfold normalize_service_name. intros H. inv_result. zbool. apply is_empty_false in H.
  assert (len ".service" = 8) as H8 by done.
  destruct (ends_with ".service" service) eqn:He; inv_result; subst unit.
  - repeat split; [done|done|lia|lia].
  - split; [by apply ends_with_true; eauto|]. rewrite bytes_all_app, len_app, H1, H8. split; [done|lia].
Qed.

(** ** The path policy *)

Lemma contains_middle needle a b : contains needle (a +:+ needle +:+ b) = true.
Proof.
  induction a as [|c a IH].
  - cbn [String.append]. destruct needle as [|d n]; [by destruct b|].
    cbn [contains String.append]. apply orb_true_iff. left. apply starts_with_true. by exists b.
  - cbn [String.append contains]. rewrite IH. apply orb_true_r.
Qed.

(** A path spelled with one slash before each name. *)
Definition spell (names : list string) : string := sconcat (map (fun n => "/" +:+ n) names).

(** A name a path can be spelled with. *)
Definition plain_name (n : string) : Prop :=
  lacks "/" n = true /\ n <> "" /\ n <> "." /\ n <> "..".

Lemma split_slash_name acc n rest : lacks "/" n = true ->
  split_slash acc (n +:+ rest) = split_slash (acc +:+ n) rest.
Proof.
  revert acc. induction n as [|c n IH]; intros acc Hn; [by rewrite app_empty_r|].
  rewrite lacks_cons in Hn. apply andb_true_iff in Hn as [Hc Hn]. apply negb_true_iff in Hc.
  cbn [String.append split_slash]. rewrite Hc, IH, str_app_assoc by done. done.
Qed.

Lemma split_slash_spell acc names : Forall plain_name names ->
  split_slash acc (spell names) = acc :: names.
Proof.
  intros H. revert acc. induction H as [|n names [Hn _] Hns IH]; intros acc; [done|].
  change (spell (n :: names)) with (String "/" (n +:+ spell names)). cbn [split_slash].
  change (Ascii.eqb "/" "/") with true. cbn iota. f_equal.
  rewrite split_slash_name by done. cbn [String.append]. apply IH.
Qed.

Lemma components_spell names : names <> [] -> Forall plain_name names ->
  components (spell names) = RootDir :: map Normal names.
Proof.
  intros Hne H. unfold components. rewrite split_slash_spell by done. cbn [String.eqb].
  destruct (spell names) eqn:E; [by destruct names|]. cbn [app]. f_equal. clear Hne E.
  induction H as [|n names (Hs & H1 & H2 & H3) Hns IH]; [done|]. cbn [map List.concat]. rewrite IH.
  unfold component_of. by rewrite (proj2 (String.eqb_neq _ _) H1), (proj2 (String.eqb_neq _ _) H2),
    (proj2 (String.eqb_neq _ _) H3).
Qed.

(** The places the default policy protects, by the names on the way to them. *)
Inductive sensitive_place : list string -> Prop :=
| sp_root names : sensitive_place ("root" :: names)
| sp_password file : file ∈ ["shadow"; "gshadow"; "sudoers"] -> sensitive_place ["etc"; file]
| sp_opasswd : sensitive_place ["etc"; "security"; "opasswd"]
| sp_keys dir before after : dir ∈ [".ssh"; ".gnupg"] -> sensitive_place (before ++ dir :: after)
| sp_process between file : between <> [] -> file ∈ ["environ"; "mem"; "kcore"; "cmdline"] ->
    sensitive_place ("proc" :: between ++ [file]).

Lemma spell_app a b : spell (a ++ b) = spell a +:+ spell b.
Proof. unfold spell. by rewrite map_app, sconcat_app. Qed.

Lemma denied_dir dir before after :
  contains ("/" +:+ dir +:+ "/") (spell (before ++ dir :: after))
  || ends_with ("/" +:+ dir) (spell (before ++ dir :: after)) = true.
Proof.
  rewrite spell_app. apply orb_true_iff. destruct after as [|n after].
  - right. apply ends_with_true. exists (spell before). unfold spell at 2. cbn. by rewrite app_empty_r.
  - left. change (spell (dir :: n :: after)) with ("/" +:+ dir +:+ "/" +:+ (n +:+ spell after)).
    replace ("/" +:+ dir +:+ "/" +:+ (n +:+ spell after))
      with (("/" +:+ dir +:+ "/") +:+ (n +:+ spell after)); [apply contains_middle|].
    cbn [String.append]. by rewrite str_app_assoc.
Qed.

(** Every branch of the policy is a refusal. *)
Lemma denied_if (b : bool) r (rest : option string) :
  b = true \/ is_Some rest -> is_Some (if b then Some r else rest).
Proof. intros [->|H]; [eauto|destruct b; eauto]. Qed.

(** Case analysis on membership in a literal list. *)
Ltac elem_cases H :=
  rewrite ?elem_of_cons, ?elem_of_nil in H; destruct_or? H; try done; subst.

Lemma sensitive_denied names :
  sensitive_place names -> Forall plain_name names -> valid_utf8 (spell names) = true ->
  is_Some (denied_reason (spell names)).
Proof.
  intros Hs Hn Hv. unfold denied_reason, display. rewrite from_utf8_lossy_id by done.
  destruct Hs as [names|file Hf| |dir before after Hd|between file Hb Hf].
  - apply denied_if. left. apply starts_with_true. by exists (spell names).
  - elem_cases Hf; vm_compute; eauto.
  - vm_compute. eauto.
  - pose proof (denied_dir dir before after) as H.
    do 2 (apply denied_if; right). elem_cases Hd; apply denied_if.
    + by left.
    + right. apply denied_if. by left.
  - do 4 (apply denied_if; right). apply denied_if. left. apply andb_true_iff. split.
    { apply starts_with_true. destruct between as [|b between]; [done|].
      exists (b +:+ spell (between ++ [file])). done. }
    apply existsb_exists. exists file. split; [by apply list_elem_of_In|].
    unfold file_name. rewrite components_spell by (by try done).
    cbn [map]. rewrite map_app. cbn [rev]. rewrite rev_app_distr. cbn [rev app map].
    rewrite String.eqb_refl, andb_true_r.
    by elem_cases Hf.
Qed.

(** The default policy refuses credentials: a path spelled in the usual way that leads
    into root's home, to a password file, through an .ssh or .gnupg directory or to the
    memory, environment or command line of a process is refused as denied, unless the
    caller opted in to sensitive paths; and a path that is accepted is absolute and never
    goes up. *)
Theorem path_policy_refuses_credentials names path allow_sensitive :
  sensitive_place names -> Forall plain_name names -> valid_utf8 (spell names) = true ->
  (exists message, enforce_path_policy (spell names) false = Err (PermissionDenied message)) /\
  (enforce_path_policy path allow_sensitive = Ok tt ->
   is_absolute path = true /\ ParentDir ∉ components path).
Proof.
  intros Hs Hn Hv. split.
  - assert (names <> []) as Hne by (destruct Hs; [done..|by destruct before|done]).
    destruct (sensitive_denied names Hs Hn Hv) as [reason Hr].
    unfold enforce_path_policy, validate_absolute_path. rewrite components_spell, Hr by done.
    replace (is_absolute (spell names)) with true by by destruct names.
    replace (existsb is_dot (RootDir :: map Normal names)) with false; [cbn; eauto|].
    clear. cbn [existsb is_dot]. induction names; [done|]. cbn [map existsb is_dot]. done.
  - unfold enforce_path_policy, validate_absolute_path. intros H. inv_result. split; [done|].
    intros Hd. enough (existsb is_dot (components path) = true) by congruence.
    apply existsb_exists. exists ParentDir. split; [by apply list_elem_of_In|done].
Qed.

Lemma path_policy_refuses_credentials_witness :
  (exists message, enforce_path_policy "/home/alice/.ssh/id_ed25519" false = Err (PermissionDenied message)) /\
  is_absolute "/var/log/syslog" = true.
Proof.
  destruct (path_policy_refuses_credentials (["home"; "alice"] ++ ".ssh" :: ["id_ed25519"])
    "/var/log/syslog" false) as [H1 H2].
  - apply sp_keys. left.
  - repeat constructor; done.
  - reflexivity.
  - split; [exact H1|]. apply H2. reflexivity.
Defined.

(** The policy looks at the spelling, not at the file: the paths /etc//shadow and
    /etc/./shadow have the components of /etc/shadow and name the same file, but pass the
    policy that refuses it. *)
Theorem path_policy_depends_on_spelling :
  exists p q r, components p = components r /\ components q = components r /\
    enforce_path_policy p false = Ok tt /\ enforce_path_policy q false = Ok tt /\
    (exists message, enforce_path_policy r false = Err (PermissionDenied message)).
Proof.
  exists "/etc//shadow", "/etc/./shadow", "/etc/shadow".
  repeat split; [..|eexists]; reflexivity.
Qed.
