(* ===== verification/ToolRunner.v ===== *)
(** * Running a fixed program (crates/sentia-tools/src/runner.rs)

    [run_command] starts one child with a cleared environment, reads both its pipes up to
    a limit and kills it after a timeout.  [Elapsed] is [started.elapsed()] in
    nanoseconds; a reader thread is what it read, chunk by chunk. *)

From Stdlib Require Import Ascii String.
From S2P Require Import Prelude RustStr RustText Contract Effects ToolTypes.

Record CommandOutput := {
  co_status_code : Z;
  co_stdout : string;
  co_stderr : string;
  co_stdout_truncated : bool;
  co_stderr_truncated : bool;
}.

(** [mode & 0o111 != 0] on a regular file *)
Definition runnable (m : FileMetadata) : bool := is_kind FkFile m && negb (Z.land (fm_mode m) 73 =? 0).

Fixpoint first_available_executable (candidates : list string) : teff (option string) :=
  match candidates with
  | [] => mret None
  | candidate :: rest =>
      metadata ← perform (Metadata candidate);
      if match metadata with inr m => runnable m | inl _ => false end
      then mret (Some candidate) else first_available_executable rest
  end.

(** The loop of [read_stream_with_limit] over what [read] returned. *)
Fixpoint read_chunks (limit : usize) (chunks : list string) (output : string) (truncated : bool)
  : string * bool :=
  match chunks with
  | [] => (output, truncated)
  | chunk :: rest =>
      let remaining := saturating_sub limit (len output) in
      if remaining =? 0 then read_chunks limit rest output true
      else if len chunk <=? remaining then read_chunks limit rest (output +:+ chunk) truncated
      else read_chunks limit rest (output +:+ stake (Z.to_nat remaining) chunk) true
  end.

Definition read_stream_with_limit (chunks : list string) (limit : usize) : string * bool :=
  read_chunks limit chunks EmptyString false.

Definition child_environment : list (string * string) :=
  [("PATH", "/usr/local/sbin:/usr/local/bin:/usr/sbin:/usr/bin:/sbin:/bin"); ("LANG", "C");
   ("LC_ALL", "C"); ("HOME", "/nonexistent"); ("PAGER", "cat"); ("MANPAGER", "cat");
   ("SYSTEMD_PAGER", "cat"); ("SYSTEMD_COLORS", "0")].

Definition pipe_name (p : Pipe) : string := match p with Stdout => "stdout" | Stderr => "stderr" end.

Definition joined {A} (pipe : Pipe) (operation : string) (r : option A) : result ToolError A :=
  ok_or r (Io ("joining " +:+ pipe_name pipe +:+ " thread for " +:+ operation) "reader thread panicked").

(** What is done once the child has ended with [code] ([None]: by a signal). *)
Definition collect_output (code : option Z) (output_limit : usize) (operation : string)
  : teff CommandOutput :=
  stdout ← perform (JoinReader Stdout);
  stdout_result ← lift (joined Stdout operation stdout);
  stderr ← perform (JoinReader Stderr);
  stderr_result ← lift (joined Stderr operation stderr);
  stdout_chunks ← lift (io_or (fun err => Io ("reading stdout for " +:+ operation) (io_text err)) stdout_result);
  stderr_chunks ← lift (io_or (fun err => Io ("reading stderr for " +:+ operation) (io_text err)) stderr_result);
  let '(stdout_bytes, stdout_truncated) := read_stream_with_limit stdout_chunks output_limit in
  let '(stderr_bytes, stderr_truncated) := read_stream_with_limit stderr_chunks output_limit in
  mret {| co_status_code := default (-1) code;
          co_stdout := from_utf8_lossy stdout_bytes;
          co_stderr := from_utf8_lossy stderr_bytes;
          co_stdout_truncated := stdout_truncated;
          co_stderr_truncated := stderr_truncated |}.

Definition NANOS : Z := 1000000000.

(** [fuel] turns of the waiting loop. *)
Fixpoint wait_loop (fuel : nat) (timeout_secs : u64) (output_limit : usize) (operation : string)
  : teff CommandOutput :=
  match fuel with
  | O => lift Panic
  | S fuel' =>
      waited ← perform TryWait;
      status ← lift (io_or (fun err => Io ("waiting for " +:+ operation) (io_text err)) waited);
      match status with
      | Some code => collect_output code output_limit operation
      | None =>
          elapsed ← perform Elapsed;
          if timeout_secs * NANOS <? elapsed then
            perform KillChild;;
            perform WaitChild;;
            perform (JoinReader Stdout);;
            perform (JoinReader Stderr);;
            lift (Err (Timeout operation timeout_secs))
          else
            perform (SleepMillis 20);;
            wait_loop fuel' timeout_secs output_limit operation
      end
  end.

(** One turn per 20 ms of the timeout and two more. *)
Definition wait_turns (timeout_secs : u64) : nat := (Z.to_nat (50 * timeout_secs) + 2)%nat.

Definition run_command (executable : string) (args : list string) (timeout_secs : u64)
    (output_limit : usize) (operation : string) : teff CommandOutput :=
  lift (fail_if (negb (starts_with "/" executable)) (InvalidInput "executable path must be absolute"));;
  metadata ← perform (Metadata executable);
  metadata ← lift (io_or (fun err =>
    if bool_decide (io_kind err = IoNotFound)
    then Unavailable ("required executable unavailable: " +:+ executable)
    else Io ("checking " +:+ executable) (io_text err)) metadata);
  lift (fail_if (negb (is_kind FkFile metadata) || (Z.land (fm_mode metadata) 73 =? 0))
          (Unavailable ("required executable is not runnable: " +:+ executable)));;
  spawned ← perform (SpawnChild {| cc_executable := executable; cc_args := args;
                                   cc_env := child_environment |});
  lift (io_or (fun err => Io ("spawning " +:+ operation) (io_text err)) spawned);;
  wait_loop (wait_turns timeout_secs) timeout_secs output_limit operation.

(** ** The bounded reader *)

Lemma stake_app_ge n (a b : string) : (String.length a <= n)%nat ->
  stake n (a +:+ b) = a +:+ stake (n - String.length a) b.
Proof.
  revert n. induction a as [|c a IH]; intros n Hn.
  - cbn [String.append String.length]. by rewrite Nat.sub_0_r.
  - destruct n as [|n]; [cbn in Hn; lia|]. cbn [String.append stake String.length Nat.sub].
    rewrite IH; [done|cbn in Hn; lia].
Qed.

Lemma stake_0 s : stake 0 s = EmptyString.
Proof. by destruct s. Qed.

(** [read] returns at least one byte until the end. *)
Lemma read_chunks_spec limit chunks output truncated :
  len output <= limit -> Forall (fun c => c <> EmptyString) chunks ->
  (truncated = true -> len output = limit) ->
  let '(o, t) := read_chunks limit chunks output truncated in
  o = stake (Z.to_nat limit) (output +:+ sconcat chunks) /\
  (t = true <-> truncated = true \/ limit < len (output +:+ sconcat chunks)).
Proof.
  revert output truncated. induction chunks as [|c chunks IH]; intros output truncated Ho Hc Ht.
  { cbn [read_chunks sconcat]. rewrite app_empty_r. split; [|split; [by left|intros [|]; [done|lia]]].
    unfold len in Ho. rewrite <-(app_empty_r output) at 2. rewrite stake_app_ge by lia.
    by destruct (_ - _)%nat; rewrite app_empty_r. }
  apply Forall_cons in Hc as [Hne Hc]. cbn [read_chunks sconcat].
  assert (0 < len c) as Hlc by by apply is_empty_false; destruct c.
  pose proof (len_nonneg (sconcat chunks)) as Hrest.
  unfold saturating_sub. destruct (Z.eqb_spec (Z.max 0 (limit - len output)) 0) as [Hr|Hr].
  - assert (len output = limit) as Hfull by lia.
    specialize (IH output true Ho Hc (fun _ => Hfull)). destruct (read_chunks limit chunks output true) as [o t].
    destruct IH as [-> Htt]. split.
    + unfold len in Hfull. rewrite !stake_app_ge by lia.
      replace (Z.to_nat limit - String.length output)%nat with 0%nat by lia. by rewrite !stake_0.
    + rewrite Htt, !len_app. split; [intros _; right; lia|by left].
  - destruct (Z.leb_spec (len c) (Z.max 0 (limit - len output))) as [Hfit|Hfit].
    + specialize (IH (output +:+ c) truncated). rewrite len_app in IH.
      specialize (IH ltac:(lia) Hc). rewrite str_app_assoc in IH.
      destruct (read_chunks limit chunks (output +:+ c) truncated) as [o t]. apply IH.
      intros ->. specialize (Ht eq_refl). lia.
    + set (r := Z.to_nat (Z.max 0 (limit - len output))).
      assert (String.length (stake r c) = r) as Hsr by (apply length_stake; unfold len in *; lia).
      assert (len (output +:+ stake r c) = limit) as Hfull.
      { rewrite len_app. unfold len in *. lia. }
      specialize (IH (output +:+ stake r c) true ltac:(lia) Hc (fun _ => Hfull)).
      destruct (read_chunks limit chunks (output +:+ stake r c) true) as [o t].
      destruct IH as [-> Htt]. split.
      * unfold len in *. rewrite stake_app_ge by lia.
        replace (Z.to_nat limit - String.length (output +:+ stake r c))%nat with 0%nat by lia.
        rewrite stake_0, app_empty_r. rewrite stake_app_ge by lia. f_equal.
        replace (Z.to_nat limit - String.length output)%nat with r by lia.
        by rewrite stake_app_le by lia.
      * rewrite Htt, !len_app. split; [intros _; right; lia|by left].
Qed.

Lemma read_stream_spec chunks limit :
  0 <= limit -> Forall (fun c => c <> EmptyString) chunks ->
  read_stream_with_limit chunks limit =
    (stake (Z.to_nat limit) (sconcat chunks), bool_decide (limit < len (sconcat chunks))).
Proof.
  intros Hl Hc. unfold read_stream_with_limit.
  pose proof (read_chunks_spec limit chunks EmptyString false) as H. cbn [String.append] in H.
  specialize (H Hl Hc ltac:(done)). destruct (read_chunks _ _ _ _) as [o t]. destruct H as [-> Ht].
  f_equal. destruct t; symmetry; [apply bool_decide_eq_true|apply bool_decide_eq_false]; naive_solver.
Qed.

Lemma read_stream_bounded chunks limit : 0 <= limit -> len (read_stream_with_limit chunks limit).1 <= limit.
Proof.
  intros Hl. unfold read_stream_with_limit.
  enough (forall output truncated, len output <= limit -> len (read_chunks limit chunks output truncated).1 <= limit)
    as H by (apply H; done).
  induction chunks as [|c chunks IH]; intros output truncated Ho; [done|]. cbn [read_chunks].
  unfold saturating_sub. destruct (Z.eqb_spec (Z.max 0 (limit - len output)) 0); [by apply IH|].
  destruct (Z.leb_spec (len c) (Z.max 0 (limit - len output))); apply IH; rewrite len_app; [lia|].
  unfold len in *. rewrite length_stake by lia. lia.
Qed.

(** ** Termination *)

(** What the history says about [Elapsed]: the sleeps since the child was started. *)
Definition elapsed_step (now : Z) (e : event tsys) : Z :=
  match ev_call e in tsys A return A -> Z with
  | SpawnChild _ => fun _ => 0
  | Elapsed => fun r => r
  | SleepMillis ms => fun _ => now + ms * 1000000
  | _ => fun _ => now
  end (ev_reply e).
Definition slept (h : list (event tsys)) : Z := fold_left elapsed_step h 0.

(** A monotone clock that counts the sleeps. *)
Definition clock_counts (env : environment tsys) : Prop := forall h, slept h <= env h Z Elapsed.

Lemma slept_snoc h e : slept (h ++ [e]) = elapsed_step (slept h) e.
Proof. unfold slept. by rewrite fold_left_app. Qed.

Lemma io_or_no_panic {E A} (f : IoError -> E) (r : io A) : io_or f r <> Panic.
Proof. by destruct r. Qed.
Lemma ok_or_no_panic {E A} (o : option A) (e : E) : ok_or o e <> Panic.
Proof. by destruct o. Qed.
Lemma fail_if_never_panics {E} (b : bool) (e : E) : fail_if b e <> Panic.
Proof. by destruct b. Qed.

#[export] Hint Resolve io_or_no_panic ok_or_no_panic fail_if_never_panics : sentia.

Lemma collect_output_returns env code output_limit operation :
  returns env (collect_output code output_limit operation).
Proof. unfold collect_output, joined. returns_tac; auto with sentia. Qed.

Lemma perform_then {E A B} (c : tsys A) (k : A -> eff tsys unit E B) env h :
  value ((perform c ≫= k) env h tt) = value (k (env h A c) env (h ++ [Event A c (env h A c)]) tt).
Proof. done. Qed.

Lemma lift_then {E A B} (a : A) (k : A -> eff tsys unit E B) env h :
  value ((lift (Ok a) ≫= k) env h tt) = value (k a env h tt).
Proof. unfold mbind, eff_bind, lift. cbn. by rewrite app_nil_r. Qed.

Lemma wait_loop_returns env fuel timeout_secs output_limit operation h :
  clock_counts env -> (0 < fuel)%nat ->
  timeout_secs * NANOS < slept h + 20000000 * Z.of_nat (fuel - 1) ->
  value (wait_loop fuel timeout_secs output_limit operation env h tt) <> Panic.
Proof.
  intros Hticks. revert h. induction fuel as [|fuel IH]; intros h Hpos Hfuel; [lia|]. cbn [wait_loop].
  rewrite perform_then. set (r := env h _ TryWait). set (h1 := h ++ [_]).
  assert (slept h1 = slept h) as Hh1 by (unfold h1; by rewrite slept_snoc). clearbody r h1.
  destruct r as [err|[code|]]; [done|apply collect_output_returns|].
  cbn [io_or]. rewrite lift_then, perform_then. pose proof (Hticks h1) as Ht.
  set (elapsed := env h1 Z Elapsed) in *. set (h2 := h1 ++ [_]).
  assert (slept h2 = elapsed) as Hh2 by (unfold h2; by rewrite slept_snoc). clearbody elapsed h2.
  destruct (Z.ltb_spec (timeout_secs * NANOS) elapsed) as [|Hle].
  { by apply (returns_bind env _ _ (perform KillChild)); [apply returns_perform|intros; returns_tac]. }
  rewrite perform_then. set (h3 := h2 ++ [_]).
  assert (slept h3 = elapsed + 20000000) as Hh3 by (unfold h3; by rewrite slept_snoc, Hh2).
  clearbody h3. apply IH; [lia|]. unfold NANOS in *. lia.
Qed.

Lemma run_command_returns env executable args timeout_secs output_limit operation :
  clock_counts env -> 0 <= timeout_secs ->
  returns env (run_command executable args timeout_secs output_limit operation).
Proof.
  intros Hticks Ht. unfold run_command. apply returns_bind_lift; [auto with sentia|intros [] _].
  apply returns_bind; [returns_tac|intros metadata].
  apply returns_bind_lift; [auto with sentia|intros m _].
  apply returns_bind_lift; [auto with sentia|intros [] _]. intros h [].
  rewrite perform_then. set (h1 := h ++ [_]).
  assert (slept h1 = 0) as Hh1 by (unfold h1; by rewrite slept_snoc). clearbody h1.
  destruct (env h _ _) as [|[]]; [done|]. cbn [io_or]. rewrite lift_then.
  apply wait_loop_returns; [done|unfold wait_turns; lia|]. unfold wait_turns, NANOS. lia.
Qed.

(** ** What runs *)

(** Calls that only look. *)
Definition looks {A} (c : tsys A) : Prop :=
  match c with SpawnChild _ => False | _ => True end.
Definition looking (e : event tsys) : Prop := looks (ev_call e).

(** The one event of [run_command] that is more than looking. *)
Definition starts (executable : string) (args : list string) (before : list (event tsys)) (e : event tsys)
  : Prop :=
  (exists r, e = Event _ (SpawnChild {| cc_executable := executable; cc_args := args;
                                        cc_env := child_environment |}) r) /\
  exists m, Event _ (Metadata executable) (inr m) ∈ before /\ runnable m = true.

Lemma wait_loop_looks fuel timeout_secs output_limit operation :
  emits looking (wait_loop fuel timeout_secs output_limit operation).
Proof.
  induction fuel as [|fuel IH]; cbn [wait_loop]; [apply emits_lift|].
  unfold collect_output. emits_tac; try exact I; apply IH.
Qed.

Lemma run_command_starts executable args timeout_secs output_limit operation :
  does looking (fun before e => starts executable args before e /\ starts_with "/" executable = true)
    (run_command executable args timeout_secs output_limit operation).
Proof.
  unfold run_command. apply does_bind_lift. intros [] Habs. inv_result.
  eapply (does_bind_r _ (fun r before e => match r with
            | inr m => starts executable args (Event _ (Metadata executable) (inr m) :: before) e
            | inl _ => False end) _
            (fun r t => t = [Event _ (Metadata executable) r])).
  - by apply emits_perform.
  - intros env h s a Ha. cbn in *. by injection Ha as <-.
  - intros [err|m]; apply does_bind_lift; [done|]. intros m' [= <-].
    apply does_bind_lift. intros [] Hrun. inv_result.
    apply does_bind_l; [|intros r; emits_tac; apply wait_loop_looks].
    apply does_perform. intros r. split; [by eauto|]. exists m. split; [left|].
    unfold runnable. by rewrite H, H0.
  - intros [err|m] t0 t1 e -> Hact; [done|]. done.
Qed.
