(* ===== verification/ToolParsers.v ===== *)
(** * Parsers of kernel text (crates/sentia-tools/src/parsers/mod.rs)

    The files of procfs and os-release as the tools read them.  A [BTreeMap] is its list
    of entries in key order. *)

From Stdlib Require Import Ascii String.
From S2P Require Import Prelude RustStr RustText Contract Effects ToolTypes.

Record NetDeviceStats := {
  nd_name : string; nd_rx_bytes : u64; nd_tx_bytes : u64; nd_rx_packets : u64; nd_tx_packets : u64;
}.

Inductive TransportProtocol := Tcp | Tcp6 | Udp | Udp6.

#[global] Instance TransportProtocol_eq_dec : EqDecision TransportProtocol.
Proof. solve_decision. Defined.

Record SocketEntry := {
  so_protocol : TransportProtocol; so_local_address : string; so_local_port : u16;
  so_state_hex : string; so_inode : option u64;
}.

Record RouteEntry := {
  ro_interface : string; ro_destination : string; ro_gateway : string; ro_flags_hex : string;
}.

Record ProcStat := { ps_pid : Z; ps_name : string; ps_state : string; ps_ppid : Z }.

Record CpuSummary := {
  cs_logical_cores : usize; cs_model_name : option string; cs_vendor_id : option string;
}.

Record MemSummary := { ms_mem_total_kb : option u64; ms_swap_total_kb : option u64 }.

(** [columns[i]] *)
Definition index {E A} (l : list A) (i : nat) : result E A :=
  match nth_error l i with Some a => Ok a | None => Panic end.

(** [&s[a..b]]: in order, within the text and at character boundaries. *)
Definition str_slice {E} (s : string) (a b : Z) : result E string :=
  if is_char_boundary s (Z.to_nat a) && is_char_boundary s (Z.to_nat b) then slice s a b else Panic.

Definition parse_u64_of (value source : string) : result ToolError u64 :=
  map_err (fun err => Parse source (IntError_fmt err)) (parse_u64 value).

(** ** /proc/net *)

Definition too_few (source : string) (least : string) (columns : list string) : ToolError :=
  Parse source ("expected >=" +:+ least +:+ " columns, got " +:+ show_uint (vlen columns)).

Definition net_dev_line (trimmed : string) : result ToolError NetDeviceStats :=
  '(interface, metrics) ← ok_or (split_once ":" trimmed) (Parse "/proc/net/dev" "missing metrics");
  let columns := split_whitespace metrics in
  fail_if (vlen columns <? 16) (too_few "/proc/net/dev" "16" columns);;
  c0 ← index columns 0;
  rx_bytes ← parse_u64_of c0 "/proc/net/dev rx_bytes";
  c1 ← index columns 1;
  rx_packets ← parse_u64_of c1 "/proc/net/dev rx_packets";
  c8 ← index columns 8;
  tx_bytes ← parse_u64_of c8 "/proc/net/dev tx_bytes";
  c9 ← index columns 9;
  tx_packets ← parse_u64_of c9 "/proc/net/dev tx_packets";
  Ok {| nd_name := trim interface; nd_rx_bytes := rx_bytes; nd_tx_bytes := tx_bytes;
        nd_rx_packets := rx_packets; nd_tx_packets := tx_packets |}.

(** The loops skip blank lines. *)
Fixpoint parse_lines {A} (f : string -> result ToolError A) (lines : list string)
  : result ToolError (list A) :=
  match lines with
  | [] => Ok []
  | line :: rest =>
      let trimmed := trim line in
      if is_empty trimmed then parse_lines f rest
      else a ← f trimmed; l ← parse_lines f rest; Ok (a :: l)
  end.

Definition by_name {A} (name : A -> string) (a b : A) : bool := leb_of String.compare (name a) (name b).

Definition parse_proc_net_dev (contents : string) : result ToolError (list NetDeviceStats) :=
  stats ← parse_lines net_dev_line (drop 2 (lines contents));
  Ok (sort_by (by_name nd_name) stats).

(** [raw.to_le_bytes()] in dotted form *)
Definition dotted (raw : Z) : string :=
  show_uint (raw mod 256) +:+ "." +:+ show_uint (raw / 256 mod 256) +:+ "." +:+
  show_uint (raw / 65536 mod 256) +:+ "." +:+ show_uint (raw / 16777216 mod 256).

Definition decode_proc_ipv4 (hex : string) : option string :=
  if negb (len hex =? 8) then None
  else raw ← ok (from_str_radix false 0 U32_MAX 16 hex); Some (dotted raw).

(** The longest run of zero segments, the first one of its length: (start, length). *)
Fixpoint zero_run (i : nat) (segments : list Z) (current longest : nat * nat) : nat * nat :=
  match segments with
  | [] => longest
  | segment :: rest =>
      if segment =? 0 then
        let current := ((if (current.2 =? 0)%nat then i else current.1), S current.2) in
        zero_run (S i) rest current (if (longest.2 <? current.2)%nat then current else longest)
      else zero_run (S i) rest (0%nat, 0%nat) longest
  end.

Definition hex_segments (segments : list Z) : string := join ":" (map show_hex segments).

(** [Display for Ipv6Addr] on the sixteen bytes of the address. *)
Definition ipv6_display (bytes : list Z) : string :=
  let segments := map (fun i => 256 * default 0 (bytes !! (2 * i)%nat) + default 0 (bytes !! (2 * i + 1)%nat))
                    (seq 0 8) in
  if bool_decide (take 6 segments = [0; 0; 0; 0; 0; 65535]) then
    "::ffff:" +:+ join "." (map show_uint (drop 12 bytes))
  else
    let '(start, length) := zero_run 0 segments (0%nat, 0%nat) (0%nat, 0%nat) in
    if (1 <? length)%nat
    then hex_segments (take start segments) +:+ "::" +:+ hex_segments (drop (start + length) segments)
    else hex_segments segments.

(** The loop of [decode_proc_ipv6]; [None] is its early return. *)
Fixpoint ipv6_bytes {E} (hex : string) (idx : list Z) : result E (option (list Z)) :=
  match idx with
  | [] => Ok (Some [])
  | i :: rest =>
      chunk ← str_slice hex (i * 2) (i * 2 + 2);
      match ok (from_str_radix false 0 U8_MAX 16 chunk) with
      | None => Ok None
      | Some b => bs ← ipv6_bytes hex rest; Ok (bs' ← bs; Some (b :: bs'))
      end
  end.

Definition decode_proc_ipv6 {E} (hex : string) : result E (option string) :=
  if negb (len hex =? 32) then Ok None
  else bytes ← ipv6_bytes (E := E) hex (seqZ 0 16); Ok (option_map ipv6_display bytes).

Definition route_line (trimmed : string) : result ToolError RouteEntry :=
  let columns := split_whitespace trimmed in
  fail_if (vlen columns <? 4) (too_few "/proc/net/route" "4" columns);;
  c0 ← index columns 0; c1 ← index columns 1; c2 ← index columns 2; c3 ← index columns 3;
  Ok {| ro_interface := c0;
        ro_destination := default ("hex:" +:+ c1) (decode_proc_ipv4 c1);
        ro_gateway := default ("hex:" +:+ c2) (decode_proc_ipv4 c2);
        ro_flags_hex := c3 |}.

Definition parse_proc_net_route (contents : string) : result ToolError (list RouteEntry) :=
  parse_lines route_line (drop 1 (lines contents)).

Definition socket_line (protocol : TransportProtocol) (trimmed : string) : result ToolError SocketEntry :=
  let columns := split_whitespace trimmed in
  fail_if (vlen columns <? 10) (too_few "/proc/net/*" "10" columns);;
  local ← index columns 1; state_hex ← index columns 3; c9 ← index columns 9;
  let inode := ok (parse_u64_of c9 "inode") in
  '(local_address_hex, local_port_hex) ←
    ok_or (split_once ":" local) (Parse "/proc/net/*" "socket missing local host:port");
  local_port ← map_err (fun err => Parse "/proc/net/*" ("invalid local port: " +:+ IntError_fmt err))
                 (from_str_radix false 0 U16_MAX 16 local_port_hex);
  local_address ← match protocol with
                  | Tcp | Udp => Ok (decode_proc_ipv4 local_address_hex)
                  | Tcp6 | Udp6 => decode_proc_ipv6 local_address_hex
                  end;
  Ok {| so_protocol := protocol;
        so_local_address := default ("hex:" +:+ local_address_hex) local_address;
        so_local_port := local_port; so_state_hex := state_hex; so_inode := inode |}.

Definition parse_proc_net_socket_table (contents : string) (protocol : TransportProtocol)
  : result ToolError (list SocketEntry) :=
  parse_lines (socket_line protocol) (drop 1 (lines contents)).

(** ** /proc/<pid> *)

Definition parse_proc_stat_line (line : string) : result ToolError ProcStat :=
  '(before_open, _) ← ok_or (split_once "(" line) (Parse "/proc/<pid>/stat" "missing open parenthesis");
  '(before_close, _) ← ok_or (rsplit_once ")" line) (Parse "/proc/<pid>/stat" "missing close parenthesis");
  let open := len before_open in
  let close := len before_close in
  fail_if (close <=? open) (Parse "/proc/<pid>/stat" "invalid command name segment");;
  pid_segment ← slice line 0 open;
  pid ← map_err (fun err => Parse "/proc/<pid>/stat" ("invalid pid: " +:+ IntError_fmt err))
          (parse_i32 (trim pid_segment));
  name ← slice line (open + 1) close;
  after ← slice line (close + 1) (len line);
  let fields := split_whitespace (trim after) in
  state ← ok_or (nth_error fields 0) (Parse "/proc/<pid>/stat" "missing process state");
  ppid_text ← ok_or (nth_error fields 1) (Parse "/proc/<pid>/stat" "missing parent pid");
  ppid ← map_err (fun err => Parse "/proc/<pid>/stat" ("invalid ppid: " +:+ IntError_fmt err))
           (parse_i32 ppid_text);
  Ok {| ps_pid := pid; ps_name := name; ps_state := state; ps_ppid := ppid |}.

Definition parse_proc_status_map (contents : string) : list (string * string) :=
  fold_left (fun m line => match split_once ":" line with
                           | Some (key, value) => bt_insert (trim key) (trim value) m
                           | None => m
                           end) (lines contents) [].

(** ** Hardware and release *)

Definition cpuinfo_step (s : CpuSummary) (line : string) : CpuSummary :=
  match split_once ":" line with
  | None => s
  | Some (key, value) =>
      let key := trim key in
      let value := trim value in
      if String.eqb key "processor"
      then {| cs_logical_cores := cs_logical_cores s + 1; cs_model_name := cs_model_name s;
              cs_vendor_id := cs_vendor_id s |}
      else if String.eqb key "model name" && bool_decide (cs_model_name s = None)
      then {| cs_logical_cores := cs_logical_cores s; cs_model_name := Some value;
              cs_vendor_id := cs_vendor_id s |}
      else if String.eqb key "vendor_id" && bool_decide (cs_vendor_id s = None)
      then {| cs_logical_cores := cs_logical_cores s; cs_model_name := cs_model_name s;
              cs_vendor_id := Some value |}
      else s
  end.

Definition parse_proc_cpuinfo (contents : string) : CpuSummary :=
  fold_left cpuinfo_step (lines contents)
    {| cs_logical_cores := 0; cs_model_name := None; cs_vendor_id := None |}.

Definition parse_kb_field (raw : string) : option u64 :=
  num ← nth_error (split_whitespace raw) 0; ok (parse_u64 num).

Definition parse_proc_meminfo (contents : string) : MemSummary :=
  fold_left (fun s line =>
    match split_once ":" line with
    | None => s
    | Some (key, value) =>
        if String.eqb (trim key) "MemTotal"
        then {| ms_mem_total_kb := parse_kb_field (trim value); ms_swap_total_kb := ms_swap_total_kb s |}
        else if String.eqb (trim key) "SwapTotal"
        then {| ms_mem_total_kb := ms_mem_total_kb s; ms_swap_total_kb := parse_kb_field (trim value) |}
        else s
    end) (lines contents) {| ms_mem_total_kb := None; ms_swap_total_kb := None |}.

Definition parse_os_release (contents : string) : list (string * string) :=
  fold_left (fun m line =>
    let trimmed := trim line in
    if is_empty trimmed || starts_with "#" trimmed then m
    else match split_once "=" trimmed with
         | Some (k, v) => bt_insert (trim k) (trim_matches_char QUOTE v) m
         | None => m
         end) (lines contents) [].

(** ** Addresses

    The kernel prints an address as 32-bit words in host order, here little endian:
    the bytes of each word appear in reverse. *)

Definition hex_upper (d : Z) : ascii := chr (if d <? 10 then 48 + d else 55 + d).
Definition hex2 (b : Z) : string := String (hex_upper (b / 16)) (String (hex_upper (b mod 16)) EmptyString).

Definition is_octet (b : Z) : Prop := 0 <= b < 256.

#[global] Instance IntErrorKind_eq_dec : EqDecision IntErrorKind.
Proof. solve_decision. Defined.

Definition hex2_ok (b : Z) : bool :=
  bool_decide (to_digit 16 (hex_upper (b / 16)) = Some (b / 16)) &&
  bool_decide (to_digit 16 (hex_upper (b mod 16)) = Some (b mod 16)) &&
  bytes_all is_ascii (hex2 b) && negb (Ascii.eqb (hex_upper (b / 16)) "+") &&
  negb (Ascii.eqb (hex_upper (b / 16)) "-") &&
  bool_decide (from_str_radix false 0 U8_MAX 16 (hex2 b) = Ok b).

Lemma hex2_table : forallb hex2_ok (seqZ 0 256) = true.
Proof. vm_compute. reflexivity. Qed.

Lemma hex2_spec b : is_octet b -> hex2_ok b = true.
Proof.
  intros Hb. pose proof hex2_table as H. rewrite forallb_forall in H. apply H.
  apply list_elem_of_In, elem_of_seqZ. unfold is_octet in Hb. lia.
Qed.

Lemma hex2_digits max acc b s : is_octet b -> 0 <= acc -> acc * 256 + b <= max ->
  int_digits 16 max acc (hex2 b +:+ s) = int_digits 16 max (acc * 256 + b) s.
Proof.
  intros Hb Ha Hm. pose proof (hex2_spec b Hb) as H. unfold hex2_ok in H. inv_result.
  unfold hex2. cbn [String.append int_digits]. rewrite H, H4. cbn [ok_or mbind result_bind].
  unfold is_octet in Hb. pose proof (Z.div_mod b 16 ltac:(lia)) as Hdm.
  pose proof (Z.mod_pos_bound b 16 ltac:(lia)). 
  replace (max <? acc * 16 + b / 16) with false by (symmetry; apply Z.ltb_ge; nia). cbn [fail_if mbind result_bind].
  replace ((acc * 16 + b / 16) * 16 + b mod 16) with (acc * 256 + b) by lia.
  by replace (max <? acc * 256 + b) with false by (symmetry; apply Z.ltb_ge; lia).
Qed.

Lemma len_hex2 bs : len (sconcat (map hex2 bs)) = 2 * vlen bs.
Proof. induction bs as [|b bs IH]; [done|]. cbn [map sconcat]. rewrite len_app, IH, vlen_cons. change (len (hex2 b)) with 2. lia. Qed.

(** The IPv4 address a.b.c.d is read back from the kernel's text. *)
Lemma decode_ipv4_kernel a b c d :
  is_octet a -> is_octet b -> is_octet c -> is_octet d ->
  decode_proc_ipv4 (sconcat (map hex2 [d; c; b; a])) =
  Some (show_uint a +:+ "." +:+ show_uint b +:+ "." +:+ show_uint c +:+ "." +:+ show_uint d).
Proof.
  intros Ha Hb Hc Hd. unfold decode_proc_ipv4. rewrite len_hex2. cbn [negb vlen length].
  change (2 * vlen [d; c; b; a] =? 8) with true. cbn [negb].
  assert (from_str_radix false 0 U32_MAX 16 (sconcat (map hex2 [d; c; b; a]))
    = Ok (((d * 256 + c) * 256 + b) * 256 + a)) as ->.
  { unfold is_octet, U32_MAX in *. pose proof (hex2_spec d Hd) as H. unfold hex2_ok in H. inv_result.
    unfold from_str_radix. cbn [map sconcat]. unfold hex2 at 1. cbn [String.append]. rewrite H2, H1. cbn [orb andb].
    rewrite !hex2_digits by (unfold is_octet; lia). cbn [int_digits]. f_equal. }
  cbn [ok mbind option_bind]. f_equal. unfold dotted, is_octet in *.
  set (raw := ((d * 256 + c) * 256 + b) * 256 + a).
  replace (raw mod 256) with a by (unfold raw; Z.to_euclidean_division_equations; lia).
  replace (raw / 256) with ((d * 256 + c) * 256 + b) by (unfold raw; Z.to_euclidean_division_equations; lia).
  replace (raw / 65536) with (d * 256 + c) by (unfold raw; Z.to_euclidean_division_equations; lia).
  replace (raw / 16777216) with d by (unfold raw; Z.to_euclidean_division_equations; lia).
  replace (((d * 256 + c) * 256 + b) mod 256) with b by (Z.to_euclidean_division_equations; lia).
  replace ((d * 256 + c) mod 256) with c by (Z.to_euclidean_division_equations; lia).
  by replace (d mod 256) with d by (Z.to_euclidean_division_equations; lia).
Qed.

(** The bytes of each 32-bit word in reverse. *)
Fixpoint swap_words (bytes : list Z) : list Z :=
  match bytes with
  | a :: b :: c :: d :: rest => d :: c :: b :: a :: swap_words rest
  | _ => []
  end.

Lemma hex2s_ascii bs : Forall is_octet bs -> bytes_all is_ascii (sconcat (map hex2 bs)) = true.
Proof.
  induction 1 as [|b bs Hb Hbs IH]; [done|]. cbn [map sconcat]. rewrite bytes_all_app, IH, andb_true_r.
  pose proof (hex2_spec b Hb) as H. unfold hex2_ok in H. by inv_result.
Qed.

Lemma ipv6_bytes_hex E pre bs : Forall is_octet pre -> Forall is_octet bs ->
  ipv6_bytes (E := E) (sconcat (map hex2 (pre ++ bs))) (seqZ (vlen pre) (vlen bs)) = Ok (Some bs).
Proof.
  intros Hpre Hbs. revert pre Hpre. induction Hbs as [|b bs Hb Hbs IH]; intros pre Hpre; [done|].
  pose proof (vlen_nonneg pre). pose proof (vlen_nonneg bs).
  rewrite vlen_cons, seqZ_cons by lia. replace (Z.succ (vlen pre)) with (vlen (pre ++ [b]))
    by (autorewrite with sentia; lia). replace (Z.pred (1 + vlen bs)) with (vlen bs) by lia.
  cbn [ipv6_bytes].
  assert (str_slice (E := E) (sconcat (map hex2 (pre ++ b :: bs))) (vlen pre * 2) (vlen pre * 2 + 2)
    = Ok (hex2 b)) as ->.
  { unfold str_slice. rewrite !ascii_boundary; cbn [andb].
    - rewrite map_app, sconcat_app. cbn [map sconcat].
      replace (vlen pre * 2) with (len (sconcat (map hex2 pre))) by (rewrite len_hex2; lia).
      match goal with |- slice (?x +:+ ?y +:+ ?z) _ _ = _ =>
        replace (len x + 2) with (len (x +:+ y +:+ z) - len z);
          [apply slice_middle|rewrite !len_app; change (len (hex2 b)) with 2; lia] end.
    - apply hex2s_ascii, Forall_app. by auto.
    - pose proof (len_hex2 (pre ++ b :: bs)) as Hl. autorewrite with sentia in Hl. unfold len in Hl. lia.
    - apply hex2s_ascii, Forall_app. by auto.
    - pose proof (len_hex2 (pre ++ b :: bs)) as Hl. autorewrite with sentia in Hl. unfold len in Hl. lia. }
  cbn [mbind result_bind]. pose proof (hex2_spec b Hb) as Hok. unfold hex2_ok in Hok. inv_result.
  match goal with H : from_str_radix _ _ _ _ _ = Ok b |- _ => rewrite H end. cbn [ok].
  replace (pre ++ b :: bs) with ((pre ++ [b]) ++ bs) by by rewrite <-app_assoc.
  rewrite IH; [done|]. apply Forall_app. by auto.
Qed.

Lemma swap_words_octets bytes : Forall is_octet bytes -> Forall is_octet (swap_words bytes).
Proof.
  enough (forall n l, (length l <= n)%nat -> Forall is_octet l -> Forall is_octet (swap_words l)) as H by eauto.
  induction n as [|n IH]; intros l Hn Hl; [by destruct l; [|cbn in Hn; lia]|].
  destruct l as [|a [|b [|c [|d l]]]]; try by constructor. cbn [swap_words].
  rewrite !Forall_cons in *. destruct Hl as (? & ? & ? & ? & Hl).
  do 4 (split; [done|]). apply IH; [cbn in Hn; lia|done].
Qed.

(** Addresses of listening sockets: an IPv4 address is read back from the kernel's
    text, but an IPv6 address is not: [decode_proc_ipv6] takes the digits in order,
    although the kernel prints each 32-bit word in host order, so what is reported is the
    address with the bytes of every word reversed; the loopback address ::1 is reported
    as ::100:0. *)
Theorem socket_addresses_decoded a b c d bytes :
  is_octet a -> is_octet b -> is_octet c -> is_octet d -> Forall is_octet bytes ->
  length (swap_words bytes) = 16%nat ->
  decode_proc_ipv4 (sconcat (map hex2 (swap_words [a; b; c; d]))) =
    Some (show_uint a +:+ "." +:+ show_uint b +:+ "." +:+ show_uint c +:+ "." +:+ show_uint d) /\
  decode_proc_ipv6 (E := ToolError) (sconcat (map hex2 (swap_words bytes))) =
    Ok (Some (ipv6_display (swap_words bytes))) /\
  ipv6_display [0; 0; 0; 0; 0; 0; 0; 0; 0; 0; 0; 0; 0; 0; 0; 1] = "::1" /\
  ipv6_display (swap_words [0; 0; 0; 0; 0; 0; 0; 0; 0; 0; 0; 0; 0; 0; 0; 1]) = "::100:0".
Proof.
  intros Ha Hb Hc Hd Hbs H16. split; [by apply decode_ipv4_kernel|]. split; [|by split].
  unfold decode_proc_ipv6. rewrite len_hex2. unfold vlen. rewrite H16.
  pose proof (ipv6_bytes_hex ToolError [] (swap_words bytes)) as H. cbn [app vlen length] in H.
  unfold vlen in H. rewrite H16 in H. cbn [negb Z.mul Z.of_nat Z.eqb].
  change (2 * Z.of_nat 16 =? 32) with true. cbn [negb].
  change (seqZ (Z.of_nat (length (@nil Z))) (Z.of_nat 16)) with (seqZ 0 16) in H.
  rewrite H; [done|done|by apply swap_words_octets].
Qed.

Lemma socket_addresses_decoded_witness :
  decode_proc_ipv4 "0100007F" = Some "127.0.0.1" /\
  decode_proc_ipv6 (E := ToolError) "00000000000000000000000001000000" = Ok (Some "::100:0").
Proof.
  destruct (socket_addresses_decoded 127 0 0 1 [0; 0; 0; 0; 0; 0; 0; 0; 0; 0; 0; 0; 0; 0; 0; 1])
    as (H4 & H6 & _); [unfold is_octet; lia..|repeat constructor; unfold is_octet; lia|reflexivity|].
  split; [exact H4|exact H6].
Defined.

(** ** Round trips *)

Lemma digits_lack sep s : is_ascii_digit sep = false -> bytes_all is_ascii_digit s = true -> lacks sep s = true.
Proof.
  intros Hsep. unfold lacks, bytes_all. rewrite !forallb_forall. intros H c Hc. apply H in Hc.
  destruct (Ascii.eqb_spec c sep) as [->|]; [congruence|done].
Qed.

Lemma len_cons c s : len (String c s) = 1 + len s.
Proof. unfold len. cbn [String.length]. lia. Qed.

Lemma words_lack sep ws : Ascii.eqb " " sep = false -> Forall (fun w => lacks sep w = true) ws ->
  lacks sep (join " " ws) = true.
Proof.
  intros Hsep. induction 1 as [|w ws Hw Hws IH]; [done|]. destruct ws as [|v ws]; [done|].
  change (join " " (w :: v :: ws)) with (w +:+ String " " (join " " (v :: ws))).
  rewrite lacks_app, lacks_cons, Hw, IH, Hsep. done.
Qed.

(** The three parts of a status line, cut where the parentheses were found. *)
Lemma stat_line_slices {E} p name fields :
  let line := stat_line p name fields in
  let open := len (p +:+ " ") in
  let close := len (p +:+ " (" +:+ name) in
  open < close /\ slice (E := E) line 0 open = Ok (p +:+ " ") /\
  slice (E := E) line (open + 1) close = Ok name /\
  slice (E := E) line (close + 1) (len line) = Ok fields.
Proof.
  cbn zeta. set (line := stat_line p name fields).
  pose proof (len_nonneg name) as Hn.
  assert (len (p +:+ " ") = len p + 1) as -> by by rewrite len_app.
  assert (len (p +:+ " (" +:+ name) = len p + 2 + len name) as ->
    by (rewrite !len_app; change (len " (") with 2; lia).
  assert (forall a m b, line = a +:+ m +:+ b -> slice (E := E) line (len a) (len line - len b) = Ok m)
    as Hslice by (intros a m b ->; apply slice_middle).
  assert (len line = len p + 3 + len name + len fields) as Hll
    by (unfold line, stat_line; rewrite !len_app; change (len " ") with 1; rewrite len_cons, len_app, len_cons; lia).
  split; [lia|]. split; [|split].
  - pose proof (Hslice EmptyString (p +:+ " ") (String "(" (name +:+ String ")" fields)) eq_refl) as H.
    rewrite len_cons, len_app, len_cons, Hll in H. change (len EmptyString) with 0 in H.
    rewrite <-H. f_equal. lia.
  - rewrite <-(Hslice (p +:+ " (") name (String ")" fields)).
    + rewrite Hll, len_app. change (len " (") with 2. rewrite len_cons. f_equal; lia.
    + unfold line, stat_line. by rewrite !str_app_assoc.
  - rewrite <-(Hslice (p +:+ " (" +:+ name +:+ ")") fields EmptyString).
    + rewrite !len_app. change (len " (") with 2. change (len ")") with 1. change (len EmptyString) with 0.
      f_equal; lia.
    + unfold line, stat_line. by rewrite app_empty_r, !str_app_assoc.
Qed.

(** Process lines are read back: whatever the process is called (its name may hold
    parentheses, spaces, digits or line feeds), [parse_proc_stat_line] returns the pid,
    the name, the state and the parent of the line the kernel prints. *)
Theorem proc_stat_round_trip pid name state ppid rest :
  0 <= pid <= I32_MAX -> 0 <= ppid <= I32_MAX -> Forall (fun w => is_word w = true) (state :: rest) ->
  Forall (fun w => lacks ")" w = true) (state :: rest) ->
  parse_proc_stat_line (stat_line (show_uint pid) name (" " +:+ join " " (state :: show_uint ppid :: rest)))
  = Ok {| ps_pid := pid; ps_name := name; ps_state := state; ps_ppid := ppid |}.
Proof.
  intros Hpid Hppid Hw Hl. apply Forall_cons in Hw as [Hws Hw]. apply Forall_cons in Hl as [Hls Hl].
  set (fields := " " +:+ join " " (state :: show_uint ppid :: rest)).
  assert (Forall (fun w => is_word w = true) (state :: show_uint ppid :: rest)) as Hwords
    by (repeat constructor; [done|apply show_uint_word|done]).
  assert (lacks ")" fields = true) as Hf.
  { unfold fields. rewrite lacks_app. apply words_lack; [done|].
    repeat constructor; [done|apply digits_lack; [done|apply show_uint_digits]|done]. }
  assert (lacks "(" (show_uint pid) = true) as Hp by (apply digits_lack; [done|apply show_uint_digits]).
  destruct (split_comm (show_uint pid) name fields Hp Hf) as [Hr Hs].
  destruct (stat_line_slices (E := ToolError) (show_uint pid) name fields) as (Hlt & H1 & H2 & H3).
  unfold parse_proc_stat_line. rewrite Hr, Hs. cbn [ok_or mbind result_bind].
  apply Z.leb_gt in Hlt. rewrite Hlt, H1. cbn [fail_if mbind result_bind].
  assert (trim (show_uint pid +:+ " ") = show_uint pid) as ->
    by apply (trim_solid 0 _ 1), solid_word, show_uint_word.
  assert (parse_i32 (show_uint pid) = Ok pid) as -> by by apply parse_show_uint. cbn [map_err mbind result_bind].
  rewrite H2, H3. cbn [mbind result_bind].
  assert (trim fields = join " " (state :: show_uint ppid :: rest)) as ->.
  { pose proof (trim_solid 1 _ 0 (solid_words _ Hwords)) as H. unfold spaces in H.
    cbn [repeat sconcat] in H. by rewrite !app_empty_r in H. }
  rewrite split_whitespace_join by done. cbn [nth_error ok_or mbind result_bind].
  by assert (parse_i32 (show_uint ppid) = Ok ppid) as -> by by apply parse_show_uint.
Qed.

Lemma proc_stat_round_trip_witness :
  parse_proc_stat_line "42 (a) R (b) S 1 42 0" =
  Ok {| ps_pid := 42; ps_name := "a) R (b"; ps_state := "S"; ps_ppid := 1 |}.
Proof.
  apply (proc_stat_round_trip 42 "a) R (b" "S" 1 ["42"; "0"]); [unfold I32_MAX; lia..|repeat constructor|repeat constructor].
Defined.
