(* ===== verification/ToolFiles.v ===== *)
(** * File and package tools (crates/sentia-tools/src/tools/filesystem.rs, packages.rs) *)

From Stdlib Require Import Ascii String.
From S2P Require Import Prelude RustStr RustText Contract Effects ToolTypes ToolRunner ToolParsers.

Section files.
Context `{UnicodeTables}.

Definition DF_CANDIDATES : list string := ["/bin/df"; "/usr/bin/df"].
Definition DPKG_QUERY_CANDIDATES : list string := ["/usr/bin/dpkg-query"; "/bin/dpkg-query"].

Record FilePathInput := { fp_path : string; fp_allow_sensitive : bool }.
Record DirectoryContentsInput := {
  dc_path : string; dc_limit : option usize; dc_include_hidden : bool; dc_allow_sensitive : bool;
}.
Record DirectoryEntrySummary := {
  de_name : string; de_path : string; de_file_type : string; de_mode_octal : string;
  de_size_bytes : option u64; de_symlink_target : option string;
}.

Definition denied (err : IoError) : bool := bool_decide (io_kind err = IoPermissionDenied).
Definition missing (err : IoError) : bool := bool_decide (io_kind err = IoNotFound).

Definition classify_file_type (k : FileKind) : string :=
  match k with
  | FkFile => "file"
  | FkDirectory => "directory"
  | FkSymlink => "symlink"
  | FkCharDevice => "char_device"
  | FkBlockDevice => "block_device"
  | FkFifo => "fifo"
  | FkSocket => "socket"
  | FkUnknown => "unknown"
  end.

(** [permissions().mode() & 0o7777] *)
Definition mode_bits (m : FileMetadata) : Z := Z.land (fm_mode m) 4095.

Definition file_exists (input : FilePathInput) : teff ToolResult :=
  let path := fp_path input in
  lift (enforce_path_policy path (fp_allow_sensitive input));;
  r ← perform (TryExists path);
  exists_ ← lift (io_or (fun err =>
    if denied err then PermissionDenied ("permission denied checking existence of " +:+ display path)
    else Io ("checking existence of " +:+ display path) (io_text err)) r);
  p ← lift (path_value path);
  ToolResult_new "file_exists" PotentiallySensitive 1
    [{| pr_source := "filesystem"; pr_detail := "std::fs::try_exists" |}] false
    (object [("path", p); ("exists", VBool exists_)]).

Definition file_type (input : FilePathInput) : teff ToolResult :=
  let path := fp_path input in
  lift (enforce_path_policy path (fp_allow_sensitive input));;
  r ← perform (SymlinkMetadata path);
  file_type_name ← lift (match r with
    | inr metadata => Ok (classify_file_type (fm_kind metadata))
    | inl err =>
        if missing err then Ok "missing"
        else if denied err
        then Err (PermissionDenied ("permission denied reading metadata for " +:+ display path))
        else Err (Io ("reading metadata for " +:+ display path) (io_text err))
    end);
  p ← lift (path_value path);
  ToolResult_new "file_type" PotentiallySensitive 1
    [{| pr_source := "filesystem"; pr_detail := "std::fs::symlink_metadata" |}] false
    (object [("path", p); ("file_type", VString file_type_name)]).

Definition file_permissions (input : FilePathInput) : teff ToolResult :=
  let path := fp_path input in
  lift (enforce_path_policy path (fp_allow_sensitive input));;
  r ← perform (SymlinkMetadata path);
  metadata ← lift (io_or (fun err =>
    if missing err then NotFound (display path +:+ " does not exist")
    else if denied err then PermissionDenied ("permission denied reading metadata for " +:+ display path)
    else Io ("reading metadata for " +:+ display path) (io_text err)) r);
  let mode := mode_bits metadata in
  p ← lift (path_value path);
  ToolResult_new "file_permissions" PotentiallySensitive 1
    [{| pr_source := "filesystem"; pr_detail := "std::fs::symlink_metadata + unix mode bits" |}] false
    (object [("path", p); ("mode", VInt mode); ("mode_octal", VString (show_octal4 mode));
             ("uid", VInt (fm_uid metadata)); ("gid", VInt (fm_gid metadata));
             ("readonly", VBool (Z.land (fm_mode metadata) 146 =? 0))]).

(** The loop over the entries of a directory. *)
Fixpoint list_entries (root : string) (include_hidden : bool) (entries : list (io string))
  : teff (list DirectoryEntrySummary) :=
  match entries with
  | [] => mret []
  | entry :: rest =>
      raw_name ← lift (io_or (fun err => Io "iterating directory" (io_text err)) entry);
      let name := from_utf8_lossy raw_name in
      if negb include_hidden && starts_with "." name then list_entries root include_hidden rest
      else
        let path := path_join root raw_name in
        r ← perform (SymlinkMetadata path);
        metadata ← lift (io_or (fun err => Io ("reading metadata for " +:+ display path) (io_text err)) r);
        symlink_target ←
          (if is_kind FkSymlink metadata then target ← perform (ReadLink path); mret (io_ok target)
           else mret None);
        more ← list_entries root include_hidden rest;
        mret ({| de_name := name; de_path := path; de_file_type := classify_file_type (fm_kind metadata);
                 de_mode_octal := show_octal4 (mode_bits metadata);
                 de_size_bytes := if is_kind FkFile metadata then Some (fm_size metadata) else None;
                 de_symlink_target := symlink_target |} :: more)
  end.

(** [Serialize for DirectoryEntrySummary] *)
Definition entry_value {E} (e : DirectoryEntrySummary) : result E Value :=
  path ← path_value (de_path e);
  target ← match de_symlink_target e with Some t => path_value t | None => Ok VNull end;
  Ok (object [("name", VString (de_name e)); ("path", path); ("file_type", VString (de_file_type e));
              ("mode_octal", VString (de_mode_octal e)); ("size_bytes", VOption VInt (de_size_bytes e));
              ("symlink_target", target)]).

Definition directory_contents (input : DirectoryContentsInput) : teff ToolResult :=
  let path := dc_path input in
  lift (enforce_path_policy path (dc_allow_sensitive input));;
  limit ← lift (bounded_limit (dc_limit input) DEFAULT_DIRECTORY_LIMIT MAX_DIRECTORY_LIMIT "limit");
  r ← perform (SymlinkMetadata path);
  meta ← lift (io_or (fun err =>
    if missing err then NotFound (display path +:+ " does not exist")
    else if denied err then PermissionDenied ("permission denied reading " +:+ display path)
    else Io ("reading " +:+ display path) (io_text err)) r);
  lift (fail_if (is_kind FkSymlink meta)
          (InvalidInput "directory path must not be a symlink target to reduce race risk"));;
  lift (fail_if (negb (is_kind FkDirectory meta)) (InvalidInput "path is not a directory"));;
  r ← perform (ReadDir path);
  read_dir ← lift (io_or (fun err =>
    if denied err then PermissionDenied ("permission denied listing directory " +:+ display path)
    else Io ("listing directory " +:+ display path) (io_text err)) r);
  entries ← list_entries path (dc_include_hidden input) read_dir;
  let entries := sort_by (by_name de_name) entries in
  let partial := limit <? vlen entries in
  let entries := if partial then take (Z.to_nat limit) entries else entries in
  p ← lift (path_value path);
  values ← lift (map_result entry_value entries);
  ToolResult_new "directory_contents" PotentiallySensitive 2
    [{| pr_source := "filesystem"; pr_detail := "std::fs::read_dir + symlink_metadata" |}] partial
    (object [("path", p); ("entries", VArray values); ("include_hidden", VBool (dc_include_hidden input));
             ("limit", VInt limit)]).

Definition parse_u64_field (value field : string) : result ToolError u64 :=
  map_err (fun err => Parse ("df " +:+ field) (IntError_fmt err)) (parse_u64 value).

(** What [disk_usage] reads from the output of df. *)
Definition parse_df (path : string) (output : CommandOutput) : result ToolError Value :=
  let lines := filter (fun line => is_empty line = false) (map trim (lines (co_stdout output))) in
  _ ← ok_or (nth_error lines 0) (Parse "df" "missing output header");
  data_line ← ok_or (nth_error lines 1) (Parse "df" "missing output data");
  let fields := split_whitespace data_line in
  fail_if (vlen fields <? 7) (Parse "df" ("expected >=7 columns, got " +:+ show_uint (vlen fields)));;
  source ← index fields 0; fstype ← index fields 1;
  f2 ← index fields 2; size_bytes ← parse_u64_field f2 "size";
  f3 ← index fields 3; used_bytes ← parse_u64_field f3 "used";
  f4 ← index fields 4; avail_bytes ← parse_u64_field f4 "avail";
  f5 ← index fields 5;
  used_percent ← map_err (fun err => Parse "df pcent" (IntError_fmt err)) (parse_u8 (trim_end_char "%" f5));
  p ← path_value path;
  Ok (object [("path", p); ("filesystem", VString source); ("filesystem_type", VString fstype);
              ("size_bytes", VInt size_bytes); ("used_bytes", VInt used_bytes);
              ("available_bytes", VInt avail_bytes); ("used_percent", VInt used_percent);
              ("mount_point", VString (join " " (drop 6 fields)))]).

Definition disk_usage (input : FilePathInput) : teff ToolResult :=
  let path := fp_path input in
  lift (enforce_path_policy path (fp_allow_sensitive input));;
  r ← perform (TryExists path);
  exists_ ← lift (io_or (fun err =>
    if denied err then PermissionDenied ("permission denied checking " +:+ display path)
    else Io ("checking " +:+ display path) (io_text err)) r);
  lift (fail_if (negb exists_) (NotFound ("path " +:+ display path +:+ " does not exist")));;
  found ← first_available_executable DF_CANDIDATES;
  df ← lift (ok_or found (Unavailable "df executable not available"));
  output ← run_command df ["--block-size=1"; "--output=source,fstype,size,used,avail,pcent,target"; "--";
                           display path]
             DEFAULT_TIMEOUT_SECS DEFAULT_OUTPUT_LIMIT "disk_usage";
  lift (if negb (co_status_code output =? 0) then
          if contains "permission denied" (to_lowercase (co_stderr output))
          then Err (PermissionDenied (trim (co_stderr output)))
          else Err (Unavailable ("df failed (exit " +:+ show_int (co_status_code output) +:+ "): "
                                 +:+ trim (co_stderr output)))
        else Ok tt);;
  data ← lift (parse_df path output);
  ToolResult_new "disk_usage" SystemMetadata DEFAULT_TIMEOUT_SECS
    [{| pr_source := "subprocess";
        pr_detail := df +:+ " --output=source,fstype,size,used,avail,pcent,target" |}]
    (co_stdout_truncated output || co_stderr_truncated output) data.

(** ** packages.rs *)

(** The packages named before the colon of a line of dpkg-query, in the order printed. *)
Definition owners_of_line (line : string) : list string :=
  match split_once_str ": " line with
  | Some (packages_part, _) =>
      filter (fun p => is_empty p = false) (map trim (split_char "," packages_part))
  | None => []
  end.

Definition parse_owners (stdout : string) : list string :=
  dedup (sort_by (leb_of String.compare) (List.concat (map owners_of_line (lines stdout)))).

Definition package_owns_file (input : FilePathInput) : teff ToolResult :=
  let path := fp_path input in
  lift (enforce_path_policy path (fp_allow_sensitive input));;
  found ← first_available_executable DPKG_QUERY_CANDIDATES;
  dpkg_query ← lift (ok_or found (Unavailable "dpkg-query not available on this host"));
  output ← run_command dpkg_query ["-S"; "--"; display path] DEFAULT_TIMEOUT_SECS DEFAULT_OUTPUT_LIMIT
             "package_owns_file";
  lift (if negb (co_status_code output =? 0) then
          let stderr := to_lowercase (co_stderr output) in
          if contains "no path found matching pattern" stderr
          then Err (NotFound ("no installed package owns " +:+ display path))
          else if contains "permission denied" stderr
          then Err (PermissionDenied (trim (co_stderr output)))
          else Err (Unavailable ("dpkg-query failed (exit " +:+ show_int (co_status_code output) +:+ "): "
                                 +:+ trim (co_stderr output)))
        else Ok tt);;
  let owners := parse_owners (co_stdout output) in
  lift (fail_if (match owners with [] => true | _ => false end)
          (Parse "dpkg-query -S" "unable to parse package ownership output"));;
  p ← lift (path_value path);
  ToolResult_new "package_owns_file" SystemMetadata DEFAULT_TIMEOUT_SECS
    [{| pr_source := "subprocess"; pr_detail := dpkg_query +:+ " -S -- <path>" |}]
    (co_stdout_truncated output || co_stderr_truncated output)
    (object [("path", p); ("owners", VStrings owners)]).
End files.
