(* ===== verification/ToolCommands.v ===== *)
(** * Command, log and service tools
    (crates/sentia-tools/src/tools/commands.rs, logs.rs, services.rs) *)

From Stdlib Require Import Ascii String.
From S2P Require Import Prelude RustStr RustText Contract Effects ToolTypes ToolRunner ToolParsers ToolFiles.

Section commands.
Context `{UnicodeTables}.

(** ** commands.rs *)

Definition SAFE_COMMAND_PATHS : list string :=
  ["/usr/local/sbin"; "/usr/local/bin"; "/usr/sbin"; "/usr/bin"; "/sbin"; "/bin"].
Definition MAN_CANDIDATES : list string := ["/usr/bin/man"; "/bin/man"].

Record CommandInput := { ci_command : string }.
Record CommandHelpInput := { ch_command : string; ch_section : option string; ch_max_chars : option usize }.
Record CommandHistoryEntry := {
  he_command : string; he_cwd : option string; he_exit_code : option Z; he_timestamp : option string;
}.
Record CommandHistoryInput := {
  hi_entries : list CommandHistoryEntry; hi_query : option string; hi_limit : option usize;
  hi_failures_only : bool;
}.

Fixpoint lookup_in (command : string) (prefixes : list string) : teff (option string) :=
  match prefixes with
  | [] => mret None
  | prefix :: rest =>
      let candidate := path_join prefix command in
      metadata ← perform (Metadata candidate);
      if match metadata with inr m => runnable m | inl _ => false end
      then mret (Some candidate) else lookup_in command rest
  end.
Definition lookup_command_path (command : string) : teff (option string) :=
  lookup_in command SAFE_COMMAND_PATHS.

Definition searched : list Provenance :=
  [{| pr_source := "filesystem"; pr_detail := "searched fixed executable paths" |}].

Definition command_exists (input : CommandInput) : teff ToolResult :=
  lift (validate_command_token (ci_command input));;
  path ← lookup_command_path (ci_command input);
  p ← lift (match path with Some p => path_value p | None => Ok VNull end);
  ToolResult_new "command_exists" PublicMetadata 1 searched false
    (object [("command", VString (ci_command input));
             ("exists", VBool (match path with Some _ => true | None => false end));
             ("path", p); ("searched_paths", VStrings SAFE_COMMAND_PATHS)]).

Definition command_missing (command : string) : ToolError := NotFound ("command '" +:+ command +:+ "' not found").

Definition command_lookup (input : CommandInput) : teff ToolResult :=
  lift (validate_command_token (ci_command input));;
  found ← lookup_command_path (ci_command input);
  path ← lift (ok_or found (command_missing (ci_command input)));
  p ← lift (path_value path);
  ToolResult_new "command_lookup" PublicMetadata 1 searched false
    (object [("command", VString (ci_command input)); ("path", p);
             ("searched_paths", VStrings SAFE_COMMAND_PATHS)]).

Definition section_char (c : ascii) : bool := is_ascii_alphanumeric c || one_of ".-" c.

Definition validate_optional_man_section (section : option string) : result ToolError unit :=
  match section with
  | None => Ok tt
  | Some section =>
      fail_if (is_empty section || (16 <? len section)) (InvalidInput "man section must be 1..=16 characters");;
      fail_if (negb (bytes_all section_char section)) (InvalidInput "man section contains unsupported characters")
  end.

Definition build_man_args (mode : string) (section : option string) (command : string) : list string :=
  mode :: match section with Some s => [s] | None => [] end ++ [command].

Definition query_owning_packages (command_path : string) : teff (list string) :=
  found ← first_available_executable DPKG_QUERY_CANDIDATES;
  dpkg_query ← lift (ok_or found (Unavailable "dpkg-query not available"));
  output ← run_command dpkg_query ["-S"; "--"; display command_path] DEFAULT_TIMEOUT_SECS DEFAULT_OUTPUT_LIMIT
             "command_help:dpkg_query";
  mret (if negb (co_status_code output =? 0) then [] else parse_owners (co_stdout output)).

(** The loop over the documentation directory; the paths in the order listed. *)
Fixpoint doc_paths (root : string) (entries : list (io string)) : result ToolError (list string) :=
  match entries with
  | [] => Ok []
  | entry :: rest =>
      raw_name ← io_or (fun err => Io "iterating package doc dir" (io_text err)) entry;
      let path := path_join root raw_name in
      more ← doc_paths root rest;
      Ok (match file_name path with
          | Some name =>
              let lower := to_lowercase name in
              if valid_utf8 name
                 && (starts_with "readme" lower || starts_with "changelog" lower
                     || starts_with "copyright" lower || contains "debian" lower)
              then display path :: more else more
          | None => more
          end)
  end.

Definition list_authoritative_package_docs (package : string) : teff (list string) :=
  let package_base := default package (nth_error (split_char ":" package) 0) in
  let doc_root := path_join "/usr/share/doc" package_base in
  r ← perform (ReadDir doc_root);
  match r with
  | inl err =>
      if missing err then mret []
      else if denied err
      then lift (Err (PermissionDenied ("cannot read package docs at " +:+ display doc_root +:+ ": " +:+ io_text err)))
      else lift (Err (Io ("reading " +:+ display doc_root) (io_text err)))
  | inr entries =>
      paths ← lift (doc_paths doc_root entries);
      mret (sort_by (leb_of String.compare) paths)
  end.

Definition select_plaintext_doc (paths : list string) : option string :=
  List.find (fun path => negb (match extension path with
                               | Some ext => String.eqb ext "gz"
                               | None => false
                               end)) paths.

Definition normalize_excerpt (raw : string) (max_chars : usize) : string :=
  trim (take_chars (Z.to_nat max_chars) raw).

(** Packages and their documentation, tried when no manual page was rendered. *)
Definition package_documentation (command_path : string) (max_chars : usize)
  : teff (list string * list string * string) :=
  packages ← query_owning_packages command_path;
  match packages with
  | [] => mret ([], [], EmptyString)
  | primary_package :: _ =>
      package_doc_paths ← list_authoritative_package_docs primary_package;
      match select_plaintext_doc package_doc_paths with
      | None => mret (packages, package_doc_paths, EmptyString)
      | Some first_doc =>
          content ← perform (ReadToString first_doc);
          mret (packages, package_doc_paths,
                match content with
                | inr content => normalize_excerpt content max_chars
                | inl _ => EmptyString
                end)
      end
  end.

Definition command_help (input : CommandHelpInput) : teff ToolResult :=
  let command := ch_command input in
  lift (validate_command_token command);;
  lift (validate_optional_man_section (ch_section input));;
  max_chars ← lift (bounded_limit (ch_max_chars input) 12000 60000 "max_chars");
  let max_output := Z.max 8192 (Z.min (DEFAULT_OUTPUT_LIMIT * 4) (Z.min USIZE_MAX (max_chars * 2))) in
  found ← lookup_command_path command;
  command_path ← lift (ok_or found (command_missing command));
  found ← first_available_executable MAN_CANDIDATES;
  man_exe ← lift (ok_or found (Unavailable "man executable not available"));
  man_where ← run_command man_exe (build_man_args "--where" (ch_section input) command)
                DEFAULT_TIMEOUT_SECS DEFAULT_OUTPUT_LIMIT "command_help:man_where";
  let man_locations :=
    if co_status_code man_where =? 0
    then filter (fun line => is_empty line = false) (map trim (lines (co_stdout man_where))) else [] in
  man_render ← run_command man_exe (build_man_args "--pager=cat" (ch_section input) command)
                 DEFAULT_TIMEOUT_SECS max_output "command_help:man_render";
  let excerpt := if co_status_code man_render =? 0 then normalize_excerpt (co_stdout man_render) max_chars
                 else EmptyString in
  '(packages, package_doc_paths, excerpt) ←
    (if is_empty excerpt then package_documentation command_path max_chars else mret ([], [], excerpt));
  lift (fail_if (is_empty excerpt && match man_locations with [] => true | _ => false end
                 && match package_doc_paths with [] => true | _ => false end)
          (NotFound ("no authoritative man or package documentation found for '" +:+ command
                     +:+ "'; unsafe --help execution is disabled")));;
  p ← lift (path_value command_path);
  ToolResult_new "command_help" SystemMetadata DEFAULT_TIMEOUT_SECS
    [{| pr_source := "subprocess"; pr_detail := man_exe +:+ " (--where / rendered man page)" |};
     {| pr_source := "filesystem"; pr_detail := "optional /usr/share/doc package files" |}]
    (co_stdout_truncated man_where || co_stderr_truncated man_where
     || co_stdout_truncated man_render || co_stderr_truncated man_render
     || (max_chars <=? char_count excerpt))
    (object [("command", VString command); ("command_path", p); ("man_locations", VStrings man_locations);
             ("packages", VStrings packages); ("package_doc_paths", VStrings package_doc_paths);
             ("excerpt", VString excerpt);
             ("source_policy", VString "never executes command-selected binaries for help text")]).

(** Which entries of the history are kept. *)
Definition history_match (query : option string) (failures_only : bool) (entry : CommandHistoryEntry) : bool :=
  negb (is_empty (trim (he_command entry))) && negb (4096 <? len (he_command entry))
  && negb (failures_only && (default 0 (he_exit_code entry) =? 0))
  && match query with
     | Some query => contains query (to_lowercase (he_command entry))
     | None => true
     end.

(** The loop, which stops once [limit] entries were kept. *)
Fixpoint filter_history (query : option string) (failures_only : bool) (limit kept : usize)
    (entries : list CommandHistoryEntry) : list CommandHistoryEntry :=
  match entries with
  | [] => []
  | entry :: rest =>
      if history_match query failures_only entry then
        entry :: (if limit <=? kept + 1 then [] else filter_history query failures_only limit (kept + 1) rest)
      else filter_history query failures_only limit kept rest
  end.

Definition history_value {E} (e : CommandHistoryEntry) : result E Value :=
  cwd ← match he_cwd e with Some p => path_value p | None => Ok VNull end;
  Ok (object [("command", VString (he_command e)); ("cwd", cwd); ("exit_code", VOption VInt (he_exit_code e));
              ("timestamp", VOption VString (he_timestamp e))]).

Definition command_history (input : CommandHistoryInput) : teff ToolResult :=
  lift (fail_if (match hi_entries input with [] => true | _ => false end)
          (Unavailable "history unavailable: only explicitly provided history context is supported"));;
  lift (fail_if (MAX_HISTORY_ENTRIES <? vlen (hi_entries input)) (InvalidInput "entries exceeds maximum 2000"));;
  limit ← lift (bounded_limit (hi_limit input) DEFAULT_HISTORY_LIMIT MAX_HISTORY_LIMIT "limit");
  let filtered := filter_history (to_lowercase <$> hi_query input) (hi_failures_only input) limit 0
                    (hi_entries input) in
  values ← lift (map_result history_value filtered);
  ToolResult_new "command_history" PotentiallySensitive 1
    [{| pr_source := "explicit_context";
        pr_detail := "operates only on caller-supplied history entries; never reads shell history files" |}]
    (limit <=? vlen filtered)
    (object [("entries", VArray values); ("query", VOption VString (hi_query input)); ("limit", VInt limit);
             ("failures_only", VBool (hi_failures_only input));
             ("history_source", VString "explicit_input_only")]).

(** ** logs.rs *)

Definition JOURNALCTL_CANDIDATES : list string := ["/usr/bin/journalctl"; "/bin/journalctl"].

Record JournalRecentInput := { jr_lines : option usize; jr_unit : option string }.
Record LogLinesInput := { ll_lines : option usize }.

Definition collect_nonempty_lines (content : string) (max : usize) : list string :=
  take (Z.to_nat max) (filter (fun line => is_empty line = false) (map trim (lines content))).

Definition classify_journal_failure (exit_code : Z) (stderr operation : string) : ToolError :=
  let lower := to_lowercase stderr in
  if contains "permission denied" lower || contains "not permitted" lower || contains "access denied" lower
  then PermissionDenied (trim stderr)
  else if contains "system has not been booted with systemd" lower
          || contains "no journal files were found" lower || contains "failed to connect to bus" lower
  then Unavailable (operation +:+ " unavailable: " +:+ trim stderr)
  else Unavailable ("journalctl failed for " +:+ operation +:+ " (exit " +:+ show_int exit_code +:+ "): "
                    +:+ trim stderr).

(** The common part: run journalctl and keep the lines. *)
Definition journal_lines (journalctl : string) (args : list string) (lines : usize) (operation : string)
  : teff (CommandOutput * list string) :=
  output ← run_command journalctl args DEFAULT_TIMEOUT_SECS DEFAULT_OUTPUT_LIMIT operation;
  lift (if negb (co_status_code output =? 0)
        then Err (classify_journal_failure (co_status_code output) (co_stderr output) operation) else Ok tt);;
  mret (output, collect_nonempty_lines (co_stdout output) lines).

Definition journal_partial (output : CommandOutput) (entries : list string) (lines : usize) : bool :=
  co_stdout_truncated output || co_stderr_truncated output || (lines <=? vlen entries).

Definition journal_recent (input : JournalRecentInput) : teff ToolResult :=
  lines ← lift (bounded_limit (jr_lines input) DEFAULT_LOG_LINES MAX_LOG_LINES "lines");
  found ← first_available_executable JOURNALCTL_CANDIDATES;
  journalctl ← lift (ok_or found (Unavailable "journalctl is not available"));
  normalized_unit ← lift (match jr_unit input with
                          | Some unit => Some <$> normalize_service_name unit
                          | None => Ok None
                          end);
  let args := ["--no-pager"; "--output=short-iso"; "--lines"; show_uint lines]
              ++ match normalized_unit with Some unit => ["--unit"; unit] | None => [] end in
  '(output, entries) ← journal_lines journalctl args lines "journal_recent";
  ToolResult_new "journal_recent" PotentiallySensitive DEFAULT_TIMEOUT_SECS
    [{| pr_source := "subprocess"; pr_detail := journalctl +:+ " --output=short-iso --lines N" |}]
    (journal_partial output entries lines)
    (object [("entries", VStrings entries); ("lines", VInt lines); ("unit", VOption VString normalized_unit)]).

(** [journal_errors] and [kernel_logs] differ in one option. *)
Definition journal_filtered (operation option : string) (input : LogLinesInput) : teff ToolResult :=
  lines ← lift (bounded_limit (ll_lines input) DEFAULT_LOG_LINES MAX_LOG_LINES "lines");
  found ← first_available_executable JOURNALCTL_CANDIDATES;
  journalctl ← lift (ok_or found (Unavailable "journalctl is not available"));
  '(output, entries) ← journal_lines journalctl
    ["--no-pager"; "--output=short-iso"; option; "--lines"; show_uint lines] lines operation;
  ToolResult_new operation PotentiallySensitive DEFAULT_TIMEOUT_SECS
    [{| pr_source := "subprocess"; pr_detail := journalctl +:+ " " +:+ option +:+ " --lines N" |}]
    (journal_partial output entries lines)
    (object [("entries", VStrings entries); ("lines", VInt lines)]).

Definition journal_errors : LogLinesInput -> teff ToolResult := journal_filtered "journal_errors" "--priority=3".
Definition kernel_logs : LogLinesInput -> teff ToolResult := journal_filtered "kernel_logs" "--dmesg".

(** ** services.rs *)

Definition SYSTEMCTL_CANDIDATES : list string := ["/bin/systemctl"; "/usr/bin/systemctl"].

Record ServiceListInput := { sl_limit : option usize; sl_include_inactive : bool }.
Record ServiceStatusInput := { st_service : string }.
Record ServiceUnitSummary := {
  su_unit : string; su_load_state : string; su_active_state : string; su_sub_state : string;
  su_description : string;
}.

Definition classify_systemctl_failure (exit_code : Z) (stderr context : string) : ToolError :=
  let lower := to_lowercase stderr in
  if contains "system has not been booted with systemd" lower || contains "failed to connect to bus" lower
     || contains "no such file or directory" lower
  then Unavailable (context +:+ " unavailable: " +:+ trim stderr)
  else if contains "access denied" lower || contains "permission denied" lower
  then PermissionDenied (trim stderr)
  else if contains "not found" lower || contains "could not be found" lower then NotFound (trim stderr)
  else Unavailable ("systemctl failed for " +:+ context +:+ " (exit " +:+ show_int exit_code +:+ "): "
                    +:+ trim stderr).

(** The loop over the lines of list-units, which stops at [limit] units. *)
Fixpoint parse_units (limit kept : usize) (lines : list string) : list ServiceUnitSummary :=
  match lines with
  | [] => []
  | line :: rest =>
      match split_whitespace (trim line) with
      | unit :: load_state :: active_state :: sub_state :: (_ :: _) as description =>
          {| su_unit := unit; su_load_state := load_state; su_active_state := active_state;
             su_sub_state := sub_state; su_description := join " " description |}
          :: (if limit <=? kept + 1 then [] else parse_units limit (kept + 1) rest)
      | _ => parse_units limit kept rest
      end
  end.

Definition unit_value (u : ServiceUnitSummary) : Value :=
  object [("unit", VString (su_unit u)); ("load_state", VString (su_load_state u));
          ("active_state", VString (su_active_state u)); ("sub_state", VString (su_sub_state u));
          ("description", VString (su_description u))].

Definition service_list (input : ServiceListInput) : teff ToolResult :=
  limit ← lift (bounded_limit (sl_limit input) DEFAULT_LIST_LIMIT MAX_LIST_LIMIT "limit");
  found ← first_available_executable SYSTEMCTL_CANDIDATES;
  systemctl ← lift (ok_or found (Unavailable "systemctl is not available"));
  let args := ["list-units"; "--type=service"; "--no-pager"; "--no-legend"; "--plain"]
              ++ (if sl_include_inactive input then ["--all"] else []) in
  output ← run_command systemctl args DEFAULT_TIMEOUT_SECS DEFAULT_OUTPUT_LIMIT "service_list";
  lift (if negb (co_status_code output =? 0)
        then Err (classify_systemctl_failure (co_status_code output) (co_stderr output) "service listing")
        else Ok tt);;
  let units := parse_units limit 0 (lines (co_stdout output)) in
  ToolResult_new "service_list" SystemMetadata DEFAULT_TIMEOUT_SECS
    [{| pr_source := "subprocess"; pr_detail := systemctl +:+ " list-units --type=service ..." |}]
    (co_stdout_truncated output || co_stderr_truncated output || (limit <=? vlen units))
    (object [("services", VArray (map unit_value units));
             ("include_inactive", VBool (sl_include_inactive input)); ("limit", VInt limit)]).

Definition STATUS_PROPERTIES : string :=
  "--property=Id,Description,LoadState,ActiveState,SubState,UnitFileState,MainPID,ExecMainStatus,FragmentPath".

Definition service_status (input : ServiceStatusInput) : teff ToolResult :=
  service ← lift (normalize_service_name (st_service input));
  found ← first_available_executable SYSTEMCTL_CANDIDATES;
  systemctl ← lift (ok_or found (Unavailable "systemctl is not available"));
  output ← run_command systemctl ["show"; "--no-pager"; STATUS_PROPERTIES; service]
             DEFAULT_TIMEOUT_SECS DEFAULT_OUTPUT_LIMIT "service_status";
  lift (if negb (co_status_code output =? 0)
        then Err (classify_systemctl_failure (co_status_code output) (co_stderr output)
                    ("service status for " +:+ service))
        else Ok tt);;
  let status := fold_left (fun m line => match split_once "=" line with
                                         | Some (k, v) => bt_insert k v m
                                         | None => m
                                         end) (lines (co_stdout output)) [] in
  lift (fail_if (match status with [] => true | _ => false end)
          (Parse "systemctl show" "empty service status output"));;
  ToolResult_new "service_status" SystemMetadata DEFAULT_TIMEOUT_SECS
    [{| pr_source := "subprocess"; pr_detail := systemctl +:+ " show --property=... <service>" |}]
    (co_stdout_truncated output || co_stderr_truncated output)
    (object [("service", VString service);
             ("status", VObject (map (fun '(k, v) => (k, VString v)) status))]).
End commands.
