(* ===== verification/ToolSystem.v ===== *)
(** * Network, process and system tools
    (crates/sentia-tools/src/tools/network.rs, processes.rs, system.rs) *)

From Stdlib Require Import Ascii String.
From S2P Require Import Prelude RustStr RustText Contract Effects ToolTypes ToolRunner ToolParsers ToolFiles.

(** [fs::read_to_string(path).ok()], trimmed, unless empty. *)
Definition read_trimmed_optional (path : string) : teff (option string) :=
  r ← perform (ReadToString path);
  mret (match r with
        | inr value => let value := trim value in if is_empty value then None else Some value
        | inl _ => None
        end).

(** ** network.rs *)

Definition PROC_NET_DEV : string := "/proc/net/dev".
Definition PROC_NET_ROUTE : string := "/proc/net/route".
Definition PROC_NET_TCP : string := "/proc/net/tcp".
Definition PROC_NET_TCP6 : string := "/proc/net/tcp6".
Definition PROC_NET_UDP : string := "/proc/net/udp".
Definition PROC_NET_UDP6 : string := "/proc/net/udp6".

Record ListeningPortsInput := { lp_limit : option usize; lp_include_udp : bool }.

Record NetworkInterfaceSummary := {
  ni_name : string; ni_operstate : option string; ni_mac_address : option string; ni_mtu : option u64;
  ni_flags_hex : option string; ni_rx_bytes : option u64; ni_tx_bytes : option u64;
}.

Fixpoint interfaces_of (stats_by_name : list (string * NetDeviceStats)) (entries : list (io string))
  : teff (list NetworkInterfaceSummary) :=
  match entries with
  | [] => mret []
  | entry :: rest =>
      raw_name ← lift (io_or (fun err => Io "iterating /sys/class/net" (io_text err)) entry);
      let name := from_utf8_lossy raw_name in
      let base := path_join "/sys/class/net" raw_name in
      operstate ← read_trimmed_optional (path_join base "operstate");
      mac_address ← read_trimmed_optional (path_join base "address");
      mtu ← read_trimmed_optional (path_join base "mtu");
      flags_hex ← read_trimmed_optional (path_join base "flags");
      let stats := member name stats_by_name in
      more ← interfaces_of stats_by_name rest;
      mret ({| ni_name := name; ni_operstate := operstate; ni_mac_address := mac_address;
               ni_mtu := (value ← mtu; ok (parse_u64 value));
               ni_flags_hex := trim_start_matches "0x" <$> flags_hex;
               ni_rx_bytes := nd_rx_bytes <$> stats; ni_tx_bytes := nd_tx_bytes <$> stats |} :: more)
  end.

Definition collect_interfaces : teff (list NetworkInterfaceSummary) :=
  net_dev ← read_text_file_bounded PROC_NET_DEV (512 * 1024);
  dev_stats ← lift (parse_proc_net_dev net_dev);
  let stats_by_name := bt_of (map (fun stat => (nd_name stat, stat)) dev_stats) in
  r ← perform (ReadDir "/sys/class/net");
  entries ← lift (io_or (fun err => Io "reading /sys/class/net" (io_text err)) r);
  interfaces ← interfaces_of stats_by_name entries;
  mret (sort_by (by_name ni_name) interfaces).

Definition collect_routes : teff (list RouteEntry) :=
  route_text ← read_text_file_bounded PROC_NET_ROUTE (256 * 1024);
  lift (parse_proc_net_route route_text).

Definition read_and_parse_socket_file (path : string) (protocol : TransportProtocol)
    (require_tcp_listen : bool) : teff (list SocketEntry) :=
  content ← read_text_file_bounded path (512 * 1024);
  entries ← lift (parse_proc_net_socket_table content protocol);
  mret (List.filter (fun entry =>
    if so_local_port entry =? 0 then false
    else if require_tcp_listen then String.eqb (so_state_hex entry) "0A" else true) entries).

Definition collect_listening_ports_internal (include_udp : bool) : teff (list SocketEntry) :=
  tcp ← read_and_parse_socket_file PROC_NET_TCP Tcp true;
  tcp6 ← read_and_parse_socket_file PROC_NET_TCP6 Tcp6 true;
  if include_udp then
    udp ← read_and_parse_socket_file PROC_NET_UDP Udp false;
    udp6 ← read_and_parse_socket_file PROC_NET_UDP6 Udp6 false;
    mret (tcp ++ tcp6 ++ udp ++ udp6)
  else mret (tcp ++ tcp6).

Definition count {A} (p : A -> bool) (l : list A) : Z := vlen (List.filter p l).

Definition is_tcp (entry : SocketEntry) : bool :=
  match so_protocol entry with Tcp | Tcp6 => true | Udp | Udp6 => false end.

Definition route_value (r : RouteEntry) : Value :=
  object [("interface", VString (ro_interface r)); ("destination", VString (ro_destination r));
          ("gateway", VString (ro_gateway r)); ("flags_hex", VString (ro_flags_hex r))].

Definition network_status : teff ToolResult :=
  interfaces ← collect_interfaces;
  routes ← collect_routes;
  listening ← collect_listening_ports_internal true;
  ToolResult_new "network_status" SystemMetadata 2
    [{| pr_source := "procfs"; pr_detail := "/proc/net/dev, /proc/net/route, /proc/net/tcp, /proc/net/tcp6" |};
     {| pr_source := "sysfs"; pr_detail := "/sys/class/net/*" |}] false
    (object [("interface_count", VInt (vlen interfaces));
             ("interfaces_up", VInt (count (fun i => bool_decide (ni_operstate i = Some "up")) interfaces));
             ("default_route_count", VInt (count (fun r => String.eqb (ro_destination r) "0.0.0.0") routes));
             ("tcp_listening_ports", VInt (count is_tcp listening));
             ("udp_bound_ports", VInt (count (fun e => negb (is_tcp e)) listening));
             ("routes", VArray (map route_value routes))]).

Definition interface_value (i : NetworkInterfaceSummary) : Value :=
  object [("name", VString (ni_name i)); ("operstate", VOption VString (ni_operstate i));
          ("mac_address", VOption VString (ni_mac_address i)); ("mtu", VOption VInt (ni_mtu i));
          ("flags_hex", VOption VString (ni_flags_hex i)); ("rx_bytes", VOption VInt (ni_rx_bytes i));
          ("tx_bytes", VOption VInt (ni_tx_bytes i))].

Definition network_interfaces : teff ToolResult :=
  interfaces ← collect_interfaces;
  ToolResult_new "network_interfaces" SystemMetadata 2
    [{| pr_source := "procfs"; pr_detail := PROC_NET_DEV |};
     {| pr_source := "sysfs"; pr_detail := "/sys/class/net/*" |}] false
    (object [("interfaces", VArray (map interface_value interfaces))]).

Definition protocol_name (p : TransportProtocol) : string :=
  match p with Tcp => "tcp" | Tcp6 => "tcp6" | Udp => "udp" | Udp6 => "udp6" end.

Definition socket_value (e : SocketEntry) : Value :=
  object [("protocol", VString (protocol_name (so_protocol e))); ("local_address", VString (so_local_address e));
          ("local_port", VInt (so_local_port e)); ("state_hex", VString (so_state_hex e));
          ("inode", VOption VInt (so_inode e))].

(** [local_port.cmp().then_with(local_address.cmp())] *)
Definition socket_order (a b : SocketEntry) : bool :=
  leb_of (fun a b => match Z.compare (so_local_port a) (so_local_port b) with
                     | Eq => String.compare (so_local_address a) (so_local_address b)
                     | c => c
                     end) a b.

Definition listening_ports (input : ListeningPortsInput) : teff ToolResult :=
  limit ← lift (bounded_limit (lp_limit input) DEFAULT_LIST_LIMIT MAX_LIST_LIMIT "limit");
  entries ← collect_listening_ports_internal (lp_include_udp input);
  let entries := sort_by socket_order entries in
  let partial := limit <? vlen entries in
  let entries := if partial then take (Z.to_nat limit) entries else entries in
  ToolResult_new "listening_ports" SystemMetadata 2
    [{| pr_source := "procfs";
        pr_detail := if lp_include_udp input
                     then "/proc/net/tcp, /proc/net/tcp6, /proc/net/udp, /proc/net/udp6"
                     else "/proc/net/tcp, /proc/net/tcp6" |}] partial
    (object [("entries", VArray (map socket_value entries)); ("include_udp", VBool (lp_include_udp input));
             ("limit", VInt limit)]).

(** ** processes.rs *)

Record ProcessListInput := { pl_limit : option usize; pl_include_cmdline : bool }.
Record ProcessDetailsInput := { pd_pid : Z; pd_include_cmdline : bool }.
Record ProcessSummary := {
  su_pid : Z; su_ppid : Z; su_name : string; su_state : string; su_uid : option u32;
  su_vm_rss_kb : option u64; su_threads : option u32; su_cmdline : option string;
}.

Definition annotate_process_error (pid : Z) (file : string) (error : ToolError) : ToolError :=
  match error with
  | PermissionDenied _ => PermissionDenied ("permission denied reading /proc/" +:+ show_int pid +:+ "/" +:+ file)
  | Io context message =>
      if contains "No such file" message
      then NotFound ("process " +:+ show_int pid +:+ " vanished while reading " +:+ file)
      else Io context message
  | other => other
  end.

Definition NUL : ascii := chr 0.

(** The arguments between the NUL bytes, lossily decoded and joined. *)
Definition render_cmdline (content : string) : option string :=
  let rendered := join " " (map from_utf8_lossy
                              (filter (fun part => is_empty part = false) (split_char NUL content))) in
  if is_empty rendered then None else Some (take_chars 8192 rendered).

Definition first_number (parse : string -> result IntErrorKind Z) (value : option string) : option Z :=
  value ← value; word ← nth_error (split_whitespace value) 0; ok (parse word).

Definition read_process (pid : Z) (include_cmdline : bool) : teff ProcessSummary :=
  let base := path_join "/proc" (show_int pid) in
  stat ← eff_map_err (annotate_process_error pid "stat") (read_text_file_bounded (path_join base "stat") (16 * 1024));
  parsed_stat ← lift (parse_proc_stat_line (trim stat));
  status_content ← eff_map_err (annotate_process_error pid "status")
                     (read_text_file_bounded (path_join base "status") (64 * 1024));
  let status := parse_proc_status_map status_content in
  cmdline ←
    (if include_cmdline then
       r ← perform (ReadFile (path_join base "cmdline"));
       lift (match r with
             | inr content => Ok (render_cmdline content)
             | inl err =>
                 if denied err
                 then Err (PermissionDenied ("permission denied reading /proc/" +:+ show_int pid +:+ "/cmdline"))
                 else if missing err then Ok None
                 else Err (Io ("reading /proc/" +:+ show_int pid +:+ "/cmdline") (io_text err))
             end)
     else mret None);
  mret {| su_pid := ps_pid parsed_stat; su_ppid := ps_ppid parsed_stat; su_name := ps_name parsed_stat;
          su_state := ps_state parsed_stat;
          su_uid := first_number parse_u32 (member "Uid" status);
          su_vm_rss_kb := first_number parse_u64 (member "VmRSS" status);
          su_threads := (value ← member "Threads" status; ok (parse_u32 value));
          su_cmdline := cmdline |}.

(** The loop over /proc: the processes read, and how many were denied and vanished. *)
Fixpoint list_processes (include_cmdline : bool) (entries : list (io string))
    (processes : list ProcessSummary) (denied_count vanished_count : usize)
  : teff (list ProcessSummary * usize * usize) :=
  match entries with
  | [] => mret (processes, denied_count, vanished_count)
  | entry :: rest =>
      name ← lift (io_or (fun err => Io "iterating /proc" (io_text err)) entry);
      if negb (valid_utf8 name) then list_processes include_cmdline rest processes denied_count vanished_count
      else
        match ok (parse_i32 name) with
        | None => list_processes include_cmdline rest processes denied_count vanished_count
        | Some pid =>
            r ← attempt (read_process pid include_cmdline);
            match r with
            | Ok process =>
                list_processes include_cmdline rest (processes ++ [process]) denied_count vanished_count
            | Err (PermissionDenied _) =>
                list_processes include_cmdline rest processes (denied_count + 1) vanished_count
            | Err (NotFound _) =>
                list_processes include_cmdline rest processes denied_count (vanished_count + 1)
            | Err (Io _ message) =>
                list_processes include_cmdline rest processes denied_count
                  (if contains "No such file" message then vanished_count + 1 else vanished_count)
            | Err _ => list_processes include_cmdline rest processes denied_count vanished_count
            | Panic => lift Panic
            end
        end
  end.

Definition process_value (p : ProcessSummary) : Value :=
  object [("pid", VInt (su_pid p)); ("ppid", VInt (su_ppid p)); ("name", VString (su_name p));
          ("state", VString (su_state p)); ("uid", VOption VInt (su_uid p));
          ("vm_rss_kb", VOption VInt (su_vm_rss_kb p)); ("threads", VOption VInt (su_threads p));
          ("cmdline", VOption VString (su_cmdline p))].

Definition procfs_provenance : list Provenance :=
  [{| pr_source := "procfs";
      pr_detail := "/proc/<pid>/stat, /proc/<pid>/status, optional /proc/<pid>/cmdline" |}].

Definition process_list (input : ProcessListInput) : teff ToolResult :=
  limit ← lift (bounded_limit (pl_limit input) DEFAULT_LIST_LIMIT MAX_LIST_LIMIT "limit");
  r ← perform (ReadDir "/proc");
  proc_entries ← lift (io_or (fun err => Io "reading /proc" (io_text err)) r);
  '(entries, denied_count, vanished_count) ←
    list_processes (pl_include_cmdline input) proc_entries [] 0 0;
  let entries := sort_by (fun a b => su_pid a <=? su_pid b) entries in
  let partial := limit <? vlen entries in
  let entries := if partial then take (Z.to_nat limit) entries else entries in
  ToolResult_new "process_list" PotentiallySensitive 2 procfs_provenance partial
    (object [("processes", VArray (map process_value entries)); ("limit", VInt limit);
             ("include_cmdline", VBool (pl_include_cmdline input));
             ("permission_denied_count", VInt denied_count); ("vanished_count", VInt vanished_count)]).

Definition process_details (input : ProcessDetailsInput) : teff ToolResult :=
  lift (fail_if (pd_pid input <=? 0) (InvalidInput "pid must be a positive integer"));;
  process ← read_process (pd_pid input) (pd_include_cmdline input);
  ToolResult_new "process_details" PotentiallySensitive 2 procfs_provenance false
    (object [("process", process_value process)]).

(** ** system.rs *)

Record BlockDeviceSummary := {
  bd_name : string; bd_size_bytes : option u64; bd_removable : option bool; bd_rotational : option bool;
}.

(** The fields of a literal [BTreeMap] of optional texts, read in the order written. *)
Fixpoint read_fields (fields : list (string * string)) : teff (list (string * Value)) :=
  match fields with
  | [] => mret []
  | (key, path) :: rest =>
      value ← read_trimmed_optional path;
      more ← read_fields rest;
      mret ((key, VOption VString value) :: more)
  end.

Definition strings_value (m : list (string * string)) : Value :=
  VObject (map (fun '(k, v) => (k, VString v)) m).

Section system.
(** [std::env::consts::ARCH] *)
Context (ARCH : string).

Definition os_information : teff ToolResult :=
  os_release_text ← read_text_file_bounded "/etc/os-release" (128 * 1024);
  let os_release := parse_os_release os_release_text in
  kernel ← read_fields [("ostype", "/proc/sys/kernel/ostype"); ("osrelease", "/proc/sys/kernel/osrelease");
                        ("version", "/proc/sys/kernel/version")];
  ToolResult_new "os_information" SystemMetadata 1
    [{| pr_source := "filesystem"; pr_detail := "/etc/os-release" |};
     {| pr_source := "procfs"; pr_detail := "/proc/sys/kernel/{ostype,osrelease,version}" |}] false
    (object [("os_release", strings_value os_release); ("kernel", object kernel); ("arch", VString ARCH);
             ("family", VString "unix")]).

Definition flag_of (value : option string) : option bool :=
  value ← value;
  if String.eqb value "0" then Some false else if String.eqb value "1" then Some true else None.

Fixpoint block_devices_of (entries : list (io string)) : teff (list BlockDeviceSummary) :=
  match entries with
  | [] => mret []
  | entry :: rest =>
      raw_name ← lift (io_or (fun err => Io "iterating /sys/block" (io_text err)) entry);
      let base := path_join "/sys/block" raw_name in
      size ← read_trimmed_optional (path_join base "size");
      let sectors := value ← size; ok (parse_u64 value) in
      removable ← read_trimmed_optional (path_join base "removable");
      rotational ← read_trimmed_optional (path_join base "queue/rotational");
      more ← block_devices_of rest;
      mret ({| bd_name := from_utf8_lossy raw_name;
               bd_size_bytes := (fun n => Z.min U64_MAX (n * 512)) <$> sectors;
               bd_removable := flag_of removable; bd_rotational := flag_of rotational |} :: more)
  end.

Definition collect_block_devices : teff (list BlockDeviceSummary) :=
  r ← perform (ReadDir "/sys/block");
  entries ← lift (io_or (fun err => Io "reading /sys/block" (io_text err)) r);
  devices ← block_devices_of entries;
  mret (sort_by (by_name bd_name) devices).

Definition device_value (d : BlockDeviceSummary) : Value :=
  object [("name", VString (bd_name d)); ("size_bytes", VOption VInt (bd_size_bytes d));
          ("removable", VOption VBool (bd_removable d)); ("rotational", VOption VBool (bd_rotational d))].

Definition hardware_information : teff ToolResult :=
  cpuinfo ← read_text_file_bounded "/proc/cpuinfo" (512 * 1024);
  meminfo ← read_text_file_bounded "/proc/meminfo" (512 * 1024);
  let cpu := parse_proc_cpuinfo cpuinfo in
  let mem := parse_proc_meminfo meminfo in
  dmi ← read_fields [("sys_vendor", "/sys/class/dmi/id/sys_vendor");
                     ("product_name", "/sys/class/dmi/id/product_name");
                     ("product_version", "/sys/class/dmi/id/product_version");
                     ("bios_vendor", "/sys/class/dmi/id/bios_vendor");
                     ("bios_version", "/sys/class/dmi/id/bios_version")];
  block_devices ← collect_block_devices;
  ToolResult_new "hardware_information" SystemMetadata 1
    [{| pr_source := "procfs"; pr_detail := "/proc/cpuinfo, /proc/meminfo" |};
     {| pr_source := "sysfs"; pr_detail := "/sys/class/dmi/id/*, /sys/block/*" |}] false
    (object [("cpu", object [("logical_cores", VInt (cs_logical_cores cpu));
                             ("model_name", VOption VString (cs_model_name cpu));
                             ("vendor_id", VOption VString (cs_vendor_id cpu))]);
             ("memory", object [("mem_total_kb", VOption VInt (ms_mem_total_kb mem));
                                ("swap_total_kb", VOption VInt (ms_swap_total_kb mem))]);
             ("dmi", object dmi); ("block_devices", VArray (map device_value block_devices))]).
End system.
