(* ===== verification/ToolService.v ===== *)
(** * The read-only tool service (crates/sentia-tools/src/protocol.rs)

    [handle_request] answers a list, invoke or cancel request.  [invoke_tool] parses the
    input of a tool and runs it; names of the privileged broker's methods are refused.
    Deserializing an input is [serde_json::from_value] of the input's type ([SerdeInputs]:
    the input or the text of the error). *)

From Stdlib Require Import Ascii String.
From S2P Require Import Prelude RustStr RustText Contract Effects ToolTypes ToolRunner ToolParsers ToolFiles ToolCommands ToolSystem.

Definition READ_ONLY_PROTOCOL_VERSION : string := "sentia.tools.readonly.v1".
Definition PRIVILEGED_BROKER_BUS_NAME : string := "org.sentia.System1".
Definition PRIVILEGED_BROKER_OBJECT_PATH : string := "/org/sentia/System1".
Definition PRIVILEGED_BROKER_INTERFACE : string := "org.sentia.System1".
Definition PRIVILEGED_BROKER_PREPARE_METHOD : string := "Prepare".
Definition PRIVILEGED_BROKER_APPLY_METHOD : string := "Apply".
Definition PRIVILEGED_BROKER_PREPARE_SCHEMA_VERSION : u64 := 1.

Definition PRIVILEGED_BROKER_METHOD_DENYLIST : list string :=
  ["apply"; "prepare"; "broker_apply"; "broker_prepare"; "org.sentia.system1.apply";
   "org.sentia.system1.prepare"].

(** ** Schemas *)

Definition s_object (required : list string) (properties : list (string * Value)) : Value :=
  object ([("type", VString "object"); ("additionalProperties", VBool false);
           ("properties", object properties)]
          ++ match required with [] => [] | _ => [("required", VStrings required)] end).
Definition s_string (constraints : list (string * Value)) : Value :=
  object (("type", VString "string") :: constraints).
Definition s_opt (type : string) (constraints : list (string * Value)) : Value :=
  object (("type", VStrings [type; "null"]) :: constraints).
Definition s_bool : Value := object [("type", VString "boolean")].
Definition s_limit (maximum : Z) : Value := s_opt "integer" [("minimum", VInt 1); ("maximum", VInt maximum)].

Definition privileged_broker_contract : Value :=
  object [
    ("bus_name", VString PRIVILEGED_BROKER_BUS_NAME);
    ("object_path", VString PRIVILEGED_BROKER_OBJECT_PATH);
    ("interface", VString PRIVILEGED_BROKER_INTERFACE);
    ("prepare", object [
       ("method", VString PRIVILEGED_BROKER_PREPARE_METHOD);
       ("input_schema", s_object ["version"; "operation"]
          [("version", object [("type", VString "integer");
                               ("const", VInt PRIVILEGED_BROKER_PREPARE_SCHEMA_VERSION)]);
           ("operation", object [("type", VString "object")])]);
       ("notes", VStrings ["prepare builds canonical broker plan proposals only";
                           "no client-side approved field is supported"])]);
    ("apply", object [
       ("method", VString PRIVILEGED_BROKER_APPLY_METHOD);
       ("input_schema", s_object ["id"; "digest"]
          [("id", s_string [("minLength", VInt 1)]); ("digest", s_string [("minLength", VInt 1)])]);
       ("requires_same_dbus_connection_as_prepare", VBool true);
       ("trusted_ui_plaintext_preview_required", VBool true);
       ("model_tool_registry_must_not_invoke", VBool true)])].

Definition BACKSLASH : string := String (chr 92) EmptyString.
Definition TOKEN_PATTERN : string := "^[A-Za-z0-9._+" +:+ BACKSLASH +:+ "-]+$".
Definition UNIT_PATTERN : string := "^[A-Za-z0-9._@" +:+ BACKSLASH +:+ "-]+$".
Definition SECTION_PATTERN : string := "^[A-Za-z0-9." +:+ BACKSLASH +:+ "-]+$".

Definition command_property : Value :=
  s_string [("minLength", VInt 1); ("maxLength", VInt 80); ("pattern", VString TOKEN_PATTERN)].

Definition schema_empty_input : Value := s_object [] [].
Definition schema_command_token : Value := s_object ["command"] [("command", command_property)].
Definition schema_path_with_sensitive_opt_in : Value :=
  s_object ["path"] [("path", s_string [("pattern", VString "^/")]); ("allow_sensitive", s_bool)].

Definition tool_input_schema (tool_name : string) : option Value :=
  let named := fun names => existsb (String.eqb tool_name) names in
  if named ["command_exists"; "command_lookup"] then Some schema_command_token
  else if named ["command_help"] then Some (s_object ["command"]
    [("command", command_property);
     ("section", s_opt "string" [("minLength", VInt 1); ("maxLength", VInt 16);
                                 ("pattern", VString SECTION_PATTERN)]);
     ("max_chars", s_limit 60000)])
  else if named ["command_history"] then Some (s_object ["entries"]
    [("entries", object [("type", VString "array"); ("minItems", VInt 1); ("maxItems", VInt 2000);
        ("items", s_object ["command"]
           [("command", s_string [("minLength", VInt 1); ("maxLength", VInt 4096)]);
            ("cwd", s_opt "string" [("pattern", VString "^/")]);
            ("exit_code", s_opt "integer" []); ("timestamp", s_opt "string" [])])]);
     ("query", s_opt "string" [("maxLength", VInt 512)]); ("limit", s_limit 500);
     ("failures_only", s_bool)])
  else if named ["package_owns_file"] then Some schema_path_with_sensitive_opt_in
  else if named ["service_list"] then Some (s_object []
    [("limit", s_limit 2000); ("include_inactive", s_bool)])
  else if named ["service_status"] then Some (s_object ["service"]
    [("service", s_string [("minLength", VInt 1); ("maxLength", VInt 128); ("pattern", VString UNIT_PATTERN)])])
  else if named ["journal_recent"] then Some (s_object []
    [("lines", s_limit 1000);
     ("unit", s_opt "string" [("minLength", VInt 1); ("maxLength", VInt 128); ("pattern", VString UNIT_PATTERN)])])
  else if named ["journal_errors"; "kernel_logs"] then Some (s_object [] [("lines", s_limit 1000)])
  else if named ["network_status"; "network_interfaces"; "os_information"; "hardware_information"]
  then Some schema_empty_input
  else if named ["listening_ports"] then Some (s_object [] [("limit", s_limit 2000); ("include_udp", s_bool)])
  else if named ["process_list"] then Some (s_object [] [("limit", s_limit 2000); ("include_cmdline", s_bool)])
  else if named ["process_details"] then Some (s_object ["pid"]
    [("pid", object [("type", VString "integer"); ("minimum", VInt 1)]); ("include_cmdline", s_bool)])
  else if named ["file_exists"; "file_type"; "file_permissions"; "disk_usage"]
  then Some schema_path_with_sensitive_opt_in
  else if named ["directory_contents"] then Some (s_object ["path"]
    [("path", s_string [("pattern", VString "^/")]); ("limit", s_limit 2000); ("include_hidden", s_bool);
     ("allow_sensitive", s_bool)])
  else None.

(** ** Requests and responses *)

Record ToolDescriptor := {
  ds_name : string; ds_read_only : bool; ds_privilege_class : PrivilegeClass; ds_privacy_class : PrivacyClass;
  ds_default_timeout_ms : u64; ds_supports_cancellation : bool; ds_input_schema : Value;
}.

Inductive ToolErrorCategory :=
| CatInvalidInput | CatNotFound | CatPermissionDenied | CatUnavailable | CatTimeout
| CatOutputLimitExceeded | CatIo | CatParse.

Record ToolErrorEnvelope := { ee_category : ToolErrorCategory; ee_retryable : bool; ee_error : ToolError }.

Inductive ToolRequest :=
| RqList (protocol_version : string) (request_id : option string)
| RqInvoke (protocol_version : string) (request_id : option string) (call_id tool_name : string) (input : Value)
| RqCancel (protocol_version : string) (request_id : option string) (call_id : string).

Inductive ToolResponse :=
| RsList (protocol_version : string) (request_id : option string) (tools : list ToolDescriptor)
| RsResult (protocol_version : string) (request_id : option string) (call_id : string) (result : ToolResult)
| RsCancelled (protocol_version : string) (request_id : option string) (call_id : string) (accepted : bool)
    (reason : string)
| RsError (protocol_version : string) (request_id call_id : option string) (error : ToolErrorEnvelope).

Definition from_error (error : ToolError) : ToolErrorEnvelope :=
  {| ee_category := match error with
                    | InvalidInput _ => CatInvalidInput
                    | NotFound _ => CatNotFound
                    | PermissionDenied _ => CatPermissionDenied
                    | Unavailable _ => CatUnavailable
                    | Timeout _ _ => CatTimeout
                    | OutputLimitExceeded _ _ => CatOutputLimitExceeded
                    | Io _ _ => CatIo
                    | Parse _ _ => CatParse
                    end;
     ee_retryable := match error with
                     | Unavailable _ | Timeout _ _ | Io _ _ | OutputLimitExceeded _ _ => true
                     | _ => false
                     end;
     ee_error := error |}.

Definition error_response (request_id call_id : option string) (error : ToolError) : ToolResponse :=
  RsError READ_ONLY_PROTOCOL_VERSION request_id call_id (from_error error).

Definition readonly_tool_names : list string :=
  ["command_exists"; "command_lookup"; "command_help"; "command_history"; "package_owns_file"; "service_list";
   "service_status"; "journal_recent"; "journal_errors"; "kernel_logs"; "network_status"; "network_interfaces";
   "listening_ports"; "process_list"; "process_details"; "file_exists"; "file_type"; "file_permissions";
   "directory_contents"; "disk_usage"; "os_information"; "hardware_information"].

Definition tool_privacy_class (tool_name : string) : PrivacyClass :=
  if existsb (String.eqb tool_name) ["command_exists"; "command_lookup"] then PublicMetadata
  else if existsb (String.eqb tool_name)
            ["command_history"; "journal_recent"; "journal_errors"; "kernel_logs"; "process_list";
             "process_details"; "file_exists"; "file_type"; "file_permissions"; "directory_contents"]
  then PotentiallySensitive
  else SystemMetadata.

Definition tool_default_timeout_ms (tool_name : string) : u64 :=
  if existsb (String.eqb tool_name)
       ["command_exists"; "command_lookup"; "command_history"; "file_exists"; "file_type"; "file_permissions";
        "os_information"; "hardware_information"] then 1000
  else if existsb (String.eqb tool_name)
            ["network_status"; "network_interfaces"; "listening_ports"; "process_list"; "process_details";
             "directory_contents"] then 2000
  else 4000.

Definition readonly_tool_descriptors : list ToolDescriptor :=
  omap (fun name =>
    schema ← tool_input_schema name;
    Some {| ds_name := name; ds_read_only := true; ds_privilege_class := UserReadOnly;
            ds_privacy_class := tool_privacy_class name;
            ds_default_timeout_ms := tool_default_timeout_ms name; ds_supports_cancellation := false;
            ds_input_schema := schema |}) readonly_tool_names.

Definition is_privileged_broker_method (tool_name : string) : bool :=
  let normalized := to_ascii_lowercase (trim tool_name) in
  if existsb (String.eqb normalized) PRIVILEGED_BROKER_METHOD_DENYLIST then true
  else
    let canonical := replace ":" "." (replace "/" "." (replace "::" "." normalized)) in
    starts_with "org.sentia.system1." canonical
    && (ends_with ".apply" canonical || ends_with ".prepare" canonical).

Definition validate_protocol_version (version : string) : result ToolError unit :=
  if String.eqb version READ_ONLY_PROTOCOL_VERSION then Ok tt
  else Err (InvalidInput ("unsupported protocol_version '" +:+ version +:+ "', expected '"
                          +:+ READ_ONLY_PROTOCOL_VERSION +:+ "'")).

Definition validate_empty_input (tool_name : string) (input : Value) : result ToolError unit :=
  match input with
  | VNull => Ok tt
  | VObject [] => Ok tt
  | _ => Err (InvalidInput (tool_name +:+ " expects null or empty object input"))
  end.

(** ** Dispatch *)

(** [serde_json::from_value] at the input types. *)
Class SerdeInputs := {
  from_command : Value -> string + CommandInput;
  from_command_help : Value -> string + CommandHelpInput;
  from_command_history : Value -> string + CommandHistoryInput;
  from_file_path : Value -> string + FilePathInput;
  from_directory : Value -> string + DirectoryContentsInput;
  from_service_list : Value -> string + ServiceListInput;
  from_service_status : Value -> string + ServiceStatusInput;
  from_journal : Value -> string + JournalRecentInput;
  from_log_lines : Value -> string + LogLinesInput;
  from_ports : Value -> string + ListeningPortsInput;
  from_process_list : Value -> string + ProcessListInput;
  from_process_details : Value -> string + ProcessDetailsInput;
}.

Section service.
Context `{UnicodeTables} `{SerdeInputs} (ARCH : string).

Definition parse_input {A} (from_value : Value -> string + A) (tool_name : string) (input : Value)
  : result ToolError A :=
  match from_value input with
  | inr a => Ok a
  | inl err => Err (InvalidInput ("invalid input for " +:+ tool_name +:+ ": " +:+ err))
  end.

(** Parses the input and runs the tool on it. *)
Definition with_input {A} (from_value : Value -> string + A) (tool : A -> teff ToolResult)
    (tool_name : string) (input : Value) : teff ToolResult :=
  a ← lift (parse_input from_value tool_name input); tool a.

Definition without_input (tool : teff ToolResult) (tool_name : string) (input : Value) : teff ToolResult :=
  lift (validate_empty_input tool_name input);; tool.

(** The arms of the match on the tool's name. *)
Definition tool_table : list (string * (string -> Value -> teff ToolResult)) :=
  [("command_exists", with_input from_command command_exists);
   ("command_lookup", with_input from_command command_lookup);
   ("command_help", with_input from_command_help command_help);
   ("command_history", with_input from_command_history command_history);
   ("package_owns_file", with_input from_file_path package_owns_file);
   ("service_list", with_input from_service_list service_list);
   ("service_status", with_input from_service_status service_status);
   ("journal_recent", with_input from_journal journal_recent);
   ("journal_errors", with_input from_log_lines journal_errors);
   ("kernel_logs", with_input from_log_lines kernel_logs);
   ("network_status", without_input network_status);
   ("network_interfaces", without_input network_interfaces);
   ("listening_ports", with_input from_ports listening_ports);
   ("process_list", with_input from_process_list process_list);
   ("process_details", with_input from_process_details process_details);
   ("file_exists", with_input from_file_path file_exists);
   ("file_type", with_input from_file_path file_type);
   ("file_permissions", with_input from_file_path file_permissions);
   ("directory_contents", with_input from_directory directory_contents);
   ("disk_usage", with_input from_file_path disk_usage);
   ("os_information", without_input (os_information ARCH));
   ("hardware_information", without_input hardware_information)].

Definition privileged_refusal : ToolError :=
  PermissionDenied
    ("privileged broker methods are unavailable in read-only registry; use org.sentia.System1 /org/sentia/System1 org.sentia.System1 Prepare/Apply via trusted UI "
     +:+ "(same DBus connection from Prepare to Apply, no approved field)").

Definition invoke_tool (tool_name : string) (input : Value) : teff ToolResult :=
  if is_privileged_broker_method tool_name then lift (Err privileged_refusal)
  else
    match member tool_name tool_table with
    | Some tool => tool tool_name input
    | None => lift (Err (NotFound ("unknown read-only tool: " +:+ tool_name)))
    end.

Definition handle_request (request : ToolRequest) : eff tsys unit Empty_set ToolResponse :=
  match request with
  | RqList protocol_version request_id =>
      match validate_protocol_version protocol_version with
      | Err err => mret (error_response request_id None err)
      | _ => mret (RsList READ_ONLY_PROTOCOL_VERSION request_id readonly_tool_descriptors)
      end
  | RqInvoke protocol_version request_id call_id tool_name input =>
      match validate_protocol_version protocol_version with
      | Err err => mret (error_response request_id (Some call_id) err)
      | _ =>
          r ← attempt (invoke_tool tool_name input);
          match r with
          | Ok result => mret (RsResult READ_ONLY_PROTOCOL_VERSION request_id call_id result)
          | Err err => mret (error_response request_id (Some call_id) err)
          | Panic => lift Panic
          end
      end
  | RqCancel protocol_version request_id call_id =>
      match validate_protocol_version protocol_version with
      | Err err => mret (error_response request_id (Some call_id) err)
      | _ => mret (RsCancelled READ_ONLY_PROTOCOL_VERSION request_id call_id false
               "in-flight cancellation is not supported by synchronous library calls; cancel before dispatch")
      end
  end.
End service.
