(* ===== verification/Executor.v ===== *)
(** * The privileged executor (crates/sentia-privileged/src/executor.rs)

    What the root broker does to the machine: it runs two fixed helpers with a
    cleared environment, reads unit files and process state, and signals a process
    through a pid file descriptor.  Every contact with the outside is a [syscall];
    the bus and polkit calls of service.rs are calls of the same environment.
    [serde_json] on values and [gmtime_r] are parameters ([Platform]). *)

From Stdlib Require Import Ascii String.
From S2P Require Import Prelude RustStr RustText Bounded Contract Privileged PlanStore Effects.

Definition SYSTEMCTL : string := "/usr/bin/systemctl".
Definition APT_WORKER : string := "/usr/libexec/sentia/sentia-apt-worker".
Definition MAX_OUTPUT : usize := 1048576.
Definition COMMAND_TIMEOUT : Z := 30.

(** ** Calls *)

Record Metadata := MkMetadata {
  md_is_symlink : bool;
  md_is_file : bool;
  md_uid : u32;
  md_mode : u32;
}.

Record CommandLine := MkCommand {
  cmd_executable : string;
  cmd_arguments : list string;
  cmd_env : list (string * string);
  cmd_current_dir : string;
  cmd_stdin : option string;
}.

(** The three futures [try_join!] waits for. *)
Inductive Part := PWrite | PStdout | PStderr.

(** What a helper did within its timeout: which parts finished in which order,
    whether its input could be written, what it wrote ([None]: the pipe failed) and
    how it exited ([None]: waiting failed). *)
Inductive Communication :=
| TimedOut
| Exchanged (order : list Part) (written : bool) (out err : option string)
    (exit : option bool).

Inductive PolkitReply := PolkitTimeout | PolkitFailed | PolkitReplied (authorized : bool).

Inductive syscall : Type -> Type :=
| SymlinkMetadata (path : string) : syscall (option Metadata)
| Stat (path : string) : syscall (option Metadata)
| Canonicalize (path : string) : syscall (option string)
| OpenNoFollow (path : string) : syscall (option Z)
| Fstat (fd : Z) : syscall (option Metadata)
| ReadToEnd (fd : Z) (limit : Z) : syscall (option string)
| ReadToString (path : string) : syscall (option string)
| OwnPid : syscall u32
| Clock : syscall (option u64)
| Entropy : syscall (option (list u8))
| Spawn (command : CommandLine) : syscall (option (option Z))
| Communicate (pid : Z) (timeout : Z) : syscall Communication
| KillGroup (pid : Z) (signal : Z) : syscall unit
| Sleep (milliseconds : Z) : syscall unit
| WaitChild (pid : Z) : syscall unit
| PidfdOpen (pid : u32) : syscall (option Z)
| PidfdPoll (fd : Z) : syscall (option bool)
| PidfdSendSignal (fd : Z) (signal : Z) : syscall bool
| BusProxy (service path : string) : syscall bool
| GetConnectionUnixUser (name : string) : syscall (option u32)
| GetConnectionUnixProcessID (name : string) : syscall (option u32)
| GetSessionByPID (pid : u32) : syscall (option string)
| SessionActive (session : string) : syscall (option bool)
| SessionRemote (session : string) : syscall (option bool)
| SessionClass (session : string) : syscall (option string)
| SessionUser (session : string) : syscall (option u32)
| CheckAuthorization (bus_name action : string) (flags : u32) : syscall PolkitReply
| TryLock : syscall bool
| LogLine (line : string) : syscall unit.

Definition SIGTERM : Z := 15.
Definition SIGKILL : Z := 9.

(** The C library's broken-down time and the serializer, which are not part of the
    repository. *)
Record tm := { tm_year : Z; tm_mon : Z; tm_mday : Z; tm_hour : Z; tm_min : Z; tm_sec : Z }.

Class Platform := {
  gmtime_r : i64 -> option tm;
  value_to_vec : Value -> option string;
  value_from_slice : string -> option Value;
  prepare_from_str : string -> option PrepareRequest;
  prepared_to_string : Prepared -> option string;
}.

(** ** Pure parts *)

Definition service_arguments (action : ServiceAction) (unit : string) : result string (list string) :=
  validate_unit unit;;
  Ok ["--no-ask-password"; "--no-pager"; ServiceAction_argument action; "--"; unit].

Definition parse_start_ticks (stat : string) : result string u64 :=
  '(_, fields) ← ok_or (rsplit_once ")" stat) "invalid_process_state";
  field ← ok_or (nth_error (split_whitespace fields) 19) "invalid_process_state";
  ok_or (parse_uint U64_MAX field) "invalid_process_state".

Record ProcessState := { proc_pid : u32; start_ticks : u64; proc_uid : u32; proc_name : string }.

(** [serde_json::to_value(&ProcessState)] *)
Definition ProcessState_to_value (p : ProcessState) : Value :=
  object [("pid", VNumber (NInt (proc_pid p))); ("start_ticks", VNumber (NInt (start_ticks p)));
          ("uid", VNumber (NInt (proc_uid p))); ("name", VString (proc_name p))].

(** [i32] addition in a release build, and the zero-padded formats. *)
Definition wrapping_add_i32 (a b : Z) : Z :=
  (a + b + 2147483648) mod 4294967296 - 2147483648.
Definition zero_padded (width : nat) (n : Z) : string :=
  let digits := show_uint (Z.abs n) in
  if n <? 0
  then "-" +:+ sconcat (repeat "0" (width - 1 - String.length digits)) +:+ digits
  else sconcat (repeat "0" (width - String.length digits)) +:+ digits.

Section executor.
Context `{D : Digests} `{P : Platform}.

Definition utc_timestamp (seconds : u64) : result string string :=
  fail_if (9223372036854775807 <? seconds) "invalid_time";;
  date ← ok_or (gmtime_r seconds) "invalid_time";
  Ok (zero_padded 4 (wrapping_add_i32 (tm_year date) 1900) +:+ "-"
      +:+ zero_padded 2 (wrapping_add_i32 (tm_mon date) 1) +:+ "-"
      +:+ zero_padded 2 (tm_mday date) +:+ "T" +:+ zero_padded 2 (tm_hour date) +:+ ":"
      +:+ zero_padded 2 (tm_min date) +:+ ":" +:+ zero_padded 2 (tm_sec date) +:+ "Z").

Definition worker_digest_ok (worker_digest : string) : bool :=
  (len worker_digest =? 64) && bytes_all is_lower_hex worker_digest.

Definition apt_operation (operation : Operation) : result string (string * option (list string)) :=
  match operation with
  | OpAptInstall packages => Ok ("apt_install", Some packages)
  | OpAptRemove packages => Ok ("apt_remove", Some packages)
  | OpAptUpdate => Ok ("apt_update", None)
  | OpAptUpgrade => Ok ("apt_upgrade", None)
  | _ => Err "invalid_package_operation"
  end.

(** The approval the worker checks before it changes the system. *)
Definition apt_approval (operation : Operation) (plan : CanonicalPlan) : result string Value :=
  worker_digest ← ok_or (get (plan_state plan) "plan_digest" ≫= v_as_str) "invalid_worker_plan";
  fail_if (negb (bool_decide (plan_operation plan = operation))
           || negb (worker_digest_ok worker_digest)) "invalid_worker_plan";;
  session_id ← digest_of sha256_hex (to_vec_caller (plan_caller plan));
  expires ← utc_timestamp (expires_at plan);
  Ok (object [("plan_digest", VString worker_digest);
              ("broker_session_id", VString session_id);
              ("authorization_id", VString (plan_id plan));
              ("expires_at", VString expires);
              ("allow_source_change", VBool false);
              ("allow_essential_removal", VBool false);
              ("allow_held_change", VBool false)]).

Definition apt_request (operation : Operation) (expected : option CanonicalPlan)
  : result string Value :=
  Operation_validate operation;;
  '(name, packages) ← apt_operation operation;
  let mode := match expected with Some _ => "execute" | None => "plan" end in
  let arguments := object [("mode", VString mode)] in
  let arguments := match packages with
                   | Some packages => set_key arguments "packages" (VArray (map VString packages))
                   | None => arguments
                   end in
  let request_id := match expected with Some p => plan_id p | None => "sentia-root-plan" end in
  let request := object [("request_id", VString request_id); ("protocol_version", VString "1.0");
                         ("operation", VString name); ("arguments", arguments)] in
  match expected with
  | Some plan => approval ← apt_approval operation plan; Ok (set_key request "approval" approval)
  | None => Ok request
  end.

(** [response.pointer("/error/code").and_then(Value::as_str)] *)
Definition error_code (response : Value) : option string :=
  error ← get response "error"; code ← get error "code"; v_as_str code.

Definition interpret_apt_response (output : string) (successful_exit : bool) (request : Value)
    (executing : bool) : result string Value :=
  response ← ok_or (value_from_slice output) "invalid_worker_response";
  fail_if (negb (bool_decide (get response "protocol_version" ≫= v_as_str = Some "1.0"))
           || negb (bool_decide (get response "request_id" = get request "request_id"))
           || negb (bool_decide (get response "operation" = get request "operation")))
    "package_worker_failed";;
  (if bool_decide (get response "status" ≫= v_as_str = Some "error")
   then Err (if bool_decide (error_code response = Some "plan_digest_mismatch")
             then "state_changed_prepare_again" else "package_worker_failed")
   else Ok tt);;
  fail_if (negb successful_exit
           || negb (bool_decide (get response "status" ≫= v_as_str = Some "ok"))
           || negb (match get response "result" with Some r => is_object r | None => false end))
    "invalid_worker_response";;
  if executing then Ok response
  else
    result ← ok_or (get response "result") "invalid_worker_plan";
    plan ← ok_or (get result "canonical_plan") "invalid_worker_plan";
    worker_digest ← ok_or (get result "plan_digest" ≫= v_as_str) "invalid_worker_plan";
    bytes ← ok_or (value_to_vec plan) "invalid_worker_plan";
    fail_if (262144 <? len bytes) "package_plan_too_large";;
    fail_if (negb (worker_digest_ok worker_digest)) "invalid_worker_plan";;
    Ok (object [("canonical_plan", plan); ("plan_digest", VString worker_digest)]).

(** ** Files and helpers *)

Context {S : Type}.
Abbreviation M A := (eff syscall S string A).

(** [perform(..).map_err(|_| Error(code))?] for a call that may fail. *)
Definition call_or {A} (c : syscall (option A)) (code : string) : M A :=
  reply ← perform c; lift (ok_or reply code).

Definition untrusted (metadata : Metadata) : bool :=
  md_is_symlink metadata || negb (md_uid metadata =? 0)
  || negb (Z.land (md_mode metadata) 18 =? 0).

(** The loop of [trusted_path] over the components ([0o022] is 18). *)
Fixpoint trusted_components (current : string) (path : list Component) : M unit :=
  match path with
  | [] => mret tt
  | component :: rest =>
      current ← lift (match component with
                      | RootDir | Normal _ => Ok (push current component)
                      | _ => Err "untrusted_path"
                      end);
      metadata ← call_or (SymlinkMetadata current) "path_unavailable";
      lift (fail_if (untrusted metadata) "untrusted_path");;
      trusted_components current rest
  end.

Definition trusted_path (path : list Component) : M unit :=
  lift (fail_if (negb (match path with RootDir :: _ => true | _ => false end)) "untrusted_path");;
  trusted_components "" path.

Definition unit_roots : list string :=
  ["/etc/systemd/system"; "/usr/lib/systemd/system"; "/run/systemd"].

Definition trusted_file_digest (path : string) : M string :=
  parent ← lift (ok_or (parent (components path)) "untrusted_path");
  trusted_path parent;;
  link_metadata ← call_or (SymlinkMetadata path) "path_unavailable";
  lift (fail_if (negb (md_uid link_metadata =? 0)) "untrusted_path");;
  canonical ← call_or (Canonicalize path) "path_unavailable";
  lift (fail_if (negb (existsb (fun root => path_starts_with root canonical) unit_roots))
          "untrusted_unit_file");;
  trusted_path (components canonical);;
  fd ← call_or (OpenNoFollow canonical) "unit_file_unavailable";
  metadata ← call_or (Fstat fd) "unit_file_unavailable";
  lift (fail_if (negb (md_is_file metadata) || negb (md_uid metadata =? 0)
                 || negb (Z.land (md_mode metadata) 18 =? 0)) "untrusted_unit_file");;
  content ← call_or (ReadToEnd fd (MAX_OUTPUT + 1)) "unit_file_unavailable";
  let bytes := stake (Z.to_nat (MAX_OUTPUT + 1)) content in
  lift (fail_if (MAX_OUTPUT <? len bytes) "unit_file_too_large");;
  mret (sha256_hex bytes).

(** [bounded_read] of a pipe that delivers [stream] before it closes. *)
Definition bounded_read (stream : option string) : result string string :=
  content ← ok_or stream "subprocess_io_failed";
  let bytes := stake (Z.to_nat (MAX_OUTPUT + 1)) content in
  fail_if (MAX_OUTPUT <? len bytes) "subprocess_output_limit";;
  Ok bytes.

(** [try_join!]: the error of the part that failed first, or all the outputs. *)
Fixpoint first_error (parts : list Part) (error : Part -> option string) : option string :=
  match parts with
  | [] => None
  | p :: parts' => match error p with Some e => Some e | None => first_error parts' error end
  end.

Definition error_of {A} (r : result string A) : option string :=
  match r with Err e => Some e | _ => None end.

Definition execution (input : option string) (c : Communication) : option (result string (bool * string)) :=
  match c with
  | TimedOut => None
  | Exchanged order written out err exit =>
      let write := fail_if (match input with Some _ => negb written | None => false end)
                     "subprocess_io_failed" in
      let error p := match p with
                     | PWrite => error_of write
                     | PStdout => error_of (bounded_read out)
                     | PStderr => error_of (bounded_read err)
                     end in
      Some (match first_error (order ++ [PWrite; PStdout; PStderr]) error with
            | Some e => Err e
            | None => output ← bounded_read out;
                      status ← ok_or exit "subprocess_failed";
                      Ok (status, output)
            end)
  end.

Definition helper_command (executable : string) (arguments : list string) (input : option string)
  : CommandLine :=
  {| cmd_executable := executable; cmd_arguments := arguments;
     cmd_env := [("PATH", "/usr/sbin:/usr/bin"); ("LANG", "C.UTF-8"); ("LC_ALL", "C.UTF-8");
                 ("HOME", "/"); ("SYSTEMD_PAGER", ""); ("SYSTEMD_COLORS", "0");
                 ("DEBIAN_FRONTEND", "noninteractive")];
     cmd_current_dir := "/"; cmd_stdin := input |}.

(** [run_helper]; the pair is [HelperOutput]. *)
Definition run_helper (executable : string) (arguments : list string) (input : option string)
    (timeout : Z) : M (bool * string) :=
  lift (fail_if (negb (String.eqb executable SYSTEMCTL) && negb (String.eqb executable APT_WORKER))
          "executable_not_allowed");;
  trusted_path (components executable);;
  metadata ← call_or (Stat executable) "helper_unavailable";
  lift (fail_if (negb (md_is_file metadata) || (Z.land (md_mode metadata) 73 =? 0))
          "helper_unavailable");;
  child ← call_or (Spawn (helper_command executable arguments input)) "helper_unavailable";
  pid ← lift (ok_or child "helper_unavailable");
  result ← perform (Communicate pid timeout);
  match execution input result with
  | Some (Ok output) => mret output
  | failed =>
      perform (KillGroup pid SIGTERM);;
      perform (Sleep 500);;
      perform (KillGroup pid SIGKILL);;
      perform (WaitChild pid);;
      lift (match failed with
            | Some (Err e) => Err e
            | _ => Err "subprocess_timeout"
            end)
  end.

Definition run_fixed (executable : string) (arguments : list string) (input : option string)
    (timeout : Z) : M string :=
  '(success, stdout) ← run_helper executable arguments input timeout;
  if success : bool then mret stdout else lift (Err "subprocess_failed").

(** ** Observed state *)

Fixpoint parse_properties (lines : list string) (properties : list (string * string))
  : result string (list (string * string)) :=
  match lines with
  | [] => Ok properties
  | line :: lines' =>
      '(key, value) ← ok_or (split_once "=" line) "invalid_helper_output";
      parse_properties lines' (bt_insert key value properties)
  end.

Fixpoint digest_files (paths : list string) (files : list (string * string))
  : M (list (string * string)) :=
  match paths with
  | [] => mret files
  | path :: paths' =>
      digest ← trusted_file_digest path;
      digest_files paths' (bt_insert path digest files)
  end.

Definition string_object (m : list (string * string)) : Value :=
  VObject (map (fun '(k, v) => (k, VString v)) m).

Definition show_arguments (unit : string) : list string :=
  ["--no-pager"; "show";
   "--property=Id,LoadState,ActiveState,SubState,UnitFileState,FragmentPath,DropInPaths,NeedDaemonReload";
   "--"; unit].

Definition service_state (unit : string) : M Value :=
  lift (validate_unit unit);;
  text ← run_fixed SYSTEMCTL (show_arguments unit) None COMMAND_TIMEOUT;
  lift (fail_if (negb (valid_utf8 text)) "invalid_helper_output");;
  properties ← lift (parse_properties (lines text) []);
  lift (fail_if (negb (bool_decide (member "LoadState" properties = Some "loaded"))
                 || negb (bool_decide (member "NeedDaemonReload" properties = Some "no")))
          "unit_unavailable_or_stale");;
  fragment ← lift (ok_or (p ← member "FragmentPath" properties;
                          if is_empty p then None else Some p) "transient_units_not_allowed");
  digest ← trusted_file_digest fragment;
  files ← digest_files (match member "DropInPaths" properties with
                        | Some dropins => split_whitespace dropins
                        | None => []
                        end) (bt_insert fragment digest []);
  mret (object [("properties", string_object properties); ("files", string_object files)]).

Definition process_start_of (pid : u32) : M u64 :=
  stat ← call_or (ReadToString ("/proc/" +:+ show_uint pid +:+ "/stat")) "process_unavailable";
  lift (parse_start_ticks stat).

Definition process_state (pid : u32) : M ProcessState :=
  lift (Operation_validate (OpProcessKill pid));;
  own ← perform OwnPid;
  lift (fail_if (pid =? own) "cannot_terminate_broker");;
  start ← process_start_of pid;
  metadata ← call_or (Stat ("/proc/" +:+ show_uint pid)) "process_unavailable";
  stat ← call_or (ReadToString ("/proc/" +:+ show_uint pid +:+ "/stat")) "process_unavailable";
  '(_, rest) ← lift (ok_or (split_once "(" stat) "invalid_process_state");
  '(name, _) ← lift (ok_or (rsplit_once ")" rest) "invalid_process_state");
  again ← process_start_of pid;
  lift (fail_if (negb (start =? again)) "process_changed");;
  mret {| proc_pid := pid; start_ticks := start; proc_uid := md_uid metadata; proc_name := name |}.

Definition ProcessHandle_open (pid : u32) : M Z :=
  lift (Operation_validate (OpProcessKill pid));;
  call_or (PidfdOpen pid) "pidfd_unavailable".

Definition exited (handle : Z) : M bool := call_or (PidfdPoll handle) "process_check_failed".

Definition terminate (handle : Z) : M unit :=
  sent ← perform (PidfdSendSignal handle SIGTERM);
  lift (fail_if (negb sent) "process_signal_denied").

Definition ensure_unexpired (plan : CanonicalPlan) : M unit :=
  now ← call_or Clock "clock_unavailable";
  lift (fail_if ((now <? issued_at plan) || (expires_at plan <=? now)) "plan_expired").

Definition apt_call (operation : Operation) (expected : option CanonicalPlan) : M Value :=
  (match expected with Some plan => ensure_unexpired plan | None => mret tt end);;
  request ← lift (apt_request operation expected);
  input ← lift (ok_or (value_to_vec request) "serialization_failed");
  '(success, stdout) ← run_helper APT_WORKER [] (Some input)
      (match expected with Some _ => 900 | None => COMMAND_TIMEOUT end);
  lift (interpret_apt_response stdout success request
          (match expected with Some _ => true | None => false end)).

Definition apt_plan (operation : Operation) : M Value := apt_call operation None.

Definition snapshot (operation : Operation) : M Value :=
  match operation with
  | OpService _ unit => service_state unit
  | OpProcessKill pid => ProcessState_to_value <$> process_state pid
  | _ => apt_plan operation
  end.

(** The wait of at most 30 polls after the signal. *)
Fixpoint await_exit (polls : nat) (handle : Z) : M Value :=
  match polls with
  | O => mret (object [("version", VNumber (NInt 1));
                       ("status", VString "signal_sent_process_still_running");
                       ("signal", VString "SIGTERM")])
  | Datatypes.S polls' =>
      gone ← exited handle;
      if gone : bool
      then mret (object [("version", VNumber (NInt 1)); ("status", VString "terminated");
                         ("signal", VString "SIGTERM")])
      else perform (Sleep 100);; await_exit polls' handle
  end.

Definition execute_service (plan : CanonicalPlan) (action : ServiceAction) (unit : string) : M Value :=
  state ← service_state unit;
  lift (fail_if (negb (bool_decide (state = plan_state plan))) "state_changed_prepare_again");;
  ensure_unexpired plan;;
  arguments ← lift (service_arguments action unit);
  run_fixed SYSTEMCTL arguments None COMMAND_TIMEOUT;;
  after ← service_state unit;
  mret (object [("version", VNumber (NInt 1)); ("status", VString "completed"); ("state", after)]).

Definition execute_kill (plan : CanonicalPlan) (pid : u32) : M Value :=
  handle ← ProcessHandle_open pid;
  current ← process_state pid;
  gone ← exited handle;
  lift (fail_if (gone || negb (bool_decide (ProcessState_to_value current = plan_state plan)))
          "process_changed");;
  ensure_unexpired plan;;
  terminate handle;;
  await_exit 30 handle.

Definition execute (plan : CanonicalPlan) : M Value :=
  lift (Operation_validate (plan_operation plan));;
  match plan_operation plan with
  | OpService action unit => execute_service plan action unit
  | OpProcessKill pid => execute_kill plan pid
  | operation => apt_call operation (Some plan)
  end.

(** ** What is only observed *)

(** Events that do not change the machine: everything but sending a signal to a
    process and spawning a helper, except [systemctl show] and a worker request in
    plan mode.  (The signals of [run_helper] go to its own helper's group.) *)
Definition observing (e : event syscall) : Prop :=
  match ev_call e with
  | Spawn c =>
      (exists unit, validate_unit unit = Ok tt /\
         c = helper_command SYSTEMCTL (show_arguments unit) None) \/
      (exists operation request bytes, apt_request operation None = Ok request /\
         value_to_vec request = Some bytes /\ c = helper_command APT_WORKER [] (Some bytes))
  | PidfdSendSignal _ _ => False
  | _ => True
  end.

Ltac observe := emits_tac; try done; try exact I.

Lemma call_or_observes {A} (c : syscall (option A)) code :
  (forall r, observing (Event _ c r)) -> emits observing (call_or c code).
Proof. intros H. unfold call_or. emits_tac. apply H. Qed.

Lemma trusted_components_observes current path : emits observing (trusted_components current path).
Proof.
  revert current. induction path as [|c path IH]; intros current; cbn [trusted_components].
  - apply emits_ret.
  - apply emits_bind; [apply emits_lift|intros cur]. apply emits_bind; [by apply call_or_observes|].
    intros md. apply emits_bind; [apply emits_lift|]. intros _. apply IH.
Qed.

Lemma trusted_path_observes path : emits observing (trusted_path path).
Proof. unfold trusted_path. emits_tac. apply trusted_components_observes. Qed.

Hint Resolve trusted_path_observes : sentia.

Lemma trusted_file_digest_observes path : emits observing (trusted_file_digest path).
Proof. unfold trusted_file_digest, call_or. observe. Qed.

Hint Resolve trusted_file_digest_observes : sentia.

Lemma digest_files_observes paths files : emits observing (digest_files paths files).
Proof. revert files. induction paths as [|p paths IH]; intros files; cbn [digest_files]; observe. Qed.

(** The helper's own spawn is the only event of [run_helper] that matters. *)
Lemma run_helper_emits executable arguments input timeout :
  (forall r, observing (Event _ (Spawn (helper_command executable arguments input)) r)) ->
  emits observing (run_helper executable arguments input timeout).
Proof. intros H. unfold run_helper, call_or. observe. Qed.

Lemma run_fixed_emits executable arguments input timeout :
  (forall r, observing (Event _ (Spawn (helper_command executable arguments input)) r)) ->
  emits observing (run_fixed executable arguments input timeout).
Proof. intros H. pose proof (run_helper_emits _ _ _ timeout H). unfold run_fixed. observe. Qed.

Lemma bind_lift_emits {A B} (r : result string A) (k : A -> M B) :
  (forall a, r = Ok a -> emits observing (k a)) -> emits observing (lift r ≫= k).
Proof.
  intros Hk env h s. unfold mbind, eff_bind, lift.
  destruct r as [a| |]; cbn; [|constructor..]. rewrite app_nil_r. by apply Hk.
Qed.

Lemma service_state_observes unit : emits observing (service_state unit).
Proof.
  unfold service_state. apply bind_lift_emits. intros [] Hu.
  apply emits_bind; [apply run_fixed_emits; intros r; left; eauto|intros text].
  pose proof digest_files_observes. observe.
Qed.

Lemma process_state_observes pid : emits observing (process_state pid).
Proof. unfold process_state, process_start_of, call_or. observe. Qed.

Lemma apt_plan_observes operation : emits observing (apt_plan operation).
Proof.
  unfold apt_plan, apt_call. apply emits_bind; [apply emits_ret|intros _].
  apply bind_lift_emits. intros request Hr. apply bind_lift_emits. intros input Hi.
  inv_result.
  apply emits_bind; [apply run_helper_emits; intros r; right; by eauto 10|intros []]. observe.
Qed.

Lemma snapshot_observes operation : emits observing (snapshot operation).
Proof.
  destruct operation; cbn [snapshot]; unfold fmap, eff_fmap;
    pose proof service_state_observes; pose proof process_state_observes;
    pose proof apt_plan_observes; observe.
Qed.

Lemma ensure_unexpired_observes plan : emits observing (ensure_unexpired plan).
Proof. unfold ensure_unexpired, call_or. observe. Qed.

Lemma await_exit_observes polls handle : emits observing (await_exit polls handle).
Proof. induction polls; cbn [await_exit]; unfold exited, call_or; observe. Qed.

(** Nothing here touches the state of the component that calls it. *)
Lemma trusted_components_keeps current path : keeps_state (trusted_components current path).
Proof.
  revert current. induction path as [|c path IH]; intros current; cbn [trusted_components];
    unfold call_or; keeps_tac.
Qed.

Hint Resolve trusted_components_keeps : sentia.

Lemma trusted_file_digest_keeps path : keeps_state (trusted_file_digest path).
Proof. unfold trusted_file_digest, trusted_path, call_or. keeps_tac. Qed.

Hint Resolve trusted_file_digest_keeps : sentia.

Lemma digest_files_keeps paths files : keeps_state (digest_files paths files).
Proof. revert files. induction paths; intros files; cbn [digest_files]; keeps_tac. Qed.

Lemma run_helper_keeps executable arguments input timeout :
  keeps_state (run_helper executable arguments input timeout).
Proof. unfold run_helper, trusted_path, call_or. keeps_tac. Qed.

Hint Resolve digest_files_keeps run_helper_keeps : sentia.

Lemma service_state_keeps unit : keeps_state (service_state unit).
Proof. unfold service_state, run_fixed, trusted_file_digest, trusted_path, call_or. keeps_tac. Qed.

Lemma process_state_keeps pid : keeps_state (process_state pid).
Proof. unfold process_state, process_start_of, call_or. keeps_tac. Qed.

Lemma apt_call_keeps operation expected : keeps_state (apt_call operation expected).
Proof. unfold apt_call, ensure_unexpired, call_or. keeps_tac. Qed.

Hint Resolve service_state_keeps process_state_keeps apt_call_keeps : sentia.

Lemma snapshot_keeps operation : keeps_state (snapshot operation).
Proof. unfold snapshot, apt_plan, fmap, eff_fmap. keeps_tac. Qed.

Lemma await_exit_keeps polls handle : keeps_state (await_exit polls handle).
Proof. induction polls; cbn [await_exit]; unfold exited, call_or; keeps_tac. Qed.

Hint Resolve await_exit_keeps : sentia.

Lemma execute_keeps plan : keeps_state (execute plan).
Proof.
  unfold execute, execute_service, execute_kill, run_fixed, ensure_unexpired, ProcessHandle_open,
    exited, terminate, call_or. keeps_tac.
Qed.

(** ** What is done *)

(** The one event that carries out a plan. *)
Definition carries_out (plan : CanonicalPlan) (before : list (event syscall)) (e : event syscall)
  : Prop :=
  match plan_operation plan with
  | OpService action unit =>
      exists arguments r, service_arguments action unit = Ok arguments /\
        e = Event _ (Spawn (helper_command SYSTEMCTL arguments None)) r
  | OpProcessKill pid =>
      exists fd r, Event _ (PidfdOpen pid) (Some fd) ∈ before /\
        Event _ (PidfdPoll fd) (Some false) ∈ before /\
        e = Event _ (PidfdSendSignal fd SIGTERM) r
  | operation =>
      exists request bytes r, apt_request operation (Some plan) = Ok request /\
        value_to_vec request = Some bytes /\
        e = Event _ (Spawn (helper_command APT_WORKER [] (Some bytes))) r
  end.

(** The clock was read inside the plan's lifetime. *)
Definition clock_within (plan : CanonicalPlan) (e : event syscall) : Prop :=
  exists now, e = Event _ Clock (Some now) /\ issued_at plan <= now < expires_at plan.

Lemma call_or_value {A} (c : syscall (option A)) code env h s a :
  value (call_or c code env h s) = Ok a ->
  trace (call_or c code env h s) = [Event _ c (Some a)].
Proof.
  unfold call_or, mbind, eff_bind, perform, lift. cbn. rewrite ?app_nil_r.
  intros H. inv_result. by rewrite H.
Qed.

Lemma call_or_ensures {A} (c : syscall (option A)) code :
  ensures (call_or c code) (fun _ a t => t = [Event _ c (Some a)]).
Proof. intros env h s a. apply call_or_value. Qed.

Lemma ensure_unexpired_value plan env h s u :
  value (ensure_unexpired plan env h s) = Ok u ->
  Exists (clock_within plan) (trace (ensure_unexpired plan env h s)).
Proof.
  unfold ensure_unexpired. intros H. apply run_bind_Ok in H as (now & Hn & Hc & -> & _).
  apply call_or_value in Hn as ->. rewrite lift_value in Hc. inv_result. zbool.
  apply Exists_app. left. constructor. exists now. split; [done|lia].
Qed.

(** A path was found to be a root-owned entry nobody else can write. *)
Definition checked (before : list (event syscall)) (path : string) : Prop :=
  exists metadata, Event _ (SymlinkMetadata path) (Some metadata) ∈ before /\
    untrusted metadata = false.

(** The path and all its ancestors, from the root. *)
Fixpoint ancestors (current : string) (path : list Component) : list string :=
  match path with
  | [] => []
  | c :: rest => push current c :: ancestors (push current c) rest
  end.

Lemma checked_mono before after path : before ⊆ after -> checked before path -> checked after path.
Proof. intros Hs (md & Hin & Hu). exists md. eauto. Qed.

Lemma trusted_components_value current path env h s u :
  value (trusted_components current path env h s) = Ok u ->
  Forall (checked (trace (trusted_components current path env h s))) (ancestors current path).
Proof.
  revert current h s. induction path as [|c path IH]; intros current h s H; [constructor|].
  cbn [trusted_components ancestors] in *.
  apply run_bind_Ok in H as (cur & Hcur & H & -> & _). rewrite lift_value in Hcur.
  assert (cur = push current c) as -> by (destruct c; by inv_result).
  apply run_bind_Ok in H as (md & Hmd & H & -> & _). apply call_or_value in Hmd.
  apply run_bind_Ok in H as ([] & Hg & H & -> & _). rewrite lift_value in Hg. inv_result.
  cbn [lift trace final app] in *. rewrite Hmd in *. constructor.
  - exists md. split; [left|done].
  - eapply Forall_impl; [apply IH; exact H|]. intros p. apply checked_mono.
    cbn [app]. by apply list_subseteq_cons.
Qed.

Lemma trusted_path_value path env h s u :
  value (trusted_path path env h s) = Ok u ->
  Forall (checked (trace (trusted_path path env h s))) (ancestors "" path).
Proof.
  unfold trusted_path. intros H. apply run_bind_Ok in H as ([] & _ & H & -> & _).
  cbn [lift trace final app] in *. by eapply trusted_components_value.
Qed.

Lemma call_or_does {A} Q (act : list (event syscall) -> event syscall -> Prop)
    (c : syscall (option A)) code :
  (forall r, act [] (Event _ c r)) -> does Q act (call_or c code).
Proof.
  intros H. unfold call_or. apply does_bind_l; [by apply does_perform|].
  intros a. apply emits_lift.
Qed.

Definition spawns (command : CommandLine) (e : event syscall) : Prop :=
  exists r, e = Event _ (Spawn command) r.

(** Helpers are fixed, trusted binaries: every run of [run_helper] spawns at most
    one process; it is /usr/bin/systemctl or the package worker, with the given
    arguments and a cleared environment, and before it was spawned the file and every
    directory above it were seen to be root-owned, not symbolic links and not
    writable by group or others.  Everything else the run does only observes. *)
Theorem run_helper_spawns_trusted_binary executable arguments input timeout :
  does observing
    (fun before e =>
       (executable = SYSTEMCTL \/ executable = APT_WORKER) /\
       spawns (helper_command executable arguments input) e /\
       Forall (checked before) (ancestors "" (components executable)))
    (run_helper executable arguments input timeout).
Proof.
  unfold run_helper. apply does_bind_lift. intros [] Hexe. inv_result.
  eapply (does_bind_r _ (fun _ _ e => spawns (helper_command executable arguments input) e) _
    (fun _ t => Forall (checked t) (ancestors "" (components executable)))).
  - apply trusted_path_observes.
  - intros env h s a. apply trusted_path_value.
  - intros []. eapply (does_bind_r _ (fun _ _ e => spawns (helper_command executable arguments input) e) _
      (fun _ _ => True)); [by apply call_or_observes|done| |done].
    intros md. apply does_bind_lift. intros [] _.
    apply does_bind_l; [apply call_or_does; intros r; by exists r|]. intros child. observe.
  - intros [] t0 t1 e Ht0 He. split; [|split; [done|]].
    + destruct (String.eqb_spec executable SYSTEMCTL); [by left|].
      destruct (String.eqb_spec executable APT_WORKER); [by right|done].
    + eapply Forall_impl; [exact Ht0|]. intros p. apply checked_mono. by apply list_subseteq_app_l.
Qed.

Lemma run_helper_does executable arguments input timeout :
  does observing
    (fun _ e => spawns (helper_command executable arguments input) e)
    (run_helper executable arguments input timeout).
Proof.
  unfold run_helper. apply does_bind_lift. intros [] _.
  eapply (does_bind_r _ (fun _ _ e => spawns (helper_command executable arguments input) e) _ (fun _ _ => True));
    [apply trusted_path_observes|done| |done]. intros [].
  eapply (does_bind_r _ (fun _ _ e => spawns (helper_command executable arguments input) e) _ (fun _ _ => True));
    [by apply call_or_observes|done| |done]. intros md.
  apply does_bind_lift. intros [] _.
  apply does_bind_l; [apply call_or_does; intros r; by exists r|]. intros child. observe.
Qed.

Lemma run_fixed_does executable arguments input timeout :
  does observing
    (fun _ e => spawns (helper_command executable arguments input) e)
    (run_fixed executable arguments input timeout).
Proof.
  unfold run_fixed. apply does_bind_l; [apply run_helper_does|]. intros []. observe.
Qed.

(** A check of the clock before an action. *)
Lemma does_after_clock {A} plan (act : list (event syscall) -> event syscall -> Prop)
    (k : unit -> M A) :
  (forall b t e, act b e -> act (t ++ b) e) ->
  (forall u, does observing act (k u)) ->
  does observing (fun before e => act before e /\ Exists (clock_within plan) before)
    (ensure_unexpired plan ≫= k).
Proof.
  intros Hmono Hk.
  eapply (does_bind_r _ (fun _ => act) _ (fun _ t => Exists (clock_within plan) t)).
  - apply ensure_unexpired_observes.
  - intros env h s a. apply ensure_unexpired_value.
  - done.
  - intros _ t0 t1 e Hc Ha. split; [auto|]. apply Exists_app. by left.
Qed.

Abbreviation in_time plan act :=
  (fun before e => act before e /\ Exists (clock_within plan) before) (only parsing).

(** A first part that only observes changes neither. *)
Lemma does_in_time_after {A B} plan (act : list (event syscall) -> event syscall -> Prop)
    (m : M A) (k : A -> M B) :
  emits observing m -> (forall b t e, act b e -> act (t ++ b) e) ->
  (forall a, does observing (in_time plan act) (k a)) ->
  does observing (in_time plan act) (m ≫= k).
Proof.
  intros Hm Hmono Hk.
  eapply (does_bind_r _ (fun _ => in_time plan act) _ (fun _ _ => True)); [done|done|done|].
  intros _ t0 t1 e _ [Ha Hc]. split; [auto|]. apply Exists_app. by right.
Qed.

Lemma carries_out_mono plan before t e :
  carries_out plan before e -> carries_out plan (t ++ before) e.
Proof.
  unfold carries_out. destruct (plan_operation plan); try done.
  intros (fd & r & Ho & Hp & ->). exists fd, r. rewrite !elem_of_app. auto.
Qed.

Lemma execute_service_does plan action unit :
  plan_operation plan = OpService action unit ->
  does observing (in_time plan (carries_out plan)) (execute_service plan action unit).
Proof.
  intros Hop. unfold execute_service.
  apply does_in_time_after; [apply service_state_observes|apply carries_out_mono|intros state].
  apply does_bind_lift. intros [] _.
  apply does_after_clock; [apply carries_out_mono|intros []].
  apply does_bind_lift. intros arguments Harg.
  apply does_bind_l; [|pose proof service_state_observes; intros ?; observe].
  eapply does_mono; [|apply run_fixed_does]. cbn. intros b e (r & ->).
  unfold carries_out. rewrite Hop. eauto.
Qed.

Lemma apt_call_does plan :
  does observing
    (in_time plan (fun _ e => exists request bytes r,
       apt_request (plan_operation plan) (Some plan) = Ok request /\
       value_to_vec request = Some bytes /\
       e = Event _ (Spawn (helper_command APT_WORKER [] (Some bytes))) r))
    (apt_call (plan_operation plan) (Some plan)).
Proof.
  unfold apt_call. apply does_after_clock; [done|intros []].
  apply does_bind_lift. intros request Hreq. apply does_bind_lift. intros bytes Hb. inv_result.
  apply does_bind_l; [|intros []; observe].
  eapply does_mono; [|apply run_helper_does]. cbn. intros b e (r & ->). eauto 10.
Qed.
Definition signals (fd : Z) (e : event syscall) : Prop :=
  exists r, e = Event _ (PidfdSendSignal fd SIGTERM) r.

Lemma execute_kill_does plan pid :
  does observing
    (in_time plan (fun before e => exists fd, Event _ (PidfdOpen pid) (Some fd) ∈ before /\
        Event _ (PidfdPoll fd) (Some false) ∈ before /\ signals fd e))
    (execute_kill plan pid).
Proof.
  unfold execute_kill.
  eapply (does_bind_r _ (fun fd => in_time plan (fun before e =>
      Event _ (PidfdPoll fd) (Some false) ∈ before /\ signals fd e)) _
    (fun fd t => Event _ (PidfdOpen pid) (Some fd) ∈ t)).
  - unfold ProcessHandle_open. emits_tac. by apply call_or_observes.
  - intros env h s fd H. unfold ProcessHandle_open in *.
    apply run_bind_Ok in H as (? & _ & H & -> & _). apply call_or_value in H as ->.
    rewrite elem_of_app. right. left.
  - intros fd. apply does_in_time_after; [apply process_state_observes| |intros current].
    { intros b t e [Hb He]. split; [by rewrite elem_of_app; right|done]. }
    eapply (does_bind_r _ (fun gone => in_time plan (fun _ e => gone = false /\ signals fd e)) _
      (fun gone t => Event _ (PidfdPoll fd) (Some gone) ∈ t)).
    + by apply call_or_observes.
    + intros env h s gone H. unfold exited in *. apply call_or_value in H as ->. left.
    + intros gone. apply does_bind_lift. intros [] Hg. inv_result. subst gone.
      apply does_after_clock; [done|]. intros [].
      apply does_bind_l; [|intros ?; apply await_exit_observes].
      unfold terminate. apply does_bind_l; [|intros ?; apply emits_lift].
      apply does_perform. intros r. split; [done|by exists r].
    + intros gone t0 t1 e Ht [[-> He] Hc]. split; [split; [|done]|apply Exists_app; by right].
      rewrite elem_of_app. by left.
  - intros fd t0 t1 e Ht [[Hp He] Hc]. split; [|apply Exists_app; by right].
    exists fd. rewrite !elem_of_app. auto.
Qed.

Lemma execute_does plan :
  does observing (in_time plan (carries_out plan)) (execute plan).
Proof.
  unfold execute. apply does_bind_lift. intros [] _.
  destruct (plan_operation plan) as [action unit|pid|packages|packages| |] eqn:Hop.
  1: by apply execute_service_does.
  1: { eapply does_mono; [|apply execute_kill_does]. cbn. intros b e [(fd & Ho & Hp & r & ->) Hc].
       split; [|done]. unfold carries_out. rewrite Hop. eauto. }
  all: rewrite <-Hop; eapply does_mono; [|apply apt_call_does]; cbn; intros b e [He Hc];
    split; [|done]; unfold carries_out; rewrite Hop in *; done.
Qed.

(** C7 Execution does what the plan says and nothing else: every run of [execute]
    only observes the machine except for at most one event.  That event is the
    systemctl verb of the plan on its unit, or the package worker run on the request
    that carries the plan's approval, or one SIGTERM sent through a descriptor that
    was opened for the plan's pid and had not exited; and before it the clock was
    read inside the plan's lifetime. *)
Theorem execute_performs_only_the_plan (plan : CanonicalPlan) env h s :
  let t := trace (execute plan env h s) in
  Forall observing t \/
  exists before e after, t = before ++ e :: after /\
    Forall observing before /\ Forall observing after /\
    carries_out plan before e /\ Exists (clock_within plan) before.
Proof.
  destruct (execute_does plan env h s) as [H|(b & e & c & Ht & Hb & [He Hc] & Ha)]; [by left|].
  right. exists b, e, c. auto.
Qed.

(** ** Worker responses and parsed state *)

(** A worker response counts only if it answers this very request: an accepted
    response parses, speaks protocol 1.0, repeats the request id and the operation of
    the request, is no error, and comes from a worker that exited successfully; an
    accepted plan is at most 262144 bytes and keeps the worker's digest, which is 64
    lower-case hexadecimal digits. *)
Theorem accepted_worker_response output success request executing v :
  interpret_apt_response output success request executing = Ok v ->
  success = true /\
  exists response, value_from_slice output = Some response /\
    get response "protocol_version" = Some (VString "1.0") /\
    get response "request_id" = get request "request_id" /\
    get response "operation" = get request "operation" /\
    get response "status" = Some (VString "ok") /\
    if executing then v = response
    else exists result plan bytes digest,
      get response "result" = Some result /\ get result "canonical_plan" = Some plan /\
      get result "plan_digest" = Some (VString digest) /\
      len digest = 64 /\ bytes_all is_lower_hex digest = true /\
      value_to_vec plan = Some bytes /\ len bytes <= 262144 /\
      get v "canonical_plan" = Some plan /\ get v "plan_digest" = Some (VString digest).
Proof.
  assert (forall (o : option Value) (x : string), o ≫= v_as_str = Some x -> o = Some (VString x)) as Hstr.
  { intros [[]|] x; cbn; naive_solver. }
  unfold interpret_apt_response. intros H. inv_result.
  split; [done|]. eexists. split; [done|].
  do 4 (split; [by auto|]). destruct executing.
  - by inv_result.
  - inv_result. zbool. unfold worker_digest_ok in *. inv_result. zbool. subst v. do 4 eexists. eauto 20.
Qed.
End executor.

(** The process identity cannot be forged through the process name: for a stat
    line with any command name (it may hold parentheses, spaces, digits or newlines),
    the start time is the 20th field after the name, whatever the name is, and the
    name that is shown is exactly the command name. *)
Theorem stat_line_round_trip pid name fields :
  lacks "(" pid = true -> lacks ")" fields = true ->
  parse_start_ticks (stat_line pid name fields)
    = (field ← ok_or (nth_error (split_whitespace fields) 19) "invalid_process_state";
       ok_or (parse_uint U64_MAX field) "invalid_process_state") /\
  (exists rest, split_once "(" (stat_line pid name fields) = Some (pid +:+ " ", rest) /\
     rsplit_once ")" rest = Some (name, fields)).
Proof.
  intros Hp Hf. destruct (split_comm pid name fields Hp Hf) as [Hr Hs]. split.
  - unfold parse_start_ticks. by rewrite Hr.
  - eexists. split; [exact Hs|]. by apply rsplit_once_app.
Qed.

(** A process named [x) R 1 1] that tries to shift the fields. *)
Lemma stat_line_round_trip_witness :
  parse_start_ticks (stat_line "4242" "x) R 1 1"
    " S 1 1 1 0 -1 4194560 1 0 0 0 0 0 0 0 20 0 1 0 9001 0 0") = Ok 9001.
Proof.
  destruct (stat_line_round_trip "4242" "x) R 1 1"
    " S 1 1 1 0 -1 4194560 1 0 0 0 0 0 0 0 20 0 1 0 9001 0 0" eq_refl eq_refl) as [H _].
  rewrite H. vm_compute. reflexivity.
Defined.

(** ** Witnesses *)

Definition demo_request : Value :=
  object [("request_id", VString "sentia-root-plan"); ("operation", VString "apt_update")].
Definition demo_response : Value :=
  object [("request_id", VString "sentia-root-plan"); ("operation", VString "apt_update");
          ("protocol_version", VString "1.0"); ("status", VString "ok");
          ("result", object [("canonical_plan", VNull);
                             ("plan_digest", VString (sconcat (repeat "a" 64)))])].

(** A platform whose serializer is constant and whose parser knows one answer. *)
Definition demo_platform : Platform := {|
  gmtime_r _ := Some {| tm_year := 125; tm_mon := 0; tm_mday := 2; tm_hour := 3; tm_min := 4;
                        tm_sec := 5 |};
  value_to_vec _ := Some "null";
  value_from_slice s := if String.eqb s "answer" then Some demo_response else None;
  prepare_from_str _ := Some {| pr_version := 1; pr_operation := OpService Restart "ssh.service" |};
  prepared_to_string p := Some (plan_id (prepared_plan p));
|}.

Lemma accepted_worker_response_witness :
  exists v, interpret_apt_response (P := demo_platform) "answer" true demo_request false = Ok v /\
    get v "plan_digest" = Some (VString (sconcat (repeat "a" 64))).
Proof.
  eexists. split; [vm_compute; reflexivity|].
  edestruct (accepted_worker_response (P := demo_platform) "answer" true demo_request false)
    as (_ & response & Hr & _ & _ & _ & _ & result & plan & bytes & digest & Hres & _ & Hd & _ & _ & _ & _ & _ & Hv);
    [vm_compute; reflexivity|].
  rewrite Hv. vm_compute in Hr. injection Hr as <-.
  vm_compute in Hres. injection Hres as <-. vm_compute in Hd. by rewrite <-Hd.
Defined.
