(* ===== verification/SystemService.v ===== *)
(** * The system service (crates/sentia-privileged/src/service.rs)

    The two bus methods of the root broker.  [SystemService_prepare] and
    [SystemService_apply] are the handlers, every call they make included, over the
    plan store as shared state.  Both hold the operation lock while they touch the
    store, so handlers are serialized: a run of the service is a sequence of handler
    calls.  Every error leaves through [dbus_error]. *)

From Stdlib Require Import Ascii String.
From S2P Require Import Prelude RustStr Bounded Contract Privileged PlanStore Effects Executor.

Inductive BusError := AccessDenied (message : string) | Failed (message : string).

Definition dbus_error (error : string) : BusError :=
  if existsb (String.eqb error)
       ["authorization_denied"; "inactive_or_remote_session"; "caller_changed"]
  then AccessDenied error
  else Failed error.

Section service.
Context `{D : Digests} `{P : Platform}.
Abbreviation M A := (eff syscall PlanStore string A).

Definition now : M u64 := call_or Clock "clock_unavailable".

(** [Proxy::new] *)
Definition proxy (service path code : string) : M unit :=
  reply ← perform (BusProxy service path);
  lift (fail_if (negb reply) code).

Definition identify (name : string) : M Caller :=
  lift (fail_if (negb (starts_with ":" name) || (255 <? len name)) "invalid_bus_sender");;
  proxy "org.freedesktop.DBus" "/org/freedesktop/DBus" "bus_unavailable";;
  uid ← call_or (GetConnectionUnixUser name) "caller_disconnected";
  pid ← call_or (GetConnectionUnixProcessID name) "caller_disconnected";
  start ← process_start_of pid;
  proxy "org.freedesktop.login1" "/org/freedesktop/login1" "session_service_unavailable";;
  session_path ← call_or (GetSessionByPID pid) "inactive_or_remote_session";
  proxy "org.freedesktop.login1" session_path "session_service_unavailable";;
  active ← call_or (SessionActive session_path) "inactive_or_remote_session";
  remote ← call_or (SessionRemote session_path) "inactive_or_remote_session";
  class ← call_or (SessionClass session_path) "inactive_or_remote_session";
  user ← call_or (SessionUser session_path) "inactive_or_remote_session";
  lift (fail_if (negb active || remote || negb (String.eqb class "user") || negb (user =? uid))
          "inactive_or_remote_session");;
  still_pid ← call_or (GetConnectionUnixProcessID name) "caller_disconnected";
  (if negb (still_pid =? pid) then lift (Err "caller_changed")
   else again ← process_start_of pid; lift (fail_if (negb (again =? start)) "caller_changed"));;
  mret {| unique_name := name; caller_uid := uid; caller_pid := pid; process_start := start;
          session := session_path |}.

Definition known_actions : list string :=
  ["org.sentia.system.service-start"; "org.sentia.system.service-stop";
   "org.sentia.system.service-restart"; "org.sentia.system.service-enable";
   "org.sentia.system.process-terminate"; "org.sentia.system.package-install";
   "org.sentia.system.package-remove"; "org.sentia.system.package-update";
   "org.sentia.system.package-upgrade"].

Definition authorize (caller : Caller) (action : string) : M unit :=
  lift (fail_if (negb (existsb (String.eqb action) known_actions)) "invalid_action");;
  proxy "org.freedesktop.PolicyKit1" "/org/freedesktop/PolicyKit1/Authority"
    "authorization_unavailable";;
  reply ← perform (CheckAuthorization (unique_name caller) action 1);
  lift (match reply with
        | PolkitTimeout => Err "authorization_timeout"
        | PolkitFailed => Err "authorization_unavailable"
        | PolkitReplied authorized => fail_if (negb authorized) "authorization_denied"
        end).

(** [operation_lock.try_lock()] *)
Definition try_operation_lock : M unit :=
  locked ← perform TryLock; lift (fail_if (negb locked) "broker_busy").

(** ** [prepare] *)

Definition prepare_body (request : string) (sender : option string) : M string :=
  operation ← lift (parse_request prepare_from_str request);
  unique ← lift (ok_or sender "missing_bus_sender");
  caller ← identify unique;
  try_operation_lock;;
  state ← snapshot operation;
  current ← identify unique;
  lift (fail_if (negb (bool_decide (current = caller))) "caller_changed");;
  time ← now;
  nonce ← perform Entropy;
  prepared ← with_state (fun store => prepare store caller operation state time nonce);
  lift (ok_or (prepared_to_string prepared) "serialization_failed").

(** ** [apply] *)

Definition log_line (event : string) (caller : Caller) (action result : string) : M unit :=
  perform (LogLine ("sentia_privileged event=" +:+ event +:+ " uid="
    +:+ show_uint (caller_uid caller) +:+ " action=" +:+ action +:+ " result=" +:+ result)).

(** From the consumed plan to the last revalidation. *)
Definition authorize_plan (unique : string) (caller : Caller) (plan : CanonicalPlan) : M unit :=
  before ← snapshot (plan_operation plan);
  time ← now;
  lift (revalidate plan caller before time);;
  authorized ← attempt (authorize caller (plan_action_id plan));
  (match authorized with
   | Err error => log_line "authorization" caller (plan_action_id plan) error;; lift (Err error)
   | _ => mret tt
   end);;
  current ← identify unique;
  after ← snapshot (plan_operation plan);
  time ← now;
  lift (revalidate plan current after time).

Definition execute_plan (caller : Caller) (plan : CanonicalPlan) : M Value :=
  result ← attempt (execute plan);
  log_line "execution" caller (plan_action_id plan)
    (match result with Err error => error | _ => "completed" end);;
  lift result.

Definition apply_body (id digest : string) (sender : option string) : M string :=
  unique ← lift (ok_or sender "missing_bus_sender");
  caller ← identify unique;
  try_operation_lock;;
  time ← now;
  plan ← with_state (fun store => consume store id digest caller time);
  authorize_plan unique caller plan;;
  result ← execute_plan caller plan;
  lift (ok_or (value_to_vec result) "serialization_failed").

Definition SystemService_prepare (request : string) (sender : option string)
  : eff syscall PlanStore BusError string := eff_map_err dbus_error (prepare_body request sender).
Definition SystemService_apply (id digest : string) (sender : option string)
  : eff syscall PlanStore BusError string := eff_map_err dbus_error (apply_body id digest sender).

(** A run of the service: bus calls one after the other. *)
Inductive bus_call :=
| BusPrepare (request : string) (sender : option string)
| BusApply (id digest : string) (sender : option string).

Definition serve (c : bus_call) : eff syscall PlanStore BusError string :=
  match c with
  | BusPrepare request sender => SystemService_prepare request sender
  | BusApply id digest sender => SystemService_apply id digest sender
  end.

Fixpoint serve_all (calls : list bus_call) : eff syscall PlanStore BusError unit :=
  match calls with
  | [] => mret tt
  | c :: calls' => attempt (serve c);; serve_all calls'
  end.

(** ** Lemmas *)

Lemma identify_observes name : emits observing (identify name).
Proof. unfold identify, proxy, process_start_of, call_or. emits_tac; done. Qed.

Lemma authorize_observes caller action : emits observing (authorize caller action).
Proof. unfold authorize, proxy. emits_tac; done. Qed.

Lemma now_observes : emits observing now.
Proof. unfold now, call_or. emits_tac; done. Qed.

Lemma lock_observes : emits observing try_operation_lock.
Proof. unfold try_operation_lock. emits_tac; done. Qed.

Lemma log_observes event caller action r : emits observing (log_line event caller action r).
Proof. unfold log_line. emits_tac; done. Qed.

Hint Resolve identify_observes authorize_observes now_observes lock_observes log_observes
  snapshot_observes : sentia.

Lemma prepare_observes request sender : emits observing (prepare_body request sender).
Proof. unfold prepare_body. emits_tac; done. Qed.

Lemma authorize_plan_observes unique caller plan : emits observing (authorize_plan unique caller plan).
Proof. unfold authorize_plan. emits_tac; done. Qed.

Lemma identify_keeps name : keeps_state (identify name).
Proof. unfold identify, proxy, process_start_of, call_or. keeps_tac. Qed.

Lemma lock_keeps : keeps_state try_operation_lock.
Proof. unfold try_operation_lock. keeps_tac. Qed.

Lemma now_keeps : keeps_state now.
Proof. unfold now, call_or. keeps_tac. Qed.

Hint Resolve identify_keeps snapshot_keeps execute_keeps : sentia.

Lemma authorize_keeps caller action : keeps_state (authorize caller action).
Proof. unfold authorize, proxy. keeps_tac. Qed.

Lemma authorize_plan_keeps unique caller plan : keeps_state (authorize_plan unique caller plan).
Proof. unfold authorize_plan, authorize, proxy, now, log_line, call_or. keeps_tac. Qed.

Lemma execute_plan_keeps caller plan : keeps_state (execute_plan caller plan).
Proof. unfold execute_plan, log_line. keeps_tac. Qed.

Definition polkit_yes (caller : Caller) (action : string) : event syscall :=
  Event _ (CheckAuthorization (unique_name caller) action 1) (PolkitReplied true).

Lemma authorize_ensures caller action :
  ensures (authorize caller action) (fun _ _ t => exists t1, Forall observing t1 /\
    t = t1 ++ [polkit_yes caller action]).
Proof.
  unfold authorize. eapply ensures_bind; [apply ensures_lift| |].
  { intros ?. eapply (ensures_bind _ _ _ _ _ (fun _ _ _ t => t = [polkit_yes caller action])
      (fun _ _ t => exists t1, Forall observing t1 /\ t = t1 ++ [polkit_yes caller action])).
    - apply (ensures_emits _ observing). unfold proxy. emits_tac; done.
    - intros ?. eapply ensures_bind; [apply ensures_perform|intros r; apply ensures_lift|].
      cbn. intros env [| |[]] t [] u -> [Hr ->]; done.
    - cbn. intros env u0 t u1 u [Ht _] ->. eauto. }
  cbn. intros env u0 t u1 u [_ ->] H. exact H.
Qed.

Lemma revalidate_Ok plan caller state time u :
  revalidate plan caller state time = Ok u ->
  plan_caller plan = caller /\ plan_state plan = state /\
  issued_at plan <= time < expires_at plan /\
  plan_action_id plan = action_id (plan_operation plan).
Proof.
  unfold revalidate. intros H. inv_result. zbool.
  destruct (String.eqb_spec (plan_action_id plan) (action_id (plan_operation plan)));
    [|by inv_result].
  repeat split; try done; lia.
Qed.

(** The kernel said when the process of the caller was started. *)
Definition started_at (caller : Caller) (t : list (event syscall)) : Prop :=
  exists text, Event _ (ReadToString ("/proc/" +:+ show_uint (caller_pid caller) +:+ "/stat")) (Some text) ∈ t /\
    parse_start_ticks text = Ok (process_start caller).

(** What the replies of the bus and of the login manager said about a caller, and that its
    connection and its process were still the same after the login manager had answered. *)
Record vouched (name : string) (caller : Caller) (t : list (event syscall)) : Prop := {
  vo_name : unique_name caller = name;
  vo_uid : Event _ (GetConnectionUnixUser name) (Some (caller_uid caller)) ∈ t;
  vo_pid : Event _ (GetConnectionUnixProcessID name) (Some (caller_pid caller)) ∈ t;
  vo_session : Event _ (GetSessionByPID (caller_pid caller)) (Some (session caller)) ∈ t;
  vo_active : Event _ (SessionActive (session caller)) (Some true) ∈ t;
  vo_local : Event _ (SessionRemote (session caller)) (Some false) ∈ t;
  vo_class : Event _ (SessionClass (session caller)) (Some "user") ∈ t;
  vo_user : Event _ (SessionUser (session caller)) (Some (caller_uid caller)) ∈ t;
  vo_still : exists consulted again, t = consulted ++ again /\
    started_at caller consulted /\ Event _ (SessionUser (session caller)) (Some (caller_uid caller)) ∈ consulted /\
    Event _ (GetConnectionUnixProcessID name) (Some (caller_pid caller)) ∈ again /\ started_at caller again;
}.

Lemma process_start_ensures pid :
  ensures (process_start_of pid : M u64) (fun _ start t => exists text,
    t = [Event _ (ReadToString ("/proc/" +:+ show_uint pid +:+ "/stat")) (Some text)] /\ parse_start_ticks text = Ok start).
Proof.
  unfold process_start_of. eapply ensures_step; [apply call_or_ensures|intros text].
  eapply ensures_mono; [|apply ensures_lift]. intros env start t [Hp ->] u ->. by exists text.
Qed.

Lemma ensures_true {A} (m : M A) : ensures m (fun _ _ _ => True).
Proof. done. Qed.

Lemma still_ensures (still pid : u32) (start : u64) :
  ensures (if negb (still =? pid) then lift (Err "caller_changed")
           else again ← process_start_of pid; lift (fail_if (negb (again =? start)) "caller_changed") : M unit)
    (fun _ _ t => still = pid /\ exists text,
       t = [Event _ (ReadToString ("/proc/" +:+ show_uint pid +:+ "/stat")) (Some text)] /\ parse_start_ticks text = Ok start).
Proof.
  destruct (Z.eqb_spec still pid) as [->|]; cbn [negb]; [|by intros env h s u].
  eapply ensures_step; [apply process_start_ensures|intros again].
  eapply ensures_mono; [|apply ensures_lift]. intros env u t [Hr ->] v (text & -> & Hp). inv_result. zbool. subst again. by eauto.
Qed.

(** Only the user in front of the machine is a caller: [identify] returns a caller
    only when the bus names the uid and pid behind the sender, and the login manager
    says that this pid belongs to a session that is active, not remote, of class
    "user" and owned by the same uid; the caller carries exactly those values. *)
Theorem identify_accepts_active_local_user name env h store caller :
  value (identify name env h store) = Ok caller ->
  vouched name caller (trace (identify name env h store)).
Proof.
  revert env h store caller.
  enough (ensures (identify name) (fun _ caller t => vouched name caller t)) by done.
  unfold identify.
  eapply ensures_step; [apply ensures_lift|intros []].
  eapply ensures_step; [apply ensures_true|intros []].
  eapply ensures_step; [apply call_or_ensures|intros uid].
  eapply ensures_step; [apply call_or_ensures|intros pid].
  eapply ensures_step; [apply process_start_ensures|intros start].
  eapply ensures_step; [apply ensures_true|intros []].
  eapply ensures_step; [apply call_or_ensures|intros path].
  eapply ensures_step; [apply ensures_true|intros []].
  eapply ensures_step; [apply call_or_ensures|intros active].
  eapply ensures_step; [apply call_or_ensures|intros remote].
  eapply ensures_step; [apply call_or_ensures|intros class].
  eapply ensures_step; [apply call_or_ensures|intros user].
  eapply ensures_step; [apply ensures_lift|intros []].
  eapply ensures_step; [apply call_or_ensures|intros still_pid].
  eapply ensures_step; [apply (still_ensures still_pid pid start)|intros []].
  eapply ensures_mono; [|apply ensures_ret].
  intros env caller ? [-> ->] ? (-> & text' & -> & Hp') ? -> ? [Hg ->] ? -> ? -> ? -> ? -> t3 _ ? -> t4 _ ? (text & -> & Hp) ? -> ? -> t6 _ ? _.
  inv_result. subst. zbool. subst user.
  match goal with H : String.eqb _ _ = true |- _ => apply String.eqb_eq in H as -> end.
  split; unfold started_at; cbn [unique_name caller_uid caller_pid process_start session]; try done;
    rewrite ?elem_of_app, ?elem_of_cons; try tauto.
  match goal with |- exists c a, ?t = c ++ a /\ _ => cut (exists c a, t = c ++ a /\
    a = [Event _ (GetConnectionUnixProcessID name) (Some pid); Event _ (ReadToString ("/proc/" +:+ show_uint pid +:+ "/stat")) (Some text')] /\
    Event _ (ReadToString ("/proc/" +:+ show_uint pid +:+ "/stat")) (Some text) ∈ c /\ Event _ (SessionUser path) (Some uid) ∈ c) end.
  { intros (c & a & Ht & -> & Hc & Hu). eexists c, _. split; [exact Ht|]. split; [by exists text|]. split; [done|].
    split; [by left|]. exists text'. split; [by right; left|done]. }
  rewrite app_nil_r, app_nil_l, !app_assoc. eexists _, ([_] ++ [_]).
  split; [symmetry; apply app_assoc|]. split; [reflexivity|]. rewrite ?elem_of_app, ?elem_of_cons. tauto.
Qed.

(** ** The checks of an apply call *)

Definition tick (time : u64) : event syscall := Event _ Clock (Some time).
Definition within_lifetime (plan : CanonicalPlan) (time : u64) : Prop := issued_at plan <= time < expires_at plan.

(** The sender was identified, at this point of the run, as [caller]. *)
Definition identified (unique : string) (caller : Caller) (env : environment syscall)
    (h : list (event syscall)) (s : PlanStore) (t : list (event syscall)) : Prop :=
  ran (identify unique) env h s t caller /\ vouched unique caller t.

(** The state was seen, at this point of the run, to be the one of the plan, inside the
    lifetime of the plan. *)
Definition seen_unchanged (plan : CanonicalPlan) (env : environment syscall)
    (h : list (event syscall)) (s : PlanStore) (t : list (event syscall)) : Prop :=
  exists look time, t = look ++ [tick time] /\ ran (snapshot (plan_operation plan)) env h s look (plan_state plan) /\
    within_lifetime plan time.

(** The checks between the consumption of the plan and its execution, in their order: the
    state is the previewed one, polkit says yes, the same caller is identified again, and the
    state is still the previewed one. *)
Definition authorized_run (unique : string) (plan : CanonicalPlan) (env : environment syscall)
    (h : list (event syscall)) (s : PlanStore) (t : list (event syscall)) : Prop :=
  exists first ask again last,
    let yes := polkit_yes (plan_caller plan) (action_id (plan_operation plan)) in
    t = first ++ ask ++ yes :: again ++ last /\
    seen_unchanged plan env h s first /\
    Forall observing ask /\
    identified unique (plan_caller plan) env (h ++ first ++ ask ++ [yes]) s again /\
    seen_unchanged plan env (h ++ first ++ ask ++ yes :: again) s last.

Lemma now_ran env h (s : PlanStore) t time : ran now env h s t time -> t = [tick time].
Proof. intros [<- Hv]. exact (call_or_value _ _ _ _ _ _ Hv). Qed.

Lemma authorize_plan_runs unique caller plan env h s u :
  value (authorize_plan unique caller plan env h s) = Ok u ->
  plan_caller plan = caller /\ authorized_run unique plan env h s (trace (authorize_plan unique caller plan env h s)).
Proof.
  unfold authorize_plan. intros H.
  apply run_step in H as (before & t1 & Hsee & H & ->); [|apply snapshot_keeps].
  apply run_step in H as (time & t2 & Hnow & H & ->); [|apply now_keeps]. apply now_ran in Hnow as ->.
  apply run_lift_step in H as ([] & Hr & H & ->). apply revalidate_Ok in Hr as (Hc & Hs & Hl & Ha).
  apply run_step in H as (authorized & t3 & [Ht3 Hauth] & H & ->); [|apply keeps_attempt, authorize_keeps].
  destruct authorized as [[]|e|].
  2: { by apply run_bind_Ok in H as (? & Hx & _); apply run_bind_Ok in Hx as (? & _ & ? & _). }
  2: { unfold attempt in Hauth. by destruct (value (authorize _ _ _ _ _)). }
  pose proof (ensures_attempt string _ _ _ (authorize_ensures caller (plan_action_id plan)) env _ _ _ Hauth) as (ask & Hask & Ht).
  rewrite Ht3 in Ht. clear Ht3 Hauth. subst t3.
  apply run_step in H as ([] & t0 & [<- _] & H & ->); [|apply keeps_ret].
  apply run_step in H as (current & t4 & Hid & H & ->); [|apply identify_keeps].
  apply run_step in H as (after & t5 & Hsee' & H & ->); [|apply snapshot_keeps].
  apply run_step in H as (time' & t6 & Hnow' & H & ->); [|apply now_keeps]. apply now_ran in Hnow' as ->.
  rewrite lift_value in H. apply revalidate_Ok in H as (Hc' & Hs' & Hl' & _). rewrite Ha in *.
  subst before after current caller. split; [done|].
  exists (t1 ++ [tick time]), ask, t4, (t5 ++ [tick time']). cbn [lift trace]. cbn zeta.
  cbn [mret eff_ret trace] in *. rewrite ?app_nil_r, <-!app_assoc in *. cbn [app] in *.
  split; [done|].
  split; [by exists t1, time|]. split; [done|]. split.
  - split; [done|]. by destruct Hid as [<- Hid]; apply identify_accepts_active_local_user.
  - by exists t5, time'.
Qed.

Lemma identify_name name : ensures (identify name) (fun _ caller _ => unique_name caller = name).
Proof.
  unfold identify.
  repeat (eapply ensures_step; [apply ensures_true|intros ?]).
  eapply ensures_mono; [|apply ensures_ret]. cbn. intros env caller t [-> _]. cbn. auto.
Qed.

(** ** Applying a plan *)

(** Events of a part that only observes are not the significant one. *)
Lemma not_observing_split {t : list (event syscall)} :
  Exists (fun e => ~ observing e) t -> ~ Forall observing t.
Proof.
  intros He Hf. apply Exists_exists in He as (e & Hin & Hne).
  rewrite Forall_forall in Hf. by apply Hne, Hf.
Qed.

Lemma execute_plan_significant caller plan env h s :
  Exists (fun e => ~ observing e) (trace (execute_plan caller plan env h s)) ->
  exists before e after, trace (execute_plan caller plan env h s) = before ++ e :: after /\
    Forall observing (before ++ after) /\ carries_out plan before e /\
    Exists (clock_within plan) before.
Proof.
  intros H. pose proof (execute_does (S := PlanStore) plan) as Hd.
  assert (does observing (fun before e => carries_out plan before e /\
            Exists (clock_within plan) before) (execute_plan caller plan)) as Hp.
  { unfold execute_plan. apply does_bind_l.
    - intros env' h' s'. specialize (Hd env' h' s'). unfold attempt.
      by destruct (value (execute plan env' h' s')).
    - intros r. apply emits_bind; [apply log_observes|]. intros []. apply emits_lift. }
  destruct (Hp env h s) as [Hf|(b & e & a & Ht & Hb & [He Hc] & Ha)].
  - by destruct (not_observing_split H).
  - exists b, e, a. rewrite Forall_app. auto.
Qed.

(** The part of [apply] after the plan was consumed. *)
Definition after_consume (unique : string) (caller : Caller) (plan : CanonicalPlan) : M string :=
  authorize_plan unique caller plan;;
  result ← execute_plan caller plan;
  lift (ok_or (value_to_vec result) "serialization_failed").

Lemma after_consume_keeps unique caller plan : keeps_state (after_consume unique caller plan).
Proof.
  unfold after_consume. pose proof authorize_plan_keeps. pose proof execute_plan_keeps. keeps_tac.
Qed.

(** What an apply call does before it consumes the plan: the sender is identified, the
    operation lock is taken and the clock is read inside the lifetime of the plan. *)
Definition admitted (unique : string) (plan : CanonicalPlan) (env : environment syscall)
    (h : list (event syscall)) (s : PlanStore) (t : list (event syscall)) : Prop :=
  exists who time, t = who ++ [Event _ TryLock true; tick time] /\
    identified unique (plan_caller plan) env h s who /\ within_lifetime plan time.

Lemma lock_taken env h s u :
  value (try_operation_lock env h s) = Ok u -> trace (try_operation_lock env h s) = [Event _ TryLock true].
Proof. unfold try_operation_lock, mbind, eff_bind, perform, lift. cbn. by destruct (env h bool TryLock). Qed.

(** An apply call goes beyond observing only after it consumed the plan. *)
Lemma apply_significant id digest sender env h store :
  Exists (fun e => ~ observing e) (trace (apply_body id digest sender env h store)) ->
  exists unique plan t, sender = Some unique /\ Forall observing t /\
    store !! id = Some {| prepared_plan := plan; prepared_digest := digest |} /\
    admitted unique plan env h store t /\
    let o := after_consume unique (plan_caller plan) plan env (h ++ t) (delete id store) in
    trace (apply_body id digest sender env h store) = t ++ trace o /\
    final (apply_body id digest sender env h store) = final o /\
    Exists (fun e => ~ observing e) (trace o).
Proof.
  unfold apply_body. intros H.
  apply effect_after_lift in H as (unique & Hs & H & ->). inv_result.
  apply effect_after_step in H as (caller & t1 & Hid & Htr & Ht1 & -> & -> & H);
    [|apply identify_observes|apply identify_keeps].
  apply effect_after_step in H as ([] & t2 & Hlock & Hl2 & Ht2 & -> & -> & H);
    [|apply lock_observes|apply lock_keeps]. apply lock_taken in Hlock. rewrite Hlock in Hl2.
  apply effect_after_step in H as (time & t3 & Hnow & Hl3 & Ht3 & -> & -> & H);
    [|apply now_observes|apply now_keeps]. pose proof (now_ran _ _ _ _ _ (conj (eq_sym Hl3) Hnow)) as Htick. clear Hl3 Hnow.
  apply (effect_after_bind observing) in H as (plan & Hc & -> & -> & H); [|apply emits_with_state].
  unfold with_state in *. destruct (consume store id digest caller time) as [store' r] eqn:Hcons.
  cbn [value trace final] in *. subst r.
  destruct (consume_cases store id digest caller time)
    as [(_ & _ & p & Hp & Hcaller & Hst & Hr)|(_ & e & He & _)];
    rewrite Hcons in *; cbn in *; [|done].
  destruct (_ || _) eqn:Hlife; [done|]. zbool.
  destruct (String.eqb_spec (prepared_digest p) digest) as [Hd|]; [|done].
  injection Hr as ->. subst store' digest caller. rewrite app_nil_r in *.
  exists unique, (prepared_plan p), (t1 ++ t2 ++ t3). rewrite !app_assoc.
  split; [done|]. split; [by rewrite !Forall_app|]. split; [by destruct p|]. split; [|done].
  exists t1, time. split; [subst t2 t3; rewrite <-?app_assoc; done|]. split; [|unfold within_lifetime; lia].
  split; [by split|]. rewrite Htr. by apply identify_accepts_active_local_user.
Qed.

(** C1 Nothing privileged happens without consent.  Whenever an apply call changes the
    machine in any environment (emits an event that is more than an observation), its trace
    is, in this order: the sender is identified as the caller the plan was prepared for (with
    what the bus and the login manager say about an active local session), the operation lock
    is taken and the clock is inside the lifetime of the plan; the plan, stored under the
    given id with the given digest, leaves the store; the snapshot of the machine is the
    previewed state; polkit authorizes that caller for the action of the plan's operation;
    after which the sender is identified again as the same caller and the snapshot is again
    the previewed state, both inside the lifetime; then the only significant event carries
    out the plan, after a last reading of the clock. *)
Theorem apply_requires_authorization id digest sender env h store :
  let o := SystemService_apply id digest sender env h store in
  Exists (fun e => ~ observing e) (trace o) ->
  exists unique plan t_admit t_authorize before e after,
    sender = Some unique /\
    store !! id = Some {| prepared_plan := plan; prepared_digest := digest |} /\
    final o = delete id store /\
    trace o = t_admit ++ t_authorize ++ before ++ e :: after /\
    Forall observing (t_admit ++ t_authorize ++ before ++ after) /\
    admitted unique plan env h store t_admit /\
    authorized_run unique plan env (h ++ t_admit) (delete id store) t_authorize /\
    carries_out plan before e /\ Exists (clock_within plan) before.
Proof.
  cbn zeta. unfold SystemService_apply, eff_map_err. cbn [trace final]. intros H.
  apply apply_significant in H as (unique & plan & t & -> & Ht & Hp & Hn & Htr & Hfin & H).
  rewrite Htr, Hfin. clear Htr Hfin. rewrite after_consume_keeps. unfold after_consume in *.
  apply effect_after_step in H as ([] & t4 & Hauth & -> & Ht4 & -> & _ & H);
    [|apply authorize_plan_observes|apply authorize_plan_keeps].
  apply authorize_plan_runs in Hauth as [_ Hauth].
  set (t4 := trace (authorize_plan _ _ _ _ _ _)) in *. clearbody t4.
  rewrite (proj1 (bind_lift_run _ _ _ _ _)) in *.
  apply execute_plan_significant in H as (before & e & after & -> & Hobs & Hdo & Hclock).
  exists unique, plan, t, t4, before, e, after.
  repeat (split; [done|]). split; [|done]. rewrite !Forall_app in *. tauto.
Qed.

(** ** At most once *)

Lemma apply_observes_or_forgets id digest sender env h store :
  (Exists (fun e => ~ observing e) (trace (apply_body id digest sender env h store)) ->
   final (apply_body id digest sender env h store) !! id = None).
Proof.
  intros H. apply apply_significant in H as (unique & plan & t & _ & _ & _ & _ & _ & -> & _).
  rewrite after_consume_keeps. apply lookup_delete_eq.
Qed.

(** An apply call for an unknown id is refused before anything happens. *)
Lemma apply_unknown_observes id digest sender env h store :
  store !! id = None -> Forall observing (trace (apply_body id digest sender env h store)).
Proof.
  intros Hid. unfold apply_body.
  apply run_bind_Forall; [constructor|]. intros unique _. cbn [lift final].
  apply run_bind_Forall; [apply identify_observes|]. intros caller _. rewrite identify_keeps.
  apply run_bind_Forall; [apply lock_observes|]. intros [] _. rewrite lock_keeps.
  apply run_bind_Forall; [apply now_observes|]. intros time _. rewrite now_keeps.
  apply run_bind_Forall; [apply emits_with_state|]. intros plan Hp. exfalso.
  unfold with_state in Hp. destruct (consume_cases store id digest caller time)
    as [(_ & _ & p & Hs & _)|(_ & e & He & _)]; [congruence|].
  destruct (consume store id digest caller time). cbn in *. congruence.
Qed.

(** The id stays unknown unless the generator draws it again. *)
Definition stays_unknown (id : string) (s : PlanStore) (t : list (event syscall)) (s' : PlanStore)
  : Prop :=
  (forall nonce, Event _ Entropy (Some nonce) ∈ t -> hex_encode nonce <> id) ->
  s !! id = None -> s' !! id = None.

Lemma stays_unknown_refl id s t : stays_unknown id s t s.
Proof. by intros _. Qed.

Lemma stays_unknown_trans id s t s' t' s'' :
  stays_unknown id s t s' -> stays_unknown id s' t' s'' -> stays_unknown id s (t ++ t') s''.
Proof.
  intros H1 H2 Hn Hs. apply H2; [|apply H1; [|done]]; intros nonce Hin; apply Hn;
    rewrite elem_of_app; auto.
Qed.

Lemma lookup_None_subseteq (m n : PlanStore) id : m ⊆ n -> n !! id = None -> m !! id = None.
Proof. intros Hs Hn. destruct (m !! id) eqn:E; [|done]. by rewrite (lookup_weaken _ _ _ _ E Hs) in Hn. Qed.

Lemma prepare_stays_unknown (store : PlanStore) id caller operation state time nonce :
  (forall n, nonce = Some n -> hex_encode n <> id) ->
  store !! id = None -> (prepare store caller operation state time nonce).1 !! id = None.
Proof.
  intros Hn Hs. unfold prepare.
  destruct (Operation_validate operation) as [[]| |] eqn:Hop; [|done..].
  pose proof (lookup_None_subseteq _ _ id (retain_live_subseteq time store) Hs) as Hl.
  destruct (_ || _); [done|].
  destruct (build_prepared caller operation state time nonce) as [q| |] eqn:Hq; [|done..].
  destruct (build_prepared_wf _ _ _ _ _ _ Hop Hq) as (_ & _ & _ & _ & _ & n & Hn' & Hid).
  cbn. rewrite Hid, lookup_insert_ne; [done|]. by apply Hn.
Qed.

(** Sequences inside a handler. *)
Ltac unknown_step :=
  apply relates_bind; [apply stays_unknown_trans| |intros ?].
Ltac unknown_keeps :=
  apply relates_keeps; [apply stays_unknown_refl|
  first [apply keeps_lift|apply identify_keeps|apply lock_keeps|apply now_keeps
        |apply snapshot_keeps|apply after_consume_keeps]].

Lemma prepare_body_stays_unknown id request sender :
  relates (stays_unknown id) (prepare_body request sender).
Proof.
  unfold prepare_body. do 8 (unknown_step; [unknown_keeps|]).
  intros env h s Hn Hs. unfold mbind, eff_bind, perform, with_state, lift in *.
  cbn [value trace final] in *.
  pose proof (prepare_stays_unknown s id a1 a a3 a6 (env h _ Entropy)) as Hp.
  destruct (prepare s a1 a a3 a6 (env h _ Entropy)) as [s' r]. cbn in *.
  assert (forall n, env h _ Entropy = Some n -> hex_encode n <> id) as Hfresh.
  { intros n Hr. apply Hn. destruct r; cbn; rewrite <-Hr; left. }
  by destruct r; apply Hp.
Qed.

Lemma apply_body_stays_unknown id id' digest sender :
  relates (stays_unknown id) (apply_body id' digest sender).
Proof.
  unfold apply_body. do 4 (unknown_step; [unknown_keeps|]). unknown_step; [|unknown_keeps].
  intros env h s _ Hs. unfold with_state.
  pose proof (consume_subseteq s id' digest a0 a2) as Hc.
  destruct (consume s id' digest a0 a2) as [s' r]. cbn in *.
  by eapply lookup_None_subseteq.
Qed.

Lemma serve_stays_unknown id c : relates (stays_unknown id) (serve c).
Proof.
  destruct c as [request sender|id' digest sender]; intros env h s;
    [apply prepare_body_stays_unknown|apply apply_body_stays_unknown].
Qed.

Lemma serve_all_stays_unknown id calls : relates (stays_unknown id) (serve_all calls).
Proof.
  induction calls as [|c calls IH]; cbn [serve_all].
  - apply relates_keeps; [apply stays_unknown_refl|apply keeps_ret].
  - unknown_step; [apply relates_attempt, serve_stays_unknown|apply IH].
Qed.

(** C6 A plan is carried out at most once: after an apply call for an id changed the
    machine, then whatever further calls the service handles, a later apply call for
    the same id (by anyone, with any digest) only observes, provided the random
    generator did not draw that 256-bit id again in between. *)
Theorem plan_applied_at_most_once id digest sender calls digest' sender' env h store :
  let o1 := SystemService_apply id digest sender env h store in
  let o2 := serve_all calls env (h ++ trace o1) (final o1) in
  let o3 := SystemService_apply id digest' sender' env ((h ++ trace o1) ++ trace o2) (final o2) in
  Exists (fun e => ~ observing e) (trace o1) ->
  (forall nonce, Event _ Entropy (Some nonce) ∈ trace o2 -> hex_encode nonce <> id) ->
  Forall observing (trace o3).
Proof.
  cbn zeta. intros H1 Hn. apply apply_unknown_observes.
  apply (serve_all_stays_unknown id calls env _ _ Hn). by apply apply_observes_or_forgets.
Qed.
End service.

(** ** Witnesses *)

(** A machine on which the caller 4242 asks to terminate process 777. *)
Definition demo_env : environment syscall := fun _ _ c =>
  match c in syscall A return A with
  | SymlinkMetadata _ | Stat _ => Some (MkMetadata false true 0 493)
  | Canonicalize path => Some path
  | OpenNoFollow _ => Some 3
  | Fstat _ => Some (MkMetadata false true 0 420)
  | ReadToEnd _ _ => Some ""
  | ReadToString _ => Some "777 (sleep) S 1 1 1 0 -1 4194560 1 0 0 0 0 0 0 0 20 0 1 0 9001 0 0"
  | OwnPid => 99
  | Clock => Some 1000
  | Entropy => Some demo_nonce
  | Spawn _ => None
  | Communicate _ _ => TimedOut
  | KillGroup _ _ | Sleep _ | WaitChild _ | LogLine _ => tt
  | PidfdOpen _ => Some 5
  | PidfdPoll _ => Some false
  | PidfdSendSignal _ _ => true
  | BusProxy _ _ => true
  | GetConnectionUnixUser _ => Some 1000
  | GetConnectionUnixProcessID _ => Some 4242
  | GetSessionByPID _ => Some "/org/freedesktop/login1/session/_31"
  | SessionActive _ => Some true
  | SessionRemote _ => Some false
  | SessionClass _ => Some "user"
  | SessionUser _ => Some 1000
  | CheckAuthorization _ _ _ => PolkitReplied true
  | TryLock => true
  end.

Definition demo_kill_platform : Platform := {|
  gmtime_r _ := None;
  value_to_vec _ := Some "{}";
  value_from_slice _ := None;
  prepare_from_str _ := Some {| pr_version := 1; pr_operation := OpProcessKill 777 |};
  prepared_to_string p := Some (plan_id (prepared_plan p));
|}.

Definition demo_prepared : PlanStore :=
  final (SystemService_prepare (D := demo_digests) (P := demo_kill_platform) "{}" (Some ":1.42")
           demo_env [] ∅).

Definition demo_applied : outcome syscall PlanStore BusError string :=
  SystemService_apply (D := demo_digests) (P := demo_kill_platform) demo_id demo_digest
    (Some ":1.42") demo_env [] demo_prepared.

Definition is_signal (e : event syscall) : bool :=
  match ev_call e with PidfdSendSignal _ _ => true | _ => false end.

Lemma signal_not_observing {D : Digests} {P : Platform} t :
  existsb is_signal t = true -> Exists (fun e => ~ observing e) t.
Proof.
  intros (e & Hin & He)%existsb_exists. apply Exists_exists. exists e.
  split; [by apply list_elem_of_In|]. destruct e as [A c r]. destruct c; cbn in *; try done. tauto.
Qed.

Lemma apply_requires_authorization_witness :
  existsb is_signal (trace demo_applied) = true /\
  exists unique, Some ":1.42" = Some unique /\ final demo_applied = delete demo_id demo_prepared.
Proof.
  assert (existsb is_signal (trace demo_applied) = true) as H by (vm_compute; reflexivity).
  split; [exact H|].
  destruct (apply_requires_authorization (D := demo_digests) (P := demo_kill_platform)
    demo_id demo_digest (Some ":1.42") demo_env [] demo_prepared (signal_not_observing _ H))
    as (unique & plan & t1 & t2 & b & e & a & Hs & _ & Hf & _).
  exists unique. split; [exact Hs|exact Hf].
Defined.

Lemma identify_accepts_active_local_user_witness :
  vouched ":1.42" demo_caller
    (trace (identify ":1.42" demo_env [] ∅)).
Proof.
  apply (identify_accepts_active_local_user ":1.42" demo_env [] ∅ demo_caller).
  vm_compute. reflexivity.
Defined.

Lemma plan_applied_at_most_once_witness :
  let o2 := serve_all (D := demo_digests) (P := demo_kill_platform) [] demo_env
              ([] ++ trace demo_applied) (final demo_applied) in
  Forall (observing (D := demo_digests) (P := demo_kill_platform))
    (trace (SystemService_apply (D := demo_digests) (P := demo_kill_platform) demo_id demo_digest
       (Some ":1.42") demo_env (([] ++ trace demo_applied) ++ trace o2) (final o2))).
Proof.
  refine (plan_applied_at_most_once (D := demo_digests) (P := demo_kill_platform) demo_id
    demo_digest (Some ":1.42") [] demo_digest (Some ":1.42") demo_env [] demo_prepared _ _).
  - apply signal_not_observing. vm_compute. reflexivity.
  - intros nonce H. apply elem_of_nil in H. contradiction.
Defined.
