(* ===== verification/Queue.v ===== *)
(** * The inference queue (crates/sentia-local-broker/src/queue.rs)

    Connections reserve a place, wait for one of [max_active] permits and release
    both when the reservation is dropped.  The counters are changed under a mutex;
    taking and returning a permit happens outside it.  [qstep] has one step for each
    of these points, so the invariant covers every interleaving of any number of
    reservations. *)

From S2P Require Import Prelude.

Inductive QueueError := GlobalFull | UserFull | QCancelled.

Record Counts := MkCounts { queued : usize; active : usize; by_uid : gmap u32 usize }.

Definition Counts_default : Counts := {| queued := 0; active := 0; by_uid := ∅ |}.

Record Limits := { max_active : usize; global_limit : usize; per_uid_limit : usize }.

(** ** The critical sections *)

(** [InferenceQueue::reserve]: the new counts and the position. *)
Definition reserve (q : Limits) (counts : Counts) (uid : u32) : result QueueError (Counts * u32) :=
  fail_if (global_limit q <=? queued counts + active counts) GlobalFull;;
  let user_count := default 0 (by_uid counts !! uid) in
  fail_if (per_uid_limit q <=? user_count) UserFull;;
  let counts' := {| queued := queued counts + 1; active := active counts;
                    by_uid := <[uid := default 0 (by_uid counts !! uid) + 1]> (by_uid counts) |} in
  Ok (counts', queued counts' mod 4294967296).

(** [Reservation::acquire] after the permit was obtained. *)
Definition acquired (counts : Counts) : Counts :=
  {| queued := saturating_sub (queued counts) 1; active := active counts + 1;
     by_uid := by_uid counts |}.

(** [Reservation::drop] after the phase was replaced. *)
Definition dropped (was_active : bool) (uid : u32) (counts : Counts) : Counts :=
  {| queued := if was_active then queued counts else saturating_sub (queued counts) 1;
     active := if was_active then saturating_sub (active counts) 1 else active counts;
     by_uid := match by_uid counts !! uid with
               | Some value =>
                   if saturating_sub value 1 =? 0 then delete uid (by_uid counts)
                   else <[uid := saturating_sub value 1]> (by_uid counts)
               | None => by_uid counts
               end |}.

(** ** The whole queue *)

(** A live reservation: waiting; holding a permit it has not counted yet; counted as
    active; or being dropped, its permit already returned. *)
Inductive Phase := PhQueued | PhGranted | PhActive | PhReleasing (was_active : bool).

Record Queue := MkQueue {
  counts : Counts;
  permits : usize;
  reservations : list (u32 * Phase);
}.

Definition InferenceQueue_new (q : Limits) : Queue :=
  {| counts := Counts_default; permits := max_active q; reservations := [] |}.

Inductive qstep (q : Limits) : Queue -> Queue -> Prop :=
| StepReserve s uid counts' position :
    reserve q (counts s) uid = Ok (counts', position) ->
    qstep q s (MkQueue counts' (permits s) ((uid, PhQueued) :: reservations s))
| StepPermit s uid l1 l2 :
    reservations s = l1 ++ (uid, PhQueued) :: l2 -> 0 < permits s ->
    qstep q s (MkQueue (counts s) (permits s - 1) (l1 ++ (uid, PhGranted) :: l2))
| StepAcquired s uid l1 l2 :
    reservations s = l1 ++ (uid, PhGranted) :: l2 ->
    qstep q s (MkQueue (acquired (counts s)) (permits s) (l1 ++ (uid, PhActive) :: l2))
| StepDropQueued s uid l1 l2 :
    (* cancelled or abandoned while waiting *)
    reservations s = l1 ++ (uid, PhQueued) :: l2 ->
    qstep q s (MkQueue (counts s) (permits s) (l1 ++ (uid, PhReleasing false) :: l2))
| StepDropActive s uid l1 l2 :
    (* replacing the phase drops the permit *)
    reservations s = l1 ++ (uid, PhActive) :: l2 ->
    qstep q s (MkQueue (counts s) (permits s + 1) (l1 ++ (uid, PhReleasing true) :: l2))
| StepDropped s uid was_active l1 l2 :
    reservations s = l1 ++ (uid, PhReleasing was_active) :: l2 ->
    qstep q s (MkQueue (dropped was_active uid (counts s)) (permits s) (l1 ++ l2)).

Definition reachable (q : Limits) (s : Queue) : Prop := rtc (qstep q) (InferenceQueue_new q) s.

(** ** Counting *)

Definition cnt {A} (p : A -> bool) (l : list A) : Z := Z.of_nat (length (filter p l)).

Lemma cnt_nil {A} (p : A -> bool) : cnt p [] = 0.
Proof. done. Qed.

Lemma cnt_cons {A} (p : A -> bool) x l : cnt p (x :: l) = (if p x then 1 else 0) + cnt p l.
Proof. unfold cnt. rewrite filter_cons. destruct (p x); case_decide; cbn [length]; naive_solver lia. Qed.

Lemma cnt_app {A} (p : A -> bool) l k : cnt p (l ++ k) = cnt p l + cnt p k.
Proof. unfold cnt. rewrite filter_app, length_app. lia. Qed.

Lemma cnt_nonneg {A} (p : A -> bool) l : 0 <= cnt p l.
Proof. unfold cnt. lia. Qed.

#[export] Hint Rewrite @cnt_nil @cnt_cons @cnt_app : sentia.

(** Waiting in the eyes of the counters, counted as active, holding a permit. *)
Definition counted_queued (r : u32 * Phase) : bool :=
  match r.2 with PhQueued | PhGranted | PhReleasing false => true | _ => false end.
Definition counted_active (r : u32 * Phase) : bool :=
  match r.2 with PhActive | PhReleasing true => true | _ => false end.
Definition holds_permit (r : u32 * Phase) : bool :=
  match r.2 with PhGranted | PhActive => true | _ => false end.
Definition of_uid (uid : u32) (r : u32 * Phase) : bool := r.1 =? uid.

(** ** The invariant *)

Record queue_ok (q : Limits) (s : Queue) : Prop := {
  qo_queued : queued (counts s) = cnt counted_queued (reservations s);
  qo_active : active (counts s) = cnt counted_active (reservations s);
  qo_uid : forall uid, by_uid (counts s) !! uid =
             (let n := cnt (of_uid uid) (reservations s) in if n =? 0 then None else Some n);
  qo_permits : permits s + cnt holds_permit (reservations s) = max_active q;
  qo_free : 0 <= permits s;
  qo_global : queued (counts s) + active (counts s) <= global_limit q;
  qo_user : forall uid, cnt (of_uid uid) (reservations s) <= per_uid_limit q;
}.

Lemma queue_ok_new q :
  0 <= max_active q -> 0 <= global_limit q -> 0 <= per_uid_limit q ->
  queue_ok q (InferenceQueue_new q).
Proof.
  intros Ha Hg Hu. split; cbn; intros; autorewrite with sentia; try done; try lia.
Qed.

(** The counter of a user after one more reservation. *)
Lemma by_uid_insert (m : gmap u32 usize) uid uid' n n' :
  (forall u, m !! u = if n u =? 0 then None else Some (n u)) ->
  (forall u, n' u = (if uid =? u then 1 else 0) + n u) -> (forall u, 0 <= n u) ->
  <[uid := default 0 (m !! uid) + 1]> m !! uid' = if n' uid' =? 0 then None else Some (n' uid').
Proof.
  intros Hm Hn Hpos. rewrite Hn. specialize (Hpos uid'). destruct (Z.eqb_spec uid uid') as [<-|Hne].
  - rewrite lookup_insert_eq, Hm. destruct (Z.eqb_spec (n uid) 0) as [->|]; cbn; [done|].
    destruct (Z.eqb_spec (1 + n uid) 0); [lia|]. f_equal. lia.
  - by rewrite lookup_insert_ne, Hm.
Qed.

(** The counter of a user after one reservation less. *)
Lemma by_uid_remove (m : gmap u32 usize) uid uid' n n' :
  (forall u, m !! u = if n u =? 0 then None else Some (n u)) ->
  (forall u, n u = (if uid =? u then 1 else 0) + n' u) -> (forall u, 0 <= n' u) ->
  match m !! uid with
  | Some value => if saturating_sub value 1 =? 0 then delete uid m
                  else <[uid := saturating_sub value 1]> m
  | None => m
  end !! uid' = if n' uid' =? 0 then None else Some (n' uid').
Proof.
  intros Hm Hn Hpos. rewrite (Hm uid).
  pose proof (Hn uid) as Hu. rewrite Z.eqb_refl in Hu. pose proof (Hpos uid).
  destruct (Z.eqb_spec (n uid) 0); [lia|]. unfold saturating_sub.
  replace (Z.max 0 (n uid - 1)) with (n' uid) by lia.
  destruct (Z.eqb_spec uid uid') as [<-|Hne].
  - destruct (Z.eqb_spec (n' uid) 0); [by rewrite lookup_delete_eq|by rewrite lookup_insert_eq].
  - specialize (Hn uid'). destruct (Z.eqb_spec uid uid') as [|_]; [done|].
    assert (n' uid' = n uid') as -> by lia. rewrite <-Hm. destruct (Z.eqb_spec (n' uid) 0);
      [by rewrite lookup_delete_ne|by rewrite lookup_insert_ne].
Qed.

Ltac count_solve :=
  autorewrite with sentia in *; cbn [counted_queued counted_active holds_permit snd fst] in *;
  try lia.

Lemma reserve_preserves q s uid counts' position :
  reserve q (counts s) uid = Ok (counts', position) -> queue_ok q s ->
  queue_ok q (MkQueue counts' (permits s) ((uid, PhQueued) :: reservations s)).
Proof.
  intros Hres [Hq Ha Hu Hp Hf Hg Hl]. unfold reserve in Hres. inv_result. zbool. simplify_eq.
  split; cbn [counts permits reservations queued active by_uid]; try (count_solve; fail).
  - intros uid'. apply (by_uid_insert _ _ _ (fun u => cnt (of_uid u) (reservations s))
      (fun u => cnt (of_uid u) ((uid, PhQueued) :: reservations s)));
      [exact Hu| |intros; apply cnt_nonneg].
    intros u. by autorewrite with sentia.
  - intros uid'. specialize (Hl uid'). autorewrite with sentia. unfold of_uid at 1. cbn [fst].
    destruct (Z.eqb_spec uid uid') as [<-|]; [|lia].
    rename select (default 0 _ < _) into Hlt. rewrite (Hu uid) in Hlt. cbn zeta in Hlt.
    destruct (Z.eqb_spec (cnt (of_uid uid) (reservations s)) 0); cbn in Hlt; lia.
Qed.

(** A reservation counts for its user in every phase. *)
Lemma cnt_of_uid_mid uid' uid ph (l1 l2 : list (u32 * Phase)) :
  cnt (of_uid uid') (l1 ++ (uid, ph) :: l2)
  = (if uid =? uid' then 1 else 0) + cnt (of_uid uid') (l1 ++ l2).
Proof. autorewrite with sentia. unfold of_uid at 2. cbn [fst]. lia. Qed.

Lemma dropped_preserves q s uid was l1 l2 :
  reservations s = l1 ++ (uid, PhReleasing was) :: l2 -> queue_ok q s ->
  queue_ok q (MkQueue (dropped was uid (counts s)) (permits s) (l1 ++ l2)).
Proof.
  intros Hr [Hq Ha Hu Hp Hf Hg Hl]. rewrite Hr in *.
  pose proof (cnt_nonneg counted_queued (l1 ++ l2)) as N1.
  pose proof (cnt_nonneg counted_active (l1 ++ l2)) as N2.
  split; cbn [counts permits reservations dropped queued active by_uid]; unfold saturating_sub.
  1,2,4,5,6: destruct was; count_solve.
  - intros uid'. apply (by_uid_remove _ _ _ (fun u => cnt (of_uid u) (l1 ++ (uid, PhReleasing was) :: l2))
      (fun u => cnt (of_uid u) (l1 ++ l2)));
      [exact Hu|intros; apply cnt_of_uid_mid|intros; apply cnt_nonneg].
  - intros uid'. specialize (Hl uid'). rewrite cnt_of_uid_mid in Hl. destruct (uid =? uid'); lia.
Qed.

Lemma qstep_preserves q s s' : qstep q s s' -> queue_ok q s -> queue_ok q s'.
Proof.
  intros Hst Hok. destruct Hst as
    [s uid counts' position Hres|s uid l1 l2 Hr Hfree|s uid l1 l2 Hr|s uid l1 l2 Hr|s uid l1 l2 Hr
    |s uid was l1 l2 Hr].
  1: by eapply reserve_preserves. 5: by eapply dropped_preserves.
  all: destruct Hok as [Hq Ha Hu Hp Hf Hg Hl]; rewrite Hr in *.
  all: pose proof (cnt_nonneg counted_queued l1); pose proof (cnt_nonneg counted_queued l2).
  all: split; cbn [counts permits reservations acquired queued active by_uid];
    unfold saturating_sub; try (count_solve; fail).
  all: intros uid'; specialize (Hu uid'); specialize (Hl uid');
    rewrite cnt_of_uid_mid in *; done.
Qed.

Lemma reachable_ok q s :
  0 <= max_active q -> 0 <= global_limit q -> 0 <= per_uid_limit q ->
  reachable q s -> queue_ok q s.
Proof.
  intros Ha Hg Hu Hr. unfold reachable in Hr.
  apply (rtc_ind_r (queue_ok q) (InferenceQueue_new q)) in Hr; [done|by apply queue_ok_new|].
  intros y z _ Hst. by apply qstep_preserves.
Qed.

Lemma cnt_total (l : list (u32 * Phase)) : cnt counted_queued l + cnt counted_active l = vlen l.
Proof.
  induction l as [|[uid ph] l IH]; [done|]. autorewrite with sentia.
  destruct ph as [| | |[]]; cbn in *; lia.
Qed.

(** ** Properties *)

Section queue.
Context (q : Limits).
Hypothesis limits : 0 <= max_active q /\ 0 <= global_limit q /\ 0 <= per_uid_limit q.

Lemma reachable_inv s : reachable q s -> queue_ok q s.
Proof. destruct limits as (? & ? & ?). by apply reachable_ok. Qed.

(** C17 The admission limits hold in every interleaving: at any moment, the number of
    live reservations is what the two counters add up to and at most the global
    limit, no user has more than the per-user limit, and at most max_active of them
    hold a permit; the counters never go below zero, so no subtraction saturates. *)
Theorem queue_bounds s :
  reachable q s ->
  queued (counts s) + active (counts s) = vlen (reservations s) /\
  vlen (reservations s) <= global_limit q /\
  (forall uid, default 0 (by_uid (counts s) !! uid) = cnt (of_uid uid) (reservations s) /\
               cnt (of_uid uid) (reservations s) <= per_uid_limit q) /\
  cnt holds_permit (reservations s) <= max_active q /\
  0 <= queued (counts s) /\ 0 <= active (counts s).
Proof.
  intros [Hq Ha Hu Hp Hf Hg Hl]%reachable_inv. pose proof (cnt_total (reservations s)).
  pose proof (cnt_nonneg counted_queued (reservations s)).
  pose proof (cnt_nonneg counted_active (reservations s)).
  split; [lia|]. split; [lia|]. split; [|lia].
  intros uid. split; [|done]. rewrite Hu. cbn zeta.
  destruct (Z.eqb_spec (cnt (of_uid uid) (reservations s)) 0); cbn; lia.
Qed.

(** Admission is exact: in every reachable state a user's request is refused as
    globally full exactly when the global limit is reached, refused as full for the
    user exactly when only the user's limit is reached, and admitted otherwise. *)
Theorem reserve_decides s uid :
  reachable q s ->
  match reserve q (counts s) uid with
  | Err GlobalFull => vlen (reservations s) = global_limit q
  | Err UserFull => vlen (reservations s) < global_limit q /\
                    cnt (of_uid uid) (reservations s) = per_uid_limit q
  | Ok _ => vlen (reservations s) < global_limit q /\
            cnt (of_uid uid) (reservations s) < per_uid_limit q
  | _ => False
  end.
Proof.
  intros [Hq Ha Hu Hp Hf Hg Hl]%reachable_inv. pose proof (cnt_total (reservations s)).
  specialize (Hl uid). unfold reserve.
  destruct (Z.leb_spec (global_limit q) (queued (counts s) + active (counts s))); cbn; [lia|].
  rewrite Hu. cbn zeta. set (n := cnt (of_uid uid) (reservations s)) in *.
  assert (default 0 (if n =? 0 then None else Some n) = n) as ->
    by (destruct (Z.eqb_spec n 0); cbn; lia).
  destruct (Z.leb_spec (per_uid_limit q) n); cbn; lia.
Qed.

(** One reservation can always be carried to its end. *)
Definition can_reach (s : Queue) (l : list (u32 * Phase)) : Prop :=
  exists s', rtc (qstep q) s s' /\ reservations s' = l.

Lemma can_reach_step s s' l : qstep q s s' -> can_reach s' l -> can_reach s l.
Proof. intros Hst (s2 & Hr & Hl). exists s2. split; [by eapply rtc_l|done]. Qed.

Lemma release_one s uid ph l : reservations s = (uid, ph) :: l -> can_reach s l.
Proof.
  assert (forall s was, reservations s = (uid, PhReleasing was) :: l -> can_reach s l) as Hrel.
  { intros s0 was H0. eapply can_reach_step; [apply (StepDropped q s0 uid was [] l H0)|].
    eexists. done. }
  assert (forall s, reservations s = (uid, PhActive) :: l -> can_reach s l) as Hact.
  { intros s0 H0. eapply can_reach_step; [apply (StepDropActive q s0 uid [] l H0)|].
    by eapply Hrel. }
  intros Hr. destruct ph as [| | |was]; [| |by apply Hact|by eapply Hrel].
  - eapply can_reach_step; [apply (StepDropQueued q s uid [] l Hr)|]. by eapply Hrel.
  - eapply can_reach_step; [apply (StepAcquired q s uid [] l Hr)|]. by apply Hact.
Qed.

Lemma can_drain s : can_reach s [].
Proof.
  remember (reservations s) as l eqn:E. revert s E. induction l as [|[uid ph] l IH]; intros s E.
  - by exists s.
  - destruct (release_one s uid ph l) as (s' & Hr & Hl); [done|].
    destruct (IH s') as (s2 & Hr2 & Hl2); [done|]. exists s2. split; [by etrans|done].
Qed.

(** C37 Nothing leaks: from every reachable state the queue can be drained, whatever
    its reservations were doing, and a state without reservations has the initial
    counters (no user entry left behind) and all permits back. *)
Theorem queue_drains s :
  reachable q s ->
  (exists s', rtc (qstep q) s s' /\ reservations s' = []) /\
  (reservations s = [] -> s = InferenceQueue_new q).
Proof.
  intros [Hq Ha Hu Hp Hf _ _]%reachable_inv. split; [apply can_drain|]. intros Hnil.
  destruct s as [[queued active by_uid] permits rs]. cbn in *. subst rs.
  autorewrite with sentia in *. subst. rewrite Z.add_0_r in *.
  unfold InferenceQueue_new, Counts_default. do 2 f_equal; [|lia].
  apply map_empty. exact Hu.
Qed.
End queue.

(** ** Witnesses *)

Definition demo_limits : Limits := {| max_active := 1; global_limit := 2; per_uid_limit := 1 |}.
Definition demo_queue : Queue :=
  {| counts := {| queued := 1; active := 0; by_uid := {[1000 := 1]} |}; permits := 1;
     reservations := [(1000, PhQueued)] |}.

Lemma demo_queue_reachable : reachable demo_limits demo_queue.
Proof. apply rtc_once. by eapply (StepReserve _ (InferenceQueue_new demo_limits) 1000). Qed.

Lemma demo_limits_ok :
  0 <= max_active demo_limits /\ 0 <= global_limit demo_limits /\ 0 <= per_uid_limit demo_limits.
Proof. cbn. lia. Qed.

Lemma queue_bounds_witness : vlen (reservations demo_queue) <= 2.
Proof. apply (queue_bounds demo_limits demo_limits_ok demo_queue demo_queue_reachable). Defined.

Lemma reserve_decides_witness : cnt (of_uid 1000) (reservations demo_queue) = 1.
Proof.
  exact (proj2 (reserve_decides demo_limits demo_limits_ok demo_queue 1000 demo_queue_reachable)).
Defined.

Lemma queue_drains_witness :
  exists s', rtc (qstep demo_limits) demo_queue s' /\ reservations s' = [].
Proof. apply (queue_drains demo_limits demo_limits_ok demo_queue demo_queue_reachable). Defined.
