(* ===== verification/Framing.v ===== *)
(** * Newline-delimited frames

    The four readers of the services share one loop: the broker and the router
    servers read request frames ([read_frame] of
    crates/sentia-local-broker/src/server.rs and crates/sentia-router/src/server.rs),
    the router reads broker events ([read_json_line] of provider.rs) and tool
    responses ([read_tool_frame] of tools.rs).  A buffered reader delivers its bytes
    in chunks the program does not choose: [Reader] is what [fill_buf] will return,
    and the theorems hold for every way of cutting the bytes into chunks. *)

From Stdlib Require Import Ascii String.
From S2P Require Import Prelude RustStr.

(** The results of the coming [fill_buf] calls: a chunk of bytes or an I/O error;
    after the last one the stream has ended, which [fill_buf] reports by an empty
    chunk. *)
Abbreviation Reader := (list (option string)) (only parsing).

Inductive LineError := LineIo | LineEof (output : string) | LineTooLong.

#[global] Instance LineError_eq_dec : EqDecision LineError.
Proof. solve_decision. Defined.

(** [available.iter().position(|byte| *byte == b'\n')] *)
Fixpoint position_lf (s : string) : option nat :=
  match s with
  | EmptyString => None
  | String c s' => if Ascii.eqb c LF then Some O else match position_lf s' with Some i => Some (S i) | None => None end
  end.

(** [reader.consume(take)] *)
Definition unread (s : string) (reader : Reader) : Reader :=
  if is_empty s then reader else Some s :: reader.

(** The loop up to the end of one line; the result includes the line feed. *)
Fixpoint fill_line (limit : Z) (output : string) (reader : Reader)
  : result LineError (string * Reader) :=
  match reader with
  | [] => Err (LineEof output)
  | None :: _ => Err LineIo
  | Some available :: rest =>
      if is_empty available then Err (LineEof output)
      else
        match position_lf available with
        | Some index =>
            let take := S index in
            if limit <? saturating_add USIZE_MAX (len output) (Z.of_nat take) then Err LineTooLong
            else Ok (output +:+ stake take available, unread (sdrop take available) rest)
        | None =>
            if limit <? saturating_add USIZE_MAX (len output) (len available) then Err LineTooLong
            else fill_line limit (output +:+ available) rest
        end
  end.

(** [output.pop()] of the line feed, then of a carriage return. *)
Definition strip_newline (line : string) : string :=
  strip_cr (stake (String.length line - 1) line).

(** [read_frame]: empty lines are skipped; [Ok None] is a clean end. *)
Fixpoint read_frame_loop (fuel : nat) (limit : Z) (reader : Reader)
  : result LineError (option (string * Reader)) :=
  match fuel with
  | O => Err LineIo
  | S fuel' =>
      match fill_line limit EmptyString reader with
      | Ok (line, rest) =>
          let frame := strip_newline line in
          if is_empty frame then read_frame_loop fuel' limit rest else Ok (Some (frame, rest))
      | Err (LineEof output) => if is_empty output then Ok None else Err (LineEof output)
      | Err e => Err e
      | Panic => Panic
      end
  end.

(** The bytes still to come, up to the first error. *)
Fixpoint pending (reader : Reader) : string :=
  match reader with
  | [] | None :: _ => EmptyString
  | Some s :: rest => s +:+ pending rest
  end.

Definition broker_read_frame (maximum : Z) (reader : Reader) :=
  read_frame_loop (S (String.length (pending reader))) maximum reader.

Definition MAX_FRAME_BYTES : Z := 1048576.
Definition router_read_frame (maximum : Z) (reader : Reader) :=
  read_frame_loop (S (String.length (pending reader))) (Z.min maximum MAX_FRAME_BYTES) reader.

(** The readers of one response line; the bytes go to the parser with the feed. *)
Definition MAX_BROKER_FRAME_BYTES : Z := 1048576.
Definition read_json_line (reader : Reader) : result LineError (string * Reader) :=
  fill_line MAX_BROKER_FRAME_BYTES EmptyString reader.

Definition MAX_TOOL_RESULT_BYTES : Z := 262144.
Definition read_tool_line (reader : Reader) : result LineError (string * Reader) :=
  fill_line (MAX_TOOL_RESULT_BYTES + 4096) EmptyString reader.

(** ** Reference: byte by byte *)

Fixpoint line_spec (limit : Z) (output bytes : string) : result LineError (string * string) :=
  match bytes with
  | EmptyString => Err (LineEof output)
  | String c bytes' =>
      if limit <? len output + 1 then Err LineTooLong
      else if Ascii.eqb c LF then Ok (output +:+ String c EmptyString, bytes')
      else line_spec limit (output +:+ String c EmptyString) bytes'
  end.

Fixpoint frame_spec (fuel : nat) (limit : Z) (bytes : string)
  : result LineError (option (string * string)) :=
  match fuel with
  | O => Err LineIo
  | S fuel' =>
      match line_spec limit EmptyString bytes with
      | Ok (line, rest) =>
          let frame := strip_newline line in
          if is_empty frame then frame_spec fuel' limit rest else Ok (Some (frame, rest))
      | Err (LineEof output) => if is_empty output then Ok None else Err (LineEof output)
      | Err e => Err e
      | Panic => Panic
      end
  end.

(** Readers of a connection that neither fails nor delivers empty chunks. *)
Definition healthy (reader : Reader) : Prop :=
  Forall (fun c => exists s, c = Some s /\ 0 < len s) reader.

(** ** Lemmas *)

Lemma position_lf_Some s i :
  position_lf s = Some i ->
  exists a b, s = a +:+ String LF b /\ lacks LF a = true /\ i = String.length a.
Proof.
  revert i. induction s as [|c s IH]; intros i; cbn [position_lf]; [done|].
  destruct (Ascii.eqb_spec c LF) as [->|Hne].
  - intros [= <-]. by exists EmptyString, s.
  - destruct (position_lf s) as [j|]; [|done]. intros [= <-].
    destruct (IH j eq_refl) as (a & b & -> & Ha & ->). exists (String c a), b.
    split; [done|]. split; [|done]. rewrite lacks_cons, Ha. by destruct (Ascii.eqb_spec c LF).
Qed.

Lemma position_lf_None s : position_lf s = None -> lacks LF s = true.
Proof.
  induction s as [|c s IH]; cbn [position_lf]; [done|].
  destruct (Ascii.eqb_spec c LF) as [->|Hne]; [done|]. destruct (position_lf s); [done|]. intros _.
  rewrite lacks_cons, IH by done. by destruct (Ascii.eqb_spec c LF).
Qed.

(** Within the limit no [usize] addition saturates. *)
Lemma saturating_ltb limit a b :
  limit < USIZE_MAX -> 0 <= a -> 0 <= b -> (limit <? saturating_add USIZE_MAX a b) = (limit <? a + b).
Proof.
  intros. unfold saturating_add. destruct (Z.ltb_spec limit (a + b));
    [apply Z.ltb_lt; lia|apply Z.ltb_ge; lia].
Qed.

(** A run of bytes without a line feed. *)
Lemma line_spec_app limit output a s :
  lacks LF a = true ->
  line_spec limit output (a +:+ s) =
  if (limit <? len output + len a) && negb (is_empty a) then Err LineTooLong
  else line_spec limit (output +:+ a) s.
Proof.
  revert output. induction a as [|c a IH]; intros output Ha.
  - rewrite andb_false_r. cbn. by rewrite app_empty_r.
  - rewrite lacks_cons in Ha. apply andb_true_iff in Ha as [Hc Ha].
    cbn [String.append]. cbn [line_spec]. apply negb_true_iff in Hc. rewrite Hc.
    rewrite IH by done. rewrite len_app, str_app_assoc. cbn [String.append].
    replace (len (String c a)) with (1 + len a) by (unfold len; cbn; lia).
    replace (len (String c EmptyString)) with 1 by done. pose proof (len_nonneg a).
    destruct (Z.ltb_spec limit (len output + 1)), (Z.ltb_spec limit (len output + (1 + len a))),
      (Z.ltb_spec limit (len output + 1 + len a)); cbn; try done; try lia.
    all: destruct a; cbn; unfold len in *; cbn in *; done || lia.
Qed.

Lemma line_spec_lf limit output a b :
  lacks LF a = true ->
  line_spec limit output (a +:+ String LF b) =
  if limit <? len output + (len a + 1) then Err LineTooLong
  else Ok (output +:+ a +:+ String LF EmptyString, b).
Proof.
  intros Ha. rewrite line_spec_app by done. cbn [line_spec].
  rewrite Ascii.eqb_refl, len_app, str_app_assoc. pose proof (len_nonneg a).
  destruct (Z.ltb_spec limit (len output + len a)),
    (Z.ltb_spec limit (len output + len a + 1)),
    (Z.ltb_spec limit (len output + (len a + 1))); cbn; try done; try lia.
  all: by destruct (is_empty a).
Qed.

Lemma healthy_unread s reader : healthy reader -> healthy (unread s reader).
Proof.
  intros H. unfold unread. destruct (is_empty s) eqn:E; [done|]. constructor; [|done].
  exists s. split; [done|by apply is_empty_false].
Qed.

Lemma pending_unread s reader : pending (unread s reader) = s +:+ pending reader.
Proof. unfold unread. destruct (is_empty s) eqn:E; [|done]. by apply is_empty_true in E as ->. Qed.

(** The bytes up to and including the first line feed. *)
Lemma take_lf a b :
  stake (S (String.length a)) (a +:+ String LF b) = a +:+ String LF EmptyString /\
  sdrop (S (String.length a)) (a +:+ String LF b) = b.
Proof.
  replace (a +:+ String LF b) with ((a +:+ String LF EmptyString) +:+ b) by (by rewrite str_app_assoc).
  replace (S (String.length a)) with (String.length (a +:+ String LF EmptyString))
    by (rewrite str_length_app; cbn; lia).
  by rewrite stake_app_len, sdrop_app_len.
Qed.

(** The loop computes the reference on the pending bytes. *)
Lemma fill_line_spec limit output reader :
  limit < USIZE_MAX -> healthy reader ->
  match fill_line limit output reader with
  | Ok (line, rest) => line_spec limit output (pending reader) = Ok (line, pending rest) /\
                       healthy rest
  | Err e => line_spec limit output (pending reader) = Err e
  | Panic => False
  end.
Proof.
  intros Hlim. revert output. induction reader as [|c reader IH]; intros output Hh; [done|].
  apply Forall_cons in Hh as [(s & -> & Hs) Hh]. cbn [fill_line pending].
  destruct (is_empty s) eqn:Hne; [by apply is_empty_true in Hne as ->|].
  destruct (position_lf s) as [i|] eqn:Hi.
  - apply position_lf_Some in Hi as (a & b & -> & Ha & ->).
    rewrite saturating_ltb by (auto with sentia; lia).
    rewrite str_app_assoc. cbn [String.append]. rewrite line_spec_lf by done.
    replace (Z.of_nat (S (String.length a))) with (len a + 1) by (unfold len; lia).
    destruct (limit <? len output + (len a + 1)); [done|].
    destruct (take_lf a b) as [-> ->]. split; [|by apply healthy_unread].
    by rewrite pending_unread.
  - apply position_lf_None in Hi. rewrite saturating_ltb by auto with sentia.
    rewrite line_spec_app, Hne by done. rewrite andb_true_r.
    destruct (limit <? len output + len s); [done|]. by apply IH.
Qed.

Lemma line_spec_shorter limit output bytes line rest :
  line_spec limit output bytes = Ok (line, rest) -> (String.length rest < String.length bytes)%nat.
Proof.
  revert output. induction bytes as [|c bytes IH]; intros output; cbn [line_spec]; [done|].
  destruct (limit <? len output + 1); [done|]. destruct (Ascii.eqb c LF).
  - intros [= _ <-]. cbn. lia.
  - intros H. apply IH in H. cbn. lia.
Qed.

(** Fuel above the number of pending bytes is never exhausted: the only failure of a
    healthy connection is a line that is too long or not terminated. *)
Lemma line_spec_no_io limit output bytes : line_spec limit output bytes <> Err LineIo.
Proof.
  revert output. induction bytes as [|c bytes IH]; intros output; cbn [line_spec]; [done|].
  destruct (limit <? len output + 1); [done|]. by destruct (Ascii.eqb c LF).
Qed.

Lemma frame_spec_no_io limit n bytes :
  (String.length bytes < n)%nat -> frame_spec n limit bytes <> Err LineIo.
Proof.
  revert bytes. induction n as [|n IH]; intros bytes Hn; [lia|]. cbn [frame_spec].
  pose proof (line_spec_no_io limit EmptyString bytes).
  destruct (line_spec limit EmptyString bytes) as [[line rest]|[|o|]|] eqn:E; try done.
  - destruct (is_empty (strip_newline line)); [|done]. apply line_spec_shorter in E. apply IH. lia.
  - by destruct (is_empty o).
Qed.

Lemma read_frame_spec limit fuel reader :
  limit < USIZE_MAX -> healthy reader ->
  match read_frame_loop fuel limit reader with
  | Ok (Some (frame, rest)) =>
      frame_spec fuel limit (pending reader) = Ok (Some (frame, pending rest)) /\ healthy rest
  | Ok None => frame_spec fuel limit (pending reader) = Ok None
  | Err e => frame_spec fuel limit (pending reader) = Err e
  | Panic => False
  end.
Proof.
  intros Hlim. revert reader. induction fuel as [|fuel IH]; intros reader Hh; [done|].
  cbn [read_frame_loop frame_spec].
  pose proof (fill_line_spec limit EmptyString reader Hlim Hh) as Hf.
  destruct (fill_line limit EmptyString reader) as [[line rest]|e|]; [|rewrite Hf|done].
  - destruct Hf as [-> Hrest]. destruct (is_empty (strip_newline line)); [|done]. by apply IH.
  - destruct e as [|output|]; try done. by destruct (is_empty output).
Qed.

(** What remains of the result once the reader's chunks are forgotten. *)
Definition flat (r : result LineError (option (string * Reader)))
  : result LineError (option (string * string)) :=
  match r with
  | Ok (Some (frame, rest)) => Ok (Some (frame, pending rest))
  | Ok None => Ok None
  | Err e => Err e
  | Panic => Panic
  end.

Lemma flat_read_frame limit fuel reader :
  limit < USIZE_MAX -> healthy reader ->
  flat (read_frame_loop fuel limit reader) = frame_spec fuel limit (pending reader).
Proof.
  intros Hlim Hh. pose proof (read_frame_spec limit fuel reader Hlim Hh) as H.
  destruct (read_frame_loop fuel limit reader) as [[[]|]| |]; cbn; naive_solver.
Qed.

(** How the kernel cuts a connection into chunks does not matter: two readers
    with the same pending bytes produce the same frame, the same clean end or the
    same error, and leave the same bytes for the next frame; a connection without I/O
    errors always gets an answer of one of these kinds. *)
Theorem read_frame_chunking maximum reader1 reader2 :
  maximum < USIZE_MAX -> healthy reader1 -> healthy reader2 ->
  pending reader1 = pending reader2 ->
  flat (broker_read_frame maximum reader1) = flat (broker_read_frame maximum reader2) /\
  flat (router_read_frame maximum reader1) = flat (router_read_frame maximum reader2) /\
  flat (broker_read_frame maximum reader1) <> Err LineIo /\
  flat (router_read_frame maximum reader1) <> Err LineIo.
Proof.
  intros Hm H1 H2 Hp. unfold broker_read_frame, router_read_frame.
  rewrite !flat_read_frame by (done || lia). rewrite Hp.
  repeat split; try done; apply frame_spec_no_io; lia.
Qed.

Lemma read_frame_chunking_witness :
  flat (broker_read_frame 64 [Some "ab"; Some ("c" +:+ String LF "de")])
  = flat (broker_read_frame 64 [Some ("abc" +:+ String LF "d"); Some "e"]).
Proof.
  apply (read_frame_chunking 64 [Some "ab"; Some ("c" +:+ String LF "de")]
           [Some ("abc" +:+ String LF "d"); Some "e"]);
    [done|repeat constructor; by eexists|repeat constructor; by eexists|done].
Defined.

(** ** Progress *)

Lemma fill_line_shorter limit output reader line rest :
  fill_line limit output reader = Ok (line, rest) -> (String.length (pending rest) < String.length (pending reader))%nat.
Proof.
  revert output. induction reader as [|[s|] reader IH]; intros output; cbn [fill_line pending]; [done| |done].
  destruct (is_empty s); [done|]. destruct (position_lf s) as [i|] eqn:Hi.
  - apply position_lf_Some in Hi as (a & b & -> & _ & ->). rewrite (proj2 (take_lf a b)).
    destruct (_ <? _); [done|]. intros [= _ <-]. rewrite pending_unread, !str_length_app. cbn. lia.
  - destruct (_ <? _); [done|]. intros H%IH. rewrite str_length_app. lia.
Qed.

Lemma fill_line_no_panic limit output reader : fill_line limit output reader <> Panic.
Proof.
  revert output. induction reader as [|[s|] reader IH]; intros output; cbn [fill_line]; [done| |done].
  destruct (is_empty s); [done|]. by destruct (position_lf s), (_ <? _).
Qed.

(** A reader that returns a frame has moved on, whatever the connection does. *)
Lemma read_frame_progress fuel limit reader :
  match read_frame_loop fuel limit reader with
  | Ok (Some (frame, rest)) => (String.length (pending rest) < String.length (pending reader))%nat
  | Panic => False
  | _ => True
  end.
Proof.
  revert reader. induction fuel as [|fuel IH]; intros reader; cbn [read_frame_loop]; [done|].
  pose proof (fill_line_no_panic limit EmptyString reader).
  destruct (fill_line limit EmptyString reader) as [[line r]|[|o|]|] eqn:E; try done; [|by destruct (is_empty o)].
  apply fill_line_shorter in E. destruct (is_empty (strip_newline line)); [|done]. specialize (IH r).
  destruct (read_frame_loop fuel limit r) as [[[]|]| |]; try done. lia.
Qed.

(** ** Size and round trip *)

Lemma fill_line_shape limit output reader line rest :
  limit < USIZE_MAX -> lacks LF output = true ->
  fill_line limit output reader = Ok (line, rest) ->
  exists a, line = a +:+ String LF EmptyString /\ lacks LF a = true /\ len line <= limit.
Proof.
  intros Hlim. revert output. induction reader as [|[s|] reader IH]; intros output Ho;
    cbn [fill_line]; [done| |done].
  destruct (is_empty s); [done|]. destruct (position_lf s) as [i|] eqn:Hi.
  - apply position_lf_Some in Hi as (a & b & -> & Ha & ->).
    rewrite saturating_ltb by (auto with sentia; lia).
    destruct (Z.ltb_spec limit (len output + Z.of_nat (S (String.length a)))); [done|].
    rewrite (proj1 (take_lf a b)).
    intros [= <- _]. exists (output +:+ a). rewrite str_app_assoc, lacks_app, Ho, Ha. split; [done|]. split; [done|].
    rewrite !len_app. replace (len (String LF EmptyString)) with 1 by done. unfold len in *. lia.
  - apply position_lf_None in Hi. destruct (_ <? _); [done|]. apply IH.
    by rewrite lacks_app, Ho, Hi.
Qed.

Lemma strip_cr_app (s : string) : exists t, s = strip_cr s +:+ t /\ len t <= 1.
Proof.
  unfold strip_cr. destruct (strip_suffix _ s) as [r|] eqn:E; cbn.
  - apply strip_suffix_Some in E as ->. exists (String CR EmptyString). done.
  - exists EmptyString. by rewrite app_empty_r.
Qed.

Lemma strip_newline_lf a : strip_newline (a +:+ String LF EmptyString) = strip_cr a.
Proof.
  unfold strip_newline. rewrite str_length_app. cbn.
  replace (String.length a + 1 - 1)%nat with (String.length a) by lia. by rewrite stake_app_len.
Qed.

Definition frame_within (limit : Z) (frame : string) : Prop :=
  0 < len frame < limit /\ lacks LF frame = true.

Lemma read_frame_loop_shape fuel limit reader frame rest :
  limit < USIZE_MAX -> read_frame_loop fuel limit reader = Ok (Some (frame, rest)) ->
  frame_within limit frame.
Proof.
  intros Hlim. revert reader. induction fuel as [|fuel IH]; intros reader; cbn [read_frame_loop];
    [done|].
  destruct (fill_line limit EmptyString reader) as [[line r]|[|o|]|] eqn:E; try done;
    [|by destruct (is_empty o)].
  destruct (is_empty (strip_newline line)) eqn:Hne; [apply IH|]. intros [= <- _].
  apply fill_line_shape in E as (a & -> & Ha & Hl); [|done|done].
  rewrite strip_newline_lf in *. apply is_empty_false in Hne.
  destruct (strip_cr_app a) as (t & Ht & _). rewrite Ht in Ha, Hl.
  rewrite lacks_app in Ha. apply andb_true_iff in Ha as [Ha _]. rewrite !len_app in Hl.
  pose proof (len_nonneg t). split; [|done].
  replace (len (String LF EmptyString)) with 1 in Hl by done. lia.
Qed.

(** A frame is never larger than configured: whatever a connection sends, in
    whatever chunks and with whatever errors, a returned frame is not empty, holds no
    line feed and is shorter than the limit, which for the router is never above
    1 MiB. *)
Theorem read_frame_bounded maximum reader frame rest :
  maximum < USIZE_MAX ->
  (broker_read_frame maximum reader = Ok (Some (frame, rest)) -> frame_within maximum frame) /\
  (router_read_frame maximum reader = Ok (Some (frame, rest)) ->
   frame_within (Z.min maximum MAX_FRAME_BYTES) frame).
Proof. intros Hm. split; apply read_frame_loop_shape; lia. Qed.

Lemma read_frame_bounded_witness :
  broker_read_frame 8 [Some "{}"; Some (String LF EmptyString); None] = Ok (Some ("{}", [None])) /\
  frame_within 8 "{}".
Proof.
  split; [reflexivity|].
  apply (read_frame_bounded 8 [Some "{}"; Some (String LF EmptyString); None] "{}" [None]);
    [done|reflexivity].
Defined.

(** What a connection handler sees when it reads frame after frame. *)
Fixpoint read_frames (n : nat) (maximum : Z) (reader : Reader) : result LineError (list string) :=
  match n with
  | O => Ok []
  | S n' =>
      match broker_read_frame maximum reader with
      | Ok (Some (frame, rest)) => frames ← read_frames n' maximum rest; Ok (frame :: frames)
      | Ok None => Ok []
      | Err e => Err e
      | Panic => Panic
      end
  end.

Lemma read_frames_S n maximum reader :
  read_frames (S n) maximum reader =
  match broker_read_frame maximum reader with
  | Ok (Some (frame, rest)) => frames ← read_frames n maximum rest; Ok (frame :: frames)
  | Ok None => Ok []
  | Err e => Err e
  | Panic => Panic
  end.
Proof. done. Qed.

(** What the writers send: one serialized value and a line feed.  JSON text holds no
    raw line feed and does not end in a carriage return. *)
Definition write_line (frame : string) : string := frame +:+ String LF EmptyString.
Definition sendable (maximum : Z) (frame : string) : Prop :=
  frame <> EmptyString /\ lacks LF frame = true /\ ends_with (String CR EmptyString) frame = false /\
  len frame < maximum.

Lemma frame_spec_write fuel maximum frame bytes :
  sendable maximum frame ->
  frame_spec (S fuel) maximum (write_line frame +:+ bytes) = Ok (Some (frame, bytes)).
Proof.
  intros (Hne & Hlf & Hcr & Hl). unfold write_line. rewrite str_app_assoc. cbn [String.append].
  cbn [frame_spec]. rewrite line_spec_lf by done. cbn [String.append].
  replace (maximum <? len EmptyString + (len frame + 1)) with false
    by (symmetry; apply Z.ltb_ge; change (len EmptyString) with 0; lia).
  rewrite strip_newline_lf. unfold strip_cr, ends_with in *.
  destruct (strip_suffix _ frame); [done|]. cbn. by destruct frame.
Qed.

(** Framing round trip: frames written one after the other, each within the limit,
    are read back exactly and in order, whatever chunks the bytes arrive in, and then
    the end is seen. *)
Theorem frames_round_trip maximum frames reader :
  maximum < USIZE_MAX -> healthy reader -> Forall (sendable maximum) frames ->
  pending reader = sconcat (map write_line frames) ->
  read_frames (S (length frames)) maximum reader = Ok frames.
Proof.
  intros Hm Hh Hs. revert reader Hh. induction Hs as [|frame frames Hf Hs IH];
    intros reader Hh Hp; rewrite read_frames_S; unfold broker_read_frame;
    pose proof (read_frame_spec maximum (S (String.length (pending reader))) reader Hm Hh) as Hr.
  - rewrite Hp in *. cbn [map sconcat] in *.
    destruct (read_frame_loop _ maximum reader) as [[[]|]| |]; [naive_solver|done|done|done].
  - rewrite Hp in Hr |- *. cbn [map sconcat] in Hr |- *. rewrite frame_spec_write in Hr by done.
    destruct (read_frame_loop _ maximum reader) as [[[f rest]|]| |]; try done.
    destruct Hr as [[= <- Hrest] Hh']. cbn [map sconcat]. by rewrite IH.
Qed.

Lemma frames_round_trip_witness :
  read_frames 3 16 [Some "{"; Some ("}" +:+ String LF "[]"); Some (String LF EmptyString)]
  = Ok ["{}"; "[]"].
Proof.
  apply (frames_round_trip 16 ["{}"; "[]"]
           [Some "{"; Some ("}" +:+ String LF "[]"); Some (String LF EmptyString)]).
  - done.
  - repeat constructor; by eexists.
  - by repeat constructor.
  - done.
Defined.
