(* ===== verification/Chunks.v ===== *)
(** * Cutting text at character boundaries

    [split_bounded] and [truncate_utf8] of crates/sentia-router/src/server.rs cut
    answers into bounded pieces.  Both walk back from a byte index to the start of a
    character; the theorems say that they terminate, lose nothing and never cut a
    character. *)

From Stdlib Require Import Ascii String.
From S2P Require Import Prelude RustStr.

(** [while end > start && !value.is_char_boundary(end) { end -= 1 }] *)
Fixpoint back_to_boundary (value : string) (start end_ : nat) : nat :=
  match end_ with
  | O => O
  | S end' =>
      if (start <? end_)%nat && negb (is_char_boundary value end_)
      then back_to_boundary value start end' else end_
  end.

(** The loop of [split_bounded]; [None] when the fuel is used up. *)
Fixpoint split_loop (fuel : nat) (value : string) (maximum start : nat) : option (list string) :=
  if (start <? String.length value)%nat then
    match fuel with
    | O => None
    | S fuel' =>
        let end_ := back_to_boundary value start (Nat.min (start + maximum) (String.length value)) in
        output ← split_loop fuel' value maximum end_;
        Some (stake (end_ - start) (sdrop start value) :: output)
    end
  else Some [].

Definition split_bounded (value : string) (maximum : nat) : option (list string) :=
  if (String.length value <=? maximum)%nat then Some [value]
  else split_loop (String.length value) value maximum 0.

(** [while !value.is_char_boundary(end) { end -= 1 }]: index 0 is a boundary. *)
Definition truncate_utf8 (value : string) (maximum : nat) : string * bool :=
  if (String.length value <=? maximum)%nat then (value, false)
  else (stake (back_to_boundary value 0 maximum) value, true).

(** ** Boundaries *)

Lemma get_sdrop i s :
  byte_at s i = match sdrop i s with EmptyString => None | String c _ => Some c end.
Proof. revert i. induction s as [|c s IH]; intros [|i]; cbn; try done. apply IH. Qed.

Lemma boundary_sdrop s i :
  (0 < i <= String.length s)%nat ->
  is_char_boundary s i = negb (first_byte is_cont (sdrop i s)).
Proof.
  intros Hi. unfold is_char_boundary. destruct (Nat.eqb_spec i 0); [lia|].
  rewrite get_sdrop. pose proof (length_sdrop i s). destruct (sdrop i s); cbn in *; [|done].
  apply Nat.eqb_eq. lia.
Qed.

Lemma sdrop_add i j s : sdrop (i + j) s = sdrop j (sdrop i s).
Proof. revert s. induction i; intros [|c s]; cbn; try done. by destruct j. Qed.

(** The walk back stops at the last boundary not after where it started. *)
Lemma back_spec value start end_ :
  (start <= end_)%nat ->
  let e := back_to_boundary value start end_ in
  (start <= e <= end_)%nat /\
  (e = start \/ is_char_boundary value e = true) /\
  (forall b, (start < b <= end_)%nat -> is_char_boundary value b = true -> (b <= e)%nat).
Proof.
  induction end_ as [|end' IH]; intros Hle; cbn zeta; cbn [back_to_boundary].
  { split; [lia|]. split; [left; lia|lia]. }
  destruct (Nat.ltb_spec start (S end')); cbn [andb].
  - destruct (is_char_boundary value (S end')) eqn:Hb; cbn [negb].
    + split; [lia|]. split; [by right|]. lia.
    + destruct IH as (IH1 & IH2 & IH3); [lia|]. split; [lia|]. split; [done|].
      intros b Hbd Hb'. destruct (decide (b = S end')) as [->|]; [congruence|]. apply IH3; [lia|done].
  - split; [lia|]. split; [left; lia|]. lia.
Qed.

(** One round of the loop: from a boundary with valid text ahead and room for a whole
    character, the piece is not empty, fits, and ends at a boundary. *)
Lemma next_piece value start maximum :
  (4 <= maximum)%nat -> (start < String.length value)%nat ->
  valid_utf8 (sdrop start value) = true ->
  let e := back_to_boundary value start (Nat.min (start + maximum) (String.length value)) in
  (start < e <= start + maximum)%nat /\ (e <= String.length value)%nat /\
  first_byte is_cont (sdrop e value) = false.
Proof.
  intros Hm Hs Hv. cbn zeta. set (limit := Nat.min (start + maximum) (String.length value)).
  destruct (back_spec value start limit) as (H1 & H2 & H3); [lia|].
  set (e := back_to_boundary value start limit) in *.
  destruct (first_char (sdrop start value) Hv) as (g & r & Hg & Hok & Hr).
  { intros E. pose proof (length_sdrop start value) as L. rewrite E in L. cbn in L. lia. }
  apply char_ok_len in Hok.
  assert (String.length value = start + String.length g + String.length r)%nat as Hlen.
  { pose proof (length_sdrop start value) as L. rewrite Hg, str_length_app in L. lia. }
  assert (start < e)%nat as Hlt.
  { assert (start + String.length g <= e)%nat; [|lia]. apply H3; [lia|].
    rewrite boundary_sdrop by lia. by rewrite sdrop_add, Hg, sdrop_app_len, Hr. }
  split; [lia|]. split; [lia|]. destruct H2 as [->|H2]; [lia|].
  rewrite boundary_sdrop in H2 by lia. by apply negb_true_iff in H2.
Qed.

(** ** Properties *)

Lemma stake_sdrop_split start e value :
  (start <= e)%nat -> sdrop start value = stake (e - start) (sdrop start value) +:+ sdrop e value.
Proof.
  intros H. rewrite <-(stake_sdrop (e - start) (sdrop start value)) at 1. f_equal.
  rewrite <-sdrop_add. f_equal. lia.
Qed.

Definition piece_ok (maximum : nat) (piece : string) : Prop :=
  (0 < String.length piece <= maximum)%nat /\ valid_utf8 piece = true.

Lemma split_loop_spec maximum fuel value start :
  (4 <= maximum)%nat -> (start <= String.length value)%nat ->
  (String.length value - start <= fuel)%nat -> valid_utf8 (sdrop start value) = true ->
  exists pieces, split_loop fuel value maximum start = Some pieces /\
    sconcat pieces = sdrop start value /\ Forall (piece_ok maximum) pieces.
Proof.
  intros Hm. revert start. induction fuel as [|fuel IH]; intros start Hs Hf Hv;
    cbn [split_loop]; destruct (Nat.ltb_spec start (String.length value)) as [Hlt|]; try lia.
  1,3: replace start with (String.length value) by lia; exists []; rewrite sdrop_all; done.
  destruct (next_piece value start maximum Hm Hlt Hv) as (He & Hl & Hb).
  set (e := back_to_boundary _ _ _) in *.
  rewrite (stake_sdrop_split start e) in Hv by lia. rewrite valid_utf8_app in Hv by done.
  apply andb_true_iff in Hv as [Hv1 Hv2].
  destruct (IH e) as (pieces & -> & Hc & Hp); [lia|lia|done|].
  eexists. split; [reflexivity|]. split.
  - cbn [sconcat]. rewrite Hc. symmetry. apply stake_sdrop_split. lia.
  - constructor; [|done]. split; [|done]. rewrite length_stake; [lia|]. rewrite length_sdrop. lia.
Qed.

Lemma split_bounded_spec value maximum :
  valid_utf8 value = true -> (4 <= maximum)%nat ->
  exists pieces, split_bounded value maximum = Some pieces /\ sconcat pieces = value /\
    (value = EmptyString /\ pieces = [EmptyString] \/ Forall (piece_ok maximum) pieces).
Proof.
  intros Hv Hm. unfold split_bounded. destruct (Nat.leb_spec (String.length value) maximum).
  - exists [value]. cbn. rewrite app_empty_r. split; [done|]. split; [done|].
    destruct value as [|c value]; [by left|]. right. constructor; [|done]. split; [|done].
    cbn in *. lia.
  - destruct (split_loop_spec maximum (String.length value) value 0) as (pieces & -> & Hc & Hp);
      [lia|lia|lia|done|]. exists pieces. auto.
Qed.

(** Splitting an answer into deltas loses and breaks nothing: for valid text and a
    bound of at least one character (four bytes), [split_bounded] terminates, its
    pieces joined are the text, every piece is valid text of at most the bound and,
    unless the text is empty, no piece is empty. *)
Theorem split_bounded_round_trip value maximum :
  valid_utf8 value = true -> (4 <= maximum)%nat ->
  exists pieces, split_bounded value maximum = Some pieces /\ sconcat pieces = value /\
    (value = EmptyString /\ pieces = [EmptyString] \/ Forall (piece_ok maximum) pieces).
Proof.
  apply split_bounded_spec.
Qed.

Lemma split_bounded_round_trip_witness :
  exists pieces, split_bounded "abcdefgh" 5 = Some pieces /\ sconcat pieces = "abcdefgh".
Proof.
  destruct (split_bounded_round_trip "abcdefgh" 5 eq_refl) as (pieces & H & Hc & _); [lia|].
  exists pieces. split; assumption.
Defined.

Lemma back_to_boundary_le value start end_ : (back_to_boundary value start end_ <= end_)%nat.
Proof. induction end_ as [|e IH]; cbn [back_to_boundary]; [lia|]. destruct (_ && _); lia. Qed.

Lemma truncate_utf8_fits value maximum :
  (String.length (truncate_utf8 value maximum).1 <= maximum)%nat.
Proof.
  unfold truncate_utf8. destruct (Nat.leb_spec (String.length value) maximum) as [|Hl]; [done|].
  cbn. pose proof (back_to_boundary_le value 0 maximum). rewrite length_stake; lia.
Qed.

(** Truncation keeps a valid prefix and says so: the result of [truncate_utf8] is a
    prefix of the text within the bound, valid when the text is, marked exactly when
    the text was longer than the bound, and then at most three bytes short of it. *)
Theorem truncate_utf8_prefix value maximum :
  valid_utf8 value = true ->
  let '(result, truncated) := truncate_utf8 value maximum in
  (exists rest, value = result +:+ rest) /\ (String.length result <= maximum)%nat /\
  valid_utf8 result = true /\
  (truncated = true <-> (maximum < String.length value)%nat) /\
  (truncated = true -> (maximum - 3 <= String.length result)%nat).
Proof.
  intros Hv. unfold truncate_utf8. destruct (Nat.leb_spec (String.length value) maximum) as [|Hlt].
  { split; [exists EmptyString; by rewrite app_empty_r|]. split; [done|]. split; [done|].
    split; [split; [done|lia]|done]. }
  destruct (back_spec value 0 maximum) as (H1 & H2 & H3); [lia|].
  set (e := back_to_boundary value 0 maximum) in *.
  assert (first_byte is_cont (sdrop e value) = false) as Hb.
  { destruct H2 as [E|H2]; [rewrite E; by apply valid_first|].
    destruct (decide (e = 0)%nat) as [E|]; [rewrite E; by apply valid_first|].
    rewrite boundary_sdrop in H2 by lia. by apply negb_true_iff in H2. }
  pose proof (stake_sdrop e value) as Hsplit.
  assert (valid_utf8 (stake e value) = true /\ valid_utf8 (sdrop e value) = true) as [Hv1 Hv2].
  { apply andb_true_iff. by rewrite <-valid_utf8_app, Hsplit. }
  split; [by eexists|]. rewrite length_stake by lia. split; [lia|]. split; [done|].
  split; [split; [lia|done]|]. intros _.
  destruct (first_char (sdrop e value) Hv2) as (g & r & Hg & Hok & Hr).
  { intros E. pose proof (length_sdrop e value) as L. rewrite E in L. cbn in L. lia. }
  apply char_ok_len in Hok. pose proof (length_sdrop e value) as L. rewrite Hg, str_length_app in L.
  destruct (decide (e + String.length g <= maximum)%nat) as [Hle|]; [|lia].
  assert (e + String.length g <= e)%nat; [|lia]. apply H3; [lia|].
  rewrite boundary_sdrop by lia. by rewrite sdrop_add, Hg, sdrop_app_len, Hr.
Qed.

(** Three bytes of text cut to two bytes before a two-byte character. *)
Definition e_acute : string := String (ascii_of_N 195) (String (ascii_of_N 169) EmptyString).

Lemma truncate_utf8_prefix_witness :
  truncate_utf8 ("ab" +:+ e_acute) 3 = ("ab", true) /\ valid_utf8 "ab" = true.
Proof.
  split; [reflexivity|].
  destruct (truncate_utf8_prefix ("ab" +:+ e_acute) 3 eq_refl) as (_ & _ & H & _). exact H.
Defined.
