(* ===== verification/RouterApi.v ===== *)
(** * Router requests, events, limits and settings
    (crates/sentia-router/src/api.rs, config.rs, settings.rs)

    The types the router's parts exchange, the validated run-time limits, and the
    per-user settings with their update. *)

From Stdlib Require Import Ascii String.
From S2P Require Import Prelude RustStr Bounded Contract RouterContract.

(** ** api.rs *)

Definition CHAT_MIME : string := "application/vnd.sentia.chat.v1+json".
Definition CONTROL_MIME : string := "application/vnd.sentia.control.v1+json".
Definition STATUS_MIME : string := "application/vnd.sentia.status.v1+json".
Definition SETTINGS_MIME : string := "application/vnd.sentia.settings.v1+json".
Definition CONSENT_MIME : string := "application/vnd.sentia.consent-preview.v1+json".

Inductive PrivacyCategory :=
| UserPrompt | FileContent | CommandHistory | Hostname | IpAddress | ProcessName | Journal
| Diagnostic.

#[global] Instance PrivacyCategory_eq_dec : EqDecision PrivacyCategory.
Proof. solve_decision. Defined.

#[global] Instance PrivacyCategory_countable : Countable PrivacyCategory.
Proof.
  refine (inj_countable'
    (fun c => match c with
      | UserPrompt => 0 | FileContent => 1 | CommandHistory => 2 | Hostname => 3 | IpAddress => 4
      | ProcessName => 5 | Journal => 6 | Diagnostic => 7 end)%nat
    (fun n => match n with
      | 0 => UserPrompt | 1 => FileContent | 2 => CommandHistory | 3 => Hostname | 4 => IpAddress
      | 5 => ProcessName | 6 => Journal | _ => Diagnostic end)%nat _).
  by intros [].
Defined.

(** [serde] name and [Debug] name of a category. *)
Definition category_serde (c : PrivacyCategory) : string :=
  match c with
  | UserPrompt => "user_prompt" | FileContent => "file_content"
  | CommandHistory => "command_history" | Hostname => "hostname" | IpAddress => "ip_address"
  | ProcessName => "process_name" | Journal => "journal" | Diagnostic => "diagnostic"
  end.
Definition category_debug (c : PrivacyCategory) : string :=
  match c with
  | UserPrompt => "UserPrompt" | FileContent => "FileContent"
  | CommandHistory => "CommandHistory" | Hostname => "Hostname" | IpAddress => "IpAddress"
  | ProcessName => "ProcessName" | Journal => "Journal" | Diagnostic => "Diagnostic"
  end.

Record ContextItem := {
  ci_category : PrivacyCategory;
  ci_source : string;
  ci_content : string;
}.

Record ChatContent := {
  cc_question : string;
  cc_context : list ContextItem;
  cc_max_tokens : option u32;
}.

Record ChatInput := {
  in_request_id : string;
  in_session_id : string;
  in_question : string;
  in_policy : RoutingPolicy;
  in_provider : option string;
  in_context : list ContextItem;
  in_consent_token : option ConsentToken;
  in_max_tokens : option u32;
  in_provenance : DataProvenance;
}.

Record SettingsPatch := {
  pa_default_policy : option RoutingPolicy;
  pa_preferred_remote_provider : option (option string);
  pa_remote_categories : option (gset PrivacyCategory);
}.

Record UserSettings := {
  us_version : string;
  us_default_policy : RoutingPolicy;
  us_preferred_remote_provider : option string;
  us_remote_categories : gset PrivacyCategory;
}.

Definition UserSettings_default : UserSettings :=
  {| us_version := PROTOCOL_VERSION_V1; us_default_policy := LocalOnly;
     us_preferred_remote_provider := None; us_remote_categories := ∅ |}.

Inductive ControlRequest :=
| CrStatus
| CrSettingsGet
| CrSettingsUpdate (patch : SettingsPatch)
| CrConsentPreview (provider question : string) (context : list ContextItem)
    (max_tokens : option u32).

Inductive ControlResponse :=
| CpStatus (display : string) (local : ProviderStatus) (remotes : list ProviderStatus)
| CpSettings (settings : UserSettings)
| CpConsentPreview (provider : string) (token : ConsentToken) (payload : Value)
    (redactions : list string).

Inductive FailureKind :=
| FkProvider (code : ProviderErrorCode)
| FkPrivacyDenied
| FkCancelled.

#[global] Instance FailureKind_eq_dec : EqDecision FailureKind.
Proof. solve_decision. Defined.

Definition provider_code (self : FailureKind) : ProviderErrorCode :=
  match self with
  | FkProvider code => code
  | FkPrivacyDenied | FkCancelled => PInternal
  end.

Inductive InternalEvent :=
| IeAccepted (request_id : string) (policy : RoutingPolicy)
| IeStateTransition (request_id : string) (from to : RequestStatus)
| IeProgress (request_id state detail : string)
| IeAnswerStarted (request_id answer_id : string) (provider_status : ProviderStatus)
    (fallback_reason : option FailureKind)
| IeDelta (request_id answer_id content : string)
| IeToolResult (request_id call_id tool provenance : string)
| IeActionProposal (request_id call_id tool : string) (arguments : Value) (notice : string)
| IeAnswerFinished (request_id answer_id provider : string) (incomplete : bool)
    (finish_reason : string)
| IeControl (request_id : string) (response : ControlResponse)
| IeCancelled (request_id target_request_id : string)
| IeError (request_id : string) (error : ContractError) (failure : option FailureKind)
| IeDone (request_id : string).

(** ** config.rs *)

(** [RouterConfig] of the router crate (the protocol crate has one of its own). *)
Record RuntimeConfig := {
  cf_version : u32;
  cf_broker_socket : string;
  cf_tool_socket : option string;
  cf_health_socket : option string;
  cf_max_request_bytes : usize;
  cf_max_connections : usize;
  cf_max_inflight_per_connection : usize;
  cf_max_agent_rounds : u32;
  cf_max_generation_tokens : u32;
  cf_provider_timeout_ms : u64;
  cf_circuit_failure_threshold : u32;
  cf_circuit_cooldown_ms : u64;
}.

Definition RuntimeConfig_default : RuntimeConfig :=
  {| cf_version := 1; cf_broker_socket := LOCAL_BROKER_SOCKET_PATH_V1; cf_tool_socket := None;
     cf_health_socket := None; cf_max_request_bytes := 1048576; cf_max_connections := 64;
     cf_max_inflight_per_connection := 8; cf_max_agent_rounds := 4;
     cf_max_generation_tokens := 2048; cf_provider_timeout_ms := 120000;
     cf_circuit_failure_threshold := 3; cf_circuit_cooldown_ms := 60000 |}.

Definition RuntimeConfig_validate (self : RuntimeConfig) : result string unit :=
  fail_if (negb (cf_version self =? 1)) "unsupported router configuration version";;
  fail_if ((cf_max_request_bytes self =? 0) || (8388608 <? cf_max_request_bytes self))
    "max_request_bytes must be between 1 and 8388608";;
  fail_if ((cf_max_connections self =? 0) || (cf_max_inflight_per_connection self =? 0)
           || (cf_max_agent_rounds self =? 0) || (8 <? cf_max_agent_rounds self)
           || (cf_max_generation_tokens self =? 0) || (8192 <? cf_max_generation_tokens self))
    "router limits are outside supported bounds".

(** [RouterConfig::load]: what the file holds ([None]: no file; the parser is
    serde_json's), then the validation, then the overrides from the environment. *)
Definition RuntimeConfig_load (file : option (result string RuntimeConfig))
    (broker tool health : option string) : result string RuntimeConfig :=
  config ← default (Ok RuntimeConfig_default) file;
  RuntimeConfig_validate config;;
  Ok {| cf_version := cf_version config;
        cf_broker_socket := default (cf_broker_socket config) broker;
        cf_tool_socket := match tool with Some p => Some p | None => cf_tool_socket config end;
        cf_health_socket := match health with Some p => Some p | None => cf_health_socket config end;
        cf_max_request_bytes := cf_max_request_bytes config;
        cf_max_connections := cf_max_connections config;
        cf_max_inflight_per_connection := cf_max_inflight_per_connection config;
        cf_max_agent_rounds := cf_max_agent_rounds config;
        cf_max_generation_tokens := cf_max_generation_tokens config;
        cf_provider_timeout_ms := cf_provider_timeout_ms config;
        cf_circuit_failure_threshold := cf_circuit_failure_threshold config;
        cf_circuit_cooldown_ms := cf_circuit_cooldown_ms config |}.

(** ** settings.rs *)

(** The new settings a patch asks for, in the order of the checks. *)
Definition apply_patch (current : UserSettings) (patch : SettingsPatch)
  : result string UserSettings :=
  provider ← match pa_preferred_remote_provider patch with
             | Some (Some value) =>
                 let value := trim value in
                 if is_empty value || (48 <? len value)
                 then Err "provider identifier must contain 1 to 48 bytes"
                 else Ok (Some value)
             | Some None => Ok None
             | None => Ok (us_preferred_remote_provider current)
             end;
  Ok {| us_version := us_version current;
        us_default_policy := default (us_default_policy current) (pa_default_policy patch);
        us_preferred_remote_provider := provider;
        us_remote_categories := default (us_remote_categories current)
                                  (pa_remote_categories patch) |}.

(** [SettingsStore::update] under the write lock: the settings in memory afterwards and
    the result.  [write] is [write_private_json] on the store's path, [None] when the
    store has no path. *)
Definition SettingsStore_update (write : option (UserSettings -> result string unit))
    (value : UserSettings) (patch : SettingsPatch) : UserSettings * result string UserSettings :=
  match apply_patch value patch with
  | Ok updated =>
      match match write with Some w => w updated | None => Ok tt end with
      | Ok _ => (updated, Ok updated)
      | Err e => (value, Err e)
      | Panic => (value, Panic)
      end
  | Err e => (value, Err e)
  | Panic => (value, Panic)
  end.

(** The metadata and content of the settings file. *)
Record SettingsFile := {
  sf_symlink : bool;
  sf_mode : u32;
  sf_parsed : result string UserSettings;
}.

(** [SettingsStore::load] *)
Definition SettingsStore_load (file : option SettingsFile) : result string UserSettings :=
  match file with
  | Some f =>
      fail_if (sf_symlink f) "refusing symlink settings file";;
      fail_if (negb (Z.land (sf_mode f) 63 =? 0))
        "router settings must not be accessible by group or others";;
      parsed ← sf_parsed f;
      fail_if (negb (String.eqb (us_version parsed) PROTOCOL_VERSION_V1))
        "unsupported settings version";;
      Ok parsed
  | None => Ok UserSettings_default
  end.

(** Settings that can be in the store: the supported version and a provider name that
    fits the protocol's identifiers. *)
Definition settings_ok (s : UserSettings) : Prop :=
  us_version s = PROTOCOL_VERSION_V1 /\
  (forall p, us_preferred_remote_provider s = Some p -> 0 < len p <= 48).

(** Updating the settings is all or nothing: after an update the settings in
    memory are the returned ones if the write succeeded and unchanged otherwise (a
    patch that names an empty or overlong provider is refused before the write), only
    the patched fields change, and well-formed settings stay well formed. *)
Theorem settings_update_atomic write value patch :
  let '(value', r) := SettingsStore_update write value patch in
  (settings_ok value -> settings_ok value') /\
  match r with
  | Ok updated => value' = updated /\ apply_patch value patch = Ok updated /\
      (forall w, write = Some w -> w updated = Ok tt) /\
      us_version updated = us_version value /\
      (pa_default_policy patch = None -> us_default_policy updated = us_default_policy value) /\
      (pa_preferred_remote_provider patch = None ->
       us_preferred_remote_provider updated = us_preferred_remote_provider value) /\
      (pa_remote_categories patch = None ->
       us_remote_categories updated = us_remote_categories value)
  | _ => value' = value
  end.
Proof.
  unfold SettingsStore_update. destruct (apply_patch value patch) as [u| |] eqn:Hp; [|done..].
  assert (forall A (x : A) (o : option A), o = None -> default x o = x) as Hd by (by intros ? ? ? ->).
  assert (us_version u = us_version value /\ (settings_ok value -> settings_ok u)) as [Hv Hok].
  { unfold apply_patch in Hp. inv_result. subst u. split; [done|].
    intros [Hver Hprov]. split; [done|]. intros p [= ->].
    destruct (pa_preferred_remote_provider patch) as [[q|]|]; inv_result; [|done|by apply Hprov].
    destruct (is_empty (trim q)) eqn:He; cbn in *; [done|].
    destruct (Z.ltb_spec 48 (len (trim q))); [done|]. injection H as <-.
    apply is_empty_false in He. lia. }
  destruct write as [w|]; [destruct (w u) as [[]| |] eqn:Hw|]; split; try done.
  all: unfold apply_patch in Hp; inv_result; subst u; repeat split; cbn;
    try (by intros H'; rewrite H' in *; inv_result); try (by apply Hd); by intros w' [= <-].
Qed.
