(* ===== verification/Privacy.v ===== *)
(** * The privacy boundary (crates/sentia-router/src/privacy.rs)

    What may leave the machine: [sanitize] decides whether a question and its context
    may be sent to a remote provider and redacts credentials; [preview] and
    [consume_consent] bind one remote disclosure to the user's consent.  The consent
    table is the guard's shared state.  SHA-256, the serializer and the clock are
    parameters. *)

From Stdlib Require Import Ascii String.
From S2P Require Import Prelude RustStr Bounded Contract RouterContract RouterApi.

Definition CONSENT_LIFETIME_MS : u64 := 300000.
Definition MAX_CONTEXT_ITEM_BYTES : usize := 65536.
Definition MAX_TOTAL_CONTEXT_BYTES : usize := 262144.

Record SanitizedPayload := {
  py_provider : string;
  py_question : string;
  py_context : list ContextItem;
  py_max_tokens : u32;
  py_redactions : list string;
}.

Inductive PrivacyError :=
| CategoryDenied (category : PrivacyCategory)
| ForbiddenSource
| InvalidConsent
| PrivacyTooLarge.

(** The messages of [thiserror]. *)
Definition PrivacyError_to_string (e : PrivacyError) : string :=
  match e with
  | CategoryDenied c =>
      "context category is not permitted for remote disclosure: " +:+ category_debug c
  | ForbiddenSource => "context source is forbidden from remote disclosure"
  | InvalidConsent =>
      "remote consent is missing, expired, already used, or does not match the payload"
  | PrivacyTooLarge => "request exceeds privacy boundary limits"
  end.

(** ** Redaction *)

Definition secret_label (token : string) : option string :=
  let lower := to_ascii_lowercase token in
  if existsb (fun p => starts_with p lower)
       ["authorization:"; "bearer:"; "password="; "passwd="; "token="; "secret="; "api_key=";
        "apikey="; "aws_secret_access_key="; "aws_session_token="; "github_token="]
  then Some "credential_assignment"
  else if starts_with "sk-" token && (20 <=? len token) then Some "api_key"
  else if starts_with "ghp_" token || starts_with "github_pat_" token then Some "github_token"
  else if starts_with "AKIA" token && (16 <=? len token) then Some "aws_access_key"
  else if contains "-----BEGIN" token || contains "private_key" lower then Some "private_key"
  else None.

(** The loop of [redact_secrets]: the text and the labels from here on. *)
Fixpoint redact_tokens (tokens : list string) (redact_next : bool) : string * list string :=
  match tokens with
  | [] => (EmptyString, [])
  | token :: rest =>
      let trimmed := trim_end token in
      let suffix := sdrop (String.length trimmed) token in
      if redact_next && eq_ignore_ascii_case trimmed "bearer" then
        let '(output, labels) := redact_tokens rest redact_next in
        (trimmed +:+ suffix +:+ output, labels)
      else if redact_next then
        let '(output, labels) := redact_tokens rest false in
        ("[REDACTED]" +:+ suffix +:+ output, "authorization_token" :: labels)
      else if eq_ignore_ascii_case trimmed "authorization:"
              || eq_ignore_ascii_case trimmed "bearer" then
        let '(output, labels) := redact_tokens rest true in
        (trimmed +:+ suffix +:+ output, labels)
      else
        match secret_label trimmed with
        | Some label =>
            let '(output, labels) := redact_tokens rest redact_next in
            ("[REDACTED]" +:+ suffix +:+ output, label :: labels)
        | None =>
            let '(output, labels) := redact_tokens rest redact_next in
            (token +:+ output, labels)
        end
  end.

Definition redact_secrets (input : string) : string * list string :=
  let lowercase := to_ascii_lowercase input in
  if contains "-----begin" lowercase && contains "private key-----" lowercase
  then ("[REDACTED PRIVATE KEY]", ["private_key"])
  else redact_tokens (split_inclusive_ws input) false.

(** ** Sources *)

Definition safe_source (source : string) : string :=
  if starts_with "/" source then
    let value := after_last "/" source in
    if is_empty value then "local-context" else value
  else take_chars 256 source.

Definition forbidden_needles : list string :=
  ["/.ssh/"; "/.gnupg/"; "/.aws/"; "/.config/gcloud/"; "/.config/gh/";
   "/.local/share/keyrings/"; "/keyrings/"; "/cookies"; "/login data"; "/shadow";
   "/etc/ssl/private/"; "command_history"; ".bash_history"; ".zsh_history"; "environment"].

Definition forbidden_source (source : string) : bool :=
  let normalized := to_ascii_lowercase source in
  existsb (fun needle => contains needle normalized) forbidden_needles.

(** ** Sanitizing *)

Definition category_allowed (allowed : option (gset PrivacyCategory)) (c : PrivacyCategory) : bool :=
  match allowed with Some a => bool_decide (c ∈ a) | None => true end.

(** The loop over the context items: [total] is the running size. *)
Fixpoint sanitize_items (allowed : option (gset PrivacyCategory)) (total : usize)
    (items : list ContextItem) : result PrivacyError (list ContextItem * list string) :=
  match items with
  | [] => Ok ([], [])
  | item :: rest =>
      fail_if (forbidden_source (ci_source item)) ForbiddenSource;;
      fail_if (negb (category_allowed allowed (ci_category item)))
        (CategoryDenied (ci_category item));;
      fail_if (MAX_CONTEXT_ITEM_BYTES <? len (ci_content item)) PrivacyTooLarge;;
      let total := saturating_add USIZE_MAX total (len (ci_content item)) in
      fail_if (MAX_TOTAL_CONTEXT_BYTES <? total) PrivacyTooLarge;;
      let '(content, found) := redact_secrets (ci_content item) in
      '(sanitized, labels) ← sanitize_items allowed total rest;
      Ok ({| ci_category := ci_category item; ci_source := safe_source (ci_source item);
             ci_content := content |} :: sanitized, found ++ labels)
  end.

Definition sanitize (provider question : string) (context : list ContextItem) (max_tokens : u32)
    (allowed : option (gset PrivacyCategory)) : result PrivacyError SanitizedPayload :=
  fail_if (MAX_CONTEXT_ITEM_BYTES <? len question) PrivacyTooLarge;;
  fail_if (negb (category_allowed allowed UserPrompt)) (CategoryDenied UserPrompt);;
  let '(question, found) := redact_secrets question in
  '(sanitized, labels) ← sanitize_items allowed (len question) context;
  Ok {| py_provider := provider; py_question := question; py_context := sanitized;
        py_max_tokens := max_tokens;
        py_redactions := dedup (sort_by (leb_of String.compare) (found ++ labels)) |}.

(** ** Consent *)

Class PrivacyCrypto := {
  to_vec : Value -> option string;
  sha256 : string -> string;
}.

(** Hexadecimal SHA-256 has 64 digits. *)
Class PrivacyCryptoOk `{PrivacyCrypto} : Prop := sha256_len : forall s, len (sha256 s) = 64.

Record ConsentEntry := { en_provider : string; en_digest : string; en_expires_at_ms : u64 }.
Record ConsentState := { cs_secret : string; cs_entries : gmap string ConsentEntry }.

(** [u64::to_le_bytes] *)
Fixpoint le_bytes (n : nat) (v : Z) : string :=
  match n with
  | O => EmptyString
  | S n' => String (ascii_of_N (Z.to_N (v mod 256))) (le_bytes n' (v / 256))
  end.

Section consent.
Context `{C : PrivacyCrypto}.

Definition item_value (i : ContextItem) : Value :=
  object [("category", VString (category_serde (ci_category i)));
          ("source", VString (ci_source i)); ("content", VString (ci_content i))].

Definition canonical_value (self : SanitizedPayload) : Value :=
  object [("context", VArray (map item_value (py_context self)));
          ("max_tokens", VNumber (NInt (py_max_tokens self)));
          ("provider", VString (py_provider self));
          ("question", VString (py_question self))].

(** [digest]: [expect] on the serialization. *)
Definition payload_digest (self : SanitizedPayload) : result PrivacyError string :=
  match to_vec (canonical_value self) with
  | Some bytes => Ok (sha256 bytes)
  | None => Panic
  end.

(** [preview] with the clock and the process id. *)
Definition preview (state : ConsentState) (now : u64) (pid : u32) (payload : SanitizedPayload)
  : ConsentState * result PrivacyError ConsentToken :=
  let expires := now + CONSENT_LIFETIME_MS in
  match payload_digest payload with
  | Ok digest =>
      let entries := filter (fun '(_, e) => now <= en_expires_at_ms e) (cs_entries state) in
      let nonce := Z.lxor (Z.lxor (Z.of_nat (size entries)) now) pid in
      let token := sha256 (cs_secret state +:+ py_provider payload +:+ digest +:+ le_bytes 8 nonce) in
      let entry := {| en_provider := py_provider payload; en_digest := digest;
                      en_expires_at_ms := expires |} in
      ({| cs_secret := cs_secret state; cs_entries := <[token := entry]> entries |},
       token_id ← map_err (fun _ => PrivacyTooLarge) (BoundedString_new token);
       sha ← map_err (fun _ => PrivacyTooLarge) (BoundedString_new digest);
       provider_id ← map_err (fun _ => PrivacyTooLarge) (BoundedString_new (py_provider payload));
       Ok {| ct_token_id := token_id; ct_payload_sha256 := sha; ct_provider_id := Some provider_id;
             ct_issued_at_ms := now; ct_expires_at_ms := expires |})
  | Err e => (state, Err e)
  | Panic => (state, Panic)
  end.

Definition consume_consent (state : ConsentState) (now : u64) (token : option ConsentToken)
    (payload : SanitizedPayload) : ConsentState * result PrivacyError unit :=
  match token with
  | None => (state, Err InvalidConsent)
  | Some token =>
      match cs_entries state !! as_str (ct_token_id token) with
      | None => (state, Err InvalidConsent)
      | Some entry =>
          ({| cs_secret := cs_secret state;
              cs_entries := delete (as_str (ct_token_id token)) (cs_entries state) |},
           if (ct_expires_at_ms token <? now)
              || negb (ct_expires_at_ms token =? en_expires_at_ms entry)
              || (ct_expires_at_ms token <=? ct_issued_at_ms token)
              || negb (String.eqb (en_provider entry) (py_provider payload))
           then Err InvalidConsent
           else
             digest ← payload_digest payload;
             fail_if (negb (String.eqb (en_digest entry) digest)
                      || negb (String.eqb (as_str (ct_payload_sha256 token)) (en_digest entry))
                      || negb (bool_decide (as_str <$> ct_provider_id token
                                            = Some (en_provider entry))))
               InvalidConsent)
      end
  end.
End consent.

(** ** Words

    The words of a text, each with the whitespace character that closes it. *)

Fixpoint pieces (acc cs : list string) : list (list string * list string) :=
  match cs with
  | [] => match acc with [] => [] | _ => [(acc, [])] end
  | c :: cs' => if is_whitespace c then (acc, [c]) :: pieces [] cs' else pieces (acc ++ [c]) cs'
  end.

Definition text_of (p : list string * list string) : string := sconcat (p.1 ++ p.2).

(** A piece of valid text: a word without whitespace, then one whitespace character
    or, at the end of the text, nothing. *)
Record piece_ok (p : list string * list string) : Prop := {
  pk_word : Forall (fun g => char_ok g = true /\ is_whitespace g = false) p.1;
  pk_gap : Forall (fun g => char_ok g = true /\ is_whitespace g = true) p.2;
}.

(** Only the last piece can lack its whitespace. *)
Fixpoint closed (ps : list (list string * list string)) : Prop :=
  match ps with
  | [] | [_] => True
  | p :: ps' => p.2 <> [] /\ closed ps'
  end.

Lemma char_nonempty g : char_ok g = true -> is_empty g = false.
Proof. by destruct g. Qed.

Lemma sconcat_nonempty cs : well_formed cs -> is_empty (sconcat cs) = match cs with [] => true | _ => false end.
Proof. destruct 1 as [|g cs Hg _]; [done|]. apply char_nonempty in Hg. by destruct g. Qed.

Lemma split_inclusive_pieces acc cs :
  well_formed (acc ++ cs) ->
  split_inclusive_aux is_whitespace (sconcat acc) cs = map text_of (pieces acc cs).
Proof.
  revert acc. induction cs as [|c cs IH]; intros acc Hw; cbn [split_inclusive_aux pieces].
  - rewrite app_nil_r in Hw. rewrite sconcat_nonempty by done. destruct acc; [done|].
    cbn. unfold text_of. cbn. by rewrite app_nil_r.
  - apply Forall_app in Hw as [Ha Hc]. apply Forall_cons in Hc as [Hc Hcs].
    destruct (is_whitespace c).
    + cbn [map]. f_equal; [unfold text_of; cbn; by rewrite sconcat_app; cbn; rewrite app_empty_r|].
      apply (IH []). done.
    + rewrite <-IH.
      * by rewrite sconcat_app; cbn; rewrite app_empty_r.
      * rewrite <-app_assoc. apply Forall_app. split; [done|]. by constructor.
Qed.

Lemma pieces_ok acc cs :
  Forall (fun g => char_ok g = true /\ is_whitespace g = false) acc -> well_formed cs ->
  Forall piece_ok (pieces acc cs) /\ closed (pieces acc cs).
Proof.
  intros Ha Hw. revert acc Ha. induction Hw as [|c cs Hc Hw IH]; intros acc Ha; cbn [pieces].
  - destruct acc; [done|]. split; [|done]. constructor; [|done]. by split.
  - destruct (is_whitespace c) eqn:Hs.
    + destruct (IH []) as [Hp Hcl]; [done|]. split.
      * constructor; [|done]. split; cbn; [done|]. by constructor.
      * cbn. by destruct (pieces [] cs).
    + apply IH. apply Forall_app. split; [done|]. by constructor.
Qed.

(** Trimming a piece leaves its word; what was cut is its whitespace. *)
Lemma trim_piece p :
  piece_ok p ->
  trim_end (text_of p) = sconcat p.1 /\
  sdrop (String.length (trim_end (text_of p))) (text_of p) = sconcat p.2.
Proof.
  intros [Hw Hg]. destruct p as [w g]. unfold text_of. cbn [fst snd] in *.
  assert (trim_end (sconcat (w ++ g)) = sconcat w) as ->.
  { unfold trim_end, drop_while_end. rewrite chars_sconcat.
    - rewrite rev_app_distr, drop_while_app, drop_while_id, rev_involutive; [done| |].
      + apply Forall_rev. eapply Forall_impl; [exact Hw|]. naive_solver.
      + apply Forall_rev. eapply Forall_impl; [exact Hg|]. naive_solver.
    - apply Forall_app. split; eapply Forall_impl; [exact Hw|naive_solver|exact Hg|naive_solver]. }
  split; [done|]. by rewrite sconcat_app, sdrop_app_len.
Qed.

(** ** Redacted words *)

Definition redacted_word : list string := chars "[REDACTED]".

Definition keyword (word : string) : bool :=
  eq_ignore_ascii_case word "authorization:" || eq_ignore_ascii_case word "bearer".

(** What may be disclosed: a word with no credential label, or a keyword that
    announces a credential. *)
Definition disclosable (word : string) : Prop := secret_label word = None \/ keyword word = true.

(** The redaction, word by word. *)
Fixpoint redact_pieces (ps : list (list string * list string)) (redact_next : bool)
  : list (list string * list string) :=
  match ps with
  | [] => []
  | (w, g) :: rest =>
      if redact_next && eq_ignore_ascii_case (sconcat w) "bearer"
      then (w, g) :: redact_pieces rest redact_next
      else if redact_next then (redacted_word, g) :: redact_pieces rest false
      else if keyword (sconcat w) then (w, g) :: redact_pieces rest true
      else match secret_label (sconcat w) with
           | Some _ => (redacted_word, g) :: redact_pieces rest redact_next
           | None => (w, g) :: redact_pieces rest redact_next
           end
  end.

Lemma redact_tokens_pieces ps redact_next :
  Forall piece_ok ps ->
  (redact_tokens (map text_of ps) redact_next).1 = sconcat (map text_of (redact_pieces ps redact_next)).
Proof.
  intros Hp. revert redact_next. induction Hp as [|[w g] ps Hp Hps IH]; intros rn; [done|].
  cbn [map redact_tokens redact_pieces].
  destruct (trim_piece (w, g) Hp) as [-> ->]; cbn [fst snd]. unfold keyword.
  assert (forall b, redact_tokens (map text_of ps) b =
    (sconcat (map text_of (redact_pieces ps b)), (redact_tokens (map text_of ps) b).2)) as E
    by (intros b; rewrite <-IH; by destruct (redact_tokens (map text_of ps) b)).
  assert (forall w' o, sconcat w' +:+ sconcat g +:+ o = text_of (w', g) +:+ o) as Ht
    by (intros w' o; unfold text_of; cbn [fst snd]; by rewrite sconcat_app, str_app_assoc).
  change "[REDACTED]" with (sconcat redacted_word).
  destruct rn; cbn [andb].
  - destruct (eq_ignore_ascii_case (sconcat w) "bearer"); cbn [andb];
      rewrite E; cbn [fst map sconcat]; apply Ht.
  - destruct (_ || _); [rewrite E; cbn [fst map sconcat]; apply Ht|].
    destruct (secret_label (sconcat w)); rewrite E; cbn [fst map sconcat]; [apply Ht|done].
Qed.

Lemma redacted_word_ok : Forall (fun g => char_ok g = true /\ is_whitespace g = false) redacted_word.
Proof. repeat constructor. Qed.

Lemma redact_pieces_ok ps redact_next :
  Forall piece_ok ps -> closed ps ->
  Forall piece_ok (redact_pieces ps redact_next) /\ closed (redact_pieces ps redact_next).
Proof.
  intros Hp. revert redact_next. induction Hp as [|[w g] ps [Hw Hg] Hps IH]; intros rn Hc; [done|].
  assert (closed ps) as Hcp by (destruct ps; [done|by destruct Hc]).
  assert (forall b w', Forall (fun g => char_ok g = true /\ is_whitespace g = false) w' ->
     Forall piece_ok ((w', g) :: redact_pieces ps b) /\ closed ((w', g) :: redact_pieces ps b)) as H.
  { intros b w' Hw'. destruct (IH b Hcp) as [H1 H2]. split; [by constructor|].
    destruct ps as [|[w2 g2] ps]; [done|]. destruct Hc as [Hc _]. cbn [closed fst snd] in *.
    destruct (redact_pieces _ b); [done|]. done. }
  pose proof redacted_word_ok. cbn [redact_pieces].
  destruct (rn && _); [by apply H|]. destruct rn; [by apply H|].
  destruct (keyword _); [by apply H|]. destruct (secret_label _); by apply H.
Qed.

Lemma redact_pieces_disclosable ps redact_next :
  Forall (fun p => disclosable (sconcat p.1)) (redact_pieces ps redact_next).
Proof.
  assert (disclosable (sconcat redacted_word)) as Hr by (by left).
  revert redact_next. induction ps as [|[w g] ps IH]; intros rn; cbn [redact_pieces]; [constructor|].
  destruct (rn && eq_ignore_ascii_case (sconcat w) "bearer") eqn:Hb.
  { constructor; [|apply IH]. right. apply andb_true_iff in Hb as [_ Hb].
    unfold keyword. cbn [fst]. by rewrite Hb, orb_true_r. }
  destruct rn; [constructor; [done|apply IH]|].
  destruct (keyword (sconcat w)) eqn:Hk; [constructor; [by right|apply IH]|].
  destruct (secret_label (sconcat w)) eqn:Hs; constructor; [done|apply IH|by left|apply IH].
Qed.

(** The words of closed pieces are the words of the text. *)
Lemma split_ws_word acc w rest :
  Forall (fun g => char_ok g = true /\ is_whitespace g = false) w ->
  split_ws_aux acc (w ++ rest) = split_ws_aux (acc +:+ sconcat w) rest.
Proof.
  intros Hw. revert acc. induction Hw as [|g w [_ Hg] Hw IH]; intros acc; cbn [app split_ws_aux sconcat].
  - by rewrite app_empty_r.
  - by rewrite Hg, IH, str_app_assoc.
Qed.

Lemma split_ws_gap acc g rest :
  Forall (fun c => char_ok c = true /\ is_whitespace c = true) g -> g <> [] ->
  split_ws_aux acc (g ++ rest) =
  (if is_empty acc then [] else [acc]) ++ split_ws_aux EmptyString rest.
Proof.
  intros Hg Hne. revert acc. induction Hg as [|c g [_ Hc] Hg IH]; intros acc; [done|].
  cbn [app split_ws_aux]. rewrite Hc.
  assert (split_ws_aux EmptyString (g ++ rest) = split_ws_aux EmptyString rest) as ->.
  { destruct g as [|d g]; [done|]. by rewrite IH. }
  by destruct (is_empty acc).
Qed.

Lemma split_ws_pieces (Q : string -> Prop) ps :
  Forall piece_ok ps -> closed ps -> Forall (fun p => Q (sconcat p.1)) ps ->
  Forall Q (split_ws_aux EmptyString (List.concat (map (fun p => p.1 ++ p.2) ps))).
Proof.
  intros Hp. induction Hp as [|[w g] ps [Hw Hg] Hps IH]; intros Hc HQ; [constructor|].
  apply Forall_cons in HQ as [HQw HQ]. cbn [map List.concat fst snd] in *.
  rewrite <-app_assoc, split_ws_word by done. cbn [String.append].
  assert (Forall Q (if is_empty (sconcat w) then [] else [sconcat w])) as H1
    by (destruct (is_empty (sconcat w)); by constructor).
  destruct (decide (g = [])) as [->|Hne].
  - destruct ps as [|q ps]; [done|]. by destruct Hc.
  - rewrite split_ws_gap by done. apply Forall_app. split; [done|].
    apply IH; [by destruct ps; [|destruct Hc]|done].
Qed.

(** No word of a redacted text carries a credential label. *)
Lemma redacted_words input :
  valid_utf8 input = true -> Forall disclosable (split_whitespace (redact_secrets input).1).
Proof.
  intros Hv. unfold redact_secrets.
  destruct (contains "-----begin" _ && contains "private key-----" _).
  { cbn [fst]. replace (split_whitespace _) with ["[REDACTED"; "PRIVATE"; "KEY]"]
      by (vm_compute; reflexivity).
    repeat apply Forall_cons_2; [..|apply Forall_nil_2]; left; vm_compute; reflexivity. }
  apply valid_chars in Hv. unfold split_inclusive_ws.
  pose proof (split_inclusive_pieces [] (chars input) Hv) as Hsplit. cbn [sconcat] in Hsplit.
  rewrite Hsplit.
  destruct (pieces_ok [] (chars input)) as [Hp Hc]; [done|done|].
  rewrite redact_tokens_pieces by done.
  destruct (redact_pieces_ok (pieces [] (chars input)) false Hp Hc) as [Hp' Hc'].
  pose proof (redact_pieces_disclosable (pieces [] (chars input)) false) as Hd.
  set (ps := redact_pieces _ _) in *. clearbody ps.
  unfold split_whitespace.
  replace (sconcat (map text_of ps)) with (sconcat (List.concat (map (fun p => p.1 ++ p.2) ps))).
  - rewrite chars_sconcat; [by apply split_ws_pieces|].
    clear -Hp'. induction Hp' as [|[w g] ps [Hw Hg] _ IH]; [constructor|]. cbn in *.
    apply Forall_app. split; [|done]. apply Forall_app.
    split; eapply Forall_impl; [exact Hw|naive_solver|exact Hg|naive_solver].
  - clear. induction ps as [|p ps IH]; [done|]. cbn. by rewrite sconcat_app, IH.
Qed.

(** The text is kept where nothing is found. *)
Lemma drop_while_end_prefix {A} (p : A -> bool) l : exists k, l = drop_while_end p l ++ k.
Proof.
  unfold drop_while_end. induction l as [|x l IH] using rev_ind; [by exists []|].
  rewrite rev_app_distr. cbn [rev app drop_while]. destruct (p x).
  - destruct IH as [k Hk]. exists (k ++ [x]). by rewrite app_assoc, <-Hk.
  - exists []. cbn. by rewrite rev_involutive, app_nil_r.
Qed.

Lemma trim_end_split s : trim_end s +:+ sdrop (String.length (trim_end s)) s = s.
Proof.
  destruct (drop_while_end_prefix is_whitespace (chars s)) as [k Hk].
  assert (s = trim_end s +:+ sconcat k) as E
    by (unfold trim_end; by rewrite <-sconcat_app, <-Hk, sconcat_chars).
  rewrite E at 3. by rewrite sdrop_app_len, <-E.
Qed.

Lemma sconcat_split_inclusive p acc cs :
  sconcat (split_inclusive_aux p acc cs) = acc +:+ sconcat cs.
Proof.
  revert acc. induction cs as [|c cs IH]; intros acc; cbn [split_inclusive_aux].
  - destruct (is_empty acc) eqn:E; cbn; [|done]. by apply is_empty_true in E as ->.
  - destruct (p c); cbn [sconcat]; rewrite IH; by rewrite ?str_app_assoc.
Qed.

Lemma redact_tokens_kept tokens redact_next :
  (redact_tokens tokens redact_next).2 = [] ->
  (redact_tokens tokens redact_next).1 = sconcat tokens.
Proof.
  revert redact_next. induction tokens as [|t tokens IH]; intros rn; [done|].
  cbn [redact_tokens sconcat].
  specialize (IH true) as IHt. specialize (IH false) as IHf. destruct rn;
  destruct (redact_tokens tokens true) as [o1 l1], (redact_tokens tokens false) as [o2 l2];
  cbn [fst snd andb] in *;
  assert (forall o, trim_end t +:+ sdrop (String.length (trim_end t)) t +:+ o = t +:+ o) as E
    by (intros o; by rewrite <-str_app_assoc, trim_end_split).
  - destruct (eq_ignore_ascii_case (trim_end t) "bearer"); cbn [fst snd]; [|done].
    intros H. by rewrite (IHt H), E.
  - destruct (_ || _); cbn [fst snd]; [intros H; by rewrite (IHt H), E|].
    destruct (secret_label (trim_end t)); cbn [fst snd]; [done|]. intros H. by rewrite (IHf H).
Qed.

(** Redaction leaves no recognizable credential and nothing else is lost: for every
    valid input text, each word of the redacted text (its pieces between whitespace,
    as [split_whitespace] yields them) carries no credential label, or is one of the
    keywords "Authorization:" and "Bearer" themselves; and a text in which no label was
    found is returned as it is. *)
Theorem redaction_leaves_no_credential input :
  valid_utf8 input = true ->
  Forall disclosable (split_whitespace (redact_secrets input).1) /\
  ((redact_secrets input).2 = [] -> (redact_secrets input).1 = input).
Proof.
  intros Hv. split; [by apply redacted_words|]. unfold redact_secrets.
  destruct (contains "-----begin" _ && contains "private key-----" _); [done|].
  intros H. rewrite redact_tokens_kept by done. unfold split_inclusive_ws.
  rewrite sconcat_split_inclusive. apply sconcat_chars.
Qed.

Lemma redaction_leaves_no_credential_witness :
  (redact_secrets "use token=abc now").1 = "use [REDACTED] now" /\
  Forall disclosable ["use"; "[REDACTED]"; "now"].
Proof.
  split; [reflexivity|]. exact (proj1 (redaction_leaves_no_credential "use token=abc now" eq_refl)).
Defined.

(** A credential after two spaces is disclosed: the whitespace after
    "Authorization: Bearer" is split into single characters, so a second space makes an
    empty word that is redacted in place of the credential, which follows in clear. *)
Theorem doubled_space_discloses_token :
  redact_secrets "Authorization: Bearer  s3cr3t-t0ken"
  = ("Authorization: Bearer [REDACTED] s3cr3t-t0ken", ["authorization_token"]).
Proof. reflexivity. Qed.

(** ** What passes the boundary *)

(** An absolute path is reduced to its last component. *)
Lemma safe_source_relative source :
  starts_with "/" source = true -> lacks "/" (safe_source source) = true.
Proof.
  intros Hs. unfold safe_source, after_last. rewrite Hs.
  apply starts_with_true in Hs as [r ->]. cbn [String.append].
  destruct (rsplit_once "/" (String "/" r)) as [[a b]|] eqn:E;
    [|by destruct (rsplit_once_starts "/"%char r)].
  apply rsplit_once_Some in E as [_ Hb]. by destruct (is_empty b).
Qed.

Definition sum_lens (items : list ContextItem) : Z :=
  fold_right (fun i n => len (ci_content i) + n) 0 items.

(** How an item of the payload comes from an item of the request. *)
Definition sanitized_from (i j : ContextItem) : Prop :=
  ci_category j = ci_category i /\ ci_source j = safe_source (ci_source i) /\
  ci_content j = (redact_secrets (ci_content i)).1.

Record item_allowed (allowed : option (gset PrivacyCategory)) (i : ContextItem) : Prop := {
  ia_source : forbidden_source (ci_source i) = false;
  ia_category : forall a, allowed = Some a -> ci_category i ∈ a;
  ia_size : len (ci_content i) <= MAX_CONTEXT_ITEM_BYTES;
}.

Lemma category_allowed_true allowed c :
  category_allowed allowed c = true <-> forall a, allowed = Some a -> c ∈ a.
Proof. destruct allowed as [a|]; cbn; [rewrite bool_decide_eq_true|]; naive_solver. Qed.

Lemma sanitize_items_Ok allowed total items out labels :
  0 <= total -> sanitize_items allowed total items = Ok (out, labels) ->
  Forall (item_allowed allowed) items /\ Forall2 sanitized_from items out /\
  (items = [] \/ total + sum_lens items <= MAX_TOTAL_CONTEXT_BYTES).
Proof.
  revert total out labels. induction items as [|i items IH]; intros total out labels Ht H;
    cbn [sanitize_items] in H.
  { inv_result. simplify_eq. split; [constructor|]. split; [constructor|by left]. }
  inv_result. zbool. destruct (redact_secrets (ci_content i)) as [content found] eqn:Hr.
  inv_result. destruct x as [out' labels']. inv_result. simplify_eq.
  rename select (sanitize_items _ _ _ = _) into Hrec. unfold saturating_add in *.
  pose proof (len_nonneg (ci_content i)) as Hc. unfold USIZE_MAX, U64_MAX, MAX_TOTAL_CONTEXT_BYTES in *.
  rewrite Z.min_r in * by lia.
  apply IH in Hrec as (Hall & Hsan & Hsum); [|lia]. split; [|split].
  - constructor; [|done]. split; [done| |done]. by apply category_allowed_true.
  - constructor; [|done]. unfold sanitized_from. cbn. by rewrite Hr.
  - right. cbn [sum_lens fold_right]. fold (sum_lens items).
    destruct Hsum as [->|Hsum]; cbn in *; lia.
Qed.

(** The privacy boundary: a payload is produced only if the question and every
    context item are in the categories the user allows for remote disclosure, no item
    comes from a forbidden source, and the sizes are within the limits; and what it
    holds is the request with every text redacted (no word of it carries a credential
    label) and every absolute source path reduced to its last component. *)
Theorem sanitized_payload_is_clean provider question context max_tokens allowed payload :
  sanitize provider question context max_tokens allowed = Ok payload ->
  (forall a, allowed = Some a -> UserPrompt ∈ a) /\
  Forall (item_allowed allowed) context /\ Forall2 sanitized_from context (py_context payload) /\
  len question <= MAX_CONTEXT_ITEM_BYTES /\
  (context = [] \/ len (py_question payload) + sum_lens context <= MAX_TOTAL_CONTEXT_BYTES) /\
  py_provider payload = provider /\ py_max_tokens payload = max_tokens /\
  py_question payload = (redact_secrets question).1 /\
  (valid_utf8 question = true -> Forall (fun i => valid_utf8 (ci_content i) = true) context ->
   Forall disclosable (split_whitespace (py_question payload)) /\
   Forall (fun j => Forall disclosable (split_whitespace (ci_content j))) (py_context payload)) /\
  Forall2 (fun i j => starts_with "/" (ci_source i) = true -> lacks "/" (ci_source j) = true)
    context (py_context payload).
Proof.
  unfold sanitize. intros H. inv_result. zbool.
  destruct (redact_secrets question) as [q found] eqn:Hq. inv_result.
  destruct x as [out labels]. inv_result. subst payload. cbn.
  rename select (sanitize_items _ _ _ = _) into Hitems.
  apply sanitize_items_Ok in Hitems as (Hall & Hsan & Hsum); [|apply len_nonneg].
  repeat split; try done.
  - by apply category_allowed_true.
  - replace q with (redact_secrets question).1 by (by rewrite Hq). by apply redacted_words.
  - rename select (Forall (fun i => valid_utf8 _ = true) _) into Hv. clear Hall Hsum.
    induction Hsan as [|i j l k (_ & _ & Hj) Hsan IH]; [constructor|].
    apply Forall_cons in Hv as [Hi Hv]. constructor; [|by apply IH].
    rewrite Hj. by apply redacted_words.
  - eapply Forall2_impl; [exact Hsan|]. intros i j (_ & -> & _). apply safe_source_relative.
Qed.

Lemma sanitized_payload_is_clean_witness :
  exists payload, sanitize "openai" "hello" [] 64 (Some {[UserPrompt]}) = Ok payload /\
    py_question payload = "hello".
Proof.
  eexists. split; [vm_compute; reflexivity|].
  edestruct (sanitized_payload_is_clean "openai" "hello" [] 64 (Some {[UserPrompt]}))
    as (_ & _ & _ & _ & _ & _ & _ & Hq & _); [vm_compute; reflexivity|].
  rewrite Hq. vm_compute. reflexivity.
Defined.

(** ** Consent *)

Section consent_properties.
Context `{C : PrivacyCrypto} {crypto_ok : PrivacyCryptoOk}.

Definition consent_id (token : ConsentToken) : string := as_str (ct_token_id token).

Lemma consume_consent_Ok state now token payload state' :
  consume_consent state now (Some token) payload = (state', Ok tt) ->
  exists entry, cs_entries state !! consent_id token = Some entry /\
    now <= en_expires_at_ms entry /\ en_provider entry = py_provider payload /\
    payload_digest payload = Ok (en_digest entry) /\
    cs_entries state' = delete (consent_id token) (cs_entries state).
Proof.
  unfold consume_consent, consent_id. destruct (_ !! _) as [entry|]; [|done].
  intros [= <- Hres]. destruct (_ || _) eqn:Hg; [done|]. inv_result. zbool.
  rewrite ?String.eqb_eq in *. subst. exists entry. repeat split; congruence || lia.
Qed.

(** C22 One consent, one disclosure: consent is granted only for a token the guard
    issued and still holds, before it expires, for exactly the provider and the
    payload digest it was issued for; and the token is gone afterwards, so no second
    use succeeds, whatever payload it is presented with and whenever. *)
Theorem consent_is_single_use state now token payload state' :
  consume_consent state now (Some token) payload = (state', Ok tt) ->
  (exists entry, cs_entries state !! consent_id token = Some entry /\
    now <= en_expires_at_ms entry /\ en_provider entry = py_provider payload /\
    payload_digest payload = Ok (en_digest entry)) /\
  (forall token' now' payload', consent_id token' = consent_id token ->
     (consume_consent state' now' (Some token') payload').2 = Err InvalidConsent).
Proof.
  intros Hc. apply consume_consent_Ok in Hc as (entry & He & Hn & Hp & Hd & Hs).
  split; [eauto 10|]. intros token' now' payload' Hid. unfold consume_consent, consent_id in *.
  by rewrite Hs, Hid, lookup_delete_eq.
Qed.

(** A previewed payload can be sent once: the token of a preview is accepted for
    the same payload at any time within five minutes, and refused for every payload
    with another provider or digest. *)
Theorem preview_consume_round_trip state now pid payload state' token now' :
  preview state now pid payload = (state', Ok token) -> now <= now' <= now + CONSENT_LIFETIME_MS ->
  (consume_consent state' now' (Some token) payload).2 = Ok tt /\
  (forall payload', (consume_consent state' now' (Some token) payload').2 = Ok tt ->
     py_provider payload' = py_provider payload /\
     payload_digest payload' = payload_digest payload).
Proof.
  unfold preview. destruct (payload_digest payload) as [digest| |] eqn:Hd; [|done..].
  intros [= <- Hres] Hn. inv_result. subst token.
  apply BoundedString_new_Ok in H, H0, H1. unfold consume_consent.
  cbn [ct_token_id ct_expires_at_ms ct_issued_at_ms ct_payload_sha256 ct_provider_id cs_entries].
  rewrite H, lookup_insert_eq. cbn [snd en_expires_at_ms en_provider en_digest].
  unfold CONSENT_LIFETIME_MS in *. rewrite Z.eqb_refl.
  replace (now + 300000 <? now') with false by (symmetry; apply Z.ltb_ge; lia).
  replace (now + 300000 <=? now) with false by (symmetry; apply Z.leb_gt; lia). cbn [negb orb].
  rewrite String.eqb_refl. cbn [negb]. split.
  - rewrite Hd. cbn. rewrite String.eqb_refl, H0, String.eqb_refl, H1. cbn.
    rewrite bool_decide_true; done.
  - intros payload' H'.
    destruct (String.eqb_spec (py_provider payload) (py_provider payload')); [|done]. cbn in H'.
    inv_result. apply String.eqb_eq in H3. by subst.
Qed.

(** A preview succeeds for every provider name that fits an identifier. *)
Lemma preview_Ok state now pid payload bytes :
  to_vec (canonical_value payload) = Some bytes -> len (py_provider payload) <= 48 ->
  exists state' token, preview state now pid payload = (state', Ok token).
Proof.
  intros Hb Hl. unfold preview, payload_digest. rewrite Hb.
  set (t := sha256 (cs_secret state +:+ _)).
  destruct (BoundedString_new_fits (MAX := 64) t) as (b1 & -> & _); [subst t; rewrite sha256_len; lia|].
  destruct (BoundedString_new_fits (MAX := 64) (sha256 bytes)) as (b2 & -> & _);
    [rewrite sha256_len; lia|].
  destruct (BoundedString_new_fits (MAX := 48) (py_provider payload) Hl) as (b3 & -> & _).
  cbn. eauto.
Qed.
End consent_properties.

(** ** Witnesses *)

Definition demo_crypto : PrivacyCrypto := {|
  to_vec v := Some "{}";
  sha256 s := sconcat (repeat (if contains "{}" s then "a" else "b") 64);
|}.

#[global] Instance demo_crypto_ok : @PrivacyCryptoOk demo_crypto.
Proof. intros s. cbn. by destruct (contains "{}" s). Qed.

Definition demo_payload : SanitizedPayload :=
  {| py_provider := "openai"; py_question := "hello"; py_context := []; py_max_tokens := 64;
     py_redactions := [] |}.
Definition demo_consents : ConsentState := {| cs_secret := "seed"; cs_entries := ∅ |}.

(** The state and the token of a preview of [demo_payload] at time 1000. *)
Definition demo_preview : ConsentState * result PrivacyError ConsentToken :=
  Eval vm_compute in preview (C := demo_crypto) demo_consents 1000 7 demo_payload.

Lemma demo_preview_eq :
  preview (C := demo_crypto) demo_consents 1000 7 demo_payload = demo_preview.
Proof. vm_compute. reflexivity. Qed.

Definition demo_token : option ConsentToken :=
  match demo_preview.2 with Ok token => Some token | _ => None end.

Lemma consent_is_single_use_witness :
  match demo_token with
  | Some token =>
      (consume_consent (C := demo_crypto) demo_preview.1 1001 (Some token) demo_payload).2 = Ok tt /\
      (consume_consent (C := demo_crypto)
         (consume_consent (C := demo_crypto) demo_preview.1 1001 (Some token) demo_payload).1
         1002 (Some token) demo_payload).2 = Err InvalidConsent
  | None => False
  end.
Proof.
  cbn [demo_token demo_preview snd]. split; [vm_compute; reflexivity|].
  eapply (consent_is_single_use (C := demo_crypto) demo_preview.1 1001 _ demo_payload);
    [|reflexivity].
  vm_compute. reflexivity.
Defined.

Lemma preview_consume_round_trip_witness :
  match demo_token with
  | Some token =>
      (consume_consent (C := demo_crypto) demo_preview.1 2000 (Some token) demo_payload).2 = Ok tt
  | None => False
  end.
Proof.
  cbn [demo_token demo_preview snd].
  refine (proj1 (preview_consume_round_trip (C := demo_crypto) demo_consents 1000 7 demo_payload
                   demo_preview.1 _ 2000 _ _)); [exact demo_preview_eq|].
  unfold CONSENT_LIFETIME_MS. lia.
Defined.
