(* ===== verification/BrokerProtocol.v ===== *)
(** * The local broker's protocol and limits
    (crates/sentia-local-broker/src/protocol.rs, config.rs)

    The messages between the router and the local broker, and the broker's validated
    configuration. *)

From Stdlib Require Import Ascii String.
From S2P Require Import Prelude RustStr Bounded Contract RouterContract.

(** ** protocol.rs *)

Definition BROKER_PROTOCOL_VERSION : string := PROTOCOL_VERSION_V1.

Record BrokerToolCall := { tc_id : string; tc_name : string; tc_arguments : string }.

Record BrokerMessage := {
  bm_role : string;
  bm_content : string;
  bm_name : option string;
  bm_tool_call_id : option string;
  bm_tool_calls : list BrokerToolCall;
}.

Record BrokerTool := { bt_name : string; bt_description : string; bt_parameters : Value }.

Inductive BrokerRequest :=
| BrChat (version request_id : string) (messages : list BrokerMessage) (tools : list BrokerTool)
    (max_tokens : u32)
| BrHealth (version request_id : string)
| BrCancel (version request_id target_request_id : string).

Inductive BrokerEvent :=
| BeQueued (version request_id : string) (position : u32)
| BeProgress (version request_id state detail : string)
| BeDelta (version request_id content : string)
| BeToolCalls (version request_id : string) (calls : list BrokerToolCall)
| BeComplete (version request_id finish_reason : string)
| BeHealth (version request_id : string) (health : ProviderHealth) (detail : string)
| BeCancelled (version request_id target_request_id : string)
| BeError (version request_id : string) (error : ContractError)
    (provider_error : ProviderErrorCode).

(** ** config.rs *)

Record BrokerConfig := {
  bc_version : u32;
  bc_listen_socket : string;
  bc_backend_socket : string;
  bc_backend_model : string;
  bc_minimum_peer_uid : u32;
  bc_maximum_peer_uid : u32;
  bc_max_active : usize;
  bc_max_global_queue : usize;
  bc_max_queue_per_uid : usize;
  bc_max_request_bytes : usize;
  bc_max_messages : usize;
  bc_max_prompt_bytes : usize;
  bc_max_generation_tokens : u32;
  bc_backend_connect_timeout_ms : u64;
  bc_backend_request_timeout_ms : u64;
}.

Definition BrokerConfig_default : BrokerConfig :=
  {| bc_version := 1; bc_listen_socket := LOCAL_BROKER_SOCKET_PATH_V1;
     bc_backend_socket := INFERENCE_SOCKET_PATH_V1; bc_backend_model := "sentia-local";
     bc_minimum_peer_uid := 1000; bc_maximum_peer_uid := 60000; bc_max_active := 1;
     bc_max_global_queue := 16; bc_max_queue_per_uid := 2; bc_max_request_bytes := 1048576;
     bc_max_messages := 64; bc_max_prompt_bytes := 524288; bc_max_generation_tokens := 2048;
     bc_backend_connect_timeout_ms := 30000; bc_backend_request_timeout_ms := 180000 |}.

Definition BrokerConfig_validate (self : BrokerConfig) : result string unit :=
  fail_if (negb (bc_version self =? 1)
           || (bc_minimum_peer_uid self =? 0)
           || (bc_maximum_peer_uid self <? bc_minimum_peer_uid self)
           || (bc_max_active self =? 0)
           || (4 <? bc_max_active self)
           || (bc_max_global_queue self =? 0)
           || (bc_max_queue_per_uid self =? 0)
           || (bc_max_global_queue self <? bc_max_queue_per_uid self)
           || (bc_max_request_bytes self =? 0)
           || (8388608 <? bc_max_request_bytes self)
           || (bc_max_messages self =? 0)
           || (256 <? bc_max_messages self)
           || (bc_max_prompt_bytes self =? 0)
           || (bc_max_generation_tokens self =? 0)
           || (8192 <? bc_max_generation_tokens self))
    "local broker configuration limits are invalid".

(** [BrokerConfig::load]: what the file holds ([None]: no file), the overrides from the
    environment, then the validation. *)
Definition BrokerConfig_load (file : option (result string BrokerConfig))
    (listen backend : option string) : result string BrokerConfig :=
  config ← default (Ok BrokerConfig_default) file;
  let config :=
    {| bc_version := bc_version config;
       bc_listen_socket := default (bc_listen_socket config) listen;
       bc_backend_socket := default (bc_backend_socket config) backend;
       bc_backend_model := bc_backend_model config;
       bc_minimum_peer_uid := bc_minimum_peer_uid config;
       bc_maximum_peer_uid := bc_maximum_peer_uid config;
       bc_max_active := bc_max_active config;
       bc_max_global_queue := bc_max_global_queue config;
       bc_max_queue_per_uid := bc_max_queue_per_uid config;
       bc_max_request_bytes := bc_max_request_bytes config;
       bc_max_messages := bc_max_messages config;
       bc_max_prompt_bytes := bc_max_prompt_bytes config;
       bc_max_generation_tokens := bc_max_generation_tokens config;
       bc_backend_connect_timeout_ms := bc_backend_connect_timeout_ms config;
       bc_backend_request_timeout_ms := bc_backend_request_timeout_ms config |} in
  BrokerConfig_validate config;;
  Ok config.

(** What every loaded configuration satisfies; the peers it admits are never root. *)
Record broker_limits (c : BrokerConfig) : Prop := {
  bl_no_root : 0 < bc_minimum_peer_uid c <= bc_maximum_peer_uid c;
  bl_active : 1 <= bc_max_active c <= 4;
  bl_queue : 1 <= bc_max_queue_per_uid c <= bc_max_global_queue c;
  bl_frame : 1 <= bc_max_request_bytes c <= 8388608;
  bl_messages : 1 <= bc_max_messages c <= 256;
  bl_tokens : 1 <= bc_max_generation_tokens c <= 8192;
}.

(** The unsigned fields of a parsed configuration. *)
Definition broker_unsigned (c : BrokerConfig) : Prop :=
  Forall (Z.le 0) [bc_minimum_peer_uid c; bc_max_active c; bc_max_queue_per_uid c;
    bc_max_request_bytes c; bc_max_messages c; bc_max_generation_tokens c].

Lemma BrokerConfig_validate_limits c :
  broker_unsigned c -> BrokerConfig_validate c = Ok tt -> broker_limits c.
Proof.
  unfold broker_unsigned, BrokerConfig_validate. rewrite !Forall_cons. intros Hu H.
  inv_result. zbool. constructor; lia.
Qed.
