(* ===== verification/RouterTools.v ===== *)
(** * Tools offered to the model (crates/sentia-router/src/tools.rs)

    The model may ask for tool calls.  [safe_tool_definitions] selects the read-only
    tools of the registry with a closed argument schema; [validate_and_invoke] checks
    a call before the registry sees it; [invoke_read_only] of [UnixToolRegistry]
    exchanges one frame with the tool service.  The JSON parser and printer are
    parameters. *)

From Stdlib Require Import Ascii String.
From S2P Require Import Prelude RustStr Bounded Contract RouterContract ToolContract SocketContract Effects Framing BrokerProtocol.

Definition MAX_TOOL_ARGUMENT_BYTES : usize := 65536.

Inductive ToolClass := ReadOnly | ActionProposal.

#[global] Instance ToolClass_eq_dec : EqDecision ToolClass.
Proof. solve_decision. Defined.

Record ModelToolDefinition := {
  mt_name : string;
  mt_description : string;
  mt_input_schema : Value;
  mt_class : ToolClass;
  mt_provenance : string;
}.

Definition model_schema (self : ModelToolDefinition) : BrokerTool :=
  {| bt_name := mt_name self; bt_description := mt_description self;
     bt_parameters := mt_input_schema self |}.

Record ModelToolResult := { mr_content : string; mr_provenance : string }.

Inductive ToolError :=
| TUnknown
| TInvalidArguments (message : string)
| TUnavailable (message : string)
| TFailed (message : string).

Definition ToolError_to_string (e : ToolError) : string :=
  match e with
  | TUnknown => "unknown tool"
  | TInvalidArguments m => "tool arguments are invalid: " +:+ m
  | TUnavailable m => "tool is unavailable: " +:+ m
  | TFailed m => "tool invocation failed: " +:+ m
  end.

(** ** Argument schemas *)

Definition I64_MIN : Z := -9223372036854775808.

Definition json_type (value : Value) : string :=
  match value with
  | VNull => "null"
  | VBool _ => "boolean"
  | VNumber (NInt n) => if (I64_MIN <=? n) && (n <=? U64_MAX) then "integer" else "number"
  | VNumber (NFloat _) => "number"
  | VString _ => "string"
  | VArray _ => "array"
  | VObject _ => "object"
  end.

(** The checks of one member of the arguments. *)
Definition validate_property (properties : list (string * Value)) (name : string) (value : Value)
  : result ToolError unit :=
  match member name properties ≫= v_as_object with
  | None => Ok tt
  | Some property =>
      match member "type" property ≫= v_as_str with
      | Some expected =>
          fail_if (negb (String.eqb expected (json_type value)))
            (TInvalidArguments ("property " +:+ name +:+ " must be " +:+ expected))
      | None => Ok tt
      end;;
      match member "maxLength" property ≫= v_as_u64 with
      | Some maximum =>
          fail_if (maximum <? default 0 (len <$> v_as_str value))
            (TInvalidArguments ("property " +:+ name +:+ " exceeds maxLength"))
      | None => Ok tt
      end
  end.

(** A [for] loop whose body may return an error. *)
Fixpoint for_each {A E} (f : A -> result E unit) (l : list A) : result E unit :=
  match l with
  | [] => Ok tt
  | x :: l' => f x;; for_each f l'
  end.

Section schemas.
(** The order in which a [HashSet] of the given elements is traversed. *)
Context (hash_order : list string -> list string).

Definition validate_object (schema object : list (string * Value)) : result ToolError unit :=
  let properties := default [] (member "properties" schema ≫= v_as_object) in
  let required := omap v_as_str (default [] (member "required" schema ≫= v_as_array)) in
  for_each (fun key => fail_if (is_none (member key object))
                         (TInvalidArguments ("missing required property " +:+ key)))
    (hash_order required);;
  (if bool_decide (member "additionalProperties" schema ≫= v_as_bool = Some false)
   then for_each (fun key => fail_if (is_none (member key properties))
                               (TInvalidArguments ("unexpected property " +:+ key)))
          object.*1
   else Ok tt);;
  for_each (fun '(name, value) => validate_property properties name value) object.

Definition validate_schema (schema value : Value) : result ToolError unit :=
  match v_as_object schema with
  | None => Err (TInvalidArguments "tool schema must be an object")
  | Some schema =>
      let expected := default "object" (member "type" schema ≫= v_as_str) in
      fail_if (negb (String.eqb expected (json_type value)))
        (TInvalidArguments ("expected " +:+ expected +:+ ", got " +:+ json_type value));;
      if negb (String.eqb expected "object") then Ok tt
      else
        object ← ok_or (v_as_object value) (TInvalidArguments "expected object");
        validate_object schema object
  end.

(** ** One call of the model *)

Definition FORBIDDEN_TOOL_PATHS : list string :=
  ["/.ssh/"; "/.gnupg/"; "/.aws/"; "/.config/gcloud/"; "/.config/gh/"; "/.local/share/keyrings/";
   "/keyrings/"; "/cookies"; "/login data"; "/.bash_history"; "/.zsh_history"; "/etc/shadow";
   "/etc/ssl/private/"].

Definition forbidden_tool_path (path : string) : bool :=
  let normalized := to_ascii_lowercase path in
  existsb (fun needle => contains needle normalized) FORBIDDEN_TOOL_PATHS.

Definition find_definition (name : string) (definitions : list ModelToolDefinition)
  : option ModelToolDefinition :=
  List.find (fun value => String.eqb (mt_name value) name) definitions.

Context (from_str : string -> result string Value).

(** [validate_and_invoke] up to the invocation: the checked arguments. *)
Definition validate_call (definitions : list ModelToolDefinition) (call : BrokerToolCall)
    (seen : gset string) : result ToolError Value :=
  fail_if (bool_decide (tc_id call ∈ seen))
    (TInvalidArguments "duplicate tool call identifier");;
  fail_if (is_empty (tc_id call) || (64 <? len (tc_id call))
           || (MAX_TOOL_ARGUMENT_BYTES <? len (tc_arguments call)))
    (TInvalidArguments "tool call identifier or arguments exceed protocol bounds");;
  definition ← ok_or (find_definition (tc_name call) definitions) TUnknown;
  fail_if (negb (bool_decide (mt_class definition = ReadOnly)))
    (TUnavailable "action proposals require a separate user approval through the privileged broker");;
  arguments ← map_err TInvalidArguments (from_str (tc_arguments call));
  validate_schema (mt_input_schema definition) arguments;;
  fail_if (default false (forbidden_tool_path <$> (get arguments "path" ≫= v_as_str)))
    (TUnavailable "credential and private-state paths are not available to the model");;
  Ok arguments.

(** [validate_and_invoke]; the identifiers seen grow on every path.  [invoke] is the
    registry's [invoke_read_only]. *)
Definition validate_and_invoke {call : Type -> Type} {S E}
    (invoke : string -> string -> Value -> eff call S E (result ToolError ModelToolResult))
    (definitions : list ModelToolDefinition) (c : BrokerToolCall) (seen : gset string)
  : eff call S E (gset string * result ToolError ModelToolResult) :=
  let seen' := {[tc_id c]} ∪ seen in
  match validate_call definitions c seen with
  | Err e => mret (seen', Err e)
  | Panic => lift Panic
  | Ok arguments =>
      r ← invoke (tc_id c) (tc_name c) arguments;
      mret (seen',
        result ← r;
        fail_if (MAX_TOOL_RESULT_BYTES <? len (mr_content result))
          (TFailed "tool result exceeds size limit");;
        Ok result)
  end.
End schemas.

(** ** The tools the model is offered *)

Definition no_args : Value :=
  object [("type", VString "object"); ("properties", object []);
          ("additionalProperties", VBool false)].

Definition string_arg (argument : string) : Value :=
  object [("type", VString "object");
          ("properties", object [(argument, object [("type", VString "string");
                                                    ("maxLength", VNumber (NInt 4096))])]);
          ("required", VArray [VString argument]);
          ("additionalProperties", VBool false)].

Definition safe_model_schema (name : ToolName) : option (string * Value) :=
  match name with
  | CommandExists => Some ("Check whether a command exists", string_arg "command")
  | CommandLookup => Some ("Look up commands by name", string_arg "query")
  | CommandHelp => Some ("Read installed command help", string_arg "command")
  | AptSearch => Some ("Search available packages", string_arg "query")
  | AptPackageInfo => Some ("Read package metadata", string_arg "package")
  | AptPackagePolicy => Some ("Read package installation policy", string_arg "package")
  | AptSimulateInstall =>
      Some ("Simulate a package installation without changing the system", string_arg "package")
  | ServiceList => Some ("List system services", no_args)
  | ServiceStatus => Some ("Read service status", string_arg "unit")
  | CpuStatus => Some ("Read CPU status", no_args)
  | MemoryStatus => Some ("Read memory status", no_args)
  | SwapStatus => Some ("Read swap status", no_args)
  | FilesystemStatus => Some ("Read filesystem capacity status", no_args)
  | NetworkStatus => Some ("Read local network status", no_args)
  | NetworkInterfaces => Some ("List local network interfaces", no_args)
  | ListeningPorts => Some ("List listening local ports", no_args)
  | ProcessList => Some ("List running processes", no_args)
  | FileExists => Some ("Check whether a local path exists", string_arg "path")
  | FileType => Some ("Read a local path type", string_arg "path")
  | FilePermissions => Some ("Read local path permissions", string_arg "path")
  | DirectoryContents => Some ("List a local directory without modifying it", string_arg "path")
  | DiskUsage => Some ("Read disk usage for a local path", string_arg "path")
  | OsInformation => Some ("Read operating system information", no_args)
  | HardwareInformation => Some ("Read bounded hardware information", no_args)
  | _ => None
  end.

Definition safe_tool_definitions : list ModelToolDefinition :=
  omap (fun tool =>
      '(description, input_schema) ← safe_model_schema (td_name tool);
      Some {| mt_name := ToolName_as_str (td_name tool); mt_description := description;
              mt_input_schema := input_schema; mt_class := ReadOnly;
              mt_provenance := "sentia-tools:" +:+ ToolName_as_str (td_name tool) |})
    (List.filter (fun tool => bool_decide (td_privilege_class tool = User)) (tg_tools required_v1)).

Definition parse_tool_name (name : string) : option ToolName := ToolName_deserialize name.

(** ** The tool service's socket *)

(** The facts [symlink_metadata] reports that the check reads. *)
Record SocketMetadata := { sm_is_socket : bool; sm_uid : u32; sm_mode : u32 }.

Definition verify_tool_socket (metadata : result string SocketMetadata) (euid : u32)
  : result string unit :=
  metadata ← metadata;
  fail_if (negb (sm_is_socket metadata) || negb (sm_uid metadata =? euid)
           || negb (Z.land (sm_mode metadata) 63 =? 0))
    "tool socket must be owned by the user and inaccessible to other users".

(** What the [select!] over the cancellation token, the timeout and the reader yields. *)
Inductive ToolWait := RxCancelled | RxTimedOut | RxBytes (reader : list (option string)).

Inductive tool_io : Type -> Type :=
| SocketStat (path : string) : tool_io (result string SocketMetadata)
| Connect (path : string) : tool_io (result string unit)
| PeerUid : tool_io (result string u32)
| UnixMs : tool_io u64
| WriteAll (bytes : string) : tool_io (result string unit)
| Receive : tool_io ToolWait.

Record UnixToolRegistry := { tr_socket : string; tr_definitions : list ModelToolDefinition }.

Definition UnixToolRegistry_new (socket : string) : UnixToolRegistry :=
  {| tr_socket := socket; tr_definitions := safe_tool_definitions |}.

Section registry.
(** The process: its effective user and its identifier; [serde_json] on tool messages. *)
Context (euid pid : u32) (to_vec : Value -> result string string)
  (frame_to_vec : JsonlFrame -> result string string)
  (parse_frame : string -> result string JsonlFrame).

(** [generated_id]: the shared counter [TOOL_SEQUENCE] is the state. *)
Definition generated_id {E} (prefix : string) : eff tool_io u64 E (BoundedString 64) :=
  with_state (fun sequence =>
    ((sequence + 1) mod 18446744073709551616,
     match BoundedString_new (prefix +:+ "-" +:+ show_uint pid +:+ "-" +:+ show_uint sequence) with
     | Ok id => Ok id
     | _ => Panic
     end)).

(** [read_tool_frame] on the bytes of the connection. *)
Definition read_tool_frame (reader : list (option string)) : result ToolError JsonlFrame :=
  '(bytes, _) ← map_err (fun e => match e with
                   | LineIo => TFailed "I/O error"
                   | LineEof _ => TFailed "tool service closed without a response"
                   | LineTooLong => TFailed "tool response exceeded bounds"
                   end) (read_tool_line reader);
  frame ← map_err TFailed (parse_frame bytes);
  map_err (fun error => TFailed (ce_message error)) (validate_version frame);;
  Ok frame.

Definition ToolResultStatus_debug (s : ToolResultStatus) : string :=
  match s with
  | TrOk => "Ok" | TrUnavailable => "Unavailable" | TrPermissionDenied => "PermissionDenied"
  | TrTimeout => "Timeout" | TrFailed => "Failed" | TrCancelled => "Cancelled"
  end.

(** What [invoke_read_only] makes of the response. *)
Definition accept_response (call_id : string) (tool_name : ToolName) (stream_id : StreamId)
    (response : JsonlFrame) : result ToolError ModelToolResult :=
  match response with
  | FToolResult _ _ response_stream tool_result =>
      fail_if (negb (bool_decide (response_stream = stream_id))
               || negb (String.eqb (as_str (tr_request_id tool_result)) call_id))
        (TFailed "tool service returned a mismatched request");;
      map_err (fun error => TFailed (ce_message error)) (ToolResult_validate to_vec tool_result);;
      fail_if (negb (bool_decide (tr_name tool_result = tool_name)))
        (TFailed "tool service returned a mismatched tool name");;
      match tr_status tool_result with
      | TrOk =>
          content ← map_err TFailed (to_vec (tr_data tool_result));
          Ok {| mr_content := content;
                mr_provenance := "sentia-tools:" +:+ ToolName_as_str tool_name +:+ ":"
                                 +:+ show_uint (tr_duration_ms tool_result) +:+ "ms" |}
      | status =>
          Err (TFailed ("tool service returned " +:+ ToolResultStatus_debug status +:+ ": "
                        +:+ default "no detail" (ce_message <$> tr_error tool_result)))
      end
  | FError _ _ _ error => Err (TFailed (ce_message error))
  | _ => Err (TFailed "tool service returned an unexpected frame")
  end.

Definition invoke_read_only (self : UnixToolRegistry) (call_id name : string) (arguments : Value)
  : eff tool_io u64 ToolError ModelToolResult :=
  definition ← lift (ok_or (find_definition name (tr_definitions self)) TUnknown);
  lift (fail_if (negb (bool_decide (mt_class definition = ReadOnly)))
          (TUnavailable "router exposes only unprivileged read-only tools"));;
  metadata ← perform (SocketStat (tr_socket self));
  lift (map_err TUnavailable (verify_tool_socket metadata euid));;
  connected ← perform (Connect (tr_socket self));
  lift (map_err TUnavailable connected);;
  credentials ← perform PeerUid;
  uid ← lift (map_err TUnavailable credentials);
  lift (fail_if (negb (uid =? euid))
          (TUnavailable "tool service peer UID did not match router UID"));;
  tool_name ← lift (ok_or (parse_tool_name name) TUnknown);
  request_id ← lift (A := RequestId) (map_err (fun _ => TInvalidArguments "tool call identifier exceeds 64 bytes")
                       (BoundedString_new call_id));
  now ← perform UnixMs;
  let request :=
    {| tq_version := PROTOCOL_VERSION_V1; tq_request_id := request_id; tq_name := tool_name;
       tq_args := arguments; tq_max_input_bytes := MAX_TOOL_INPUT_BYTES_V1;
       tq_provenance := {| tp_source := TpRouter; tp_timestamp_ms := now;
                           tp_request_id := Some request_id |} |} in
  lift (map_err (fun error => TInvalidArguments (ce_message error))
          (ToolRequest_validate to_vec request));;
  stream_id ← generated_id "tool-stream";
  frame_id ← generated_id "tool-frame";
  bytes ← lift (map_err TFailed
                  (frame_to_vec (FToolRequest PROTOCOL_VERSION_V1 frame_id stream_id request)));
  written ← perform (WriteAll (bytes +:+ String LF EmptyString));
  lift (map_err TUnavailable written);;
  received ← perform Receive;
  response ← lift match received with
                  | RxCancelled => Err (TFailed "tool invocation cancelled")
                  | RxTimedOut => Err (TFailed "tool invocation timed out")
                  | RxBytes reader => read_tool_frame reader
                  end;
  lift (accept_response call_id tool_name stream_id response).
End registry.

(** ** Lemmas *)

Lemma then_Ok {E B} (r : result E unit) (k : result E B) b :
  (r;; k) = Ok b <-> r = Ok tt /\ k = Ok b.
Proof. rewrite bind_Ok. split; [intros ([] & ? & ?)|intros []; exists tt]; done. Qed.

Lemma for_each_Ok {A E} (f : A -> result E unit) l :
  for_each f l = Ok tt <-> Forall (fun x => f x = Ok tt) l.
Proof.
  induction l as [|x l IH]; cbn [for_each]; [by split|].
  by rewrite then_Ok, Forall_cons, <-IH.
Qed.

Lemma for_each_fail_if {A E} (b : A -> bool) (e : A -> E) l :
  for_each (fun x => fail_if (b x) (e x)) l = Ok tt <-> forall x, x ∈ l -> b x = false.
Proof.
  rewrite for_each_Ok, Forall_forall. split; intros H x Hx.
  - by apply H, fail_if_Ok in Hx.
  - by apply fail_if_Ok, H.
Qed.

Lemma find_definition_Some name definitions d :
  find_definition name definitions = Some d -> d ∈ definitions /\ mt_name d = name.
Proof.
  intros H. apply List.find_some in H as [Hin Hn]. split; [by apply list_elem_of_In|].
  by apply String.eqb_eq.
Qed.

(** [serde_json] objects have distinct keys. *)
Definition distinct_keys (v : Value) : Prop :=
  match v with VObject m => NoDup m.*1 | _ => True end.

(** The arguments a closed schema with at most one string argument admits. *)
Definition admits (argument : option string) (v : Value) : Prop :=
  match argument with
  | None => v = VObject []
  | Some k => exists s, v = VObject [(k, VString s)] /\ len s <= 4096
  end.

Definition schema_of (argument : option string) : Value :=
  match argument with None => no_args | Some k => string_arg k end.

Lemma no_args_eq :
  no_args = VObject [("additionalProperties", VBool false); ("properties", VObject []);
                     ("type", VString "object")].
Proof. vm_compute. reflexivity. Qed.

Lemma string_arg_eq k :
  string_arg k =
    VObject [("additionalProperties", VBool false);
             ("properties", VObject [(k, VObject [("maxLength", VNumber (NInt 4096));
                                                  ("type", VString "string")])]);
             ("required", VArray [VString k]); ("type", VString "object")].
Proof. vm_compute. reflexivity. Qed.

Lemma json_type_object v : json_type v = "object" -> exists m, v = VObject m.
Proof. destruct v as [| | [] | | |m]; cbn; try done; [by destruct (_ && _)|eauto]. Qed.

Lemma json_type_string v : json_type v = "string" -> exists s, v = VString s.
Proof. destruct v as [| | [] | | |m]; cbn; try done; [by destruct (_ && _)|eauto]. Qed.

Lemma is_none_false {A} (o : option A) : is_none o = false <-> is_Some o.
Proof. destruct o; cbn; split; naive_solver. Qed.

Section schema_lemmas.
Context (hash_order : list string -> list string).
(** A traversal visits exactly the elements. *)
Context (hash_order_elements : forall l x, x ∈ hash_order l <-> x ∈ l).

(** A closed schema of one kind of member. *)
Lemma validate_schema_object schema v :
  member "type" schema = Some (VString "object") ->
  validate_schema hash_order (VObject schema) v = Ok tt <->
  exists m, v = VObject m /\ validate_object hash_order schema m = Ok tt.
Proof.
  intros Ht. unfold validate_schema. cbn [v_as_object].
  replace (default "object" (member "type" schema ≫= v_as_str)) with "object"%string
    by (by rewrite Ht).
  rewrite bind_Ok, String.eqb_refl. cbn [negb]. split.
  - intros ([] & Hty & Hv). apply fail_if_Ok, negb_false_iff, String.eqb_eq, eq_sym in Hty.
    apply json_type_object in Hty as [m ->]. eauto.
  - intros (m & -> & Hm). exists tt. by split.
Qed.

(** What a schema that closes its objects accepts. *)
Lemma validate_object_Ok schema properties required m :
  member "properties" schema = Some (VObject properties) ->
  omap v_as_str (default [] (member "required" schema ≫= v_as_array)) = required ->
  member "additionalProperties" schema = Some (VBool false) ->
  validate_object hash_order schema m = Ok tt <->
  (forall k, k ∈ required -> k ∈ m.*1) /\ (forall k, k ∈ m.*1 -> k ∈ properties.*1) /\
  (forall k v, (k, v) ∈ m -> validate_property properties k v = Ok tt).
Proof.
  intros Hp Hr Ha. unfold validate_object. rewrite Hp, Hr, Ha.
  cbn [mbind option_bind v_as_object v_as_bool from_option id].
  rewrite bool_decide_true by done.
  assert (forall A k (l : list (string * A)), is_none (member k l) = false <-> k ∈ l.*1) as Hm.
  { intros A k l. rewrite is_none_false. destruct (member k l) eqn:E.
    - split; [intros _|by eexists]. apply member_In in E. by apply (list_elem_of_fmap_2 fst) in E.
    - apply member_None in E. split; [by intros []|done]. }
  rewrite !then_Ok, !for_each_fail_if, for_each_Ok, Forall_forall.
  setoid_rewrite hash_order_elements. setoid_rewrite Hm.
  split; (intros (H1 & H2 & H3); split; [done|]; split; [done|]).
  - intros k v. apply (H3 (k, v)).
  - intros [k v]. apply H3.
Qed.

Lemma no_args_admits v : validate_schema hash_order no_args v = Ok tt <-> admits None v.
Proof.
  rewrite no_args_eq, validate_schema_object by done.
  setoid_rewrite validate_object_Ok; [|done..]. cbn [admits]. split.
  - intros (m & -> & _ & H & _). destruct m as [|[k v] m]; [done|]. specialize (H k).
    rewrite fmap_cons in H. set_solver.
  - intros ->. exists []. split; [done|]. split; [set_solver|]. split; set_solver.
Qed.

Lemma validate_string_property properties k v :
  member k properties = Some (VObject [("maxLength", VNumber (NInt 4096));
                                       ("type", VString "string")]) ->
  validate_property properties k v =
    (fail_if (negb (String.eqb "string" (json_type v)))
       (TInvalidArguments ("property " +:+ k +:+ " must be string"));;
     fail_if (4096 <? default 0 (len <$> v_as_str v))
       (TInvalidArguments ("property " +:+ k +:+ " exceeds maxLength"))).
Proof. intros H. unfold validate_property. by rewrite H. Qed.

Lemma string_arg_admits k v :
  distinct_keys v ->
  validate_schema hash_order (string_arg k) v = Ok tt <-> admits (Some k) v.
Proof.
  intros Hd. rewrite string_arg_eq, validate_schema_object by done.
  setoid_rewrite validate_object_Ok; [|done..]. cbn [admits].
  set (property := VObject [("maxLength", VNumber (NInt 4096)); ("type", VString "string")]).
  assert (forall v, validate_property [(k, property)] k v = Ok tt <->
            exists s, v = VString s /\ len s <= 4096) as Hprop.
  { intros w. rewrite (validate_string_property [(k, property)]);
      [|unfold property; cbn [member]; by rewrite String.eqb_refl].
    rewrite then_Ok, !fail_if_Ok, negb_false_iff, String.eqb_eq, Z.ltb_ge. split.
    - intros [Ht Hl]. symmetry in Ht. apply json_type_string in Ht as [s ->]. by exists s.
    - intros (s & -> & Hs). by split. }
  split.
  - intros (m & -> & Hreq & Hadd & Hval). cbn in Hd.
    destruct m as [|[k' v] [|[k'' v'] m]]; rewrite ?fmap_cons, ?fmap_nil in *.
    + exfalso. specialize (Hreq k). set_solver.
    + assert (k' = k) as -> by (specialize (Hadd k'); set_solver).
      destruct (Hprop v) as [(s & -> & Hs) _]; [|by exists s]. apply Hval. set_solver.
    + exfalso. assert (k' = k) by (specialize (Hadd k'); set_solver).
      assert (k'' = k) by (specialize (Hadd k''); set_solver). subst.
      apply NoDup_cons in Hd as [Hd _]. set_solver.
  - intros (s & -> & Hs). exists [(k, VString s)]. split; [done|]. split; [set_solver|].
    split; [set_solver|]. intros k' v [= -> ->]%list_elem_of_singleton. apply Hprop. eauto.
Qed.

(** Only unprivileged tools reach the model: every definition offered to it is
    read-only and names a registered tool that needs no elevated privilege, and its
    schema admits exactly one object: none or one string argument of at most 4096
    bytes, whatever order the required keys are checked in. *)
Theorem offered_tools_are_read_only d :
  d ∈ safe_tool_definitions ->
  mt_class d = ReadOnly /\
  (exists t, mt_name d = ToolName_as_str t /\ td_privilege_class (required_definition t) = User) /\
  exists argument, forall v, distinct_keys v ->
    validate_schema hash_order (mt_input_schema d) v = Ok tt <-> admits argument v.
Proof.
  unfold safe_tool_definitions. intros Hd.
  apply list_elem_of_omap in Hd as (tool & Htool & Hd).
  apply list_elem_of_In, filter_In in Htool as [Htool Huser]. inv_result.
  cbn [tg_tools required_v1] in Htool. apply in_map_iff in Htool as (t & <- & _).
  destruct (safe_model_schema (td_name (required_definition t))) as [[description schema]|] eqn:Hs; [|done].
  injection Hd as <-. cbn [mt_class mt_name mt_input_schema]. split; [done|]. split.
  { exists t. split; [|done]. by destruct t. }
  assert (exists argument, schema = schema_of argument) as [argument ->].
  { destruct t; cbn in Hs; simplify_eq; first [by exists None|by eexists (Some _)]. }
  exists argument. intros v Hv. destruct argument; cbn [schema_of];
    [by apply string_arg_admits|apply no_args_admits].
Qed.
End schema_lemmas.

Lemma offered_tools_are_read_only_witness :
  exists d, find_definition "disk_usage" safe_tool_definitions = Some d /\ mt_class d = ReadOnly.
Proof.
  eexists. split; [vm_compute; reflexivity|].
  eapply (offered_tools_are_read_only id); [done|]. vm_compute.
  apply list_elem_of_In. cbn. tauto.
Defined.

(** ** What reaches the registry *)

Section invocation.
Context (hash_order : list string -> list string) (from_str : string -> result string Value).
Context {call : Type -> Type} (invoke : string -> string -> Value -> call (result ToolError ModelToolResult)).

(** A call the checks let through. *)
Record checked_call (definitions : list ModelToolDefinition) (c : BrokerToolCall)
    (seen : gset string) (arguments : Value) : Prop := {
  ck_fresh : tc_id c ∉ seen;
  ck_id : 1 <= len (tc_id c) <= 64;
  ck_size : len (tc_arguments c) <= MAX_TOOL_ARGUMENT_BYTES;
  ck_parsed : from_str (tc_arguments c) = Ok arguments;
  ck_tool : exists d, find_definition (tc_name c) definitions = Some d /\ mt_class d = ReadOnly /\
    validate_schema hash_order (mt_input_schema d) arguments = Ok tt;
  ck_path : forall path, get arguments "path" = Some (VString path) ->
    forbidden_tool_path path = false;
}.

Lemma validate_call_Ok definitions c seen arguments :
  validate_call hash_order from_str definitions c seen = Ok arguments ->
  checked_call definitions c seen arguments.
Proof.
  unfold validate_call. intros H. inv_result. subst. zbool.
  rename select (is_empty _ = false) into He. apply is_empty_false in He.
  split; try done; [lia|by eauto|].
  intros path Hpath. rename select (default false _ = false) into Hf. by rewrite Hpath in Hf.
Qed.

(** A model's tool call reaches the registry at most once and only after every
    check: a fresh identifier of 1 to 64 bytes, bounded arguments that parse, a
    read-only tool of the offered list whose schema admits them, and no path of the
    forbidden places; the identifier is used up in every case, and an accepted result
    is the registry's own and within the size limit. *)
Theorem tool_invocation_is_checked {S} definitions c seen env h (s : S) :
  let o := validate_and_invoke (E := unit) hash_order from_str
             (fun id name arguments => perform (invoke id name arguments)) definitions c seen env h s in
  (trace o = [] \/
   exists arguments reply, checked_call definitions c seen arguments /\
     trace o = [Event _ (invoke (tc_id c) (tc_name c) arguments) reply]) /\
  (forall seen' r, value o = Ok (seen', r) -> seen' = {[tc_id c]} ∪ seen /\
     forall result, r = Ok result -> len (mr_content result) <= MAX_TOOL_RESULT_BYTES /\
       exists arguments, trace o = [Event _ (invoke (tc_id c) (tc_name c) arguments) (Ok result)]).
Proof.
  cbn zeta. unfold validate_and_invoke.
  destruct (validate_call _ _ _ _ _) as [arguments|e|] eqn:Hv.
  - apply validate_call_Ok in Hv. rewrite run_perform_ret. cbn [trace value].
    set (reply := env h _ _). clearbody reply.
    split; [right; eauto|]. intros seen' r [= <- Hr]. split; [done|].
    intros result ->. inv_result. zbool. subst. split; [done|]. by exists arguments.
  - split; [by left|]. intros seen' r [= <- <-]. by split.
  - split; [by left|]. done.
Qed.
End invocation.

(** ** The exchange with the tool service *)

Section exchange.
Context (euid pid : u32) (to_vec : Value -> result string string)
  (frame_to_vec : JsonlFrame -> result string string)
  (parse_frame : string -> result string JsonlFrame).

Definition not_write (e : event tool_io) : Prop :=
  match ev_call e with WriteAll _ => False | _ => True end.

(** Tool requests go only to the user's own service: before the first byte is
    written the tool is known to be read-only, the path is a socket owned by the
    router's user with no access for others, and the connected peer is that user;
    nothing is written otherwise. *)
Theorem tool_request_stays_with_the_user self call_id name arguments env h s :
  Exists (fun e => ~ not_write e)
    (trace (invoke_read_only euid pid to_vec frame_to_vec parse_frame self call_id name arguments
              env h s)) ->
  exists d metadata now rest,
    find_definition name (tr_definitions self) = Some d /\ mt_class d = ReadOnly /\
    sm_is_socket metadata = true /\ sm_uid metadata = euid /\ Z.land (sm_mode metadata) 63 = 0 /\
    trace (invoke_read_only euid pid to_vec frame_to_vec parse_frame self call_id name arguments
             env h s) =
      Event _ (SocketStat (tr_socket self)) (Ok metadata) :: Event _ (Connect (tr_socket self)) (Ok tt)
      :: Event _ PeerUid (Ok euid) :: Event _ UnixMs now :: rest.
Proof.
  unfold invoke_read_only. intros H.
  apply effect_after_lift in H as (d & Hd & H & ->).
  apply effect_after_lift in H as ([] & Hclass & H & ->).
  apply effect_after_perform in H as (metadata & H & ->); [|done].
  apply effect_after_lift in H as ([] & Hv & H & ->).
  apply effect_after_perform in H as (connected & H & ->); [|done].
  apply effect_after_lift in H as ([] & Hconn & H & ->).
  apply effect_after_perform in H as (credentials & H & ->); [|done].
  apply effect_after_lift in H as (uid & Huid & H & ->).
  apply effect_after_lift in H as ([] & Heuid & H & ->).
  apply effect_after_lift in H as (tool_name & Hname & H & ->).
  apply effect_after_lift in H as (request_id & Hid & H & ->).
  apply effect_after_perform in H as (now & _ & ->); [|done].
  unfold verify_tool_socket in *. inv_result. zbool. subst.
  eexists d, _, _, _. repeat (split; [done|]). reflexivity.
Qed.
End exchange.

(** A tool service of user 1000 that closes the connection after the request. *)
Definition demo_tool_service : environment tool_io := fun _ _ c =>
  match c with
  | SocketStat _ => Ok {| sm_is_socket := true; sm_uid := 1000; sm_mode := 49536 |}
  | Connect _ => Ok tt
  | PeerUid => Ok 1000
  | UnixMs => 7
  | WriteAll _ => Ok tt
  | Receive => RxBytes []
  end.

Lemma tool_request_stays_with_the_user_witness :
  exists d, find_definition "cpu_status"
              (tr_definitions (UnixToolRegistry_new "/run/user/1000/tools.sock")) = Some d /\
            mt_class d = ReadOnly.
Proof.
  destruct (tool_request_stays_with_the_user 1000 42 (fun _ => Ok "{}"%string)
    (fun _ => Ok "{}"%string) (fun _ => Err "none"%string) (UnixToolRegistry_new "/run/user/1000/tools.sock")
    "call-1" "cpu_status" (VObject []) demo_tool_service [] 1) as (d & metadata & now & rest & Hd & Hc & _).
  - vm_compute. do 4 apply Exists_cons_tl. apply Exists_cons_hd. tauto.
  - exists d. split; [exact Hd|exact Hc].
Defined.

(** The forbidden places are recognized by a path below them; the directory itself is
    not one of them. *)
Example credential_directory_itself :
  forbidden_tool_path "/home/alice/.ssh/id_ed25519" = true /\
  forbidden_tool_path "/home/alice/.ssh" = false.
Proof. split; reflexivity. Qed.
