(* ===== verification/ToolSafety.v ===== *)
(** * What the tool service can do

    Theorems about [invoke_tool] and [handle_request] in every environment: which programs
    they start and with which arguments, what is refused without touching the machine, the
    bounds of every listing, and the two ways the checks fall short (arguments that are
    options, names that are not text). *)

From Stdlib Require Import Ascii String.
From S2P Require Import Prelude RustStr RustText Contract ToolContract RouterTools Effects ToolTypes ToolRunner ToolParsers ToolFiles ToolCommands ToolSystem ToolService.

(** The arguments a tool gives to the program found among [candidates]. *)
Inductive permitted_arguments : list string -> list string -> Prop :=
| pa_disk path allow_sensitive :
    enforce_path_policy path allow_sensitive = Ok tt ->
    permitted_arguments DF_CANDIDATES
      ["--block-size=1"; "--output=source,fstype,size,used,avail,pcent,target"; "--"; display path]
| pa_owner path allow_sensitive :
    enforce_path_policy path allow_sensitive = Ok tt ->
    permitted_arguments DPKG_QUERY_CANDIDATES ["-S"; "--"; display path]
| pa_owner_of_command dir command :
    dir ∈ SAFE_COMMAND_PATHS -> validate_command_token command = Ok tt ->
    permitted_arguments DPKG_QUERY_CANDIDATES ["-S"; "--"; display (path_join dir command)]
| pa_manual mode section command :
    mode ∈ ["--where"; "--pager=cat"] ->
    validate_optional_man_section section = Ok tt -> validate_command_token command = Ok tt ->
    permitted_arguments MAN_CANDIDATES (build_man_args mode section command)
| pa_journal lines :
    lines <= MAX_LOG_LINES ->
    permitted_arguments JOURNALCTL_CANDIDATES
      ["--no-pager"; "--output=short-iso"; "--lines"; show_uint lines]
| pa_journal_unit lines service unit :
    lines <= MAX_LOG_LINES -> normalize_service_name service = Ok unit ->
    permitted_arguments JOURNALCTL_CANDIDATES
      ["--no-pager"; "--output=short-iso"; "--lines"; show_uint lines; "--unit"; unit]
| pa_journal_filter lines filter :
    lines <= MAX_LOG_LINES -> filter ∈ ["--priority=3"; "--dmesg"] ->
    permitted_arguments JOURNALCTL_CANDIDATES
      ["--no-pager"; "--output=short-iso"; filter; "--lines"; show_uint lines]
| pa_units all :
    all ∈ [[]; ["--all"]] ->
    permitted_arguments SYSTEMCTL_CANDIDATES
      (["list-units"; "--type=service"; "--no-pager"; "--no-legend"; "--plain"] ++ all)
| pa_unit service unit :
    normalize_service_name service = Ok unit ->
    permitted_arguments SYSTEMCTL_CANDIDATES ["show"; "--no-pager"; STATUS_PROPERTIES; unit].

(** An event that only looks, or starts a permitted program in the fixed environment. *)
Definition permitted_event (e : event tsys) : Prop :=
  looking e \/
  exists candidates executable args reply,
    e = Event _ (SpawnChild {| cc_executable := executable; cc_args := args;
                               cc_env := child_environment |}) reply /\
    executable ∈ candidates /\ permitted_arguments candidates args.

Lemma permitted_of_looking {A} (m : teff A) : emits looking m -> emits permitted_event m.
Proof. apply emits_mono. by left. Qed.

Lemma run_command_permitted candidates executable args timeout_secs output_limit operation :
  executable ∈ candidates -> permitted_arguments candidates args ->
  emits permitted_event (run_command executable args timeout_secs output_limit operation).
Proof.
  intros Hin Hargs env h s.
  destruct (run_command_starts executable args timeout_secs output_limit operation env h s)
    as [H|(before & e & after & Ht & Hb & [[[r ->] _] _] & Ha)].
  - eapply Forall_impl; [apply H|by left].
  - rewrite Ht. apply Forall_app. split; [|constructor].
    + eapply Forall_impl; [apply Hb|by left].
    + right. by eexists _, _, _, _.
    + eapply Forall_impl; [apply Ha|by left].
Qed.

Lemma first_available_looks candidates : emits looking (first_available_executable candidates).
Proof. induction candidates; cbn [first_available_executable]; emits_tac; by try exact I. Qed.

Lemma first_available_in candidates :
  ensures (first_available_executable candidates) (fun _ r _ => forall exe, r = Some exe -> exe ∈ candidates).
Proof.
  induction candidates as [|c l IH]; cbn [first_available_executable].
  - intros env h s a [= <-]. done.
  - eapply ensures_bind; [apply ensures_perform|intros m|].
    { instantiate (1 := fun _ _ r _ => forall exe, r = Some exe -> exe ∈ c :: l). cbn beta.
      destruct (match m with inl _ => _ | inr _ => _ end).
      - intros env h s a [= <-] exe [= ->]. left.
      - intros env h s a Ha exe ->. right. by eapply IH. }
    cbn. auto.
Qed.

(** Looking for a program and going on with the one found. *)
Lemma with_program candidates err {A} (k : string -> teff A) :
  (forall exe, exe ∈ candidates -> emits permitted_event (k exe)) ->
  emits permitted_event (found ← first_available_executable candidates; exe ← lift (ok_or found err); k exe).
Proof.
  intros Hk. eapply emits_bind_ensures;
    [apply permitted_of_looking, first_available_looks|apply first_available_in|].
  intros env found t Hf. apply emits_bind_lift. intros exe Hexe. apply Hk, Hf.
  destruct found; cbn in Hexe; congruence.
Qed.

(** Walks through a tool; what a check returned is kept, as are the programs found. *)
Ltac permit :=
  repeat match goal with
  | |- emits _ (first_available_executable _ ≫= _) => apply with_program; intros ? ?
  | |- emits _ (lift _ ≫= _) => apply emits_bind_lift; intros ? ?
  | |- emits _ (perform _ ≫= _) => apply emits_bind; [apply emits_perform; intros ?; left; exact I|intros ?]
  | |- emits _ (perform _) => apply emits_perform; intros ?; left; exact I
  | |- emits _ (run_command _ _ _ _ _ ≫= _) =>
      apply emits_bind; [eapply run_command_permitted; [eassumption|]|intros ?]
  | |- emits _ (mret _ ≫= _) => apply emits_bind; [apply emits_ret|intros ?]
  | |- emits _ (mret _) => apply emits_ret
  | |- emits _ (lift _) => apply emits_lift
  | |- emits _ (attempt _) => apply emits_attempt
  | |- emits _ (eff_map_err _ _) => apply emits_map_err
  | |- emits _ (ToolResult_new _ _ _ _ _ _) => unfold ToolResult_new
  | |- emits _ (_ ≫= _) => apply emits_bind; [|intros ?]
  | |- emits _ (if ?b then _ else _) => destruct b
  | |- emits _ (match ?x with _ => _ end) => destruct x
  | |- emits _ (let '_ := ?x in _) => destruct x
  | u : unit |- _ => destruct u
  | |- emits _ _ => solve [eauto with permit]
  end.

Create HintDb permit.

Lemma list_entries_looks root hidden entries : emits permitted_event (list_entries root hidden entries).
Proof. induction entries; cbn [list_entries]; permit. Qed.

Lemma lookup_command_path_looks command : emits permitted_event (lookup_command_path command).
Proof. unfold lookup_command_path. induction SAFE_COMMAND_PATHS; cbn [lookup_in]; permit. Qed.

Lemma lookup_command_path_in command :
  ensures (lookup_command_path command)
    (fun _ r _ => forall path, r = Some path -> exists dir, dir ∈ SAFE_COMMAND_PATHS /\ path = path_join dir command).
Proof.
  unfold lookup_command_path. induction SAFE_COMMAND_PATHS as [|d l IH]; cbn [lookup_in].
  - intros env h s a [= <-]. done.
  - eapply ensures_step; [apply ensures_perform|]. intros m env h s a Ha t _ path ->.
    destruct (match m with inl _ => _ | inr _ => _ end).
    + injection Ha as <-. exists d. split; [left|done].
    + destruct (IH env h s _ Ha path eq_refl) as (dir & Hd & ->). exists dir. split; [by right|done].
Qed.

Lemma read_text_file_bounded_looks path limit : emits permitted_event (read_text_file_bounded path limit).
Proof. unfold read_text_file_bounded. permit. Qed.

Lemma read_trimmed_optional_looks path : emits permitted_event (read_trimmed_optional path).
Proof. unfold read_trimmed_optional. permit. Qed.

#[export] Hint Resolve list_entries_looks lookup_command_path_looks read_text_file_bounded_looks
  read_trimmed_optional_looks : permit.

Lemma interfaces_of_looks stats entries : emits permitted_event (interfaces_of stats entries).
Proof. induction entries; cbn [interfaces_of]; permit. Qed.

Lemma read_process_looks pid cmdline : emits permitted_event (read_process pid cmdline).
Proof. unfold read_process. permit. Qed.

Lemma read_fields_looks fields : emits permitted_event (read_fields fields).
Proof. induction fields; cbn [read_fields]; permit. Qed.

Lemma block_devices_of_looks entries : emits permitted_event (block_devices_of entries).
Proof. induction entries; cbn [block_devices_of]; permit. Qed.

Lemma read_and_parse_socket_file_looks path protocol listen :
  emits permitted_event (read_and_parse_socket_file path protocol listen).
Proof. unfold read_and_parse_socket_file. permit. Qed.

#[export] Hint Resolve interfaces_of_looks read_process_looks read_fields_looks block_devices_of_looks
  read_and_parse_socket_file_looks : permit.

Lemma list_processes_looks cmdline entries processes d v :
  emits permitted_event (list_processes cmdline entries processes d v).
Proof.
  revert processes d v. induction entries; intros; cbn [list_processes]; permit.
Qed.

Lemma collect_interfaces_looks : emits permitted_event collect_interfaces.
Proof. unfold collect_interfaces. permit. Qed.

Lemma collect_listening_ports_looks udp : emits permitted_event (collect_listening_ports_internal udp).
Proof. unfold collect_listening_ports_internal. permit. Qed.

#[export] Hint Resolve list_processes_looks collect_interfaces_looks collect_listening_ports_looks : permit.

Section tools.
Context `{UnicodeTables}.

(** The tools that start a program. *)
Lemma disk_usage_permitted input : emits permitted_event (disk_usage input).
Proof. unfold disk_usage. permit. by eapply pa_disk. Qed.

Lemma package_owns_file_permitted input : emits permitted_event (package_owns_file input).
Proof. unfold package_owns_file. permit. by eapply pa_owner. Qed.

Lemma journal_lines_permitted journalctl args lines operation :
  journalctl ∈ JOURNALCTL_CANDIDATES -> permitted_arguments JOURNALCTL_CANDIDATES args ->
  emits permitted_event (journal_lines journalctl args lines operation).
Proof. intros Hin Hargs. unfold journal_lines. permit. done. Qed.

Lemma bounded_limit_max user_limit d m field v : bounded_limit user_limit d m field = Ok v -> v <= m.
Proof. intros Hv. unfold bounded_limit in Hv. inv_result. zbool. lia. Qed.

Lemma journal_recent_permitted input : emits permitted_event (journal_recent input).
Proof.
  unfold journal_recent. permit. apply journal_lines_permitted; [done|].
  match goal with Hl : bounded_limit _ _ _ _ = Ok _ |- _ => apply bounded_limit_max in Hl end.
  destruct (jr_unit input) as [service|].
  - destruct (normalize_service_name service) eqn:Hs; cbn in *; inv_result; subst. by eapply pa_journal_unit.
  - inv_result. subst. rewrite app_nil_r. by apply pa_journal.
Qed.

Lemma journal_filtered_permitted operation filter input :
  filter ∈ ["--priority=3"; "--dmesg"] -> emits permitted_event (journal_filtered operation filter input).
Proof.
  intros Hf. unfold journal_filtered. permit. apply journal_lines_permitted; [done|].
  apply pa_journal_filter; [by eapply bounded_limit_max|done].
Qed.

Lemma service_list_permitted input : emits permitted_event (service_list input).
Proof. unfold service_list. permit. apply pa_units. destruct (sl_include_inactive input); set_solver. Qed.

Lemma service_status_permitted input : emits permitted_event (service_status input).
Proof. unfold service_status. permit. by eapply pa_unit. Qed.

Lemma query_owning_packages_permitted dir command :
  dir ∈ SAFE_COMMAND_PATHS -> validate_command_token command = Ok tt ->
  emits permitted_event (query_owning_packages (path_join dir command)).
Proof. intros Hd Hc. unfold query_owning_packages. permit. by apply pa_owner_of_command. Qed.

Lemma list_authoritative_package_docs_looks package :
  emits permitted_event (list_authoritative_package_docs package).
Proof. unfold list_authoritative_package_docs. permit. Qed.

Lemma package_documentation_permitted dir command max_chars :
  dir ∈ SAFE_COMMAND_PATHS -> validate_command_token command = Ok tt ->
  emits permitted_event (package_documentation (path_join dir command) max_chars).
Proof.
  intros Hd Hc. unfold package_documentation. apply emits_bind; [by apply query_owning_packages_permitted|].
  intros packages. permit. apply list_authoritative_package_docs_looks.
Qed.

Lemma command_help_permitted input : emits permitted_event (command_help input).
Proof.
  unfold command_help. apply emits_bind_lift. intros [] Hc. apply emits_bind_lift. intros [] Hs.
  apply emits_bind_lift. intros max_chars _.
  eapply emits_bind_ensures; [apply lookup_command_path_looks|apply lookup_command_path_in|].
  intros env found t Hf. apply emits_bind_lift. intros path Hp.
  destruct (Hf path) as (dir & Hd & ->); [destruct found; cbn in Hp; congruence|].
  permit; [apply pa_manual; [set_solver|done..]|apply pa_manual; [set_solver|done..]|].
  by apply package_documentation_permitted.
Qed.
End tools.

#[export] Hint Resolve disk_usage_permitted package_owns_file_permitted journal_recent_permitted
  journal_filtered_permitted service_list_permitted service_status_permitted command_help_permitted : permit.

Section service.
Context `{UnicodeTables} `{SerdeInputs} (ARCH : string).

(** Every arm of the dispatch. *)
Lemma tool_table_permitted name tool input :
  (name, tool) ∈ tool_table ARCH -> emits permitted_event (tool name input).
Proof.
  unfold tool_table. intros Hin.
  repeat (apply elem_of_cons in Hin as [[= -> ->]|Hin]; [unfold with_input, without_input|]);
    [..|by apply elem_of_nil in Hin].
  all: apply emits_bind_lift; intros ? _.
  all: unfold command_exists, command_lookup, command_history, network_status, network_interfaces,
    listening_ports, process_list, process_details, file_exists, file_type, file_permissions,
    directory_contents, os_information, hardware_information, journal_errors, kernel_logs,
    collect_routes, collect_block_devices.
  all: permit; apply journal_filtered_permitted; set_solver.
Qed.

(** C12 Whatever request the service gets and whatever the machine answers, it only looks,
    except for starting one of df, dpkg-query, man, journalctl and systemctl from their
    fixed places, in the fixed environment, with the arguments of one of the tools: every
    path was admitted by the path policy, every command, unit and section by its check and
    every number of lines by its limit. *)
Theorem tools_start_only_fixed_programs request :
  emits permitted_event (handle_request ARCH request).
Proof.
  destruct request as [v i|v i c name input|v i c]; cbn [handle_request];
    destruct (validate_protocol_version v); try apply emits_ret.
  all: apply emits_bind; [apply emits_attempt|intros []; permit].
  all: unfold invoke_tool; destruct (is_privileged_broker_method name); [apply emits_lift|].
  all: destruct (member name (tool_table ARCH)) eqn:Hm; [|apply emits_lift].
  all: apply tool_table_permitted; by apply member_In.
Qed.

(** The names of the registry and the arms of the dispatch are the same. *)
Lemma tool_table_names : (tool_table ARCH).*1 = readonly_tool_names.
Proof. reflexivity. Qed.

Lemma names_are_not_broker_methods name :
  name ∈ readonly_tool_names -> is_privileged_broker_method name = false.
Proof.
  intros Hin. apply (proj1 (Forall_forall (fun n => is_privileged_broker_method n = false)
    readonly_tool_names)); [|done].
  repeat constructor; reflexivity.
Qed.

Lemma schema_names name : is_Some (tool_input_schema name) <-> name ∈ readonly_tool_names.
Proof.
  split.
  - unfold tool_input_schema, readonly_tool_names. intros [schema Hs]. cbn [existsb] in Hs.
    repeat (case_match; [repeat match goal with
      | Ho : orb _ _ = true |- _ => apply orb_true_iff in Ho as [Ho|Ho]
      | He : (name =? _)%string = true |- _ => apply String.eqb_eq in He; subst name
      end; try done; set_solver|]).
    done.
  - intros Hin. apply (proj1 (Forall_forall (fun n => is_Some (tool_input_schema n)) readonly_tool_names)); [|done].
    repeat constructor; eexists; reflexivity.
Qed.

(** C40 The registry is closed: the tools that are listed, that have a schema and that are
    dispatched are the same 22; any other name, and every name of a method of the
    privileged broker, is refused by an error before the machine is touched. *)
Theorem registry_is_closed name input :
  map ds_name readonly_tool_descriptors = readonly_tool_names /\
  (is_Some (tool_input_schema name) <-> name ∈ readonly_tool_names) /\
  (name ∈ readonly_tool_names ->
   is_privileged_broker_method name = false /\
   exists tool, (name, tool) ∈ tool_table ARCH /\ invoke_tool ARCH name input = tool name input) /\
  (name ∉ readonly_tool_names -> forall env h s, exists message,
   invoke_tool ARCH name input env h s =
     Outcome [] s (Err (if is_privileged_broker_method name then PermissionDenied message else NotFound message))).
Proof.
  split; [reflexivity|]. split; [apply schema_names|]. split; intros Hin.
  - pose proof (names_are_not_broker_methods name Hin) as Hb. split; [done|].
    unfold invoke_tool. rewrite Hb. destruct (member name (tool_table ARCH)) as [tool|] eqn:Hm.
    + exists tool. split; [by apply member_In|done].
    + apply member_None in Hm. by rewrite tool_table_names in Hm.
  - intros env h s. unfold invoke_tool. destruct (is_privileged_broker_method name).
    + by eexists.
    + rewrite (proj2 (member_None name (tool_table ARCH))); [by eexists|by rewrite tool_table_names].
Qed.

(** Some of the refused spellings. *)
Example broker_method_spellings :
  forallb is_privileged_broker_method
    ["Apply"; " prepare "; "org.sentia.System1.Apply"; "org/sentia/System1/Prepare"; "org.sentia.System1::Apply";
     "org.sentia.System1:plans:Prepare"] = true.
Proof. reflexivity. Qed.
End service.

(** ** Bounds of the listings *)

(** How many elements a member of the data holds, and a number of the data. *)
Definition listed (field : string) (data : Value) : option Z := vlen <$> (get data field ≫= v_as_array).
Definition number (field : string) (data : Value) : option Z :=
  match get data field with Some (VNumber (NInt n)) => Some n | _ => None end.

(** At most [limit] elements, [limit] itself at most [maximum]. *)
Definition bounded_listing (field limit_field : string) (maximum : Z) (r : ToolResult) : Prop :=
  exists n limit, listed field (tl_data r) = Some n /\ number limit_field (tl_data r) = Some limit /\
    limit <= maximum /\ (0 < limit -> n <= limit).

Lemma result_yields name privacy timeout provenance partial data (F : ToolResult -> Prop) :
  (forall r, tl_data r = data -> F r) -> yields (ToolResult_new name privacy timeout provenance partial data) F.
Proof. intros HF env h s r [= <-]. by apply HF. Qed.

Lemma vlen_cut {A} (l : list A) limit :
  0 < limit -> vlen (if limit <? vlen l then take (Z.to_nat limit) l else l) <= limit.
Proof.
  intros Hl. destruct (Z.ltb_spec limit (vlen l)); [|lia]. unfold vlen. rewrite length_take. lia.
Qed.

Lemma vlen_map {A B} (f : A -> B) l : vlen (map f l) = vlen l.
Proof. unfold vlen. by rewrite length_map. Qed.

Lemma map_result_vlen {E A B} (f : A -> result E B) l bs : map_result f l = Ok bs -> vlen bs = vlen l.
Proof.
  revert bs. induction l as [|a l IH]; intros bs; cbn [map_result]; [by intros [= <-]|].
  intros Hb. inv_result. subst. unfold vlen in *. cbn. rewrite !Nat2Z.inj_succ. f_equal. by apply IH.
Qed.

Section listings.
Context `{UnicodeTables} `{SerdeInputs} (ARCH : string).

Lemma collect_nonempty_lines_bounded content max : 0 < max -> vlen (collect_nonempty_lines content max) <= max.
Proof. intros Hm. unfold collect_nonempty_lines, vlen. rewrite length_take. lia. Qed.

Lemma parse_units_bounded limit kept lines :
  kept < limit -> vlen (parse_units limit kept lines) <= limit - kept.
Proof.
  revert kept. induction lines as [|line lines IH]; intros kept Hk; cbn [parse_units]; [unfold vlen; cbn; lia|].
  repeat (case_match; try by apply IH). all: rewrite vlen_cons.
  all: destruct (Z.leb_spec limit (kept + 1)); [unfold vlen; cbn; lia|].
  all: specialize (IH (kept + 1)); lia.
Qed.

Lemma filter_history_bounded query failures_only limit kept entries :
  kept < limit -> vlen (filter_history query failures_only limit kept entries) <= limit - kept.
Proof.
  revert kept. induction entries as [|e entries IH]; intros kept Hk; cbn [filter_history]; [unfold vlen; cbn; lia|].
  destruct (history_match _ _ _); [|by apply IH]. rewrite vlen_cons.
  destruct (Z.leb_spec limit (kept + 1)); [unfold vlen; cbn; lia|]. specialize (IH (kept + 1)). lia.
Qed.

(** Walks to the result of a tool and leaves the bound of its listing. *)
Ltac listing :=
  repeat match goal with
  | |- yields (lift _ ≫= _) _ => apply yields_bind_lift; intros ? ?
  | |- yields (ToolResult_new _ _ _ _ _ _) _ => apply result_yields; intros ? Hdata; unfold bounded_listing; rewrite Hdata
  | |- yields (let '_ := ?x in _) _ => destruct x
  | |- yields (match ?x with _ => _ end) _ => destruct x
  | |- yields (_ ≫= _) _ => apply yields_bind; intros ?
  | Hl : bounded_limit _ _ _ _ = Ok _ |- _ => apply bounded_limit_max in Hl
  end;
  eexists _, _; split; [reflexivity|]; split; [reflexivity|]; split; [eassumption|intros ?];
  rewrite ?vlen_map.

Lemma directory_contents_bounded input :
  yields (directory_contents input) (bounded_listing "entries" "limit" MAX_DIRECTORY_LIMIT).
Proof.
  unfold directory_contents. listing.
  match goal with Hv : map_result _ _ = Ok _ |- _ => rewrite (map_result_vlen _ _ _ Hv) end.
  by apply vlen_cut.
Qed.

Lemma listening_ports_bounded input :
  yields (listening_ports input) (bounded_listing "entries" "limit" MAX_LIST_LIMIT).
Proof. unfold listening_ports. listing. by apply vlen_cut. Qed.

Lemma process_list_bounded input :
  yields (process_list input) (bounded_listing "processes" "limit" MAX_LIST_LIMIT).
Proof. unfold process_list. listing. by apply vlen_cut. Qed.

Lemma service_list_bounded input :
  yields (service_list input) (bounded_listing "services" "limit" MAX_LIST_LIMIT).
Proof. unfold service_list. listing. rewrite <-(Z.sub_0_r a) at 2. by apply parse_units_bounded. Qed.

Lemma command_history_bounded input :
  yields (command_history input) (bounded_listing "entries" "limit" MAX_HISTORY_LIMIT).
Proof.
  unfold command_history. listing.
  match goal with Hv : map_result _ _ = Ok _ |- _ => rewrite (map_result_vlen _ _ _ Hv) end.
  rewrite <-(Z.sub_0_r a1) at 2. by apply filter_history_bounded.
Qed.

Lemma journal_lines_bounded journalctl args lines operation :
  yields (journal_lines journalctl args lines operation) (fun p => 0 < lines -> vlen p.2 <= lines).
Proof.
  unfold journal_lines. do 2 (apply yields_bind; intros ?). intros env h s a' [= <-] Hl.
  by apply collect_nonempty_lines_bounded.
Qed.

Lemma journal_recent_bounded input :
  yields (journal_recent input) (bounded_listing "entries" "lines" MAX_LOG_LINES).
Proof.
  unfold journal_recent. apply yields_bind_lift; intros lines ?. apply yields_bind; intros ?.
  do 2 (apply yields_bind_lift; intros ? ?).
  eapply yields_bind_post; [apply journal_lines_bounded|]. intros [output entries] He. listing. auto.
Qed.

Lemma journal_filtered_bounded operation filter input :
  yields (journal_filtered operation filter input) (bounded_listing "entries" "lines" MAX_LOG_LINES).
Proof.
  unfold journal_filtered. apply yields_bind_lift; intros lines ?. apply yields_bind; intros ?.
  apply yields_bind_lift; intros ? ?.
  eapply yields_bind_post; [apply journal_lines_bounded|]. intros [output entries] He. listing. auto.
Qed.

(** The tools that list: the member, the member with the limit, and the largest limit. *)
Definition listing_tools : list (string * (string * string * Z)) :=
  [("command_history", ("entries", "limit", MAX_HISTORY_LIMIT));
   ("service_list", ("services", "limit", MAX_LIST_LIMIT));
   ("journal_recent", ("entries", "lines", MAX_LOG_LINES));
   ("journal_errors", ("entries", "lines", MAX_LOG_LINES));
   ("kernel_logs", ("entries", "lines", MAX_LOG_LINES));
   ("listening_ports", ("entries", "limit", MAX_LIST_LIMIT));
   ("process_list", ("processes", "limit", MAX_LIST_LIMIT));
   ("directory_contents", ("entries", "limit", MAX_DIRECTORY_LIMIT))].

Lemma invoke_yields {A} (from_value : Value -> string + A) (tool : A -> teff ToolResult) name input F :
  is_privileged_broker_method name = false ->
  member name (tool_table ARCH) = Some (with_input from_value tool) ->
  (forall a, yields (tool a) F) -> yields (invoke_tool ARCH name input) F.
Proof.
  intros Hb Hm Hf. unfold invoke_tool. rewrite Hb, Hm. apply yields_bind_lift. intros a _. apply Hf.
Qed.

(** Every listing is bounded: whatever the machine answers, a tool that lists returns
    at most as many elements as the limit it reports, and that limit is at most the
    tool's maximum. *)
Theorem listings_are_bounded name field limit_field maximum input :
  (name, (field, limit_field, maximum)) ∈ listing_tools ->
  yields (invoke_tool ARCH name input) (bounded_listing field limit_field maximum).
Proof.
  unfold listing_tools. intros Hin.
  repeat (apply elem_of_cons in Hin as [[= -> -> -> ->]|Hin]; [|]); [..|by apply elem_of_nil in Hin].
  all: eapply invoke_yields; [reflexivity|reflexivity|].
  - exact command_history_bounded.
  - exact service_list_bounded.
  - exact journal_recent_bounded.
  - intros a. exact (journal_filtered_bounded _ _ a).
  - intros a. exact (journal_filtered_bounded _ _ a).
  - exact listening_ports_bounded.
  - exact process_list_bounded.
  - exact directory_contents_bounded.
Qed.
End listings.

(** A machine whose directories hold [names], whose files are runnable and whose child ends
    at once without output. *)
Definition quiet_machine (names : list string) : environment tsys := fun _ A c =>
  match c in tsys A return A with
  | UnixMillis => 0
  | Metadata _ => inr {| fm_kind := FkFile; fm_mode := 493; fm_uid := 0; fm_gid := 0; fm_size := 0 |}
  | SymlinkMetadata path =>
      inr {| fm_kind := if String.eqb path "/srv" then FkDirectory else FkFile; fm_mode := 493;
             fm_uid := 0; fm_gid := 0; fm_size := 0 |}
  | TryExists _ => inr true
  | ReadDir _ => inr (map inr names)
  | ReadLink _ | ReadOpened _ | ReadFile _ | ReadToString _ => inr ""
  | OpenFile _ | SpawnChild _ => inr tt
  | TryWait => inr (Some (Some 0))
  | Elapsed => 0
  | SleepMillis _ | KillChild | WaitChild => tt
  | JoinReader _ => Some (inr [])
  end.

Definition child (executable : string) (args : list string) (e : event tsys) : Prop :=
  e = Event _ (SpawnChild {| cc_executable := executable; cc_args := args; cc_env := child_environment |}) (inr tt).

Section shortcomings.
Context `{UnicodeTables}.

(** The checks admit options: the section -Preboot passes its check and is handed to
    man before the command, where -P names the program man runs as its pager, and the unit
    -Hroot@host passes its check and is handed to systemctl, where -H names a host to
    connect to; neither argument list has a separator before them. *)
Theorem checked_arguments_can_be_options :
  Exists (child "/usr/bin/man" ["--pager=cat"; "-Preboot"; "ls"])
    (trace (command_help {| ch_command := "ls"; ch_section := Some "-Preboot"; ch_max_chars := None |}
              (quiet_machine []) [] tt)) /\
  Exists (child "/bin/systemctl" ["show"; "--no-pager"; STATUS_PROPERTIES; "-Hroot@host.service"])
    (trace (service_status {| st_service := "-Hroot@host" |} (quiet_machine []) [] tt)).
Proof. split; vm_compute; repeat (first [by apply Exists_cons_hd|apply Exists_cons_tl]). Qed.

(** A listing needs names that are text: the tool panics on a directory with one name
    that is not valid UTF-8, and answers when the same name is valid. *)
Theorem directory_listing_needs_text :
  let input := {| dc_path := "/srv"; dc_limit := None; dc_include_hidden := false;
                  dc_allow_sensitive := false |} in
  value (directory_contents input (quiet_machine ["a"; String (chr 255) EmptyString]) [] tt) = Panic /\
  exists r, value (directory_contents input (quiet_machine ["a"; "b"]) [] tt) = Ok r /\
    listed "entries" (tl_data r) = Some 2.
Proof. split; [vm_compute; reflexivity|]. eexists. split; vm_compute; reflexivity. Qed.
End shortcomings.

(** Every text and every input is given by the caller of this instance. *)
Definition plain_text : UnicodeTables := {| lowercase_unicode := fun s => s |}.
Definition only_directories (input : DirectoryContentsInput) : SerdeInputs :=
  let no A (_ : Value) : string + A := inl "not an input" in
  {| from_command := no _; from_command_help := no _; from_command_history := no _; from_file_path := no _;
     from_directory := fun _ => inr input; from_service_list := no _; from_service_status := no _;
     from_journal := no _; from_log_lines := no _; from_ports := no _; from_process_list := no _;
     from_process_details := no _ |}.

Lemma listings_are_bounded_witness :
  exists r, value (invoke_tool (H := plain_text) (H0 := only_directories
      {| dc_path := "/srv"; dc_limit := Some 1; dc_include_hidden := false; dc_allow_sensitive := false |})
      "x86_64" "directory_contents" VNull (quiet_machine ["a"; "b"]) [] tt) = Ok r /\
    bounded_listing "entries" "limit" MAX_DIRECTORY_LIMIT r.
Proof.
  eexists. split; [vm_compute; reflexivity|].
  refine (listings_are_bounded (H := plain_text) (H0 := only_directories
      {| dc_path := "/srv"; dc_limit := Some 1; dc_include_hidden := false; dc_allow_sensitive := false |})
      "x86_64" "directory_contents" "entries" "limit" MAX_DIRECTORY_LIMIT VNull _
      (quiet_machine ["a"; "b"]) [] tt _ _).
  - unfold listing_tools. rewrite !elem_of_cons. tauto.
  - vm_compute. reflexivity.
Defined.

(** ** The router's schemas and the service's *)

Definition schema_required (schema : Value) : list string :=
  omap v_as_str (default [] (get schema "required" ≫= v_as_array)).
Definition schema_properties (schema : Value) : list string :=
  (default [] (get schema "properties" ≫= v_as_object)).*1.

(** The members of the arguments are the ones a closed schema asks for. *)
Definition names_admitted (schema : Value) (m : list (string * Value)) : Prop :=
  (forall k, k ∈ schema_required schema -> k ∈ m.*1) /\ (forall k, k ∈ m.*1 -> k ∈ schema_properties schema).

Definition closed_schema (schema : Value) : bool :=
  bool_decide (get schema "type" ≫= v_as_str = Some "object"%string)
  && bool_decide (get schema "additionalProperties" ≫= v_as_bool = Some false)
  && match get schema "properties" with Some (VObject _) => true | _ => false end.

Lemma validated_names hash_order schema m :
  (forall l x, x ∈ hash_order l <-> x ∈ l) -> closed_schema schema = true ->
  validate_schema hash_order schema (VObject m) = Ok tt -> names_admitted schema m.
Proof.
  intros Hh Hc Hv. unfold closed_schema in Hc. destruct schema as [| | | | |schema]; try done.
  cbn [get] in Hc. rewrite !andb_true_iff, !bool_decide_eq_true in Hc. destruct Hc as [[Ht Ha] Hp].
  destruct (member "properties" schema) as [[| | | | |properties]|] eqn:Ep; try done.
  destruct (member "additionalProperties" schema) as [[]|] eqn:Ea; try done. injection Ha as ->.
  destruct (member "type" schema) as [[]|] eqn:Et; try done. injection Ht as ->.
  apply validate_schema_object in Hv as (? & [= <-] & Hv); [|done].
  apply (validate_object_Ok _ Hh _ properties _ _ Ep eq_refl Ea) in Hv as (Hr & Hs & _).
  unfold names_admitted, schema_required, schema_properties. cbn [get]. rewrite Ep. done.
Qed.

(** What decides whether the two schemas of a tool agree on the members. *)
Definition schemas_agree (router service : Value) : bool :=
  bool_decide (schema_required service ⊆ schema_required router)
  && bool_decide (schema_properties router ⊆ schema_properties service).

Definition schemas_differ (router service : Value) : bool :=
  existsb (fun k => negb (existsb (String.eqb k) (schema_properties service))) (schema_required router).

Definition MISMATCHED : list string := ["command_lookup"; "service_status"].

(** One tool of the router: closed, and agreeing with the service unless listed. *)
Definition tool_compatible (d : ModelToolDefinition) : bool :=
  closed_schema (mt_input_schema d) &&
  match tool_input_schema (mt_name d) with
  | Some s => if existsb (String.eqb (mt_name d)) MISMATCHED then schemas_differ (mt_input_schema d) s
              else schemas_agree (mt_input_schema d) s
  | None => true
  end.

Lemma tools_compatible : forallb tool_compatible safe_tool_definitions = true.
Proof. vm_compute. reflexivity. Qed.

(** The router and the service do not agree on every tool they share: arguments the
    router admits have the members the service's schema asks for, except for
    command_lookup and service_status, whose argument the two name differently, so that
    every admitted call of these is refused by the schema of the service; and eight tools
    the router offers are unknown to the service. *)
Theorem router_and_service_schemas hash_order d schema m :
  (forall l x, x ∈ hash_order l <-> x ∈ l) ->
  d ∈ safe_tool_definitions -> tool_input_schema (mt_name d) = Some schema ->
  validate_schema hash_order (mt_input_schema d) (VObject m) = Ok tt ->
  (names_admitted schema m <-> mt_name d ∉ MISMATCHED) /\
  map mt_name (filter (fun d => tool_input_schema (mt_name d) = None) safe_tool_definitions) =
    ["apt_search"; "apt_package_info"; "apt_package_policy"; "apt_simulate_install"; "cpu_status";
     "memory_status"; "swap_status"; "filesystem_status"].
Proof.
  intros Hh Hd Hs Hv. split; [|vm_compute; reflexivity].
  pose proof (proj1 (forallb_forall _ _) tools_compatible d (proj1 (list_elem_of_In _ _) Hd)) as Hc.
  unfold tool_compatible in Hc. rewrite Hs, andb_true_iff in Hc. destruct Hc as [Hclosed Hc].
  destruct (validated_names hash_order _ m Hh Hclosed Hv) as [Hreq Hprop].
  destruct (existsb (String.eqb (mt_name d)) MISMATCHED) eqn:Em.
  - apply existsb_exists in Em as (n & Hn & ->%String.eqb_eq). apply list_elem_of_In in Hn.
    split; [|done]. intros [_ Hadm]. exfalso. apply existsb_exists in Hc as (k & Hk & Hno).
    apply list_elem_of_In in Hk. apply Hreq, Hadm in Hk. apply negb_true_iff in Hno.
    enough (existsb (String.eqb k) (schema_properties schema) = true) by congruence.
    apply existsb_exists. exists k. split; [by apply list_elem_of_In|apply String.eqb_refl].
  - split; intros _.
    + intros Hin. enough (existsb (String.eqb (mt_name d)) MISMATCHED = true) by congruence.
      apply existsb_exists. exists (mt_name d). split; [by apply list_elem_of_In|apply String.eqb_refl].
    + unfold schemas_agree in Hc. rewrite andb_true_iff, !bool_decide_eq_true in Hc.
      destruct Hc as [H1 H2]. split; auto.
Qed.

Lemma router_and_service_schemas_witness :
  exists d schema, d ∈ safe_tool_definitions /\ mt_name d = "service_status"%string /\
    tool_input_schema (mt_name d) = Some schema /\ ~ names_admitted schema [("unit", VString "ssh")].
Proof.
  assert (exists d, find_definition "service_status" safe_tool_definitions = Some d) as [d Hd]
    by (eexists; vm_compute; reflexivity).
  assert (d ∈ safe_tool_definitions) as Hin by by apply list_elem_of_In, (find_some _ _ Hd).
  exists d. vm_compute in Hd. injection Hd as <-. eexists. split; [done|]. split; [done|].
  split; [reflexivity|].
  edestruct (router_and_service_schemas (fun l => l) _ _ [("unit", VString "ssh")] ltac:(done) Hin eq_refl)
    as [H _]; [vm_compute; reflexivity|].
  intros Hadm%H. apply Hadm. right. left.
Defined.

(** ** Every child ends *)

Definition is_check (e : event tsys) : bool := match ev_call e with TryWait => true | _ => false end.

(** Everything [run_command] does outside its loop. *)
Lemma costs_step {A B} (c : tsys A) (k : A -> teff B) n :
  (forall r, is_check (Event A c r) = false) -> (forall a, costs is_check n (k a)) ->
  costs is_check n (perform c ≫= k).
Proof.
  intros Hc Hk. apply (costs_bind is_check 0 n); [|done]. apply costs_emits, emits_perform, Hc.
Qed.

Lemma costs_lift_step {A B} (r : result ToolError A) (k : A -> teff B) n :
  (forall a, costs is_check n (k a)) -> costs is_check n (lift r ≫= k).
Proof. intros Hk. apply (costs_bind is_check 0 n); [|done]. apply costs_emits, emits_lift. Qed.

Lemma wait_loop_checks fuel timeout_secs output_limit operation :
  costs is_check fuel (wait_loop fuel timeout_secs output_limit operation).
Proof.
  induction fuel as [|fuel IH]; cbn [wait_loop]; [apply costs_emits, emits_lift|].
  apply (costs_bind is_check 1 fuel); [apply costs_perform|intros waited].
  apply costs_lift_step. intros [code|].
  - apply (costs_mono _ 0); [lia|]. apply costs_emits. unfold collect_output. emits_tac; done.
  - apply costs_step; [done|]. intros elapsed. destruct (_ <? _).
    + apply (costs_mono _ 0); [lia|]. apply costs_emits. emits_tac; done.
    + by apply costs_step.
Qed.

(** A tool never waits for its program forever: when the clock counts the sleeps, every
    run of run_command returns, after at most 50 checks per second of the timeout and two
    more, whether the program ends or has to be killed. *)
Theorem run_command_ends env executable args timeout_secs output_limit operation :
  clock_counts env -> 0 <= timeout_secs ->
  returns env (run_command executable args timeout_secs output_limit operation) /\
  costs is_check (Z.to_nat (50 * timeout_secs) + 2)
    (run_command executable args timeout_secs output_limit operation).
Proof.
  intros Hc Ht. split; [by apply run_command_returns|]. unfold run_command.
  apply costs_lift_step. intros _. apply costs_step; [done|]. intros metadata.
  do 2 (apply costs_lift_step; intros ?). apply costs_step; [done|]. intros spawned.
  apply costs_lift_step. intros _. apply wait_loop_checks.
Qed.

(** A program that never ends, under a clock that only counts the sleeps. *)
Definition endless_machine : environment tsys := fun h A c =>
  match c in tsys A return A with
  | TryWait => inr None
  | Elapsed => slept h
  | c => quiet_machine [] h _ c
  end.

Lemma run_command_ends_witness :
  returns endless_machine (run_command "/usr/bin/man" ["ls"] 1 65536 "man") /\
  value (run_command "/usr/bin/man" ["ls"] 1 65536 "man" endless_machine [] tt) = Err (Timeout "man" 1).
Proof.
  split; [|vm_compute; reflexivity].
  apply (run_command_ends endless_machine "/usr/bin/man" ["ls"] 1 65536 "man"); [|lia].
  intros h. cbn. lia.
Defined.
