(* ===== verification/HealthTypes.v ===== *)
(** * The health snapshot and the parsers of /proc (crates/sentia-health/src/schema.rs, procfs.rs) *)

From Stdlib Require Import Ascii String.
From S2P Require Import Prelude RustStr RustText Contract RustFloat.

Inductive CapabilityState := Available | MissingTool | PermissionDenied | Unavailable | CapError.

Record Capability := { cp_state : CapabilityState; cp_detail : option string }.

#[global] Instance CapabilityState_eq_dec : EqDecision CapabilityState.
Proof. solve_decision. Defined.

Definition Capability_available : Capability := {| cp_state := Available; cp_detail := None |}.
Definition Capability_missing_tool (tool : string) : Capability :=
  {| cp_state := MissingTool; cp_detail := Some tool |}.
Definition Capability_permission_denied (detail : string) : Capability :=
  {| cp_state := PermissionDenied; cp_detail := Some detail |}.
Definition Capability_unavailable (detail : string) : Capability :=
  {| cp_state := Unavailable; cp_detail := Some detail |}.
Definition Capability_error (detail : string) : Capability :=
  {| cp_state := CapError; cp_detail := Some detail |}.

Record ToolStatus := {
  ts_smartctl : Capability; ts_nvme : Capability; ts_systemctl : Capability; ts_journalctl : Capability;
  ts_thermal_sysfs : Capability;
}.

Definition ToolStatus_default : ToolStatus :=
  let not_probed := Capability_unavailable "not-probed" in
  {| ts_smartctl := not_probed; ts_nvme := not_probed; ts_systemctl := not_probed;
     ts_journalctl := not_probed; ts_thermal_sysfs := not_probed |}.

Record CpuStatus := {
  cu_utilization_pct : f64; cu_load_1 : f64; cu_load_5 : f64; cu_load_15 : f64; cu_logical_cores : usize;
  cu_counter_reset : bool;
}.

Record MemoryPressure := {
  mp_some_avg10 : f64; mp_some_avg60 : f64; mp_some_avg300 : f64; mp_full_avg10 : f64; mp_full_avg60 : f64;
  mp_full_avg300 : f64;
}.

Record MemoryStatus := {
  me_total_bytes : u64; me_used_bytes : u64; me_available_bytes : u64; me_used_pct : f64;
  me_pressure : option MemoryPressure; me_pressure_capability : Capability;
}.

Record SwapStatus := { sw_total_bytes : u64; sw_used_bytes : u64; sw_free_bytes : u64; sw_used_pct : f64 }.

Record FilesystemSample := {
  fs_mount_point : string; fs_fs_type : string; fs_total_bytes : u64; fs_used_bytes : u64;
  fs_available_bytes : u64; fs_used_pct : f64; fs_full : bool;
}.
Record FilesystemStatus := { fi_filesystems : list FilesystemSample; fi_full_filesystems : usize }.

Record DiskIoSample := {
  di_device : string; di_read_bps : f64; di_write_bps : f64; di_utilization_pct : f64; di_counter_reset : bool;
}.
Record DiskStatus := { dk_devices : list DiskIoSample; dk_total_read_bps : f64; dk_total_write_bps : f64 }.

Inductive DiskHealthState := Healthy | Degraded | HealthUnknown.

#[global] Instance DiskHealthState_eq_dec : EqDecision DiskHealthState.
Proof. solve_decision. Defined.

Record DiskHealthDevice := {
  dh_device : string; dh_backend : string; dh_health : DiskHealthState; dh_capability : Capability;
  dh_temperature_c : option f64; dh_note : option string;
}.
Record DiskHealthStatus := { ds_overall : DiskHealthState; ds_devices : list DiskHealthDevice }.

Record TemperatureSample := { ts_name : string; ts_temperature_c : f64 }.
Record TemperatureStatus := {
  tp_sensors : list TemperatureSample; tp_max_c : option f64; tp_capability : Capability;
}.

Record NetworkSample := {
  nw_interface : string; nw_rx_bps : f64; nw_tx_bps : f64; nw_utilization_pct : option f64;
  nw_speed_mbps : option u64; nw_counter_reset : bool;
}.
Record NetworkStatus := {
  ns_interfaces : list NetworkSample; ns_total_rx_bps : f64; ns_total_tx_bps : f64;
}.

Record ProcessSample := {
  pp_pid : u32; pp_name : string; pp_cpu_pct : f64; pp_memory_bytes : u64; pp_memory_pct : f64;
}.
Record ProcessStatus := { pt_high_resource : list ProcessSample; pt_churned_processes : usize }.

Record FailedUnit := {
  fu_unit : string; fu_active_state : string; fu_sub_state : string; fu_description : string;
}.
Record SystemdStatus := { sd_failed_units : list FailedUnit; sd_capability : Capability }.

Record KernelError := {
  ke_timestamp : option string; ke_priority : option Z; ke_identifier : option string; ke_message : string;
}.
Record KernelStatus := { ks_recent_errors : list KernelError; ks_truncated : bool; ks_capability : Capability }.

Inductive AlertLevel := AlInfo | AlWarning | AlCritical.

Record AlertRecord := {
  ar_id : string; ar_level : AlertLevel; ar_active : bool; ar_message : string; ar_value : f64;
  ar_first_seen_unix_ms : u64; ar_last_seen_unix_ms : u64;
}.

Record HealthSnapshot := {
  hs_schema_version : u32; hs_collected_at_unix_ms : u64; hs_elapsed_ms : u64; hs_cpu : CpuStatus;
  hs_memory : MemoryStatus; hs_swap : SwapStatus; hs_filesystem : FilesystemStatus; hs_disk : DiskStatus;
  hs_diskhealth : DiskHealthStatus; hs_temperature : TemperatureStatus; hs_network : NetworkStatus;
  hs_processes : ProcessStatus; hs_systemd : SystemdStatus; hs_kernel : KernelStatus; hs_tools : ToolStatus;
  hs_alerts : list AlertRecord; hs_alert_log : list AlertRecord;
}.

Definition F0 : f64 := of_Z 0.

Definition HealthSnapshot_empty (now_unix_ms : u64) : HealthSnapshot :=
  let not_sampled := Capability_unavailable "not-sampled" in
  {| hs_schema_version := 1; hs_collected_at_unix_ms := now_unix_ms; hs_elapsed_ms := 0;
     hs_cpu := {| cu_utilization_pct := F0; cu_load_1 := F0; cu_load_5 := F0; cu_load_15 := F0;
                  cu_logical_cores := 0; cu_counter_reset := false |};
     hs_memory := {| me_total_bytes := 0; me_used_bytes := 0; me_available_bytes := 0; me_used_pct := F0;
                     me_pressure := None; me_pressure_capability := not_sampled |};
     hs_swap := {| sw_total_bytes := 0; sw_used_bytes := 0; sw_free_bytes := 0; sw_used_pct := F0 |};
     hs_filesystem := {| fi_filesystems := []; fi_full_filesystems := 0 |};
     hs_disk := {| dk_devices := []; dk_total_read_bps := F0; dk_total_write_bps := F0 |};
     hs_diskhealth := {| ds_overall := HealthUnknown; ds_devices := [] |};
     hs_temperature := {| tp_sensors := []; tp_max_c := None; tp_capability := not_sampled |};
     hs_network := {| ns_interfaces := []; ns_total_rx_bps := F0; ns_total_tx_bps := F0 |};
     hs_processes := {| pt_high_resource := []; pt_churned_processes := 0 |};
     hs_systemd := {| sd_failed_units := []; sd_capability := not_sampled |};
     hs_kernel := {| ks_recent_errors := []; ks_truncated := false; ks_capability := not_sampled |};
     hs_tools := ToolStatus_default; hs_alerts := []; hs_alert_log := [] |}.

(** * Parsers of the health monitor (crates/sentia-health/src/procfs.rs)

    Counters of /proc and the redaction of kernel messages.  A [HashMap] keyed by text is
    its list of entries in key order ([bt_insert]); the unchecked products of
    [parse_meminfo] wrap, as in a release build. *)

Definition sat_add (a b : u64) : u64 := saturating_add U64_MAX a b.
Definition sat_mul (a b : u64) : u64 := Z.min U64_MAX (a * b).
Definition wrap_mul (a b : u64) : u64 := (a * b) mod (U64_MAX + 1).

Record CpuTimes := {
  ct_user : u64; ct_nice : u64; ct_system : u64; ct_idle : u64; ct_iowait : u64; ct_irq : u64;
  ct_softirq : u64; ct_steal : u64;
}.
Record CpuDelta := { cd_total : u64; cd_active : u64 }.

Definition CpuTimes_active (self : CpuTimes) : u64 :=
  sat_add (sat_add (sat_add (sat_add (sat_add (ct_user self) (ct_nice self)) (ct_system self)) (ct_irq self))
             (ct_softirq self)) (ct_steal self).
Definition CpuTimes_total (self : CpuTimes) : u64 :=
  sat_add (sat_add (CpuTimes_active self) (ct_idle self)) (ct_iowait self).
Definition CpuTimes_delta (self previous : CpuTimes) : option CpuDelta :=
  if (CpuTimes_total self <? CpuTimes_total previous) || (CpuTimes_active self <? CpuTimes_active previous)
  then None
  else Some {| cd_total := CpuTimes_total self - CpuTimes_total previous;
               cd_active := CpuTimes_active self - CpuTimes_active previous |}.

(** [parse().ok()?] of each of the values, the rest of the eight staying 0. *)
Fixpoint parse_all (values : list string) : option (list u64) :=
  match values with
  | [] => Some []
  | value :: rest => n ← ok (parse_u64 value); ns ← parse_all rest; Some (n :: ns)
  end.

Definition parse_cpu_total (line_data : string) : option CpuTimes :=
  line ← List.find (starts_with "cpu ") (lines line_data);
  match split_whitespace line with
  | [] => None
  | _ :: parts =>
      values ← parse_all (take 8 parts);
      let at_ := fun i => nth i values 0 in
      Some {| ct_user := at_ 0%nat; ct_nice := at_ 1%nat; ct_system := at_ 2%nat; ct_idle := at_ 3%nat;
              ct_iowait := at_ 4%nat; ct_irq := at_ 5%nat; ct_softirq := at_ 6%nat; ct_steal := at_ 7%nat |}
  end.

Definition HUNDRED : f64 := of_Z 100.

Definition cpu_utilization_pct (current previous : CpuTimes) : option f64 :=
  delta ← CpuTimes_delta current previous;
  if cd_total delta =? 0 then Some F0
  else Some (clamp (of_Z (cd_active delta) / of_Z (cd_total delta) * HUNDRED)%f64 F0 HUNDRED).

Definition parse_loadavg (content : string) : option (f64 * f64 * f64) :=
  match split_whitespace content with
  | a :: b :: c :: _ =>
      load_1 ← parse_f64 a; load_5 ← parse_f64 b; load_15 ← parse_f64 c; Some (load_1, load_5, load_15)
  | _ => None
  end.

Record MemInfo := {
  mi_total_bytes : u64; mi_available_bytes : u64; mi_free_bytes : u64; mi_buffers_bytes : u64;
  mi_cached_bytes : u64; mi_swap_total_bytes : u64; mi_swap_free_bytes : u64;
}.

Fixpoint meminfo_values (lines : list string) (values_kb : list (string * u64)) : option (list (string * u64)) :=
  match lines with
  | [] => Some values_kb
  | line :: rest =>
      match split_whitespace line with
      | raw_key :: value :: _ =>
          n ← ok (parse_u64 value); meminfo_values rest (bt_insert (trim_end_char ":" raw_key) n values_kb)
      | _ => None
      end
  end.

Definition parse_meminfo (content : string) : option MemInfo :=
  values_kb ← meminfo_values (lines content) [];
  let get k := member k values_kb in
  total ← get "MemTotal"%string;
  available ← match get "MemAvailable"%string with
              | Some n => Some n
              | None => free ← get "MemFree"%string; buffers ← get "Buffers"%string; Some (sat_add free buffers)
              end;
  let bytes k := wrap_mul (default 0 (get k)) 1024 in
  Some {| mi_total_bytes := sat_mul total 1024; mi_available_bytes := sat_mul available 1024;
          mi_free_bytes := bytes "MemFree"%string; mi_buffers_bytes := bytes "Buffers"%string;
          mi_cached_bytes := bytes "Cached"%string; mi_swap_total_bytes := bytes "SwapTotal"%string;
          mi_swap_free_bytes := bytes "SwapFree"%string |}.

(** The averages of one line of /proc/pressure/memory. *)
Fixpoint pressure_segments (segments : list string) (target : list (string * f64)) : option (list (string * f64)) :=
  match segments with
  | [] => Some target
  | segment :: rest =>
      '(key, value) ← split_once "=" segment;
      if existsb (String.eqb key) ["avg10"; "avg60"; "avg300"]
      then x ← parse_f64 value; pressure_segments rest (bt_insert key x target)
      else pressure_segments rest target
  end.

Fixpoint pressure_lines (lines : list string) (some_values full_values : list (string * f64))
  : option (list (string * f64) * list (string * f64)) :=
  match lines with
  | [] => Some (some_values, full_values)
  | line :: rest =>
      match split_whitespace line with
      | [] => None
      | category :: parts =>
          if String.eqb category "some" then
            target ← pressure_segments parts some_values; pressure_lines rest target full_values
          else if String.eqb category "full" then
            target ← pressure_segments parts full_values; pressure_lines rest some_values target
          else pressure_lines rest some_values full_values
      end
  end.

Definition parse_memory_pressure (content : string) : option MemoryPressure :=
  '(some_values, full_values) ← pressure_lines (lines content) [] [];
  some_avg10 ← member "avg10" some_values;
  some_avg60 ← member "avg60" some_values;
  some_avg300 ← member "avg300" some_values;
  full_avg10 ← member "avg10" full_values;
  full_avg60 ← member "avg60" full_values;
  full_avg300 ← member "avg300" full_values;
  Some {| mp_some_avg10 := some_avg10; mp_some_avg60 := some_avg60; mp_some_avg300 := some_avg300;
          mp_full_avg10 := full_avg10; mp_full_avg60 := full_avg60; mp_full_avg300 := full_avg300 |}.

Record NetCounters := { nc_rx_bytes : u64; nc_tx_bytes : u64 }.
Record DiskCounters := { dc_read_bytes : u64; dc_write_bytes : u64; dc_io_time_ms : u64 }.

(** A field of a line with enough fields. *)
Definition field_u64 (fields : list string) (i : nat) : option u64 :=
  field ← nth_error fields i; ok (parse_u64 field).

Definition net_dev_entry (line : string) : option (string * NetCounters) :=
  '(iface, data) ← split_once ":" line;
  let fields := split_whitespace data in
  if vlen fields <? 16 then None
  else
    rx ← field_u64 fields 0; tx ← field_u64 fields 8;
    Some (trim iface, {| nc_rx_bytes := rx; nc_tx_bytes := tx |}).

Definition parse_net_dev (content : string) : list (string * NetCounters) :=
  bt_of (omap net_dev_entry (drop 2 (lines content))).

Definition is_primary_block_device (device : string) : bool :=
  if starts_with "loop" device || starts_with "ram" device then false
  else if starts_with "nvme" device then negb (contains "p" device)
  else if starts_with "mmcblk" device then negb (contains "p" device)
  else negb (match last (chars device) with
             | Some ch => match ch with String c EmptyString => is_ascii_digit c | _ => false end
             | None => false
             end).

Definition diskstats_entry (line : string) : option (string * DiskCounters) :=
  let fields := split_whitespace line in
  if vlen fields <? 14 then None
  else
    name ← nth_error fields 2;
    if negb (is_primary_block_device name) then None
    else
      read ← field_u64 fields 5; write ← field_u64 fields 9; io_time ← field_u64 fields 12;
      Some (name, {| dc_read_bytes := sat_mul read 512; dc_write_bytes := sat_mul write 512;
                     dc_io_time_ms := io_time |}).

Definition parse_diskstats (content : string) : list (string * DiskCounters) :=
  bt_of (omap diskstats_entry (lines content)).

Record ProcessStat := { pc_pid : u32; pc_name : string; pc_cpu_jiffies : u64; pc_rss_pages : Z }.

Definition I64_MIN : Z := -9223372036854775808.
Definition I64_MAX : Z := 9223372036854775807.
Definition parse_i64 : string -> result IntErrorKind Z := from_str_radix true I64_MIN I64_MAX 10.

(** [?] on an option inside a computation that may panic. *)
Definition try_some {E A B} (o : option A) (k : A -> result E (option B)) : result E (option B) :=
  match o with Some a => k a | None => Ok None end.

(** The first [(] and the last [)]; [content[open + 1..close]] panics when they are in the
    other order. *)
Definition parse_process_stat {E} (content : string) : result E (option ProcessStat) :=
  try_some (split_once "(" content) (fun '(before, _) =>
  try_some (rsplit_once ")" content) (fun '(before_close, after_close) =>
  let open := len before in
  let close := len before_close in
  try_some (ok (parse_u32 (trim before))) (fun pid =>
  name ← slice content (open + 1) close;
  let fields := split_whitespace (trim after_close) in
  if vlen fields <? 22 then Ok None
  else
    Ok (utime ← field_u64 fields 11; stime ← field_u64 fields 12;
        rss ← nth_error fields 21; rss_pages ← ok (parse_i64 rss);
        Some {| pc_pid := pid; pc_name := name; pc_cpu_jiffies := sat_add utime stime;
                pc_rss_pages := rss_pages |})))).

(** ** Kernel messages *)

Definition SECRET_KEYS : list string := ["token"; "secret"; "password"; "passwd"; "key"].

Definition redact_token (token : string) : string :=
  match split_once "=" token with
  | Some (key, value) =>
      if existsb (fun needle => contains needle (to_ascii_lowercase key)) SECRET_KEYS
      then key +:+ "=<redacted>"
      else if (48 <? len value) && bytes_all is_ascii_alphanumeric value then key +:+ "=<redacted>"
      else token
  | None =>
      if (64 <? len token) && bytes_all is_ascii_alphanumeric (to_ascii_lowercase token)
      then "<redacted>" else token
  end.

Fixpoint sanitize_tokens {E} (max_len : usize) (out : string) (tokens : list string) : result E string :=
  match tokens with
  | [] => Ok out
  | token :: rest =>
      let out := (if is_empty out then out else out +:+ " ") +:+ redact_token token in
      if max_len <=? len out then truncate out max_len else sanitize_tokens max_len out rest
  end.

Definition sanitize_log_message {E} (raw : string) (max_len : usize) : result E string :=
  sanitize_tokens max_len EmptyString (split_whitespace raw).

(** ** The redaction of kernel messages *)

(** All the words of a message, redacted. *)
Definition redacted_message (raw : string) : string := join " " (map redact_token (split_whitespace raw)).

Definition glue (out token : string) : string := (if is_empty out then out else out +:+ " ") +:+ redact_token token.

Lemma get_app_l i (a b : string) : (i < String.length a)%nat -> String.get i (a +:+ b) = String.get i a.
Proof. revert i. induction a as [|c a IH]; intros [|i] Hi; cbn in *; try lia; [done|]. apply IH. lia. Qed.

Lemma get_app_0 (a b : string) : String.get (String.length a) (a +:+ b) = String.get 0 b.
Proof. induction a as [|c a IH]; [done|]. cbn. apply IH. Qed.

Lemma truncate_0 {E} s : @truncate E s 0 = Ok EmptyString.
Proof.
  unfold truncate. destruct (Z.leb_spec (len s) 0) as [H|H].
  - pose proof (len_nonneg s). by rewrite (proj1 (len_empty_iff s)) by lia.
  - by destruct s.
Qed.

(** What follows a text by a space, or begins after the cut, does not change how it is cut. *)
Lemma truncate_app {E} out rest n :
  0 < n <= len out -> rest = EmptyString \/ String.get 0 rest = Some " "%char ->
  @truncate E (out +:+ rest) n = truncate out n.
Proof.
  intros [Hn0 Hn] Hrest. destruct Hrest as [->|Hsp]; [by rewrite app_empty_r|].
  assert (0 < len rest) as Hr by (destruct rest; [done|unfold len; cbn; lia]).
  unfold truncate. rewrite len_app. destruct (Z.leb_spec (len out + len rest) n); [lia|].
  unfold is_char_boundary, byte_at. unfold len in *.
  destruct (Nat.eqb_spec (Z.to_nat n) 0); [lia|].
  destruct (Z.leb_spec (Z.of_nat (String.length out)) n) as [Hle|Hlt].
  - replace (Z.to_nat n) with (String.length out) by lia. rewrite get_app_0, Hsp. cbn.
    by rewrite stake_app_len.
  - rewrite get_app_l by lia. rewrite stake_app_le by lia.
    destruct (String.get (Z.to_nat n) out) eqn:Eg; [done|].
    rewrite !(proj2 (Nat.eqb_neq _ _)); [done|lia|rewrite str_length_app; lia].
Qed.

Lemma glued_rest tokens out : is_empty out = false ->
  exists rest, fold_left glue tokens out = out +:+ rest /\
    (rest = EmptyString \/ String.get 0 rest = Some " "%char).
Proof.
  revert out. induction tokens as [|t tokens IH]; intros out Ho; cbn [fold_left].
  { exists EmptyString. split; [by rewrite app_empty_r|by left]. }
  assert (glue out t = out +:+ (" " +:+ redact_token t)) as Hg by (unfold glue; by rewrite Ho, str_app_assoc).
  destruct (IH (glue out t)) as (rest & -> & _).
  { rewrite Hg. destruct out; [done|done]. }
  rewrite Hg, str_app_assoc. eexists. split; [done|]. by right.
Qed.

Lemma sanitize_tokens_spec {E} n out tokens : 0 < n -> len out < n ->
  @sanitize_tokens E n out tokens = truncate (fold_left glue tokens out) n.
Proof.
  intros Hn. revert out. induction tokens as [|t tokens IH]; intros out Ho; cbn [fold_left sanitize_tokens].
  { unfold truncate. by rewrite (proj2 (Z.leb_le _ _)) by lia. }
  fold (glue out t). destruct (Z.leb_spec n (len (glue out t))) as [Hge|Hlt]; [|by apply IH].
  destruct (glued_rest tokens (glue out t)) as (rest & -> & Hrest); [apply is_empty_false; lia|].
  by rewrite truncate_app.
Qed.

Lemma split_ws_nonempty acc cs : Forall (fun w => is_empty w = false) (split_ws_aux acc cs).
Proof.
  revert acc. induction cs as [|c cs IH]; intros acc; cbn; [destruct (is_empty acc) eqn:E; auto|].
  destruct (is_whitespace c); [|apply IH]. destruct (is_empty acc) eqn:E; auto.
Qed.

Lemma is_empty_app_r a b : is_empty b = false -> is_empty (a +:+ b) = false.
Proof. by destruct a. Qed.

Lemma redact_token_nonempty t : is_empty t = false -> is_empty (redact_token t) = false.
Proof.
  intros Ht. unfold redact_token. destruct (split_once _ t) as [[k v]|]; repeat case_match; try done;
    by apply is_empty_app_r.
Qed.

Lemma glue_join ws out : Forall (fun w => is_empty w = false) ws -> is_empty out = false ->
  fold_left glue ws out = join " " (out :: map redact_token ws).
Proof.
  intros Hw. revert out. induction Hw as [|w ws Hw1 Hw IH]; intros out Ho; [done|].
  cbn [fold_left map]. rewrite IH by (unfold glue; by apply is_empty_app_r, redact_token_nonempty).
  unfold glue. rewrite Ho. unfold join. cbn [String.concat].
  destruct (map redact_token ws); cbn [String.concat]; by rewrite ?str_app_assoc.
Qed.

Lemma glue_join_all ws : Forall (fun w => is_empty w = false) ws ->
  fold_left glue ws EmptyString = join " " (map redact_token ws).
Proof.
  intros Hw. destruct Hw as [|w ws Hw1 Hw]; [done|]. cbn [fold_left map].
  rewrite glue_join; [done|done|]. unfold glue. cbn. by apply redact_token_nonempty.
Qed.

(** The redaction of kernel messages is the redaction of all the words, cut at the
    limit: what is returned is never longer than the limit, and the call panics exactly when
    the cut would fall inside a character. *)
Theorem sanitize_cuts_redacted_message E raw max_len :
  0 <= max_len ->
  @sanitize_log_message E raw max_len = truncate (redacted_message raw) max_len /\
  (forall out, @sanitize_log_message E raw max_len = Ok out -> len out <= max_len).
Proof.
  intros Hm. assert (@sanitize_log_message E raw max_len = truncate (redacted_message raw) max_len) as Heq.
  - unfold sanitize_log_message, redacted_message.
    pose proof (split_ws_nonempty EmptyString (chars raw)) as Hw. fold (split_whitespace raw) in Hw.
    destruct (decide (max_len = 0)) as [->|Hne].
    + rewrite truncate_0. destruct (split_whitespace raw) as [|w ws]; [done|]. cbn [sanitize_tokens].
      rewrite (proj2 (Z.leb_le _ _)) by apply len_nonneg. apply truncate_0.
    + rewrite sanitize_tokens_spec by (unfold len; cbn; lia). by rewrite glue_join_all.
  - split; [done|]. intros out. rewrite Heq. unfold truncate.
    destruct (Z.leb_spec (len (redacted_message raw)) max_len); [by intros [= <-]|].
    destruct (is_char_boundary _ _); [|done]. intros [= <-]. unfold len in *. rewrite length_stake by lia. lia.
Qed.

(** A message of 179 bytes and a character of two. *)
Definition accented_message : string := sconcat (repeat "a." 89) +:+ "a" +:+ String (chr 195) (String (chr 169) EmptyString).

Lemma sanitize_cuts_redacted_message_witness :
  @sanitize_log_message Empty_set "user=root api_key=hunter2" 180 = Ok "user=root api_key=<redacted>"%string /\
  @sanitize_log_message Empty_set accented_message 180 = Panic.
Proof.
  split; [rewrite (proj1 (sanitize_cuts_redacted_message Empty_set "user=root api_key=hunter2" 180 ltac:(lia)))
    |rewrite (proj1 (sanitize_cuts_redacted_message Empty_set accented_message 180 ltac:(lia)))];
    vm_compute; reflexivity.
Defined.


(** ** The process table *)

Definition CLOSE : ascii := ")".

Lemma lacks_get sep s i : lacks sep s = true -> String.get i s <> Some sep.
Proof.
  revert i. induction s as [|c s IH]; intros i; [by destruct i|]. rewrite lacks_cons.
  intros [Hc Hs]%andb_true_iff. destruct i as [|i]; cbn; [|by apply IH].
  intros [= ->]. by rewrite Ascii.eqb_refl in Hc.
Qed.

Lemma whitespace_lacks_close g : is_whitespace g = true -> lacks CLOSE g = true.
Proof.
  unfold is_whitespace. intros H.
  assert (forall c, Ascii.eqb c CLOSE = true -> byte c = 41) as Hb by (by intros c ->%Ascii.eqb_eq).
  destruct g as [|a [|b [|c [|d g]]]]; cbn in *; try done; repeat rewrite andb_true_iff in *;
    repeat split; apply negb_true_iff, not_true_iff_false; intros Hc%Hb; rewrite Hc in H; cbn in H;
    rewrite ?andb_false_r, ?orb_false_r in H; try done; repeat case_match; zbool; lia.
Qed.

Lemma lacks_sconcat sep l : lacks sep (sconcat l) = forallb (lacks sep) l.
Proof. induction l as [|s l IH]; [done|]. cbn [sconcat forallb]. by rewrite lacks_app, IH. Qed.

Lemma drop_while_split {A} (p : A -> bool) l : exists a, l = a ++ drop_while p l /\ Forall (fun x => p x = true) a.
Proof.
  induction l as [|x l (a & Ha & Hp)]; [by exists []|]. cbn. destruct (p x) eqn:E.
  - exists (x :: a). split; [cbn; by f_equal|by constructor].
  - by exists [].
Qed.

(** Trimming removes only white space. *)
Lemma lacks_of_trim s : lacks CLOSE (trim s) = true -> lacks CLOSE s = true.
Proof.
  unfold trim, drop_while_end. intros H. rewrite <-(sconcat_chars s), lacks_sconcat. rewrite lacks_sconcat in H.
  destruct (drop_while_split is_whitespace (chars s)) as (a & Ha & Hpa). rewrite Ha.
  destruct (drop_while_split is_whitespace (rev (drop_while is_whitespace (chars s)))) as (b & Hb & Hpb).
  rewrite <-(rev_involutive (drop_while is_whitespace (chars s))), Hb, rev_app_distr, !forallb_app, H.
  assert (forall l, Forall (fun g => is_whitespace g = true) l -> forallb (lacks CLOSE) l = true) as Hws.
  { intros l Hl. apply forallb_forall. intros g Hg. apply whitespace_lacks_close.
    by apply (proj1 (Forall_forall _ _) Hl), list_elem_of_In. }
  rewrite (Hws a) by done. rewrite (Hws (rev b)); [done|]. apply Forall_rev. done.
Qed.

Lemma int_digits_lack max acc s n : int_digits 10 max acc s = Ok n -> lacks CLOSE s = true.
Proof.
  revert acc. induction s as [|c s IH]; intros acc; cbn [int_digits]; [done|]. intros H. inv_result.
  rewrite lacks_cons. apply andb_true_iff. split; [|by eapply IH].
  apply negb_true_iff, not_true_iff_false. intros ->%Ascii.eqb_eq. done.
Qed.

Lemma parse_u32_lacks s n : ok (parse_u32 s) = Some n -> lacks CLOSE s = true.
Proof.
  unfold parse_u32, from_str_radix. destruct s as [|c r]; [done|]. cbn [andb].
  destruct (_ && is_empty r); [done|]. destruct (Ascii.eqb_spec c "+") as [->|].
  - intros H. rewrite lacks_cons. cbn. destruct (int_digits 10 U32_MAX 0 r) eqn:E; [|done..]. by eapply int_digits_lack.
  - intros H. destruct (int_digits 10 U32_MAX 0 (String c r)) eqn:E; [|done..]. by eapply int_digits_lack.
Qed.

Lemma split_once_Some sep s a b : split_once sep s = Some (a, b) -> s = a +:+ String sep b.
Proof.
  revert a. induction s as [|c s IH]; intros a; cbn [split_once]; [done|].
  destruct (Ascii.eqb_spec c sep) as [->|]; [by intros [= <- <-]|].
  destruct (split_once sep s) as [[a' b']|]; [|done]. intros [= <- <-]. cbn. f_equal. by apply IH.
Qed.

(** Once the pid was parsed, the parentheses are in order. *)
Lemma parse_process_stat_no_panic {E} content : @parse_process_stat E content <> Panic.
Proof.
  unfold parse_process_stat, try_some. destruct (split_once "(" content) as [[before rest]|] eqn:Eo; [|done].
  destruct (rsplit_once ")" content) as [[bc ac]|] eqn:Ec; [|done].
  destruct (ok (parse_u32 (trim before))) as [pid|] eqn:Ep; [|done].
  apply parse_u32_lacks, lacks_of_trim in Ep. apply split_once_Some in Eo. apply rsplit_once_Some in Ec as [Ec _].
  assert (String.get (String.length bc) content = Some CLOSE) as Hget by (by rewrite Ec, get_app_0).
  assert (len before + 1 <= len bc) as Hle.
  { unfold len. destruct (lt_eq_lt_dec (String.length bc) (String.length before)) as [[Hlt|Heq]|]; [| |lia].
    - rewrite Eo, get_app_l in Hget by lia. by apply lacks_get in Hget.
    - by rewrite Eo, Heq, get_app_0 in Hget. }
  unfold slice. rewrite (proj2 (Z.leb_le _ _)) by lia. rewrite (proj2 (Z.leb_le _ _)); [|rewrite Ec, len_app; unfold len; lia].
  cbn [andb mbind result_bind]. by destruct (_ <? 22).
Qed.
