(* ===== verification/HealthAlert.v ===== *)
(** * Alerts (crates/sentia-health/src/alert.rs)

    [AlertEngine] turns the numbers of each snapshot into alerts with hysteresis: a
    condition becomes active after [required_samples] samples at or above its threshold and
    is cleared after as many at or below the lower one.  A [HashMap] is the list of its
    entries in key order; a loop over it sees them in any order ([HashOrder]). *)

From Stdlib Require Import Ascii String.
From S2P Require Import Prelude RustStr RustText Contract RustFloat HealthTypes.

(** The order in which a [HashMap] is traversed. *)
Class HashOrder := {
  hash_iter : forall {A}, list (string * A) -> list (string * A);
  hash_iter_perm : forall {A} (l : list (string * A)), Permutation (hash_iter l) l;
}.

Record ThresholdRule := {
  tr_activate_at : f64; tr_clear_below : f64; tr_required_samples : usize; tr_significant_delta : f64;
  tr_level : AlertLevel;
}.

Record ConditionState := {
  cs_active : bool; cs_above_samples : usize; cs_below_samples : usize; cs_first_seen_unix_ms : u64;
  cs_last_seen_unix_ms : u64; cs_last_emitted_value : f64; cs_message : string; cs_level : AlertLevel;
}.

Record AlertEngine := {
  ae_states : list (string * ConditionState); ae_log : list AlertRecord; ae_max_log_entries : usize;
}.

Definition AlertEngine_new (max_log_entries : usize) : AlertEngine :=
  {| ae_states := []; ae_log := []; ae_max_log_entries := max_log_entries |}.
Definition AlertEngine_default : AlertEngine := AlertEngine_new 256.

Definition push_record (log : list AlertRecord) (max_log_entries : usize) (record : AlertRecord)
  : list AlertRecord :=
  if max_log_entries =? 0 then log
  else (if max_log_entries <=? vlen log then tail log else log) ++ [record].

(** The state [entry(..).or_insert_with(..)] creates. *)
Definition fresh_condition (value : f64) (now : u64) (rule : ThresholdRule) : ConditionState :=
  {| cs_active := false; cs_above_samples := 0; cs_below_samples := 0; cs_first_seen_unix_ms := now;
     cs_last_seen_unix_ms := now; cs_last_emitted_value := value; cs_message := EmptyString;
     cs_level := tr_level rule |}.

Definition record_of (id : string) (active : bool) (s : ConditionState) : AlertRecord :=
  {| ar_id := id; ar_level := cs_level s; ar_active := active; ar_message := cs_message s;
     ar_value := cs_last_emitted_value s; ar_first_seen_unix_ms := cs_first_seen_unix_ms s;
     ar_last_seen_unix_ms := cs_last_seen_unix_ms s |}.

(** One sample of a condition: the new state, and whether it is logged. *)
Definition step_condition (state : ConditionState) (value : f64) (rule : ThresholdRule) (now : u64)
    (message_fn : f64 -> string) : ConditionState * bool :=
  if cs_active state then
    let below_clear_threshold := (value <=? tr_clear_below rule)%f64 in
    let below := if below_clear_threshold then saturating_add USIZE_MAX (cs_below_samples state) 1 else 0 in
    if tr_required_samples rule <=? below then
      ({| cs_active := false; cs_above_samples := 0; cs_below_samples := below;
          cs_first_seen_unix_ms := cs_first_seen_unix_ms state; cs_last_seen_unix_ms := now;
          cs_last_emitted_value := value; cs_message := message_fn value +:+ " (resolved)";
          cs_level := tr_level rule |}, true)
    else if negb below_clear_threshold
            && (tr_significant_delta rule <=? fabs (value - cs_last_emitted_value state))%f64 then
      ({| cs_active := true; cs_above_samples := cs_above_samples state; cs_below_samples := below;
          cs_first_seen_unix_ms := cs_first_seen_unix_ms state; cs_last_seen_unix_ms := now;
          cs_last_emitted_value := value; cs_message := message_fn value; cs_level := tr_level rule |}, true)
    else
      ({| cs_active := true; cs_above_samples := cs_above_samples state; cs_below_samples := below;
          cs_first_seen_unix_ms := cs_first_seen_unix_ms state;
          cs_last_seen_unix_ms := cs_last_seen_unix_ms state;
          cs_last_emitted_value := cs_last_emitted_value state; cs_message := cs_message state;
          cs_level := tr_level rule |}, false)
  else if (tr_activate_at rule <=? value)%f64 then
    let above := saturating_add USIZE_MAX (cs_above_samples state) 1 in
    if tr_required_samples rule <=? above then
      ({| cs_active := true; cs_above_samples := above; cs_below_samples := 0; cs_first_seen_unix_ms := now;
          cs_last_seen_unix_ms := now; cs_last_emitted_value := value; cs_message := message_fn value;
          cs_level := tr_level rule |}, true)
    else
      ({| cs_active := false; cs_above_samples := above; cs_below_samples := cs_below_samples state;
          cs_first_seen_unix_ms := cs_first_seen_unix_ms state;
          cs_last_seen_unix_ms := cs_last_seen_unix_ms state;
          cs_last_emitted_value := cs_last_emitted_value state; cs_message := cs_message state;
          cs_level := tr_level rule |}, false)
  else
    ({| cs_active := false; cs_above_samples := 0; cs_below_samples := cs_below_samples state;
        cs_first_seen_unix_ms := cs_first_seen_unix_ms state; cs_last_seen_unix_ms := cs_last_seen_unix_ms state;
        cs_last_emitted_value := cs_last_emitted_value state; cs_message := cs_message state;
        cs_level := tr_level rule |}, false).

Definition eval_numeric (self : AlertEngine) (id : string) (value : f64) (rule : ThresholdRule) (now : u64)
    (message_fn : f64 -> string) : AlertEngine :=
  let state := default (fresh_condition value now rule) (member id (ae_states self)) in
  let '(state, logged) := step_condition state value rule now message_fn in
  {| ae_states := bt_insert id state (ae_states self);
     ae_log := if logged then push_record (ae_log self) (ae_max_log_entries self) (record_of id (cs_active state) state)
               else ae_log self;
     ae_max_log_entries := ae_max_log_entries self |}.

(** ** The rules *)

Definition pressure_value (pressure : option MemoryPressure) : f64 :=
  match pressure with Some sample => mp_some_avg10 sample | None => F0 end.

Definition rule (activate_at clear_below : f64) (required_samples : usize) (significant_delta : f64)
    (level : AlertLevel) : ThresholdRule :=
  {| tr_activate_at := activate_at; tr_clear_below := clear_below; tr_required_samples := required_samples;
     tr_significant_delta := significant_delta; tr_level := level |}.

Record Condition := {
  cn_id : string; cn_value : HealthSnapshot -> f64; cn_rule : ThresholdRule; cn_message : f64 -> string;
}.

(** The calls of [evaluate], in order. *)
Definition conditions : list Condition :=
  [{| cn_id := "cpu_high"; cn_value := fun s => cu_utilization_pct (hs_cpu s);
      cn_rule := rule (of_Z 90) (of_Z 80) 2 (of_Z 5) AlWarning;
      cn_message := fun v => "CPU utilization sustained at " +:+ fixed 1 v +:+ "%" |};
   {| cn_id := "memory_high"; cn_value := fun s => me_used_pct (hs_memory s);
      cn_rule := rule (of_Z 92) (of_Z 86) 2 (of_Z 3) AlWarning;
      cn_message := fun v => "Memory usage sustained at " +:+ fixed 1 v +:+ "%" |};
   {| cn_id := "swap_high"; cn_value := fun s => sw_used_pct (hs_swap s);
      cn_rule := rule (of_Z 85) (of_Z 70) 2 (of_Z 5) AlWarning;
      cn_message := fun v => "Swap usage sustained at " +:+ fixed 1 v +:+ "%" |};
   {| cn_id := "filesystem_full"; cn_value := fun s => of_Z (fi_full_filesystems (hs_filesystem s));
      cn_rule := rule (of_Z 1) (lit 5 1) 1 (of_Z 1) AlCritical;
      cn_message := fun v => show_uint (as_usize v) +:+ " filesystem(s) are full or nearly full" |};
   {| cn_id := "memory_pressure"; cn_value := fun s => pressure_value (me_pressure (hs_memory s));
      cn_rule := rule (of_Z 1) (lit 3 1) 3 (lit 5 1) AlWarning;
      cn_message := fun v => "Memory PSI some avg10 elevated (" +:+ fixed 2 v +:+ ")" |};
   {| cn_id := "failed_units"; cn_value := fun s => of_Z (vlen (sd_failed_units (hs_systemd s)));
      cn_rule := rule (of_Z 1) (lit 5 1) 1 (of_Z 1) AlWarning;
      cn_message := fun v => show_uint (as_usize v) +:+ " failed systemd unit(s) detected" |};
   {| cn_id := "kernel_errors"; cn_value := fun s => of_Z (vlen (ks_recent_errors (hs_kernel s)));
      cn_rule := rule (of_Z 1) (lit 5 1) 1 (of_Z 2) AlWarning;
      cn_message := fun v => show_uint (as_usize v) +:+ " recent kernel error(s) reported" |};
   {| cn_id := "disk_health";
      cn_value := fun s => if bool_decide (ds_overall (hs_diskhealth s) = Degraded) then of_Z 1 else F0;
      cn_rule := rule (lit 5 1) (lit 5 1) 1 (of_Z 1) AlCritical;
      cn_message := fun _ => "Disk health reported degraded" |};
   {| cn_id := "temperature_high"; cn_value := fun s => default F0 (tp_max_c (hs_temperature s));
      cn_rule := rule (of_Z 85) (of_Z 78) 2 (of_Z 2) AlWarning;
      cn_message := fun v => "Temperature sustained at " +:+ fixed 1 v +:+ "°C" |};
   {| cn_id := "process_churn"; cn_value := fun s => of_Z (pt_churned_processes (hs_processes s));
      cn_rule := rule (of_Z 64) (of_Z 16) 2 (of_Z 16) AlInfo;
      cn_message := fun v => "High process churn observed (" +:+ show_uint (as_usize v) +:+ " process delta)" |}].

Definition eval_condition (snapshot : HealthSnapshot) (self : AlertEngine) (c : Condition) : AlertEngine :=
  eval_numeric self (cn_id c) (cn_value c snapshot) (cn_rule c) (hs_collected_at_unix_ms snapshot) (cn_message c).

Section engine.
Context `{HashOrder}.

(** The records of the active conditions, by their ids. *)
Definition active_alerts (self : AlertEngine) : list AlertRecord :=
  sort_by (leb_of (cmp_on ar_id String.compare))
    (omap (fun '(id, state) => if cs_active state then Some (record_of id true state) else None)
       (hash_iter (ae_states self))).

Definition evaluate (self : AlertEngine) (snapshot : HealthSnapshot)
  : AlertEngine * (list AlertRecord * list AlertRecord) :=
  let self := fold_left (eval_condition snapshot) conditions self in
  (self, (active_alerts self, ae_log self)).
End engine.

(** ** Hysteresis

    What the counters of a condition compute from its samples, newest first. *)

Definition above (r : ThresholdRule) (v : f64) : bool := (tr_activate_at r <=? v)%f64.
Definition below (r : ThresholdRule) (v : f64) : bool := (v <=? tr_clear_below r)%f64.

(** How many of the newest samples in a row satisfy [p]. *)
Fixpoint streak (p : f64 -> bool) (samples : list f64) : Z :=
  match samples with
  | v :: rest => if p v then 1 + streak p rest else 0
  | [] => 0
  end.

Fixpoint hysteresis (r : ThresholdRule) (samples : list f64) : bool :=
  match samples with
  | [] => false
  | _ :: rest =>
      if hysteresis r rest then negb (tr_required_samples r <=? streak (below r) samples)
      else tr_required_samples r <=? streak (above r) samples
  end.

(** A rule that can be met, and samples it does not call both high and low. *)
Definition usable (r : ThresholdRule) : Prop := 0 < tr_required_samples r < USIZE_MAX.
Definition separated (r : ThresholdRule) (v : f64) : Prop := above r v && below r v = false.

Definition simulates (r : ThresholdRule) (samples : list f64) (s : ConditionState) : Prop :=
  cs_active s = hysteresis r samples /\
  if cs_active s then cs_below_samples s = streak (below r) samples /\ streak (below r) samples < tr_required_samples r
  else cs_above_samples s = streak (above r) samples /\ streak (above r) samples < tr_required_samples r.

Lemma streak_nonneg p samples : 0 <= streak p samples.
Proof. induction samples as [|v l IH]; cbn; [done|]. destruct (p v); lia. Qed.

Lemma fresh_simulates r value now : usable r -> simulates r [] (fresh_condition value now r).
Proof. intros [Hr _]. split; [done|]. cbn. lia. Qed.

Lemma step_simulates r samples s v now message_fn :
  usable r -> separated r v -> simulates r samples s ->
  simulates r (v :: samples) (step_condition s v r now message_fn).1.
Proof.
  intros [Hr Hmax] Hsep [Ha Hc]. unfold separated, above, below in Hsep. unfold step_condition.
  pose proof (streak_nonneg (below r) samples) as Hb0. pose proof (streak_nonneg (above r) samples) as Ha0.
  destruct (cs_active s) eqn:Es.
  - fold (below r v) in *. destruct Hc as [Hc Hlt].
    assert (saturating_add USIZE_MAX (cs_below_samples s) 1 = 1 + streak (below r) samples) as Hsat
      by (unfold saturating_add; lia).
    assert ((if below r v then saturating_add USIZE_MAX (cs_below_samples s) 1 else 0)
            = streak (below r) (v :: samples)) as Hst.
    { cbn [streak]. by destruct (below r v). }
    rewrite Hst. clear Hst Hsat.
    assert (hysteresis r (v :: samples) = negb (tr_required_samples r <=? streak (below r) (v :: samples))) as Hh
      by (cbn [hysteresis]; by rewrite <-Ha).
    destruct (Z.leb_spec (tr_required_samples r) (streak (below r) (v :: samples))) as [Hge|Hge].
    + split; [by rewrite Hh|]. cbn. unfold above. cbn [streak] in Hge.
      destruct (below r v); [|lia]. rewrite andb_true_r in Hsep. rewrite Hsep. lia.
    + destruct (negb (below r v) && _); (split; [by rewrite Hh|]); cbn; done.
  - fold (above r v) in *. destruct Hc as [Hc Hlt].
    assert (hysteresis r (v :: samples) = (tr_required_samples r <=? streak (above r) (v :: samples))) as Hh
      by (cbn [hysteresis]; by rewrite <-Ha).
    destruct (above r v) eqn:Ev.
    + assert (saturating_add USIZE_MAX (cs_above_samples s) 1 = streak (above r) (v :: samples)) as ->
        by (cbn [streak]; rewrite Ev; unfold saturating_add; lia).
      destruct (Z.leb_spec (tr_required_samples r) (streak (above r) (v :: samples))) as [Hge|Hge];
        (split; [by rewrite Hh|]); cbn -[streak]; [|done].
      change (below r v = false) in Hsep. cbn [streak]. rewrite Hsep. lia.
    + split; cbn -[streak hysteresis]; [rewrite Hh|]; cbn [streak]; rewrite Ev; [|lia].
      symmetry. apply Z.leb_gt. lia.
Qed.

(** ** The engine *)

(** The key order does not depend on the values. *)
Fixpoint key_insert (k : string) (ks : list string) : list string :=
  match ks with
  | [] => [k]
  | k' :: ks' =>
      match String.compare k k' with Lt => k :: k' :: ks' | Eq => k :: ks' | Gt => k' :: key_insert k ks' end
  end.

Lemma bt_insert_keys {A} k (v : A) m : (bt_insert k v m).*1 = key_insert k m.*1.
Proof.
  induction m as [|[k' v'] m IH]; [done|]. cbn. destruct (String.compare k k'); cbn; [done|done|].
  f_equal. apply IH.
Qed.

Definition alert_ids : list string := sort_by (leb_of String.compare) (map cn_id conditions).

Lemma evaluated_keys snapshot cs e :
  (ae_states (fold_left (eval_condition snapshot) cs e)).*1 = fold_left (fun ks c => key_insert (cn_id c) ks) cs
    (ae_states e).*1.
Proof.
  revert e. induction cs as [|c cs IH]; intros e; [done|]. cbn [fold_left]. rewrite IH. f_equal.
  unfold eval_condition, eval_numeric. destruct (step_condition _ _ _ _ _). cbn. apply bt_insert_keys.
Qed.

Lemma keys_after snapshot e :
  (ae_states e).*1 = [] \/ (ae_states e).*1 = alert_ids ->
  (ae_states (fold_left (eval_condition snapshot) conditions e)).*1 = alert_ids.
Proof. rewrite evaluated_keys. intros [->| ->]; reflexivity. Qed.

(** The state a condition is evaluated from. *)
Definition state_before (snapshot : HealthSnapshot) (e : AlertEngine) (c : Condition) : ConditionState :=
  default (fresh_condition (cn_value c snapshot) (hs_collected_at_unix_ms snapshot) (cn_rule c))
    (member (cn_id c) (ae_states e)).

Lemma eval_other snapshot cs e id :
  id ∉ map cn_id cs ->
  member id (ae_states (fold_left (eval_condition snapshot) cs e)) = member id (ae_states e).
Proof.
  revert e. induction cs as [|c cs IH]; intros e Hid; [done|]. cbn [fold_left map] in *.
  apply not_elem_of_cons in Hid as [Hne Hid]. rewrite IH by done.
  unfold eval_condition, eval_numeric. destruct (step_condition _ _ _ _ _). cbn [ae_states].
  rewrite member_bt_insert. by rewrite (proj2 (String.eqb_neq _ _) Hne).
Qed.

Lemma eval_member snapshot cs e c :
  NoDup (map cn_id cs) -> c ∈ cs ->
  member (cn_id c) (ae_states (fold_left (eval_condition snapshot) cs e)) =
    Some (step_condition (state_before snapshot e c) (cn_value c snapshot) (cn_rule c)
            (hs_collected_at_unix_ms snapshot) (cn_message c)).1.
Proof.
  revert e. induction cs as [|d cs IH]; intros e Hnd Hc; [by apply elem_of_nil in Hc|].
  cbn [map fold_left] in *. apply NoDup_cons in Hnd as [Hd Hnd].
  assert (forall id, cn_id d <> id -> member id (ae_states (eval_condition snapshot e d)) = member id (ae_states e))
    as Hother.
  { intros id Hne. apply (eval_other snapshot [d] e). cbn. set_solver. }
  apply elem_of_cons in Hc as [->|Hc].
  - rewrite eval_other by done. unfold eval_condition, eval_numeric. fold (state_before snapshot e d).
    destruct (step_condition _ _ _ _ _) eqn:Es. cbn [ae_states]. by rewrite member_bt_insert, String.eqb_refl.
  - rewrite IH by done. unfold state_before. rewrite Hother; [done|].
    intros Heq. apply Hd. rewrite Heq. by apply list_elem_of_fmap_2.
Qed.

Lemma ids_NoDup : NoDup (map cn_id conditions).
Proof. apply (bool_decide_unpack _). vm_compute. exact I. Qed.

(** What every rule of the table satisfies. *)
Lemma separated_by r v : (tr_activate_at r <=? tr_clear_below r)%f64 = false -> separated r v.
Proof.
  intros Hr. unfold separated, above, below. apply not_true_iff_false. intros [H1 H2]%andb_true_iff.
  by rewrite (fle_trans _ _ _ H1 H2) in Hr.
Qed.

Lemma conditions_ok : Forall (fun c => usable (cn_rule c) /\ forall s, separated (cn_rule c) (cn_value c s)) conditions.
Proof.
  unfold conditions. repeat (apply Forall_cons_2; [split; [by vm_compute|intros s]|]); [..|constructor].
  all: try (apply separated_by; vm_compute; reflexivity).
  cbn [cn_value]. destruct (bool_decide _); vm_compute; reflexivity.
Qed.

(** The engine after [history], newest snapshot first. *)
Definition engine_matches (history : list HealthSnapshot) (e : AlertEngine) : Prop :=
  (ae_states e).*1 = match history with [] => [] | _ => alert_ids end /\
  forall c, c ∈ conditions -> forall s, member (cn_id c) (ae_states e) = Some s ->
    simulates (cn_rule c) (map (cn_value c) history) s.

Lemma new_matches max : engine_matches [] (AlertEngine_new max).
Proof. done. Qed.

Lemma member_some {A} id (m : list (string * A)) : id ∈ m.*1 -> is_Some (member id m).
Proof. intros Hin. destruct (member id m) eqn:E; [eauto|]. by apply member_None in E. Qed.

Lemma evaluate_matches `{HashOrder} history e snapshot :
  engine_matches history e -> engine_matches (snapshot :: history) (evaluate e snapshot).1.
Proof.
  intros [Hk Hs]. split.
  - apply keys_after. destruct history; auto.
  - intros c Hc s. cbn [evaluate fst]. rewrite eval_member by (done || apply ids_NoDup). intros [= <-].
    pose proof (proj1 (Forall_forall _ _) conditions_ok c Hc) as [Hu Hsep].
    cbn [map]. apply step_simulates; [done|done|]. unfold state_before.
    destruct (member (cn_id c) (ae_states e)) as [s|] eqn:Em; cbn [default].
    + by apply Hs.
    + destruct history as [|h history]; [by apply fresh_simulates|].
      exfalso. apply member_None in Em. apply Em. rewrite Hk. unfold alert_ids. rewrite sort_by_perm.
      by apply list_elem_of_fmap_2.
Qed.

Lemma insert_by_map {A B} (f : A -> B) (leb : B -> B -> bool) x l :
  map f (insert_by (fun a b => leb (f a) (f b)) x l) = insert_by leb (f x) (map f l).
Proof. induction l as [|y l IH]; [done|]. cbn. destruct (leb (f x) (f y)); cbn; [done|by rewrite IH]. Qed.

Lemma sort_by_map {A B} (f : A -> B) (leb : B -> B -> bool) l :
  map f (sort_by (fun a b => leb (f a) (f b)) l) = sort_by leb (map f l).
Proof. induction l as [|x l IH]; [done|]. cbn [sort_by map]. by rewrite insert_by_map, IH. Qed.

(** The entry of a key in a list without duplicates. *)
Lemma member_elem {A} id (s : A) m : NoDup m.*1 -> (id, s) ∈ m -> member id m = Some s.
Proof.
  induction m as [|[k v] m IH]; intros Hnd Hin; [by apply elem_of_nil in Hin|].
  cbn in *. apply NoDup_cons in Hnd as [Hk Hnd]. apply elem_of_cons in Hin as [[= <- <-]|Hin].
  - by rewrite String.eqb_refl.
  - destruct (String.eqb_spec id k) as [->|]; [|by apply IH].
    exfalso. apply Hk. by apply (list_elem_of_fmap_2 fst) in Hin.
Qed.

Lemma omap_keys {A} (p : A -> bool) (m : list (string * A)) :
  NoDup m.*1 -> NoDup (omap (fun '(id, s) => if p s then Some id else None) m).
Proof.
  induction m as [|[k v] m IH]; cbn; [constructor|]. intros [Hk Hnd]%NoDup_cons.
  destruct (p v); cbn; [|by apply IH]. constructor; [|by apply IH].
  intros ([k' s] & Hin & Hs)%list_elem_of_omap. apply Hk.
  destruct (p s); [|done]. injection Hs as ->. by apply (list_elem_of_fmap_2 fst) in Hin.
Qed.

Lemma alert_ids_NoDup : NoDup alert_ids.
Proof. unfold alert_ids. rewrite sort_by_perm. apply ids_NoDup. Qed.

Section correctness.
Context `{HashOrder}.

(** The engine after a history of snapshots, newest first. *)
Definition engine_after (max : usize) (history : list HealthSnapshot) : AlertEngine :=
  foldr (fun snapshot e => (evaluate e snapshot).1) (AlertEngine_new max) history.

(** The conditions that hold by their samples. *)
Definition due (history : list HealthSnapshot) (c : Condition) : bool :=
  hysteresis (cn_rule c) (map (cn_value c) history).

Lemma engine_after_matches max history : engine_matches history (engine_after max history).
Proof. induction history as [|s l IH]; [apply new_matches|]. by apply evaluate_matches. Qed.

Definition log_bounded (max : usize) (e : AlertEngine) : Prop :=
  ae_max_log_entries e = max /\ vlen (ae_log e) <= max.

Lemma eval_condition_bounded max s e c : 0 <= max -> log_bounded max e -> log_bounded max (eval_condition s e c).
Proof.
  intros Hmax [Hm Hl]. unfold eval_condition, eval_numeric. destruct (step_condition _ _ _ _ _) as [state logged].
  split; [done|]. cbn [ae_log]. destruct logged; [|done]. unfold push_record. rewrite Hm.
  destruct (Z.eqb_spec max 0); [done|]. rewrite vlen_app, vlen_cons, vlen_nil.
  destruct (Z.leb_spec max (vlen (ae_log e))); [|lia].
  destruct (ae_log e); [unfold vlen in *; cbn in *; lia|]. rewrite vlen_cons in *. cbn. lia.
Qed.

Lemma evaluate_bounded max s e : 0 <= max -> log_bounded max e -> log_bounded max (evaluate e s).1.
Proof.
  intros Hmax. cbn [evaluate fst]. revert e. induction conditions as [|c cs IH]; intros e He; [done|].
  cbn [fold_left]. by apply IH, eval_condition_bounded.
Qed.

Lemma engine_after_bounded max history : 0 <= max -> log_bounded max (engine_after max history).
Proof.
  intros Hmax. induction history as [|s l IH]; [split; [done|]; unfold vlen; cbn; lia|].
  by apply evaluate_bounded.
Qed.

(** The active conditions of an engine, in any order. *)
Lemma active_ids_perm history e :
  history <> [] -> engine_matches history e ->
  Permutation (omap (fun '(id, s) => if cs_active s then Some id else None) (ae_states e))
    (map cn_id (List.filter (due history) conditions)).
Proof.
  intros Hne [Hk Hs]. assert ((ae_states e).*1 = alert_ids) as Hkeys by (by destruct history).
  assert (NoDup (ae_states e).*1) as Hnd by (rewrite Hkeys; apply alert_ids_NoDup).
  apply NoDup_Permutation.
  - by apply omap_keys.
  - pose proof ids_NoDup as Hc. revert Hc. generalize conditions. intros cs.
    induction cs as [|c cs IH]; cbn; [constructor|]. intros [Hc Hcs]%NoDup_cons.
    destruct (due history c); [|by apply IH]. cbn. constructor; [|by apply IH].
    intros (d & Hd & Hin)%list_elem_of_fmap. apply Hc. rewrite Hd. apply list_elem_of_fmap_2.
    apply list_elem_of_In, filter_In in Hin as [Hin _]. by apply list_elem_of_In.
  - intros id. rewrite list_elem_of_omap, list_elem_of_fmap. split.
    + intros ([k s] & Hin & Hact). destruct (cs_active s) eqn:Ea; [|done]. injection Hact as ->.
      assert (id ∈ alert_ids) as Hid by (rewrite <-Hkeys; by apply (list_elem_of_fmap_2 fst) in Hin).
      unfold alert_ids in Hid. rewrite sort_by_perm in Hid. apply list_elem_of_fmap in Hid as (c & -> & Hc).
      exists c. split; [done|]. apply list_elem_of_In, filter_In. split; [by apply list_elem_of_In|].
      apply member_elem in Hin; [|done]. destruct (Hs c Hc s Hin) as [Hact _]. unfold due. congruence.
    + intros (c & -> & Hin). apply list_elem_of_In, filter_In in Hin as [Hc Hdue]. apply list_elem_of_In in Hc.
      destruct (member_some (cn_id c) (ae_states e)) as [s Hm].
      { rewrite Hkeys. unfold alert_ids. rewrite sort_by_perm. by apply list_elem_of_fmap_2. }
      exists (cn_id c, s). split; [by apply member_In|]. destruct (Hs c Hc s Hm) as [Hact _].
      unfold due in Hdue. rewrite Hact, Hdue. done.
Qed.

Lemma engine_after_cons max snapshot history :
  engine_after max (snapshot :: history) = (evaluate (engine_after max history) snapshot).1.
Proof. reflexivity. Qed.

Lemma evaluate_result e snapshot :
  evaluate e snapshot =
    ((evaluate e snapshot).1, (active_alerts (evaluate e snapshot).1, ae_log (evaluate e snapshot).1)).
Proof. unfold evaluate. cbv zeta. cbn [fst]. reflexivity. Qed.

Lemma active_alerts_active e : Forall (fun r => ar_active r = true) (active_alerts e).
Proof.
  unfold active_alerts. rewrite sort_by_perm. apply Forall_forall. intros r ([id s] & _ & Hr)%list_elem_of_omap.
  destruct (cs_active s); [|done]. by injection Hr as <-.
Qed.

Lemma active_alerts_ids history e :
  history <> [] -> engine_matches history e ->
  map ar_id (active_alerts e) = sort_by (leb_of String.compare) (map cn_id (List.filter (due history) conditions)).
Proof.
  intros Hne Hm. unfold active_alerts.
  etrans; [apply (sort_by_map ar_id (leb_of String.compare))|].
  apply (sort_cmp_perm_eq String.compare); [apply str_compare_lawful|by intros x y _ _ ?%String.compare_eq_iff|].
  rewrite <-(active_ids_perm history e Hne Hm).
  replace (map ar_id (omap _ (hash_iter (ae_states e))))
    with (omap (fun '(id, s) => if cs_active s then Some id else None) (hash_iter (ae_states e)));
    [by rewrite (hash_iter_perm (ae_states e))|].
  induction (hash_iter (ae_states e)) as [|[id s] l IH]; [done|].
  cbn. destruct (cs_active s); cbn; [by f_equal|done].
Qed.

(** C15 The alerts follow the samples: after any history of snapshots, the alerts
    [evaluate] reports are, in the order of their ids, exactly the conditions that hold by
    hysteresis on all their samples (active after the required number of samples in a row
    at or above the threshold, until as many in a row at or below the lower one), and the
    log never holds more than its maximum. *)
Theorem alerts_follow_hysteresis max history snapshot :
  0 <= max ->
  let '(_, (active, log)) := evaluate (engine_after max history) snapshot in
  map ar_id active = sort_by (leb_of String.compare) (map cn_id (List.filter (due (snapshot :: history)) conditions)) /\
  Forall (fun r => ar_active r = true) active /\ vlen log <= max.
Proof.
  intros Hmax. pose proof (engine_after_matches max (snapshot :: history)) as Hm.
  pose proof (engine_after_bounded max (snapshot :: history) Hmax) as [_ Hb].
  rewrite engine_after_cons in Hm, Hb. rewrite evaluate_result.
  split; [by apply active_alerts_ids|]. split; [apply active_alerts_active|done].
Qed.
End correctness.

Definition key_order : HashOrder := {| hash_iter := fun _ l => l; hash_iter_perm := fun _ l => Permutation_refl l |}.

(** A machine with a degraded disk. *)
Definition degraded_snapshot (now : u64) : HealthSnapshot :=
  let s := HealthSnapshot_empty now in
  {| hs_schema_version := 1; hs_collected_at_unix_ms := now; hs_elapsed_ms := 0; hs_cpu := hs_cpu s;
     hs_memory := hs_memory s; hs_swap := hs_swap s; hs_filesystem := hs_filesystem s; hs_disk := hs_disk s;
     hs_diskhealth := {| ds_overall := Degraded; ds_devices := [] |}; hs_temperature := hs_temperature s;
     hs_network := hs_network s; hs_processes := hs_processes s; hs_systemd := hs_systemd s;
     hs_kernel := hs_kernel s; hs_tools := hs_tools s; hs_alerts := []; hs_alert_log := [] |}.

Lemma alerts_follow_hysteresis_witness :
  let '(_, (active, log)) := evaluate (H := key_order) (engine_after (H := key_order) 2 [HealthSnapshot_empty 1])
                               (degraded_snapshot 2) in
  map ar_id active = ["disk_health"] /\ vlen log <= 2.
Proof.
  pose proof (alerts_follow_hysteresis (H := key_order) 2 [HealthSnapshot_empty 1] (degraded_snapshot 2) ltac:(lia))
    as H.
  destruct (evaluate _ _) as [e [active log]]. destruct H as (Hids & _ & Hlog). split; [|exact Hlog].
  rewrite Hids. vm_compute. reflexivity.
Defined.
