(* ===== verification/HealthCollector.v ===== *)
(** * Sampling the machine (crates/sentia-health/src/collector.rs)

    [collect] reads /proc, /sys and the output of four fixed programs into one snapshot; the
    counters of the last sample are its state.  Every contact with the machine is an [hsys]
    call.  An [Instant] is its nanoseconds; [serde_json::from_str] is a parameter.  A sort by
    floating-point keys is the stable sort of the keys, which have no NaN. *)

From Stdlib Require Import Ascii String.
From S2P Require Import Prelude RustStr RustText Contract Effects ToolTypes RustFloat HealthTypes HealthAlert.

Definition SMARTCTL_PATHS : list string := ["/usr/sbin/smartctl"; "/usr/bin/smartctl"].
Definition NVME_PATHS : list string := ["/usr/sbin/nvme"; "/usr/bin/nvme"].
Definition SYSTEMCTL_PATHS : list string := ["/usr/bin/systemctl"; "/bin/systemctl"].
Definition JOURNALCTL_PATHS : list string := ["/usr/bin/journalctl"; "/bin/journalctl"].

Record CollectorConfig := {
  cc_max_filesystems : usize; cc_max_processes : usize; cc_max_kernel_errors : usize;
  cc_max_failed_units : usize; cc_max_network_interfaces : usize; cc_max_disks : usize;
  cc_max_disk_health_devices : usize;
}.

Definition CollectorConfig_default : CollectorConfig :=
  {| cc_max_filesystems := 32; cc_max_processes := 10; cc_max_kernel_errors := 16; cc_max_failed_units := 32;
     cc_max_network_interfaces := 16; cc_max_disks := 16; cc_max_disk_health_devices := 8 |}.

Record HealthCollector := {
  hc_config : CollectorConfig; hc_prev_sample_at : option Z; hc_prev_cpu : option CpuTimes;
  hc_prev_cpu_total : option u64; hc_prev_net : list (string * NetCounters);
  hc_prev_disk : list (string * DiskCounters); hc_prev_process_cpu : gmap Z u64; hc_page_size : u64;
}.

(** [HealthCollector::new], [page_size] being the answer of [sysconf]. *)
Definition HealthCollector_new (config : CollectorConfig) (page_size : Z) : HealthCollector :=
  {| hc_config := config; hc_prev_sample_at := None; hc_prev_cpu := None; hc_prev_cpu_total := None;
     hc_prev_net := []; hc_prev_disk := []; hc_prev_process_cpu := ∅;
     hc_page_size := if page_size <=? 0 then 4096 else page_size |}.

Definition set_sample_at (t : Z) (c : HealthCollector) : HealthCollector :=
  {| hc_config := hc_config c; hc_prev_sample_at := Some t; hc_prev_cpu := hc_prev_cpu c;
     hc_prev_cpu_total := hc_prev_cpu_total c; hc_prev_net := hc_prev_net c; hc_prev_disk := hc_prev_disk c;
     hc_prev_process_cpu := hc_prev_process_cpu c; hc_page_size := hc_page_size c |}.
Definition set_cpu (current : CpuTimes) (total : option u64) (c : HealthCollector) : HealthCollector :=
  {| hc_config := hc_config c; hc_prev_sample_at := hc_prev_sample_at c; hc_prev_cpu := Some current;
     hc_prev_cpu_total := match total with Some t => Some t | None => hc_prev_cpu_total c end;
     hc_prev_net := hc_prev_net c; hc_prev_disk := hc_prev_disk c;
     hc_prev_process_cpu := hc_prev_process_cpu c; hc_page_size := hc_page_size c |}.
Definition set_net (net : list (string * NetCounters)) (c : HealthCollector) : HealthCollector :=
  {| hc_config := hc_config c; hc_prev_sample_at := hc_prev_sample_at c; hc_prev_cpu := hc_prev_cpu c;
     hc_prev_cpu_total := hc_prev_cpu_total c; hc_prev_net := net; hc_prev_disk := hc_prev_disk c;
     hc_prev_process_cpu := hc_prev_process_cpu c; hc_page_size := hc_page_size c |}.
Definition set_disk (disk : list (string * DiskCounters)) (c : HealthCollector) : HealthCollector :=
  {| hc_config := hc_config c; hc_prev_sample_at := hc_prev_sample_at c; hc_prev_cpu := hc_prev_cpu c;
     hc_prev_cpu_total := hc_prev_cpu_total c; hc_prev_net := hc_prev_net c; hc_prev_disk := disk;
     hc_prev_process_cpu := hc_prev_process_cpu c; hc_page_size := hc_page_size c |}.
Definition set_process_cpu (processes : gmap Z u64) (c : HealthCollector) : HealthCollector :=
  {| hc_config := hc_config c; hc_prev_sample_at := hc_prev_sample_at c; hc_prev_cpu := hc_prev_cpu c;
     hc_prev_cpu_total := hc_prev_cpu_total c; hc_prev_net := hc_prev_net c; hc_prev_disk := hc_prev_disk c;
     hc_prev_process_cpu := processes; hc_page_size := hc_page_size c |}.

(** ** The machine *)

Record VfsStats := {
  vf_blocks : u64; vf_blocks_available : u64; vf_blocks_free : u64; vf_fragment_size : u64;
}.
Record ProcessOutput := { po_stdout : string; po_stderr : string; po_success : bool }.

Inductive hsys : Type -> Type :=
| HUnixMillis : hsys Z
| HInstant : hsys Z
| HParallelism : hsys (option Z)
| HReadToString (path : string) : hsys (io string)
| HReadDir (path : string) : hsys (io (list (io string)))
| HExists (path : string) : hsys bool
| HStatVfs (path : string) : hsys (option VfsStats)
| HOutput (executable : string) (args : list string) : hsys (io ProcessOutput).

Abbreviation heff A := (eff hsys HealthCollector Empty_set A).

Definition gets {A} (f : HealthCollector -> A) : heff A := with_state (fun c => (c, Ok (f c))).
Definition modify (f : HealthCollector -> HealthCollector) : heff unit := with_state (fun c => (f c, Ok tt)).

Definition read_ok (path : string) : heff (option string) := r ← perform (HReadToString path); mret (io_ok r).
Definition read_or_default (path : string) : heff string := r ← read_ok path; mret (default EmptyString r).

(** ** Small helpers *)

Definition pct (value total : u64) : f64 :=
  if total =? 0 then F0 else clamp (of_Z value / of_Z total * HUNDRED)%f64 F0 HUNDRED.

Definition unix_now_ms : heff u64 := millis ← perform HUnixMillis; mret (Z.min U64_MAX millis).

Definition SKIPPED_FS : list string :=
  ["proc"; "sysfs"; "tmpfs"; "devtmpfs"; "devpts"; "cgroup"; "cgroup2"; "pstore"; "efivarfs"; "securityfs";
   "overlay"; "squashfs"; "tracefs"; "configfs"; "ramfs"; "autofs"; "mqueue"; "debugfs"; "fusectl"].
Definition should_skip_fs (fs_type : string) : bool := existsb (String.eqb fs_type) SKIPPED_FS.

Definition ESC (digits : string) : string := String (chr 92) digits.
Definition one (code : Z) : string := String (chr code) EmptyString.
Definition unescape_mount (raw : string) : string :=
  replace (ESC "134") (one 92) (replace (ESC "012") (one 10) (replace (ESC "011") (one 9) (replace (ESC "040") " " raw))).

Definition counter_delta (current previous : u64) : u64 * bool :=
  if previous <=? current then (current - previous, false) else (0, true).

Definition read_link_speed_mbps (interface : string) : heff (option u64) :=
  value ← read_ok (path_join (path_join "/sys/class/net" interface) "speed");
  mret (value ← value; speed ← ok (parse_u64 (trim value)); if speed =? U64_MAX then None else Some speed).

Definition is_permission_denied (content : string) : bool :=
  let lower := to_ascii_lowercase content in
  contains "permission denied" lower || contains "operation not permitted" lower.

(** [sort_by] in descending order of a key, and [truncate]. *)
Definition descending {A} (key : A -> f64) : list A -> list A :=
  sort_by (leb_of (fun a b => cmp_or_equal (key b) (key a))).
Definition truncated_to {A} (limit : usize) (l : list A) : list A :=
  if limit <? vlen l then take (Z.to_nat limit) l else l.

(** [iter().max_by(partial_cmp)]: the last of the greatest. *)
Definition max_by (l : list f64) : option f64 :=
  match l with
  | [] => None
  | x :: rest => Some (fold_left (fun a b => match cmp_or_equal a b with Gt => a | _ => b end) rest x)
  end.

Definition summarize_filesystem_samples (filesystems : list FilesystemSample) : FilesystemStatus :=
  let filesystems := descending fs_used_pct filesystems in
  {| fi_filesystems := filesystems; fi_full_filesystems := vlen (List.filter fs_full filesystems) |}.

(** ** Fixed programs *)

Record FixedCommandOutput := { fo_stdout : string; fo_stderr : string; fo_success : bool }.

Fixpoint find_existing (paths : list string) : heff (option string) :=
  match paths with
  | [] => mret None
  | path :: rest => found ← perform (HExists path); if (found : bool) then mret (Some path) else find_existing rest
  end.

(** The output, or why there is none. *)
Definition run_fixed_command (paths args : list string) : heff (FixedCommandOutput + Capability) :=
  found ← find_existing paths;
  match found with
  | None => mret (inr (Capability_missing_tool (join "," paths)))
  | Some path =>
      r ← perform (HOutput path args);
      mret (match r with
            | inl err => inr (Capability_error (io_text err))
            | inr output =>
                let stdout := from_utf8_lossy (po_stdout output) in
                let stderr := from_utf8_lossy (po_stderr output) in
                if is_permission_denied stderr || is_permission_denied stdout
                then inr (Capability_permission_denied (path +:+ " permission denied"))
                else inl {| fo_stdout := stdout; fo_stderr := stderr; fo_success := po_success output |}
            end)
  end.

Definition resolve_tool_presence (paths : list string) (tool_name : string) : heff Capability :=
  found ← find_existing paths;
  mret (match found with Some _ => Capability_available | None => Capability_missing_tool tool_name end).

(** [flatten] over the results of a directory. *)
Definition entries_of (r : io (list (io string))) : list string :=
  match r with inr entries => omap io_ok entries | inl _ => [] end.

Definition list_block_devices (limit : usize) : heff (list string) :=
  r ← perform (HReadDir "/sys/block");
  let names := map from_utf8_lossy (entries_of r) in
  let devices := List.filter (fun name => negb (starts_with "loop" name || starts_with "ram" name)) names in
  mret (truncated_to limit (sort_by (leb_of String.compare) devices)).

(** ** Processor and memory *)

Definition collect_cpu : heff (CpuStatus * option u64) :=
  stat ← read_ok "/proc/stat";
  loadavg ← read_ok "/proc/loadavg";
  cores ← perform HParallelism;
  previous ← gets hc_prev_cpu;
  let current := raw ← stat; parse_cpu_total raw in
  let usage := current ← current; previous ← previous; Some (cpu_utilization_pct current previous) in
  let total_delta :=
    match usage with
    | Some (Some _) => cd_total <$> (current ← current; previous ← previous; CpuTimes_delta current previous)
    | _ => None
    end in
  match current with Some current => modify (set_cpu current total_delta) | None => mret tt end;;
  let '(load_1, load_5, load_15) := default (F0, F0, F0) (content ← loadavg; parse_loadavg content) in
  mret ({| cu_utilization_pct := match usage with Some (Some value) => value | _ => F0 end;
           cu_load_1 := load_1; cu_load_5 := load_5; cu_load_15 := load_15;
           cu_logical_cores := default 1 cores;
           cu_counter_reset := match usage with Some None => true | _ => false end |}, total_delta).

Definition collect_memory : heff (MemoryStatus * SwapStatus) :=
  meminfo_content ← read_ok "/proc/meminfo";
  psi_content ← read_ok "/proc/pressure/memory";
  let meminfo := content ← meminfo_content; parse_meminfo content in
  let pressure := content ← psi_content; parse_memory_pressure content in
  let capability :=
    match psi_content, pressure with
    | None, _ => Capability_unavailable "/proc/pressure/memory unavailable"
    | Some _, Some _ => Capability_available
    | Some _, None => Capability_error "failed to parse /proc/pressure/memory"
    end in
  mret (match meminfo with
        | Some m =>
            let used_bytes := saturating_sub (mi_total_bytes m) (mi_available_bytes m) in
            let swap_used := saturating_sub (mi_swap_total_bytes m) (mi_swap_free_bytes m) in
            ({| me_total_bytes := mi_total_bytes m; me_used_bytes := used_bytes;
                me_available_bytes := mi_available_bytes m; me_used_pct := pct used_bytes (mi_total_bytes m);
                me_pressure := pressure; me_pressure_capability := capability |},
             {| sw_total_bytes := mi_swap_total_bytes m; sw_used_bytes := swap_used;
                sw_free_bytes := mi_swap_free_bytes m; sw_used_pct := pct swap_used (mi_swap_total_bytes m) |})
        | None =>
            ({| me_total_bytes := 0; me_used_bytes := 0; me_available_bytes := 0; me_used_pct := F0;
                me_pressure := pressure; me_pressure_capability := capability |},
             {| sw_total_bytes := 0; sw_used_bytes := 0; sw_free_bytes := 0; sw_used_pct := F0 |})
        end).

(** ** Filesystems *)

Definition filesystem_sample (mount_point fs_type : string) (stats : VfsStats) : FilesystemSample :=
  let bytes := fun blocks => sat_mul blocks (vf_fragment_size stats) in
  let total_bytes := bytes (vf_blocks stats) in
  let available_bytes := bytes (vf_blocks_available stats) in
  let used_bytes := saturating_sub total_bytes (bytes (vf_blocks_free stats)) in
  let used_pct := pct used_bytes total_bytes in
  {| fs_mount_point := mount_point; fs_fs_type := fs_type; fs_total_bytes := total_bytes;
     fs_used_bytes := used_bytes; fs_available_bytes := available_bytes; fs_used_pct := used_pct;
     fs_full := (available_bytes =? 0) || (of_Z 99 <=? used_pct)%f64 |}.

(** The loop over the mounts; [seen] holds the mount points met. *)
Fixpoint filesystem_samples (lines : list string) (seen : gset string) : heff (list FilesystemSample) :=
  match lines with
  | [] => mret []
  | line :: rest =>
      match split_whitespace line with
      | _ :: raw_mount :: fs_type :: _ =>
          let mount_point := unescape_mount raw_mount in
          if should_skip_fs fs_type then filesystem_samples rest seen
          else if decide (mount_point ∈ seen) then filesystem_samples rest seen
          else
            stats ← perform (HStatVfs mount_point);
            more ← filesystem_samples rest ({[mount_point]} ∪ seen);
            mret (match stats with
                  | Some stats => filesystem_sample mount_point fs_type stats :: more
                  | None => more
                  end)
      | _ => filesystem_samples rest seen
      end
  end.

Definition collect_filesystems : heff FilesystemStatus :=
  mounts ← read_or_default "/proc/self/mounts";
  samples ← filesystem_samples (lines mounts) ∅;
  limit ← gets (fun c => cc_max_filesystems (hc_config c));
  let samples := truncated_to limit (descending fs_used_pct samples) in
  mret {| fi_filesystems := samples; fi_full_filesystems := vlen (List.filter fs_full samples) |}.

(** ** Disks and interfaces *)

Definition rate (delta : u64) (elapsed_sec : f64) : f64 :=
  if (F0 <? elapsed_sec)%f64 then (of_Z delta / elapsed_sec)%f64 else F0.

Definition disk_sample (previous : option DiskCounters) (elapsed_ms : u64) (device : string)
    (counters : DiskCounters) : DiskIoSample :=
  let elapsed_sec := (of_Z elapsed_ms / of_Z 1000)%f64 in
  let delta f := match previous with Some p => counter_delta (f counters) (f p) | None => (0, false) end in
  let '(read_delta, r1) := delta dc_read_bytes in
  let '(write_delta, r2) := delta dc_write_bytes in
  let '(io_time_delta, r3) := delta dc_io_time_ms in
  {| di_device := device; di_read_bps := rate read_delta elapsed_sec; di_write_bps := rate write_delta elapsed_sec;
     di_utilization_pct := if 0 <? elapsed_ms
                           then clamp (of_Z io_time_delta / of_Z elapsed_ms * HUNDRED)%f64 F0 HUNDRED else F0;
     di_counter_reset := r1 || r2 || r3 |}.

(** [sum += x] over the samples, in the order of the loop. *)
Definition total_of {A} (f : A -> f64) (l : list A) : f64 := fold_left (fun acc x => (acc + f x)%f64) l F0.

Section hash.
Context `{HashOrder}.

Definition collect_disk (elapsed_ms : u64) : heff DiskStatus :=
  content ← read_or_default "/proc/diskstats";
  let current := parse_diskstats content in
  previous ← gets hc_prev_disk;
  limit ← gets (fun c => cc_max_disks (hc_config c));
  let samples := map (fun '(device, counters) =>
                   disk_sample (member device previous) elapsed_ms device counters) (hash_iter current) in
  modify (set_disk current);;
  mret {| dk_devices := truncated_to limit (descending (fun d => (di_read_bps d + di_write_bps d)%f64) samples);
          dk_total_read_bps := total_of di_read_bps samples;
          dk_total_write_bps := total_of di_write_bps samples |}.

Definition network_sample (previous : option NetCounters) (elapsed_ms : u64) (iface : string)
    (counters : NetCounters) (speed_mbps : option u64) : NetworkSample :=
  let elapsed_sec := (of_Z elapsed_ms / of_Z 1000)%f64 in
  let delta f := match previous with Some p => counter_delta (f counters) (f p) | None => (0, false) end in
  let '(rx_delta, r1) := delta nc_rx_bytes in
  let '(tx_delta, r2) := delta nc_tx_bytes in
  let rx_bps := rate rx_delta elapsed_sec in
  let tx_bps := rate tx_delta elapsed_sec in
  {| nw_interface := iface; nw_rx_bps := rx_bps; nw_tx_bps := tx_bps;
     nw_utilization_pct :=
       (speed ← speed_mbps;
        if speed =? 0 then None
        else Some (clamp ((rx_bps + tx_bps) * of_Z 8 / (of_Z speed * of_Z 1000000) * HUNDRED)%f64 F0 HUNDRED));
     nw_speed_mbps := speed_mbps; nw_counter_reset := r1 || r2 |}.

Fixpoint network_samples (previous : list (string * NetCounters)) (elapsed_ms : u64)
    (current : list (string * NetCounters)) : heff (list NetworkSample) :=
  match current with
  | [] => mret []
  | (iface, counters) :: rest =>
      speed_mbps ← read_link_speed_mbps iface;
      more ← network_samples previous elapsed_ms rest;
      mret (network_sample (member iface previous) elapsed_ms iface counters speed_mbps :: more)
  end.

Definition collect_network (elapsed_ms : u64) : heff NetworkStatus :=
  content ← read_or_default "/proc/net/dev";
  let current := parse_net_dev content in
  previous ← gets hc_prev_net;
  limit ← gets (fun c => cc_max_network_interfaces (hc_config c));
  samples ← network_samples previous elapsed_ms (hash_iter current);
  modify (set_net current);;
  mret {| ns_interfaces := truncated_to limit (descending (fun i => (nw_rx_bps i + nw_tx_bps i)%f64) samples);
          ns_total_rx_bps := total_of nw_rx_bps samples; ns_total_tx_bps := total_of nw_tx_bps samples |}.
End hash.

(** ** Processes *)

Definition process_cpu_pct (cpu_total_delta previous : option u64) (cores : usize) (jiffies : u64) : f64 :=
  match cpu_total_delta, previous with
  | Some total_delta, Some prev =>
      if (0 <? total_delta) && (prev <=? jiffies)
      then clamp (of_Z (jiffies - prev) / of_Z total_delta * HUNDRED * of_Z cores)%f64 F0 (HUNDRED * of_Z cores)%f64
      else F0
  | _, _ => F0
  end.

Definition process_sample (cpu_total_delta : option u64) (cores : usize) (total_memory_bytes page_size : u64)
    (prev_process_cpu : gmap Z u64) (stat : ProcessStat) : ProcessSample :=
  let memory_bytes := if pc_rss_pages stat <=? 0 then 0 else sat_mul (pc_rss_pages stat) page_size in
  {| pp_pid := pc_pid stat; pp_name := pc_name stat;
     pp_cpu_pct := process_cpu_pct cpu_total_delta (prev_process_cpu !! pc_pid stat) cores (pc_cpu_jiffies stat);
     pp_memory_bytes := memory_bytes; pp_memory_pct := pct memory_bytes total_memory_bytes |}.

(** The stat lines of the processes listed in /proc, in that order. *)
Fixpoint process_stats (names : list string) : heff (list ProcessStat) :=
  match names with
  | [] => mret []
  | name :: rest =>
      if negb (bytes_all is_ascii_digit (from_utf8_lossy name)) then process_stats rest
      else
        content ← read_ok (path_join (path_join "/proc" name) "stat");
        stat ← lift (match content with Some content => parse_process_stat content | None => Ok None end);
        more ← process_stats rest;
        mret (match stat with Some stat => stat :: more | None => more end)
  end.

(** [symmetric_difference(..).count()] of the keys *)
Definition churn (previous current : gmap Z u64) : usize :=
  Z.of_nat (size ((dom previous ∖ dom current) ∪ (dom current ∖ dom previous) : gset Z)).

Definition collect_processes (cpu_total_delta : option u64) (cores : usize) (total_memory_bytes : u64)
  : heff ProcessStatus :=
  process_dirs ← perform (HReadDir "/proc");
  match process_dirs with
  | inl _ => mret {| pt_high_resource := []; pt_churned_processes := 0 |}
  | inr _ =>
      stats ← process_stats (entries_of process_dirs);
      previous ← gets hc_prev_process_cpu;
      page_size ← gets hc_page_size;
      limit ← gets (fun c => cc_max_processes (hc_config c));
      let current_map : gmap Z u64 :=
        fold_left (fun m stat => <[pc_pid stat := pc_cpu_jiffies stat]> m) stats ∅ in
      let samples := map (process_sample cpu_total_delta cores total_memory_bytes page_size previous) stats in
      modify (set_process_cpu current_map);;
      mret {| pt_high_resource :=
                truncated_to limit (descending (fun p => (pp_cpu_pct p + pp_memory_pct p)%f64) samples);
              pt_churned_processes := churn previous current_map |}
  end.

(** ** Temperatures *)

Fixpoint temperature_samples (root : string) (names : list string) : heff (list TemperatureSample) :=
  match names with
  | [] => mret []
  | raw_name :: rest =>
      let file_name := from_utf8_lossy raw_name in
      if negb (starts_with "thermal_zone" file_name) then temperature_samples root rest
      else
        let path := path_join root raw_name in
        temp_raw ← read_ok (path_join path "temp");
        match (text ← temp_raw; parse_f64 (trim text)) with
        | None => temperature_samples root rest
        | Some temp_value =>
            name ← read_ok (path_join path "type");
            let name := match trim <$> name with
                        | Some v => if is_empty v then file_name else v
                        | None => file_name
                        end in
            let temp_c := if (of_Z 200 <? temp_value)%f64 then (temp_value / of_Z 1000)%f64 else temp_value in
            more ← temperature_samples root rest;
            mret ({| ts_name := name; ts_temperature_c := temp_c |} :: more)
        end
  end.

Definition collect_temperature_from_root (root : string) : heff (TemperatureStatus * Capability) :=
  read_dir ← perform (HReadDir root);
  match read_dir with
  | inl _ =>
      let capability := Capability_unavailable (display root +:+ " unavailable") in
      mret ({| tp_sensors := []; tp_max_c := None; tp_capability := capability |}, capability)
  | inr _ =>
      sensors ← temperature_samples root (entries_of read_dir);
      let sensors := descending ts_temperature_c sensors in
      let capability := match sensors with
                        | [] => Capability_unavailable "no temperature sensors found"
                        | _ => Capability_available
                        end in
      mret ({| tp_sensors := sensors; tp_max_c := max_by (map ts_temperature_c sensors);
               tp_capability := capability |}, capability)
  end.

(** ** Failed units *)

Definition no_units (capability : Capability) : SystemdStatus * Capability :=
  ({| sd_failed_units := []; sd_capability := capability |}, capability).

Definition unit_of_line (line : string) : option FailedUnit :=
  match split_whitespace line with
  | unit :: _ :: active_state :: sub_state :: description =>
      Some {| fu_unit := unit; fu_active_state := active_state; fu_sub_state := sub_state;
              fu_description := join " " description |}
  | _ => None
  end.

Definition collect_failed_units : heff (SystemdStatus * Capability) :=
  result ← run_fixed_command SYSTEMCTL_PATHS ["--no-pager"; "--no-legend"; "--plain"; "--failed"];
  limit ← gets (fun c => cc_max_failed_units (hc_config c));
  mret (match result with
        | inr capability => no_units capability
        | inl output =>
            if negb (fo_success output) then
              let joined := fo_stdout output +:+ one 10 +:+ fo_stderr output in
              no_units (if contains "System has not been booted with systemd" joined
                        then Capability_unavailable "systemd not running"
                        else if is_permission_denied joined
                        then Capability_permission_denied "systemctl access denied"
                        else Capability_error "systemctl execution failed")
            else
              ({| sd_failed_units := truncated_to limit (omap unit_of_line (lines (fo_stdout output)));
                  sd_capability := Capability_available |}, Capability_available)
        end).

(** ** Kernel errors and disk health *)

Section json.
Context (from_str : string -> option Value).

Definition v_as_f64 (v : Value) : option f64 :=
  match v with
  | VNumber (NInt n) => Some (of_Z n)
  | VNumber (NFloat bits) => Some (of_bits bits)
  | _ => None
  end.

Definition no_errors (capability : Capability) : KernelStatus * Capability :=
  ({| ks_recent_errors := []; ks_truncated := false; ks_capability := capability |}, capability).

(** One line of the journal; [sanitize_log_message] may panic. *)
Definition kernel_error (value : Value) : result Empty_set KernelError :=
  let text key := get value key ≫= v_as_str in
  message ← sanitize_log_message (default EmptyString (text "MESSAGE"%string)) 180;
  Ok {| ke_timestamp := text "__REALTIME_TIMESTAMP"%string;
        ke_priority := (text "PRIORITY"%string ≫= fun t => ok (parse_u8 t));
        ke_identifier := text "SYSLOG_IDENTIFIER"%string; ke_message := message |}.

Fixpoint kernel_errors (lines : list string) : result Empty_set (list KernelError) :=
  match lines with
  | [] => Ok []
  | line :: rest =>
      if is_empty (trim line) then kernel_errors rest
      else match from_str line with
           | None => kernel_errors rest
           | Some value => error ← kernel_error value; more ← kernel_errors rest; Ok (error :: more)
           end
  end.

Definition collect_kernel_errors : heff (KernelStatus * Capability) :=
  limit ← gets (fun c => cc_max_kernel_errors (hc_config c));
  result ← run_fixed_command JOURNALCTL_PATHS
             ["-k"; "-p"; "err..alert"; "-n"; show_uint limit; "--no-pager"; "--output=json"];
  match result with
  | inr capability => mret (no_errors capability)
  | inl output =>
      let joined := fo_stdout output +:+ one 10 +:+ fo_stderr output in
      if negb (fo_success output) then
        mret (no_errors
          (if is_permission_denied joined
              || contains "No journal files were opened due to insufficient permissions" joined
           then Capability_permission_denied "journalctl requires journal read permission"
           else if contains "No journal files were found" joined
           then Capability_unavailable "journal unavailable"
           else Capability_error "journalctl execution failed"))
      else
        errors ← lift (kernel_errors (lines (fo_stdout output)));
        mret ({| ks_recent_errors := truncated_to limit errors; ks_truncated := limit <=? vlen errors;
                 ks_capability := Capability_available |}, Capability_available)
  end.

Definition unknown_device (device backend : string) (capability : Capability) (note : string)
  : DiskHealthDevice * Capability :=
  ({| dh_device := device; dh_backend := backend; dh_health := HealthUnknown; dh_capability := capability;
      dh_temperature_c := None; dh_note := Some note |}, capability).

Definition probe_smartctl_device (device : string) : heff (DiskHealthDevice * Capability) :=
  result ← run_fixed_command SMARTCTL_PATHS ["-H"; "-n"; "standby"; "/dev/" +:+ device];
  mret (match result with
        | inr capability => unknown_device device "smartctl" capability "smartctl unavailable"
        | inl output =>
            let body := fo_stdout output +:+ one 10 +:+ fo_stderr output in
            if is_permission_denied body then
              unknown_device device "smartctl" (Capability_permission_denied ("smartctl denied for " +:+ device))
                "read-only probe blocked by permission"
            else
              let lower := to_ascii_lowercase body in
              let health :=
                if contains "test result: passed" lower || contains "health status: ok" lower then Healthy
                else if contains "test result: failed" lower || contains "health status: critical" lower
                then Degraded else HealthUnknown in
              ({| dh_device := device; dh_backend := "smartctl"; dh_health := health;
                  dh_capability := Capability_available; dh_temperature_c := None;
                  dh_note := if negb (fo_success output) && bool_decide (health = HealthUnknown)
                             then Some "smartctl returned non-zero status"%string else None |},
               Capability_available)
        end).

Definition probe_nvme_device (device : string) : heff (DiskHealthDevice * Capability) :=
  result ← run_fixed_command NVME_PATHS ["smart-log"; "/dev/" +:+ device; "-o"; "json"];
  mret (match result with
        | inr capability => unknown_device device "nvme" capability "nvme tool unavailable"
        | inl output =>
            let body := fo_stdout output +:+ one 10 +:+ fo_stderr output in
            if is_permission_denied body then
              unknown_device device "nvme" (Capability_permission_denied ("nvme denied for " +:+ device))
                "read-only probe blocked by permission"
            else
              let '(health, temperature_c) :=
                match from_str (fo_stdout output) with
                | Some value =>
                    let warning := default 0 (get value "critical_warning" ≫= v_as_u64) in
                    (if warning =? 0 then Healthy else Degraded,
                     (k ← get value "temperature" ≫= v_as_f64;
                      Some (fmax (k - lit 27315 2)%f64 (SpecFloat.SFopp (lit 27315 2)))))
                | None => (HealthUnknown, None)
                end in
              ({| dh_device := device; dh_backend := "nvme"; dh_health := health;
                  dh_capability := Capability_available; dh_temperature_c := temperature_c;
                  dh_note := if bool_decide (health = HealthUnknown)
                             then Some "nvme output parse failed"%string else None |}, Capability_available)
        end).

(** The loop over the devices; the last capability that is not available is kept. *)
Fixpoint probe_devices (devices : list string) (smartctl nvme : Capability)
  : heff (list DiskHealthDevice * Capability * Capability) :=
  match devices with
  | [] => mret ([], smartctl, nvme)
  | device :: rest =>
      let keep := fun old new => if bool_decide (cp_state new = Available) then old else new in
      if starts_with "nvme" device then
        '(sample, capability) ← probe_nvme_device device;
        '(samples, s, n) ← probe_devices rest smartctl (keep nvme capability);
        mret (sample :: samples, s, n)
      else
        '(sample, capability) ← probe_smartctl_device device;
        '(samples, s, n) ← probe_devices rest (keep smartctl capability) nvme;
        mret (sample :: samples, s, n)
  end.

Definition overall_health (samples : list DiskHealthDevice) : DiskHealthState :=
  if existsb (fun s => bool_decide (dh_health s = Degraded)) samples then Degraded
  else if existsb (fun s => bool_decide (dh_health s = Healthy)) samples then Healthy else HealthUnknown.

Definition collect_disk_health : heff (DiskHealthStatus * Capability * Capability) :=
  limit ← gets (fun c => cc_max_disk_health_devices (hc_config c));
  devices ← list_block_devices limit;
  smartctl ← resolve_tool_presence SMARTCTL_PATHS "smartctl";
  nvme ← resolve_tool_presence NVME_PATHS "nvme";
  '(samples, smartctl, nvme) ← probe_devices devices smartctl nvme;
  mret ({| ds_overall := overall_health samples; ds_devices := samples |}, smartctl, nvme).

(** ** One sample *)

Context `{HashOrder}.

(** The milliseconds since the previous sample. *)
Definition elapsed_since (prev_sample_at : option Z) : heff u64 :=
  match prev_sample_at with
  | None => mret 0
  | Some last => now ← perform HInstant; mret (Z.min U64_MAX (Z.max 0 (now - last) / 1000000))
  end.

Definition collect : heff HealthSnapshot :=
  now_unix_ms ← unix_now_ms;
  prev_sample_at ← gets hc_prev_sample_at;
  elapsed_ms ← elapsed_since prev_sample_at;
  sampled_at ← perform HInstant;
  modify (set_sample_at sampled_at);;
  '(cpu, cpu_total_delta) ← collect_cpu;
  '(memory, swap) ← collect_memory;
  filesystem ← collect_filesystems;
  disk ← collect_disk elapsed_ms;
  network ← collect_network elapsed_ms;
  processes ← collect_processes cpu_total_delta (cu_logical_cores cpu) (me_total_bytes memory);
  '(temperature, thermal) ← collect_temperature_from_root "/sys/class/thermal";
  '(systemd, systemctl) ← collect_failed_units;
  '(kernel, journalctl) ← collect_kernel_errors;
  '(diskhealth, smartctl, nvme) ← collect_disk_health;
  mret {| hs_schema_version := 1; hs_collected_at_unix_ms := now_unix_ms; hs_elapsed_ms := elapsed_ms;
          hs_cpu := cpu; hs_memory := memory; hs_swap := swap; hs_filesystem := filesystem; hs_disk := disk;
          hs_diskhealth := diskhealth; hs_temperature := temperature; hs_network := network;
          hs_processes := processes; hs_systemd := systemd; hs_kernel := kernel;
          hs_tools := {| ts_smartctl := smartctl; ts_nvme := nvme; ts_systemctl := systemctl;
                         ts_journalctl := journalctl; ts_thermal_sysfs := thermal |};
          hs_alerts := []; hs_alert_log := [] |}.
End json.

Definition append_alerts (snapshot : HealthSnapshot) (active log : list AlertRecord) : HealthSnapshot :=
  {| hs_schema_version := hs_schema_version snapshot;
     hs_collected_at_unix_ms := hs_collected_at_unix_ms snapshot; hs_elapsed_ms := hs_elapsed_ms snapshot;
     hs_cpu := hs_cpu snapshot; hs_memory := hs_memory snapshot; hs_swap := hs_swap snapshot;
     hs_filesystem := hs_filesystem snapshot; hs_disk := hs_disk snapshot;
     hs_diskhealth := hs_diskhealth snapshot; hs_temperature := hs_temperature snapshot;
     hs_network := hs_network snapshot; hs_processes := hs_processes snapshot;
     hs_systemd := hs_systemd snapshot; hs_kernel := hs_kernel snapshot; hs_tools := hs_tools snapshot;
     hs_alerts := active; hs_alert_log := log |}.
