(* ===== verification/HealthMonitor.v ===== *)
(** * The health monitor and its daemon (crates/sentia-health/src/monitor.rs, daemon.rs, main.rs)

    [sample] collects a snapshot, evaluates the alerts and chooses the next interval: short
    while an alert is active, long after five samples without a significant change.  The
    daemon serves the latest snapshot to every client of its socket.  A [Duration] is its
    nanoseconds; the daemon's endless loop runs for a number of turns. *)

From Stdlib Require Import Ascii String.
From S2P Require Import Prelude RustStr RustText Contract Effects ToolTypes RustFloat HealthTypes HealthAlert HealthCollector.

Definition from_millis (ms : u64) : Z := ms * 1000000.
Definition from_secs (s : u64) : Z := s * 1000000000.

Record AdaptiveIntervals := { ai_min : Z; ai_normal : Z; ai_max : Z }.
Definition AdaptiveIntervals_default : AdaptiveIntervals :=
  {| ai_min := from_secs 2; ai_normal := from_secs 5; ai_max := from_secs 20 |}.

Record MonitorConfig := {
  mc_collector : CollectorConfig; mc_intervals : AdaptiveIntervals; mc_alert_log_capacity : usize;
}.
Definition MonitorConfig_default : MonitorConfig :=
  {| mc_collector := CollectorConfig_default; mc_intervals := AdaptiveIntervals_default;
     mc_alert_log_capacity := 256 |}.

Record HealthMonitor := {
  hm_collector : HealthCollector; hm_alerts : AlertEngine; hm_config : MonitorConfig; hm_stable_ticks : usize;
  hm_next_interval : Z; hm_previous : option HealthSnapshot;
}.

Definition HealthMonitor_new (config : MonitorConfig) (page_size : Z) : HealthMonitor :=
  {| hm_collector := HealthCollector_new (mc_collector config) page_size;
     hm_alerts := AlertEngine_new (mc_alert_log_capacity config); hm_config := config; hm_stable_ticks := 0;
     hm_next_interval := ai_normal (mc_intervals config); hm_previous := None |}.

(** [(a - b).abs() >= limit] *)
Definition differs (a b limit : f64) : bool := (limit <=? fabs (a - b))%f64.

Definition is_significant_change (previous current : HealthSnapshot) : bool :=
  let net s := (ns_total_rx_bps (hs_network s) + ns_total_tx_bps (hs_network s))%f64 in
  let disk s := (dk_total_read_bps (hs_disk s) + dk_total_write_bps (hs_disk s))%f64 in
  if differs (cu_utilization_pct (hs_cpu previous)) (cu_utilization_pct (hs_cpu current)) (of_Z 10) then true
  else if differs (me_used_pct (hs_memory previous)) (me_used_pct (hs_memory current)) (of_Z 5) then true
  else if differs (net previous) (net current) (of_Z 5000000) then true
  else if differs (disk previous) (disk current) (of_Z 10000000) then true
  else
    negb (fi_full_filesystems (hs_filesystem previous) =? fi_full_filesystems (hs_filesystem current))
    || negb (vlen (sd_failed_units (hs_systemd previous)) =? vlen (sd_failed_units (hs_systemd current)))
    || negb (vlen (ks_recent_errors (hs_kernel previous)) =? vlen (ks_recent_errors (hs_kernel current))).

(** The new [stable_ticks] and the interval. *)
Definition compute_interval (self : HealthMonitor) (current : HealthSnapshot) : usize * Z :=
  let intervals := mc_intervals (hm_config self) in
  if match hs_alerts current with [] => false | _ => true end then (0, ai_min intervals)
  else
    let significant_change := match hm_previous self with
                              | Some previous => is_significant_change previous current
                              | None => true
                              end in
    if significant_change then (0, ai_normal intervals)
    else
      let stable_ticks := saturating_add USIZE_MAX (hm_stable_ticks self) 1 in
      (stable_ticks, if 5 <=? stable_ticks then ai_max intervals else ai_normal intervals).

Definition set_collector (c : HealthCollector) (m : HealthMonitor) : HealthMonitor :=
  {| hm_collector := c; hm_alerts := hm_alerts m; hm_config := hm_config m; hm_stable_ticks := hm_stable_ticks m;
     hm_next_interval := hm_next_interval m; hm_previous := hm_previous m |}.

Section monitor.
Context (from_str : string -> option Value) `{HashOrder}.

(** What [sample] does once the snapshot is collected. *)
Definition finish_sample (self : HealthMonitor) (snapshot : HealthSnapshot) : HealthMonitor * HealthSnapshot :=
  let '(alerts, (active, log)) := evaluate (hm_alerts self) snapshot in
  let snapshot := append_alerts snapshot active log in
  let '(stable_ticks, next_interval) := compute_interval self snapshot in
  ({| hm_collector := hm_collector self; hm_alerts := alerts; hm_config := hm_config self;
      hm_stable_ticks := stable_ticks; hm_next_interval := next_interval; hm_previous := Some snapshot |}, snapshot).

Definition sample : eff hsys HealthMonitor Empty_set HealthSnapshot :=
  snapshot ← zoom hm_collector set_collector (collect from_str);
  with_state (fun self => let '(self, snapshot) := finish_sample self snapshot in (self, Ok snapshot)).
End monitor.

(** ** The interval

    The samples of a monitor, newest first, as [sample] returned them. *)

Section intervals.
Context (intervals : AdaptiveIntervals).

Definition has_alerts (s : HealthSnapshot) : bool := match hs_alerts s with [] => false | _ => true end.

(** How many of the newest samples in a row had no alert and no significant change. *)
Fixpoint calm_samples (samples : list HealthSnapshot) : Z :=
  match samples with
  | current :: (previous :: _) as rest =>
      if has_alerts current || is_significant_change previous current then 0 else 1 + calm_samples rest
  | _ => 0
  end.

Definition interval_after (samples : list HealthSnapshot) : Z :=
  match samples with
  | [] => ai_normal intervals
  | current :: _ =>
      if has_alerts current then ai_min intervals
      else if 5 <=? calm_samples samples then ai_max intervals else ai_normal intervals
  end.
End intervals.

Section policy.
Context `{HashOrder}.

(** The monitor after collecting snapshots, newest first, and the samples it returned. *)
Fixpoint monitor_after (start : HealthMonitor) (collected : list HealthSnapshot)
  : HealthMonitor * list HealthSnapshot :=
  match collected with
  | [] => (start, [])
  | snapshot :: rest =>
      let '(self, samples) := monitor_after start rest in
      let '(self, sample) := finish_sample self snapshot in (self, sample :: samples)
  end.

Definition follows_policy (config : MonitorConfig) (samples : list HealthSnapshot) (m : HealthMonitor) : Prop :=
  hm_config m = config /\ hm_previous m = head samples /\
  hm_stable_ticks m = Z.min USIZE_MAX (calm_samples samples) /\
  hm_next_interval m = interval_after (mc_intervals config) samples.

Lemma calm_nonneg samples : 0 <= calm_samples samples.
Proof.
  induction samples as [|s [|p l] IH]; cbn -[is_significant_change] in *; [done|done|].
  destruct (has_alerts s || is_significant_change p s); lia.
Qed.

Lemma calm_cons s p l :
  calm_samples (s :: p :: l) =
    if has_alerts s || is_significant_change p s then 0 else 1 + calm_samples (p :: l).
Proof. done. Qed.

Lemma finish_sample_policy config samples m snapshot :
  follows_policy config samples m ->
  let '(m', sample) := finish_sample m snapshot in follows_policy config (sample :: samples) m'.
Proof.
  intros (Hc & Hp & Ht & Hi). unfold finish_sample. destruct (evaluate _ _) as [alerts [active log]].
  set (sample := append_alerts snapshot active log). unfold compute_interval.
  rewrite Hc, Hp, Ht. fold (has_alerts sample). unfold follows_policy, interval_after.
  destruct (has_alerts sample) eqn:Ea.
  { split; [done|]. split; [done|]. split; [|cbn [hm_next_interval]; by rewrite Ea]. cbn [hm_stable_ticks].
    destruct samples as [|p l]; cbn [calm_samples]; [done|]. by rewrite Ea. }
  destruct samples as [|p l]; cbn [head].
  { cbn [calm_samples]. repeat split; try done. cbn [hm_next_interval interval_after]. by rewrite ?Ea. }
  pose proof (calm_nonneg (p :: l)) as Hn. pose proof (calm_cons sample p l) as Hcons. rewrite Ea in Hcons.
  destruct (is_significant_change p sample) eqn:Es; cbn [orb] in Hcons.
  all: split; [done|]; split; [done|]; cbn [hm_stable_ticks hm_next_interval]; rewrite Ea, Hcons.
  { done. }
  set (n := calm_samples (p :: l)) in *. clearbody n.
  unfold saturating_add, USIZE_MAX, U64_MAX. split; [lia|].
  destruct (Z.leb_spec 5 (Z.min 18446744073709551615 (Z.min 18446744073709551615 n + 1))),
    (Z.leb_spec 5 (1 + n)); done || lia.
Qed.

(** The monitor paces itself by its samples: after any sequence of samples the next
    interval is the short one while the newest sample has an alert, the long one after five
    samples in a row without alert or significant change, and the normal one otherwise. *)
Theorem interval_follows_samples config page_size collected :
  let '(m, samples) := monitor_after (HealthMonitor_new config page_size) collected in
  length samples = length collected /\ hm_next_interval m = interval_after (mc_intervals config) samples.
Proof.
  enough (let '(m, samples) := monitor_after (HealthMonitor_new config page_size) collected in
          length samples = length collected /\ follows_policy config samples m) as Hall.
  { destruct (monitor_after _ _) as [m samples]. destruct Hall as (Hlen & _ & _ & _ & Hi). done. }
  induction collected as [|s l IH]; cbn [monitor_after]; [done|].
  destruct (monitor_after _ l) as [m samples]. destruct IH as [Hlen Hp].
  pose proof (finish_sample_policy config samples m s Hp) as Hf.
  destruct (finish_sample m s) as [m' sample]. cbn. split; [by f_equal|done].
Qed.
End policy.
