(* ===== verification/HealthSafety.v ===== *)
(** * What a sample does and how large it is

    Theorems about [collect] and [sample] in every environment: the programs they run, the
    bounds of a snapshot, and when they panic. *)

From Stdlib Require Import Ascii String.
From S2P Require Import Prelude RustStr RustText Contract Effects ToolTypes RustFloat HealthTypes HealthAlert HealthCollector HealthMonitor.

(** ** Programs *)

(** The probes of the collector. *)
Inductive probe : string -> list string -> Prop :=
| pr_units exe : exe ∈ SYSTEMCTL_PATHS -> probe exe ["--no-pager"; "--no-legend"; "--plain"; "--failed"]
| pr_journal exe limit : exe ∈ JOURNALCTL_PATHS ->
    probe exe ["-k"; "-p"; "err..alert"; "-n"; show_uint limit; "--no-pager"; "--output=json"]
| pr_smart exe device : exe ∈ SMARTCTL_PATHS -> starts_with "loop" device = false ->
    starts_with "nvme" device = false -> probe exe ["-H"; "-n"; "standby"; "/dev/" +:+ device]
| pr_nvme exe device : exe ∈ NVME_PATHS -> starts_with "nvme" device = true ->
    probe exe ["smart-log"; "/dev/" +:+ device; "-o"; "json"].

Definition probing (e : event hsys) : Prop :=
  match ev_call e with HOutput exe args => probe exe args | _ => True end.

Lemma find_existing_in paths : yields (find_existing paths) (fun r => forall p, r = Some p -> p ∈ paths).
Proof.
  induction paths as [|p l IH]; cbn [find_existing]; [by apply yields_ret|].
  apply yields_bind. intros []; [apply yields_ret; intros q [= ->]; left|].
  intros env h s r Hr q ->. right. by eapply IH.
Qed.

Lemma find_existing_probing paths : emits probing (find_existing paths).
Proof. induction paths; cbn [find_existing]; emits_tac; done. Qed.

Lemma run_fixed_command_probing paths args :
  (forall exe, exe ∈ paths -> probe exe args) -> emits probing (run_fixed_command paths args).
Proof.
  intros Hp. unfold run_fixed_command.
  eapply emits_bind_yields; [apply find_existing_probing|apply find_existing_in|].
  intros [exe|] Hexe; [|apply emits_ret]. apply emits_bind; [|intros; apply emits_ret].
  apply emits_perform. intros r. by apply Hp, Hexe.
Qed.

Lemma read_ok_probing path : emits probing (read_ok path).
Proof. unfold read_ok. emits_tac; done. Qed.
Lemma gets_probing {A} (f : HealthCollector -> A) : emits probing (gets f).
Proof. apply emits_with_state. Qed.
Lemma modify_probing f : emits probing (modify f).
Proof. apply emits_with_state. Qed.
#[export] Hint Resolve find_existing_probing read_ok_probing gets_probing modify_probing : sentia.

Lemma read_or_default_probing path : emits probing (read_or_default path).
Proof. unfold read_or_default. emits_tac. Qed.
#[export] Hint Resolve read_or_default_probing : sentia.

Lemma filesystem_samples_probing lines seen : emits probing (filesystem_samples lines seen).
Proof. revert seen. induction lines; intros; cbn [filesystem_samples]; emits_tac; done. Qed.

Lemma network_samples_probing previous elapsed current : emits probing (network_samples previous elapsed current).
Proof. induction current as [|[]]; cbn [network_samples]; unfold read_link_speed_mbps; emits_tac. Qed.

Lemma process_stats_probing names : emits probing (process_stats names).
Proof. induction names; cbn [process_stats]; emits_tac; done. Qed.

Lemma temperature_samples_probing root names : emits probing (temperature_samples root names).
Proof. induction names; cbn [temperature_samples]; emits_tac; done. Qed.
#[export] Hint Resolve filesystem_samples_probing network_samples_probing process_stats_probing
  temperature_samples_probing : sentia.

Section collecting.
Context (from_str : string -> option Value) `{HashOrder}.

Lemma probe_devices_probing devices smartctl nvme :
  Forall (fun d => starts_with "loop" d = false) devices -> emits probing (probe_devices from_str devices smartctl nvme).
Proof.
  intros Hd. revert smartctl nvme. induction Hd as [|d ds Hd Hds IH]; intros; cbn [probe_devices]; [apply emits_ret|].
  destruct (starts_with "nvme" d) eqn:E; (apply emits_bind; [|intros []; apply emits_bind; [apply IH|intros [[]]; apply emits_ret]]).
  - apply emits_bind; [|intros; apply emits_ret]. apply run_fixed_command_probing. intros exe Hexe. by apply pr_nvme.
  - apply emits_bind; [|intros; apply emits_ret]. apply run_fixed_command_probing. intros exe Hexe. by apply pr_smart.
Qed.

Lemma truncated_sublist {A} limit (l : list A) x : x ∈ truncated_to limit l -> x ∈ l.
Proof. unfold truncated_to. destruct (_ <? _); [|done]. intros Hx. rewrite <-(take_drop (Z.to_nat limit) l). set_solver. Qed.

Lemma block_devices_real limit :
  yields (list_block_devices limit) (fun ds => Forall (fun d => starts_with "loop" d = false) ds).
Proof.
  unfold list_block_devices. apply yields_bind. intros r. apply yields_ret. apply Forall_forall. intros d Hd.
  apply truncated_sublist in Hd. rewrite sort_by_perm in Hd. apply list_elem_of_In, filter_In in Hd as [_ Hd].
  by destruct (starts_with "loop" d).
Qed.

Lemma collect_disk_health_probing : emits probing (collect_disk_health from_str).
Proof.
  unfold collect_disk_health, resolve_tool_presence. apply emits_bind; [apply gets_probing|intros limit].
  eapply emits_bind_yields; [unfold list_block_devices; emits_tac; done|apply block_devices_real|].
  intros ds Hds. do 2 (apply emits_bind; [emits_tac|intros ?]).
  apply emits_bind; [by apply probe_devices_probing|intros [[]]; apply emits_ret].
Qed.

Lemma collect_kernel_errors_probing : emits probing (collect_kernel_errors from_str).
Proof.
  unfold collect_kernel_errors. apply emits_bind; [apply gets_probing|intros limit].
  apply emits_bind; [apply run_fixed_command_probing; by constructor|intros []; emits_tac].
Qed.

(** A sample only reads: whatever the machine answers, the only programs it runs are
    systemctl, journalctl, smartctl and nvme from their fixed places, with the fixed
    arguments of the failed units, of the newest kernel errors and of the health of a block
    device that the kernel lists and that is not a loop device. *)
Lemma sample_runs_only_probes : emits probing (sample from_str).
Proof.
  unfold sample. apply emits_bind; [apply emits_zoom|intros; apply emits_with_state].
  unfold collect, unix_now_ms, elapsed_since, collect_cpu, collect_memory, collect_filesystems, collect_disk,
    collect_network, collect_processes, collect_temperature_from_root, collect_failed_units.
  emits_tac; try done; auto using collect_kernel_errors_probing, collect_disk_health_probing with sentia.
  apply run_fixed_command_probing. by constructor.
Qed.
End collecting.

(** ** Bounds *)

Lemma truncated_bound {A} limit (l : list A) : 0 <= limit -> vlen (truncated_to limit l) <= limit.
Proof.
  intros Hl. unfold truncated_to. destruct (Z.ltb_spec limit (vlen l)); [|lia].
  unfold vlen. rewrite length_take. lia.
Qed.

(** The configuration never changes. *)
Definition same_config (s : HealthCollector) (_ : list (event hsys)) (s' : HealthCollector) : Prop :=
  hc_config s' = hc_config s.

Lemma kept_bind {A B} (m : heff A) (k : A -> heff B) :
  relates same_config m -> (forall a, relates same_config (k a)) -> relates same_config (m ≫= k).
Proof. apply relates_bind. unfold same_config. congruence. Qed.

Lemma kept_keeps {A} (m : heff A) : keeps_state m -> relates same_config m.
Proof. by apply relates_keeps. Qed.

Lemma kept_modify f : (forall c, hc_config (f c) = hc_config c) -> relates same_config (modify f).
Proof. intros Hf env h s. apply Hf. Qed.

Lemma kept_gets {A} (f : HealthCollector -> A) : relates same_config (gets f).
Proof. by intros env h s. Qed.

Ltac kept_tac :=
  repeat match goal with
  | |- relates _ (mret _) => apply kept_keeps, keeps_ret
  | |- relates _ (lift _) => apply kept_keeps, keeps_lift
  | |- relates _ (perform _) => apply kept_keeps, keeps_perform
  | |- relates _ (gets _) => apply kept_gets
  | |- relates _ (modify _) => by apply kept_modify
  | |- relates _ (_ ≫= _) => apply kept_bind; [|intros ?]
  | |- relates _ (match ?x with _ => _ end) => destruct x
  | |- relates _ (let '_ := ?x in _) => destruct x
  | |- relates _ _ => solve [eauto with kept]
  end.
Create HintDb kept.

(** [bounded_in c m F]: started with configuration [c], [m] returns what satisfies [F] and
    keeps the configuration. *)
Definition bounded_in (c : CollectorConfig) {A} (m : heff A) (F : A -> Prop) : Prop :=
  relates same_config m /\ forall env h s a, hc_config s = c -> value (m env h s) = Ok a -> F a.

Lemma bounded_bind c {A B} (m : heff A) (k : A -> heff B) G F :
  bounded_in c m G -> (forall a, G a -> bounded_in c (k a) F) -> (forall a, relates same_config (k a)) ->
  bounded_in c (m ≫= k) F.
Proof.
  intros [Hm HG] Hk Hr. split; [by apply kept_bind|]. intros env h s b Hc Hb.
  apply run_bind_Ok in Hb as (a & Ha & Hb & _). specialize (HG _ _ _ _ Hc Ha).
  destruct (Hk a HG) as [_ HF]. eapply HF; [|done]. by rewrite (Hm env h s).
Qed.

Lemma bounded_any c {A} (m : heff A) : relates same_config m -> bounded_in c m (fun _ => True).
Proof. by split. Qed.

Lemma bounded_ret c {A} (a : A) (F : A -> Prop) : F a -> bounded_in c (mret a) F.
Proof. intros Ha. split; [kept_tac|]. by intros env h s b _ [= <-]. Qed.

Lemma bounded_limit_of c {A} (f : CollectorConfig -> usize) (k : usize -> heff A) F :
  bounded_in c (k (f c)) F -> (forall a, relates same_config (k a)) ->
  bounded_in c (limit ← gets (fun s => f (hc_config s)); k limit) F.
Proof.
  intros [_ HF] Hr. split; [kept_tac; apply Hr|]. intros env h s b Hc Hb.
  apply run_bind_Ok in Hb as (a & Ha & Hb & _). cbn in Ha. injection Ha as <-. rewrite Hc in Hb.
  by eapply HF.
Qed.

(** A step whose result is not bounded. *)
Lemma bounded_skip c {A B} (m : heff A) (k : A -> heff B) F :
  relates same_config m -> (forall a, bounded_in c (k a) F) -> bounded_in c (m ≫= k) F.
Proof.
  intros Hm Hk. eapply bounded_bind; [by apply bounded_any|intros a _; apply Hk|intros a; apply (Hk a)].
Qed.

Lemma read_ok_kept path : relates same_config (read_ok path).
Proof. unfold read_ok. kept_tac. Qed.
#[export] Hint Resolve read_ok_kept : kept.
Lemma read_or_default_kept path : relates same_config (read_or_default path).
Proof. unfold read_or_default. kept_tac. Qed.
Lemma find_existing_kept paths : relates same_config (find_existing paths).
Proof. induction paths; cbn [find_existing]; kept_tac. Qed.
#[export] Hint Resolve read_or_default_kept find_existing_kept : kept.
Lemma run_fixed_command_kept paths args : relates same_config (run_fixed_command paths args).
Proof. unfold run_fixed_command. kept_tac. Qed.
Lemma filesystem_samples_kept lines seen : relates same_config (filesystem_samples lines seen).
Proof. revert seen. induction lines; intros; cbn [filesystem_samples]; kept_tac. Qed.
Lemma network_samples_kept previous elapsed current : relates same_config (network_samples previous elapsed current).
Proof. induction current as [|[]]; cbn [network_samples]; unfold read_link_speed_mbps; kept_tac. Qed.
Lemma process_stats_kept names : relates same_config (process_stats names).
Proof. induction names; cbn [process_stats]; kept_tac. Qed.
Lemma temperature_samples_kept root names : relates same_config (temperature_samples root names).
Proof. induction names; cbn [temperature_samples]; kept_tac. Qed.
#[export] Hint Resolve run_fixed_command_kept filesystem_samples_kept network_samples_kept process_stats_kept
  temperature_samples_kept : kept.

Section bounds.
Context (from_str : string -> option Value) `{HashOrder} (c : CollectorConfig).

(** The limits of the configuration are sizes. *)
Definition limits_ok : Prop :=
  0 <= cc_max_filesystems c /\ 0 <= cc_max_processes c /\ 0 <= cc_max_kernel_errors c /\
  0 <= cc_max_failed_units c /\ 0 <= cc_max_network_interfaces c /\ 0 <= cc_max_disks c /\
  0 <= cc_max_disk_health_devices c.

(** Every list of the snapshot is within its limit. *)
Definition within_limits (s : HealthSnapshot) : Prop :=
  vlen (fi_filesystems (hs_filesystem s)) <= cc_max_filesystems c /\
  vlen (dk_devices (hs_disk s)) <= cc_max_disks c /\
  vlen (ns_interfaces (hs_network s)) <= cc_max_network_interfaces c /\
  vlen (pt_high_resource (hs_processes s)) <= cc_max_processes c /\
  vlen (sd_failed_units (hs_systemd s)) <= cc_max_failed_units c /\
  vlen (ks_recent_errors (hs_kernel s)) <= cc_max_kernel_errors c /\
  vlen (ds_devices (hs_diskhealth s)) <= cc_max_disk_health_devices c.

Context (Hc : limits_ok).

Lemma collect_filesystems_bounded :
  bounded_in c collect_filesystems (fun r => vlen (fi_filesystems r) <= cc_max_filesystems c).
Proof.
  unfold collect_filesystems. do 2 (apply bounded_skip; [kept_tac|intros ?]).
  apply (bounded_limit_of c cc_max_filesystems); [|intros; kept_tac].
  apply bounded_ret. cbn. apply truncated_bound, Hc.
Qed.

Lemma collect_disk_bounded elapsed_ms :
  bounded_in c (collect_disk elapsed_ms) (fun r => vlen (dk_devices r) <= cc_max_disks c).
Proof.
  unfold collect_disk. do 2 (apply bounded_skip; [kept_tac|intros ?]).
  apply (bounded_limit_of c cc_max_disks); [|intros; kept_tac].
  apply bounded_skip; [kept_tac|intros _]. apply bounded_ret. cbn. apply truncated_bound, Hc.
Qed.

Lemma collect_network_bounded elapsed_ms :
  bounded_in c (collect_network elapsed_ms) (fun r => vlen (ns_interfaces r) <= cc_max_network_interfaces c).
Proof.
  unfold collect_network. do 2 (apply bounded_skip; [kept_tac|intros ?]).
  apply (bounded_limit_of c cc_max_network_interfaces); [|intros; kept_tac].
  do 2 (apply bounded_skip; [kept_tac|intros ?]). apply bounded_ret. cbn. apply truncated_bound, Hc.
Qed.

Lemma collect_processes_bounded delta cores memory :
  bounded_in c (collect_processes delta cores memory) (fun r => vlen (pt_high_resource r) <= cc_max_processes c).
Proof.
  unfold collect_processes. apply bounded_skip; [kept_tac|intros [|]].
  { apply bounded_ret. apply Hc. }
  do 3 (apply bounded_skip; [kept_tac|intros ?]).
  apply (bounded_limit_of c cc_max_processes); [|intros; kept_tac].
  apply bounded_skip; [kept_tac|intros _]. apply bounded_ret. cbn. apply truncated_bound, Hc.
Qed.

Lemma collect_failed_units_bounded :
  bounded_in c collect_failed_units (fun r => vlen (sd_failed_units r.1) <= cc_max_failed_units c).
Proof.
  unfold collect_failed_units. apply bounded_skip; [kept_tac|intros r].
  apply (bounded_limit_of c cc_max_failed_units); [|intros; kept_tac].
  apply bounded_ret. destruct r as [output|]; [destruct (negb _)|]; cbn; [apply Hc|apply truncated_bound, Hc|apply Hc].
Qed.

Lemma collect_kernel_errors_bounded :
  bounded_in c (collect_kernel_errors from_str) (fun r => vlen (ks_recent_errors r.1) <= cc_max_kernel_errors c).
Proof.
  unfold collect_kernel_errors. apply (bounded_limit_of c cc_max_kernel_errors); [|intros; kept_tac].
  apply bounded_skip; [kept_tac|intros [output|]]; [destruct (negb _)|]; try (apply bounded_ret; apply Hc).
  apply bounded_skip; [kept_tac|intros errors]. apply bounded_ret. cbn. apply truncated_bound, Hc.
Qed.

Lemma probe_devices_kept devices smartctl nvme : relates same_config (probe_devices from_str devices smartctl nvme).
Proof.
  revert smartctl nvme. induction devices; intros; cbn [probe_devices]; [kept_tac|].
  unfold probe_nvme_device, probe_smartctl_device. kept_tac.
Qed.

Lemma probe_devices_length devices smartctl nvme :
  yields (probe_devices from_str devices smartctl nvme) (fun r => vlen r.1.1 = vlen devices).
Proof.
  revert smartctl nvme. induction devices as [|d ds IH]; intros; cbn [probe_devices]; [by apply yields_ret|].
  destruct (starts_with "nvme" d); (apply yields_bind; intros [sample cap];
    eapply yields_bind_post; [apply IH|]; intros [[samples s] n] Hlen; apply yields_ret; cbn in *;
    rewrite !vlen_cons; lia).
Qed.

Lemma collect_disk_health_bounded :
  bounded_in c (collect_disk_health from_str) (fun r => vlen (ds_devices r.1.1) <= cc_max_disk_health_devices c).
Proof.
  unfold collect_disk_health, resolve_tool_presence, list_block_devices.
  apply (bounded_limit_of c cc_max_disk_health_devices);
    [|intros; kept_tac; apply probe_devices_kept].
  eapply (bounded_bind _ _ _ (fun ds => vlen ds <= cc_max_disk_health_devices c));
    [|intros ds Hds|intros; kept_tac; apply probe_devices_kept].
  { apply bounded_skip; [kept_tac|intros r]. apply bounded_ret. apply truncated_bound, Hc. }
  do 2 (apply bounded_skip; [kept_tac|intros ?]).
  eapply (bounded_bind _ _ _ (fun r => vlen r.1.1 <= cc_max_disk_health_devices c));
    [|intros [[]] Hr; by apply bounded_ret|intros; kept_tac].
  split; [apply probe_devices_kept|]. intros env h s r _ Hr. rewrite (probe_devices_length _ _ _ _ _ _ _ Hr). done.
Qed.

Lemma collect_kept : relates same_config (collect from_str).
Proof.
  unfold collect, unix_now_ms, elapsed_since, collect_cpu, collect_memory, collect_filesystems, collect_disk,
    collect_network, collect_processes, collect_temperature_from_root, collect_failed_units, collect_kernel_errors,
    collect_disk_health, resolve_tool_presence, list_block_devices.
  kept_tac; apply probe_devices_kept.
Qed.

(** A bounded step of [collect]; the rest keeps the configuration. *)
Ltac bounded_step lemma :=
  eapply bounded_bind; [apply lemma|intros ? ?|
    intros; unfold collect_filesystems, collect_disk, collect_network, collect_processes,
      collect_temperature_from_root, collect_failed_units, collect_kernel_errors, collect_disk_health,
      resolve_tool_presence, list_block_devices; kept_tac; apply probe_devices_kept].
Ltac free_step :=
  apply bounded_skip;
    [unfold unix_now_ms, elapsed_since, collect_cpu, collect_memory, collect_temperature_from_root; kept_tac|intros ?].

Lemma collect_bounded : bounded_in c (collect from_str) within_limits.
Proof.
  unfold collect. do 5 free_step. free_step. destruct a4 as [cpu delta]. free_step. destruct a4 as [memory swap].
  bounded_step collect_filesystems_bounded. bounded_step collect_disk_bounded.
  bounded_step collect_network_bounded. bounded_step collect_processes_bounded.
  free_step. destruct a8 as [temperature thermal].
  bounded_step collect_failed_units_bounded. destruct a8 as [systemd systemctl].
  bounded_step collect_kernel_errors_bounded. destruct a8 as [kernel journalctl].
  bounded_step collect_disk_health_bounded. destruct a8 as [[diskhealth smartctl] nvme].
  apply bounded_ret. unfold within_limits. cbn in *. tauto.
Qed.
End bounds.

(** A snapshot is bounded: whatever the machine reports, the filesystems, disks,
    interfaces, processes, failed units, kernel errors and probed devices of a sample are
    at most as many as the configuration allows. *)
Theorem sample_within_limits from_str `{HashOrder} env h m snapshot :
  limits_ok (hc_config (hm_collector m)) ->
  value (sample from_str env h m) = Ok snapshot ->
  within_limits (hc_config (hm_collector m)) snapshot.
Proof.
  intros Hl Hv. apply run_bind_Ok in Hv as (collected & Hcol & Hv & _).
  destruct (collect_bounded from_str (hc_config (hm_collector m)) Hl) as [_ HF].
  specialize (HF env h (hm_collector m) collected eq_refl Hcol).
  unfold with_state, finish_sample in Hv. destruct (evaluate _ _) as [alerts [active log]].
  destruct (compute_interval _ _). injection Hv as <-. exact HF.
Qed.

(** A quiet machine: files are missing, directories empty, and journalctl prints
    [journal]. *)
Definition logging_machine (journal : string) : environment hsys := fun _ A c =>
  match c in hsys A return A with
  | HUnixMillis | HInstant => 0
  | HParallelism => Some 4
  | HReadToString _ => inl {| io_kind := IoNotFound; io_text := "not found" |}
  | HReadDir _ => inr []
  | HExists path => String.eqb path "/usr/bin/journalctl"
  | HStatVfs _ => None
  | HOutput _ _ => inr {| po_stdout := journal; po_stderr := ""; po_success := true |}
  end.

(** The message of a journal line that is the message itself. *)
Definition message_only (line : string) : option Value := Some (object [("MESSAGE", VString line)]).

Lemma sample_within_limits_witness :
  exists snapshot,
    value (sample message_only (H := key_order) (logging_machine "disk failure") [] (HealthMonitor_new MonitorConfig_default 4096))
      = Ok snapshot /\
    within_limits CollectorConfig_default snapshot.
Proof.
  eexists. split; [vm_compute; reflexivity|].
  refine (sample_within_limits message_only (H := key_order) (logging_machine "disk failure") []
    (HealthMonitor_new MonitorConfig_default 4096) _ _ _).
  - vm_compute. repeat split; discriminate.
  - vm_compute. reflexivity.
Defined.

(** ** Panics *)

Lemma returns_gets env {A} (f : HealthCollector -> A) : returns env (gets f).
Proof. by apply returns_with_state. Qed.
Lemma returns_modify env f : returns env (modify f).
Proof. by apply returns_with_state. Qed.
Lemma read_ok_returns env path : returns env (read_ok path).
Proof. unfold read_ok. returns_tac. Qed.
#[export] Hint Resolve returns_gets returns_modify read_ok_returns : sentia.
Lemma read_or_default_returns env path : returns env (read_or_default path).
Proof. unfold read_or_default. returns_tac. Qed.
Lemma find_existing_returns env paths : returns env (find_existing paths).
Proof. induction paths; cbn [find_existing]; returns_tac. Qed.
#[export] Hint Resolve read_or_default_returns find_existing_returns : sentia.
Lemma run_fixed_command_returns env paths args : returns env (run_fixed_command paths args).
Proof. unfold run_fixed_command. returns_tac. Qed.
Lemma filesystem_samples_returns env lines seen : returns env (filesystem_samples lines seen).
Proof. revert seen. induction lines; intros; cbn [filesystem_samples]; returns_tac. Qed.
Lemma network_samples_returns env previous elapsed current : returns env (network_samples previous elapsed current).
Proof. induction current as [|[]]; cbn [network_samples]; unfold read_link_speed_mbps; returns_tac. Qed.
Lemma process_stats_returns env names : returns env (process_stats names).
Proof.
  induction names; cbn [process_stats]; returns_tac. case_match; [apply parse_process_stat_no_panic|done].
Qed.
Lemma temperature_samples_returns env root names : returns env (temperature_samples root names).
Proof. induction names; cbn [temperature_samples]; returns_tac. Qed.
Lemma probe_devices_returns env from_str devices smartctl nvme :
  returns env (probe_devices from_str devices smartctl nvme).
Proof.
  revert smartctl nvme. induction devices; intros; cbn [probe_devices]; [returns_tac|].
  unfold probe_nvme_device, probe_smartctl_device. returns_tac; apply run_fixed_command_returns.
Qed.
#[export] Hint Resolve run_fixed_command_returns filesystem_samples_returns network_samples_returns
  process_stats_returns temperature_samples_returns probe_devices_returns : sentia.

(** The one message that stops the monitor: a sample never panics as long as no kernel
    message does, but a single kernel message whose 180th byte lies inside a character
    panics the sample, and with it the daemon. *)
Theorem sample_panics_only_on_messages from_str `{HashOrder} env h m :
  (forall lines, kernel_errors from_str lines <> Panic) ->
  value (sample from_str env h m) <> Panic /\
  value (sample message_only (H := key_order) (logging_machine accented_message) []
           (HealthMonitor_new MonitorConfig_default 4096)) = Panic.
Proof.
  intros Hk. split.
  - apply returns_bind.
    + apply returns_zoom.
      unfold collect, unix_now_ms, elapsed_since, collect_cpu, collect_memory, collect_filesystems, collect_disk,
        collect_network, collect_processes, collect_temperature_from_root, collect_failed_units,
        collect_kernel_errors, collect_disk_health, resolve_tool_presence, list_block_devices.
      returns_tac. apply Hk.
    + intros snapshot. apply returns_with_state. intros self. destruct (finish_sample self snapshot). done.
  - vm_compute. reflexivity.
Qed.

(** A journal without messages. *)
Definition no_message (_ : string) : option Value := None.

Lemma sample_panics_only_on_messages_witness :
  value (sample no_message (H := key_order) (logging_machine accented_message) []
           (HealthMonitor_new MonitorConfig_default 4096)) <> Panic.
Proof.
  apply (sample_panics_only_on_messages no_message (H := key_order)).
  intros lines. induction lines as [|line lines IH]; [discriminate|].
  cbn [kernel_errors no_message]. destruct (is_empty (trim line)); exact IH.
Defined.
