(* ===== verification/HealthDaemon.v ===== *)
(** * The health daemon and its command line (crates/sentia-health/src/daemon.rs, main.rs)

    [run_daemon] binds the socket, samples, and serves the latest snapshot to every client
    that waits, one turn of its endless loop after the other.  [turns] and [clients] bound
    how many turns and how many waiting clients of a turn a run looks at.  [main] is the
    program with both its modes.  [to_vec] is
    [serde_json::to_vec]. *)

From Stdlib Require Import Ascii String.
From S2P Require Import Prelude RustStr RustText Contract Effects ToolTypes RustFloat HealthTypes HealthAlert HealthCollector HealthMonitor HealthSafety.

Record DaemonConfig := { dg_socket_path : string; dg_monitor : MonitorConfig; dg_poll_sleep : Z }.
Definition DaemonConfig_default : DaemonConfig :=
  {| dg_socket_path := "/run/sentia-health/metrics.sock"; dg_monitor := MonitorConfig_default;
     dg_poll_sleep := from_millis 200 |}.

Inductive AcceptResult := Accepted | WouldBlock | AcceptFailed (err : IoError).

Inductive dsys : Type -> Type :=
| DHealth {A} (c : hsys A) : dsys A
| DCreateDirAll (dir : list Component) : dsys (io unit)
| DExists (path : string) : dsys bool
| DRemoveFile (path : string) : dsys (io unit)
| DBind (path : string) : dsys (io unit)
| DSetMode (path : string) (mode : Z) : dsys (io unit)
| DSetNonblocking : dsys (io unit)
| DAccept : dsys AcceptResult
| DWriteAll (bytes : string) : dsys (io unit)
| DFlush : dsys (io unit)
| DWriteStderr (line : string) : dsys unit
| DNow : dsys Z
| DSleep (nanos : Z) : dsys unit.

Abbreviation deff A := (eff dsys HealthMonitor IoError A).

(** The monitor's calls as calls of the daemon. *)
Definition health_event (e : event hsys) : event dsys := Event _ (DHealth (ev_call e)) (ev_reply e).
Definition on_health {A} (m : eff hsys HealthMonitor Empty_set A) : deff A := fun env h s =>
  let o := m (fun inner A c => env (h ++ map health_event inner) A (DHealth c)) [] s in
  Outcome (map health_event (trace o)) (final o)
    (map_err (fun absurd : Empty_set => match absurd with end) (value o)).

(** [io(..)?] *)
Definition try_io {A} (c : dsys (io A)) : deff A := r ← perform c; lift (io_or (fun e => e) r).

Section daemon.
Context (from_str : string -> option Value) (to_vec : HealthSnapshot -> result string string) `{HashOrder}.

Definition write_snapshot (snapshot : HealthSnapshot) : deff unit :=
  payload ← lift (map_err (fun err => {| io_kind := IoOther; io_text := "failed to serialize snapshot: " +:+ err |})
                    (to_vec snapshot));
  try_io (DWriteAll payload);;
  try_io (DWriteAll (String LF EmptyString));;
  try_io DFlush.

(** The inner loop: whether every waiting client was served. *)
Fixpoint serve_clients (clients : nat) (latest : HealthSnapshot) : deff bool :=
  match clients with
  | O => mret false
  | S clients' =>
      accepted ← perform DAccept;
      match accepted with
      | Accepted =>
          r ← attempt (write_snapshot latest);
          match r with
          | Err err => perform (DWriteStderr ("sentia-health: socket write failed: " +:+ io_text err))
          | _ => mret tt
          end;;
          serve_clients clients' latest
      | WouldBlock => mret true
      | AcceptFailed err => lift (Err err)
      end
  end.

Fixpoint daemon_loop (turns clients : nat) (poll_sleep : Z) (latest : HealthSnapshot) (next_sample : Z) : deff unit :=
  match turns with
  | O => mret tt
  | S turns' =>
      _ ← serve_clients clients latest;
      now ← perform DNow;
      '(latest, next_sample) ←
        (if next_sample <=? now then
           latest ← on_health (sample from_str);
           now ← perform DNow;
           interval ← with_state (fun m => (m, Ok (hm_next_interval m)));
           mret (latest, now + interval)
         else mret (latest, next_sample));
      perform (DSleep poll_sleep);;
      daemon_loop turns' clients poll_sleep latest next_sample
  end.

(** From the state [HealthMonitor::new(config.monitor)]. *)
Definition run_daemon (turns clients : nat) (config : DaemonConfig) : deff unit :=
  dir ← lift (ok_or (parent (components (dg_socket_path config)))
                {| io_kind := IoOther; io_text := "socket path has no parent" |});
  try_io (DCreateDirAll dir);;
  exists_ ← perform (DExists (dg_socket_path config));
  (if (exists_ : bool) then try_io (DRemoveFile (dg_socket_path config)) else mret tt);;
  try_io (DBind (dg_socket_path config));;
  try_io (DSetMode (dg_socket_path config) 438);;
  try_io DSetNonblocking;;
  latest ← on_health (sample from_str);
  now ← perform DNow;
  interval ← with_state (fun m => (m, Ok (hm_next_interval m)));
  daemon_loop turns clients (dg_poll_sleep config) latest (now + interval).
End daemon.

(** ** What the daemon does *)

Section safety.
Context (from_str : string -> option Value) (to_vec : HealthSnapshot -> result string string) `{HashOrder}.

(** Its own socket, the probes of a sample, and snapshots for its clients. *)
Definition daemon_event (path : string) (e : event dsys) : Prop :=
  match ev_call e with
  | DHealth c => match c with HOutput exe args => probe exe args | _ => True end
  | DCreateDirAll dir => parent (components path) = Some dir
  | DRemoveFile p | DBind p => p = path
  | DSetMode p mode => p = path /\ mode = 438
  | DWriteAll bytes => bytes = String LF EmptyString \/ exists snapshot, to_vec snapshot = Ok bytes
  | _ => True
  end.

Lemma on_health_emits path {A} (m : eff hsys HealthMonitor Empty_set A) :
  emits probing m -> emits (daemon_event path) (on_health m).
Proof.
  intros Hm env h s. cbn. apply Forall_map. eapply Forall_impl; [apply Hm|].
  intros [T c r] Hp. unfold probing in Hp. cbn in *. by destruct c.
Qed.

Lemma write_snapshot_emits path snapshot : emits (daemon_event path) (write_snapshot to_vec snapshot).
Proof.
  unfold write_snapshot, try_io. apply emits_bind_lift. intros payload Hp. emits_tac; cbn; [|by left|done].
  right. exists snapshot. destruct (to_vec snapshot); cbn in Hp; congruence.
Qed.

Lemma serve_clients_emits path clients latest : emits (daemon_event path) (serve_clients to_vec clients latest).
Proof.
  induction clients as [|n IH]; cbn [serve_clients]; [apply emits_ret|].
  emits_tac; first [done|apply write_snapshot_emits].
Qed.

Lemma daemon_loop_emits path turns clients poll latest next :
  emits (daemon_event path) (daemon_loop from_str to_vec turns clients poll latest next).
Proof.
  revert latest next. induction turns as [|n IH]; intros; cbn [daemon_loop]; [apply emits_ret|].
  emits_tac; first [done|apply serve_clients_emits|apply on_health_emits, sample_runs_only_probes|apply IH].
Qed.

(** C16 The health daemon keeps to itself: in every environment and for any number of turns
    and clients it creates, removes, binds and opens only its own socket, runs only the
    fixed probes of a sample (the failed units, the newest kernel errors, the health of the
    block devices the kernel lists), and writes to a client nothing but a serialized
    snapshot and the end of the line. *)
Theorem daemon_only_samples_and_serves turns clients config :
  emits (daemon_event (dg_socket_path config)) (run_daemon from_str to_vec turns clients config).
Proof.
  unfold run_daemon, try_io. apply emits_bind_lift. intros dir Hdir. apply ok_or_Ok in Hdir.
  emits_tac; first [done|apply on_health_emits, sample_runs_only_probes|apply daemon_loop_emits].
Qed.
End safety.

(** ** main.rs *)

Inductive Mode := ModeDaemon | ModeJson.

Record Cli := {
  cl_mode : Mode; cl_from_socket : bool; cl_socket_path : string; cl_min_interval_ms : u64;
  cl_normal_interval_ms : u64; cl_max_interval_ms : u64; cl_max_kernel_errors : usize;
}.
Definition Cli_default : Cli :=
  {| cl_mode := ModeDaemon; cl_from_socket := false; cl_socket_path := "/run/sentia-health/metrics.sock";
     cl_min_interval_ms := 2000; cl_normal_interval_ms := 5000; cl_max_interval_ms := 20000;
     cl_max_kernel_errors := 16 |}.

(** An argument error, or the exit of [--help]. *)
Inductive CliStop := CliError (message : string) | CliHelp.

(** The options that take a value. *)
Inductive ValueOption := OptSocketPath | OptMin | OptNormal | OptMax | OptKernelErrors.

Definition option_name (o : ValueOption) : string :=
  match o with
  | OptSocketPath => "--socket-path" | OptMin => "--min-interval-ms" | OptNormal => "--interval-ms"
  | OptMax => "--max-interval-ms" | OptKernelErrors => "--max-kernel-errors"
  end.

Definition set_option (o : ValueOption) (value : string) (c : Cli) : result CliStop Cli :=
  let number := map_err (fun _ => CliError (option_name o +:+ " must be an integer")) (parse_u64 value) in
  match o with
  | OptSocketPath =>
      Ok {| cl_mode := cl_mode c; cl_from_socket := cl_from_socket c; cl_socket_path := value;
            cl_min_interval_ms := cl_min_interval_ms c; cl_normal_interval_ms := cl_normal_interval_ms c;
            cl_max_interval_ms := cl_max_interval_ms c; cl_max_kernel_errors := cl_max_kernel_errors c |}
  | OptMin =>
      n ← number;
      Ok {| cl_mode := cl_mode c; cl_from_socket := cl_from_socket c; cl_socket_path := cl_socket_path c;
            cl_min_interval_ms := n; cl_normal_interval_ms := cl_normal_interval_ms c;
            cl_max_interval_ms := cl_max_interval_ms c; cl_max_kernel_errors := cl_max_kernel_errors c |}
  | OptNormal =>
      n ← number;
      Ok {| cl_mode := cl_mode c; cl_from_socket := cl_from_socket c; cl_socket_path := cl_socket_path c;
            cl_min_interval_ms := cl_min_interval_ms c; cl_normal_interval_ms := n;
            cl_max_interval_ms := cl_max_interval_ms c; cl_max_kernel_errors := cl_max_kernel_errors c |}
  | OptMax =>
      n ← number;
      Ok {| cl_mode := cl_mode c; cl_from_socket := cl_from_socket c; cl_socket_path := cl_socket_path c;
            cl_min_interval_ms := cl_min_interval_ms c; cl_normal_interval_ms := cl_normal_interval_ms c;
            cl_max_interval_ms := n; cl_max_kernel_errors := cl_max_kernel_errors c |}
  | OptKernelErrors =>
      n ← number;
      Ok {| cl_mode := cl_mode c; cl_from_socket := cl_from_socket c; cl_socket_path := cl_socket_path c;
            cl_min_interval_ms := cl_min_interval_ms c; cl_normal_interval_ms := cl_normal_interval_ms c;
            cl_max_interval_ms := cl_max_interval_ms c; cl_max_kernel_errors := n |}
  end.

Definition value_option (arg : string) : option ValueOption :=
  if String.eqb arg "--socket-path" then Some OptSocketPath
  else if String.eqb arg "--min-interval-ms" then Some OptMin
  else if String.eqb arg "--interval-ms" || String.eqb arg "--normal-interval-ms" then Some OptNormal
  else if String.eqb arg "--max-interval-ms" then Some OptMax
  else if String.eqb arg "--max-kernel-errors" then Some OptKernelErrors
  else None.

Definition set_mode (mode : Mode) (from_socket : bool) (c : Cli) : Cli :=
  {| cl_mode := mode; cl_from_socket := from_socket; cl_socket_path := cl_socket_path c;
     cl_min_interval_ms := cl_min_interval_ms c; cl_normal_interval_ms := cl_normal_interval_ms c;
     cl_max_interval_ms := cl_max_interval_ms c; cl_max_kernel_errors := cl_max_kernel_errors c |}.

Fixpoint parse_args (cli : Cli) (args : list string) : result CliStop Cli :=
  match args with
  | [] => Ok cli
  | arg :: rest =>
      if String.eqb arg "--json" then parse_args (set_mode ModeJson (cl_from_socket cli) cli) rest
      else if String.eqb arg "--daemon" then parse_args (set_mode ModeDaemon (cl_from_socket cli) cli) rest
      else if String.eqb arg "--from-socket" then parse_args (set_mode (cl_mode cli) true cli) rest
      else
        match value_option arg with
        | Some o =>
            match rest with
            | [] => Err (CliError (option_name o +:+ " expects a "
                                   +:+ match o with OptSocketPath => "path" | _ => "value" end))
            | value :: rest => cli ← set_option o value cli; parse_args cli rest
            end
        | None =>
            if String.eqb arg "--help" || String.eqb arg "-h" then Err CliHelp
            else Err (CliError ("unknown argument: " +:+ arg))
        end
  end.
Definition parse_cli (args : list string) : result CliStop Cli := parse_args Cli_default args.

(** The monitor [main] configures. *)
Definition monitor_config (cli : Cli) : MonitorConfig :=
  {| mc_collector := {| cc_max_filesystems := 32; cc_max_processes := 10;
                        cc_max_kernel_errors := cl_max_kernel_errors cli; cc_max_failed_units := 32;
                        cc_max_network_interfaces := 16; cc_max_disks := 16; cc_max_disk_health_devices := 8 |};
     mc_intervals := {| ai_min := from_millis (Z.max (cl_min_interval_ms cli) 250);
                        ai_normal := from_millis (Z.max (cl_normal_interval_ms cli) (cl_min_interval_ms cli));
                        ai_max := from_millis (Z.max (cl_max_interval_ms cli) (cl_normal_interval_ms cli)) |};
     mc_alert_log_capacity := 256 |}.

(** ** The intervals of the command line *)

Definition intervals_ordered (i : AdaptiveIntervals) : Prop := ai_min i <= ai_normal i <= ai_max i.

(** The intervals are in order when the shortest is allowed and the longest not shorter. *)
Lemma intervals_in_order cli :
  250 <= cl_min_interval_ms cli -> cl_min_interval_ms cli <= Z.max (cl_max_interval_ms cli) (cl_normal_interval_ms cli) ->
  intervals_ordered (mc_intervals (monitor_config cli)).
Proof. unfold intervals_ordered, monitor_config, from_millis. cbn. lia. Qed.

(** Only the shortest interval is raised to 250 ms: a monitor asked for 100 ms samples more
    often when nothing happens than while an alert is active. *)
Example short_interval_is_inverted :
  exists cli, parse_cli ["--min-interval-ms"; "100"; "--interval-ms"; "100"] = Ok cli /\
    ai_normal (mc_intervals (monitor_config cli)) < ai_min (mc_intervals (monitor_config cli)).
Proof. eexists. split; [vm_compute; reflexivity|]. vm_compute. reflexivity. Qed.

(** ** The program *)

Inductive msys : Type -> Type :=
| MDaemon {A} (c : dsys A) : msys A
| MConnect (path : string) : msys (io unit)
| MReadToString : msys (io string)
| MWriteStdout (bytes : string) : msys (io unit)
| MFlushStdout : msys (io unit)
| MWriteStderr (line : string) : msys unit.

Abbreviation meff A := (eff msys HealthMonitor IoError A).

Definition try_main {A} (c : msys (io A)) : meff A := r ← perform c; lift (io_or (fun e => e) r).

(** The calls of the daemon as calls of the program. *)
Definition daemon_call (e : event dsys) : event msys := Event _ (MDaemon (ev_call e)) (ev_reply e).
Definition as_program {E A} (m : eff dsys HealthMonitor E A) : eff msys HealthMonitor E A := fun env h s =>
  let o := m (fun inner A c => env (h ++ map daemon_call inner) A (MDaemon c)) [] s in
  Outcome (map daemon_call (trace o)) (final o) (value o).

Definition USAGE : string :=
  "Usage: sentia-health [--daemon|--json] [--from-socket] [--socket-path PATH] \" +:+ String LF EmptyString
    +:+ "         [--min-interval-ms N] [--interval-ms N] [--max-interval-ms N] [--max-kernel-errors N]".

Section program.
Context (from_str : string -> option Value) (to_vec to_string_pretty : HealthSnapshot -> result string string)
  (parse_snapshot : string -> result string HealthSnapshot) `{HashOrder}.

(** [serde_json::from_str(body.trim())] *)
Definition read_snapshot (body : string) : result IoError HealthSnapshot :=
  map_err (fun err => {| io_kind := IoOther; io_text := "failed to parse daemon snapshot json: " +:+ err |}) (parse_snapshot (trim body)).

Definition fetch_snapshot_from_socket (path : string) : meff HealthSnapshot :=
  try_main (MConnect path);;
  body ← try_main MReadToString;
  lift (read_snapshot body).

Definition write_stdout_line (text : string) : meff unit :=
  try_main (MWriteStdout text);;
  try_main (MWriteStdout (String LF EmptyString));;
  try_main MFlushStdout.

Definition fails (line : string) : meff Z := perform (MWriteStderr line);; mret 1.

(** Printing one snapshot. *)
Definition print_snapshot (snapshot : HealthSnapshot) : meff Z :=
  match to_string_pretty snapshot with
  | Ok text =>
      r ← attempt (write_stdout_line text);
      match r with
      | Err err =>
          if bool_decide (io_kind err = IoBrokenPipe) then mret 0
          else fails ("failed to write snapshot: " +:+ io_text err)
      | _ => mret 0
      end
  | Err err => fails ("failed to serialize snapshot: " +:+ err)
  | Panic => lift Panic
  end.

(** [main] of the parsed command line, from the state [HealthMonitor::new(monitor_config)]:
    the exit status.  The daemon returns only when it fails. *)
Definition run_mode (turns clients : nat) (cli : Cli) : meff Z :=
  match cl_mode cli with
  | ModeDaemon =>
      r ← attempt (as_program (run_daemon from_str to_vec turns clients
            {| dg_socket_path := cl_socket_path cli; dg_monitor := monitor_config cli; dg_poll_sleep := from_millis 200 |}));
      match r with
      | Err err => fails ("sentia-health daemon failed: " +:+ io_text err)
      | _ => mret 0
      end
  | ModeJson =>
      r ← attempt (if cl_from_socket cli then fetch_snapshot_from_socket (cl_socket_path cli)
                   else as_program (on_health (sample from_str)));
      match r with
      | Ok snapshot => print_snapshot snapshot
      | Err err => fails ("failed to fetch snapshot: " +:+ io_text err)
      | Panic => lift Panic
      end
  end.

Definition main (turns clients : nat) (args : list string) : meff Z :=
  match parse_cli args with
  | Ok cli => run_mode turns clients cli
  | Err CliHelp => perform (MWriteStderr USAGE);; mret 0
  | Err (CliError err) => perform (MWriteStderr err);; perform (MWriteStderr USAGE);; mret 2
  | Panic => lift Panic
  end.
End program.

(** ** From the daemon to the command *)

(** The bytes a client receives. *)
Definition sent_to_client (t : list (event dsys)) : string :=
  sconcat ((fun e => match ev_call e with DWriteAll bytes => bytes | _ => EmptyString end) <$> t).

(** What [write_snapshot] sends is what [fetch_snapshot_from_socket] reads back, when the
    parser reads what the serializer wrote and a serialized snapshot has no blanks at its
    ends. *)
Theorem snapshot_reaches_the_command to_vec parse_snapshot snapshot env h s path (client : environment msys) h' s' :
  (forall payload, to_vec snapshot = Ok payload -> parse_snapshot payload = Ok snapshot /\ trim (payload +:+ String LF EmptyString) = payload) ->
  let o := write_snapshot to_vec snapshot env h s in
  value o = Ok tt ->
  (forall h, client h (io unit) (MConnect path) = inr tt) ->
  (forall h, client h (io string) MReadToString = inr (sent_to_client (trace o))) ->
  value (fetch_snapshot_from_socket parse_snapshot path client h' s') = Ok snapshot.
Proof.
  intros Hjson. cbn zeta. intros Hv Hc Hr.
  assert (exists payload, to_vec snapshot = Ok payload /\
    sent_to_client (trace (write_snapshot to_vec snapshot env h s)) = payload +:+ String LF EmptyString) as (payload & Hp & Hsent).
  { unfold write_snapshot, try_io in *. apply run_bind_Ok in Hv as (payload & Hp & Hv & -> & _). cbn in Hp. apply map_err_Ok in Hp.
    exists payload. split; [done|]. apply run_bind_Ok in Hv as ([] & _ & Hv & -> & _). apply run_bind_Ok in Hv as ([] & _ & Hv & -> & _).
    unfold sent_to_client. rewrite !fmap_app, !sconcat_app. unfold mbind, eff_bind, perform, lift, io_or. cbn.
    repeat match goal with |- context [env ?a ?b ?c] => destruct (env a b c) end; cbn; by rewrite ?app_empty_r. }
  destruct (Hjson payload Hp) as [Hparse Htrim].
  unfold fetch_snapshot_from_socket, try_main, mbind, eff_bind, perform, lift. cbn -[read_snapshot sent_to_client]. rewrite Hc.
  cbn -[read_snapshot sent_to_client]. rewrite Hr, Hsent. unfold read_snapshot, io_or. rewrite Htrim, Hparse. done.
Qed.
