(* ===== verification/Providers.v ===== *)
(** * Providers (crates/sentia-router/src/provider.rs)

    What a provider is to the router, the registry of providers, the circuit breakers,
    and the provider that talks to the local broker: the checks on its socket and the
    translation of broker events into chunks and a result. *)

From Stdlib Require Import Ascii String.
From S2P Require Import Prelude RustStr Bounded Contract RouterContract Effects Framing RouterApi BrokerProtocol RouterTools.

Record ModelMessage := MkMessage {
  mm_role : string;
  mm_content : string;
  mm_name : option string;
  mm_tool_call_id : option string;
  mm_tool_calls : list BrokerToolCall;
}.

Inductive RequestBoundary :=
| BoundaryLocalOnly
| SanitizedRemote (payload_sha256 : string).

Record ProviderRequest := {
  pq_request_id : string;
  pq_messages : list ModelMessage;
  pq_tools : list BrokerTool;
  pq_max_tokens : u32;
  pq_boundary : RequestBoundary;
}.

Inductive ProviderChunk :=
| ChunkProgress (state detail : string)
| ChunkText (content : string).

Record ProviderOutput := { po_finish_reason : string; po_tool_calls : list BrokerToolCall }.

Record ProviderError := {
  pe_kind : FailureKind;
  pe_message : string;
  pe_retryable : bool;
  pe_emitted_output : bool;
}.

Definition ProviderError_new (kind : FailureKind) (message : string) (retryable : bool)
  : ProviderError :=
  {| pe_kind := kind; pe_message := message; pe_retryable := retryable;
     pe_emitted_output := false |}.

(** A provider behind [Arc<dyn Provider>]: its [name] and [is_local] are constant; its
    [health] and [chat] are calls to the environment. *)
Record Provider := { pv_name : string; pv_is_local : bool }.

(** ** Registry *)

Record ProviderRegistry := {
  rg_local : option Provider;
  rg_remotes : gmap string Provider;
}.

Definition with_local (local : Provider) : ProviderRegistry :=
  {| rg_local := Some local; rg_remotes := ∅ |}.

Definition register_remote (self : ProviderRegistry) (provider : Provider) : ProviderRegistry :=
  if pv_is_local provider then self
  else {| rg_local := rg_local self;
          rg_remotes := <[pv_name provider := provider]> (rg_remotes self) |}.

Definition remote (self : ProviderRegistry) (name : string) : option Provider :=
  rg_remotes self !! name.

(** The registries the constructors build: a remote entry is a remote provider under
    its own name. *)
Definition registry_wf (self : ProviderRegistry) : Prop :=
  forall name p, rg_remotes self !! name = Some p -> pv_name p = name /\ pv_is_local p = false.

Lemma with_local_wf local : registry_wf (with_local local).
Proof. intros name p. cbn. by rewrite lookup_empty. Qed.

Lemma register_remote_wf self p : registry_wf self -> registry_wf (register_remote self p).
Proof.
  intros Hwf name q. unfold register_remote. destruct (pv_is_local p) eqn:Hl; [apply Hwf|].
  cbn. rewrite lookup_insert_Some. intros [[<- <-]|[_ Hq]]; [done|]. by apply Hwf.
Qed.

(** ** Circuit breakers *)

Record CircuitState := { ck_failures : u32; ck_open_until : option Z }.

Record CircuitBreakers := {
  cb_states : gmap string CircuitState;
  cb_threshold : u32;
  cb_cooldown : u64;
}.

Definition CircuitBreakers_new (threshold : u32) (cooldown : u64) : CircuitBreakers :=
  {| cb_states := ∅; cb_threshold := threshold; cb_cooldown := cooldown |}.

Definition cb_set (self : CircuitBreakers) (states : gmap string CircuitState) : CircuitBreakers :=
  {| cb_states := states; cb_threshold := cb_threshold self; cb_cooldown := cb_cooldown self |}.

(** [allow] at the instant [now]. *)
Definition allow (self : CircuitBreakers) (provider : string) (now : Z) : CircuitBreakers * bool :=
  match cb_states self !! provider with
  | None => (self, true)
  | Some state =>
      match ck_open_until state with
      | Some deadline =>
          if now <? deadline then (self, false)
          else (cb_set self (<[provider := {| ck_failures := 0; ck_open_until := None |}]>
                               (cb_states self)), true)
      | None => (self, true)
      end
  end.

Definition success (self : CircuitBreakers) (provider : string) : CircuitBreakers :=
  cb_set self (delete provider (cb_states self)).

Definition failure (self : CircuitBreakers) (provider : string) (now : Z) : CircuitBreakers :=
  let state := default {| ck_failures := 0; ck_open_until := None |} (cb_states self !! provider) in
  let failures := saturating_add U32_MAX (ck_failures state) 1 in
  cb_set self
    (<[provider := {| ck_failures := failures;
                      ck_open_until := if cb_threshold self <=? failures
                                       then Some (now + cb_cooldown self)
                                       else ck_open_until state |}]> (cb_states self)).

(** ** The local broker *)

Definition broker_socket_is_safe (is_socket : bool) (socket_uid socket_mode parent_uid parent_mode
    self_uid : u32) : bool :=
  is_socket
  && negb (socket_uid =? 0)
  && negb (socket_uid =? self_uid)
  && (Z.land socket_mode 511 =? 438)
  && (parent_uid =? socket_uid)
  && (Z.land parent_mode 18 =? 0).

Definition io_provider_error (error : string) : ProviderError :=
  ProviderError_new (FkProvider ProcessFailure) ("local broker I/O failed: " +:+ error) true.

(** [provider_status]: the provider identifier is a built-in one. *)
Definition provider_status (provider : ProviderId) (health : ProviderHealth) (now : u64)
    (message : string) : ProviderStatus :=
  {| ps_provider_id := provider; ps_health := health;
     ps_state := match health with
                 | Healthy => Idle
                 | Starting => Warming
                 | Degraded => Backoff
                 | Unavailable | Disabled => PFailed
                 end;
     ps_checked_at_ms := now; ps_message := Some message; ps_observed_latency_ms := None |}.

Inductive ConnectReply := ConnectTimedOut | ConnectFailed (error : string) | Connected.

(** One turn of the [select!] in the chat loop: the token was cancelled, or
    [read_json_line] yielded; [receiver_open] says whether the chunk channel still has
    its receiver. *)
Inductive Incoming :=
| InCancelled
| InEvent (event : result ProviderError BrokerEvent) (receiver_open : bool).

Inductive broker_io : Type -> Type :=
| Stat (path : string) : broker_io (result string SocketMetadata)
| ConnectBroker (path : string) (timeout_ms : u64) : broker_io ConnectReply
| BrokerUid : broker_io (result string u32)
| WriteRequest (request : BrokerRequest) : broker_io (result string unit)
| ReadHealth : broker_io (result ProviderError BrokerEvent)
| Incomings (timeout_ms : u64) : broker_io (list Incoming)
| BrokerClock : broker_io u64.

(** [read_json_line] of one event: the framing is [Framing.read_json_line], [parse] the
    event's deserializer. *)
Definition read_event (parse : string -> result string BrokerEvent) (reader : list (option string))
  : result ProviderError (BrokerEvent * list (option string)) :=
  '(bytes, rest) ← map_err (fun e => match e with
                     | LineIo => io_provider_error "I/O error"
                     | LineEof _ => ProviderError_new (FkProvider ProcessFailure)
                                      "local broker closed the connection" true
                     | LineTooLong => ProviderError_new (FkProvider MalformedResponse)
                                        "local broker response exceeded size limit" false
                     end) (read_json_line reader);
  event ← map_err (fun error => ProviderError_new (FkProvider MalformedResponse)
                     ("invalid local broker response: " +:+ error) false) (parse bytes);
  Ok (event, rest).

Record LocalBrokerProvider := { lb_socket : string; lb_timeout_ms : u64 }.

Section local_broker.
Context (euid pid : u32) (self : LocalBrokerProvider).

Definition process_failure (message : string) (retryable : bool) : ProviderError :=
  ProviderError_new (FkProvider ProcessFailure) message retryable.

(** [self.socket.parent()], as [symlink_metadata] is given it. *)
Context (parent_of : string -> option string).

Definition connect : eff broker_io unit ProviderError unit :=
  metadata ← perform (Stat (lb_socket self));
  metadata ← lift (map_err io_provider_error metadata);
  parent ← lift (ok_or (parent_of (lb_socket self))
                   (process_failure "local broker socket path has no parent" false));
  parent_metadata ← perform (Stat parent);
  parent_metadata ← lift (map_err io_provider_error parent_metadata);
  lift (fail_if (negb (broker_socket_is_safe (sm_is_socket metadata) (sm_uid metadata)
                         (sm_mode metadata) (sm_uid parent_metadata) (sm_mode parent_metadata) euid))
          (process_failure "local broker socket ownership or directory permissions are unsafe" false));;
  connected ← perform (ConnectBroker (lb_socket self) (Z.min (lb_timeout_ms self) 10000));
  lift match connected with
       | ConnectTimedOut => Err (ProviderError_new (FkProvider PTimeout)
                                   "timed out connecting to local AI broker" true)
       | ConnectFailed error => Err (process_failure ("local AI broker unavailable: " +:+ error) true)
       | Connected => Ok tt
       end;;
  peer ← perform BrokerUid;
  peer ← lift (map_err io_provider_error peer);
  lift (fail_if (negb (peer =? sm_uid metadata))
          (process_failure "local broker peer credentials did not match socket ownership" false)).

Definition health_query : eff broker_io unit ProviderError (ProviderHealth * string) :=
  connect;;
  written ← perform (WriteRequest (BrHealth BROKER_PROTOCOL_VERSION ("health-" +:+ show_uint pid)));
  lift (map_err io_provider_error written);;
  event ← perform ReadHealth;
  event ← lift event;
  lift match event with
       | BeHealth _ _ health detail => Ok (health, detail)
       | BeError _ _ error _ => Ok (Unavailable, ce_message error)
       | _ => Err (ProviderError_new (FkProvider MalformedResponse)
                     "local broker returned an unexpected health response" false)
       end.

Definition LocalBrokerProvider_health (name : ProviderId) {E} : eff broker_io unit E ProviderStatus :=
  result ← attempt health_query;
  now ← perform BrokerClock;
  lift match result with
       | Ok (health, detail) => Ok (provider_status name health now detail)
       | Err error => Ok (provider_status name Unavailable now (pe_message error))
       | Panic => Panic
       end.

(** The loop of [chat] over what arrives before the deadline; when nothing more arrives
    the [timeout] fires.  The chunks sent, whether text was among them, and the result
    ([None]: timed out). *)
Fixpoint chat_loop (emitted_output : bool) (incomings : list Incoming)
  : list ProviderChunk * bool * option (result ProviderError ProviderOutput) :=
  match incomings with
  | [] => ([], emitted_output, None)
  | InCancelled :: _ =>
      ([], emitted_output,
       Some (Err (ProviderError_new FkCancelled "local inference cancelled" false)))
  | InEvent (Err e) _ :: _ => ([], emitted_output, Some (Err e))
  | InEvent Panic _ :: _ => ([], emitted_output, Some Panic)
  | InEvent (Ok event) receiver_open :: rest =>
      match event with
      | BeQueued _ _ position =>
          let '(chunks, emitted, r) := chat_loop emitted_output rest in
          (ChunkProgress "queued" ("Local AI queue position " +:+ show_uint position) :: chunks,
           emitted, r)
      | BeProgress _ _ state detail =>
          let '(chunks, emitted, r) := chat_loop emitted_output rest in
          (ChunkProgress state detail :: chunks, emitted, r)
      | BeDelta _ _ content =>
          if receiver_open then
            let '(chunks, emitted, r) := chat_loop true rest in
            (ChunkText content :: chunks, emitted, r)
          else ([], true,
                Some (Err (ProviderError_new FkCancelled "request receiver closed" false)))
      | BeToolCalls _ _ calls =>
          ([], emitted_output,
           Some (Ok {| po_finish_reason := "tool_calls"; po_tool_calls := calls |}))
      | BeComplete _ _ finish_reason =>
          ([], emitted_output,
           Some (Ok {| po_finish_reason := finish_reason; po_tool_calls := [] |}))
      | BeError _ _ error provider_error =>
          ([], emitted_output,
           Some (Err {| pe_kind := FkProvider provider_error; pe_message := ce_message error;
                        pe_retryable := ce_retryable error; pe_emitted_output := emitted_output |}))
      | BeCancelled _ _ _ =>
          ([], emitted_output,
           Some (Err {| pe_kind := FkCancelled; pe_message := "local inference cancelled";
                        pe_retryable := false; pe_emitted_output := emitted_output |}))
      | BeHealth _ _ _ _ =>
          ([], emitted_output,
           Some (Err (ProviderError_new (FkProvider MalformedResponse)
                        "unexpected health event during chat" false)))
      end
  end.

Definition to_broker_message (value : ModelMessage) : BrokerMessage :=
  {| bm_role := mm_role value; bm_content := mm_content value; bm_name := mm_name value;
     bm_tool_call_id := mm_tool_call_id value; bm_tool_calls := mm_tool_calls value |}.

(** [chat]: the chunks sent before it returned, and its result. *)
Definition LocalBrokerProvider_chat (request : ProviderRequest)
  : eff broker_io unit ProviderError (list ProviderChunk * result ProviderError ProviderOutput) :=
  lift (fail_if (match pq_boundary request with BoundaryLocalOnly => false | _ => true end)
          (ProviderError_new (FkProvider PInternal)
             "local provider rejected a remote-egress request boundary" false));;
  connect;;
  written ← perform (WriteRequest (BrChat BROKER_PROTOCOL_VERSION (pq_request_id request)
                       (map to_broker_message (pq_messages request)) (pq_tools request)
                       (pq_max_tokens request)));
  lift (map_err io_provider_error written);;
  incomings ← perform (Incomings (lb_timeout_ms self));
  let '(chunks, emitted_output, r) := chat_loop false incomings in
  mret (chunks,
    match r with
    | Some (Ok output) => Ok output
    | Some (Err error) =>
        Err {| pe_kind := pe_kind error; pe_message := pe_message error;
               pe_retryable := pe_retryable error;
               pe_emitted_output := pe_emitted_output error || emitted_output |}
    | Some Panic => Panic
    | None => Err {| pe_kind := FkProvider PTimeout; pe_message := "local inference timed out";
                     pe_retryable := true; pe_emitted_output := emitted_output |}
    end).
End local_broker.

(** ** The breakers over time *)

Inductive breaker_op :=
| OpAllow (provider : string) (now : Z)
| OpSuccess (provider : string)
| OpFailure (provider : string) (now : Z).

Definition op_provider (op : breaker_op) : string :=
  match op with OpAllow p _ | OpSuccess p | OpFailure p _ => p end.

Definition breaker_step (self : CircuitBreakers) (op : breaker_op) : CircuitBreakers :=
  match op with
  | OpAllow p now => (allow self p now).1
  | OpSuccess p => success self p
  | OpFailure p now => failure self p now
  end.

Definition about (provider : string) (ops : list breaker_op) : list breaker_op :=
  List.filter (fun op => String.eqb (op_provider op) provider) ops.

Lemma breaker_step_limits self op :
  cb_threshold (breaker_step self op) = cb_threshold self /\
  cb_cooldown (breaker_step self op) = cb_cooldown self.
Proof.
  destruct op as [p now|p|p now]; cbn; [|done..]. unfold allow.
  destruct (cb_states self !! p) as [state|]; [|done]. destruct (ck_open_until state); [|done].
  by destruct (now <? _).
Qed.

(** Operations of other providers do not matter. *)
Lemma breaker_step_other self op provider :
  op_provider op <> provider ->
  cb_states (breaker_step self op) !! provider = cb_states self !! provider.
Proof.
  destruct op as [p now|p|p now]; cbn; intros Hne.
  - unfold allow. destruct (cb_states self !! p) as [state|]; [|done].
    destruct (ck_open_until state) as [d|]; [|done]. destruct (now <? d); [done|]. cbn.
    by rewrite lookup_insert_ne.
  - by rewrite lookup_delete_ne.
  - unfold failure. cbn. by rewrite lookup_insert_ne.
Qed.

(** A state every check reads the same for [provider]. *)
Definition agree (provider : string) (a b : CircuitBreakers) : Prop :=
  cb_states a !! provider = cb_states b !! provider /\ cb_threshold a = cb_threshold b /\
  cb_cooldown a = cb_cooldown b.

Lemma breaker_step_agree provider a b op :
  op_provider op = provider -> agree provider a b ->
  agree provider (breaker_step a op) (breaker_step b op).
Proof.
  intros <- (Hs & Ht & Hc). split.
  - destruct op as [p now|p|p now]; cbn in *.
    + unfold allow. rewrite Hs. destruct (cb_states b !! p) as [state|] eqn:Hb; [|cbn; congruence].
      destruct (ck_open_until state) as [d|]; [|cbn; congruence].
      destruct (now <? d); cbn; [congruence|]. by rewrite !lookup_insert_eq.
    + by rewrite !lookup_delete_eq.
    + unfold failure. cbn. by rewrite !lookup_insert_eq, Hs, Ht, Hc.
  - destruct (breaker_step_limits a op) as [-> ->], (breaker_step_limits b op) as [-> ->]. done.
Qed.

(** A breaker depends on its own provider's operations only. *)
Lemma breaker_independent provider ops a b :
  agree provider a b ->
  agree provider (fold_left breaker_step ops a) (fold_left breaker_step (about provider ops) b).
Proof.
  revert a b. induction ops as [|op ops IH]; intros a b Hab; cbn; [done|].
  destruct (String.eqb_spec (op_provider op) provider) as [He|Hne]; cbn.
  - apply IH. by apply breaker_step_agree.
  - apply IH. destruct Hab as (Hs & Ht & Hc). destruct (breaker_step_limits a op) as [H1 H2].
    split; [by rewrite breaker_step_other|]. split; congruence.
Qed.

Lemma failures_count provider threshold cooldown times :
  0 < threshold <= U32_MAX ->
  let self := fold_left breaker_step (map (OpFailure provider) times)
                (CircuitBreakers_new threshold cooldown) in
  cb_threshold self = threshold /\ cb_cooldown self = cooldown /\
  cb_states self !! provider =
    match last times with
    | None => None
    | Some now => Some {| ck_failures := Z.min U32_MAX (Z.of_nat (length times));
        ck_open_until := if threshold <=? Z.of_nat (length times) then Some (now + cooldown) else None |}
    end.
Proof.
  intros Ht. cbn zeta. induction times as [|now times IH] using rev_ind; [done|].
  rewrite map_app, fold_left_app. destruct IH as (H1 & H2 & IH). cbn [fold_left map breaker_step].
  set (self := fold_left _ _ _) in *. clearbody self. unfold failure. cbn.
  split; [done|]. split; [done|]. rewrite lookup_insert_eq, last_snoc, length_app, H1, H2, IH. cbn [length].
  unfold saturating_add, U32_MAX in *. destruct (last times) as [t|] eqn:Hl; cbn.
  - f_equal. f_equal; [lia|].
    destruct (Z.leb_spec threshold (Z.min 4294967295 (Z.min 4294967295 (Z.of_nat (length times)) + 1)));
      destruct (Z.leb_spec threshold (Z.of_nat (length times + 1))); try lia; [done|].
    destruct (Z.leb_spec threshold (Z.of_nat (length times))); [lia|done].
  - apply last_None in Hl. subst times. done.
Qed.

(** The circuit breaker of a provider opens exactly at the configured number of
    consecutive failures and for the configured time: after any sequence of operations in
    which those of the provider itself are failures, a query is refused exactly when
    there were at least [threshold] failures and the cooldown since the last one is not
    over, however the operations of other providers are interleaved. *)
Theorem breaker_opens_after_threshold threshold cooldown ops provider times now :
  0 < threshold <= U32_MAX -> about provider ops = map (OpFailure provider) times ->
  (allow (fold_left breaker_step ops (CircuitBreakers_new threshold cooldown)) provider now).2 = false
  <-> threshold <= Z.of_nat (length times) /\
      exists t, last times = Some t /\ now < t + cooldown.
Proof.
  intros Ht Habout.
  destruct (breaker_independent provider ops (CircuitBreakers_new threshold cooldown)
    (CircuitBreakers_new threshold cooldown)) as (Hs & _); [done|].
  rewrite Habout in Hs. destruct (failures_count provider threshold cooldown times Ht) as (_ & _ & Hf).
  cbn zeta in Hf. rewrite Hf in Hs. unfold allow. rewrite Hs. destruct (last times) as [t|]; cbn.
  - destruct (Z.leb_spec threshold (Z.of_nat (length times))); cbn.
    + destruct (Z.ltb_spec now (t + cooldown)); cbn; split; naive_solver lia.
    + split; [done|]. intros [? _]. lia.
  - split; [done|]. by intros [_ (t & ? & _)].
Qed.

Lemma breaker_opens_after_threshold_witness :
  (allow (fold_left breaker_step
      [OpFailure "remote" 10; OpFailure "other" 11; OpAllow "other" 12; OpFailure "remote" 20]
      (CircuitBreakers_new 2 1000)) "remote" 500).2 = false.
Proof.
  apply (breaker_opens_after_threshold 2 1000 _ "remote" [10; 20] 500).
  - unfold U32_MAX. lia.
  - reflexivity.
  - split; [cbn; lia|]. exists 20. split; [reflexivity|lia].
Defined.
