(* ===== verification/RouterStream.v ===== *)
(** * The event stream of a chat

    What a client may rely on when it reads the events of [Router.chat]: the stream
    follows a small protocol, and the request always ends with it.  The protocol is an
    automaton; the proof is a program logic for computations that send events. *)

From Stdlib Require Import Ascii String.
From S2P Require Import Prelude RustStr Bounded Contract RouterContract Effects RouterApi Privacy BrokerProtocol RouterTools Providers Router.

(** ** The protocol *)

(** Nothing sent yet; accepted, no answer in progress (after an incomplete one or not);
    an answer in progress; only the final event missing; finished. *)
Inductive phase := Fresh | Idling (tried : bool) | Answering (answer_id : string) | Closing | Closed.

#[global] Instance phase_eq_dec : EqDecision phase.
Proof. solve_decision. Defined.

Definition request_of (event : InternalEvent) : string :=
  match event with
  | IeAccepted r _ | IeStateTransition r _ _ | IeProgress r _ _ | IeAnswerStarted r _ _ _
  | IeDelta r _ _ | IeToolResult r _ _ _ | IeActionProposal r _ _ _ _
  | IeAnswerFinished r _ _ _ _ | IeControl r _ | IeCancelled r _ | IeError r _ _ | IeDone r => r
  end.

Definition stream_step (q : phase) (event : InternalEvent) : option phase :=
  match q, event with
  | Fresh, IeAccepted _ _ => Some (Idling false)
  | Fresh, IeError _ _ _ => Some Closing
  | Idling tried, IeProgress _ _ _ => Some (Idling tried)
  | Idling tried, IeStateTransition _ from to =>
      if is_valid_status_transition from to then Some (Idling tried) else None
  | Idling tried, IeAnswerStarted _ a _ fallback_reason =>
      if tried && is_none fallback_reason then None else Some (Answering a)
  | Idling _, IeError _ _ _ => Some Closing
  | Answering a, (IeProgress _ _ _ | IeToolResult _ _ _ _ | IeActionProposal _ _ _ _ _) =>
      Some (Answering a)
  | Answering a, IeDelta _ b content =>
      if String.eqb a b && valid_utf8 content then Some (Answering a) else None
  | Answering a, IeAnswerFinished _ b _ incomplete _ =>
      if String.eqb a b then Some (if incomplete then Idling true else Closing) else None
  | Closing, IeDone _ => Some Closed
  | _, _ => None
  end.

Fixpoint follow (request_id : string) (q : phase) (events : list InternalEvent) : option phase :=
  match events with
  | [] => Some q
  | event :: rest =>
      if String.eqb (request_of event) request_id
      then q' ← stream_step q event; follow request_id q' rest
      else None
  end.

(** The events a run sent. *)
Definition sent_of (e : event router_io) : list InternalEvent :=
  match ev_call e with Send event => [event] | _ => [] end.
Definition sends (t : list (event router_io)) : list InternalEvent := t ≫= sent_of.

Lemma sends_app t u : sends (t ++ u) = sends t ++ sends u.
Proof. apply bind_app. Qed.

Lemma follow_app request_id q l k :
  follow request_id q (l ++ k) = follow request_id q l ≫= fun q' => follow request_id q' k.
Proof.
  revert q. induction l as [|e l IH]; intros q; cbn; [done|].
  destruct (String.eqb _ _); [|done]. by destruct (stream_step q e); cbn.
Qed.

(** A finished stream ends with the only [Done], and nothing can follow it. *)
Lemma follow_closed request_id q l :
  follow request_id q l = Some Closed -> q <> Closed ->
  exists k, l = k ++ [IeDone request_id] /\ follow request_id q k = Some Closing /\
    Forall (fun e => match e with IeDone _ => False | _ => True end) k.
Proof.
  revert q. induction l as [|e l IH]; intros q; cbn [follow]; [by intros [= ->]|].
  destruct (String.eqb_spec (request_of e) request_id) as [He|]; [|done]. intros H Hq.
  destruct (stream_step q e) as [q'|] eqn:Hs; cbn in H; [|done].
  destruct (decide (q' = Closed)) as [->|Hq'].
  - destruct l as [|e' l]; [|by cbn in H; destruct (String.eqb _ _)].
    exists []. destruct q, e; cbn in Hs; try done; repeat case_match; simplify_eq; by subst.
  - apply IH in H as (k & -> & Hk & Hall); [|done]. exists (e :: k). split; [done|]. split.
    + cbn. subst request_id. by rewrite String.eqb_refl, Hs.
    + constructor; [|done]. by destruct e, q; cbn in Hs; simplify_eq.
Qed.

(** ** Replies that are not panics

    A panic of a task is reported as [EndJoinError]; the other calls return, and the
    text of a chunk is UTF-8, as every Rust string. *)
Definition chunk_utf8 (chunk : ProviderChunk) : Prop :=
  match chunk with ChunkText content => valid_utf8 content = true | ChunkProgress _ _ => True end.

Definition calm_reply {A} (c : router_io A) : A -> Prop :=
  match c with
  | ProviderChat _ _ => fun run =>
      match run_end run with EndReturned r => r <> Panic | _ => True end /\
      Forall chunk_utf8 (run_chunks run) /\ Forall chunk_utf8 (run_left run)
  | ConsumeConsent _ _ => fun r => r <> Panic
  | InvokeTool _ _ _ => fun r => r <> Panic
  | _ => fun _ => True
  end.
Definition calm (env : environment router_io) : Prop := forall h A (c : router_io A), calm_reply c (env h A c).

(** ** Program logic *)

Section logic.
Context (env : environment router_io) (env_calm : calm env) (request_id : string).

Definition streams (q : phase) {E A} (m : reff E A) (Q : result E A -> phase -> Prop) : Prop :=
  forall h, let o := m env h tt in
    value o <> Panic /\ exists q', follow request_id q (sends (trace o)) = Some q' /\ Q (value o) q'.

Lemma streams_lift q {E A} (r : result E A) (Q : result E A -> phase -> Prop) :
  r <> Panic -> Q r q -> streams q (lift r) Q.
Proof. intros Hr HQ h. split; [done|]. by exists q. Qed.

Lemma streams_ret q {E A} (a : A) (Q : result E A -> phase -> Prop) :
  Q (Ok a) q -> streams q (mret a) Q.
Proof. intros HQ h. split; [done|]. by exists q. Qed.

Lemma streams_bind q {E A B} (m : reff E A) (k : A -> reff E B) R (Q : result E B -> phase -> Prop) :
  streams q m R ->
  (forall a q', R (Ok a) q' -> streams q' (k a) Q) ->
  (forall e q', R (Err e) q' -> Q (Err e) q') ->
  streams q (m ≫= k) Q.
Proof.
  intros Hm Hk He h. destruct (Hm h) as [Hp (q' & Hf & HR)].
  unfold mbind, eff_bind. destruct (value (m env h tt)) as [a|e|]; [| |done]; cbn.
  - destruct (final (m env h tt)).
    destruct (Hk a q' HR (h ++ trace (m env h tt))) as [Hp' (q'' & Hf' & HQ)].
    split; [done|]. exists q''. split; [|done]. by rewrite sends_app, follow_app, Hf.
  - split; [done|]. eauto.
Qed.

Lemma streams_perform q {E A} (c : router_io A) (Q : result E A -> phase -> Prop) :
  (forall r, sent_of (Event A c r) = []) -> (forall r, calm_reply c r -> Q (Ok r) q) ->
  streams q (perform c) Q.
Proof.
  intros Hs HQ h. split; [done|]. exists q. cbn. split; [|apply HQ, env_calm].
  unfold sends. cbn [mbind list_bind]. by rewrite Hs.
Qed.

Lemma streams_send q {E} (e : InternalEvent) q' (Q : result E unit -> phase -> Prop) :
  request_of e = request_id -> stream_step q e = Some q' -> Q (Ok tt) q' -> streams q (send e) Q.
Proof.
  intros He Hs HQ h. split; [done|]. exists q'. cbn. rewrite <-He, String.eqb_refl, Hs.
  split; [done|]. by destruct (env h unit (Send e)).
Qed.

Lemma streams_attempt q {E F A} (m : reff E A) R (Q : result F (result E A) -> phase -> Prop) :
  streams q m R -> (forall r q', R r q' -> r <> Panic -> Q (Ok r) q') -> streams q (attempt m) Q.
Proof.
  intros Hm HQ h. destruct (Hm h) as [Hp (q' & Hf & HR)]. unfold attempt.
  destruct (value (m env h tt)) eqn:Hv; [| |done]; cbn; (split; [done|]); exists q'; auto.
Qed.

Lemma streams_mono q {E A} (m : reff E A) (R Q : result E A -> phase -> Prop) :
  (forall r q', R r q' -> Q r q') -> streams q m R -> streams q m Q.
Proof. intros Hi Hm h. destruct (Hm h) as [Hp (q' & Hf & HR)]. eauto. Qed.

(** Sequences, the common cases. *)
Lemma streams_send_then q {E B} (e : InternalEvent) (k : reff E B) q' (Q : result E B -> phase -> Prop) :
  request_of e = request_id -> stream_step q e = Some q' -> streams q' k Q ->
  streams q (send e;; k) Q.
Proof.
  intros He Hs Hk. eapply (streams_bind _ _ _ (fun r q'' => r = Ok tt /\ q'' = q')).
  - by eapply streams_send.
  - by intros [] ? [_ ->].
  - by intros e' ? [? _].
Qed.

Lemma streams_perform_then q {E A B} (c : router_io A) (k : A -> reff E B)
    (Q : result E B -> phase -> Prop) :
  (forall r, sent_of (Event A c r) = []) -> (forall r, calm_reply c r -> streams q (k r) Q) ->
  streams q (perform c ≫= k) Q.
Proof.
  intros Hs Hk.
  eapply (streams_bind _ _ _ (fun r q' => exists a, r = Ok a /\ calm_reply c a /\ q' = q)).
  - apply streams_perform; eauto.
  - intros a ? (a' & [= <-] & Hc & ->). by apply Hk.
  - by intros e ? (a' & ? & _).
Qed.

Lemma streams_lift_then q {E A B} (r : result E A) (k : A -> reff E B) (Q : result E B -> phase -> Prop) :
  r <> Panic -> (forall a, r = Ok a -> streams q (k a) Q) -> (forall e, r = Err e -> Q (Err e) q) ->
  streams q (lift r ≫= k) Q.
Proof.
  intros Hr Hk He. eapply (streams_bind _ _ _ (fun r' q' => r' = r /\ q' = q)).
  - by apply streams_lift.
  - intros a ? [<- ->]. by apply Hk.
  - intros e ? [<- ->]. by apply He.
Qed.

(** What stays in the same phase whatever the result. *)
Lemma streams_stay_then q {E A B} (m : reff E A) (k : A -> reff E B) (Q : result E B -> phase -> Prop) :
  streams q m (fun _ q' => q' = q) -> (forall a, streams q (k a) Q) -> (forall e, Q (Err e) q) ->
  streams q (m ≫= k) Q.
Proof.
  intros Hm Hk He. eapply streams_bind; [exact Hm|..].
  - intros a ? ->. apply Hk.
  - intros e ? ->. apply He.
Qed.
End logic.

(** ** No panics in the pure parts *)

Lemma sanitize_items_no_panic allowed total items :
  no_panic (sanitize_items allowed total items) = true.
Proof.
  revert total. induction items as [|i items IH]; intros total; cbn [sanitize_items]; [done|].
  do 4 (apply no_panic_bind; [apply no_panic_fail_if|intros _ _]).
  destruct (redact_secrets _). apply no_panic_bind; [apply IH|]. by intros [] _.
Qed.

Lemma sanitize_no_panic provider question context max_tokens allowed :
  sanitize provider question context max_tokens allowed <> Panic.
Proof.
  apply no_panic_spec. unfold sanitize.
  do 2 (apply no_panic_bind; [apply no_panic_fail_if|intros _ _]).
  destruct (redact_secrets _). apply no_panic_bind; [apply sanitize_items_no_panic|]. by intros [] _.
Qed.

Section no_panics.
Context (hash_order : list string -> list string) (from_str : string -> result string Value).
Context (from_str_calm : forall s, from_str s <> Panic).

Lemma for_each_no_panic {A E} (f : A -> result E unit) l :
  (forall x, no_panic (f x) = true) -> no_panic (for_each f l) = true.
Proof. intros Hf. induction l; cbn [for_each]; [done|]. by apply no_panic_bind. Qed.

Lemma validate_property_no_panic properties name v :
  no_panic (validate_property properties name v) = true.
Proof.
  unfold validate_property. destruct (_ ≫= _); [|done].
  apply no_panic_bind; [destruct (_ ≫= _); [apply no_panic_fail_if|done]|]. intros _ _.
  destruct (_ ≫= _); [apply no_panic_fail_if|done].
Qed.

Lemma validate_schema_no_panic schema v : no_panic (validate_schema hash_order schema v) = true.
Proof.
  unfold validate_schema. destruct (v_as_object schema); [|done].
  apply no_panic_bind; [apply no_panic_fail_if|intros _ _]. destruct (negb _); [done|].
  apply no_panic_bind; [by destruct (v_as_object v)|intros object _]. unfold validate_object.
  apply no_panic_bind; [|intros _ _; apply no_panic_bind; [|intros _ _]].
  - apply for_each_no_panic. intros. apply no_panic_fail_if.
  - destruct (bool_decide _); [|done]. apply for_each_no_panic. intros. apply no_panic_fail_if.
  - apply for_each_no_panic. intros []. apply validate_property_no_panic.
Qed.

Lemma validate_call_no_panic definitions call seen :
  validate_call hash_order from_str definitions call seen <> Panic.
Proof.
  apply no_panic_spec. unfold validate_call.
  do 2 (apply no_panic_bind; [apply no_panic_fail_if|intros _ _]).
  apply no_panic_bind; [by destruct (find_definition _ _)|intros d _].
  apply no_panic_bind; [apply no_panic_fail_if|intros _ _].
  apply no_panic_bind.
  { specialize (from_str_calm (tc_arguments call)). by destruct (from_str _). }
  intros arguments _. apply no_panic_bind; [apply validate_schema_no_panic|intros _ _].
  apply no_panic_bind; [apply no_panic_fail_if|done].
Qed.
End no_panics.

(** ** The protocol is followed *)

Section chat_stream.
Context `{C : PrivacyCrypto} (config : RuntimeConfig) (providers : ProviderRegistry)
  (hash_order : list string -> list string) (from_str : string -> result string Value).
Context (from_str_calm : forall s, from_str s <> Panic).
Context (to_vec_total : forall payload, is_Some (to_vec (canonical_value payload))).
Context (env : environment router_io) (env_calm : calm env) (request_id : string).

#[local] Abbreviation Streams := (streams env request_id) (only parsing).

Lemma for_chunks_streams a f chunks :
  (forall c, chunk_utf8 c -> Streams (Answering a) (f c) (fun _ q => q = Answering a)) ->
  Forall chunk_utf8 chunks ->
  Streams (Answering a) (for_chunks f chunks) (fun _ q => q = Answering a).
Proof.
  intros Hf Hall. induction Hall as [|c chunks Hc Hall IH]; cbn [for_chunks]; [by apply streams_ret|].
  apply streams_stay_then; auto.
Qed.

Lemma send_chunk_streams a chunk :
  chunk_utf8 chunk ->
  Streams (Answering a) (send_chunk request_id a chunk) (fun _ q => q = Answering a).
Proof.
  intros Hc. destruct chunk; cbn [send_chunk]; eapply streams_send; try done.
  cbn in *. by rewrite String.eqb_refl, Hc.
Qed.

Lemma drain_chunk_streams a chunk :
  chunk_utf8 chunk ->
  Streams (Answering a) (drain_chunk request_id a chunk) (fun _ q => q = Answering a).
Proof.
  intros Hc. destruct chunk; cbn [drain_chunk]; [by apply streams_ret|]. eapply streams_send; try done.
  cbn in *. by rewrite String.eqb_refl, Hc.
Qed.

Lemma run_provider_streams a provider request :
  Streams (Answering a) (run_provider provider request_id a request) (fun _ q => q = Answering a).
Proof.
  unfold run_provider. apply streams_perform_then; [done..|]. intros run (Hrun & Hchunks & Hleft).
  apply streams_stay_then; [apply for_chunks_streams; [apply send_chunk_streams|done]|intros _|done].
  apply streams_lift_then; [by destruct (run_end run)|intros output _|done].
  apply streams_stay_then; [apply for_chunks_streams; [apply drain_chunk_streams|done]|intros _|done].
  by apply streams_ret.
Qed.

Lemma handle_calls_streams a definitions calls messages seen :
  Streams (Answering a) (handle_calls hash_order from_str definitions request_id calls messages seen)
    (fun _ q => q = Answering a).
Proof.
  revert messages seen. induction calls as [|call calls IH]; intros messages seen;
    cbn [handle_calls]; [by apply streams_ret|].
  destruct (bool_decide _).
  - by eapply streams_send_then; [..|apply IH].
  - apply (streams_bind _ _ _ _ _ (fun r q => q = Answering a /\ forall s v, r = Ok (s, v) -> v <> Panic)).
    + unfold validate_and_invoke.
      pose proof (validate_call_no_panic hash_order from_str from_str_calm definitions call seen) as Hv.
      destruct (validate_call _ _ _ _ _) as [arguments|e|]; [| |done].
      * apply streams_perform_then; [done..|]. intros r Hr. cbn in Hr. apply streams_ret.
        split; [done|]. intros s v [= <- <-]. destruct r as [m|e|]; [|done..]. cbn.
        by destruct (_ <? _).
      * apply streams_ret. split; [done|]. by intros s v [= <- <-].
    + intros [s v] q [-> Hv]. specialize (Hv s v eq_refl). destruct v as [m|e|]; [| |done].
      * by eapply streams_send_then; [..|apply IH].
      * apply IH.
    + by intros e q [-> _].
Qed.

Lemma agent_rounds_streams a fuel round provider definitions messages max_tokens boundary seen :
  Streams (Answering a)
    (agent_rounds hash_order from_str fuel round provider request_id a definitions messages
       max_tokens boundary seen) (fun _ q => q = Answering a).
Proof.
  revert round messages seen. induction fuel as [|fuel IH]; intros round messages seen;
    cbn [agent_rounds]; [by apply streams_lift|].
  apply streams_stay_then; [apply run_provider_streams|intros output|done].
  destruct (po_tool_calls output); [by apply streams_ret|].
  apply streams_stay_then; [apply handle_calls_streams|intros [m s]; apply IH|done].
Qed.

Lemma run_agent_loop_streams a provider messages max_tokens boundary :
  Streams (Answering a)
    (run_agent_loop config hash_order from_str provider request_id a messages max_tokens boundary)
    (fun _ q => q = Answering a).
Proof.
  unfold run_agent_loop. apply streams_stay_then; [|intros; apply agent_rounds_streams|done].
  destruct (pv_is_local provider); [by apply streams_perform|by apply streams_ret].
Qed.

(** A complete answer leaves only the final event; an incomplete one allows another. *)
Lemma answer_streams tried request candidate fallback_reason last_error :
  in_request_id request = request_id -> (tried = true -> is_Some fallback_reason) ->
  Streams (Idling tried) (answer config hash_order from_str request candidate fallback_reason last_error)
    (fun r q => match r with Ok None => q = Closing | Ok (Some _) => q = Idling true | _ => False end).
Proof.
  intros Hid Htried. unfold answer. rewrite Hid. apply streams_perform_then; [done..|intros a _].
  apply streams_stay_then; [|intros _|done].
  { destruct last_error; cbn [announce]; destruct (pv_is_local _);
      repeat first [by apply streams_ret|eapply streams_send_then; [done..|]|by eapply streams_send]. }
  apply streams_perform_then; [done..|intros status _].
  eapply streams_send_then; [done| |].
  { cbn. destruct tried; [|done]. by destruct Htried as [? ->]. }
  apply streams_stay_then; [|intros boundary|done].
  { destruct (rc_payload candidate) as [payload|]; cbn [boundary_of]; [|by apply streams_ret].
    unfold payload_digest. destruct (to_vec_total payload) as [bytes ->]. by apply streams_ret. }
  apply (streams_bind _ _ _ _ _ (fun r q => q = Answering a /\ forall v, r = Ok v -> v <> Panic)).
  { eapply streams_attempt; [apply run_agent_loop_streams|]. intros r q -> Hr. split; [done|].
    by intros v [= <-]. }
  2: { intros e q _. destruct e. }
  intros [reason|error|] q [-> Hr]; [| |by destruct (Hr _ eq_refl)].
  - apply streams_stay_then; [|intros _|done].
    { destruct (pv_is_local _); [by apply streams_ret|by apply streams_perform]. }
    eapply streams_send_then; [done|cbn; by rewrite String.eqb_refl|]. by apply streams_ret.
  - eapply streams_send_then; [done|cbn; by rewrite String.eqb_refl|].
    apply streams_stay_then; [|intros _|done]; [|by apply streams_ret].
    destruct (pv_is_local _); [by apply streams_ret|by apply streams_perform].
Qed.

Lemma close_streams q {E} error (Q : result E unit -> phase -> Prop) :
  request_of error = request_id -> stream_step q error = Some Closing -> Q (Ok tt) Closed ->
  Streams q (send error;; send_done request_id) Q.
Proof. intros He Hs HQ. eapply streams_send_then; [done..|]. by eapply streams_send. Qed.

Lemma skip_candidate_streams tried provider :
  Streams (Idling tried) (skip_candidate provider) (fun _ q => q = Idling tried).
Proof.
  unfold skip_candidate. destruct (pv_is_local provider); [by apply streams_ret|].
  apply streams_perform_then; [done..|intros allowed _]. destruct (negb allowed); [by apply streams_ret|].
  apply streams_perform_then; [done..|intros status _]. destruct (negb _); [|by apply streams_ret].
  apply streams_perform_then; [done..|intros _ _]. by apply streams_ret.
Qed.

Lemma try_candidates_streams tried request candidates fallback_reason last_error :
  in_request_id request = request_id -> (tried = true -> is_Some fallback_reason) ->
  Streams (Idling tried) (try_candidates config hash_order from_str request candidates fallback_reason last_error)
    (fun r q => r = Ok tt /\ q = Closed).
Proof.
  intros Hid. revert tried fallback_reason last_error.
  induction candidates as [|candidate rest IH]; intros tried fallback_reason last_error Htried;
    cbn [try_candidates]; rewrite Hid; [by apply close_streams|].
  apply streams_perform_then; [done..|]. intros [] _; [by apply close_streams|].
  apply streams_stay_then; [apply skip_candidate_streams| |by intros []].
  intros [error|]; [by apply IH; [eauto]|].
  eapply streams_bind; [by apply answer_streams| |by intros []].
  intros [error|] q; [intros ->|intros ->; by eapply streams_send].
  destruct (bool_decide _); [by apply close_streams|].
  eapply streams_send_then; [done..|]. by apply IH; [eauto].
Qed.

Lemma build_route_streams q request settings :
  Streams q (build_route config providers request settings) (fun r q' => q' = q /\
    forall e, r = Err e -> request_of e = in_request_id request /\ exists c f, e = IeError (in_request_id request) c f).
Proof.
  unfold build_route.
  destruct (in_policy request); [by apply streams_ret|..]; destruct (_ ≫= _) as [[name provider]|];
    try by apply streams_ret.
  1,2: destruct (is_confidential _); [by apply streams_ret|];
    pose proof (sanitize_no_panic name (in_question request) (in_context request)
      (bound_tokens config (in_max_tokens request)) (Some (us_remote_categories settings)));
    destruct (sanitize _ _ _ _ _); [by apply streams_ret..|done].
  2: { apply streams_lift; [done|]. split; [done|]. intros e [= <-]. split; [done|]. by do 2 eexists. }
  pose proof (sanitize_no_panic name (in_question request) (in_context request)
      (bound_tokens config (in_max_tokens request)) None).
  apply streams_lift_then; [by destruct (sanitize _ _ _ _ _)|intros payload _|].
  2: { intros e He. split; [done|]. destruct (sanitize _ _ _ _ _); [done| |done].
       injection He as <-. intros ? [= <-]. split; [done|]. by do 2 eexists. }
  apply streams_perform_then; [done..|]. intros consent Hc. cbn in Hc.
  apply streams_lift_then; [by destruct consent|intros _ _; by apply streams_ret|].
  intros e He. split; [done|]. destruct consent; [done| |done].
  injection He as <-. intros ? [= <-]. split; [done|]. by do 2 eexists.
Qed.

Lemma chat_streams request :
  in_request_id request = request_id ->
  Streams Fresh (chat config providers hash_order from_str request)
    (fun r q => r = Ok tt /\ q = Closed).
Proof.
  intros Hid. unfold chat. rewrite Hid.
  assert (validate_chat request <> Panic) as Hv.
  { apply no_panic_spec. unfold validate_chat.
    do 3 (apply no_panic_bind; [apply no_panic_fail_if|intros _ _]). apply no_panic_fail_if. }
  destruct (validate_chat request); [|by apply close_streams|done].
  eapply streams_send_then; [done..|]. eapply streams_send_then; [done..|].
  apply streams_perform_then; [done..|intros settings _].
  eapply (streams_bind _ _ _ _ _ (fun r q => q = Idling false /\ forall v, r = Ok v -> v <> Panic /\
    forall e, v = Err e -> request_of e = request_id /\ exists c f, e = IeError request_id c f)).
  - eapply streams_attempt; [apply build_route_streams|].
    intros r q [-> He] Hr. split; [done|]. intros v [= <-]. split; [done|]. rewrite <-Hid. apply He.
  - intros [route|event|] q [-> Hr]; destruct (Hr _ eq_refl) as [Hp He].
    + by apply try_candidates_streams.
    + destruct (He _ eq_refl) as [Hreq (c & f & ->)]. by apply close_streams.
    + done.
  - by intros [].
Qed.
End chat_stream.

(** C8 Every chat ends, and its event stream follows the protocol: whatever the
    settings, providers, tools, breakers, cancellation and consents answer, [chat]
    returns; every event carries the request's identifier; a [Delta] and an
    [AnswerFinished] belong to the one answer in progress; the stream holds exactly one
    outcome (a complete answer or an error) after any incomplete answers; and it ends
    with its only [Done]. *)
Theorem chat_stream_follows_protocol `{C : PrivacyCrypto} config providers hash_order from_str env h
    request :
  (forall s, from_str s <> Panic) -> (forall payload, is_Some (to_vec (canonical_value payload))) ->
  calm env ->
  let o := chat config providers hash_order from_str request env h tt in
  value o = Ok tt /\ follow (in_request_id request) Fresh (sends (trace o)) = Some Closed /\
  exists events, sends (trace o) = events ++ [IeDone (in_request_id request)] /\
    Forall (fun e => match e with IeDone _ => False | _ => True end) events.
Proof.
  intros Hf Ht Hc. cbn zeta.
  destruct (chat_streams config providers hash_order from_str Hf Ht env Hc (in_request_id request)
    request eq_refl h) as [_ (q & Hq & Hv & ->)].
  split; [done|]. split; [done|]. apply follow_closed in Hq as (k & Hk & _ & Hall); [|done]. eauto.
Qed.
(** ** A concrete world *)

Definition demo_local : Provider := {| pv_name := "local"; pv_is_local := true |}.
Definition demo_remote : Provider := {| pv_name := "remote"; pv_is_local := false |}.
Definition demo_providers : ProviderRegistry := register_remote (with_local demo_local) demo_remote.

Definition demo_from_str (s : string) : result string Value :=
  if String.eqb s "{}" then Ok (VObject []) else Err "expected value".

Definition demo_request (policy : RoutingPolicy) : ChatInput :=
  {| in_request_id := "request-1"; in_session_id := "session-1"; in_question := "hello";
     in_policy := policy; in_provider := Some "remote"; in_context := []; in_consent_token := None;
     in_max_tokens := Some 64;
     in_provenance := {| dp_source := UserInput; dp_sensitivity := Internal;
                         dp_redaction_applied := false;
                         dp_origin_label := BStr "test" eq_refl; dp_trace_id := None |} |}.

(** A local model that asks for one tool and then answers, and a remote one that
    answers at once. *)
Definition demo_world : environment router_io := fun _ _ c =>
  match c with
  | GetSettings => {| us_version := PROTOCOL_VERSION_V1; us_default_policy := LocalOnly;
                      us_preferred_remote_provider := None; us_remote_categories := {[UserPrompt]} |}
  | IsCancelled => false
  | BreakerAllow _ => true
  | BreakerSuccess _ => tt
  | BreakerFailure _ => tt
  | Health _ => {| ps_provider_id := BStr "local" eq_refl; ps_health := Healthy; ps_state := Idle;
                   ps_checked_at_ms := 1; ps_message := None; ps_observed_latency_ms := None |}
  | PreviewConsent _ => Err InvalidConsent
  | ConsumeConsent _ _ => Err InvalidConsent
  | NextAnswerId => "answer-1"%string
  | ToolDefinitions => safe_tool_definitions
  | ProviderChat p r =>
      {| run_chunks := [ChunkText "hi"];
         run_end := EndReturned (Ok {| po_finish_reason := "stop";
           po_tool_calls := if pv_is_local p && (vlen (pq_messages r) =? 2)
             then [{| tc_id := "call-1"; tc_name := "cpu_status"; tc_arguments := "{}" |}] else [] |});
         run_left := [] |}
  | InvokeTool _ _ _ => Ok {| mr_content := "{}"; mr_provenance := "demo" |}
  | Clock => 1
  | Send _ => tt
  end.

Lemma chat_stream_follows_protocol_witness :
  value (chat (C := demo_crypto) RuntimeConfig_default demo_providers id demo_from_str
           (demo_request RemotePreferred) demo_world [] tt) = Ok tt.
Proof.
  apply (chat_stream_follows_protocol (C := demo_crypto) RuntimeConfig_default demo_providers id
    demo_from_str demo_world []).
  - intros s. unfold demo_from_str. by destruct (String.eqb s "{}").
  - intros payload. by eexists.
  - intros h A c. destruct c; try done. split; [done|]. split; [by constructor|constructor].
Defined.

(** ** Where the announced transitions do not join

    The protocol above checks every transition by itself.  The transitions of one chat
    need not form a path: here the breaker of the remote provider is open, so the
    request never runs remotely, and the local answer is still announced as a fallback
    from [RunningRemote]. *)

Definition transitions (events : list InternalEvent) : list (RequestStatus * RequestStatus) :=
  omap (fun e => match e with IeStateTransition _ from to => Some (from, to) | _ => None end) events.

Definition open_breaker_world : environment router_io := fun h _ c =>
  match c in router_io A return A with
  | BreakerAllow _ => false
  | c => demo_world h _ c
  end.

Example fallback_without_remote_run :
  transitions (sends (trace (chat (C := demo_crypto) RuntimeConfig_default demo_providers id
    demo_from_str (demo_request RemotePreferred) open_breaker_world [] tt)))
  = [(Received, Queued); (RunningRemote, FallbackToLocal); (FallbackToLocal, RunningLocal)].
Proof. vm_compute. reflexivity. Qed.
