(* ===== verification/RouterEgress.v ===== *)
(** * What leaves the machine

    The disclosure theorems of the router: which data a remote provider can receive,
    under which policy and consent, which tool calls are made on behalf of a model, and
    how many provider calls one request can cause. *)

From Stdlib Require Import Ascii String.
From S2P Require Import Prelude RustStr Bounded Contract RouterContract Effects RouterApi Privacy BrokerProtocol RouterTools Providers Router RouterStream.

(** ** Specifications *)

(** A message added after a provider asked for tools it was not offered: its own calls
    and a fixed refusal, never the result of a tool. *)
Inductive refusal : ModelMessage -> Prop :=
| refusal_echo calls : refusal (assistant_message calls)
| refusal_reply call error :
    refusal (tool_message call ("Tool unavailable: " +:+ ToolError_to_string error)).

Section specification.
Context `{C : PrivacyCrypto} (config : RuntimeConfig) (providers : ProviderRegistry)
  (hash_order : list string -> list string) (from_str : string -> result string Value).

Lemma is_confidential_false s : is_confidential s = false -> s = Public \/ s = Internal.
Proof. destruct s; naive_solver. Qed.

(** The policy allows sending [payload] to [p]: it is the sanitized request, limited to
    the categories the user enabled unless the user consented to this very payload. *)
Record may_disclose (request : ChatInput) (settings : UserSettings) (t : list (event router_io))
    (p : Provider) (payload : SanitizedPayload) : Prop := {
  md_policy : in_policy request <> LocalOnly;
  md_payload : sanitize (pv_name p) (in_question request) (in_context request)
    (bound_tokens config (in_max_tokens request))
    (if decide (in_policy request = AskBeforeRemote) then None
     else Some (us_remote_categories settings)) = Ok payload;
  md_consent : in_policy request = AskBeforeRemote ->
    Event _ (ConsumeConsent (in_consent_token request) payload) (Ok tt) ∈ t;
  md_sensitivity : in_policy request <> AskBeforeRemote ->
    dp_sensitivity (in_provenance request) = Public \/
    dp_sensitivity (in_provenance request) = Internal;
}.

(** The request a remote provider receives holds the payload and nothing else of the
    user's. *)
Record carries_only (request : ChatInput) (payload : SanitizedPayload) (r : ProviderRequest)
    : Prop := {
  co_messages : exists extra, pq_messages r = build_messages (Some payload) request ++ extra /\
    Forall refusal extra;
  co_tools : pq_tools r = [];
  co_tokens : pq_max_tokens r = bound_tokens config (in_max_tokens request);
  co_boundary : exists digest, payload_digest payload = Ok digest /\
    pq_boundary r = SanitizedRemote digest;
}.

(** Registries whose local provider is local, as [standalone] builds them. *)
Definition honest_registry : Prop :=
  registry_wf providers /\ forall p, rg_local providers = Some p -> pv_is_local p = true.

(** ** Routes *)

Definition candidate_ok (request : ChatInput) (settings : UserSettings)
    (t : list (event router_io)) (c : RouteCandidate) : Prop :=
  match rc_payload c with
  | None => pv_is_local (rc_provider c) = true
  | Some payload => pv_is_local (rc_provider c) = false /\
      may_disclose request settings t (rc_provider c) payload
  end.

Context (Hregistry : honest_registry).

Lemma local_candidates_ok request settings t :
  Forall (candidate_ok request settings t) (local_candidates providers).
Proof.
  unfold local_candidates. destruct (rg_local providers) as [p|] eqn:Hp; [|constructor].
  repeat constructor. by apply Hregistry.
Qed.

Lemma route_ensures request settings :
  ensures (build_route config providers request settings)
    (fun _ plan t => Forall (candidate_ok request settings t) (rp_candidates plan) /\
       (length (rp_candidates plan) <= 2)%nat).
Proof.
  assert (length (local_candidates providers) <= 1)%nat as Hlen
    by (unfold local_candidates; by destruct (rg_local providers); cbn; lia).
  assert (forall t reason, Forall (candidate_ok request settings t) (rp_candidates
      {| rp_candidates := local_candidates providers; rp_initial_fallback_reason := reason |}) /\
      (length (rp_candidates {| rp_candidates := local_candidates providers;
                                rp_initial_fallback_reason := reason |}) <= 2)%nat) as Hlocal.
  { intros t reason. cbn. split; [apply local_candidates_ok|lia]. }
  unfold build_route. set (target := _ ≫= _).
  assert (forall name p, target = Some (name, p) -> pv_name p = name /\ pv_is_local p = false) as Htarget.
  { subst target. intros name p. cbn. destruct (match in_provider request with Some _ => _ | None => _ end); [|done].
    cbn. unfold remote. destruct (rg_remotes providers !! _) eqn:Hr; [|done]. intros [= <- <-].
    by apply Hregistry in Hr. }
  clearbody target.
  destruct (in_policy request) eqn:Hpolicy.
  { eapply ensures_mono; [|apply ensures_ret]. intros _ plan t [-> ->]. apply Hlocal. }
  3: { destruct target as [[name p]|]; [|by intros env h s a].
    destruct (Htarget name p eq_refl) as [<- Hl].
    eapply ensures_step; [apply ensures_lift|intros payload].
    eapply ensures_step; [apply ensures_perform|intros consent].
    eapply ensures_step; [apply ensures_lift|intros []].
    eapply ensures_mono; [|apply ensures_ret]. intros _ plan ? [-> ->] ? [Hc ->] ? -> ? [Hp ->].
    inv_result. subst. cbn. split; [|lia]. constructor; [|apply local_candidates_ok]. cbn. split; [done|].
    split; [by rewrite Hpolicy|rewrite Hpolicy; by case_decide|intros _; set_solver|by rewrite Hpolicy]. }
  all: destruct target as [[name p]|];
    [|eapply ensures_mono; [|apply ensures_ret]; intros _ plan t [-> ->]; apply Hlocal].
  all: destruct (Htarget name p eq_refl) as [<- Hl].
  all: destruct (is_confidential _) eqn:Hconf;
    [eapply ensures_mono; [|apply ensures_ret]; intros _ plan t [-> ->]; apply Hlocal|].
  all: destruct (sanitize _ _ _ _ _) as [payload| |] eqn:Hs;
    [|eapply ensures_mono; [|apply ensures_ret]; intros _ plan t [-> ->]; apply Hlocal
     |by intros env h s a].
  all: eapply ensures_mono; [|apply ensures_ret]; intros _ plan t [-> ->];
    cbn [rp_candidates]; rewrite ?length_app; cbn [length].
  all: apply is_confidential_false in Hconf.
  all: assert (candidate_ok request settings []
      {| rc_provider := p; rc_payload := Some payload |}) as Hok
    by (cbn; split; [done|]; split; rewrite ?Hpolicy; try done; by case_decide).
  - split; [|lia]. apply Forall_app. split; [apply local_candidates_ok|by constructor].
  - split; [|lia]. constructor; [done|apply local_candidates_ok].
Qed.

(** ** Provider calls *)

(** What holds of every provider call once the route is known; [t] is the trace that
    led to the route. *)
Definition egress (request : ChatInput) (settings : UserSettings) (t : list (event router_io))
    (e : event router_io) : Prop :=
  match ev_call e with
  | ProviderChat p r => pv_is_local p = false ->
      exists payload, may_disclose request settings t p payload /\ carries_only request payload r
  | _ => True
  end.

Definition no_chat (e : event router_io) : Prop :=
  match ev_call e with ProviderChat _ _ => False | _ => True end.

Lemma no_chat_egress request settings t e : no_chat e -> egress request settings t e.
Proof. unfold no_chat, egress. by destruct (ev_call e). Qed.

Lemma emits_no_chat {E A} request settings t (m : reff E A) :
  emits no_chat m -> emits (egress request settings t) m.
Proof. intros Hm env h s. eapply Forall_impl; [apply Hm|]. apply no_chat_egress. Qed.

Lemma send_no_chat {E} e : emits no_chat (send (E := E) e).
Proof. by apply emits_perform. Qed.
Lemma send_done_no_chat {E} r : emits no_chat (send_done (E := E) r).
Proof. apply send_no_chat. Qed.
Lemma send_cancelled_no_chat {E} r : emits no_chat (send_cancelled_error (E := E) r).
Proof. apply send_no_chat. Qed.
#[local] Hint Resolve send_no_chat send_done_no_chat send_cancelled_no_chat : sentia.

Lemma for_chunks_no_chat f chunks :
  (forall c, emits no_chat (f c)) -> emits no_chat (for_chunks f chunks).
Proof. intros Hf. induction chunks; cbn [for_chunks]; emits_tac; auto. Qed.

Lemma handle_calls_no_chat definitions request_id calls messages seen :
  emits no_chat (handle_calls hash_order from_str definitions request_id calls messages seen).
Proof.
  revert messages seen. induction calls as [|call calls IH]; intros messages seen;
    cbn [handle_calls]; [apply emits_ret|].
  destruct (bool_decide _).
  - apply emits_bind; [by apply emits_perform|]. intros _. apply IH.
  - apply emits_bind.
    + unfold validate_and_invoke. destruct (validate_call _ _ _ _ _); by emits_tac.
    + intros [s [result|error|]]; [|apply IH|apply emits_lift].
      apply emits_bind; [by apply emits_perform|]. intros _. apply IH.
Qed.

(** Without definitions every call of the model is refused. *)
Lemma handle_calls_refuses request_id calls messages seen :
  ensures (handle_calls hash_order from_str [] request_id calls messages seen)
    (fun _ r _ => exists extra, r.1 = messages ++ extra /\ Forall refusal extra).
Proof.
  revert messages seen. induction calls as [|call calls IH]; intros messages seen;
    cbn [handle_calls].
  { eapply ensures_mono; [|apply ensures_ret]. intros _ r _ [-> _]. exists []. by rewrite app_nil_r. }
  rewrite bool_decide_false by done.
  apply (ensures_bind _ _ _ _ (fun _ r _ => exists e, r.2 = Err e)
           (fun r _ b _ => forall e, r.2 = Err e -> exists extra, b.1 = messages ++ extra /\ Forall refusal extra)).
  - unfold validate_and_invoke, validate_call.
    destruct (bool_decide _); [|destruct (_ || _)]; cbn;
      (eapply ensures_mono; [|apply ensures_ret]; intros _ r _ [-> _]; cbn; eauto).
  - intros [s r] env h st b Hb e He. cbn in He. subst r. apply IH in Hb as (extra & -> & Hx).
    exists (tool_message call ("Tool unavailable: " +:+ ToolError_to_string e) :: extra).
    rewrite <-app_assoc. split; [done|]. constructor; [constructor|done].
  - intros _ r _ b _ (e & He) H. eauto.
Qed.

Lemma run_provider_egress request settings t provider request_id answer_id r :
  (pv_is_local provider = false -> exists payload,
     may_disclose request settings t provider payload /\ carries_only request payload r) ->
  emits (egress request settings t) (run_provider provider request_id answer_id r).
Proof.
  intros Hr. unfold run_provider. apply emits_bind; [by apply emits_perform|]. intros run.
  apply emits_no_chat. emits_tac; apply for_chunks_no_chat; intros []; cbn; emits_tac.
Qed.

Lemma remote_rounds_egress request settings t provider answer_id payload digest fuel round extra seen :
  may_disclose request settings t provider payload -> payload_digest payload = Ok digest ->
  Forall refusal extra ->
  emits (egress request settings t)
    (agent_rounds hash_order from_str fuel round provider (in_request_id request) answer_id []
       (build_messages (Some payload) request ++ extra) (bound_tokens config (in_max_tokens request))
       (SanitizedRemote digest) seen).
Proof.
  intros Hmay Hdigest. revert round extra seen.
  induction fuel as [|fuel IH]; intros round extra seen Hextra; cbn [agent_rounds]; [apply emits_lift|].
  apply emits_bind.
  { apply run_provider_egress. intros _. exists payload. split; [done|]. split; cbn; eauto. }
  intros output. destruct (po_tool_calls output) as [|call calls]; [apply emits_ret|].
  eapply emits_bind_ensures; [apply emits_no_chat, handle_calls_no_chat|apply handle_calls_refuses|].
  intros _ [messages seen'] _ (more & Hm & Hmore). cbn [fst] in Hm. subst messages.
  cbv beta iota. rewrite <-!app_assoc. apply IH. apply Forall_app. split; [done|]. constructor; [constructor|done].
Qed.

Lemma local_rounds_egress request settings t provider fuel round request_id answer_id definitions
    messages max_tokens boundary seen :
  pv_is_local provider = true ->
  emits (egress request settings t)
    (agent_rounds hash_order from_str fuel round provider request_id answer_id definitions messages
       max_tokens boundary seen).
Proof.
  intros Hl. revert round messages seen.
  induction fuel as [|fuel IH]; intros round messages seen; cbn [agent_rounds]; [apply emits_lift|].
  apply emits_bind; [apply run_provider_egress; congruence|].
  intros output. destruct (po_tool_calls output); [apply emits_ret|].
  apply emits_bind; [apply emits_no_chat, handle_calls_no_chat|]. intros []. apply IH.
Qed.

Lemma answer_egress request settings t candidate fallback_reason last_error :
  candidate_ok request settings t candidate ->
  emits (egress request settings t)
    (answer config hash_order from_str request candidate fallback_reason last_error).
Proof.
  intros Hc. unfold answer, candidate_ok in *.
  apply emits_bind; [by apply emits_perform|intros answer_id].
  apply emits_bind; [apply emits_no_chat; unfold announce; emits_tac|intros _].
  apply emits_bind; [by apply emits_perform|intros status].
  apply emits_bind; [by apply emits_perform|intros _].
  eapply emits_bind_ensures with (F := fun _ boundary _ => match rc_payload candidate with
    | Some payload => exists digest, payload_digest payload = Ok digest /\ boundary = SanitizedRemote digest
    | None => boundary = BoundaryLocalOnly end).
  { unfold boundary_of. emits_tac. }
  { unfold boundary_of. intros env h s b. destruct (rc_payload candidate) as [payload|]; [|by intros [= <-]].
    destruct (payload_digest payload); [|done..]. intros [= <-]. eauto. }
  intros _ boundary _ Hb. apply emits_bind.
  - apply emits_attempt. unfold run_agent_loop.
    destruct (rc_payload candidate) as [payload|].
    + destruct Hc as [Hl Hmay]. destruct Hb as (digest & Hd & ->). rewrite Hl.
      eapply emits_bind_ensures; [apply emits_ret|apply ensures_ret|]. intros _ definitions _ [-> _].
      rewrite <-(app_nil_r (build_messages _ _)). by apply remote_rounds_egress.
    + rewrite Hc. apply emits_bind; [by apply emits_perform|]. intros definitions.
      by apply local_rounds_egress.
  - intros r. apply emits_no_chat. by destruct r; emits_tac.
Qed.

Lemma try_candidates_egress request settings t candidates fallback_reason last_error :
  Forall (candidate_ok request settings t) candidates ->
  emits (egress request settings t)
    (try_candidates config hash_order from_str request candidates fallback_reason last_error).
Proof.
  intros Hall. revert fallback_reason last_error.
  induction Hall as [|candidate rest Hc Hall IH]; intros fallback_reason last_error;
    cbn [try_candidates]; [apply emits_no_chat; emits_tac|].
  apply emits_bind; [by apply emits_perform|]. intros [].
  { apply emits_no_chat. emits_tac. }
  apply emits_bind; [unfold skip_candidate; apply emits_no_chat; by emits_tac|].
  intros [error|]; [apply IH|].
  apply emits_bind; [by apply answer_egress|]. intros [error|]; [|by apply emits_perform].
  destruct (bool_decide _); [apply emits_no_chat; emits_tac|].
  apply emits_bind; [by apply emits_perform|]. intros _. apply IH.
Qed.

Lemma build_route_no_chat request settings : emits no_chat (build_route config providers request settings).
Proof. unfold build_route. cbn zeta. set (target := _ ≫= _). clearbody target. by emits_tac. Qed.

Lemma candidate_ok_mono request settings t t' c :
  t ⊆ t' -> candidate_ok request settings t c -> candidate_ok request settings t' c.
Proof.
  unfold candidate_ok. destruct (rc_payload c); [|done]. intros Ht [Hl [H1 H2 H3 H4]].
  split; [done|]. split; try done. intros Ha. apply Ht. auto.
Qed.

Lemma effect_after_send {E B} event (k : unit -> reff E B) env h :
  Exists (fun e => ~ no_chat e) (trace ((send event ≫= k) env h tt)) ->
  exists u, Exists (fun e => ~ no_chat e) (trace (k u env (h ++ [Event unit (Send event) u]) tt)) /\
    trace ((send event ≫= k) env h tt)
      = Event unit (Send event) u :: trace (k u env (h ++ [Event unit (Send event) u]) tt).
Proof. by apply effect_after_perform. Qed.

(** A run that calls a provider: the settings it read, the route and the rest. *)
Lemma chat_significant request env h :
  Exists (fun e => ~ no_chat e) (trace (chat config providers hash_order from_str request env h tt)) ->
  exists settings before rest,
    trace (chat config providers hash_order from_str request env h tt) = before ++ rest /\
    Event _ GetSettings settings ∈ before /\ Forall no_chat before /\
    Forall (egress request settings before) rest.
Proof.
  unfold chat. destruct (validate_chat request) as [[]|message|]; intros H.
  2: { exfalso. revert H. apply emits_not_Exists. emits_tac. }
  2: by apply Exists_nil in H.
  apply effect_after_send in H as (u1 & H & ->).
  apply effect_after_send in H as (u2 & H & ->).
  apply effect_after_perform in H as (settings & H & ->); [|done].
  apply effect_after_step in H as (route & t & Hroute & Ht & Hno & -> & _ & H).
  3: { intros env' h' []. by destruct (final _). }
  2: { apply emits_attempt, build_route_no_chat. }
  destruct route as [plan|event|].
  2: { exfalso. revert H. apply emits_not_Exists. emits_tac. }
  2: by apply Exists_nil in H.
  eapply (ensures_attempt Never) in Hroute; [|apply route_ensures]. cbn in Hroute.
  destruct Hroute as [Hcand _]. rewrite <-Ht in Hcand.
  match goal with |- context [Event unit ?a u1 :: Event unit ?b u2 :: Event _ _ settings :: t ++ ?r] =>
    exists settings, (Event unit a u1 :: Event unit b u2 :: Event _ GetSettings settings :: t), r end.
  split; [done|]. split; [set_solver|]. split; [by repeat constructor|].
  apply try_candidates_egress. eapply Forall_impl; [exact Hcand|].
  intros c. apply candidate_ok_mono. set_solver.
Qed.
End specification.

(** C2 Nothing reaches a remote provider without authority.  Whenever [chat] calls a
    provider that is not local, the policy is not [LocalOnly]; the payload is the
    question and context as [sanitize] leaves them; it is limited to the categories of
    the settings read before, and not sensitive or restricted, unless the policy is
    [AskBeforeRemote], and then a consent for this very payload was consumed before;
    and the request holds the payload's messages, the digest of that payload as its
    boundary, no tool, and otherwise only the provider's own tool calls with fixed
    refusals. *)
Theorem remote_disclosure_is_authorized `{C : PrivacyCrypto} config providers hash_order from_str
    request env h before p r run after :
  honest_registry providers ->
  trace (chat config providers hash_order from_str request env h tt)
    = before ++ Event _ (ProviderChat p r) run :: after ->
  pv_is_local p = false ->
  exists settings payload, Event _ GetSettings settings ∈ before /\
    may_disclose config request settings before p payload /\ carries_only config request payload r.
Proof.
  intros Hreg Ht Hl.
  destruct (chat_significant config providers hash_order from_str Hreg request env h)
    as (settings & b & rest & Heq & Hget & Hno & Hegress).
  { rewrite Ht. apply Exists_app. right. left. intros []. }
  rewrite Heq in Ht. eapply split_at_significant in Ht as (b' & -> & ->); [|exact Hno|by intros []].
  apply Forall_app in Hegress as [_ [He _]%Forall_cons]. destruct (He Hl) as (payload & Hmay & Hco).
  exists settings, payload. split; [set_solver|]. split; [|done].
  destruct Hmay as [H1 H2 H3 H4]. split; try done. intros Ha. apply elem_of_app. auto.
Qed.

(** ** How many provider calls *)

Definition is_chat (e : event router_io) : bool :=
  match ev_call e with ProviderChat _ _ => true | _ => false end.

Lemma costs_no_chat {E A} (m : reff E A) : emits no_chat m -> costs is_chat 0 m.
Proof.
  intros Hm. apply costs_emits. intros env h s. eapply Forall_impl; [apply Hm|].
  intros e. unfold no_chat, is_chat. by destruct (ev_call e).
Qed.

Section bound.
Context `{C : PrivacyCrypto} (config : RuntimeConfig) (providers : ProviderRegistry)
  (hash_order : list string -> list string) (from_str : string -> result string Value).

#[local] Hint Resolve send_no_chat send_done_no_chat send_cancelled_no_chat : sentia.

Lemma run_provider_costs provider request_id answer_id r :
  costs is_chat 1 (run_provider provider request_id answer_id r).
Proof.
  unfold run_provider. apply (costs_bind _ 1 0); [apply costs_perform|]. intros run.
  apply costs_no_chat. emits_tac; apply for_chunks_no_chat; intros []; cbn; emits_tac.
Qed.

Lemma agent_rounds_costs fuel round provider request_id answer_id definitions messages max_tokens
    boundary seen :
  costs is_chat fuel (agent_rounds hash_order from_str fuel round provider request_id answer_id
                        definitions messages max_tokens boundary seen).
Proof.
  revert round messages seen.
  induction fuel as [|fuel IH]; intros round messages seen; cbn [agent_rounds].
  { apply costs_no_chat. emits_tac. }
  apply (costs_bind _ 1 fuel); [apply run_provider_costs|]. intros output.
  destruct (po_tool_calls output).
  { eapply costs_mono; [|apply costs_no_chat]; [lia|emits_tac]. }
  apply (costs_bind _ 0 fuel); [apply costs_no_chat, handle_calls_no_chat|]. intros []. apply IH.
Qed.

Lemma answer_costs request candidate fallback_reason last_error :
  costs is_chat (Z.to_nat (cf_max_agent_rounds config))
    (answer config hash_order from_str request candidate fallback_reason last_error).
Proof.
  unfold answer. set (n := Z.to_nat _).
  apply (costs_bind _ 0 n); [apply costs_no_chat; by emits_tac|intros answer_id].
  apply (costs_bind _ 0 n); [apply costs_no_chat; unfold announce; emits_tac|intros _].
  apply (costs_bind _ 0 n); [apply costs_no_chat; by emits_tac|intros status].
  apply (costs_bind _ 0 n); [apply costs_no_chat; emits_tac|intros _].
  apply (costs_bind _ 0 n); [apply costs_no_chat; unfold boundary_of; emits_tac|intros boundary].
  rewrite <-(Nat.add_0_r n). apply costs_bind.
  - apply costs_attempt. unfold run_agent_loop. apply (costs_bind _ 0 n); [|intros; apply agent_rounds_costs].
    apply costs_no_chat. by emits_tac.
  - intros r. apply costs_no_chat. by destruct r; emits_tac.
Qed.

Lemma try_candidates_costs request candidates fallback_reason last_error :
  costs is_chat (length candidates * Z.to_nat (cf_max_agent_rounds config))
    (try_candidates config hash_order from_str request candidates fallback_reason last_error).
Proof.
  revert fallback_reason last_error.
  induction candidates as [|candidate rest IH]; intros fallback_reason last_error;
    cbn [try_candidates length Nat.mul]; [apply costs_no_chat; emits_tac|].
  set (n := Z.to_nat _) in *.
  assert (forall E (m : reff E unit), emits no_chat m -> costs is_chat (length rest * n) m) as Hquiet.
  { intros E m Hm. eapply costs_mono; [|by apply costs_no_chat]. lia. }
  apply (costs_bind _ 0); [apply costs_no_chat; by emits_tac|]. intros [].
  { eapply costs_mono; [apply Nat.le_add_l|apply Hquiet; emits_tac]. }
  apply (costs_bind _ 0); [apply costs_no_chat; unfold skip_candidate; by emits_tac|].
  intros [error|]; [eapply costs_mono; [apply Nat.le_add_l|apply IH]|].
  apply costs_bind; [apply answer_costs|]. intros [error|]; [|apply Hquiet; emits_tac].
  destruct (bool_decide _); [apply Hquiet; emits_tac|].
  apply (costs_bind _ 0); [apply costs_no_chat; emits_tac|]. intros _. apply IH.
Qed.
End bound.

(** One request causes at most two provider conversations of [max_agent_rounds]
    rounds each, whatever the providers answer: a model that keeps asking for tools
    cannot keep the router busy. *)
Theorem provider_calls_are_bounded `{C : PrivacyCrypto} config providers hash_order from_str request
    env h :
  honest_registry providers ->
  (count_events is_chat (trace (chat config providers hash_order from_str request env h tt))
   <= 2 * Z.to_nat (cf_max_agent_rounds config))%nat.
Proof.
  intros Hreg. revert env h. set (n := (2 * _)%nat).
  enough (costs is_chat n (chat config providers hash_order from_str request)) as H by (intros; apply H).
  unfold chat. destruct (validate_chat request) as [[]|message|].
  2,3: eapply costs_mono; [|apply costs_no_chat]; [lia|].
  2: apply emits_bind; [apply send_no_chat|intros _; apply send_done_no_chat].
  2: apply emits_lift.
  apply (costs_bind _ 0 n); [apply costs_no_chat, send_no_chat|intros _].
  apply (costs_bind _ 0 n); [apply costs_no_chat, send_no_chat|intros _].
  apply (costs_bind _ 0 n); [apply costs_no_chat; by emits_tac|intros settings].
  apply (costs_bind_ensures _ 0 n _ _ (fun _ r _ => forall plan, r = Ok plan -> (length (rp_candidates plan) <= 2)%nat)).
  - apply costs_no_chat, emits_attempt, build_route_no_chat.
  - eapply ensures_mono; [|by eapply ensures_attempt, route_ensures]. cbn.
    intros _ [plan| |] t Hr p [= <-]. apply Hr.
  - intros _ [plan|event|] _ Hp.
    + eapply costs_mono; [|apply try_candidates_costs]. specialize (Hp plan eq_refl).
      subst n. by apply Nat.mul_le_mono_r.
    + eapply costs_mono; [|apply costs_no_chat, emits_bind]; [lia|apply send_no_chat|].
      intros _. apply send_done_no_chat.
    + eapply costs_mono; [|apply costs_no_chat, emits_lift]. lia.
Qed.

(** ** Tool calls *)

Section tools.
Context `{C : PrivacyCrypto} (config : RuntimeConfig) (providers : ProviderRegistry)
  (hash_order : list string -> list string) (from_str : string -> result string Value).

(** The conversation with one model, as its events tell it: the definitions the registry
    returned when it began, the calls the model asked for since, in order, and the
    identifiers under which the registry was called. *)
Record Conversation := { cv_definitions : list ModelToolDefinition; cv_asked : list BrokerToolCall; cv_invoked : gset string }.

Definition conversation_step (cv : Conversation) (e : event router_io) : Conversation :=
  match e with
  | Event A c r =>
      match c in router_io A return A -> Conversation with
      | ToolDefinitions => fun definitions => {| cv_definitions := definitions; cv_asked := []; cv_invoked := ∅ |}
      | ProviderChat _ _ => fun run =>
          match run_end run with
          | EndReturned (Ok output) =>
              {| cv_definitions := cv_definitions cv; cv_asked := cv_asked cv ++ po_tool_calls output; cv_invoked := cv_invoked cv |}
          | _ => cv
          end
      | InvokeTool id _ _ => fun _ =>
          {| cv_definitions := cv_definitions cv; cv_asked := cv_asked cv; cv_invoked := {[id]} ∪ cv_invoked cv |}
      | _ => fun _ => cv
      end r
  end.

Definition conversation_from (cv : Conversation) (t : list (event router_io)) : Conversation := fold_left conversation_step t cv.
Definition conversation : list (event router_io) -> Conversation :=
  conversation_from {| cv_definitions := []; cv_asked := []; cv_invoked := ∅ |}.

(** The identifiers calls use up: those of action proposals stay free. *)
Definition proposal (definitions : list ModelToolDefinition) (c : BrokerToolCall) : bool :=
  bool_decide (mt_class <$> find_definition (tc_name c) definitions = Some ActionProposal).
Definition used_ids (definitions : list ModelToolDefinition) (calls : list BrokerToolCall) : gset string :=
  list_to_set (map tc_id (List.filter (fun c => negb (proposal definitions c)) calls)).

(** A call of the registry that follows from the conversation: some call the model asked for,
    checked against its definitions and the identifiers of all the calls asked for
    before it, under an identifier the registry was not called with. *)
Definition follows_conversation (cv : Conversation) (id name : string) (arguments : Value) : Prop :=
  id ∉ cv_invoked cv /\
  exists earlier c later, cv_asked cv = earlier ++ c :: later /\ tc_id c = id /\ tc_name c = name /\
    checked_call hash_order from_str (cv_definitions cv) c (used_ids (cv_definitions cv) earlier) arguments.

(** Every tool call of a trace that goes on from a conversation follows from it. *)
Definition tools_checked (cv : Conversation) (t : list (event router_io)) : Prop :=
  forall before id name arguments r after, t = before ++ Event _ (InvokeTool id name arguments) r :: after ->
    follows_conversation (conversation_from cv before) id name arguments.

Definition no_tool (e : event router_io) : Prop :=
  match ev_call e with InvokeTool _ _ _ => False | _ => True end.
(** Neither a tool call nor anything else the conversation is told by. *)
Definition beside (e : event router_io) : Prop :=
  match ev_call e with InvokeTool _ _ _ | ProviderChat _ _ | ToolDefinitions => False | _ => True end.

Lemma tools_checked_app cv t u :
  tools_checked cv t -> tools_checked (conversation_from cv t) u -> tools_checked cv (t ++ u).
Proof.
  intros Ht Hu before id name arguments r after Heq.
  apply app_eq_app in Heq as (k & [[-> Hk]|[-> Hk]]).
  - destruct k as [|e k]; cbn in Hk.
    + rewrite app_nil_r in Hu. by apply (Hu [] id name arguments r after).
    + injection Hk as <- ->. by eapply Ht.
  - unfold conversation_from. rewrite fold_left_app. by apply (Hu k id name arguments r after).
Qed.

Lemma tools_checked_none cv t : Forall no_tool t -> tools_checked cv t.
Proof.
  intros Ht before id name arguments r after ->. apply Forall_app in Ht as [_ [[] _]%Forall_cons].
Qed.

Lemma conversation_beside cv t : Forall beside t -> conversation_from cv t = cv.
Proof.
  intros Ht. induction Ht as [|[A c r] t He _ IH]; [done|]. cbn [conversation_from fold_left].
  replace (conversation_step cv (Event A c r)) with cv; [done|]. unfold beside in He. cbn in *. by destruct c.
Qed.

(** From the conversation [cv] the computation calls tools as it should and leaves the
    conversation in a state of [F]. *)
Definition talks {E A} (cv : Conversation) (m : reff E A) (F : A -> Conversation -> Prop) : Prop :=
  forall env h, tools_checked cv (trace (m env h tt)) /\
    forall a, value (m env h tt) = Ok a -> F a (conversation_from cv (trace (m env h tt))).

Lemma talks_bind {E A B} cv (m : reff E A) (k : A -> reff E B) F G :
  talks cv m F -> (forall a cv', F a cv' -> talks cv' (k a) G) -> talks cv (m ≫= k) G.
Proof.
  intros Hm Hk env h. destruct (Hm env h) as [Ht HF].
  destruct (run_bind_cases m k env h tt) as [(a & Ha & ->)|(_ & -> & _ & Hno)]; cbn [trace value].
  - destruct (final (m env h tt)). destruct (Hk a _ (HF a Ha) env (h ++ trace (m env h tt))) as [Ht' HG].
    split; [by apply tools_checked_app|]. intros b Hb. unfold conversation_from. rewrite fold_left_app. by apply HG.
  - split; [done|]. intros b Hb. by destruct (Hno b).
Qed.

Lemma talks_beside {E A} cv (m : reff E A) (F : A -> Conversation -> Prop) : emits beside m -> (forall a, F a cv) -> talks cv m F.
Proof.
  intros Hm HF env h. specialize (Hm env h tt). rewrite conversation_beside by done. split; [|by intros a _].
  apply tools_checked_none. eapply Forall_impl; [done|]. intros e. unfold beside, no_tool. by destruct (ev_call e).
Qed.

Lemma talks_lift {E A} cv (r : result E A) (F : A -> Conversation -> Prop) : (forall a, r = Ok a -> F a cv) -> talks cv (lift r) F.
Proof. intros HF env h. split; [by apply tools_checked_none|]. exact HF. Qed.

Lemma talks_ret {E A} cv (a : A) (F : A -> Conversation -> Prop) : F a cv -> talks (E := E) cv (mret a) F.
Proof. intros HF env h. split; [by apply tools_checked_none|]. by intros b [= <-]. Qed.

Definition checks_tools {E A} (m : reff E A) : Prop := forall cv env h, tools_checked cv (trace (m env h tt)).

Lemma checks_bind {E A B} (m : reff E A) (k : A -> reff E B) :
  checks_tools m -> (forall a, checks_tools (k a)) -> checks_tools (m ≫= k).
Proof.
  intros Hm Hk cv env h. destruct (run_bind_cases m k env h tt) as [(a & _ & ->)|(_ & -> & _)]; [|apply Hm].
  cbn [trace]. destruct (final (m env h tt)). apply tools_checked_app; [apply Hm|apply Hk].
Qed.

Lemma checks_none {E A} (m : reff E A) : emits no_tool m -> checks_tools m.
Proof. intros Hm cv env h. apply tools_checked_none, Hm. Qed.

Lemma send_no_tool {E} e : emits no_tool (send (E := E) e).
Proof. by apply emits_perform. Qed.

Lemma checks_send {E} e : checks_tools (send (E := E) e).
Proof. apply checks_none, send_no_tool. Qed.
#[local] Hint Resolve send_no_tool : sentia.

Lemma for_chunks_beside f chunks : (forall c, emits beside (f c)) -> emits beside (for_chunks f chunks).
Proof. intros Hf. induction chunks; cbn [for_chunks]; emits_tac; auto. Qed.

Lemma run_provider_talks cv provider request_id answer_id request :
  talks cv (run_provider provider request_id answer_id request) (fun output cv' =>
    cv' = {| cv_definitions := cv_definitions cv; cv_asked := cv_asked cv ++ po_tool_calls output; cv_invoked := cv_invoked cv |}).
Proof.
  unfold run_provider. eapply (talks_bind _ _ _ (fun run cv' => cv' = conversation_step cv (Event _ (ProviderChat provider request) run))).
  { intros env h. split; [apply tools_checked_none; by repeat constructor|]. by intros run [= <-]. }
  intros run cv' ->. eapply (talks_bind _ _ _ (fun _ cv' => cv' = conversation_step cv (Event _ (ProviderChat provider request) run))).
  { apply talks_beside; [|done]. apply for_chunks_beside. intros []; cbn; first [apply emits_ret|by apply emits_perform]. }
  intros _ cv' ->. eapply (talks_bind _ _ _ (fun output cv' => cv' = {| cv_definitions := cv_definitions cv;
    cv_asked := cv_asked cv ++ po_tool_calls output; cv_invoked := cv_invoked cv |})).
  { apply talks_lift. intros output Ho. unfold conversation_step. cbn. destruct (run_end run) as [| |r]; [done|done|]. cbn in Ho. rewrite Ho. done. }
  intros output ? ->. set (cv' := {| cv_definitions := _; cv_asked := _; cv_invoked := _ |}).
  eapply (talks_bind _ _ _ (fun _ c => c = cv')).
  { apply talks_beside; [|done]. apply for_chunks_beside. intros []; cbn; first [apply emits_ret|by apply emits_perform]. }
  intros _ ? ->. by apply talks_ret.
Qed.

Lemma used_ids_app definitions calls more : used_ids definitions (calls ++ more) = used_ids definitions calls ∪ used_ids definitions more.
Proof. unfold used_ids. by rewrite List.filter_app, List.map_app, list_to_set_app_L. Qed.

Lemma used_ids_one definitions c : used_ids definitions [c] = if proposal definitions c then ∅ else {[tc_id c]}.
Proof. unfold used_ids. cbn. destruct (proposal definitions c); cbn; [done|]. by rewrite union_empty_r_L. Qed.

(** Handling calls, of which [earlier] were asked for before them. *)
Lemma handle_calls_talks cv earlier calls request_id messages :
  cv_asked cv = earlier ++ calls -> cv_invoked cv ⊆ used_ids (cv_definitions cv) earlier ->
  talks cv (handle_calls hash_order from_str (cv_definitions cv) request_id calls messages (used_ids (cv_definitions cv) earlier))
    (fun r cv' => cv_definitions cv' = cv_definitions cv /\ cv_asked cv' = cv_asked cv /\
       r.2 = used_ids (cv_definitions cv) (cv_asked cv) /\ cv_invoked cv' ⊆ r.2).
Proof.
  revert cv earlier messages. induction calls as [|call calls IH]; intros cv earlier messages Hasked Hinvoked; cbn [handle_calls].
  { apply talks_ret. cbn. by rewrite Hasked, app_nil_r. }
  assert (cv_asked cv = (earlier ++ [call]) ++ calls) as Hasked' by (by rewrite <-app_assoc).
  pose proof (used_ids_app (cv_definitions cv) earlier [call]) as Hused. rewrite used_ids_one in Hused. unfold proposal in Hused.
  destruct (bool_decide _) eqn:Hclass.
  { rewrite union_empty_r_L in Hused. eapply (talks_bind _ _ _ (fun _ cv' => cv' = cv)).
    - apply talks_beside; [by apply emits_perform|done].
    - intros _ cv' ->. rewrite <-Hused. apply IH; [done|by rewrite Hused]. }
  eapply (talks_bind _ _ _ (fun r cv' => r.1 = used_ids (cv_definitions cv) (earlier ++ [call]) /\
    cv_definitions cv' = cv_definitions cv /\ cv_asked cv' = cv_asked cv /\ cv_invoked cv' ⊆ r.1)).
  - rewrite Hused. unfold validate_and_invoke. destruct (validate_call _ _ _ _ _) as [arguments|e|] eqn:Hv.
    + apply validate_call_Ok in Hv. intros env h. rewrite run_perform_ret. cbn [trace value]. split.
      * intros [|e before] id name arguments' r after Heq; [|by destruct before].
        cbn in Heq. injection Heq as <- <- <- _ _. split; [|by exists earlier, call, calls].
        pose proof (ck_fresh _ _ _ _ _ _ Hv). cbn. set_solver.
      * intros r [= <-]. cbn. split; [set_solver|]. split; [done|]. split; [done|]. set_solver.
    + apply talks_ret. cbn. split; [set_solver|]. split; [done|]. split; [done|]. set_solver.
    + by apply talks_lift.
  - intros [seen r] [ds asked invoked] (Hs & Hd & Ha & Hi). cbn in Hs, Hd, Ha, Hi. subst seen ds asked.
    set (cv' := {| cv_definitions := cv_definitions cv; cv_asked := cv_asked cv; cv_invoked := invoked |}).
    destruct r as [result|error|]; [| |by apply talks_lift].
    + eapply (talks_bind _ _ _ (fun _ c => c = cv')); [apply talks_beside; [by apply emits_perform|done]|]. intros _ ? ->. by apply (IH cv').
    + by apply (IH cv').
Qed.

Lemma agent_rounds_talks fuel round provider request_id answer_id cv messages max_tokens boundary :
  cv_invoked cv ⊆ used_ids (cv_definitions cv) (cv_asked cv) ->
  talks cv (agent_rounds hash_order from_str fuel round provider request_id answer_id (cv_definitions cv) messages
       max_tokens boundary (used_ids (cv_definitions cv) (cv_asked cv))) (fun _ _ => True).
Proof.
  revert round messages cv. induction fuel as [|fuel IH]; intros round messages cv Hi; cbn [agent_rounds]; [by apply talks_lift|].
  eapply talks_bind; [apply run_provider_talks|]. intros output ? ->.
  destruct (po_tool_calls output) as [|call calls] eqn:Hcalls; [by apply talks_ret|].
  pose (cv' := {| cv_definitions := cv_definitions cv; cv_asked := cv_asked cv ++ call :: calls; cv_invoked := cv_invoked cv |}).
  eapply talks_bind; [apply (handle_calls_talks cv' (cv_asked cv) (call :: calls)); [done|exact Hi]|].
  intros [messages' seen] cv'' (Hd & Ha & Hs & Hi'). cbn [snd] in Hs, Hi'. subst seen. rewrite <-Ha in Hi' |- *.
  change (cv_definitions cv) with (cv_definitions cv'). rewrite <-Hd in Hi' |- *. by apply IH.
Qed.

(** Without definitions no tool is called. *)
Lemma handle_calls_no_tool request_id calls messages seen :
  emits no_tool (handle_calls hash_order from_str [] request_id calls messages seen).
Proof.
  revert messages seen. induction calls as [|call calls IH]; intros messages seen; cbn [handle_calls]; [apply emits_ret|].
  rewrite bool_decide_false by done. apply emits_bind.
  - unfold validate_and_invoke. destruct (validate_call _ _ _ _ _) as [arguments| |] eqn:Hv; [|apply emits_ret|apply emits_lift].
    exfalso. apply validate_call_Ok in Hv. by destruct (ck_tool _ _ _ _ _ _ Hv) as (d & ? & _).
  - intros [s [result|error|]]; [|apply IH|apply emits_lift]. apply emits_bind; [apply send_no_tool|]. intros _. apply IH.
Qed.

Lemma remote_rounds_no_tool fuel round provider request_id answer_id messages max_tokens boundary seen :
  emits no_tool (agent_rounds hash_order from_str fuel round provider request_id answer_id [] messages max_tokens boundary seen).
Proof.
  revert round messages seen. induction fuel as [|fuel IH]; intros round messages seen; cbn [agent_rounds]; [apply emits_lift|].
  apply emits_bind.
  { unfold run_provider.
    assert (forall f chunks, (forall c, emits no_tool (f c)) -> emits no_tool (for_chunks f chunks)) as Hfor.
    { intros f chunks Hf. induction chunks; cbn [for_chunks]; emits_tac; auto. }
    emits_tac; try done; apply Hfor; intros []; cbn; first [apply emits_ret|apply send_no_tool]. }
  intros output. destruct (po_tool_calls output); [apply emits_ret|].
  apply emits_bind; [apply handle_calls_no_tool|]. intros []. apply IH.
Qed.

Lemma run_agent_loop_checks provider request_id answer_id messages max_tokens boundary :
  checks_tools (run_agent_loop config hash_order from_str provider request_id answer_id messages
                  max_tokens boundary).
Proof.
  unfold run_agent_loop. destruct (pv_is_local provider).
  - intros cv env h. eapply (talks_bind cv _ _ (fun definitions cv' =>
      cv' = {| cv_definitions := definitions; cv_asked := []; cv_invoked := ∅ |})).
    { intros env' h'. split; [apply tools_checked_none; by repeat constructor|]. by intros definitions [= <-]. }
    intros definitions cv' ->.
    by apply (agent_rounds_talks _ 0 provider request_id answer_id {| cv_definitions := definitions; cv_asked := []; cv_invoked := ∅ |}).
  - apply checks_none. eapply emits_bind_ensures; [apply emits_ret|apply ensures_ret|].
    intros _ definitions _ [-> _]. apply remote_rounds_no_tool.
Qed.

Lemma answer_checks request candidate fallback_reason last_error :
  checks_tools (answer config hash_order from_str request candidate fallback_reason last_error).
Proof.
  unfold answer. repeat (apply checks_bind; [|intros ?]).
  all: try (apply checks_none; unfold announce, boundary_of; by emits_tac).
  - intros cv env h. unfold attempt.
    pose proof (run_agent_loop_checks (rc_provider candidate) (in_request_id request) a
      (build_messages (rc_payload candidate) request) (bound_tokens config (in_max_tokens request)) a3
      cv env h) as Hrun.
    by destruct (value _).
Qed.

Lemma try_candidates_checks request candidates fallback_reason last_error :
  checks_tools (try_candidates config hash_order from_str request candidates fallback_reason last_error).
Proof.
  revert fallback_reason last_error.
  induction candidates as [|candidate rest IH]; intros fallback_reason last_error;
    cbn [try_candidates]; [apply checks_bind; intros; apply checks_send|].
  apply checks_bind; [apply checks_none; by emits_tac|]. intros [].
  { apply checks_bind; intros; apply checks_send. }
  apply checks_bind; [apply checks_none; unfold skip_candidate; by emits_tac|].
  intros [error|]; [apply IH|]. apply checks_bind; [apply answer_checks|].
  intros [error|]; [|apply checks_send]. destruct (bool_decide _).
  { apply checks_bind; intros; apply checks_send. }
  apply checks_bind; [apply checks_send|]. intros _. apply IH.
Qed.

(** C21 Every tool call [chat] makes for a model was checked.  It is one of the calls the
    model's answers asked for since the registry returned the definitions of this
    conversation, a read-only tool of those definitions; its identifier is bounded and not that
    of a call the model asked for earlier in the conversation, whether that one was carried
    out or refused, action proposals apart, nor one the registry was called with; its
    arguments are bounded, parsed and were admitted by that tool's schema; and no forbidden
    path is among them. *)
Theorem tool_calls_are_checked request env h before id name arguments r after :
  trace (chat config providers hash_order from_str request env h tt)
    = before ++ Event _ (InvokeTool id name arguments) r :: after ->
  let cv := conversation before in
  id ∉ cv_invoked cv /\
  exists earlier c later, cv_asked cv = earlier ++ c :: later /\ tc_id c = id /\ tc_name c = name /\
    checked_call hash_order from_str (cv_definitions cv) c (used_ids (cv_definitions cv) earlier) arguments.
Proof.
  revert before id name arguments r after.
  enough (checks_tools (chat config providers hash_order from_str request)) as H by apply H.
  unfold chat. destruct (validate_chat request) as [[]|message|];
    [|apply checks_bind; intros; apply checks_send|apply checks_none, emits_lift].
  do 2 (apply checks_bind; [apply checks_send|intros _]).
  apply checks_bind; [apply checks_none; by emits_tac|intros settings].
  apply checks_bind.
  { apply checks_none, emits_attempt. unfold build_route. cbn zeta. set (target := _ ≫= _).
    clearbody target. by emits_tac. }
  intros [plan|event|]; [apply try_candidates_checks|apply checks_bind; intros; apply checks_send|].
  apply checks_none, emits_lift.
Qed.
End tools.

(** ** Witnesses *)

Definition demo_chat (policy : RoutingPolicy) : list (event router_io) :=
  trace (chat (C := demo_crypto) RuntimeConfig_default demo_providers id demo_from_str
           (demo_request policy) demo_world [] tt).

Lemma demo_honest : honest_registry demo_providers.
Proof.
  split; [apply register_remote_wf, with_local_wf|]. by intros p [= <-].
Qed.

Lemma remote_disclosure_is_authorized_witness :
  exists before r run after settings payload,
    demo_chat RemotePreferred = before ++ Event _ (ProviderChat demo_remote r) run :: after /\
    Event _ GetSettings settings ∈ before /\ carries_only (C := demo_crypto) RuntimeConfig_default
      (demo_request RemotePreferred) payload r.
Proof.
  assert (exists before r run after,
    demo_chat RemotePreferred = before ++ Event _ (ProviderChat demo_remote r) run :: after)
    as (before & r & run & after & Ht).
  { exists (take 10 (demo_chat RemotePreferred)). vm_compute. do 3 eexists. reflexivity. }
  destruct (remote_disclosure_is_authorized (C := demo_crypto) RuntimeConfig_default demo_providers id
    demo_from_str (demo_request RemotePreferred) demo_world [] before demo_remote r run after
    demo_honest Ht eq_refl) as (settings & payload & Hs & _ & Hc).
  exists before, r, run, after, settings, payload. split; [exact Ht|]. split; [exact Hs|exact Hc].
Defined.

Lemma provider_calls_are_bounded_witness :
  (count_events is_chat (demo_chat LocalOnly) <= 2 * Z.to_nat (cf_max_agent_rounds RuntimeConfig_default))%nat.
Proof.
  apply (provider_calls_are_bounded (C := demo_crypto) RuntimeConfig_default demo_providers id
    demo_from_str (demo_request LocalOnly) demo_world []). apply demo_honest.
Defined.

Lemma tool_calls_are_checked_witness :
  exists before r after,
    demo_chat LocalOnly = before ++ Event _ (InvokeTool "call-1" "cpu_status" (VObject [])) r :: after /\
    exists earlier c later, cv_asked (conversation before) = earlier ++ c :: later /\ tc_id c = "call-1"%string.
Proof.
  assert (exists before r after, demo_chat LocalOnly
    = before ++ Event _ (InvokeTool "call-1" "cpu_status" (VObject [])) r :: after)
    as (before & r & after & Ht).
  { exists (take 11 (demo_chat LocalOnly)). vm_compute. do 2 eexists. reflexivity. }
  destruct (tool_calls_are_checked (C := demo_crypto) RuntimeConfig_default demo_providers id
    demo_from_str (demo_request LocalOnly) demo_world [] before "call-1" "cpu_status" (VObject []) r
    after Ht) as (_ & earlier & c & later & Hasked & Hid & _).
  exists before, r, after. split; [exact Ht|]. exists earlier, c, later. split; [exact Hasked|exact Hid].
Defined.
