(* ===== verification/StreamState.v ===== *)
(** * Serving one request (crates/sentia-router/src/server.rs)

    [decode_request] and [validate_router_request] turn a request frame into work for
    the router; [StreamState] turns the router's events into the frames of the client's
    stream: numbered events, a terminal event and one result. *)

From Stdlib Require Import Ascii String.
From S2P Require Import Prelude RustStr Bounded Contract RouterContract ToolContract SocketContract Effects Chunks RouterApi.

Inductive stream_io : Type -> Type :=
| NextId (prefix : string) : stream_io (BoundedString 64)
| FrameClock : stream_io u64
| SendFrame (frame : JsonlFrame) : stream_io unit.

(** ** Requests *)

Inductive DecodedRequest := DChat (input : ChatInput) | DControl (control : ControlRequest).

Section decoding.
(** [serde_json::from_str] at the two payload types. *)
Context (parse_chat : string -> result string ChatContent)
  (parse_control : string -> result string ControlRequest).

Definition decode_request (request : RouterRequest) : result ContractError DecodedRequest :=
  let mime := as_str (rp_mime_type (rr_payload request)) in
  let content := as_str (rp_content (rr_payload request)) in
  if bool_decide (rr_capability request = Inference) then
    content ← (if String.eqb mime "text/plain" then
                 Ok {| cc_question := content; cc_context := []; cc_max_tokens := None |}
               else if String.eqb mime CHAT_MIME then
                 map_err (fun error => ContractError_new InvalidRequest
                            ("invalid chat payload: " +:+ error) false) (parse_chat content)
               else Err (ContractError_new InvalidRequest
                           "inference payload must be text/plain or the Sentia chat media type" false));
    Ok (DChat {| in_request_id := as_str (rr_request_id request);
                 in_session_id := as_str (rr_session_id request);
                 in_question := cc_question content; in_policy := rr_policy request;
                 in_provider := as_str <$> rr_provider_id request;
                 in_context := cc_context content; in_consent_token := rr_consent_token request;
                 in_max_tokens := cc_max_tokens content; in_provenance := rr_provenance request |})
  else if String.eqb mime CONTROL_MIME then
    control ← map_err (fun error => ContractError_new InvalidRequest
                         ("invalid router control payload: " +:+ error) false) (parse_control content);
    Ok (DControl control)
  else Err (ContractError_new InvalidRequest "unsupported router capability or payload media type" false).
End decoding.

Definition validate_router_request (request : RouterRequest) : result ContractError unit :=
  RouterRequest_validate request;;
  fail_if (is_empty (as_str (rr_request_id request)) || is_empty (as_str (rr_session_id request)))
    (invalid "request_id and session_id must not be empty");;
  fail_if (rp_truncated (rr_payload request))
    (invalid "router does not accept truncated input payloads").

Definition frame_ids (frame : JsonlFrame) : string * string :=
  match frame with
  | FRequest _ frame_id stream_id _ | FEvent _ frame_id stream_id _ | FResult _ frame_id stream_id _
  | FError _ frame_id stream_id _ | FCancel _ frame_id stream_id _ | FCancelAck _ frame_id stream_id _
  | FToolRequest _ frame_id stream_id _ | FToolResult _ frame_id stream_id _ =>
      (as_str frame_id, as_str stream_id)
  end.

Definition id_or_next {S E} (id prefix : string) : eff stream_io S E (BoundedString 64) :=
  match BoundedString_new id with
  | Ok id => mret id
  | _ => perform (NextId prefix)
  end.

Definition send_protocol_error {S E} (frame_id stream_id : string) (error : ContractError)
  : eff stream_io S E unit :=
  frame_id ← id_or_next frame_id "frame";
  stream_id ← id_or_next stream_id "stream";
  perform (SendFrame (FError PROTOCOL_VERSION_V1 frame_id stream_id error)).

(** ** The stream of one request *)

Record StreamState := {
  ss_request_id : RequestId;
  ss_stream_id : StreamId;
  ss_sequence : u64;
  ss_cumulative_bytes : usize;
  ss_current_answer : string;
  ss_control : option ControlResponse;
  ss_error : option ContractError;
  ss_cancelled : bool;
  ss_completed : bool;
  ss_current_status : RequestStatus;
  ss_current_provider : string;
}.

Definition StreamState_new (request_id : RequestId) (stream_id : StreamId) : StreamState :=
  {| ss_request_id := request_id; ss_stream_id := stream_id; ss_sequence := 0;
     ss_cumulative_bytes := 0; ss_current_answer := EmptyString; ss_control := None;
     ss_error := None; ss_cancelled := false; ss_completed := false;
     ss_current_status := Received; ss_current_provider := "local" |}.

Abbreviation seff A := (eff stream_io StreamState ContractError A).

Definition modify (f : StreamState -> StreamState) : seff unit := with_state (fun s => (f s, Ok tt)).
Definition get_state : seff StreamState := with_state (fun s => (s, Ok s)).

Definition set_status (status : RequestStatus) (s : StreamState) : StreamState :=
  {| ss_request_id := ss_request_id s; ss_stream_id := ss_stream_id s; ss_sequence := ss_sequence s;
     ss_cumulative_bytes := ss_cumulative_bytes s; ss_current_answer := ss_current_answer s;
     ss_control := ss_control s; ss_error := ss_error s; ss_cancelled := ss_cancelled s;
     ss_completed := ss_completed s; ss_current_status := status;
     ss_current_provider := ss_current_provider s |}.

Definition set_answer (answer : string) (s : StreamState) : StreamState :=
  {| ss_request_id := ss_request_id s; ss_stream_id := ss_stream_id s; ss_sequence := ss_sequence s;
     ss_cumulative_bytes := ss_cumulative_bytes s; ss_current_answer := answer;
     ss_control := ss_control s; ss_error := ss_error s; ss_cancelled := ss_cancelled s;
     ss_completed := ss_completed s; ss_current_status := ss_current_status s;
     ss_current_provider := ss_current_provider s |}.

Definition set_provider (provider : string) (s : StreamState) : StreamState :=
  {| ss_request_id := ss_request_id s; ss_stream_id := ss_stream_id s; ss_sequence := ss_sequence s;
     ss_cumulative_bytes := ss_cumulative_bytes s; ss_current_answer := ss_current_answer s;
     ss_control := ss_control s; ss_error := ss_error s; ss_cancelled := ss_cancelled s;
     ss_completed := ss_completed s; ss_current_status := ss_current_status s;
     ss_current_provider := provider |}.

Definition set_counters (sequence : u64) (cumulative_bytes : usize) (s : StreamState) : StreamState :=
  {| ss_request_id := ss_request_id s; ss_stream_id := ss_stream_id s; ss_sequence := sequence;
     ss_cumulative_bytes := cumulative_bytes; ss_current_answer := ss_current_answer s;
     ss_control := ss_control s; ss_error := ss_error s; ss_cancelled := ss_cancelled s;
     ss_completed := ss_completed s; ss_current_status := ss_current_status s;
     ss_current_provider := ss_current_provider s |}.

Definition set_outcome (control : option ControlResponse) (error : option ContractError)
    (cancelled completed : bool) (s : StreamState) : StreamState :=
  {| ss_request_id := ss_request_id s; ss_stream_id := ss_stream_id s; ss_sequence := ss_sequence s;
     ss_cumulative_bytes := ss_cumulative_bytes s; ss_current_answer := ss_current_answer s;
     ss_control := control; ss_error := error; ss_cancelled := cancelled; ss_completed := completed;
     ss_current_status := ss_current_status s; ss_current_provider := ss_current_provider s |}.

Definition send_event (status : RequestStatus) (payload : EventPayload) : seff unit :=
  modify (fun s => set_counters (saturating_add U64_MAX (ss_sequence s) 1) (ss_cumulative_bytes s) s);;
  s ← get_state;
  frame_id ← perform (NextId "frame");
  event_id ← perform (NextId "event");
  now ← perform FrameClock;
  perform (SendFrame (FEvent PROTOCOL_VERSION_V1 frame_id (ss_stream_id s)
    {| sv_event_id := event_id; sv_request_id := ss_request_id s; sv_sequence := ss_sequence s;
       sv_status := status; sv_emitted_at_ms := now; sv_payload := payload |})).

Definition error_frame (stream_id : StreamId) (error : ContractError) : seff JsonlFrame :=
  frame_id ← perform (NextId "frame");
  mret (FError PROTOCOL_VERSION_V1 frame_id stream_id error).

Definition bounded {MAX} (value : string) : result ContractError (BoundedString MAX) :=
  map_err (fun error => ContractError_new PayloadTooLarge (BoundedStringError_fmt error) false)
    (BoundedString_new value).

(** [status_with_message] *)
Definition status_with_message (provider : string) (health : ProviderHealth) (state : ProviderState)
    (message : string) : seff ProviderStatus :=
  now ← perform FrameClock;
  match BoundedString_new provider with
  | Ok id => mret {| ps_provider_id := id; ps_health := health; ps_state := state;
                     ps_checked_at_ms := now; ps_message := Some message;
                     ps_observed_latency_ms := None |}
  | _ => lift Panic
  end.

Section serving.
(** [serde_json::to_string] of a control response. *)
Context (control_to_string : ControlResponse -> result string string).

Definition control_mime (control : ControlResponse) : string :=
  match control with
  | CpStatus _ _ _ => STATUS_MIME
  | CpSettings _ => SETTINGS_MIME
  | CpConsentPreview _ _ _ _ => CONSENT_MIME
  end.

Definition StreamState_result (self : StreamState) (status : RequestStatus)
  : result ContractError RouterResult :=
  '(payload, error) ←
    (if bool_decide (status = Completed) then
       '(mime, content) ←
         match ss_control self with
         | Some control =>
             content ← map_err (fun error => ContractError_new ErrInternal
                         ("could not encode router response: " +:+ error) false)
                         (control_to_string control);
             Ok (control_mime control, content)
         | None => Ok ("text/plain"%string, ss_current_answer self)
         end;
       let '(content, truncated) := truncate_utf8 content (Z.to_nat 262144) in
       mime_type ← bounded mime;
       bounded_content ← bounded content;
       Ok (Some {| sp_mime_type := mime_type; sp_byte_count := len content mod 4294967296;
                   sp_content := bounded_content; sp_truncated := truncated |}, None)
     else Ok (None, ss_error self));
  version ← bounded PROTOCOL_VERSION_V1;
  let result := {| rs_version := version; rs_request_id := ss_request_id self; rs_status := status;
                   rs_provider_status := None; rs_payload := payload; rs_error := error;
                   rs_metrics := [] |} in
  RouterResult_validate result;;
  Ok result.

(** The loop over the pieces of a delta. *)
Fixpoint send_deltas (pieces : list string) : seff unit :=
  match pieces with
  | [] => mret tt
  | delta :: rest =>
      modify (fun s => set_counters (ss_sequence s)
                (saturating_add USIZE_MAX (ss_cumulative_bytes s) (len delta)) s);;
      s ← get_state;
      text ← lift (bounded delta);
      send_event (ss_current_status s)
        (EpOutputDelta text (Z.min (ss_cumulative_bytes s) U32_MAX));;
      send_deltas rest
  end.

Definition final_status (s : StreamState) : RequestStatus :=
  if ss_cancelled s then Cancelled
  else if is_some (ss_error s) || negb (ss_completed s) then Failed
  else Completed.

Definition handle (event : InternalEvent) : seff unit :=
  match event with
  | IeAccepted _ _ => mret tt
  | IeStateTransition _ from to =>
      lift (fail_if (negb (is_valid_status_transition from to))
              (ContractError_new ErrInternal "router attempted an invalid status transition" false));;
      modify (set_status to);;
      send_event to (EpStateTransition from to)
  | IeProgress _ state detail =>
      let health := if String.eqb state "starting" || String.eqb state "model_loading"
                    then Starting else Degraded in
      let provider_state := if bool_decide (health = Starting) then Warming else Backoff in
      s ← get_state;
      provider_status ← status_with_message (ss_current_provider s) health provider_state detail;
      send_event (ss_current_status s) (EpProviderStatus provider_status)
  | IeAnswerStarted _ _ provider_status fallback_reason =>
      (if is_some fallback_reason then modify (set_answer EmptyString) else mret tt);;
      let status := if String.eqb (as_str (ps_provider_id provider_status)) "local"
                    then RunningLocal else RunningRemote in
      modify (fun s => set_provider (as_str (ps_provider_id provider_status)) (set_status status s));;
      send_event status (EpProviderStatus provider_status)
  | IeDelta _ _ content =>
      modify (fun s => set_answer (ss_current_answer s +:+ content) s);;
      pieces ← lift match split_bounded content (Z.to_nat 8192) with Some pieces => Ok pieces | None => Panic end;
      send_deltas pieces
  | IeToolResult _ _ tool provenance =>
      match ToolName_deserialize tool with
      | Some tool => s ← get_state;
                     send_event (ss_current_status s) (EpToolProgress tool PhCompleted (Some provenance))
      | None => mret tt
      end
  | IeActionProposal _ _ tool _ notice =>
      match ToolName_deserialize tool with
      | Some tool => s ← get_state;
                     send_event (ss_current_status s) (EpToolProgress tool PhFailed (Some notice))
      | None => mret tt
      end
  | IeAnswerFinished _ _ _ incomplete _ =>
      if negb incomplete
      then modify (fun s => set_outcome (ss_control s) (ss_error s) (ss_cancelled s) true s)
      else mret tt
  | IeControl _ response =>
      modify (fun s => set_outcome (Some response) (ss_error s) (ss_cancelled s) true s)
  | IeCancelled _ _ =>
      modify (fun s => set_outcome (ss_control s) (ss_error s) true (ss_completed s) s)
  | IeError _ error _ =>
      modify (fun s => set_outcome (ss_control s) (Some error)
                (bool_decide (ce_code error = ErrCancelled)) (ss_completed s) s);;
      s ← get_state;
      frame ← error_frame (ss_stream_id s) error;
      perform (SendFrame frame)
  | IeDone _ =>
      s ← get_state;
      let status := final_status s in
      send_event status (EpTerminal status);;
      s ← get_state;
      result ← lift (StreamState_result s status);
      frame_id ← perform (NextId "frame");
      perform (SendFrame (FResult PROTOCOL_VERSION_V1 frame_id (ss_stream_id s) result))
  end.

(** The receiving loop of [process_request]: an error ends it with an error frame. *)
Fixpoint serve_events (events : list InternalEvent) : seff unit :=
  match events with
  | [] => mret tt
  | event :: rest =>
      r ← attempt (handle event);
      match r with
      | Ok _ => serve_events rest
      | Err error =>
          s ← get_state;
          frame ← error_frame (ss_stream_id s) error;
          perform (SendFrame frame)
      | Panic => lift Panic
      end
  end.
End serving.

(** ** Program logic

    What a handler does to the state and the frames it sends. *)

Definition frame_of (e : event stream_io) : list JsonlFrame :=
  match ev_call e with SendFrame frame => [frame] | _ => [] end.
Definition frames (t : list (event stream_io)) : list JsonlFrame := t ≫= frame_of.

Lemma frames_app t u : frames (t ++ u) = frames t ++ frames u.
Proof. apply bind_app. Qed.

Section logic.
Context (env : environment stream_io).

Definition wp {E A} (m : eff stream_io StreamState E A) (s : StreamState)
    (Q : A -> StreamState -> list JsonlFrame -> Prop) : Prop :=
  forall h, let o := m env h s in exists a, value o = Ok a /\ Q a (final o) (frames (trace o)).

Lemma wp_ret {E A} (a : A) s (Q : A -> StreamState -> list JsonlFrame -> Prop) :
  Q a s [] -> wp (E := E) (mret a) s Q.
Proof. intros HQ h. by exists a. Qed.

Lemma wp_lift {E A} (r : result E A) a s (Q : A -> StreamState -> list JsonlFrame -> Prop) :
  r = Ok a -> Q a s [] -> wp (lift r) s Q.
Proof. intros -> HQ h. by exists a. Qed.

Lemma wp_modify f s (Q : unit -> StreamState -> list JsonlFrame -> Prop) : Q tt (f s) [] -> wp (modify f) s Q.
Proof. intros HQ h. by exists tt. Qed.

Lemma wp_get s (Q : StreamState -> StreamState -> list JsonlFrame -> Prop) : Q s s [] -> wp get_state s Q.
Proof. intros HQ h. by exists s. Qed.

Lemma wp_bind {E A B} (m : eff stream_io StreamState E A) (k : A -> eff stream_io StreamState E B) s
    (Q : B -> StreamState -> list JsonlFrame -> Prop) :
  wp m s (fun a s' fs => wp (k a) s' (fun b s'' gs => Q b s'' (fs ++ gs))) -> wp (m ≫= k) s Q.
Proof.
  intros Hm h. destruct (Hm h) as (a & Ha & Hk). unfold mbind, eff_bind. rewrite Ha.
  destruct (Hk (h ++ trace (m env h s))) as (b & Hb & HQ). exists b. cbn. split; [done|].
  by rewrite frames_app.
Qed.

Lemma wp_next {E} prefix s (Q : BoundedString 64 -> StreamState -> list JsonlFrame -> Prop) :
  (forall id, Q id s []) -> wp (E := E) (perform (NextId prefix)) s Q.
Proof. intros HQ h. eexists. by split. Qed.

Lemma wp_clock {E} s (Q : u64 -> StreamState -> list JsonlFrame -> Prop) :
  (forall now, Q now s []) -> wp (E := E) (perform FrameClock) s Q.
Proof. intros HQ h. eexists. by split. Qed.

Lemma wp_send {E} frame s (Q : unit -> StreamState -> list JsonlFrame -> Prop) :
  Q tt s [frame] -> wp (E := E) (perform (SendFrame frame)) s Q.
Proof. intros HQ h. cbn. destruct (env h unit (SendFrame frame)). by exists tt. Qed.

Lemma wp_attempt {E F A} (m : eff stream_io StreamState E A) s
    (Q : result E A -> StreamState -> list JsonlFrame -> Prop) :
  wp m s (fun a => Q (Ok a)) -> wp (E := F) (attempt m) s Q.
Proof.
  intros Hm h. destruct (Hm h) as (a & Ha & HQ). unfold attempt. rewrite Ha. by exists (Ok a).
Qed.

Lemma wp_mono {E A} (m : eff stream_io StreamState E A) s
    (P Q : A -> StreamState -> list JsonlFrame -> Prop) :
  (forall a s' fs, P a s' fs -> Q a s' fs) -> wp m s P -> wp m s Q.
Proof. intros Hi Hm h. destruct (Hm h) as (a & Ha & HP). eauto. Qed.
End logic.

Ltac wp_step :=
  lazymatch goal with
  | |- wp _ (_ ≫= _) _ _ => apply wp_bind
  | |- wp _ (mret _) _ _ => apply wp_ret
  | |- wp _ (modify _) _ _ => apply wp_modify
  | |- wp _ get_state _ _ => apply wp_get
  | |- wp _ (perform (NextId _)) _ _ => apply wp_next; intros ?
  | |- wp _ (perform FrameClock) _ _ => apply wp_clock; intros ?
  | |- wp _ (perform (SendFrame _)) _ _ => apply wp_send
  | |- wp _ (if ?b then _ else _) _ _ => destruct b
  end.

(** ** Numbering *)

(** Event frames carry consecutive sequence numbers (saturating at the width of the
    counter) after [n], for the given request and stream. *)
Fixpoint numbered (request_id : RequestId) (stream_id : StreamId) (n : u64) (l : list JsonlFrame)
  : Prop :=
  match l with
  | [] => True
  | FEvent _ _ stream ev :: rest =>
      stream = stream_id /\ sv_request_id ev = request_id /\
      sv_sequence ev = saturating_add U64_MAX n 1 /\
      numbered request_id stream_id (saturating_add U64_MAX n 1) rest
  | _ :: rest => numbered request_id stream_id n rest
  end.

(** The counter after the frames. *)
Fixpoint counted (n : u64) (l : list JsonlFrame) : u64 :=
  match l with
  | [] => n
  | FEvent _ _ _ _ :: rest => counted (saturating_add U64_MAX n 1) rest
  | _ :: rest => counted n rest
  end.

Lemma numbered_app r s n l k :
  numbered r s n (l ++ k) <-> numbered r s n l /\ numbered r s (counted n l) k.
Proof. revert n. induction l as [|[] l IH]; intros n; cbn; rewrite ?IH; naive_solver. Qed.

Lemma counted_app n l k : counted n (l ++ k) = counted (counted n l) k.
Proof. revert n. induction l as [|[] l IH]; intros n; cbn; try done. Qed.
