(* ===== verification/ClientStream.v ===== *)
(** * What the client of a chat receives

    The composition of the router and the server: the events of a chat, which follow
    the protocol of [RouterStream], become a stream of numbered frames that ends with a
    terminal event and one valid result for the answer that was completed. *)

From Stdlib Require Import Ascii String.
From S2P Require Import Prelude RustStr Bounded Contract RouterContract ToolContract SocketContract Effects Chunks RouterApi Privacy BrokerProtocol RouterTools Providers Router RouterStream StreamState.

(** ** What the result should be *)

(** The text of the last answer started. *)
Fixpoint answer_text (acc : string) (events : list InternalEvent) : string :=
  match events with
  | [] => acc
  | IeAnswerStarted _ _ _ _ :: rest => answer_text EmptyString rest
  | IeDelta _ _ content :: rest => answer_text (acc +:+ content) rest
  | _ :: rest => answer_text acc rest
  end.

Definition is_complete_answer (e : InternalEvent) : bool :=
  match e with IeAnswerFinished _ _ _ incomplete _ => negb incomplete | _ => false end.

(** Neither a result nor a terminal event. *)
Definition quiet (frame : JsonlFrame) : Prop :=
  match frame with
  | FResult _ _ _ _ => False
  | FEvent _ _ _ ev => match sv_payload ev with EpTerminal _ => False | _ => True end
  | _ => True
  end.

(** A frame of the protocol version on the given stream. *)
Definition addressed (stream : StreamId) (frame : JsonlFrame) : Prop :=
  frame_version frame = PROTOCOL_VERSION_V1 /\ (frame_ids frame).2 = as_str stream.

(** The text and the errors in the frames of a stream. *)
Definition payload_text (payload : EventPayload) : string :=
  match payload with EpOutputDelta delta _ => as_str delta | _ => EmptyString end.
Definition frame_text (frame : JsonlFrame) : string :=
  match frame with
  | FEvent _ _ _ ev => payload_text (sv_payload ev)
  | _ => EmptyString
  end.
Definition frames_text (l : list JsonlFrame) : string := sconcat (frame_text <$> l).
Definition frame_error (frame : JsonlFrame) : list string :=
  match frame with FError _ _ _ error => [ce_message error] | _ => [] end.
Definition frames_errors (l : list JsonlFrame) : list string := l ≫= frame_error.

Lemma frames_text_app l k : frames_text (l ++ k) = frames_text l +:+ frames_text k.
Proof. unfold frames_text. by rewrite fmap_app, sconcat_app. Qed.
Lemma frames_errors_app l k : frames_errors (l ++ k) = frames_errors l ++ frames_errors k.
Proof. apply bind_app. Qed.

(** The text and the errors in the events of a chat. *)
Definition event_text (e : InternalEvent) : string :=
  match e with IeDelta _ _ content => content | _ => EmptyString end.
Definition events_text (events : list InternalEvent) : string := sconcat (event_text <$> events).
Definition event_error (e : InternalEvent) : list string :=
  match e with IeError _ error _ => [ce_message error] | _ => [] end.
Definition events_errors (events : list InternalEvent) : list string := events ≫= event_error.

(** The frames [l] take the server from [s] to [s']; they carry the given text and errors. *)
Record moves (s s' : StreamState) (text : string) (errors : list string) (l : list JsonlFrame) : Prop := {
  mv_ids : ss_request_id s' = ss_request_id s /\ ss_stream_id s' = ss_stream_id s;
  mv_numbered : numbered (ss_request_id s) (ss_stream_id s) (ss_sequence s) l;
  mv_sequence : ss_sequence s' = counted (ss_sequence s) l;
  mv_quiet : Forall quiet l;
  mv_addressed : Forall (addressed (ss_stream_id s)) l;
  mv_text : frames_text l = text;
  mv_errors : frames_errors l = errors;
}.

Lemma moves_refl s s' :
  ss_request_id s' = ss_request_id s -> ss_stream_id s' = ss_stream_id s ->
  ss_sequence s' = ss_sequence s -> moves s s' EmptyString [] [].
Proof. by split. Qed.

Lemma moves_trans s s' s'' text text' errors errors' l k :
  moves s s' text errors l -> moves s' s'' text' errors' k ->
  moves s s'' (text +:+ text') (errors ++ errors') (l ++ k).
Proof.
  intros [[H1 H2] H3 H4 H5 H6 <- <-] [[G1 G2] G3 G4 G5 G6 <- <-]. rewrite H1, H2, H4 in *. split.
  - split; congruence.
  - by apply numbered_app.
  - by rewrite G4, counted_app.
  - by apply Forall_app.
  - by apply Forall_app.
  - apply frames_text_app.
  - apply frames_errors_app.
Qed.

(** The state of the server in every phase of the protocol; [acc] is the text of the
    current answer. *)
Record server_inv (q : phase) (acc : string) (s : StreamState) : Prop := {
  sv_answer : ss_current_answer s = acc;
  sv_fresh : q = Fresh \/ q = Idling false -> acc = EmptyString;
  sv_provider : len (ss_current_provider s) <= 48;
  sv_control : ss_control s = None;
  sv_outcome :
    match q with
    | Closing => ss_error s = None /\ ss_cancelled s = false /\ ss_completed s = true \/
                 is_Some (ss_error s) /\ ss_completed s = false
    | Closed => True
    | _ => ss_error s = None /\ ss_cancelled s = false /\ ss_completed s = false
    end;
}.

Section server.
Context (env : environment stream_io) (control_to_string : ControlResponse -> result string string).

Lemma send_event_wp status payload s :
  match payload with EpTerminal _ => False | _ => True end ->
  wp env (send_event status payload) s (fun _ s' l => moves s s' (payload_text payload) [] l /\
    s' = set_counters (saturating_add U64_MAX (ss_sequence s) 1) (ss_cumulative_bytes s) s).
Proof.
  intros Hp. unfold send_event. repeat wp_step. split; [|done].
  split; cbn; try done; [by constructor; [destruct payload|]|by constructor|by rewrite app_empty_r].
Qed.

(** Sending events moves the counters only. *)
Definition same_but_counters (s s' : StreamState) : Prop :=
  exists n b, s' = set_counters n b s.

Lemma send_deltas_wp pieces s :
  Forall (fun p => (String.length p <= Z.to_nat 8192)%nat) pieces ->
  wp env (send_deltas pieces) s (fun _ s' l => moves s s' (sconcat pieces) [] l /\ same_but_counters s s').
Proof.
  intros Hall. revert s. induction Hall as [|p pieces Hp Hall IH]; intros s; cbn [send_deltas].
  { repeat wp_step. split; [by apply moves_refl|]. exists (ss_sequence s), (ss_cumulative_bytes s).
    by destruct s. }
  wp_step. wp_step. wp_step. wp_step. wp_step.
  destruct (BoundedString_new_fits (MAX := 8192) p) as (b & Hb & Htext); [unfold len; lia|].
  eapply wp_lift; [unfold bounded; by rewrite Hb|]. wp_step.
  eapply wp_mono; [|by apply send_event_wp]. intros [] s' l [Hm ->].
  eapply wp_mono; [|apply IH]. intros [] s'' k [Hm' (n & c & ->)]. cbn [app]. split.
  - cbn [sconcat]. rewrite <-Htext. eapply (moves_trans _ _ _ _ _ []); [|exact Hm'].
    destruct Hm as [[? ?] ? ? ? ? ? ?]. by split.
  - by exists n, c.
Qed.

Lemma server_inv_counters q acc s n b : server_inv q acc s -> server_inv q acc (set_counters n b s).
Proof. by intros [H1 H2 H3 H4 H5]. Qed.

(** An event frame sent after the state was changed to [s']. *)
Lemma send_event_then_wp status payload s s' (Q : StreamState -> Prop) :
  match payload with EpTerminal _ | EpOutputDelta _ _ => False | _ => True end ->
  moves s s' EmptyString [] [] -> (forall n b, Q (set_counters n b s')) ->
  wp env (send_event status payload) s' (fun _ s'' l => moves s s'' EmptyString [] ([] ++ l) /\ Q s'').
Proof.
  intros Hp Hm HQ. eapply wp_mono; [|apply send_event_wp; by destruct payload]. intros [] s'' l [Hm' ->].
  assert (payload_text payload = EmptyString) as Ht by by destruct payload. rewrite Ht in Hm'.
  split; [by eapply (moves_trans _ _ _ EmptyString _ [])|apply HQ].
Qed.

Lemma progress_wp request_id state detail q acc s :
  server_inv q acc s ->
  wp env (handle control_to_string (IeProgress request_id state detail)) s
    (fun _ s' l => moves s s' EmptyString [] l /\ server_inv q acc s').
Proof.
  intros Hinv. cbn [handle]. wp_step. wp_step. wp_step. unfold status_with_message. wp_step. wp_step.
  destruct (BoundedString_new_fits (MAX := 48) (ss_current_provider s)) as (b & -> & _);
    [by apply (sv_provider q acc)|]. wp_step.
  apply (send_event_then_wp _ _ s s (server_inv q acc)); [done|by apply moves_refl|].
  intros. by apply server_inv_counters.
Qed.

Lemma error_wp request_id error failure q acc s :
  q <> Closing -> q <> Closed -> server_inv q acc s ->
  wp env (handle control_to_string (IeError request_id error failure)) s
    (fun _ s' l => moves s s' EmptyString [ce_message error] l /\ server_inv Closing acc s' /\ ss_completed s' = false).
Proof.
  intros Hq1 Hq2 [H1 H2 H3 H4 H5]. cbn [handle]. unfold error_frame. repeat wp_step.
  assert (ss_completed s = false) as Hc by (destruct q; tauto). split; [by repeat split; repeat constructor|].
  split; [|done]. split; cbn; try done; [by intros [?|?]|]. right. by split.
Qed.

Lemma tool_wp tool phase detail q acc s :
  server_inv q acc s ->
  wp env (match ToolName_deserialize tool with
          | Some tool => s ← get_state;
                         send_event (ss_current_status s) (EpToolProgress tool phase (Some detail))
          | None => mret tt
          end) s (fun _ s' l => moves s s' EmptyString [] l /\ server_inv q acc s').
Proof.
  intros Hinv. destruct (ToolName_deserialize tool) as [t|].
  - wp_step. wp_step. apply (send_event_then_wp _ _ s s (server_inv q acc)); [done|by apply moves_refl|].
    intros. by apply server_inv_counters.
  - wp_step. split; [by apply moves_refl|done].
Qed.

Lemma transition_wp request_id from to q acc s :
  is_valid_status_transition from to = true -> server_inv q acc s ->
  wp env (handle control_to_string (IeStateTransition request_id from to)) s
    (fun _ s' l => moves s s' EmptyString [] l /\ server_inv q acc s').
Proof.
  intros Hv Hinv. cbn [handle]. wp_step. eapply wp_lift; [by rewrite Hv|]. wp_step. wp_step.
  apply (send_event_then_wp _ _ s (set_status to s) (server_inv q acc)); [done|by apply moves_refl|].
  intros. apply server_inv_counters. by destruct Hinv.
Qed.

Lemma delta_wp request_id answer_id content a acc s :
  valid_utf8 content = true -> server_inv (Answering a) acc s ->
  wp env (handle control_to_string (IeDelta request_id answer_id content)) s
    (fun _ s' l => moves s s' content [] l /\ server_inv (Answering a) (acc +:+ content) s').
Proof.
  intros Hv [H1 H2 H3 H4 H5]. cbn [handle]. wp_step. wp_step. wp_step.
  destruct (split_bounded_spec content (Z.to_nat 8192) Hv) as (pieces & Hp & Hjoin & Hall); [lia|].
  eapply wp_lift; [by rewrite Hp|].
  eapply wp_mono; [|apply send_deltas_wp].
  - intros [] s' l [Hm (n & b & ->)]. cbn [app]. split.
    + rewrite Hjoin in Hm. eapply (moves_trans _ _ _ EmptyString _ [] _ []); [|exact Hm]. by apply moves_refl.
    + apply server_inv_counters. split; cbn; try done; [by rewrite H1|by intros [?|?]].
  - destruct Hall as [[_ ->]|Hall]; [constructor; [cbn; lia|done]|].
    eapply Forall_impl; [exact Hall|]. by intros p [[_ ?] _].
Qed.

Lemma started_wp request_id answer_id status fallback_reason tried acc s :
  tried && is_none fallback_reason = false -> server_inv (Idling tried) acc s ->
  wp env (handle control_to_string (IeAnswerStarted request_id answer_id status fallback_reason)) s
    (fun _ s' l => moves s s' EmptyString [] l /\ server_inv (Answering answer_id) EmptyString s').
Proof.
  intros Ht [H1 H2 H3 H4 H5]. cbn [handle]. wp_step.
  assert (wp env (if is_some fallback_reason then modify (set_answer EmptyString) else mret tt) s
    (fun _ s' l => s' = set_answer EmptyString s /\ l = [])) as Hclear.
  { destruct fallback_reason; cbn; wp_step; [done|]. split; [|done].
    destruct tried; [done|]. rewrite H2 in H1 by auto. rewrite <-H1. by destruct s. }
  eapply wp_mono; [|exact Hclear]. intros [] ? ? [-> ->]. cbn [app]. wp_step. wp_step.
  eapply (send_event_then_wp _ _ s _ (server_inv (Answering answer_id) EmptyString));
    [done|by apply moves_refl|].
  intros. apply server_inv_counters. split; cbn; try done. apply BoundedString_bound.
Qed.

(** One event of the protocol, the last excepted. *)
Lemma handle_wp q e q' acc s :
  stream_step q e = Some q' -> q' <> Closed -> server_inv q acc s ->
  wp env (handle control_to_string e) s (fun _ s' l => moves s s' (event_text e) (event_error e) l /\
    server_inv q' (answer_text acc [e]) s' /\
    ss_completed s' = ss_completed s || is_complete_answer e).
Proof.
  intros Hs Hq' Hinv.
  assert (ss_completed s = false) as Hs0
    by (destruct Hinv as [_ _ _ _ H5]; destruct q; try tauto; destruct e; naive_solver).
  rewrite Hs0. cbn [orb].
  assert (forall (m : seff unit) acc', wp env m s (fun _ s' l => moves s s' (event_text e) (event_error e) l /\ server_inv q' acc' s') ->
    q' <> Closing -> is_complete_answer e = false ->
    wp env m s (fun _ s' l => moves s s' (event_text e) (event_error e) l /\ server_inv q' acc' s' /\
      ss_completed s' = is_complete_answer e)) as Hopen.
  { intros m acc' Hm Hne ->. eapply wp_mono; [|exact Hm]. intros [] s' l [? Hi]. split; [done|].
    split; [done|]. destruct Hi as [_ _ _ _ H5]. destruct q'; naive_solver. }
  destruct q, e; try done; cbn [stream_step answer_text is_complete_answer] in *.
  - injection Hs as <-. cbn. wp_step. split; [by apply moves_refl|]. split; [|done].
    destruct Hinv as [H1 H2 H3 H4 H5]. split; auto.
  - injection Hs as <-. eapply wp_mono; [|by eapply (error_wp _ _ _ Fresh)]. naive_solver.
  - destruct (is_valid_status_transition from to) eqn:Hv; [|done]. injection Hs as <-.
    apply Hopen; [by apply transition_wp|done..].
  - injection Hs as <-. apply Hopen; [by apply progress_wp|done..].
  - destruct (tried && _) eqn:Ht; [done|]. injection Hs as <-. apply Hopen; [by eapply started_wp|done..].
  - injection Hs as <-. eapply wp_mono; [|by eapply (error_wp _ _ _ (Idling tried))]. naive_solver.
  - injection Hs as <-. apply Hopen; [by apply progress_wp|done..].
  - destruct (String.eqb _ _ && _) eqn:Ha; [|done]. injection Hs as <-.
    apply andb_true_iff in Ha as [_ Hv]. apply Hopen; [by apply delta_wp|done..].
  - injection Hs as <-. apply Hopen; [by apply tool_wp|done..].
  - injection Hs as <-. apply Hopen; [by apply tool_wp|done..].
  - destruct (String.eqb _ _); [|done]. injection Hs as <-. cbn [handle].
    destruct Hinv as [H1 H2 H3 H4 H5]. destruct incomplete; cbn [negb]; wp_step.
    + split; [by apply moves_refl|]. split; [|done]. split; try done. by intros [?|?].
    + split; [by apply moves_refl|]. split; [|done]. split; cbn; try done; [by intros [?|?]|].
      left. tauto.
  - by injection Hs as <-.
Qed.

(** ** The end of the stream *)

Definition terminal_frame (stream_id : StreamId) (n : u64) (request_id : RequestId)
    (status : RequestStatus) (frame : JsonlFrame) : Prop :=
  exists frame_id ev, frame = FEvent PROTOCOL_VERSION_V1 frame_id stream_id ev /\
    sv_request_id ev = request_id /\ sv_sequence ev = n /\ sv_status ev = status /\
    sv_payload ev = EpTerminal status.

(** What a completed request returns: the control response, or the answer. *)
Definition result_mime (s : StreamState) : string :=
  match ss_control s with Some control => control_mime control | None => "text/plain" end.
Definition result_text (s : StreamState) (text : string) : Prop :=
  match ss_control s with
  | Some control => control_to_string control = Ok text
  | None => text = ss_current_answer s
  end.

(** A request that is over: completed, or with an error. *)
Definition over (s : StreamState) : Prop :=
  ss_error s = None /\ ss_cancelled s = false /\ ss_completed s = true \/
  is_Some (ss_error s) /\ ss_completed s = false.

(** The result the client gets for the final state [s]. *)
Record proper_result (s : StreamState) (text : string) (r : RouterResult) : Prop := {
  pr_valid : RouterResult_validate r = Ok tt;
  pr_request : rs_request_id r = ss_request_id s;
  pr_status : rs_status r = final_status s;
  pr_answer : final_status s = Completed -> exists payload, rs_payload r = Some payload /\
    as_str (sp_mime_type payload) = result_mime s /\
    as_str (sp_content payload) = (truncate_utf8 text (Z.to_nat 262144)).1;
  pr_error : final_status s <> Completed -> rs_payload r = None /\ rs_error r = ss_error s;
}.

Lemma bounded_fits {MAX} v : len v <= MAX -> exists b : BoundedString MAX, bounded v = Ok b /\ as_str b = v.
Proof.
  intros Hl. destruct (BoundedString_new_fits (MAX := MAX) v Hl) as (b & Hb & Hs). exists b.
  split; [|done]. unfold bounded. by rewrite Hb.
Qed.

Lemma result_mime_fits s : len (result_mime s) <= 64.
Proof. unfold result_mime. destruct (ss_control s) as [[]|]; by vm_compute. Qed.

Lemma result_ok s text :
  over s -> result_text s text ->
  exists r, StreamState_result control_to_string s (final_status s) = Ok r /\ proper_result s text r.
Proof.
  intros H5 Htext. unfold StreamState_result.
  destruct (bounded_fits (MAX := 24) PROTOCOL_VERSION_V1) as (v & Hv & Hvs); [done|].
  destruct (decide (final_status s = Completed)) as [Hc|Hc].
  - rewrite bool_decide_true by done.
    assert (match ss_control s with
            | Some control => content ← map_err (fun error => ContractError_new ErrInternal
                ("could not encode router response: " +:+ error) false) (control_to_string control);
                Ok (control_mime control, content)
            | None => Ok ("text/plain"%string, ss_current_answer s)
            end = Ok (result_mime s, text)) as ->.
    { unfold result_text, result_mime in *. destruct (ss_control s); [by rewrite Htext|by subst]. }
    cbn [mbind result_bind]. pose proof (truncate_utf8_fits text (Z.to_nat 262144)) as Hfit.
    destruct (truncate_utf8 text _) as [content truncated] eqn:Htr. cbn [fst] in Hfit.
    destruct (bounded_fits (MAX := 64) (result_mime s) (result_mime_fits s)) as (m & -> & Hmime).
    assert (len content <= 262144) as Hlen by (unfold len; lia).
    destruct (bounded_fits (MAX := 262144) content Hlen) as (b & -> & Hb). cbn [mbind result_bind].
    rewrite Hv. cbn [mbind result_bind].
    match goal with |- context [RouterResult_validate ?x] => set (r := x) end.
    assert (RouterResult_validate r = Ok tt) as Hr.
    { unfold RouterResult_validate, r. cbn. rewrite Hvs, String.eqb_refl. cbn.
      unfold ResultPayload_validate. cbn. rewrite Hb. pose proof (len_nonneg content).
      rewrite Z.mod_small, Z.eqb_refl by lia.
      unfold MAX_RESULT_PAYLOAD_BYTES_V1. rewrite (proj2 (Z.ltb_ge _ _)) by lia. cbn.
      rewrite Hc. by vm_compute. }
    rewrite Hr. exists r. split; [done|]. split; cbn; try done.
    intros _. eexists. split; [done|]. by rewrite Htr.
  - rewrite bool_decide_false by done. cbn [mbind result_bind]. rewrite Hv. cbn [mbind result_bind].
    match goal with |- context [RouterResult_validate ?x] => set (r := x) end.
    assert (RouterResult_validate r = Ok tt) as Hr.
    { unfold RouterResult_validate, r. cbn [rs_version rs_payload rs_status rs_error].
      rewrite Hvs, String.eqb_refl, (bool_decide_false (final_status s = Completed)) by done.
      cbn [negb andb fail_if mbind result_bind]. unfold final_status in *.
      destruct (ss_cancelled s) eqn:Hcan; [done|].
      destruct H5 as [(He & _ & Hco)|[[e He] Hco]]; rewrite He in *; [by rewrite Hco in Hc|done]. }
    rewrite Hr. exists r. by split.
Qed.

Lemma done_wp request_id s text :
  over s -> result_text s text ->
  wp env (handle control_to_string (IeDone request_id)) s (fun _ _ l => exists terminal frame_id r,
    l = [terminal; FResult PROTOCOL_VERSION_V1 frame_id (ss_stream_id s) r] /\
    terminal_frame (ss_stream_id s) (saturating_add U64_MAX (ss_sequence s) 1) (ss_request_id s)
      (final_status s) terminal /\ proper_result s text r).
Proof.
  intros Hover Htext. destruct (result_ok s text Hover Htext) as (r & Hr & Hp). cbn [handle].
  unfold send_event. repeat wp_step.
  eapply wp_lift; [exact Hr|]. repeat wp_step.
  do 3 eexists. split; [reflexivity|]. split; [|done]. do 2 eexists. split; [reflexivity|]. done.
Qed.

Lemma server_inv_over acc s : server_inv Closing acc s -> over s /\ result_text s (ss_current_answer s).
Proof. intros [H1 H2 H3 H4 H5]. split; [done|]. unfold result_text. by rewrite H4. Qed.

Lemma serve_wp request_id events q acc s :
  follow request_id q events = Some Closed -> q <> Closed -> server_inv q acc s ->
  wp env (serve_events control_to_string events) s (fun _ _ l => exists s' k terminal frame_id r,
    l = k ++ [terminal; FResult PROTOCOL_VERSION_V1 frame_id (ss_stream_id s) r] /\
    moves s s' (events_text events) (events_errors events) k /\
    terminal_frame (ss_stream_id s) (saturating_add U64_MAX (ss_sequence s') 1) (ss_request_id s)
      (final_status s') terminal /\
    proper_result s' (ss_current_answer s') r /\ ss_current_answer s' = answer_text acc events /\
    server_inv Closing (answer_text acc events) s' /\
    ss_completed s' = ss_completed s || existsb is_complete_answer events).
Proof.
  revert q acc s. induction events as [|e events IH]; intros q acc s; cbn [follow]; [congruence|].
  destruct (String.eqb (request_of e) request_id); [|done]. intros Hf Hq Hinv.
  destruct (stream_step q e) as [q'|] eqn:Hs; [|done]. cbn in Hf. cbn [serve_events].
  apply wp_bind, wp_attempt.
  destruct (decide (q' = Closed)) as [->|Hq'].
  - assert (q = Closing /\ e = IeDone (request_of e)) as [-> ->]
      by (destruct q, e; cbn in Hs; repeat case_match; by simplify_eq).
    destruct events as [|e' events]; [|cbn in Hf; by destruct (String.eqb _ _)].
    destruct (server_inv_over _ _ Hinv) as [Hover Htext].
    eapply wp_mono; [|by apply (done_wp _ s (ss_current_answer s))]. intros [] s' l (terminal & frame_id & r & -> & Ht & Hp).
    cbn [serve_events]. wp_step. exists s, [], terminal, frame_id, r. cbn.
    split; [done|]. split; [by apply moves_refl|]. split; [done|]. split; [done|].
    split; [apply Hinv|]. split; [done|]. by rewrite orb_false_r.
  - eapply wp_mono; [|by eapply handle_wp]. intros [] s' l (Hm & Hinv' & Hcomp).
    eapply wp_mono; [|by eapply IH]. cbn beta.
    intros [] _ ? (s'' & k & terminal & frame_id & r & -> & Hm' & Ht & Hp & Ha & Hi & Hc).
    destruct (mv_ids _ _ _ _ _ Hm) as [Hid Hst]. rewrite Hid, Hst in *.
    exists s'', (l ++ k), terminal, frame_id, r. split; [by rewrite app_assoc|].
    assert (answer_text (answer_text acc [e]) events = answer_text acc (e :: events)) as Htext
      by (by destruct e). rewrite Htext in *.
    split; [exact (moves_trans _ _ _ _ _ _ _ _ _ Hm Hm')|]. repeat (split; [done|]). cbn [existsb].
    by rewrite Hc, Hcomp, orb_assoc.
Qed.
End server.

(** ** The whole exchange *)

Definition terminal_status (frame : JsonlFrame) : option RequestStatus :=
  match frame with
  | FEvent _ _ _ ev => match sv_payload ev with EpTerminal status => Some status | _ => None end
  | _ => None
  end.

Lemma final_status_completed acc s :
  server_inv Closing acc s -> final_status s = Completed <-> ss_completed s = true.
Proof.
  intros [_ _ _ _ H5]. unfold final_status.
  destruct H5 as [(-> & -> & ->)|[[e ->] ->]]; [done|]. by destruct (ss_cancelled s).
Qed.

(** The client of a chat gets exactly one result, and it is the right one.  For every
    behaviour of the providers, tools and settings, serving the events of the chat
    raises no protocol error; the client receives events numbered 1, 2, 3, ... of its
    request and stream, then one terminal event, then one result frame, which is valid,
    names the request, has the status of the terminal event, is [Completed] exactly when
    some answer was complete, and then holds the text of that answer, cut at a character
    boundary to 262144 bytes. *)
Theorem client_receives_one_result `{C : PrivacyCrypto} config providers hash_order from_str
    (env : environment router_io) h request control_to_string (server : environment stream_io) h'
    (id : RequestId) (stream : StreamId) :
  (forall s, from_str s <> Panic) -> (forall payload, is_Some (to_vec (canonical_value payload))) ->
  calm env -> in_request_id request = as_str id ->
  let events := sends (trace (chat config providers hash_order from_str request env h tt)) in
  let o := serve_events control_to_string events server h' (StreamState_new id stream) in
  value o = Ok tt /\
  exists k terminal frame_id r,
    frames (trace o) = k ++ [terminal; FResult PROTOCOL_VERSION_V1 frame_id stream r] /\
    numbered id stream 0 (k ++ [terminal]) /\ Forall quiet k /\
    terminal_status terminal = Some (rs_status r) /\
    RouterResult_validate r = Ok tt /\ rs_request_id r = id /\
    (rs_status r = Completed <-> existsb is_complete_answer events = true) /\
    (rs_status r = Completed -> exists payload, rs_payload r = Some payload /\
       as_str (sp_content payload)
         = (truncate_utf8 (answer_text EmptyString events) (Z.to_nat 262144)).1).
Proof.
  intros Hf Ht Hc Hid. cbn zeta.
  destruct (chat_streams config providers hash_order from_str Hf Ht env Hc (as_str id) request Hid h)
    as [_ (q & Hq & _ & ->)].
  set (events := sends _) in *. clearbody events.
  assert (server_inv Fresh EmptyString (StreamState_new id stream)) as Hinv by by split.
  destruct (serve_wp server control_to_string (as_str id) events Fresh EmptyString _ Hq ltac:(done) Hinv h')
    as ([] & Hv & s' & k & terminal & frame_id & r & Hl & [[Hi1 Hi2] Hnum Hseq Hquiet _ _ _] & Hterm & Hp & Ha & Hi & Hcomp).
  cbn in Hi1, Hi2, Hnum, Hseq, Hcomp, Hterm, Hl. split; [done|]. exists k, terminal, frame_id, r.
  destruct Hterm as (f & ev & -> & Hr & Hn & Hst & Hpay). destruct Hp as [P1 P2 P3 P4 P5].
  apply final_status_completed in Hi as Hfin.
  split; [done|]. split.
  { apply numbered_app. split; [done|]. cbn. by rewrite Hr, Hn, Hseq. }
  split; [done|]. split; [cbn; by rewrite Hpay, P3|]. split; [done|]. split; [by rewrite P2|].
  rewrite P3. split; [by rewrite Hfin, Hcomp|]. intros (payload & Hpay' & _ & Htext)%P4. rewrite <-Ha. eauto.
Qed.

Definition demo_server : environment stream_io := fun _ _ c =>
  match c with
  | NextId _ => BStr "id-1" eq_refl
  | FrameClock => 5
  | SendFrame _ => tt
  end.

Lemma client_receives_one_result_witness :
  let events := sends (trace (chat (C := demo_crypto) RuntimeConfig_default demo_providers id
                  demo_from_str (demo_request LocalOnly) demo_world [] tt)) in
  value (serve_events (fun _ => Ok "{}"%string) events demo_server []
           (StreamState_new (BStr "request-1" eq_refl) (BStr "stream-1" eq_refl))) = Ok tt.
Proof.
  apply (client_receives_one_result (C := demo_crypto) RuntimeConfig_default demo_providers id
    demo_from_str demo_world [] (demo_request LocalOnly) (fun _ => Ok "{}"%string) demo_server []
    (BStr "request-1" eq_refl) (BStr "stream-1" eq_refl)).
  - intros s. unfold demo_from_str. by destruct (String.eqb s "{}").
  - intros payload. by eexists.
  - intros h A c. destruct c; try done. split; [done|]. split; [by constructor|constructor].
  - reflexivity.
Defined.
