(* ===== verification/Connection.v ===== *)
(** * The requests in flight on one connection

    The router and the local broker serve a connection in the same way: one task reads
    frames; each accepted request gets a cancellation token, an entry in the shared map
    of active requests and a task of its own, which removes the entry when it is done.
    [Conn] is what these tasks share: the map (a [HashMap] behind a mutex), the
    semaphore, the tokens and the tasks.  The reader's program makes the calls
    [conn_io]; between two of its calls the other tasks take any number of steps, given
    by a schedule, so a theorem over all schedules covers every interleaving. *)

From Stdlib Require Import Ascii String.
From S2P Require Import Prelude RustStr Effects Queue.

Abbreviation token := nat (only parsing).

(** A task: its entry is in the map but it is not running yet; running; done, its entry
    removed, its permit still held; ended by a panic, which leaves the entry. *)
Inductive TaskPhase := TkCreated | TkRunning | TkRemoved | TkPanicked.

#[global] Instance TaskPhase_eq_dec : EqDecision TaskPhase.
Proof. solve_decision. Defined.

Record Task := MkTask { tk_id : string; tk_phase : TaskPhase; tk_permit : bool }.

Record Conn := MkConn {
  cn_active : gmap string token;
  cn_tasks : gmap token Task;
  cn_cancelled : gset token;
  cn_shutdown : bool;
  cn_next : token;
  cn_permits : usize;
  cn_held : bool;
}.

Definition Conn_new (permits : usize) : Conn :=
  {| cn_active := ∅; cn_tasks := ∅; cn_cancelled := ∅; cn_shutdown := false; cn_next := O;
     cn_permits := permits; cn_held := false |}.

(** [is_cancelled] of a token: children share the connection's shutdown. *)
Definition token_cancelled (c : Conn) (t : token) : bool := cn_shutdown c || bool_decide (t ∈ cn_cancelled c).

(** ** What the reader does *)

Inductive conn_io (R : Type) : Type -> Type :=
| IsActive (id : string) : conn_io R bool
| TryPermit : conn_io R bool
| Begin (id : string) : conn_io R token
| SpawnTask (id : string) (t : token) (request : R) : conn_io R unit
| CancelActive (id : string) : conn_io R bool
| JoinFinished : conn_io R unit
| CancelShutdown : conn_io R unit
| CancelEach : conn_io R unit
| JoinAll : conn_io R unit.
Arguments IsActive {R} id.
Arguments TryPermit {R}.
Arguments Begin {R} id.
Arguments SpawnTask {R} id t request.
Arguments CancelActive {R} id.
Arguments JoinFinished {R}.
Arguments CancelShutdown {R}.
Arguments CancelEach {R}.
Arguments JoinAll {R}.

(** The calls of a server: on its connection, or to the outside. *)
Inductive server_io (R : Type) (ext : Type -> Type) : Type -> Type :=
| Reg A (c : conn_io R A) : server_io R ext A
| Ext A (c : ext A) : server_io R ext A.
Arguments Reg {R ext A} c.
Arguments Ext {R ext A} c.

Definition set_tasks (tasks : gmap token Task) (c : Conn) : Conn :=
  {| cn_active := cn_active c; cn_tasks := tasks; cn_cancelled := cn_cancelled c;
     cn_shutdown := cn_shutdown c; cn_next := cn_next c; cn_permits := cn_permits c; cn_held := cn_held c |}.
Definition set_active (active : gmap string token) (c : Conn) : Conn :=
  {| cn_active := active; cn_tasks := cn_tasks c; cn_cancelled := cn_cancelled c;
     cn_shutdown := cn_shutdown c; cn_next := cn_next c; cn_permits := cn_permits c; cn_held := cn_held c |}.
Definition set_cancelled (cancelled : gset token) (c : Conn) : Conn :=
  {| cn_active := cn_active c; cn_tasks := cn_tasks c; cn_cancelled := cancelled;
     cn_shutdown := cn_shutdown c; cn_next := cn_next c; cn_permits := cn_permits c; cn_held := cn_held c |}.
Definition set_permits (permits : usize) (held : bool) (c : Conn) : Conn :=
  {| cn_active := cn_active c; cn_tasks := cn_tasks c; cn_cancelled := cn_cancelled c;
     cn_shutdown := cn_shutdown c; cn_next := cn_next c; cn_permits := permits; cn_held := held |}.

Definition b2z (b : bool) : Z := if b then 1 else 0.

(** ** What the tasks do *)

(** [TaskRemoved]: the request is processed and its entry removed.  [TaskEnded]: the
    future is dropped and its permit released.  [TaskPanics]: processing panicked; the
    permit is released, the entry is not removed. *)
Inductive action := TaskRemoved (t : token) | TaskEnded (t : token) | TaskPanics (t : token).

Definition act (c : Conn) (a : action) : Conn :=
  match a with
  | TaskRemoved t =>
      match cn_tasks c !! t with
      | Some (MkTask id TkRunning p) =>
          set_active (delete id (cn_active c)) (set_tasks (<[t := MkTask id TkRemoved p]> (cn_tasks c)) c)
      | _ => c
      end
  | TaskEnded t =>
      match cn_tasks c !! t with
      | Some (MkTask id TkRemoved p) =>
          set_permits (cn_permits c + b2z p) (cn_held c) (set_tasks (delete t (cn_tasks c)) c)
      | _ => c
      end
  | TaskPanics t =>
      match cn_tasks c !! t with
      | Some (MkTask id TkRunning p) =>
          set_permits (cn_permits c + b2z p) (cn_held c)
            (set_tasks (<[t := MkTask id TkPanicked false]> (cn_tasks c)) c)
      | _ => c
      end
  end.

Definition acts (c : Conn) (l : list action) : Conn := fold_left act l c.

(** The rest of every task that is still running. *)
Definition finish_all (tasks : gmap token Task) : list action :=
  (map_to_list tasks).*1 ≫= (fun t => [TaskRemoved t; TaskEnded t]).

Definition conn_reply {R A} (c : Conn) (call : conn_io R A) : A :=
  match call with
  | IsActive id => bool_decide (is_Some (cn_active c !! id))
  | TryPermit => 0 <? cn_permits c
  | Begin _ => cn_next c
  | CancelActive id => bool_decide (is_Some (cn_active c !! id))
  | SpawnTask _ _ _ | JoinFinished | CancelShutdown | CancelEach | JoinAll => tt
  end.

(** [Begin]: [shutdown.child_token()] and its insertion.  [JoinAll]: waiting until the
    join set is empty. *)
Definition conn_effect {R A} (c : Conn) (call : conn_io R A) : Conn :=
  match call with
  | IsActive _ | JoinFinished => c
  | TryPermit =>
      if (0 <? cn_permits c) then set_permits (cn_permits c - 1 + b2z (cn_held c)) true c else c
  | Begin id =>
      {| cn_active := <[id := cn_next c]> (cn_active c);
         cn_tasks := <[cn_next c := MkTask id TkCreated (cn_held c)]> (cn_tasks c);
         cn_cancelled := cn_cancelled c; cn_shutdown := cn_shutdown c; cn_next := S (cn_next c);
         cn_permits := cn_permits c; cn_held := false |}
  | SpawnTask _ t _ =>
      match cn_tasks c !! t with
      | Some (MkTask id TkCreated p) => set_tasks (<[t := MkTask id TkRunning p]> (cn_tasks c)) c
      | _ => c
      end
  | CancelActive id =>
      match cn_active c !! id with
      | Some t => set_cancelled ({[t]} ∪ cn_cancelled c) c
      | None => c
      end
  | CancelShutdown =>
      {| cn_active := cn_active c; cn_tasks := cn_tasks c; cn_cancelled := cn_cancelled c;
         cn_shutdown := true; cn_next := cn_next c; cn_permits := cn_permits c; cn_held := cn_held c |}
  | CancelEach => set_cancelled (list_to_set (map_to_list (cn_active c)).*2 ∪ cn_cancelled c) c
  | JoinAll => acts c (finish_all (cn_tasks c))
  end.

(** ** The machine that runs both *)

Section machine.
Context {R : Type} {ext : Type -> Type} (permits : usize) (schedule : nat -> list action).

Definition server_effect (c : Conn) (e : event (server_io R ext)) : Conn :=
  match ev_call e with Reg call => conn_effect c call | Ext _ => c end.

(** After [n] events the tasks take the steps [schedule n]. *)
Fixpoint run_conn (n : nat) (c : Conn) (h : list (event (server_io R ext))) : Conn :=
  match h with
  | [] => acts c (schedule n)
  | e :: rest => run_conn (S n) (server_effect (acts c (schedule n)) e) rest
  end.

Definition conn_at (h : list (event (server_io R ext))) : Conn := run_conn 0 (Conn_new permits) h.

(** The connection answers from its state, everything else from the outside. *)
Definition conn_env (outside : environment (server_io R ext)) : environment (server_io R ext) :=
  fun h A call =>
    match call in server_io _ _ A return A -> A with
    | Reg c => fun _ => conn_reply (conn_at h) c
    | Ext _ => fun r => r
    end (outside h A call).

Lemma run_conn_snoc n c h e :
  run_conn n c (h ++ [e]) = acts (server_effect (run_conn n c h) e) (schedule (n + length h + 1)).
Proof.
  revert n c. induction h as [|e' h IH]; intros n c; cbn.
  - by replace (n + 0 + 1)%nat with (S n) by lia.
  - rewrite IH. do 2 f_equal. lia.
Qed.

Lemma conn_at_snoc h e : conn_at (h ++ [e]) = acts (server_effect (conn_at h) e) (schedule (S (length h))).
Proof. unfold conn_at. rewrite run_conn_snoc. do 2 f_equal. lia. Qed.
End machine.

(** ** The invariant *)

Definition held_by (tasks : gmap token Task) : Z := map_fold (fun _ tk n => b2z (tk_permit tk) + n) 0 tasks.

Lemma held_by_insert tasks t tk :
  tasks !! t = None -> held_by (<[t := tk]> tasks) = b2z (tk_permit tk) + held_by tasks.
Proof. intros Ht. unfold held_by. rewrite map_fold_insert_L; [done| |done]. intros. lia. Qed.

Lemma held_by_delete tasks t tk :
  tasks !! t = Some tk -> held_by tasks = b2z (tk_permit tk) + held_by (delete t tasks).
Proof. intros Ht. rewrite <-(held_by_insert (delete t tasks) t tk) by apply lookup_delete_eq. by rewrite insert_delete_id. Qed.

Lemma held_by_update tasks t tk tk' :
  tasks !! t = Some tk ->
  held_by (<[t := tk']> tasks) = held_by tasks + b2z (tk_permit tk') - b2z (tk_permit tk).
Proof.
  intros Ht. rewrite (held_by_delete _ _ _ Ht), <-(insert_delete_eq tasks t tk'), held_by_insert by apply lookup_delete_eq. lia.
Qed.

Lemma held_by_nonneg tasks : 0 <= held_by tasks.
Proof.
  induction tasks as [|t tk tasks Ht IH] using map_ind; [done|]. rewrite held_by_insert by done.
  destruct (tk_permit tk); cbn; lia.
Qed.

(** Every permit is free, held by the reader or carried by a task; the active requests
    are exactly the tasks whose entry was not removed, so no two of them have the same
    identifier. *)
Record conn_ok (max : usize) (c : Conn) : Prop := {
  ok_permits : cn_permits c + held_by (cn_tasks c) + b2z (cn_held c) = max;
  ok_free : 0 <= cn_permits c;
  ok_active : forall id t, cn_active c !! id = Some t <->
    exists tk, cn_tasks c !! t = Some tk /\ tk_id tk = id /\ tk_phase tk <> TkRemoved;
  ok_tokens : forall t tk, cn_tasks c !! t = Some tk -> (t < cn_next c)%nat;
  ok_panicked : forall t tk, cn_tasks c !! t = Some tk -> tk_phase tk = TkPanicked -> tk_permit tk = false;
}.

Lemma conn_ok_new max : 0 <= max -> conn_ok max (Conn_new max).
Proof.
  intros Hm. split; cbn; [rewrite Z.add_0_r; unfold held_by; rewrite map_fold_empty; lia|done| |..];
    intros *; rewrite ?lookup_empty; naive_solver.
Qed.

(** Replacing a task by one with the same identifier that keeps its entry. *)
Lemma conn_ok_phase max c t id ph p ph' p' n h :
  conn_ok max c -> cn_tasks c !! t = Some (MkTask id ph p) -> ph <> TkRemoved -> ph' <> TkRemoved ->
  (ph' = TkPanicked -> p' = false) -> 0 <= n -> n + b2z h + b2z p' = cn_permits c + b2z (cn_held c) + b2z p ->
  conn_ok max (set_permits n h (set_tasks (<[t := MkTask id ph' p']> (cn_tasks c)) c)).
Proof.
  intros [H1 H2 H3 H4 H5] Ht Hph Hph' Hp Hn Hsum. split; cbn.
  - rewrite (held_by_update _ _ _ _ Ht). cbn. lia.
  - done.
  - intros id' t'. rewrite H3. destruct (decide (t' = t)) as [->|].
    + rewrite lookup_insert_eq, Ht. naive_solver.
    + by rewrite lookup_insert_ne.
  - intros t' tk. rewrite lookup_insert_Some. intros [[<- <-]|[_ Htk]]; eauto.
  - intros t' tk. rewrite lookup_insert_Some. intros [[<- <-]|[_ Htk]]; eauto.
Qed.

Lemma conn_ok_removed max c t id p :
  conn_ok max c -> cn_tasks c !! t = Some (MkTask id TkRunning p) ->
  conn_ok max (set_active (delete id (cn_active c)) (set_tasks (<[t := MkTask id TkRemoved p]> (cn_tasks c)) c)).
Proof.
  intros [H1 H2 H3 H4 H5] Ht.
  assert (cn_active c !! id = Some t) as Hid by (apply H3; naive_solver). split; cbn.
  - rewrite (held_by_update _ _ _ _ Ht). cbn. lia.
  - done.
  - intros id' t'. rewrite lookup_delete_Some, H3. destruct (decide (t' = t)) as [->|].
    + rewrite lookup_insert_eq, Ht. naive_solver.
    + rewrite lookup_insert_ne by done. split; [naive_solver|]. intros (tk & Htk & <- & Hph).
      split; [|eauto]. intros Heq. assert (cn_active c !! tk_id tk = Some t') by (apply H3; eauto). congruence.
  - intros t' tk. rewrite lookup_insert_Some. intros [[<- <-]|[_ Htk]]; eauto.
  - intros t' tk. rewrite lookup_insert_Some. intros [[<- <-]|[_ Htk]]; naive_solver.
Qed.

Lemma conn_ok_ended max c t id p :
  conn_ok max c -> cn_tasks c !! t = Some (MkTask id TkRemoved p) ->
  conn_ok max (set_permits (cn_permits c + b2z p) (cn_held c) (set_tasks (delete t (cn_tasks c)) c)).
Proof.
  intros [H1 H2 H3 H4 H5] Ht. split; cbn.
  - rewrite (held_by_delete _ _ _ Ht) in H1. cbn in H1. lia.
  - destruct p; cbn; lia.
  - intros id' t'. rewrite H3. destruct (decide (t' = t)) as [->|].
    + rewrite lookup_delete_eq, Ht. naive_solver.
    + by rewrite lookup_delete_ne.
  - intros t' tk [_ Htk]%lookup_delete_Some. eauto.
  - intros t' tk [_ Htk]%lookup_delete_Some. eauto.
Qed.

(** The steps of the tasks keep the invariant ... *)
Lemma conn_ok_act max c a : conn_ok max c -> conn_ok max (act c a).
Proof.
  intros H. destruct a as [t|t|t]; cbn; destruct (cn_tasks c !! t) as [[id [] p]|] eqn:Ht; try done.
  - by eapply conn_ok_removed.
  - by eapply conn_ok_ended.
  - eapply conn_ok_phase; [done|exact Ht|done|done|done| |cbn; lia].
    pose proof (ok_free _ _ H). destruct p; cbn; lia.
Qed.

Lemma conn_ok_acts max c l : conn_ok max c -> conn_ok max (acts c l).
Proof. unfold acts. revert c. induction l as [|a l IH]; intros c H; cbn; [done|]. by apply IH, conn_ok_act. Qed.

(** ... and so do the calls of the reader, provided it begins no request that is active. *)
Definition conn_pre {R A} (c : Conn) (call : conn_io R A) : Prop :=
  match call with Begin id => cn_active c !! id = None | _ => True end.

Lemma conn_ok_begin max c id :
  conn_ok max c -> cn_active c !! id = None -> conn_ok max (conn_effect (R := unit) c (Begin id)).
Proof.
  intros [H1 H2 H3 H4 H5] Hid.
  assert (cn_tasks c !! cn_next c = None) as Hn.
  { destruct (cn_tasks c !! cn_next c) eqn:Ht; [|done]. apply H4 in Ht. lia. }
  split; cbn.
  - rewrite held_by_insert by done. cbn. lia.
  - done.
  - intros id' t'. rewrite lookup_insert_Some, H3. destruct (decide (t' = cn_next c)) as [->|].
    + rewrite lookup_insert_eq, Hn. naive_solver.
    + rewrite lookup_insert_ne by done. split; [naive_solver|]. intros (tk & Htk & <- & Hph). right.
      split; [|eauto]. intros Heq. assert (cn_active c !! tk_id tk = Some t') by (apply H3; eauto). congruence.
  - intros t' tk. rewrite lookup_insert_Some. intros [[<- <-]|[_ Htk%H4]]; lia.
  - intros t' tk. rewrite lookup_insert_Some. intros [[<- <-]|[_ Htk]]; naive_solver.
Qed.

Lemma conn_ok_effect {R A} max c (call : conn_io R A) :
  conn_ok max c -> conn_pre c call -> conn_ok max (conn_effect c call).
Proof.
  intros H Hpre. destruct call; cbn in *; try done; try (by destruct H).
  - destruct (Z.ltb_spec 0 (cn_permits c)); [|done]. destruct H as [H1 H2 H3 H4 H5].
    split; cbn; try done; destruct (cn_held c); cbn in *; lia.
  - by apply (conn_ok_begin max c id).
  - destruct (cn_tasks c !! t) as [[id' [] p]|] eqn:Ht; try done.
    apply (conn_ok_phase max c t id' TkCreated p TkRunning p (cn_permits c) (cn_held c)); try done.
    apply H.
  - destruct (cn_active c !! id); [|done]. by destruct H.
  - by apply conn_ok_acts.
Qed.

(** ** Programs of the reader

    [serves P m Q]: from a connection in good order where [P] holds, [m] returns a value;
    the connection is in good order after every event, and every reply it gave was true of
    its state at that moment; and [Q] holds of the value, the final local state, the
    connection and what was logged. *)

(** The reply of the connection is the one its state gives. *)
Definition honest {R ext} (c : Conn) (e : event (server_io R ext)) : Prop :=
  match ev_call e in server_io _ _ A return A -> Prop with
  | Reg call => fun r => r = conn_reply c call
  | Ext _ => fun _ => True
  end (ev_reply e).

(** A computation that makes other calls, run as part of one that makes [call']. *)
Section embedding.
Context {call call' : Type -> Type} (f : forall A, call A -> call' A).

Definition embed_event (e : event call) : event call' := Event (ev_type e) (f _ (ev_call e)) (ev_reply e).

Definition embed_env (env : environment call') (h : list (event call')) : environment call :=
  fun h' A c => env (h ++ map embed_event h') A (f A c).

Definition embed {S E A} (m : eff call S E A) : eff call' S E A := fun env h s =>
  let o := m (embed_env env h) [] s in Outcome (map embed_event (trace o)) (final o) (value o).
End embedding.

(** What the steps of the other tasks cannot falsify. *)
Definition stable (P : Conn -> Prop) : Prop := forall c a, P c -> P (act c a).

Lemma stable_acts P c l : stable P -> P c -> P (acts c l).
Proof. unfold acts. intros HP. revert c. induction l as [|a l IH]; intros c H; cbn; [done|]. by apply IH, HP. Qed.

Lemma stable_true : stable (fun _ => True).
Proof. done. Qed.

Lemma stable_and P Q : stable P -> stable Q -> stable (fun c => P c /\ Q c).
Proof. intros HP HQ c a [H1 H2]. split; [by apply HP|by apply HQ]. Qed.

Lemma stable_absent id : stable (fun c => cn_active c !! id = None).
Proof.
  intros c a H. destruct a as [t|t|t]; cbn; destruct (cn_tasks c !! t) as [[id' [] p]|]; try done.
  cbn. apply lookup_delete_None. auto.
Qed.

Lemma stable_created t id p : stable (fun c => cn_tasks c !! t = Some (MkTask id TkCreated p)).
Proof.
  intros c a H. destruct a as [u|u|u]; cbn; destruct (cn_tasks c !! u) as [[id' [] q]|] eqn:Hu; try done; cbn.
  all: assert (u <> t) by (intros ->; congruence).
  all: by rewrite ?lookup_insert_ne, ?lookup_delete_ne.
Qed.

(** The tasks touch neither the tokens nor the permit the reader holds. *)
Lemma stable_reader (P : gset token -> bool -> token -> bool -> Prop) :
  stable (fun c => P (cn_cancelled c) (cn_shutdown c) (cn_next c) (cn_held c)).
Proof. intros c a H. destruct a as [t|t|t]; cbn; by destruct (cn_tasks c !! t) as [[id' [] p]|]. Qed.

(** No task is between its entry and its start, except perhaps one. *)
Definition only_created (p : token -> Prop) (c : Conn) : Prop :=
  forall t tk, cn_tasks c !! t = Some tk -> tk_phase tk = TkCreated -> p t.
Abbreviation no_created := (only_created (fun _ => False)).

Lemma stable_only_created p : stable (only_created p).
Proof.
  intros c a H t tk. destruct a as [u|u|u]; cbn; destruct (cn_tasks c !! u) as [[id' [] q]|] eqn:Hu;
    cbn; rewrite ?lookup_insert_Some, ?lookup_delete_Some; intros; naive_solver.
Qed.

(** [TaskPhase]s a task does not leave. *)
Definition settled (t : token) (c : Conn) : Prop :=
  forall tk, cn_tasks c !! t = Some tk -> tk_phase tk = TkPanicked.

Lemma stable_settled t : stable (settled t).
Proof.
  intros c a H tk. destruct a as [u|u|u]; cbn; destruct (cn_tasks c !! u) as [[id' [] q]|] eqn:Hu;
    cbn; rewrite ?lookup_insert_Some, ?lookup_delete_Some; intros Ht; try (by apply H);
    destruct (decide (u = t)) as [->|]; try (by apply H in Hu); naive_solver.
Qed.

Lemma settle c t : no_created c -> settled t (act (act c (TaskRemoved t)) (TaskEnded t)).
Proof.
  intros Hc tk. cbn. destruct (cn_tasks c !! t) as [[id [] p]|] eqn:Ht; cbn; rewrite ?Ht; cbn.
  - by destruct (Hc _ _ Ht).
  - by rewrite lookup_insert_eq; cbn; rewrite lookup_delete_eq.
  - by rewrite lookup_delete_eq.
  - by intros [= <-].
  - done.
Qed.

Lemma act_dom c a t : is_Some (cn_tasks (act c a) !! t) -> is_Some (cn_tasks c !! t).
Proof.
  destruct a as [u|u|u]; cbn; destruct (cn_tasks c !! u) as [[id' [] q]|] eqn:Hu; cbn; try done;
    rewrite ?lookup_insert_is_Some, ?lookup_delete_is_Some; naive_solver.
Qed.

Lemma acts_dom c l t : is_Some (cn_tasks (acts c l) !! t) -> is_Some (cn_tasks c !! t).
Proof. unfold acts. revert c. induction l as [|a l IH]; intros c; cbn; [done|]. intros H%IH. by eapply act_dom. Qed.

Lemma finish_settles c l t :
  no_created c -> t ∈ l -> settled t (acts c (l ≫= fun t => [TaskRemoved t; TaskEnded t])).
Proof.
  revert c. induction l as [|u l IH]; intros c Hc Hin; [by apply not_elem_of_nil in Hin|].
  change (settled t (acts (act (act c (TaskRemoved u)) (TaskEnded u)) (l ≫= fun t => [TaskRemoved t; TaskEnded t]))).
  apply elem_of_cons in Hin as [->|Hin].
  - apply stable_acts; [apply stable_settled|]. by apply settle.
  - apply IH; [|done]. by do 2 apply stable_only_created.
Qed.

(** Waiting for every task leaves only those that panicked. *)
Lemma join_all_settles c t : no_created c -> settled t (acts c (finish_all (cn_tasks c))).
Proof.
  intros Hc tk Htk. assert (t ∈ (map_to_list (cn_tasks c)).*1) as Hin.
  { assert (is_Some (cn_tasks c !! t)) as [tk' Htk'] by (eapply acts_dom; by eexists).
    apply list_elem_of_fmap. exists (t, tk'). split; [done|]. by apply elem_of_map_to_list. }
  by apply (finish_settles _ _ _ Hc Hin).
Qed.

Lemma settled_permits max c : conn_ok max c -> (forall t, settled t c) -> cn_held c = false -> cn_permits c = max.
Proof.
  intros [H1 _ _ _ H5] Hs Hh. rewrite Hh in H1. enough (held_by (cn_tasks c) = 0) by (cbn in H1; lia).
  assert (forall t tk, cn_tasks c !! t = Some tk -> tk_permit tk = false) as Hp by (intros t tk Ht; eapply H5; [done|by eapply Hs]).
  clear -Hp. induction (cn_tasks c) as [|t tk m Hm IH] using map_ind; [done|]. rewrite held_by_insert by done.
  rewrite (Hp t tk) by apply lookup_insert_eq. cbn. apply IH. intros t' tk' Ht'. eapply (Hp t'). rewrite lookup_insert_ne; [done|].
  intros <-. congruence.
Qed.

Lemma token_cancelled_act c a t : token_cancelled (act c a) t = token_cancelled c t.
Proof. destruct a as [u|u|u]; cbn; by destruct (cn_tasks c !! u) as [[id' [] p]|]. Qed.

Section logic.
Context {R : Type} {ext : Type -> Type} {X : Type}.
Context (max : usize) (schedule : nat -> list action) (outside : environment (server_io R ext)).
Context (log_of : event (server_io R ext) -> list X).

Abbreviation at_ h := (conn_at max schedule h).
Abbreviation env := (conn_env max schedule outside).

Definition serves {S E A} (m : eff (server_io R ext) S E A) (P : S -> Conn -> Prop)
    (Q : A -> S -> Conn -> list X -> Prop) : Prop :=
  forall h s, conn_ok max (at_ h) -> P s (at_ h) -> let o := m env h s in
    exists a, value o = Ok a /\
      (forall t u, trace o = t ++ u -> conn_ok max (at_ (h ++ t))) /\
      (forall t e u, trace o = t ++ e :: u -> honest (at_ (h ++ t)) e) /\
      Q a (final o) (at_ (h ++ trace o)) (trace o ≫= log_of).

Section rules.
Context {S E : Type}.

Lemma serves_ret {A} (a : A) (P : S -> Conn -> Prop) (Q : A -> S -> Conn -> list X -> Prop) :
  (forall s c, P s c -> Q a s c []) -> serves (E := E) (mret a) P Q.
Proof.
  intros HQ h s Hok HP. exists a. cbn. split; [done|]. rewrite app_nil_r. split; [|split; [|by apply HQ]].
  - intros [] u Ht; [by rewrite app_nil_r|done].
  - by intros [] ? ?.
Qed.

Lemma serves_with_state {A} (f : S -> S * result E A) P (Q : A -> S -> Conn -> list X -> Prop) :
  (forall s c, P s c -> exists s' a, f s = (s', Ok a) /\ Q a s' c []) -> serves (with_state f) P Q.
Proof.
  intros HQ h s Hok HP. destruct (HQ s _ HP) as (s' & a & Hf & Ha). exists a. unfold with_state. rewrite Hf. cbn.
  split; [done|]. rewrite app_nil_r. split; [|split; [|done]].
  - intros [] u Ht; [by rewrite app_nil_r|done].
  - by intros [] ? ?.
Qed.

Lemma serves_bind {A B} (m : eff _ S E A) (k : A -> eff _ S E B) P (F : A -> S -> Conn -> list X -> Prop)
    (Q : B -> S -> Conn -> list X -> Prop) :
  serves m P F -> (forall a l, serves (k a) (fun s c => F a s c l) (fun b s c l' => Q b s c (l ++ l'))) ->
  serves (m ≫= k) P Q.
Proof.
  intros Hm Hk h s Hok HP. destruct (Hm h s Hok HP) as (a & Ha & Hpre & Htrue & HF).
  assert (conn_ok max (at_ (h ++ trace (m env h s)))) as Hok' by (eapply Hpre; by rewrite app_nil_r).
  destruct (Hk a _ _ _ Hok' HF) as (b & Hb & Hpre' & Htrue' & HQ). exists b.
  unfold mbind, eff_bind. rewrite Ha. cbn. split; [done|]. split; [|split].
  - intros t u [(k' & Hk1 & ->)|(k' & -> & Hk2)]%app_eq_inv; [by eapply Hpre|].
    rewrite app_assoc. by eapply Hpre'.
  - intros t e u [(k' & Hk1 & Hk2)|(k' & -> & Hk2)]%app_eq_inv.
    + destruct k' as [|e' k']; [|injection Hk2 as -> ->; by eapply Htrue].
      rewrite app_nil_r in Hk1. subst t. rewrite <-(app_nil_r (h ++ _)). by eapply Htrue'.
    + rewrite app_assoc. by eapply Htrue'.
  - rewrite app_assoc. by rewrite bind_app.
Qed.

Lemma serves_weaken {A} (m : eff _ S E A) (P P' : S -> Conn -> Prop) (Q Q' : A -> S -> Conn -> list X -> Prop) :
  (forall s c, P' s c -> P s c) -> (forall a s c l, Q a s c l -> Q' a s c l) -> serves m P Q -> serves m P' Q'.
Proof.
  intros HP HQ Hm h s Hok H. destruct (Hm h s Hok (HP _ _ H)) as (a & Ha & Hpre & Htrue & Hpost). eauto 10.
Qed.

Lemma serves_pre {A} (m : eff _ S E A) (P P' : S -> Conn -> Prop) (Q : A -> S -> Conn -> list X -> Prop) :
  (forall s c, P' s c -> P s c) -> serves m P Q -> serves m P' Q.
Proof. intros HP. by apply serves_weaken. Qed.

(** A fact that does not depend on the state. *)
Lemma serves_pure {A} (m : eff _ S E A) (P : S -> Conn -> Prop) (Q : A -> S -> Conn -> list X -> Prop) (F : Prop) :
  (F -> serves m P Q) -> serves m (fun s c => F /\ P s c) Q.
Proof. intros Hm h s Hok [HF HP]. by apply Hm. Qed.

(** A first part that logs nothing. *)
Lemma serves_silent {A B} (m : eff _ S E A) (k : A -> eff _ S E B) P (F : A -> S -> Conn -> Prop)
    (Q : B -> S -> Conn -> list X -> Prop) :
  serves m P (fun a s c l => l = [] /\ F a s c) -> (forall a, serves (k a) (F a) Q) -> serves (m ≫= k) P Q.
Proof.
  intros Hm Hk. eapply serves_bind; [exact Hm|]. intros a l. cbn beta. apply serves_pure. intros ->. apply Hk.
Qed.

(** One event, from a connection in good order. *)
Lemma serves_event {A} (c : server_io R ext A) P (Q : A -> S -> Conn -> list X -> Prop) :
  (forall s k (h : list (event (server_io R ext))), conn_ok max k -> P s k -> at_ h = k ->
     match c with Reg call => conn_pre k call | Ext _ => True end /\
     forall l, Q (env h A c) s (acts (server_effect k (Event A c (env h A c))) l)
                 (log_of (Event A c (env h A c)))) ->
  serves (E := E) (perform c) P Q.
Proof.
  intros HQ h s Hok HP. destruct (HQ s _ h Hok HP eq_refl) as [Hpre HQ']. exists (env h A c). cbn [perform value trace final].
  assert (conn_ok max (server_effect (at_ h) (Event A c (env h A c)))) as Hok'.
  { unfold server_effect. cbn. destruct c; [by apply conn_ok_effect|done]. }
  split; [done|]. cbn [mbind list_bind]. rewrite app_nil_r, conn_at_snoc. split; [|split; [|apply HQ']].
  - intros [|e t] u; cbn; [rewrite app_nil_r; done|]. intros [= <- Ht]. destruct t; [|done].
    rewrite conn_at_snoc. by apply conn_ok_acts.
  - intros [|e' t] e u; cbn; [|intros [= _ Ht]; by destruct t]. intros [= <- _]. rewrite app_nil_r.
    unfold honest, conn_env. cbn. by destruct c.
Qed.

Lemma serves_reg {A} (c : conn_io R A) (P : S -> Conn -> Prop) (Q : A -> S -> Conn -> list X -> Prop) :
  (forall s k, conn_ok max k -> P s k -> conn_pre k c /\
     forall l, Q (conn_reply k c) s (acts (conn_effect k c) l) (log_of (Event A (Reg c) (conn_reply k c)))) ->
  serves (E := E) (perform (Reg c)) P Q.
Proof.
  intros HQ. apply serves_event. intros s k h Hok HP <-. destruct (HQ s _ Hok HP) as [Hpre HQ']. split; [done|].
  intros l. unfold server_effect. cbn. apply HQ'.
Qed.

Lemma serves_ext {A} (c : ext A) (P : S -> Conn -> Prop) (Q : A -> S -> Conn -> list X -> Prop) :
  (forall s k r l, conn_ok max k -> P s k -> Q r s (acts k l) (log_of (Event A (Ext c) r))) ->
  serves (E := E) (perform (Ext c)) P Q.
Proof.
  intros HQ. apply serves_event. intros s k h Hok HP <-. split; [done|]. intros l. unfold server_effect. cbn. by apply HQ.
Qed.

Lemma serves_ext_reply {A} (c : ext A) (C : A -> Prop) (P : S -> Conn -> Prop) (Q : A -> S -> Conn -> list X -> Prop) :
  (forall h, C (outside h A (Ext c))) ->
  (forall s k r l, conn_ok max k -> P s k -> C r -> Q r s (acts k l) (log_of (Event A (Ext c) r))) ->
  serves (E := E) (perform (Ext c)) P Q.
Proof.
  intros HC HQ. apply serves_event. intros s k h Hok HP <-. split; [done|]. intros l. unfold server_effect. cbn. by apply HQ.
Qed.

(** Calls to the outside leave the connection to the other tasks. *)
Lemma conn_at_ext (h t : list (event (server_io R ext))) :
  Forall (fun e => match ev_call e with Ext _ => True | Reg _ => False end) t ->
  exists l, at_ (h ++ t) = acts (at_ h) l.
Proof.
  intros Ht. revert h. induction Ht as [|e t He Ht IH]; intros h; [exists []; by rewrite app_nil_r|].
  destruct (IH (h ++ [e])) as [l Hl]. rewrite <-app_assoc in Hl. cbn in Hl. rewrite Hl, conn_at_snoc.
  unfold server_effect. destruct e as [A [A' c|A' c] r]; [done|]. cbn. eexists. unfold acts. by rewrite <-fold_left_app.
Qed.

(** A computation that only calls the outside. *)
Lemma serves_embed {call : Type -> Type} (f : forall A, call A -> ext A) {A} (m : eff call S E A) P
    (Q : A -> S -> Conn -> list X -> Prop) :
  (forall s env', exists a, let o := m env' [] s in value o = Ok a /\
     forall k l, conn_ok max k -> P s k ->
       Q a (final o) (acts k l) (trace o ≫= fun e => log_of (embed_event (fun A c => Ext (f A c)) e))) ->
  serves (embed (fun A c => Ext (f A c)) m) P Q.
Proof.
  intros HQ h s Hok HP. unfold embed. set (env' := embed_env _ _ _).
  destruct (HQ s env') as (a & Ha & HQ'). exists a. cbn [value trace final]. split; [done|].
  set (inj := embed_event _) in *.
  assert (forall t : list (event call), Forall (fun e => match ev_call e with Ext _ => True | Reg _ => False end)
    (map inj t)) as Hext by (intros t; apply Forall_map, Forall_true; by intros e).
  split; [|split].
  - intros t u Ht. destruct (conn_at_ext h t) as [l ->]; [|by apply conn_ok_acts].
    specialize (Hext (trace (m env' [] s))). rewrite Ht in Hext. by apply Forall_app in Hext as [? _].
  - intros t e u Ht. specialize (Hext (trace (m env' [] s))). rewrite Ht in Hext.
    apply Forall_app in Hext as [_ [He _]%Forall_cons]. unfold honest. destruct e as [B c r]. cbn in *. by destruct c.
  - destruct (conn_at_ext h _ (Hext (trace (m env' [] s)))) as [l ->].
    replace (map inj _ ≫= log_of) with (trace (m env' [] s) ≫= fun e => log_of (inj e)); [by apply HQ'|].
    clear. induction (trace (m env' [] s)) as [|e t IH]; cbn; [done|]. by f_equal.
Qed.
End rules.
End logic.

(** ** Cancellation reaches only the request it names *)

(** Why a token is cancelled: the reader cancelled the request it then belonged to, or
    ended the connection. *)
Definition cancelled_by {R ext} (max : usize) (schedule : nat -> list action) (h : list (event (server_io R ext)))
    (t : token) : Prop :=
  exists before e after, h = before ++ e :: after /\
    match ev_call e with
    | Reg (CancelActive id) => cn_active (conn_at max schedule before) !! id = Some t
    | Reg CancelEach => True
    | _ => False
    end.

Lemma cancelled_effect {R A} c (call : conn_io R A) t :
  t ∈ cn_cancelled (conn_effect c call) -> t ∈ cn_cancelled c \/
    match call with CancelActive id => cn_active c !! id = Some t | CancelEach => True | _ => False end.
Proof.
  destruct call; cbn; auto.
  - destruct (0 <? cn_permits c); cbn; auto.
  - destruct (cn_tasks c !! t0) as [[id' [] p]|]; cbn; auto.
  - destruct (cn_active c !! id) as [u|]; cbn; [|auto]. rewrite elem_of_union, elem_of_singleton. naive_solver.
  - intros H. left. revert H. apply (stable_acts _ _ _ (stable_reader (fun k _ _ _ => t ∈ k -> t ∈ cn_cancelled c))). done.
Qed.

Lemma cancelled_by_snoc {R ext} max schedule (h : list (event (server_io R ext))) e t :
  cancelled_by max schedule h t -> cancelled_by max schedule (h ++ [e]) t.
Proof. intros (b & e' & a & -> & H). exists b, e', (a ++ [e]). by rewrite <-app_assoc. Qed.

Lemma cancellation_is_targeted {R ext} max schedule (h : list (event (server_io R ext))) t :
  t ∈ cn_cancelled (conn_at max schedule h) -> cancelled_by max schedule h t.
Proof.
  induction h as [|e h IH] using rev_ind.
  - cbn. unfold conn_at. cbn. intros H. exfalso. revert H.
    by apply (stable_acts _ _ _ (stable_reader (fun k _ _ _ => t ∈ k -> False))).
  - rewrite conn_at_snoc. intros H.
    assert (t ∈ cn_cancelled (server_effect (conn_at max schedule h) e)) as H'.
    { revert H. by apply (stable_acts _ _ _ (stable_reader (fun k _ _ _ =>
        t ∈ k -> t ∈ cn_cancelled (server_effect (conn_at max schedule h) e)))). }
    destruct e as [A c r]. unfold server_effect in H'. cbn in H'. destruct c as [A c|A c]; [|by apply cancelled_by_snoc, IH].
    apply cancelled_effect in H' as [H'|H']; [by apply cancelled_by_snoc, IH|].
    exists h, (Event A (Reg c) r), []. split; [done|]. cbn. by destruct c.
Qed.
