(* ===== verification/ConnectionLoop.v ===== *)
(** * The loop that serves a connection

    Both servers read frame after frame, race each read against the shutdown of the
    connection, handle the frame, and at the end cancel and join what still runs.  The
    loop is stated once, over the reader ([read_frame]) and the two steps that differ,
    [handle_frame] and [read_failed]; its correctness follows from theirs. *)

From Stdlib Require Import Ascii String.
From S2P Require Import Prelude RustStr Effects Framing Queue Connection.

(** A sequence whose first part returns. *)
Lemma bind_run {call S E A B} (m : eff call S E A) (k : A -> eff call S E B) env h s a :
  value (m env h s) = Ok a ->
  let o := k a env (h ++ trace (m env h s)) (final (m env h s)) in
  value ((m ≫= k) env h s) = value o /\ trace ((m ≫= k) env h s) = trace (m env h s) ++ trace o.
Proof. intros Ha. unfold mbind, eff_bind. rewrite Ha. done. Qed.

(** What the reader did, with the replies it got: it raced the next frame against the
    shutdown; looked a request up; asked for a permit; entered a request and started its
    task; cancelled a request; or did something outside. *)
Inductive item (R Y : Type) :=
| Raced (shutdown : bool)
| Looked (id : string) (active : bool)
| Permitted (granted : bool)
| Entered (id : string) (t : token)
| Started (id : string) (t : token) (request : R)
| CancelledFor (id : string) (active : bool)
| Did (y : Y).
Arguments Raced {R Y} shutdown.
Arguments Looked {R Y} id active.
Arguments Permitted {R Y} granted.
Arguments Entered {R Y} id t.
Arguments Started {R Y} id t request.
Arguments CancelledFor {R Y} id active.
Arguments Did {R Y} y.

Definition reg_items {R Y A} (c : conn_io R A) : A -> list (item R Y) :=
  match c in conn_io _ A return A -> list (item R Y) with
  | IsActive id => fun active => [Looked id active]
  | TryPermit => fun granted => [Permitted granted]
  | Begin id => fun t => [Entered id t]
  | SpawnTask id t request => fun _ => [Started id t request]
  | CancelActive id => fun active => [CancelledFor id active]
  | JoinFinished | CancelShutdown | CancelEach | JoinAll => fun _ => []
  end.

(** Whether the loop body goes on to its end or [continue]s. *)
Inductive flow := Continue | Through.

Section loop.
Context {R : Type} {ext : Type -> Type}.
Abbreviation conn_eff S E A := (eff (server_io R ext) S E A).

Context (read_frame : Reader -> result LineError (option (string * Reader))) (shutdown_wins : ext bool)
  (handle_frame : string -> conn_eff Reader Empty_set flow)
  (read_failed : LineError -> conn_eff Reader Empty_set unit).

(** [read_frame] on the connection's reader. *)
Definition next_frame : conn_eff Reader Empty_set (result LineError (option string)) :=
  with_state (fun reader =>
    match read_frame reader with
    | Ok (Some (frame, rest)) => (rest, Ok (Ok (Some frame)))
    | Ok None => (reader, Ok (Ok None))
    | Err e => (reader, Ok (Err e))
    | Panic => (reader, Panic)
    end).

Fixpoint connection_loop (fuel : nat) : conn_eff Reader Empty_set unit :=
  match fuel with
  | O => lift Panic
  | S fuel' =>
      stop ← perform (Ext shutdown_wins);
      if stop : bool then mret tt
      else
        frame ← next_frame;
        match frame with
        | Ok (Some bytes) =>
            flow ← handle_frame bytes;
            match flow with
            | Continue => mret tt
            | Through => perform (Reg JoinFinished)
            end;;
            connection_loop fuel'
        | Ok None => mret tt
        | Err error => read_failed error
        | Panic => lift Panic
        end
  end.

(** Every turn that goes on has read at least one byte. *)
Definition serve_connection : conn_eff Reader Empty_set unit :=
  reader ← with_state (fun reader => (reader, Ok reader));
  connection_loop (S (String.length (pending reader)));;
  perform (Reg CancelShutdown);;
  perform (Reg CancelEach);;
  perform (Reg JoinAll).

(** ** Correctness *)

Context {Y : Type} (max : usize) (schedule : nat -> list action) (outside : environment (server_io R ext)).
Abbreviation X := (item R Y).
Context (log_of : event (server_io R ext) -> list X).
Context (shutdown_logged : forall r, log_of (Event _ (Ext shutdown_wins) r) = [Raced r]).
Context (reg_logged : forall A (c : conn_io R A) r, log_of (Event A (Reg c) r) = reg_items c r).
Context (read_progress : forall reader, match read_frame reader with
  | Ok (Some (_, rest)) => (String.length (pending rest) < String.length (pending reader))%nat
  | Panic => False
  | _ => True
  end).

Abbreviation serves := (serves max schedule outside log_of).

(** Between two frames the reader holds no permit and has no half-started task. *)
Definition idle (c : Conn) : Prop := cn_held c = false /\ no_created c.

Lemma stable_idle : stable idle.
Proof. apply stable_and; [apply (stable_reader (fun _ _ _ held => held = false))|apply stable_only_created]. Qed.

(** Entering a request that is not active, and starting its task. *)
Definition start_request (id : string) (request : R) : conn_eff Reader Empty_set flow :=
  cancellation ← perform (Reg (Begin id));
  perform (Reg (SpawnTask id cancellation request));;
  mret Through.

Lemma start_serves (I : Reader -> Prop) id request :
  serves (start_request id request) (fun s c => I s /\ cn_active c !! id = None /\ no_created c)
    (fun _ s c l => I s /\ idle c /\ exists t, l = [Entered id t; Started id t request]).
Proof.
  eapply (serves_bind _ _ _ _ _ _ _ (fun t s c l => l = [Entered id t] /\ I s /\ cn_held c = false /\ only_created (eq t) c)).
  { apply serves_reg. intros s k _ (HI & Hact & Hcr). split; [done|]. intros l. split; [by rewrite reg_logged|].
    split; [done|]. split; [by apply (stable_acts _ _ _ (stable_reader (fun _ _ _ held => held = false)))|].
    apply (stable_acts _ _ _ (stable_only_created _)). intros t tk. cbn.
    rewrite lookup_insert_Some. intros [[<- <-]|[_ Ht]] Hp; [done|]. by destruct (Hcr _ _ Ht Hp). }
  intros t entered. apply serves_pure. intros ->.
  eapply (serves_bind _ _ _ _ _ _ _ (fun _ s c k => I s /\ idle c /\ k = [Started id t request])).
  { apply serves_reg. intros s k _ (HI & Hh & Hcr). split; [done|]. intros l.
    split; [done|]. split; [|by rewrite reg_logged]. apply stable_acts; [apply stable_idle|]. cbn.
    destruct (cn_tasks k !! t) as [[? [] ?]|] eqn:Ht; (split; [done|]); intros t' tk; cbn;
      rewrite ?lookup_insert_Some; [intros [[<- <-]|[Hne Ht']] Hp; [done|]|intros Ht' Hp..];
      pose proof (Hcr _ _ Ht' Hp); subst t'; congruence || (rewrite Ht in Ht'; by simplify_eq). }
  intros [] k. apply serves_ret. intros s c (HI & Hc & ->). rewrite app_nil_r. eauto.
Qed.

Context (answered : string -> list X -> Prop) (failed : LineError -> list X -> Prop).

(** A step that leaves the reader alone and logs what [spec] says. *)
Definition logs (spec : list X -> Prop) (I : Reader -> Prop) {A} : A -> Reader -> Conn -> list X -> Prop :=
  fun _ reader c l => I reader /\ idle c /\ spec l.

Context (handle_frame_serves : forall I bytes,
  serves (handle_frame bytes) (fun s c => I s /\ idle c) (logs (answered bytes) I)).
Context (read_failed_serves : forall I e,
  serves (read_failed e) (fun s c => I s /\ idle c) (logs (failed e) I)).

(** What the reader does with the bytes of a connection: it answers frame after frame until
    the shutdown wins, the bytes are at their end, or a frame cannot be read. *)
Inductive transcript : Reader -> list X -> Prop :=
| tr_shutdown reader : transcript reader [Raced true]
| tr_end reader : read_frame reader = Ok None -> transcript reader [Raced false]
| tr_failed reader e l : read_frame reader = Err e -> failed e l -> transcript reader (Raced false :: l)
| tr_frame reader frame rest l k : read_frame reader = Ok (Some (frame, rest)) -> answered frame l ->
    transcript rest k -> transcript reader (Raced false :: l ++ k).

Lemma connection_loop_serves fuel reader :
  (String.length (pending reader) < fuel)%nat ->
  serves (connection_loop fuel) (fun s c => s = reader /\ idle c) (fun _ _ c l => idle c /\ transcript reader l).
Proof.
  revert reader. induction fuel as [|fuel IH]; intros reader Hf; [lia|]. cbn [connection_loop].
  eapply (serves_bind _ _ _ _ _ _ _ (fun won s c l => l = [Raced won] /\ s = reader /\ idle c)).
  { apply serves_ext. intros s k r l _ [-> Hk]. split; [apply shutdown_logged|]. split; [done|].
    by apply stable_acts; [apply stable_idle|]. }
  intros won raced. apply serves_pure. intros ->.
  destruct won; [apply serves_ret; intros s c [_ Hc]; split; [done|constructor]|].
  pose proof (read_progress reader) as Hp.
  eapply (serves_silent _ _ _ _ _ _ _ (fun r s c => idle c /\
    match read_frame reader with
    | Ok (Some (frame, rest)) => r = Ok (Some frame) /\ s = rest
    | Ok None => r = Ok None
    | Err e => r = Err e /\ s = reader
    | Panic => False
    end)).
  { apply serves_with_state. intros s c [-> Hc].
    revert Hp. destruct (read_frame reader) as [[[frame rest]|]|e|]; [..|done]; intros _; by eexists _, _. }
  intros r. destruct (read_frame reader) as [[[frame rest]|]|e|] eqn:Hr; [..|done].
  - eapply (serves_pre _ _ _ _ _ (fun s c => r = Ok (Some frame) /\ s = rest /\ idle c)); [naive_solver|].
    apply serves_pure. intros ->.
    eapply serves_bind; [apply (handle_frame_serves (fun s => s = rest))|]. intros fl l.
    eapply (serves_pre _ _ _ _ _ (fun s c => answered frame l /\ s = rest /\ idle c)); [by intros s c (? & ? & ?)|].
    apply serves_pure. intros Ha.
    eapply (serves_silent _ _ _ _ _ _ _ (fun _ s c => s = rest /\ idle c)).
    { destruct fl; [by apply serves_ret|]. apply serves_reg. intros s k _ [-> Hk]. split; [done|]. intros k'.
      split; [by rewrite reg_logged|]. split; [done|]. by apply stable_acts; [apply stable_idle|]. }
    intros []. eapply serves_weaken; [| |apply (IH rest); lia]; [done|]. intros [] s c k [Hc Hl].
    split; [done|]. exact (tr_frame reader frame rest l k Hr Ha Hl).
  - eapply (serves_pre _ _ _ _ _ (fun s c => r = Ok None /\ idle c)); [naive_solver|].
    apply serves_pure. intros ->. apply serves_ret. intros s c Hc. split; [done|]. by apply tr_end.
  - eapply (serves_pre _ _ _ _ _ (fun s c => r = Err e /\ s = reader /\ idle c)); [naive_solver|].
    apply serves_pure. intros ->.
    eapply serves_weaken; [| |apply (read_failed_serves (fun s => s = reader))]; [done|].
    intros [] s c l (_ & Hc & Ha). split; [done|]. by eapply tr_failed.
Qed.

Lemma serve_connection_serves reader :
  serves serve_connection (fun s c => s = reader /\ idle c)
    (fun _ _ c l => transcript reader l /\ cn_held c = false /\ cn_shutdown c = true /\ forall t, settled t c).
Proof.
  unfold serve_connection.
  eapply (serves_silent _ _ _ _ _ _ _ (fun r s c => r = reader /\ s = reader /\ idle c)).
  { apply serves_with_state. intros s c [-> Hc]. by eexists _, _. }
  intros r. apply serves_pure. intros ->.
  eapply serves_bind; [apply connection_loop_serves; lia|]. intros [] l.
  eapply (serves_pre _ _ _ _ _ (fun _ c => transcript reader l /\ idle c)); [naive_solver|].
  apply serves_pure. intros Hl.
  eapply (serves_silent _ _ _ _ _ _ _ (fun _ _ c => idle c /\ cn_shutdown c = true)).
  { apply serves_reg. intros s k _ Hk. split; [done|]. intros l'. split; [by rewrite reg_logged|]. split.
    - by apply stable_acts; [apply stable_idle|].
    - by apply (stable_acts _ _ _ (stable_reader (fun _ down _ _ => down = true))). }
  intros []. eapply (serves_silent _ _ _ _ _ _ _ (fun _ _ c => idle c /\ cn_shutdown c = true)).
  { apply serves_reg. intros s k _ [Hk Hd]. split; [done|]. intros l'. split; [by rewrite reg_logged|]. split.
    - by apply stable_acts; [apply stable_idle|].
    - by apply (stable_acts _ _ _ (stable_reader (fun _ down _ _ => down = true))). }
  intros []. apply serves_reg. intros s k _ [[Hh Hcr] Hd]. split; [done|]. intros l'.
  rewrite reg_logged. cbn. rewrite app_nil_r. split; [done|].
  assert (cn_held (acts k (finish_all (cn_tasks k))) = false /\ cn_shutdown (acts k (finish_all (cn_tasks k))) = true)
    as [Hh' Hd'] by (by apply (stable_acts _ _ _ (stable_reader (fun _ down _ held => held = false /\ down = true)))).
  split; [by apply (stable_acts _ _ _ (stable_reader (fun _ _ _ held => held = false)))|].
  split; [by apply (stable_acts _ _ _ (stable_reader (fun _ down _ _ => down = true)))|].
  intros t. apply stable_acts; [apply stable_settled|]. by apply join_all_settles.
Qed.

(** ** The whole connection *)

(** The connection after the events [t]: in good order, within its limit, and with no
    request cancelled that the client did not name. *)
Definition orderly (t : list (event (server_io R ext))) : Prop :=
  conn_ok max (conn_at max schedule t) /\ held_by (cn_tasks (conn_at max schedule t)) <= max /\
  forall tok, tok ∈ cn_cancelled (conn_at max schedule t) -> cancelled_by max schedule t tok.

Lemma conn_ok_orderly t : conn_ok max (conn_at max schedule t) -> orderly t.
Proof.
  intros Ht. split; [done|]. split; [|intros tok; apply cancellation_is_targeted].
  destruct Ht as [H1 H2 _ _ _]. destruct (cn_held _); cbn in H1; lia.
Qed.

Definition outside_event (e : event (server_io R ext)) : Prop :=
  match ev_call e with Ext _ => True | Reg _ => False end.

Lemma outside_honest c e : outside_event e -> honest c e.
Proof. destruct e as [A k r]. unfold outside_event, honest. cbn. by destruct k. Qed.

Lemma conn_at_outside h e : outside_event e -> exists l, conn_at max schedule (h ++ [e]) = acts (conn_at max schedule h) l.
Proof. intros He. apply conn_at_ext. by constructor. Qed.

Lemma first_point e : 0 <= max -> outside_event e ->
  orderly [] /\ orderly [e] /\ idle (conn_at max schedule [e]).
Proof.
  intros Hm He. assert (conn_ok max (conn_at (R := R) (ext := ext) max schedule [])) as H0
    by (apply conn_ok_acts, conn_ok_new, Hm).
  destruct (conn_at_outside [] e He) as [l Hl]. cbn [app] in Hl. rewrite Hl.
  assert (conn_ok max (conn_at max schedule [e])) by (rewrite Hl; by apply conn_ok_acts).
  split; [by apply conn_ok_orderly|]. split; [by apply conn_ok_orderly|].
  apply stable_acts; [apply stable_idle|]. apply (stable_acts idle _ (schedule O)); [apply stable_idle|].
  split; [done|]. intros t tk. cbn. by rewrite lookup_empty.
Qed.

(** From the first event to the last, both of them outside the connection. *)
Lemma connection_served first last reader :
  0 <= max -> outside_event first -> outside_event last ->
  let o := serve_connection (conn_env max schedule outside) [first] reader in
  let t := ([first] ++ trace o) ++ [last] in
  value o = Ok tt /\ (forall a b, t = a ++ b -> orderly a) /\
  (forall a e b, t = a ++ e :: b -> honest (conn_at max schedule a) e) /\ transcript reader (trace o ≫= log_of) /\
  let c := conn_at max schedule t in
  cn_shutdown c = true /\ cn_permits c = max /\ forall tok, settled tok c.
Proof.
  intros Hm Hfirst Hlast. cbn zeta. destruct (first_point first Hm Hfirst) as (Hnil & [Hok Horder] & Hidle).
  destruct (serve_connection_serves reader [first] reader Hok ltac:(done))
    as ([] & Hv & Hpts & Htrue & Htr & Hheld & Hdown & Hset).
  set (body := trace (serve_connection _ _ _)) in *. clearbody body. split; [done|].
  destruct (conn_at_outside ([first] ++ body) last Hlast) as [l Hl].
  assert (conn_ok max (conn_at max schedule (([first] ++ body) ++ [last]))) as Hoklast.
  { rewrite Hl. apply conn_ok_acts. eapply Hpts. by rewrite app_nil_r. }
  split; [|split; [|split; [done|]]].
  - intros a b [(k & Hk & ->)|(k & -> & Hk)]%app_eq_inv.
    + apply app_eq_inv in Hk as [(k' & Hk' & _)|(k' & -> & Hk')]; [|apply conn_ok_orderly; by eapply Hpts].
      destruct a as [|e a]; [done|]. injection Hk' as <- Ha. destruct a; [by split|done].
    + destruct k as [|e k]; cbn in Hk; [|injection Hk as <- Hk; destruct k; [|done]; by apply conn_ok_orderly].
      rewrite app_nil_r. apply conn_ok_orderly. eapply Hpts. by rewrite app_nil_r.
  - intros a e b [(k & Hk & Hk')|(k & -> & Hk)]%app_eq_inv.
    + destruct k as [|x k]; cbn in Hk'; [injection Hk' as -> _; by apply outside_honest|]. injection Hk' as -> _.
      destruct a as [|y a]; cbn in Hk; [injection Hk as <- _; by apply outside_honest|]. injection Hk as <- Hk.
      by eapply (Htrue a x k).
    + destruct k as [|e' k]; cbn in Hk; [injection Hk as <- _; by apply outside_honest|]. injection Hk as _ Hk. by destruct k.
  - rewrite Hl in Hoklast |- *.
    assert (forall t, settled t (acts (conn_at max schedule ([first] ++ body)) l)) as Hs'
      by (intros t; apply stable_acts; [apply stable_settled|done]).
    split; [by apply (stable_acts _ _ _ (stable_reader (fun _ down _ _ => down = true)))|].
    split; [|done]. apply settled_permits; [done..|].
    by apply (stable_acts _ _ _ (stable_reader (fun _ _ _ held => held = false))).
Qed.
End loop.

(** ** Writing frames

    The task that owns the writing half of the connection. *)

Inductive writer_io : Type -> Type :=
| WriterShutdown : writer_io bool
| WriteAll (bytes : string) : writer_io (result string unit)
| CloseWriter : writer_io (result string unit).

Section writer.
(** Frames of the router or events of the broker, and [serde_json::to_vec]. *)
Context {F : Type} (to_vec : F -> result string string).

(** The frames in the channel, up to its end. *)
Fixpoint write_frames (frames : list F) : eff writer_io unit string unit :=
  match frames with
  | [] => mret tt
  | frame :: rest =>
      stop ← perform WriterShutdown;
      if stop : bool then mret tt
      else
        bytes ← lift (to_vec frame);
        written ← perform (WriteAll (write_line bytes));
        lift written;;
        write_frames rest
  end.

Definition writer_task (frames : list F) : eff writer_io unit string unit :=
  write_frames frames;;
  closed ← perform CloseWriter;
  lift closed.
End writer.

(** ** What is written is what was sent *)

Definition written_of (e : event writer_io) : string :=
  match ev_call e in writer_io A return A -> string with
  | WriteAll bytes => fun r => if is_ok r then bytes else EmptyString
  | _ => fun _ => EmptyString
  end (ev_reply e).

(** The writer sends whole frames, in order, and no frame twice: the bytes of a run in
    which no write failed are the lines of a prefix of the frames; all of them unless
    shutdown came first. *)
Theorem writer_sends_a_prefix {F} (to_vec : F -> result string string) env frames h :
  let o := write_frames to_vec frames env h tt in
  exists sent lines, sent `prefix_of` frames /\ Forall2 (fun frame line => to_vec frame = Ok line) sent lines /\
    sconcat (map written_of (trace o)) = sconcat (map write_line lines) /\
    ((forall h, env h bool WriterShutdown = false) -> value o = Ok tt -> sent = frames).
Proof.
  cbn zeta. revert h. induction frames as [|frame rest IH]; intros h.
  { exists [], []. cbn. by repeat split. }
  cbn [write_frames]. unfold mbind, eff_bind, perform, lift. cbn [value trace final].
  destruct (env h bool WriterShutdown) eqn:Hstop; cbn [value trace final].
  { exists [], []. cbn. split; [apply prefix_nil|]. split; [done|]. split; [done|]. intros Hno. congruence. }
  destruct (to_vec frame) as [line|error|] eqn:Hv; cbn [value trace final];
    [|exists [], []; cbn; split; [apply prefix_nil|done]..].
  match goal with |- context [env ?x (result string unit) ?c] => destruct (env x (result string unit) c) as [[]|error|] eqn:Hw end;
    cbn [value trace final app];
    [|exists [], []; cbn; rewrite ?Hw; cbn; split; [apply prefix_nil|done]..].
  match goal with |- context [write_frames to_vec rest env ?x tt] => destruct (IH x) as (sent & lines & Hpre & Hall & Hb & Hend) end.
  exists (frame :: sent), (line :: lines). split; [by apply prefix_cons|]. split; [by constructor|]. split.
  - cbn. rewrite Hb. done.
  - intros Hno Hval. by rewrite Hend.
Qed.
