(* ===== verification/RouterConnection.v ===== *)
(** * A client's connection to the router (crates/sentia-router/src/server.rs)

    [handle_connection] serves one client: it checks the peer, reads frames, answers each
    of them or starts a task for it, and ends by cancelling and joining the tasks.  The
    reader is a program over [Connection]; what the other tasks do in between is up to
    the schedule.  The theorem says that every frame gets exactly one answer, that no
    interleaving breaks the limit on active requests or runs two requests under one
    identifier, and that nothing is left running at the end. *)

From Stdlib Require Import Ascii String.
From S2P Require Import Prelude RustStr Bounded Contract RouterContract SocketContract Effects Framing RouterApi StreamState Queue Connection ConnectionLoop.

(** What a task is started with. *)
Record Accepted := { ac_request : RouterRequest; ac_stream : StreamId }.

(** The calls outside the connection's state: the peer's credentials, whether shutdown
    wins the [select!] against the next frame, the frames sent, the writer's result. *)
Inductive router_ext : Type -> Type :=
| PeerUid : router_ext (result string u32)
| ShutdownWins : router_ext bool
| Out A (c : stream_io A) : router_ext A
| AwaitWriter : router_ext (result string unit).
Arguments Out {A} c.

Abbreviation conn_eff S E A := (eff (server_io Accepted router_ext) S E A).

Definition out {S E A} (m : eff stream_io S E A) : conn_eff S E A :=
  embed (call := stream_io) (fun A c => Ext (Out c)) m.

Definition validate_peer {S} (euid : u32) : conn_eff S string unit :=
  credentials ← perform (Ext PeerUid);
  uid ← lift credentials;
  lift (fail_if (negb (uid =? euid)) "router socket peer UID does not match router UID"%string).

Definition already_active : ContractError :=
  ContractError_new InvalidRequest "request_id is already active on this connection" false.
Definition too_many : ContractError :=
  ContractError_new ProviderUnavailable "connection has too many active requests" true.
Definition not_for_clients : ContractError :=
  ContractError_new InvalidRequest "router accepts only request and cancel frames from clients" false.

Definition cancel_ack (cancel : CancelRequest) (accepted : bool) : CancelAck :=
  {| ca_cancel_id := cq_cancel_id cancel; ca_request_id := cq_request_id cancel; ca_accepted := accepted;
     ca_final_status := if accepted then CancelRequested else Failed;
     ca_message := if accepted then Some "cancellation forwarded to the active provider"%string
                   else Some "request was not active"%string |}.

Section connection.
(** [serde_json::from_slice] at [JsonlFrame], the text of a failed read, and the
    configured limit. *)
Context (from_slice : string -> result string JsonlFrame) (io_error : string) (max_request_bytes : usize).

Definition malformed (error : string) : ContractError :=
  ContractError_new InvalidRequest ("malformed JSONL frame: " +:+ error) false.

Definition refuse (frame_id stream_id : string) (error : ContractError) : conn_eff Reader Empty_set flow :=
  out (send_protocol_error frame_id stream_id error);;
  mret Continue.

Definition handle_request_frame (frame_id : FrameId) (stream_id : StreamId) (request : RouterRequest)
  : conn_eff Reader Empty_set flow :=
  match validate_router_request request with
  | Err error => refuse (as_str frame_id) (as_str stream_id) error
  | Panic => lift Panic
  | Ok _ =>
      let request_key := as_str (rr_request_id request) in
      active ← perform (Reg (IsActive request_key));
      if active : bool then refuse (as_str frame_id) (as_str stream_id) already_active
      else
        permit ← perform (Reg TryPermit);
        if negb permit then refuse (as_str frame_id) (as_str stream_id) too_many
        else
          start_request request_key {| ac_request := request; ac_stream := stream_id |}
  end.

Definition handle_cancel_frame (stream_id : StreamId) (cancel : CancelRequest) : conn_eff Reader Empty_set flow :=
  accepted ← perform (Reg (CancelActive (as_str (cq_request_id cancel))));
  out (frame_id ← perform (NextId "frame");
       perform (SendFrame (FCancelAck PROTOCOL_VERSION_V1 frame_id stream_id (cancel_ack cancel accepted))));;
  mret Through.

Definition handle_frame (bytes : string) : conn_eff Reader Empty_set flow :=
  match from_slice bytes with
  | Err error => refuse "unknown" "unknown" (malformed error)
  | Panic => lift Panic
  | Ok frame =>
      match validate_version frame with
      | Err error => refuse (frame_ids frame).1 (frame_ids frame).2 error
      | Panic => lift Panic
      | Ok _ =>
          match frame with
          | FRequest _ frame_id stream_id request => handle_request_frame frame_id stream_id request
          | FCancel _ _ stream_id cancel => handle_cancel_frame stream_id cancel
          | other =>
              out (send_protocol_error (frame_ids other).1 (frame_ids other).2 not_for_clients);;
              mret Through
          end
      end
  end.

Definition line_error_text (e : LineError) : string :=
  match e with
  | LineIo => io_error
  | LineEof _ => "unterminated JSONL frame"
  | LineTooLong => "JSONL frame exceeds configured size limit"
  end.

(** A frame that cannot be read gets one error. *)
Definition read_failed (error : LineError) : conn_eff Reader Empty_set unit :=
  out (send_protocol_error "unknown" "unknown"
         (ContractError_new InvalidRequest (line_error_text error) false)).

Definition handle_connection (euid : u32) : conn_eff Reader string unit :=
  validate_peer euid;;
  eff_map_err (fun never : Empty_set => match never with end)
    (serve_connection (router_read_frame max_request_bytes) ShutdownWins handle_frame read_failed);;
  written ← perform (Ext AwaitWriter);
  lift written.
End connection.

(** ** What a client can expect *)

(** What the reader did: on the connection's table, and the frames it sent. *)
Abbreviation router_item := (item Accepted JsonlFrame).
Abbreviation Sent := Did.

Definition ext_items {A} (c : router_ext A) : A -> list router_item :=
  match c in router_ext A return A -> list router_item with
  | ShutdownWins => fun won => [Raced won]
  | Out (SendFrame frame) => fun _ => [Sent frame]
  | _ => fun _ => []
  end.

Definition answer_of (e : event (server_io Accepted router_ext)) : list router_item :=
  match ev_call e in server_io _ _ A return A -> list router_item with
  | Ext c => ext_items c
  | Reg c => reg_items c
  end (ev_reply e).

(** An identifier that fits is repeated; another one is replaced by a fresh one. *)
Definition repeats (id : string) (b : BoundedString 64) : Prop :=
  match BoundedString_new id with Ok b' => b = b' | _ => True end.

Definition error_reply (frame_id stream_id : string) (error : ContractError) (l : list router_item) : Prop :=
  exists f s, l = [Sent (FError PROTOCOL_VERSION_V1 f s error)] /\ repeats frame_id f /\ repeats stream_id s.

(** What follows a valid request: it is refused when a request of its identifier is active,
    or when there is no permit; otherwise it is entered and its task is started. *)
Definition request_answered (frame_id stream_id : StreamId) (request : RouterRequest) (l : list router_item) : Prop :=
  let id := as_str (rr_request_id request) in
  let refused error k := error_reply (as_str frame_id) (as_str stream_id) error k in
  (exists k, l = Looked id true :: k /\ refused already_active k) \/
  (exists k, l = Looked id false :: Permitted false :: k /\ refused too_many k) \/
  (exists t, l = [Looked id false; Permitted true; Entered id t;
                  Started id t {| ac_request := request; ac_stream := stream_id |}]).

(** All that the reader does for a frame.  A cancel reaches the request it names, and its
    acknowledgement says whether that request was active. *)
Definition answered (from_slice : string -> result string JsonlFrame) (bytes : string) (l : list router_item) : Prop :=
  match from_slice bytes with
  | Ok frame =>
      match validate_version frame, frame with
      | Err error, _ => error_reply (frame_ids frame).1 (frame_ids frame).2 error l
      | _, FRequest _ frame_id stream_id request =>
          match validate_router_request request with
          | Err error => error_reply (as_str frame_id) (as_str stream_id) error l
          | _ => request_answered frame_id stream_id request l
          end
      | _, FCancel _ _ stream_id cancel =>
          exists f active, l = [CancelledFor (as_str (cq_request_id cancel)) active;
            Sent (FCancelAck PROTOCOL_VERSION_V1 f stream_id (cancel_ack cancel active))]
      | _, other => error_reply (frame_ids other).1 (frame_ids other).2 not_for_clients l
      end
  | Err error => error_reply "unknown" "unknown" (malformed error) l
  | Panic => False
  end.

(** All that the reader does on a connection, in the order of its frames. *)
Definition router_transcript (from_slice : string -> result string JsonlFrame) (io_error : string)
    (max_request_bytes : usize) (reader : Reader) (l : list router_item) : Prop :=
  transcript (router_read_frame max_request_bytes) (answered from_slice)
    (fun e => error_reply "unknown" "unknown"
                (ContractError_new InvalidRequest (line_error_text io_error e) false)) reader l.

Section correct.
Context (from_slice : string -> result string JsonlFrame) (io_error : string) (max_request_bytes : usize).
Context (from_slice_calm : forall bytes, from_slice bytes <> Panic).
Context (max : usize) (schedule : nat -> list action) (outside : environment (server_io Accepted router_ext)).

Abbreviation serves := (serves max schedule outside answer_of).

Lemma send_protocol_error_run {S E} frame_id stream_id error (env : environment stream_io) h (s : S) :
  let o := send_protocol_error (E := E) frame_id stream_id error env h s in
  value o = Ok tt /\ final o = s /\
  exists f g, repeats frame_id f /\ repeats stream_id g /\
    trace o ≫= (fun e => answer_of (embed_event (call := stream_io) (fun A c => Ext (Out c)) e))
      = [Sent (FError PROTOCOL_VERSION_V1 f g error)].
Proof.
  unfold send_protocol_error, id_or_next, repeats, mbind, eff_bind, perform, mret, eff_ret.
  destruct (BoundedString_new frame_id), (BoundedString_new stream_id); cbn;
    match goal with |- context [env ?x unit ?y] => destruct (env x unit y) end;
    (split; [done|]); (split; [done|]); by repeat eexists.
Qed.

Lemma protocol_error_serves I frame_id stream_id error :
  serves (out (E := Empty_set) (send_protocol_error frame_id stream_id error)) (fun s c => I s /\ idle c)
    (logs (error_reply frame_id stream_id error) I).
Proof.
  apply serves_embed. intros s env'. exists tt.
  destruct (send_protocol_error_run (E := Empty_set) frame_id stream_id error env' [] s)
    as (Hv & Hf & f & g & H1 & H2 & Ht). cbn zeta. split; [done|].
  intros k l Hok [HI Hk]. rewrite Ht, Hf. split; [done|]. split; [by apply stable_acts; [apply stable_idle|]|].
  by exists f, g.
Qed.

Lemma refuse_serves I frame_id stream_id error (spec : list router_item -> Prop) :
  (forall l, error_reply frame_id stream_id error l -> spec l) ->
  serves (refuse frame_id stream_id error) (fun s c => I s /\ idle c) (logs spec I).
Proof.
  intros Hs. eapply serves_bind; [apply protocol_error_serves|].
  intros [] l. apply serves_ret. intros s c (HI & Hc & H). rewrite app_nil_r. split; [done|]. split; [done|]. by apply Hs.
Qed.

Lemma validate_router_request_calm request : validate_router_request request <> Panic.
Proof.
  apply no_panic_spec. unfold validate_router_request, RouterRequest_validate, RequestPayload_validate.
  repeat match goal with
  | |- no_panic (_ ≫= _) = true => apply no_panic_bind; [|intros ? ?]
  | |- no_panic (fail_if _ _) = true => apply no_panic_fail_if
  | |- no_panic (match ?x with _ => _ end) = true => destruct x
  end; done.
Qed.

Lemma request_frame_serves I frame_id stream_id request (spec : list router_item -> Prop) :
  (forall error l, validate_router_request request = Err error ->
     error_reply (as_str frame_id) (as_str stream_id) error l -> spec l) ->
  (validate_router_request request = Ok tt -> forall l, request_answered frame_id stream_id request l -> spec l) ->
  serves (handle_request_frame frame_id stream_id request) (fun s c => I s /\ idle c) (logs spec I).
Proof.
  intros Herr Hok. unfold handle_request_frame. pose proof (validate_router_request_calm request).
  destruct (validate_router_request request) as [[]|error|]; [|by apply refuse_serves; eauto|done].
  specialize (Hok eq_refl). unfold request_answered in Hok. set (key := as_str (rr_request_id request)) in *.
  eapply (serves_bind _ _ _ _ _ _ _ (fun active s c l => l = [Looked key active] /\ I s /\ idle c /\
            (active = false -> cn_active c !! key = None))).
  { apply serves_reg. intros s k _ [HI Hk]. split; [done|]. intros l. split; [done|]. split; [done|].
    split; [by apply stable_acts; [apply stable_idle|]|].
    cbn. intros Hn%bool_decide_eq_false. apply (stable_acts _ _ _ (stable_absent key)). by apply eq_None_not_Some. }
  intros active looked. apply serves_pure. intros ->. destruct active.
  { eapply serves_pre; [|eapply (refuse_serves I _ _ _ (fun l => spec ([_] ++ l)))]; [by intros s c (? & ? & _)|].
    intros l Hl. apply Hok. left. by exists l. }
  eapply (serves_bind _ _ _ _ _ _ _ (fun (permit : bool) s c l => l = [Permitted permit] /\ I s /\ cn_active c !! key = None /\
            no_created c /\ (permit = false -> idle c))).
  { apply serves_reg. intros s k _ (HI & Hk & Hact). split; [done|]. intros l. cbn.
    split; [done|]. split; [done|]. split; [|split].
    - apply (stable_acts _ _ _ (stable_absent key)). destruct (_ <? _); cbn; auto.
    - apply (stable_acts _ _ _ (stable_only_created _)). by destruct Hk, (_ <? _).
    - intros ->. apply stable_acts; [apply stable_idle|done]. }
  intros permit asked. apply serves_pure. intros ->. destruct permit; cbn [negb].
  - eapply serves_weaken; [| |apply (start_serves max schedule outside answer_of (fun A c r => eq_refl) I)].
    + by intros s c (HI & Hact & Hcr & _).
    + intros fl s c l (HI & Hc & t & ->). split; [done|]. split; [done|]. apply Hok. right. right. by exists t.
  - eapply serves_pre; [|eapply (refuse_serves I _ _ _ (fun l => spec ([_] ++ [_] ++ l)))]; [intros s c (? & _ & _ & ?); auto|].
    intros l Hl. apply Hok. right. left. by exists l.
Qed.

Lemma cancel_frame_serves I stream_id cancel (spec : list router_item -> Prop) :
  (forall f active, spec [CancelledFor (as_str (cq_request_id cancel)) active;
     Sent (FCancelAck PROTOCOL_VERSION_V1 f stream_id (cancel_ack cancel active))]) ->
  serves (handle_cancel_frame stream_id cancel) (fun s c => I s /\ idle c) (logs spec I).
Proof.
  intros Hs. unfold handle_cancel_frame.
  eapply (serves_bind _ _ _ _ _ _ _ (fun active s c l => l = [CancelledFor (as_str (cq_request_id cancel)) active] /\ I s /\ idle c)).
  { apply serves_reg. intros s k _ [HI Hk]. split; [done|]. intros l. split; [done|]. split; [done|].
    apply stable_acts; [apply stable_idle|]. cbn. by destruct (cn_active k !! _). }
  intros active reached. apply serves_pure. intros ->.
  eapply (serves_bind _ _ _ _ _ _ _ (fun _ s c l => I s /\ idle c /\ exists f,
    l = [Sent (FCancelAck PROTOCOL_VERSION_V1 f stream_id (cancel_ack cancel active))])).
  { apply serves_embed. intros s env'. eexists. split; [done|]. intros k l' _ (HI & Hk).
    split; [done|]. split; [by apply stable_acts; [apply stable_idle|]|]. cbn. by eexists. }
  intros _ l'. apply serves_ret. intros s c (HI & Hc & f & ->). split; [done|]. split; [done|]. apply Hs.
Qed.

Lemma handle_frame_serves I bytes :
  serves (handle_frame from_slice bytes) (fun s c => I s /\ idle c) (logs (answered from_slice bytes) I).
Proof.
  unfold handle_frame, answered. specialize (from_slice_calm bytes).
  destruct (from_slice bytes) as [frame|error|]; [|by apply refuse_serves|done].
  destruct (validate_version frame) as [[]|error|] eqn:Hv; [|by apply refuse_serves|].
  - destruct frame; try (eapply serves_bind; [apply protocol_error_serves|];
      intros [] l; apply serves_ret; intros s c H; rewrite app_nil_r; exact H).
    + apply request_frame_serves; [by intros error l ->|]. by intros ->.
    + apply cancel_frame_serves. eauto.
  - unfold validate_version in Hv. by destruct (String.eqb _ _).
Qed.
End correct.

(** The check of the peer, the service, the writer. *)
Lemma validate_peer_run {S} euid (env : environment (server_io Accepted router_ext)) (s : S) :
  let peer := env [] _ (Ext PeerUid) in
  validate_peer euid env [] s =
    Outcome [Event _ (Ext PeerUid) peer] s
      (match peer with
       | Ok uid => fail_if (negb (uid =? euid)) "router socket peer UID does not match router UID"%string
       | Err error => Err error
       | Panic => Panic
       end).
Proof.
  cbn zeta. unfold validate_peer, mbind, eff_bind, perform, lift. cbn [value trace final].
  generalize (env [] (result string Z) (Ext PeerUid)). intros [uid|error|]; reflexivity.
Qed.

Lemma between_peer_and_writer (body : conn_eff Reader string unit) euid
    (env : environment (server_io Accepted router_ext)) reader :
  let o := (validate_peer euid;; body;; written ← perform (Ext AwaitWriter); lift written) env [] reader in
  let peer := env [] _ (Ext PeerUid) in
  let first := Event _ (Ext PeerUid) peer in
  match peer with
  | Ok uid =>
      if uid =? euid then
        value (body env [first] reader) = Ok tt ->
        exists written, value o = written /\
          trace o = ([first] ++ trace (body env [first] reader)) ++ [Event _ (Ext AwaitWriter) written]
      else trace o = [first] /\ value o = Err "router socket peer UID does not match router UID"%string
  | _ => trace o = [first] /\ forall a, value o <> Ok a
  end.
Proof.
  cbn zeta. pose proof (validate_peer_run euid env reader) as Hp. cbn zeta in Hp.
  set (peer := env [] _ (Ext PeerUid)) in *. clearbody peer.
  destruct peer as [uid|error|]; [|unfold mbind, eff_bind; rewrite Hp; cbn; done..].
  destruct (uid =? euid); cbn [negb fail_if] in Hp; [|unfold mbind, eff_bind; rewrite Hp; cbn; done].
  intros Hv.
  match goal with |- context [(validate_peer euid ≫= ?f) env [] reader] =>
    destruct (bind_run (validate_peer euid) f env [] reader tt) as [-> ->]; [by rewrite Hp|] end.
  rewrite Hp. cbn [trace final app].
  match goal with |- context [(body ≫= ?f) env ?h reader] =>
    destruct (bind_run body f env h reader tt Hv) as [-> ->] end.
  eexists. split; [reflexivity|]. cbn [perform mbind eff_bind lift value trace app]. by rewrite app_comm_cons.
Qed.

(** C4 A connection answers every frame once and keeps its requests apart, in every
    interleaving with its tasks.  A peer of another user is turned away before anything
    is read.  Otherwise the reader answers frame after frame until the shutdown wins the race
    against the next frame, the bytes are at their end, or a frame cannot be read, which gets
    one error.  All it does for a frame is what the frame asks for: an error that repeats its
    identifiers and says what is wrong; for a cancel, cancelling the request the frame names
    and an acknowledgement that says whether it was active; for a request, a refusal exactly
    when its identifier is active or no permit is free, or else its entry and its task.  What
    the table of the connection replied was true of it at that moment.  At every moment the
    active requests have different identifiers, at most [max_inflight_per_connection] tasks
    run, and a request is cancelled only by such a cancel or by the end of the connection.  At
    the end every task was cancelled and waited for, and every permit is back. *)
Theorem connection_answers_every_frame from_slice io_error max_request_bytes max schedule outside euid reader :
  (forall bytes, from_slice bytes <> Panic) -> 0 <= max ->
  let o := handle_connection from_slice io_error max_request_bytes euid (conn_env max schedule outside) [] reader in
  (forall t u, trace o = t ++ u -> orderly max schedule t) /\
  (forall t e u, trace o = t ++ e :: u -> honest (conn_at max schedule t) e) /\
  match outside [] _ (Ext PeerUid) with
  | Ok uid =>
      if uid =? euid then
        router_transcript from_slice io_error max_request_bytes reader (trace o ≫= answer_of) /\
        (exists t, trace o = t ++ [Event _ (Ext AwaitWriter) (value o)]) /\
        let c := conn_at max schedule (trace o) in
        cn_shutdown c = true /\ cn_permits c = max /\ forall t, settled t c
      else trace o = [Event _ (Ext PeerUid) (Ok uid)] /\
           value o = Err "router socket peer UID does not match router UID"%string
  | refused => trace o = [Event _ (Ext PeerUid) refused] /\ forall a, value o <> Ok a
  end.
Proof.
  intros Hs Hm. cbn zeta. set (env := conn_env max schedule outside). set (peer := outside [] _ (Ext PeerUid)).
  set (first := Event _ (Ext PeerUid) peer : event (server_io Accepted router_ext)).
  destruct (first_point max schedule first Hm I) as (Hnil & Hone & _).
  assert ((forall t u, [first] = t ++ u -> orderly max schedule t) /\
    (forall t e u, [first] = t ++ e :: u -> honest (conn_at max schedule t) e)) as Hpre.
  { split; [intros [|e t] u; [done|]; intros [= <- Ht]; by destruct t|].
    intros [|e' t] e u; [by intros [= <- _]|]. intros [= _ Ht]. by destruct t. }
  set (body := serve_connection (router_read_frame max_request_bytes) ShutdownWins (handle_frame from_slice)
                 (read_failed io_error)).
  pose proof (between_peer_and_writer (eff_map_err (fun never : Empty_set => match never with end) body)
    euid env reader) as Hrun.
  cbn zeta in Hrun. change (env [] _ (Ext PeerUid)) with peer in Hrun.
  unfold handle_connection. fold body. match goal with |- context [trace ?x] => set (o := x) in * end. clearbody o.
  destruct peer as [uid|error|]; [|by destruct Hrun as [Ht ?], Hpre as [??]; rewrite Ht..].
  destruct (uid =? euid); [|by destruct Hrun as [Ht ?], Hpre as [??]; rewrite Ht].
  fold first in Hrun.
  assert (forall last, outside_event last -> _) as Hserved by (intros last Hl; exact (
    connection_served (router_read_frame max_request_bytes) ShutdownWins (handle_frame from_slice) (read_failed io_error)
      max schedule outside answer_of (fun r => eq_refl) (fun A c r => eq_refl)
      (fun reader => read_frame_progress _ _ reader) (answered from_slice)
      (fun e => error_reply "unknown" "unknown"
                  (ContractError_new InvalidRequest (line_error_text io_error e) false))
      (handle_frame_serves from_slice Hs max schedule outside)
      (fun I e => protocol_error_serves max schedule outside I _ _ _)
      first last reader Hm I Hl)).
  fold body env in Hserved. cbn zeta in Hserved.
  destruct (Hrun ltac:(unfold eff_map_err; cbn [value]; by rewrite (proj1 (Hserved first I)))) as (written & Hval & Ht).
  cbn [eff_map_err trace] in Ht. rewrite Ht, Hval.
  destruct (Hserved (Event _ (Ext AwaitWriter) written) I) as (_ & Hpts & Htrue & Htr & Hend).
  split; [exact Hpts|]. split; [exact Htrue|]. split; [|split; [by eexists|exact Hend]].
  rewrite !bind_app. cbn [mbind list_bind answer_of ev_call first app]. by rewrite app_nil_r.
Qed.

(** Two requests under one identifier, then a cancel, on a connection with one permit. *)
Definition demo_router_request : RouterRequest :=
  {| rr_version := BStr "sentia.v1" eq_refl; rr_request_id := BStr "request-1" eq_refl;
     rr_session_id := BStr "session-1" eq_refl; rr_created_at_ms := 1; rr_capability := Inference;
     rr_policy := LocalOnly; rr_provider_id := None;
     rr_provenance := {| dp_source := UserInput; dp_sensitivity := Internal; dp_redaction_applied := false;
                         dp_origin_label := BStr "cli" eq_refl; dp_trace_id := None |};
     rr_payload := {| rp_mime_type := BStr "text/plain" eq_refl; rp_content := BStr "hello" eq_refl;
                      rp_truncated := false; rp_byte_count := 5 |};
     rr_consent_token := None |}.

Definition demo_from_slice (bytes : string) : result string JsonlFrame :=
  if String.eqb bytes "request" then
    Ok (FRequest PROTOCOL_VERSION_V1 (BStr "frame-1" eq_refl) (BStr "stream-1" eq_refl) demo_router_request)
  else if String.eqb bytes "cancel" then
    Ok (FCancel PROTOCOL_VERSION_V1 (BStr "frame-2" eq_refl) (BStr "stream-2" eq_refl)
          {| cq_cancel_id := BStr "cancel-1" eq_refl; cq_request_id := BStr "request-1" eq_refl;
             cq_reason := UserRequested; cq_requested_at_ms := 2 |})
  else Err "expected value at line 1 column 1".

Definition demo_stream {A} (c : stream_io A) : A :=
  match c with
  | NextId _ => BStr "frame-9" eq_refl
  | FrameClock => 5
  | SendFrame _ => tt
  end.

Definition demo_ext {A} (c : router_ext A) : A :=
  match c with
  | PeerUid => Ok 1000
  | ShutdownWins => false
  | Out c => demo_stream c
  | AwaitWriter => Ok tt
  end.

Definition demo_client : environment (server_io Accepted router_ext) := fun _ _ c =>
  match c with
  | Reg c => conn_reply (Conn_new 0) c
  | Ext c => demo_ext c
  end.

Definition demo_bytes : Reader :=
  [Some ("request" +:+ String LF "req"); Some ("uest" +:+ String LF "?" +:+ String LF "cancel" +:+ String LF EmptyString)].

Definition demo_connection :=
  handle_connection demo_from_slice "broken pipe" 1024 1000 (conn_env 1 (fun _ => []) demo_client) [] demo_bytes.

Lemma connection_answers_every_frame_witness :
  router_transcript demo_from_slice "broken pipe" 1024 demo_bytes (trace demo_connection ≫= answer_of) /\
  length (trace demo_connection ≫= answer_of) = 14%nat /\
  cn_permits (conn_at 1 (fun _ => []) (trace demo_connection)) = 1.
Proof.
  destruct (connection_answers_every_frame demo_from_slice "broken pipe" 1024 1 (fun _ => []) demo_client 1000 demo_bytes)
    as (_ & _ & Htr & _ & _ & Hp & _).
  - intros bytes. unfold demo_from_slice. by destruct (String.eqb bytes "request"), (String.eqb bytes "cancel").
  - lia.
  - split; [exact Htr|]. split; [vm_compute; reflexivity|exact Hp].
Defined.
