(* ===== verification/RouterRequests.v ===== *)
(** * One request of a connection (crates/sentia-router/src/server.rs)

    [process_request] is what a task of the connection runs: it decodes the request, has
    the router answer it (a chat, or a control request about status, settings and
    consent) and turns the router's events into the frames of the client's stream. *)

From Stdlib Require Import Ascii String.
From S2P Require Import Prelude RustStr Bounded Contract RouterContract ToolContract SocketContract Effects Chunks RouterApi Privacy BrokerProtocol RouterTools Providers Router RouterStream StreamState ClientStream Connection RouterConnection.

(** The calls of the spawned router task: those of the router, and saving settings. *)
Inductive control_io : Type -> Type :=
| Routed A (c : router_io A) : control_io A
| UpdateSettings (patch : SettingsPatch) : control_io (result string UserSettings).
Arguments Routed {A} c.

Definition routed {S E A} (m : eff router_io S E A) : eff control_io S E A :=
  embed (call := router_io) (fun A c => Routed c) m.

Section processing.
Context `{C : PrivacyCrypto} (config : RuntimeConfig) (providers : ProviderRegistry)
  (hash_order : list string -> list string) (from_str : string -> result string Value)
  (parse_chat : string -> result string ChatContent) (parse_control : string -> result string ControlRequest)
  (control_to_string : ControlResponse -> result string string).

Definition control_event (request_id : string) (control : ControlRequest) : eff control_io unit Never InternalEvent :=
  match control with
  | CrStatus => routed (status providers request_id)
  | CrSettingsGet =>
      settings ← perform (Routed GetSettings);
      mret (IeControl request_id (CpSettings settings))
  | CrSettingsUpdate patch =>
      r ← perform (UpdateSettings patch);
      match r with
      | Ok settings => mret (IeControl request_id (CpSettings settings))
      | Err error =>
          mret (error_event request_id ErrInternal ("could not save settings: " +:+ error) false None)
      | Panic => lift Panic
      end
  | CrConsentPreview provider question context max_tokens =>
      routed (consent_preview config providers request_id provider question context max_tokens)
  end.

(** What the spawned task sends on the channel of the request; a panic drops the sender. *)
Definition router_task (world : environment control_io) (request_id : string) (decoded : DecodedRequest)
  : list InternalEvent :=
  match decoded with
  | DControl control =>
      match value (control_event request_id control world [] tt) with
      | Ok event => [event; IeDone request_id]
      | _ => []
      end
  | DChat input =>
      sends (trace (chat config providers hash_order from_str input
                      (embed_env (call := router_io) (fun A c => Routed c) world []) [] tt))
  end.

(** Run from [StreamState_new]. *)
Definition process_request (world : environment control_io) (request : RouterRequest) : seff unit :=
  let request_id := as_str (rr_request_id request) in
  match decode_request parse_chat parse_control request with
  | Err error =>
      attempt (handle control_to_string (IeError request_id error None));;
      attempt (handle control_to_string (IeDone request_id));;
      mret tt
  | Panic => lift Panic
  | Ok decoded => serve_events control_to_string (router_task world request_id decoded)
  end.
End processing.

(** ** The result of every request *)

(** A stream of numbered frames that ends with one terminal event and one valid result. *)
Definition ends_with_result (id : RequestId) (stream : StreamId) (l : list JsonlFrame) (r : RouterResult) : Prop :=
  exists k terminal frame_id,
    l = k ++ [terminal; FResult PROTOCOL_VERSION_V1 frame_id stream r] /\
    numbered id stream 0 (k ++ [terminal]) /\ Forall quiet k /\
    terminal_status terminal = Some (rs_status r) /\
    RouterResult_validate r = Ok tt /\ rs_request_id r = id.

(** A result with the text [text] of a completed request, cut to the contract's bound. *)
Definition holds_text (r : RouterResult) (mime text : string) : Prop :=
  exists payload, rs_payload r = Some payload /\ as_str (sp_mime_type payload) = mime /\
    as_str (sp_content payload) = (truncate_utf8 text (Z.to_nat 262144)).1.

(** The calls return: a panic of the settings or consent store is not modelled. *)
Definition calm_control_reply {A} (c : control_io A) : A -> Prop :=
  match c with
  | Routed c => fun r => calm_reply c r /\
      match c in router_io A return A -> Prop with PreviewConsent _ => fun r => r <> Panic | _ => fun _ => True end r
  | UpdateSettings _ => fun r => r <> Panic
  end.
Definition calm_control (world : environment control_io) : Prop :=
  forall h A (c : control_io A), calm_control_reply c (world h A c).

Lemma calm_routed world h : calm_control world -> calm (embed_env (call := router_io) (fun A c => Routed c) world h).
Proof. intros Hw h' A c. apply (Hw (h ++ map (embed_event (call := router_io) (fun A c => Routed c)) h') A (Routed c)). Qed.

Section results.
Context (env : environment stream_io) (control_to_string : ControlResponse -> result string string).

(** The end of a stream, after the frames [k]. *)
Lemma stream_end request_id id stream s shown errors k text :
  moves (StreamState_new id stream) s shown errors k -> over s -> result_text control_to_string s text ->
  wp env (handle control_to_string (IeDone request_id)) s (fun _ _ l => exists r,
    ends_with_result id stream (k ++ l) r /\ proper_result s text r).
Proof.
  intros [[Hi1 Hi2] Hnum Hseq Hquiet _ _ _] Hover Htext.
  eapply wp_mono; [|by apply (done_wp env control_to_string request_id s text)].
  cbn beta. intros [] s' l (terminal & frame_id & r & -> & Hterm & Hp). cbn in Hi1, Hi2, Hnum, Hseq.
  rewrite Hi1, Hi2, Hseq in Hterm. rewrite Hi2. exists r. split; [|done].
  exists k, terminal, frame_id. destruct Hterm as (f & ev & -> & Hr & Hn & Hst & Hpay). destruct Hp as [P1 P2 P3 P4 P5].
  split; [done|]. split; [apply numbered_app; split; [done|]; cbn; by rewrite Hr, Hn|].
  split; [done|]. split; [cbn; by rewrite Hpay, P3|]. split; [done|]. by rewrite P2.
Qed.

(** A single event, then the end. *)
Lemma error_first request_id error failure id stream :
  wp env (handle control_to_string (IeError request_id error failure)) (StreamState_new id stream)
    (fun _ s k => moves (StreamState_new id stream) s EmptyString [ce_message error] k /\ ss_error s = Some error /\ ss_completed s = false /\
                  ss_control s = None).
Proof. cbn [handle]. unfold error_frame. repeat wp_step. split; [by repeat split; repeat constructor|done]. Qed.

Lemma control_first request_id response id stream :
  wp env (handle control_to_string (IeControl request_id response)) (StreamState_new id stream)
    (fun _ s k => moves (StreamState_new id stream) s EmptyString [] k /\ ss_error s = None /\ ss_completed s = true /\
                  ss_cancelled s = false /\ ss_control s = Some response).
Proof. cbn [handle]. repeat wp_step. by repeat split; repeat constructor. Qed.

Lemma failed_status s error : ss_error s = Some error -> final_status s <> Completed.
Proof. unfold final_status. intros ->. by destruct (ss_cancelled s). Qed.

Lemma done_after_error request_id id stream s shown errors k error :
  moves (StreamState_new id stream) s shown errors k -> ss_error s = Some error -> ss_completed s = false -> ss_control s = None ->
  wp env (handle control_to_string (IeDone request_id)) s (fun _ _ l => exists r,
    ends_with_result id stream (k ++ l) r /\ rs_status r <> Completed /\ rs_error r = Some error).
Proof.
  intros Hm He Hc Hctl.
  eapply wp_mono; [|eapply (stream_end request_id id stream s shown errors k (ss_current_answer s)); [done|right; by rewrite He|
    unfold result_text; by rewrite Hctl]].
  cbn beta. intros [] _ l (r & Hr & [P1 P2 P3 P4 P5]). exists r. pose proof (failed_status s error He).
  rewrite P3. destruct P5 as [_ ->]; done.
Qed.

Lemma done_after_control request_id id stream s shown errors k response text :
  moves (StreamState_new id stream) s shown errors k -> ss_error s = None -> ss_completed s = true -> ss_cancelled s = false ->
  ss_control s = Some response -> control_to_string response = Ok text ->
  wp env (handle control_to_string (IeDone request_id)) s (fun _ _ l => exists r,
    ends_with_result id stream (k ++ l) r /\ rs_status r = Completed /\ holds_text r (control_mime response) text).
Proof.
  intros Hm He Hc Hcan Hctl Htext.
  eapply wp_mono; [|eapply (stream_end request_id id stream s shown errors k text); [done|by left|
    unfold result_text; by rewrite Hctl]].
  cbn beta. intros [] _ l (r & Hr & [P1 P2 P3 P4 P5]). exists r.
  assert (final_status s = Completed) as Hf by (unfold final_status; by rewrite Hcan, He, Hc).
  split; [done|]. rewrite P3. split; [done|]. destruct (P4 Hf) as (payload & Hp & Hmime & Ht). exists payload.
  split; [done|]. split; [|done]. rewrite Hmime. unfold result_mime. by rewrite Hctl.
Qed.
End results.

(** ** Control requests return *)

Section control.
Context `{C : PrivacyCrypto} (config : RuntimeConfig) (providers : ProviderRegistry).

(** An event that answers the request: a response or an error. *)
Definition control_outcome (request_id : string) (event : InternalEvent) : Prop :=
  (exists response, event = IeControl request_id response) \/
  (exists error failure, event = IeError request_id error failure).

Lemma consent_preview_outcome (env : environment router_io) request_id provider question context max_tokens h :
  (forall h payload, env h _ (PreviewConsent payload) <> Panic) ->
  exists event, value (consent_preview config providers request_id provider question context max_tokens env h tt) = Ok event /\
    control_outcome request_id event.
Proof.
  intros Hpv. unfold consent_preview, privacy_error_event, error_event.
  destruct (remote providers provider); [|eexists; split; [done|right; by eexists _, _]].
  pose proof (sanitize_no_panic provider question context (bound_tokens config max_tokens) None).
  destruct (sanitize _ _ _ _ _) as [payload|error|]; [|eexists; split; [done|right; by eexists _, _]|done].
  unfold mbind, eff_bind, perform, mret, eff_ret. cbn [value]. specialize (Hpv h payload).
  destruct (env h _ (PreviewConsent payload)) as [token|error|]; [| |done]; eexists; (split; [done|]);
    [left; by eexists|right; by eexists _, _].
Qed.

Lemma status_outcome (env : environment router_io) request_id h :
  exists event, value (status providers request_id env h tt) = Ok event /\ control_outcome request_id event.
Proof.
  unfold status.
  assert (forall h, exists local, value (match rg_local providers with
          | Some provider => perform (Health provider)
          | None => make_status "local" Unavailable PFailed "local provider is not configured"
          end env h tt : outcome router_io unit Never ProviderStatus) = Ok local) as Hl.
  { intros h'. destruct (rg_local providers); by eexists. }
  assert (forall remotes h, exists statuses, value (remote_statuses remotes env h tt) = Ok statuses) as Hr.
  { induction remotes as [|provider rest IH]; intros h'; cbn [remote_statuses]; [by eexists|].
    unfold remote_status, mbind, eff_bind, perform, mret, eff_ret. cbn [value trace final].
    match goal with |- context [remote_statuses rest env ?x ?s] => destruct (IH x) as [statuses Hs]; destruct s; rewrite Hs end.
    by eexists. }
  destruct (Hl h) as [local Hlocal]. unfold mbind, eff_bind. rewrite Hlocal.
  match goal with |- context [remote_statuses ?l env ?x ?s] => destruct (Hr l x) as [statuses Hs]; destruct s; rewrite Hs end.
  eexists. split; [done|]. left. by eexists.
Qed.

Lemma control_event_outcome (world : environment control_io) request_id control :
  calm_control world ->
  exists event, value (control_event config providers request_id control world [] tt) = Ok event /\
    control_outcome request_id event.
Proof.
  intros Hw. destruct control; cbn [control_event].
  - apply status_outcome.
  - eexists. split; [done|]. left. by eexists.
  - unfold mbind, eff_bind, perform, mret, eff_ret. cbn [value]. pose proof (Hw [] _ (UpdateSettings patch)) as Hu.
    cbn in Hu. destruct (world [] _ (UpdateSettings patch)) as [settings|error|]; [| |done]; eexists; (split; [done|]);
      [left; by eexists|right; by eexists _, _].
  - apply consent_preview_outcome. intros h payload.
    apply (Hw ([] ++ map (embed_event (call := router_io) (fun A c => Routed c)) h) _ (Routed (PreviewConsent payload))).
Qed.
End control.

(** ** Every request *)

Section every_request.
Context (env : environment stream_io) (control_to_string : ControlResponse -> result string string).

(** A control request's two events give one result. *)
Lemma serve_two_events request_id event id stream (Q : RouterResult -> Prop) :
  wp env (handle control_to_string event) (StreamState_new id stream)
    (fun _ s k => wp env (handle control_to_string (IeDone request_id)) s (fun _ _ l => exists r,
       ends_with_result id stream (k ++ l) r /\ Q r)) ->
  wp env (serve_events control_to_string [event; IeDone request_id]) (StreamState_new id stream)
    (fun _ _ l => exists r, ends_with_result id stream l r /\ Q r).
Proof.
  intros Hw. cbn [serve_events]. apply wp_bind, wp_attempt. eapply wp_mono; [|exact Hw]. cbn beta.
  intros [] s k Hd. apply wp_bind, wp_attempt. eapply wp_mono; [|exact Hd]. cbn beta.
  intros [] s' l (r & Hr & HQ). wp_step. rewrite app_nil_r. eauto.
Qed.

Lemma control_result request_id event id stream :
  (forall response, exists text, control_to_string response = Ok text) -> control_outcome request_id event ->
  wp env (serve_events control_to_string [event; IeDone request_id]) (StreamState_new id stream)
    (fun _ _ l => exists r, ends_with_result id stream l r /\
       match event with
       | IeControl _ response => rs_status r = Completed /\
           exists text, control_to_string response = Ok text /\ holds_text r (control_mime response) text
       | IeError _ error _ => rs_status r <> Completed /\ rs_error r = Some error
       | _ => False
       end).
Proof.
  intros Ht [(response & ->)|(error & failure & ->)]; apply serve_two_events.
  - destruct (Ht response) as [text Htext]. eapply wp_mono; [|apply control_first]. cbn beta.
    intros [] s k (Hm & He & Hc & Hcan & Hctl). eapply wp_mono; [|by eapply done_after_control].
    cbn beta. intros [] _ l (r & Hr & Hs & Hh). eauto 10.
  - eapply wp_mono; [|apply error_first]. cbn beta. intros [] s k (Hm & He & Hc & Hctl). by eapply done_after_error.
Qed.

(** The events of a chat. *)
Lemma chat_result request_id events id stream :
  follow request_id Fresh events = Some Closed ->
  wp env (serve_events control_to_string events) (StreamState_new id stream)
    (fun _ _ l => exists r, ends_with_result id stream l r /\
       (rs_status r = Completed <-> existsb is_complete_answer events = true) /\
       (rs_status r = Completed -> holds_text r "text/plain" (answer_text EmptyString events))).
Proof.
  intros Hq. eapply wp_mono; [|by apply (serve_wp env control_to_string request_id events Fresh EmptyString)].
  cbn beta. intros [] _ l (s' & k & terminal & frame_id & r & -> & [[Hi1 Hi2] Hnum Hseq Hquiet _ _ _] & Hterm & Hp & Ha & Hi & Hcomp).
  cbn in Hi1, Hi2, Hnum, Hseq, Hcomp, Hterm. destruct Hterm as (f & ev & -> & Hr & Hn & Hst & Hpay).
  destruct Hp as [P1 P2 P3 P4 P5]. apply final_status_completed in Hi as Hfin. exists r. split; [|split].
  - eexists k, _, frame_id. split; [done|]. split; [apply numbered_app; split; [done|]; cbn; by rewrite Hr, Hn, Hseq|].
    split; [done|]. split; [cbn; by rewrite Hpay, P3|]. split; [done|]. by rewrite P2.
  - by rewrite P3, Hfin, Hcomp.
  - rewrite P3. intros (payload & Hp & Hmime & Htext)%P4. exists payload. split; [done|]. rewrite <-Ha.
    split; [|done]. rewrite Hmime. unfold result_mime. by rewrite (sv_control _ _ _ Hi).
Qed.

Lemma undecoded_result request_id error id stream :
  wp env (attempt (handle control_to_string (IeError request_id error None));;
          attempt (handle control_to_string (IeDone request_id));; mret tt : seff unit) (StreamState_new id stream)
    (fun _ _ l => exists r, ends_with_result id stream l r /\ rs_status r <> Completed /\ rs_error r = Some error).
Proof.
  apply wp_bind, wp_attempt. eapply wp_mono; [|apply error_first]. cbn beta. intros [] s k (Hm & He & Hc & Hctl).
  apply wp_bind, wp_attempt. eapply wp_mono; [|by eapply done_after_error]. cbn beta. intros [] s' l (r & Hr & HQ).
  wp_step. rewrite app_nil_r. eauto.
Qed.
End every_request.

Section decoded.
Context (parse_chat : string -> result string ChatContent) (parse_control : string -> result string ControlRequest).

Lemma decoded_chat_id request input :
  decode_request parse_chat parse_control request = Ok (DChat input) ->
  in_request_id input = as_str (rr_request_id request).
Proof.
  unfold decode_request. intros H. destruct (bool_decide _); [|destruct (String.eqb _ CONTROL_MIME); by inv_result].
  inv_result. by subst.
Qed.

Lemma decode_request_calm request :
  (forall s, parse_chat s <> Panic) -> (forall s, parse_control s <> Panic) ->
  decode_request parse_chat parse_control request <> Panic.
Proof.
  intros Hc Hk. apply no_panic_spec. unfold decode_request.
  assert (forall E F A (f : E -> F) (r : result E A), r <> Panic -> no_panic (map_err f r) = true) as Hm
    by (by intros E F A f []).
  destruct (bool_decide _); [|destruct (String.eqb _ CONTROL_MIME); [|done]];
    (apply no_panic_bind; [|done]); [|by apply Hm].
  destruct (String.eqb _ _); [done|]. destruct (String.eqb _ CHAT_MIME); [by apply Hm|done].
Qed.
End decoded.

(** C5 Every request is answered by exactly one result, whatever it asks for.  For every
    behaviour of the providers, tools and settings, [process_request] ends; the client
    gets frames numbered 1, 2, 3, ... of its request and stream, then one terminal event
    and one valid result with the same status.  A request that cannot be decoded fails
    with the decoder's error.  A control request completes with its response as JSON
    under the response's media type, or fails with its error.  A chat completes exactly
    when an answer was complete, with the text of that answer. *)
Theorem every_request_gets_one_result `{C : PrivacyCrypto} config providers hash_order from_str parse_chat parse_control
    control_to_string (world : environment control_io) (server : environment stream_io) h request stream :
  (forall s, from_str s <> Panic) -> (forall payload, is_Some (to_vec (canonical_value payload))) ->
  (forall s, parse_chat s <> Panic) -> (forall s, parse_control s <> Panic) ->
  (forall response, exists text, control_to_string response = Ok text) -> calm_control world ->
  let id := rr_request_id request in
  let o := process_request config providers hash_order from_str parse_chat parse_control control_to_string world request
             server h (StreamState_new id stream) in
  value o = Ok tt /\ exists r, ends_with_result id stream (frames (trace o)) r /\
    match decode_request parse_chat parse_control request with
    | Err error => rs_status r <> Completed /\ rs_error r = Some error
    | Ok (DControl control) =>
        match value (control_event config providers (as_str id) control world [] tt) with
        | Ok (IeControl _ response) => rs_status r = Completed /\
            exists text, control_to_string response = Ok text /\ holds_text r (control_mime response) text
        | Ok (IeError _ error _) => rs_status r <> Completed /\ rs_error r = Some error
        | _ => False
        end
    | Ok (DChat input) =>
        let events := router_task config providers hash_order from_str world (as_str id) (DChat input) in
        (rs_status r = Completed <-> existsb is_complete_answer events = true) /\
        (rs_status r = Completed -> holds_text r "text/plain" (answer_text EmptyString events))
    | Panic => False
    end.
Proof.
  intros Hf Ht Hpc Hpk Hc Hw. cbn zeta. unfold process_request.
  destruct (decode_request parse_chat parse_control request) as [[input|control]|error|] eqn:Hd.
  - cbn [router_task]. destruct (chat_streams config providers hash_order from_str Hf Ht
      (embed_env (call := router_io) (fun A c => Routed c) world []) (calm_routed world [] Hw)
      (as_str (rr_request_id request)) input (decoded_chat_id _ _ _ _ Hd) []) as [_ (q & Hq & _ & ->)].
    by destruct (chat_result server control_to_string _ _ (rr_request_id request) stream Hq h) as ([] & Hv & Hr).
  - cbn [router_task].
    destruct (control_event_outcome config providers world (as_str (rr_request_id request)) control Hw) as (event & Hev & Hout).
    rewrite Hev.
    destruct (control_result server control_to_string _ event (rr_request_id request) stream Hc Hout h) as ([] & Hv & r & Hr & Hm).
    split; [done|]. exists r. split; [done|]. by destruct event.
  - by destruct (undecoded_result server control_to_string (as_str (rr_request_id request)) error
      (rr_request_id request) stream h) as ([] & Hv & Hr).
  - by destruct (decode_request_calm parse_chat parse_control request Hpc Hpk).
Qed.

(** A settings request on a world whose store cannot be written, and a chat. *)
Definition demo_control_world : environment control_io := fun h _ c =>
  match c with
  | Routed c => demo_world [] _ c
  | UpdateSettings _ => Err "read-only file system"
  end.

Definition demo_control_request : RouterRequest :=
  {| rr_version := rr_version demo_router_request; rr_request_id := rr_request_id demo_router_request;
     rr_session_id := rr_session_id demo_router_request; rr_created_at_ms := 1; rr_capability := HealthCap;
     rr_policy := LocalOnly; rr_provider_id := None; rr_provenance := rr_provenance demo_router_request;
     rr_payload := {| rp_mime_type := BStr CONTROL_MIME eq_refl; rp_content := BStr "{}" eq_refl;
                      rp_truncated := false; rp_byte_count := 2 |};
     rr_consent_token := None |}.

Lemma every_request_gets_one_result_witness :
  value (process_request (C := demo_crypto) RuntimeConfig_default demo_providers id demo_from_str
           (fun _ => Err "invalid") (fun _ => Ok CrStatus) (fun _ => Ok "{}"%string) demo_control_world demo_control_request
           demo_server [] (StreamState_new (rr_request_id demo_control_request) (BStr "stream-1" eq_refl))) = Ok tt.
Proof.
  apply (every_request_gets_one_result (C := demo_crypto) RuntimeConfig_default demo_providers id demo_from_str
    (fun _ => Err "invalid"%string) (fun _ => Ok CrStatus) (fun _ => Ok "{}"%string) demo_control_world demo_server []
    demo_control_request (BStr "stream-1" eq_refl)).
  - intros s. unfold demo_from_str. by destruct (String.eqb s "{}").
  - intros payload. by eexists.
  - done.
  - done.
  - intros response. by eexists.
  - intros h A c. destruct c as [A c|patch]; [|done]. split; [|by destruct c].
    destruct c; try done. split; [done|]. split; [by constructor|constructor].
Defined.
