(* ===== verification/LlamaHttp.v ===== *)
(** * HTTP responses of the model process (crates/sentia-local-broker/src/llama.rs)

    The part of the client that reads a response: its head, and its body in one of three
    framings (chunked, of a given length, up to the end of the connection).  The connection
    is a [Reader], the chunks its reads will deliver; an error is the text of the
    [io::Error].  Loops take one turn per pending byte and one more. *)

From Stdlib Require Import Ascii String.
From S2P Require Import Prelude RustStr RustText Contract Framing.

Definition MAX_HEADER_BYTES : usize := 65536.
Definition MAX_SSE_EVENT_BYTES : usize := 1048576.

Definition CRLF : string := String CR (String LF EmptyString).

(** The texts of the errors of the runtime's reader: a read that fails, a connection that
    ends inside [read_exact], a line that is not UTF-8. *)
Class IoTexts := { io_failed : string; early_eof : string; not_utf8 : string }.

(** ** The buffered reader *)
Section reading.
Context `{IoTexts}.

(** The bytes up to and with the next line feed, or up to the end. *)
Fixpoint read_to_lf (output : string) (reader : Reader) : result string (string * Reader) :=
  match reader with
  | [] => Ok (output, [])
  | None :: _ => Err io_failed
  | Some available :: rest =>
      if is_empty available then Ok (output, [])
      else
        match position_lf available with
        | Some index => Ok (output +:+ stake (S index) available, unread (sdrop (S index) available) rest)
        | None => read_to_lf (output +:+ available) rest
        end
  end.

(** [read_line] into an empty string. *)
Definition read_line (reader : Reader) : result string (string * Reader) :=
  '(line, rest) ← read_to_lf EmptyString reader;
  fail_if (negb (valid_utf8 line)) not_utf8;;
  Ok (line, rest).

(** [read_exact] of [n] bytes after [output]. *)
Fixpoint read_exact (n : nat) (output : string) (reader : Reader)
  : result string (string * Reader) :=
  if (n =? 0)%nat then Ok (output, reader)
  else
    match reader with
    | [] => Err early_eof
    | None :: _ => Err io_failed
    | Some available :: rest =>
        if is_empty available then Err early_eof
        else if (n <=? String.length available)%nat then
          Ok (output +:+ stake n available, unread (sdrop n available) rest)
        else read_exact (n - String.length available) (output +:+ available) rest
    end.

(** [read] into a buffer of [n] bytes; the empty string is the end. *)
Definition read_some (n : usize) (reader : Reader) : result string (string * Reader) :=
  match reader with
  | [] => Ok (EmptyString, [])
  | None :: _ => Err io_failed
  | Some available :: rest =>
      if is_empty available then Ok (EmptyString, [])
      else Ok (stake (Z.to_nat n) available, unread (sdrop (Z.to_nat n) available) rest)
  end.

(** ** The head *)

Record HttpHead := {
  hh_status : u16;
  hh_headers : list (string * string);
  hh_chunked : bool;
  hh_content_length : option usize;
}.

Definition is_newline (c : ascii) : bool := Ascii.eqb c CR || Ascii.eqb c LF.

(** A line of the head, and the bytes consumed with it. *)
Definition read_http_line (consumed : usize) (reader : Reader)
  : result string (string * usize * Reader) :=
  '(line, rest) ← read_line reader;
  fail_if (len line =? 0) "backend closed during HTTP headers";;
  let consumed := saturating_add USIZE_MAX consumed (len line) in
  fail_if (MAX_HEADER_BYTES <? consumed) "backend HTTP headers exceeded size limit";;
  Ok (trim_end_bytes is_newline line, consumed, rest).

Fixpoint read_headers (fuel : nat) (consumed : usize) (headers : list (string * string))
    (reader : Reader) : result string (list (string * string) * Reader) :=
  match fuel with
  | O => Panic
  | S fuel' =>
      '(line, consumed, rest) ← read_http_line consumed reader;
      if is_empty line then Ok (headers, rest)
      else
        '(name, value) ← ok_or (split_once ":" line) "malformed backend HTTP header"%string;
        read_headers fuel' consumed (bt_insert (to_ascii_lowercase (trim name)) (trim value) headers) rest
  end.

Definition turns (reader : Reader) : nat := S (String.length (pending reader)).

Definition read_head (reader : Reader) : result string (HttpHead * Reader) :=
  '(status_line, consumed, reader) ← read_http_line 0 reader;
  let parts := split_whitespace status_line in
  let version := default EmptyString (head parts) in
  status ← ok_or (value ← head (tail parts); ok (from_str_radix false 0 U16_MAX 10 value))
             "invalid HTTP status line"%string;
  fail_if (negb (starts_with "HTTP/1." version)) "unsupported backend HTTP version";;
  '(headers, reader) ← read_headers (turns reader) consumed [] reader;
  let chunked := match member "transfer-encoding" headers with
                 | Some value => contains "chunked" (to_ascii_lowercase value)
                 | None => false
                 end in
  content_length ←
    match member "content-length" headers with
    | Some value =>
        n ← map_err (fun _ => "invalid HTTP content-length"%string) (from_str_radix false 0 USIZE_MAX 10 value);
        Ok (Some n)
    | None => Ok None
    end;
  Ok ({| hh_status := status; hh_headers := headers; hh_chunked := chunked;
         hh_content_length := content_length |}, reader).

(** ** The body *)

Inductive BodyMode := BodyChunked | BodyLength (remaining : usize) | BodyUntilEof | BodyDone.

Definition BodyReader_new (head : HttpHead) : BodyMode :=
  if hh_chunked head then BodyChunked
  else match hh_content_length head with
       | Some length => BodyLength length
       | None => BodyUntilEof
       end.

(** The loop over the trailer of a chunked body. *)
Fixpoint skip_trailer (fuel : nat) (reader : Reader) : result string (Reader) :=
  match fuel with
  | O => Panic
  | S fuel' =>
      '(line, rest) ← read_line reader;
      if (len line =? 0) || String.eqb line CRLF || String.eqb line (String LF EmptyString)
      then Ok rest
      else skip_trailer fuel' rest
  end.

(** The size line of a chunk. *)
Definition chunk_size (line : string) : result string usize :=
  fail_if (len line =? 0) "backend closed during chunk size";;
  fail_if (128 <? len line) "invalid backend chunk size";;
  map_err (fun _ => "invalid backend chunk size"%string)
    (from_str_radix false 0 USIZE_MAX 16 (default EmptyString (head (split_char ";" (trim line))))).

Definition body_next (mode : BodyMode) (reader : Reader)
  : result string (option string * BodyMode * Reader) :=
  match mode with
  | BodyChunked =>
      '(line, reader) ← read_line reader;
      size ← chunk_size line;
      if size =? 0 then
        reader ← skip_trailer (turns reader) reader;
        Ok (None, BodyDone, reader)
      else
        fail_if (MAX_SSE_EVENT_BYTES <? size) "backend HTTP chunk exceeded size limit";;
        '(bytes, reader) ← read_exact (Z.to_nat size) EmptyString reader;
        '(crlf, reader) ← read_exact 2 EmptyString reader;
        fail_if (negb (String.eqb crlf CRLF)) "malformed backend HTTP chunk";;
        Ok (Some bytes, BodyChunked, reader)
  | BodyLength remaining =>
      if remaining =? 0 then Ok (None, BodyDone, reader)
      else
        let amount := Z.min remaining 8192 in
        '(bytes, reader) ← read_exact (Z.to_nat amount) EmptyString reader;
        Ok (Some bytes, BodyLength (remaining - amount), reader)
  | BodyUntilEof =>
      '(bytes, reader) ← read_some 8192 reader;
      if is_empty bytes then Ok (None, BodyDone, reader) else Ok (Some bytes, BodyUntilEof, reader)
  | BodyDone => Ok (None, BodyDone, reader)
  end.

Fixpoint read_body_loop (fuel : nat) (mode : BodyMode) (output : string) (maximum : usize)
    (reader : Reader) : result string (string * Reader) :=
  match fuel with
  | O => Panic
  | S fuel' =>
      '(chunk, mode, reader) ← body_next mode reader;
      match chunk with
      | None => Ok (output, reader)
      | Some chunk =>
          fail_if (maximum <? saturating_add USIZE_MAX (len output) (len chunk))
            "backend HTTP body exceeded size limit";;
          read_body_loop fuel' mode (output +:+ chunk) maximum reader
      end
  end.

Definition read_body_bounded (reader : Reader) (head : HttpHead) (maximum : usize)
  : result string (string * Reader) :=
  read_body_loop (turns reader) (BodyReader_new head) EmptyString maximum reader.
End reading.

(** Chains of [?] with pairs. *)
Ltac inv_pairs :=
  inv_result;
  repeat (match goal with x : (_ * _)%type |- _ => destruct x end; inv_result);
  simplify_eq.

(** ** Progress: no loop runs out of turns *)
Section progress.
Context `{IoTexts}.
Implicit Types reader : Reader.

Definition left (reader : Reader) : nat := String.length (pending reader).

Lemma left_unread t reader : left (unread t reader) = (String.length t + left reader)%nat.
Proof. unfold left. by rewrite pending_unread, str_length_app. Qed.

Lemma left_some t reader : left (Some t :: reader) = (String.length t + left reader)%nat.
Proof. unfold left. cbn [pending]. by rewrite str_length_app. Qed.

Lemma length_cut n t : (String.length (stake n t) + String.length (sdrop n t) = String.length t)%nat.
Proof. rewrite <-str_length_app. by rewrite stake_sdrop. Qed.

Lemma read_to_lf_left output reader line rest :
  read_to_lf output reader = Ok (line, rest) ->
  (String.length line + left rest <= String.length output + left reader)%nat.
Proof.
  revert output. induction reader as [|[t|] reader IH]; intros output; cbn [read_to_lf]; [|..|done].
  { by intros [= <- <-]. }
  rewrite left_some. destruct (is_empty t); [intros [= <- <-]; change (left []) with 0%nat; lia|].
  destruct (position_lf t) as [i|] eqn:Hi.
  - apply position_lf_Some in Hi as (a & b & -> & _ & ->). destruct (take_lf a b) as [-> ->].
    intros [= <- <-]. rewrite left_unread, !str_length_app. cbn [String.length]. lia.
  - intros Hr. apply IH in Hr. rewrite str_length_app in Hr. lia.
Qed.

Lemma read_line_left reader line rest :
  read_line reader = Ok (line, rest) -> (String.length line + left rest <= left reader)%nat.
Proof.
  unfold read_line. intros Hl. inv_result. destruct x as [l r]. inv_result. simplify_eq.
  match goal with H : read_to_lf _ _ = _ |- _ => apply read_to_lf_left in H end. cbn in *. lia.
Qed.

Lemma read_exact_left n output reader bytes rest :
  read_exact n output reader = Ok (bytes, rest) ->
  String.length bytes = (String.length output + n)%nat /\ (n + left rest <= left reader)%nat.
Proof.
  revert n output. induction reader as [|[t|] reader IH]; intros n output; cbn [read_exact];
    destruct (Nat.eqb_spec n 0) as [->|Hn]; try done; try (intros [= <- <-]; lia).
  rewrite left_some. destruct (is_empty t); [done|].
  destruct (Nat.leb_spec n (String.length t)).
  - intros [= <- <-]. rewrite left_unread, str_length_app, length_stake, length_sdrop by done. lia.
  - intros Hr. apply IH in Hr as [Hl Hr]. rewrite str_length_app in Hl. lia.
Qed.

Lemma read_some_left n reader bytes rest :
  read_some n reader = Ok (bytes, rest) -> (String.length bytes + left rest <= left reader)%nat.
Proof.
  unfold read_some. destruct reader as [|[t|] reader]; [by intros [= <- <-]| |done].
  rewrite left_some. destruct (is_empty t); intros [= <- <-]; [change (left []) with 0%nat; cbn; lia|].
  rewrite left_unread. pose proof (length_cut (Z.to_nat n) t). lia.
Qed.

Lemma read_line_no_panic reader : read_line reader <> Panic.
Proof.
  unfold read_line. assert (forall output, read_to_lf output reader <> Panic) as Hp.
  { induction reader as [|[t|] reader IH]; intros output; cbn [read_to_lf]; try done.
    destruct (is_empty t); [done|]. by destruct (position_lf t). }
  specialize (Hp EmptyString). destruct (read_to_lf _ _) as [[]| |]; try done.
  cbn. by destruct (negb _).
Qed.

Lemma read_exact_no_panic n output reader : read_exact n output reader <> Panic.
Proof.
  revert n output. induction reader as [|[t|] reader IH]; intros n output; cbn [read_exact];
    destruct (n =? 0)%nat; try done.
  destruct (is_empty t); [done|]. by destruct (_ <=? _)%nat.
Qed.

Lemma read_some_no_panic n reader : read_some n reader <> Panic.
Proof. unfold read_some. destruct reader as [|[t|] reader]; try done. by destruct (is_empty t). Qed.

Lemma read_http_line_no_panic consumed reader : read_http_line consumed reader <> Panic.
Proof.
  unfold read_http_line. pose proof (read_line_no_panic reader) as Hp.
  destruct (read_line reader) as [[l r]| |]; try done. cbn. destruct (len l =? 0); [done|]. cbn. by destruct (_ <? _).
Qed.

Lemma read_http_line_left consumed reader line consumed' rest :
  read_http_line consumed reader = Ok (line, consumed', rest) -> (left rest < left reader)%nat.
Proof.
  unfold read_http_line. intros Hr. inv_result. destruct x as [l r]. inv_result. simplify_eq. zbool.
  match goal with H : read_line _ = _ |- _ => apply read_line_left in H end.
  unfold len in *. lia.
Qed.

Lemma read_headers_no_panic fuel consumed headers reader :
  (left reader < fuel)%nat -> read_headers fuel consumed headers reader <> Panic.
Proof.
  revert consumed headers reader. induction fuel as [|fuel IH]; intros consumed headers reader Hf; [lia|].
  cbn [read_headers]. pose proof (read_http_line_no_panic consumed reader) as Hp.
  destruct (read_http_line consumed reader) as [[[l c] r]| |] eqn:E; try done. cbn [mbind result_bind].
  apply read_http_line_left in E. destruct (is_empty l); [done|].
  destruct (split_once ":" l) as [[name value]|]; cbn; [|done]. apply IH. lia.
Qed.

Lemma read_head_no_panic reader : read_head reader <> Panic.
Proof.
  unfold read_head. pose proof (read_http_line_no_panic 0 reader) as Hp.
  destruct (read_http_line 0 reader) as [[[l c] r]| |]; try done. cbn [mbind result_bind].
  destruct (ok_or _ _) as [status| |] eqn:E; cbn [mbind result_bind]; [|done|by destruct (_ ≫= _)].
  destruct (fail_if _ _) as [[]| |] eqn:E2; cbn [mbind result_bind]; [|done|by destruct (negb _)].
  pose proof (read_headers_no_panic (turns r) c [] r ltac:(unfold turns, left; lia)) as Hh.
  destruct (read_headers _ _ _ _) as [[headers r2]| |]; try done. cbn [mbind result_bind].
  destruct (member "content-length" headers) as [v|]; [|done]. cbn [mbind result_bind].
  pose proof (from_str_radix_no_panic false 0 USIZE_MAX 10 v).
  by destruct (from_str_radix _ _ _ _ v).
Qed.

Lemma skip_trailer_no_panic fuel reader : (left reader < fuel)%nat -> skip_trailer fuel reader <> Panic.
Proof.
  revert reader. induction fuel as [|fuel IH]; intros reader Hf; [lia|]. cbn [skip_trailer].
  pose proof (read_line_no_panic reader) as Hp.
  destruct (read_line reader) as [[l r]| |] eqn:E; try done. cbn [mbind result_bind].
  apply read_line_left in E. destruct (Z.eqb_spec (len l) 0); [done|].
  cbn [orb]. destruct (_ || _); [done|]. apply IH. unfold len in *. lia.
Qed.

Lemma chunk_size_no_panic line : chunk_size line <> Panic.
Proof.
  unfold chunk_size. destruct (len line =? 0); [done|]. cbn. destruct (128 <? len line); [done|]. cbn.
  pose proof (from_str_radix_no_panic false 0 USIZE_MAX 16 (default EmptyString (head (split_char ";" (trim line))))).
  by destruct (from_str_radix _ _ _ _ _).
Qed.

Lemma chunk_size_range line n : chunk_size line = Ok n -> 0 <= n <= USIZE_MAX.
Proof. unfold chunk_size. intros Hn. inv_result. by eapply from_str_radix_range; [..|done]. Qed.

Lemma body_next_no_panic mode reader : body_next mode reader <> Panic.
Proof.
  destruct mode as [|n| |]; cbn [body_next]; [|destruct (n =? 0); [done|]| |done].
  - pose proof (read_line_no_panic reader). destruct (read_line reader) as [[l r]| |]; try done. cbn [mbind result_bind].
    pose proof (chunk_size_no_panic l). destruct (chunk_size l) as [n| |]; try done. cbn [mbind result_bind].
    destruct (n =? 0).
    + pose proof (skip_trailer_no_panic (turns r) r ltac:(unfold turns, left; lia)).
      by destruct (skip_trailer (turns r) r).
    + destruct (MAX_SSE_EVENT_BYTES <? n); [done|]. cbn [fail_if mbind result_bind].
      pose proof (read_exact_no_panic (Z.to_nat n) EmptyString r).
      destruct (read_exact (Z.to_nat n) EmptyString r) as [[b r2]| |]; try done. cbn [mbind result_bind].
      pose proof (read_exact_no_panic 2 EmptyString r2).
      destruct (read_exact 2 EmptyString r2) as [[b2 r3]| |]; try done. cbn [mbind result_bind].
      by destruct (negb _).
  - pose proof (read_exact_no_panic (Z.to_nat (Z.min n 8192)) EmptyString reader).
    by destruct (read_exact _ EmptyString reader) as [[]| |].
  - pose proof (read_some_no_panic 8192 reader). destruct (read_some 8192 reader) as [[b r]| |]; try done.
    cbn [mbind result_bind]. by destruct (is_empty b).
Qed.

Definition mode_ok (mode : BodyMode) : Prop :=
  match mode with BodyLength n => 0 <= n | _ => True end.

(** A chunk of the body is not empty, and its bytes are consumed. *)
Lemma body_next_left mode reader chunk mode' rest :
  mode_ok mode -> body_next mode reader = Ok (Some chunk, mode', rest) ->
  0 < len chunk /\ mode_ok mode' /\ (left rest < left reader)%nat.
Proof.
  destruct mode as [|n| |]; cbn [body_next mode_ok]; intros Hm Hn.
  - inv_pairs. match goal with H : (if ?n =? 0 then _ else _) = _ |- _ => destruct (Z.eqb_spec n 0) end;
      inv_pairs.
    repeat match goal with
    | H : read_line _ = _ |- _ => apply read_line_left in H
    | H : read_exact _ _ _ = _ |- _ => apply read_exact_left in H as [? ?]
    | H : chunk_size _ = _ |- _ => apply chunk_size_range in H
    end. cbn [String.length] in *. unfold len in *. repeat split; lia.
  - destruct (Z.eqb_spec n 0); [done|]. inv_result. destruct x as [b r]. simplify_eq.
    match goal with H : read_exact _ _ _ = _ |- _ => apply read_exact_left in H as [? ?] end.
    cbn [String.length mode_ok] in *. unfold len in *. repeat split; lia.
  - inv_result. destruct x as [b r]. destruct (is_empty b) eqn:E; [done|]. simplify_eq.
    match goal with H : read_some _ _ = _ |- _ => apply read_some_left in H end.
    apply is_empty_false in E. unfold len in *. repeat split; lia.
  - done.
Qed.

Lemma read_body_loop_no_panic fuel mode output maximum reader :
  mode_ok mode -> (left reader < fuel)%nat -> read_body_loop fuel mode output maximum reader <> Panic.
Proof.
  revert mode output reader. induction fuel as [|fuel IH]; intros mode output reader Hm Hf; [lia|].
  cbn [read_body_loop]. pose proof (body_next_no_panic mode reader) as Hp.
  destruct (body_next mode reader) as [[[[chunk|] mode'] r]| |] eqn:E; try done. cbn [mbind result_bind].
  apply body_next_left in E as (_ & Hm' & Hl); [|done].
  destruct (maximum <? _); [done|]. apply IH; [done|lia].
Qed.

Definition head_ok (head : HttpHead) : Prop :=
  match hh_content_length head with Some n => 0 <= n | None => True end.

Lemma new_mode_ok head : head_ok head -> mode_ok (BodyReader_new head).
Proof. unfold head_ok, BodyReader_new. destruct (hh_chunked head); [done|]. by destruct (hh_content_length head). Qed.

Lemma read_body_bounded_no_panic reader head maximum :
  head_ok head -> read_body_bounded reader head maximum <> Panic.
Proof. intros Hh. apply read_body_loop_no_panic; [by apply new_mode_ok|unfold turns, left; lia]. Qed.

Lemma read_head_ok reader head rest : read_head reader = Ok (head, rest) -> head_ok head.
Proof.
  unfold read_head, head_ok. intros Hr. inv_pairs. cbn [hh_content_length].
  match goal with H : match member ?k ?m with _ => _ end = Ok _ |- _ => destruct (member k m) end; inv_pairs; [|done].
  match goal with H : from_str_radix _ _ _ _ _ = Ok ?n |- 0 <= ?n => apply from_str_radix_range in H; [lia|done..] end.
Qed.
End progress.

#[export] Hint Resolve read_head_no_panic read_body_bounded_no_panic body_next_no_panic : sentia.

(** ** Bodies are decoded, however the connection cuts them *)
Section decoding.
Context `{IoTexts}.
Implicit Types reader : Reader.

(** Two ways to cut the same text. *)
Lemma app_cut (a b t u : string) :
  a +:+ b = t +:+ u -> (String.length a <= String.length t)%nat -> exists v, t = a +:+ v /\ b = v +:+ u.
Proof.
  revert t. induction a as [|c a IH]; intros t He Hl; [by exists t|].
  destruct t as [|d t]; [cbn in Hl; lia|]. injection He as -> He. cbn in Hl.
  destruct (IH t He ltac:(lia)) as (v & -> & ->). by exists v.
Qed.

Lemma lacks_cut c (s t a b : string) :
  lacks c s = true -> s +:+ t = a +:+ String c b -> exists v, a = s +:+ v /\ t = v +:+ String c b.
Proof.
  revert a. induction s as [|d s IH]; intros a Hs He; [by exists a|].
  rewrite lacks_cons in Hs. apply andb_true_iff in Hs as [Hd Hs]. destruct a as [|e a].
  { injection He as -> _. by rewrite Ascii.eqb_refl in Hd. }
  injection He as -> He. destruct (IH a Hs He) as (v & -> & ->). by exists v.
Qed.

Lemma read_to_lf_spec output reader a b :
  healthy reader -> lacks LF a = true -> pending reader = a +:+ String LF b ->
  exists rest, read_to_lf output reader = Ok (output +:+ a +:+ String LF EmptyString, rest) /\
    pending rest = b /\ healthy rest.
Proof.
  revert output a. induction reader as [|c reader IH]; intros output a Hh Ha Hp; [by destruct a|].
  apply Forall_cons in Hh as [(s & -> & Hs) Hh]. cbn [read_to_lf pending] in *.
  apply is_empty_false in Hs. rewrite Hs.
  destruct (position_lf s) as [i|] eqn:Hi.
  - apply position_lf_Some in Hi as (a' & b' & -> & Ha' & ->). destruct (take_lf a' b') as [-> ->].
    rewrite str_app_assoc in Hp. cbn [String.append] in Hp.
    pose proof (split_once_app LF a b Ha) as E. rewrite <-Hp, split_once_app in E by done. injection E as -> <-.
    eexists. split; [done|]. split; [apply pending_unread|by apply healthy_unread].
  - apply position_lf_None in Hi. apply lacks_cut in Hp as (v & -> & Hp); [|done].
    rewrite lacks_app in Ha. apply andb_true_iff in Ha as [_ Ha].
    destruct (IH (output +:+ s) v Hh Ha Hp) as (rest & -> & Hr). exists rest. by rewrite !str_app_assoc.
Qed.

Lemma read_line_spec reader a b :
  healthy reader -> lacks LF a = true -> valid_utf8 a = true -> pending reader = a +:+ String LF b ->
  exists rest, read_line reader = Ok (a +:+ String LF EmptyString, rest) /\ pending rest = b /\ healthy rest.
Proof.
  intros Hh Ha Hv Hp. destruct (read_to_lf_spec EmptyString reader a b Hh Ha Hp) as (rest & E & Hr).
  exists rest. split; [|done]. unfold read_line. rewrite E. cbn [mbind result_bind].
  cbn [String.append]. by rewrite valid_utf8_app, Hv by done.
Qed.

Lemma read_exact_spec output reader a b :
  healthy reader -> pending reader = a +:+ b ->
  exists rest, read_exact (String.length a) output reader = Ok (output +:+ a, rest) /\
    pending rest = b /\ healthy rest.
Proof.
  revert output a. induction reader as [|c reader IH]; intros output a Hh Hp; cbn [read_exact].
  { destruct a; [|done]. exists []. by rewrite app_empty_r. }
  destruct (Nat.eqb_spec (String.length a) 0) as [E|E].
  { destruct a; [|done]. eexists. rewrite app_empty_r. by split. }
  apply Forall_cons in Hh as [(s & -> & Hs) Hh]. apply is_empty_false in Hs. rewrite Hs. cbn [pending] in Hp.
  destruct (Nat.leb_spec (String.length a) (String.length s)) as [Hl|Hl].
  - symmetry in Hp. apply app_cut in Hp as (v & -> & ->); [|done]. rewrite stake_app_len, sdrop_app_len.
    eexists. split; [done|]. split; [apply pending_unread|by apply healthy_unread].
  - apply app_cut in Hp as (v & -> & Hp); [|lia]. rewrite str_length_app.
    replace (String.length s + String.length v - String.length s)%nat with (String.length v) by lia.
    destruct (IH (output +:+ s) v Hh Hp) as (rest & -> & Hr). exists rest. by rewrite str_app_assoc.
Qed.

(** What [body_next] will deliver: the chunks of [body], then the end, with [rest] pending. *)
Inductive delivers : BodyMode -> Reader -> string -> string -> Prop :=
| delivers_end mode reader mode' reader' :
    body_next mode reader = Ok (None, mode', reader') -> delivers mode reader EmptyString (pending reader')
| delivers_chunk mode reader chunk mode' reader' body rest :
    body_next mode reader = Ok (Some chunk, mode', reader') -> delivers mode' reader' body rest ->
    delivers mode reader (chunk +:+ body) rest.

(** The three framings of a body. *)
Definition encode_chunk (chunk : string) : string := show_hex (len chunk) +:+ CRLF +:+ chunk +:+ CRLF.
Definition encode_chunked (chunks : list string) : string :=
  sconcat (map encode_chunk chunks) +:+ "0" +:+ CRLF +:+ CRLF.

Inductive framed (head : HttpHead) : string -> string -> string -> Prop :=
| framed_chunked chunks rest :
    hh_chunked head = true -> Forall (fun c => 0 < len c <= MAX_SSE_EVENT_BYTES) chunks ->
    framed head (sconcat chunks) (encode_chunked chunks +:+ rest) rest
| framed_length body rest :
    hh_chunked head = false -> hh_content_length head = Some (len body) -> framed head body (body +:+ rest) rest
| framed_until_eof body :
    hh_chunked head = false -> hh_content_length head = None -> framed head body body EmptyString.

(** A line with a number in hexadecimal. *)
Lemma size_line n reader more :
  0 <= n <= USIZE_MAX -> healthy reader -> pending reader = show_hex n +:+ CRLF +:+ more ->
  exists line rest, read_line reader = Ok (line, rest) /\ chunk_size line = Ok n /\
    pending rest = more /\ healthy rest.
Proof.
  intros Hn Hh Hp. destruct (show_hex_shape n) as [Hx Hl].
  assert (is_word (show_hex n) = true) as Hw by (apply hex_word; [done|lia]).
  assert (forall c, is_lower_hex c = false -> lacks c (show_hex n) = true) as Hlack.
  { intros c Hc. unfold lacks, bytes_all in *. rewrite forallb_forall in *. intros d Hd. apply Hx in Hd.
    by destruct (Ascii.eqb_spec d c) as [->|]; [rewrite Hc in Hd|]. }
  destruct (read_line_spec reader (show_hex n +:+ String CR EmptyString) more) as (rest & Hr & Hrest);
    [done|by rewrite lacks_app, Hlack| |by rewrite Hp, str_app_assoc|].
  { apply ascii_valid. rewrite bytes_all_app, word_ascii; [done|]. by apply andb_true_iff in Hw as [_ Hw]. }
  eexists _, rest. split; [exact Hr|]. split; [|done]. rewrite str_app_assoc. cbn [String.append].
  change (String CR (String LF EmptyString)) with CRLF. unfold chunk_size. rewrite len_app.
  change (len CRLF) with 2. destruct (Z.eqb_spec (len (show_hex n) + 2) 0); [lia|].
  destruct (Z.ltb_spec 128 (len (show_hex n) + 2)); [lia|]. cbn [fail_if mbind result_bind].
  rewrite trim_word_ws by done. unfold split_char. rewrite split_char_lacks by by apply Hlack. cbn [head default].
  change (EmptyString +:+ show_hex n) with (show_hex n). change USIZE_MAX with U64_MAX. unfold id. by rewrite parse_show_hex.
Qed.

Lemma chunk_delivered chunk reader more :
  0 < len chunk <= MAX_SSE_EVENT_BYTES -> healthy reader -> pending reader = encode_chunk chunk +:+ more ->
  exists rest, body_next BodyChunked reader = Ok (Some chunk, BodyChunked, rest) /\
    pending rest = more /\ healthy rest.
Proof.
  intros Hc Hh Hp. unfold encode_chunk in Hp. rewrite !str_app_assoc in Hp.
  destruct (size_line (len chunk) reader (chunk +:+ CRLF +:+ more)) as (line & r1 & E1 & Es & Hp1 & Hh1); [|done|done|].
  { unfold MAX_SSE_EVENT_BYTES, USIZE_MAX, U64_MAX in *. lia. }
  destruct (read_exact_spec EmptyString r1 chunk (CRLF +:+ more) Hh1 Hp1) as (r2 & E2 & Hp2 & Hh2).
  destruct (read_exact_spec EmptyString r2 CRLF more Hh2 Hp2) as (r3 & E3 & Hr3).
  exists r3. split; [|done]. cbn [body_next]. rewrite E1. cbn [mbind result_bind]. rewrite Es. cbn [mbind result_bind].
  destruct (Z.eqb_spec (len chunk) 0); [lia|]. destruct (Z.ltb_spec MAX_SSE_EVENT_BYTES (len chunk)); [lia|].
  cbn [fail_if mbind result_bind]. unfold len. rewrite Nat2Z.id, E2. cbn [mbind result_bind String.append].
  change 2%nat with (String.length CRLF). rewrite E3. cbn [mbind result_bind String.append].
  by rewrite String.eqb_refl.
Qed.

Lemma last_chunk_delivered reader more :
  healthy reader -> pending reader = "0" +:+ CRLF +:+ CRLF +:+ more ->
  exists rest, body_next BodyChunked reader = Ok (None, BodyDone, rest) /\ pending rest = more.
Proof.
  intros Hh Hp. destruct (size_line 0 reader (CRLF +:+ more)) as (line & r1 & E1 & Es & Hp1 & Hh1); [done..|].
  destruct (read_line_spec r1 (String CR EmptyString) more) as (r2 & E2 & Hp2 & _); [done..|].
  exists r2. split; [|done]. cbn [body_next]. rewrite E1. cbn [mbind result_bind]. rewrite Es. cbn [mbind result_bind].
  change (0 =? 0) with true. cbv iota. unfold turns. cbn [skip_trailer]. by rewrite E2.
Qed.

Lemma length_delivered body reader rest :
  healthy reader -> pending reader = body +:+ rest -> delivers (BodyLength (len body)) reader body rest.
Proof.
  remember (String.length body) as n eqn:Hn. revert body reader Hn.
  induction (lt_wf n) as [n _ IH]; intros body reader -> Hh Hp.
  destruct (Z.eqb_spec (len body) 0) as [E|E].
  { apply len_empty_iff in E as ->. cbn [String.append] in Hp. rewrite <-Hp. by eapply delivers_end. }
  pose proof (len_nonneg body) as Hpos. set (k := Z.to_nat (Z.min (len body) 8192)).
  assert (k <= String.length body)%nat as Hk by (unfold k, len; lia).
  rewrite <-(stake_sdrop k body) in Hp |- *. rewrite str_app_assoc in Hp.
  destruct (read_exact_spec EmptyString reader (stake k body) (sdrop k body +:+ rest) Hh Hp) as (r & Er & Hpr & Hhr).
  rewrite length_stake in Er by done. eapply (delivers_chunk _ _ _ (BodyLength (len (sdrop k body))) r).
  - cbn [body_next]. rewrite stake_sdrop. destruct (Z.eqb_spec (len body) 0); [done|]. fold k. rewrite Er.
    cbn [mbind result_bind String.append].
    replace (len (sdrop k body)) with (len body - Z.min (len body) 8192); [done|].
    unfold len at 3. rewrite length_sdrop. unfold k, len in *. lia.
  - eapply IH; [|done|done|done]. rewrite length_sdrop. unfold k, len in *. lia.
Qed.

Lemma until_eof_delivered reader : healthy reader -> delivers BodyUntilEof reader (pending reader) EmptyString.
Proof.
  remember (String.length (pending reader)) as n eqn:Hn. revert reader Hn.
  induction (lt_wf n) as [n _ IH]; intros reader -> Hh.
  destruct reader as [|c reader]; [by apply (delivers_end _ [] BodyDone [])|].
  apply Forall_cons in Hh as [(s & -> & Hs) Hh]. cbn [pending]. set (k := Z.to_nat 8192).
  assert (0 < String.length (stake k s))%nat as Hk.
  { destruct s as [|c s]; [done|]. assert (exists j, k = S j) as [j ->] by (exists (k - 1)%nat; unfold k; lia).
    cbn. lia. }
  rewrite <-(stake_sdrop k s) at 2. rewrite str_app_assoc, <-pending_unread.
  apply (delivers_chunk _ _ _ BodyUntilEof (unread (sdrop k s) reader)).
  - cbn [body_next read_some]. apply is_empty_false in Hs. rewrite Hs. cbn [mbind result_bind]. fold k.
    replace (is_empty (stake k s)) with false by (symmetry; apply is_empty_false; unfold len; lia). done.
  - eapply IH; [|done|by apply healthy_unread]. rewrite pending_unread, !str_length_app. cbn [pending].
    rewrite str_length_app. pose proof (length_cut k s). lia.
Qed.

Lemma framed_delivers head body reader rest :
  healthy reader -> framed head body (pending reader) rest -> delivers (BodyReader_new head) reader body rest.
Proof.
  intros Hh Hf. remember (pending reader) as bytes eqn:Hp. unfold BodyReader_new.
  destruct Hf as [chunks rest Hc Hs|body rest Hc Hl|body Hc Hl]; rewrite Hc, ?Hl.
  2: by apply length_delivered.
  2: rewrite Hp; by apply until_eof_delivered.
  symmetry in Hp. clear Hc. revert reader Hh Hp. induction Hs as [|c chunks Hc Hs IH]; intros reader Hh Hp.
  - destruct (last_chunk_delivered reader rest Hh Hp) as (r & E & <-). by eapply delivers_end.
  - unfold encode_chunked in Hp. cbn [map sconcat] in Hp. rewrite !str_app_assoc in Hp.
    destruct (chunk_delivered c reader _ Hc Hh Hp) as (r & E & Hp' & Hh'). cbn [sconcat].
    eapply delivers_chunk; [done|]. apply IH; [done|]. unfold encode_chunked. by rewrite Hp', !str_app_assoc.
Qed.

Lemma read_body_loop_delivers mode reader body rest output maximum fuel :
  maximum < USIZE_MAX -> mode_ok mode -> delivers mode reader body rest -> (left reader < fuel)%nat ->
  if len output + len body <=? maximum
  then exists reader', read_body_loop fuel mode output maximum reader = Ok (output +:+ body, reader') /\
         pending reader' = rest
  else len output <= maximum ->
       read_body_loop fuel mode output maximum reader = Err "backend HTTP body exceeded size limit".
Proof.
  intros Hmax Hm Hd. revert output fuel Hm.
  induction Hd as [mode reader mode' reader' E|mode reader chunk mode' reader' body rest E Hd IH]; intros output fuel Hm Hf.
  all: destruct fuel as [|fuel]; [lia|]; cbn [read_body_loop]; rewrite E; cbn [mbind result_bind].
  - rewrite app_empty_r. replace (len EmptyString) with 0 by done.
    destruct (Z.leb_spec (len output + 0) maximum); [by eexists|lia].
  - destruct (body_next_left _ _ _ _ _ Hm E) as (Hc & Hm' & Hl).
    pose proof (len_nonneg output). pose proof (len_nonneg body). rewrite saturating_ltb by lia. rewrite len_app.
    specialize (IH (output +:+ chunk) fuel Hm' ltac:(lia)). rewrite len_app, str_app_assoc in IH.
    rewrite Z.add_assoc. destruct (Z.leb_spec (len output + len chunk + len body) maximum).
    + destruct (Z.ltb_spec maximum (len output + len chunk)); [lia|]. cbn [fail_if mbind result_bind].
      destruct IH as (r & -> & Hr). by exists r.
    + intros Ho. destruct (Z.ltb_spec maximum (len output + len chunk)); [done|]. cbn [fail_if mbind result_bind].
      by apply IH.
Qed.

Lemma framed_mode_ok head body bytes rest : framed head body bytes rest -> mode_ok (BodyReader_new head).
Proof.
  intros Hf. unfold BodyReader_new. destruct Hf as [? ? Hc|? ? Hc Hl|? Hc Hl]; rewrite Hc, ?Hl; cbn; auto with sentia.
Qed.

(** A response body is decoded: sent in chunks, with a length or up to the end of the
    connection, and however the connection cuts the bytes, [read_body_bounded] returns
    exactly the body and leaves the bytes after it, or reports that it is larger than the
    maximum. *)
Theorem response_body_round_trip head body reader rest maximum :
  0 <= maximum < USIZE_MAX -> healthy reader -> framed head body (pending reader) rest ->
  if len body <=? maximum
  then exists reader', read_body_bounded reader head maximum = Ok (body, reader') /\ pending reader' = rest
  else read_body_bounded reader head maximum = Err "backend HTTP body exceeded size limit".
Proof.
  intros Hmax Hh Hf. pose proof (framed_mode_ok _ _ _ _ Hf) as Ho.
  pose proof (read_body_loop_delivers _ _ _ _ EmptyString maximum (turns reader) ltac:(lia) Ho
    (framed_delivers _ _ _ _ Hh Hf) ltac:(unfold turns, left; lia)) as H1.
  replace (len EmptyString) with 0 in H1 by done. cbn [String.append] in H1. rewrite Z.add_0_l in H1.
  destruct (len body <=? maximum); [done|]. apply H1. lia.
Qed.
End decoding.

(** ** Examples *)

Definition demo_texts : IoTexts := {| io_failed := "failed"; early_eof := "early eof"; not_utf8 := "not UTF-8" |}.
Definition demo_head (headers : list (string * string)) (chunked : bool) (length : option usize) : HttpHead :=
  {| hh_status := 200; hh_headers := headers; hh_chunked := chunked; hh_content_length := length |}.

Example head_ex : @read_head demo_texts [Some "HTTP/1.1 200 OK"; Some (CRLF +:+ "Transfer-Encoding: Chunked" +:+ CRLF);
    Some ("X: y" +:+ CRLF +:+ CRLF +:+ "rest")]
  = Ok (demo_head [("transfer-encoding", "Chunked"); ("x", "y")] true None, [Some "rest"]).
Proof. vm_compute. reflexivity. Qed.

Definition demo_chunked : Reader :=
  [Some "3"; Some (CRLF +:+ "ab"); Some ("c" +:+ CRLF +:+ "2"); Some (CRLF +:+ "de" +:+ CRLF +:+ "0" +:+ CRLF); Some CRLF].

Lemma response_body_round_trip_witness : exists reader,
  @read_body_bounded demo_texts demo_chunked (demo_head [] true None) 5 = Ok ("abcde", reader) /\
  pending reader = EmptyString.
Proof.
  apply (@response_body_round_trip demo_texts (demo_head [] true None) "abcde" demo_chunked EmptyString 5).
  - split; done.
  - repeat constructor; by eexists.
  - apply (framed_chunked _ ["abc"; "de"] EmptyString); [done|]. repeat constructor; vm_compute; congruence.
Defined.
