(* ===== verification/LlamaClient.v ===== *)
(** * The client of the model process (crates/sentia-local-broker/src/llama.rs)

    [health] and [chat] connect to the model's socket after checking who owns it, send one
    HTTP request and read the response; a streamed answer is a sequence of server-sent
    events.  Contact with the machine, with the channel of the request's events and with
    its cancellation is a [lsys] call.  A [select!] with the cancellation token asks
    [Cancelled] at each of its await points. *)

From Stdlib Require Import Ascii String.
From S2P Require Import Prelude RustStr RustText Contract Effects Framing BrokerProtocol LlamaHttp.

Record LlamaError := { le_kind : ProviderErrorCode; le_message : string; le_retryable : bool }.
Record LlamaOutput := { lo_finish_reason : string; lo_tool_calls : list BrokerToolCall }.

Definition MAX_HEALTH_BODY_BYTES : usize := 262144.

(** What [symlink_metadata] reports. *)
Record SocketMetadata := { sm_is_socket : bool; sm_uid : u32; sm_mode : u32 }.

Inductive lsys : Type -> Type :=
| SymlinkMetadata (path : list Component) : lsys (string + SocketMetadata)
| Connect (path : string) : lsys (option (string + unit))
| PeerUid : lsys (string + u32)
| WriteAll (bytes : string) : lsys (string + unit)
| Response : lsys Reader
| Cancelled : lsys bool
| SendEvent (event : BrokerEvent) : lsys bool.

(** ** Errors *)

Definition malformed (message : string) : LlamaError :=
  {| le_kind := MalformedResponse; le_message := message; le_retryable := false |}.
Definition process_failure (message : string) (retryable : bool) : LlamaError :=
  {| le_kind := ProcessFailure; le_message := message; le_retryable := retryable |}.

Definition bounded_error_message {E} (message : string) : result E string := truncate message 512.

Definition io_error (error : string) : LlamaError :=
  process_failure ("local inference transport failed: " +:+ error) true.

Definition cancelled : LlamaError :=
  {| le_kind := PInternal; le_message := "local inference request cancelled"; le_retryable := false |}.

Definition provider_json_error {E} (error : Value) : result E LlamaError :=
  let message := default "local inference backend reported an error"%string (get error "message" ≫= v_as_str) in
  message ← bounded_error_message message;
  Ok (process_failure message true).

Definition status_kind (status : u16) : ProviderErrorCode * bool :=
  if (status =? 401) || (status =? 403) then (Authentication, false)
  else if (status =? 408) || (status =? 504) then (PTimeout, true)
  else if status =? 429 then (Quota, true)
  else if (status =? 400) || (status =? 404) || (status =? 405) || (status =? 422)
  then (UnsupportedCapability, false)
  else if (500 <=? status) && (status <=? 599) then (ProcessFailure, true)
  else (MalformedResponse, false).

Section client.
(** The texts of transport errors, [serde_json::from_slice], [from_str] and [to_vec]. *)
Context `{IoTexts} (from_slice from_str : string -> option Value) (to_vec : Value -> result string string).

Definition http_error {E} (status : u16) (body : string) : result E LlamaError :=
  let message := default ("local inference backend returned HTTP " +:+ show_uint status)
    (value ← from_slice body; error ← get value "error"; message ← get error "message"; v_as_str message) in
  let '(kind, retryable) := status_kind status in
  message ← bounded_error_message message;
  Ok {| le_kind := kind; le_message := message; le_retryable := retryable |}.

Definition ensure_answered (content_seen : bool) (tool_calls : list BrokerToolCall) : result LlamaError unit :=
  if content_seen || negb (match tool_calls with [] => true | _ => false end) then Ok tt
  else Err (malformed ("local inference produced no answer; if the model is a reasoning "
                       +:+ "model, set SENTIA_REASONING=off or raise the token budget")).

(** ** The request *)

Definition message_value (message : BrokerMessage) : Value :=
  let value := object [("role", VString (bm_role message)); ("content", VString (bm_content message))]%string in
  let value := match bm_name message with
               | Some name => set_key value "name" (VString name)
               | None => value
               end in
  let value := match bm_tool_call_id message with
               | Some call_id => set_key value "tool_call_id" (VString call_id)
               | None => value
               end in
  match bm_tool_calls message with
  | [] => value
  | calls =>
      set_key value "tool_calls"
        (VArray (map (fun call =>
           object [("id", VString (tc_id call)); ("type", VString "function");
                   ("function", object [("name", VString (tc_name call)); ("arguments", VString (tc_arguments call))])]%string)
           calls))
  end.

Definition tool_value (tool : BrokerTool) : Value :=
  object [("type", VString "function");
          ("function", object [("name", VString (bt_name tool)); ("description", VString (bt_description tool));
                               ("parameters", bt_parameters tool)])]%string.

Definition build_chat_body (model : string) (messages : list BrokerMessage) (tools : list BrokerTool)
    (max_tokens : u32) : result LlamaError string :=
  fail_if (existsb is_newline (list_ascii_of_string model)) (malformed "invalid configured backend model name");;
  let value := object [("model", VString model); ("messages", VArray (map message_value messages));
                       ("max_tokens", VNumber (NInt max_tokens)); ("stream", VBool true)]%string in
  let value := match tools with
               | [] => value
               | _ => set_key (set_key value "tools" (VArray (map tool_value tools))) "tool_choice" (VString "auto")
               end in
  map_err (fun error => malformed ("could not encode local inference request: " +:+ error)) (to_vec value).

(** ** The connection *)

(** An await point of a [select!] with the token; no token, no cancellation. *)
Definition checkpoint {S} (token : bool) : eff lsys S LlamaError unit :=
  if token then
    stop ← perform Cancelled;
    if stop : bool then lift (Err cancelled) else mret tt
  else mret tt.

Definition io {S A} (r : result string A) : eff lsys S LlamaError A := lift (map_err io_error r).

(** The answer of the kernel: the text of an error, or a value. *)
Definition reply {A} (r : string + A) : result string A :=
  match r with inl error => Err error | inr a => Ok a end.

Definition unsafe_socket (metadata parent_metadata : SocketMetadata) : bool :=
  negb (sm_is_socket metadata) || (sm_uid metadata =? 0)
  || negb (Z.land (sm_mode metadata) 511 =? 384)
  || negb (sm_uid parent_metadata =? sm_uid metadata)
  || negb (Z.land (sm_mode parent_metadata) 511 =? 448).

Definition connect {S} (config : BrokerConfig) (token : bool) : eff lsys S LlamaError unit :=
  checkpoint token;;
  let socket := components (bc_backend_socket config) in
  metadata ← perform (SymlinkMetadata socket);
  metadata ← io (reply metadata);
  parent ← lift (ok_or (parent socket) (process_failure "local inference socket path has no parent" false));
  parent_metadata ← perform (SymlinkMetadata parent);
  parent_metadata ← io (reply parent_metadata);
  lift (fail_if (unsafe_socket metadata parent_metadata)
          (process_failure "local inference socket ownership or permissions are unsafe" false));;
  checkpoint token;;
  stream ← perform (Connect (bc_backend_socket config));
  checkpoint token;;
  stream ← lift (ok_or stream {| le_kind := PTimeout;
                                 le_message := "timed out waiting for the local inference backend";
                                 le_retryable := true |});
  io (reply stream);;
  peer ← perform PeerUid;
  peer ← io (reply peer);
  lift (fail_if (negb (peer =? sm_uid metadata))
          (process_failure "local inference peer credentials did not match socket ownership" false)).

Definition write_all {S} (token : bool) (bytes : string) : eff lsys S LlamaError unit :=
  checkpoint token;;
  written ← perform (WriteAll bytes);
  checkpoint token;;
  io (reply written).

Definition health_request : string :=
  "GET /health HTTP/1.1" +:+ CRLF +:+ "Host: sentia-local" +:+ CRLF +:+ "Accept: application/json" +:+ CRLF
  +:+ "Connection: close" +:+ CRLF +:+ CRLF.

Definition health_state (status : u16) (status_text : string) : ProviderHealth * string :=
  let loading := contains "load" (to_ascii_lowercase status_text) in
  if status =? 200 then
    if loading then (Starting, "local inference backend is loading the model"%string)
    else (Healthy, "local inference backend passed its health check"%string)
  else if (status =? 503) && loading then (Starting, "local inference backend is loading the model"%string)
  else (Unavailable, "local inference backend health returned HTTP " +:+ show_uint status).

Definition health (config : BrokerConfig) : eff lsys unit LlamaError (ProviderHealth * string) :=
  connect config false;;
  write_all false health_request;;
  reader ← perform Response;
  '(head, reader) ← io (read_head reader);
  '(body, _) ← io (read_body_bounded reader head MAX_HEALTH_BODY_BYTES);
  let status_text := default (trim (from_utf8_lossy body))
    (value ← from_slice body; status ← get value "status"; v_as_str status) in
  mret (health_state (hh_status head) status_text).

(** ** Server-sent events *)

(** [windows(n).position(..)] *)
Fixpoint find_window (window s : string) : option nat :=
  if starts_with window s then Some O
  else match s with
       | EmptyString => None
       | String _ s' => S <$> find_window window s'
       end.

Definition LFLF : string := String LF (String LF EmptyString).

(** The first event and what follows its separator. *)
Definition take_sse_event (buffer : string) : option (string * string) :=
  let at_ position separator := Some (stake position buffer, sdrop (position + separator) buffer) in
  match find_window LFLF buffer, find_window (CRLF +:+ CRLF) buffer with
  | Some lf, Some crlf => if (lf <=? crlf)%nat then at_ lf 2%nat else at_ crlf 4%nat
  | Some lf, None => at_ lf 2%nat
  | None, Some crlf => at_ crlf 4%nat
  | None, None => None
  end.

Record ToolCallParts := { tp_id : string; tp_name : string; tp_arguments : string }.
Definition ToolCallParts_default : ToolCallParts :=
  {| tp_id := EmptyString; tp_name := EmptyString; tp_arguments := EmptyString |}.

(** [tool_calls.entry(index).or_default()], changed by [f]; the map in key order. *)
Fixpoint entry_or_default (index : usize) (f : ToolCallParts -> ToolCallParts) (m : list (usize * ToolCallParts))
  : list (usize * ToolCallParts) :=
  match m with
  | [] => [(index, f ToolCallParts_default)]
  | (k, parts) :: m' =>
      if index <? k then (index, f ToolCallParts_default) :: m
      else if index =? k then (k, f parts) :: m'
      else (k, parts) :: entry_or_default index f m'
  end.

Definition string_of (v : option Value) : string := default EmptyString (v ≫= v_as_str).

(** One element of [delta.tool_calls]. *)
Definition add_call (m : list (usize * ToolCallParts)) (call : Value) : list (usize * ToolCallParts) :=
  let index := default 0 (get call "index" ≫= v_as_u64) in
  let function := get call "function" in
  entry_or_default index (fun parts =>
    {| tp_id := tp_id parts +:+ string_of (get call "id");
       tp_name := tp_name parts +:+ string_of (function ≫= fun f => get f "name");
       tp_arguments := tp_arguments parts +:+ string_of (function ≫= fun f => get f "arguments") |}) m.

(** The three variables [process_sse_event] updates. *)
Record SseState := {
  ss_tool_calls : list (usize * ToolCallParts);
  ss_finish_reason : option string;
  ss_content_seen : bool;
}.
Definition SseState_new : SseState :=
  {| ss_tool_calls := []; ss_finish_reason := None; ss_content_seen := false |}.

Definition send_content {S} (request_id content : string) : eff lsys S LlamaError unit :=
  sent ← perform (SendEvent (BeDelta BROKER_PROTOCOL_VERSION request_id content));
  if sent : bool then mret tt else lift (Err cancelled).

(** The [data:] lines of an event. *)
Definition event_data (text : string) : string :=
  join (String LF EmptyString) (map trim_start (omap (strip_prefix "data:") (lines text))).

Definition first_choice (value : Value) : result LlamaError Value :=
  ok_or (choices ← get value "choices"; choices ← v_as_array choices; head choices)
    (malformed "local inference response omitted choices").

(** The content of a choice, when there is any. *)
Definition nonempty_content (message : Value) : option string :=
  content ← get message "content"; content ← v_as_str content;
  if is_empty content then None else Some content.

(** [true] is the end of the stream. *)
Definition process_sse_event (request_id event : string) : eff lsys SseState LlamaError bool :=
  lift (fail_if (negb (valid_utf8 event)) (malformed "local inference returned non-UTF-8 SSE"));;
  let data := event_data event in
  if is_empty data then mret false
  else if String.eqb (trim data) "[DONE]" then mret true
  else
    value ← lift (ok_or (from_str data) (malformed "local inference returned malformed SSE JSON"));
    match get value "error" with
    | Some error => lift (e ← provider_json_error error; Err e)
    | None =>
        choice ← lift (first_choice value);
        with_state (fun s =>
          ({| ss_tool_calls := ss_tool_calls s;
              ss_finish_reason := match get choice "finish_reason" ≫= v_as_str with
                                  | Some reason => Some reason
                                  | None => ss_finish_reason s
                                  end;
              ss_content_seen := ss_content_seen s |}, Ok tt));;
        let delta := default VNull (get choice "delta") in
        match nonempty_content delta with
        | Some content =>
            with_state (fun s => ({| ss_tool_calls := ss_tool_calls s; ss_finish_reason := ss_finish_reason s;
                                     ss_content_seen := true |}, Ok tt));;
            send_content request_id content
        | None => mret tt
        end;;
        let calls := default [] (get delta "tool_calls" ≫= v_as_array) in
        with_state (fun s => ({| ss_tool_calls := fold_left add_call calls (ss_tool_calls s);
                                 ss_finish_reason := ss_finish_reason s;
                                 ss_content_seen := ss_content_seen s |}, Ok tt));;
        mret false
    end.

Definition finish_tool_call (parts : ToolCallParts) : result LlamaError BrokerToolCall :=
  fail_if (is_empty (tp_id parts) || is_empty (tp_name parts) || (65536 <? len (tp_arguments parts)))
    (malformed "local inference returned an invalid tool call");;
  ok_or (from_str (tp_arguments parts)) (malformed "local inference returned malformed tool arguments");;
  Ok {| tc_id := tp_id parts; tc_name := tp_name parts; tc_arguments := tp_arguments parts |}.

Definition finish_tool_calls (values : list (usize * ToolCallParts)) : result LlamaError (list BrokerToolCall) :=
  map_result finish_tool_call (map snd values).

(** [while let Some(event) = take_sse_event(&mut sse)]: whether the stream ended, and the
    buffer that is left. *)
Fixpoint drain_events (fuel : nat) (request_id sse : string) : eff lsys SseState LlamaError (bool * string) :=
  match fuel with
  | O => lift Panic
  | S fuel' =>
      match take_sse_event sse with
      | None => mret (false, sse)
      | Some (event, rest) =>
          ended ← process_sse_event request_id event;
          if ended : bool then mret (true, rest) else drain_events fuel' request_id rest
      end
  end.

(** The end of [read_sse]: the calls are complete, something was answered. *)
Definition finish_output (s : SseState) (finish_reason : string) : result LlamaError LlamaOutput :=
  calls ← finish_tool_calls (ss_tool_calls s);
  ensure_answered (ss_content_seen s) calls;;
  Ok {| lo_finish_reason := finish_reason; lo_tool_calls := calls |}.

Fixpoint read_sse_loop (fuel : nat) (request_id : string) (mode : BodyMode) (reader : Reader) (sse : string)
  : eff lsys SseState LlamaError LlamaOutput :=
  match fuel with
  | O => lift Panic
  | S fuel' =>
      checkpoint true;;
      '(chunk, mode, reader) ← io (body_next mode reader);
      match chunk with
      | Some chunk =>
          let sse := sse +:+ chunk in
          lift (fail_if (MAX_SSE_EVENT_BYTES <? len sse) (malformed "local inference SSE event exceeded size limit"));;
          '(ended, sse) ← drain_events (S (String.length sse)) request_id sse;
          if ended : bool then
            with_state (fun s => (s, finish_output s (default "stop"%string (ss_finish_reason s))))
          else read_sse_loop fuel' request_id mode reader sse
      | None =>
          (if is_empty sse then mret tt
           else process_sse_event request_id sse;; mret tt);;
          with_state (fun s => (s,
            match ss_finish_reason s with
            | None => Err (process_failure "local inference stream ended before a terminal event" true)
            | Some reason => finish_output s reason
            end))
      end
  end.

Definition read_sse (request_id : string) (reader : Reader) (head : HttpHead) : eff lsys unit LlamaError LlamaOutput :=
  zoom (fun _ => SseState_new) (fun _ u => u)
    (read_sse_loop (turns reader) request_id (BodyReader_new head) reader EmptyString).

(** ** The answer in one piece *)

Definition parse_call (call : Value) : result LlamaError BrokerToolCall :=
  let id := string_of (get call "id") in
  let function := default VNull (get call "function") in
  let name := string_of (get function "name") in
  let arguments := string_of (get function "arguments") in
  fail_if (is_empty id || is_empty name || (65536 <? len arguments)
           || match from_str arguments with None => true | Some _ => false end)
    (malformed "local inference returned an invalid tool call");;
  Ok {| tc_id := id; tc_name := name; tc_arguments := arguments |}.

Definition parse_non_stream_response (request_id body : string) : eff lsys unit LlamaError LlamaOutput :=
  value ← lift (ok_or (from_slice body) (malformed "local inference returned malformed JSON"));
  match get value "error" with
  | Some error => lift (e ← provider_json_error error; Err e)
  | None =>
      choice ← lift (first_choice value);
      let message := default VNull (get choice "message") in
      let content := nonempty_content message in
      match content with Some content => send_content request_id content | None => mret tt end;;
      calls ← lift (map_result parse_call (default [] (get message "tool_calls" ≫= v_as_array)));
      lift (ensure_answered (match content with Some _ => true | None => false end) calls);;
      mret {| lo_finish_reason := default "stop"%string (get choice "finish_reason" ≫= v_as_str);
              lo_tool_calls := calls |}
  end.

(** ** A chat *)

Definition chat_header (length : usize) : string :=
  "POST /v1/chat/completions HTTP/1.1" +:+ CRLF +:+ "Host: sentia-local" +:+ CRLF
  +:+ "Content-Type: application/json" +:+ CRLF +:+ "Accept: text/event-stream" +:+ CRLF
  +:+ "Connection: close" +:+ CRLF +:+ "Content-Length: " +:+ show_uint length +:+ CRLF +:+ CRLF.

Definition chat (config : BrokerConfig) (request_id : string) (messages : list BrokerMessage)
    (tools : list BrokerTool) (max_tokens : u32) : eff lsys unit LlamaError LlamaOutput :=
  body ← lift (build_chat_body (bc_backend_model config) messages tools max_tokens);
  connect config true;;
  write_all true (chat_header (len body));;
  write_all true body;;
  reader ← perform Response;
  checkpoint true;;
  '(head, reader) ← io (read_head reader);
  if negb ((200 <=? hh_status head) && (hh_status head <? 300)) then
    '(body, _) ← io (read_body_bounded reader head MAX_HEALTH_BODY_BYTES);
    lift (e ← http_error (hh_status head) body; Err e)
  else
    let content_type := default EmptyString (member "content-type" (hh_headers head)) in
    if contains "text/event-stream" content_type || hh_chunked head then read_sse request_id reader head
    else
      checkpoint true;;
      '(body, _) ← io (read_body_bounded reader head 16777216);
      parse_non_stream_response request_id body.
End client.
