(* ===== verification/LlamaSafety.v ===== *)
(** * What the model client promises

    Theorems about [chat] and [health] of [LlamaClient] in every environment: to whom they
    write, what a returned answer contains, when they panic, and that an answer does not
    depend on how the response is transferred. *)

From Stdlib Require Import Ascii String.
From S2P Require Import Prelude RustStr RustText Contract Effects Framing BrokerProtocol LlamaHttp LlamaClient.

(** ** Whom the client talks to *)

Definition no_write (e : event lsys) : Prop :=
  match ev_call e with WriteAll _ => False | _ => True end.

(** The socket [socket] and its directory belong to one user who is not root, nobody else
    can reach it, and that user's process accepted the connection. *)
Record backend_trusted (config : BrokerConfig) (t : list (event lsys)) : Prop := {
  bt_checked : exists metadata directory parent_metadata,
    let socket := components (bc_backend_socket config) in
    Event _ (SymlinkMetadata socket) (inr metadata) ∈ t /\
    parent socket = Some directory /\
    Event _ (SymlinkMetadata directory) (inr parent_metadata) ∈ t /\
    sm_is_socket metadata = true /\ sm_uid metadata <> 0 /\ Z.land (sm_mode metadata) 511 = 384 /\
    sm_uid parent_metadata = sm_uid metadata /\ Z.land (sm_mode parent_metadata) 511 = 448 /\
    Event _ (Connect (bc_backend_socket config)) (Some (inr tt)) ∈ t /\
    Event _ PeerUid (inr (sm_uid metadata)) ∈ t;
}.

Section trust.
Context {S : Type}.

Lemma checkpoint_no_write token : emits no_write (checkpoint (S := S) token).
Proof. unfold checkpoint. emits_tac; done. Qed.

Lemma io_no_write A (r : result string A) : emits no_write (io (S := S) r).
Proof. apply emits_lift. Qed.

Lemma connect_no_write config token : emits no_write (connect (S := S) config token).
Proof.
  unfold connect. repeat (apply emits_bind; [|intros ?]);
    first [apply checkpoint_no_write | apply io_no_write | apply emits_lift | by apply emits_perform].
Qed.

(** Steps of [connect] that establish nothing, and those that do. *)
Lemma ensures_skip {A B} (m : eff lsys S LlamaError A) (k : A -> eff lsys S LlamaError B) Q :
  (forall a, ensures (k a) (fun env b u => forall t, Q env b (t ++ u))) -> ensures (m ≫= k) Q.
Proof.
  intros Hk. eapply (ensures_step _ _ _ _ (fun _ _ _ => True)); [done|].
  intros a. eapply ensures_mono; [|apply Hk]. auto.
Qed.

Lemma connect_trusts config token : ensures (connect (S := S) config token) (fun _ _ t => backend_trusted config t).
Proof.
  unfold connect. apply ensures_skip. intros _.
  eapply ensures_step; [apply ensures_perform|]. intros metadata.
  eapply ensures_step; [apply ensures_lift|]. intros meta.
  eapply ensures_step; [apply ensures_lift|]. intros dir.
  eapply ensures_step; [apply ensures_perform|]. intros pmetadata.
  eapply ensures_step; [apply ensures_lift|]. intros pmeta.
  eapply ensures_step; [apply ensures_lift|]. intros [].
  apply ensures_skip. intros _.
  eapply ensures_step; [apply ensures_perform|]. intros stream.
  apply ensures_skip. intros _.
  eapply ensures_step; [apply ensures_lift|]. intros conn.
  eapply ensures_step; [apply ensures_lift|]. intros [].
  eapply ensures_step; [apply ensures_perform|]. intros peer.
  eapply ensures_step; [apply ensures_lift|]. intros uid.
  eapply ensures_mono; [|apply ensures_lift]. cbn beta.
  intros env b u [Hu ->]. intros. destruct_and!. subst. unfold unsafe_socket in *. inv_result. zbool. subst.
  repeat match goal with H : map_err _ _ = Ok _ |- _ => apply map_err_Ok in H end.
  repeat match goal with H : reply ?x = Ok _ |- _ => destruct x; [done|]; injection H as -> end.
  constructor. exists meta, dir, pmeta. cbn zeta.
  repeat split; try done; rewrite ?app_assoc; set_solver.
Qed.
End trust.

Section safety.
Context `{IoTexts} (from_slice from_str : string -> option Value) (to_vec : Value -> result string string).
Context (config : BrokerConfig).
Abbreviation chat' := (chat from_slice from_str to_vec config).
Abbreviation health' := (health from_slice config).

Lemma trusted_app t u : backend_trusted config t -> backend_trusted config (t ++ u).
Proof.
  intros [(metadata & dir & pmetadata & Hc)]. constructor. exists metadata, dir, pmetadata. cbn zeta in *.
  destruct_and!. repeat split; try done; apply elem_of_app; by left.
Qed.

(** C30 The client writes only to the model process it was configured for: whenever [chat]
    or [health] sends bytes, the socket was seen before as a socket of mode 600 in a
    directory of mode 700, both owned by one user who is not root, and the process at the
    other end runs as that user. *)
Theorem requests_reach_only_the_backend request_id messages tools max_tokens env h before bytes r after :
  (trace (chat' request_id messages tools max_tokens env h tt) = before ++ Event _ (WriteAll bytes) r :: after \/
   trace (health' env h tt) = before ++ Event _ (WriteAll bytes) r :: after) ->
  backend_trusted config before.
Proof.
  intros [Ht|Ht]; unfold chat, health in Ht.
  - destruct (build_chat_body _ _ _ _ _) as [body| |]; [|by destruct before..].
    match type of Ht with trace ((lift _ ≫= ?k) _ _ _) = _ => change (trace (k body env (h ++ []) tt) = before ++ Event _ (WriteAll bytes) r :: after) in Ht end.
    cbv beta in Ht.
    eapply run_bind_after in Ht as (a & u & -> & Hb & _); [|apply connect_no_write|apply connect_trusts|by intros []].
    by apply trusted_app.
  - eapply run_bind_after in Ht as (a & u & -> & Hb & _); [|apply connect_no_write|apply connect_trusts|by intros []].
    by apply trusted_app.
Qed.

(** ** What an answer contains *)

Record valid_call (c : BrokerToolCall) : Prop := {
  vc_id : 0 < len (tc_id c);
  vc_name : 0 < len (tc_name c);
  vc_size : len (tc_arguments c) <= 65536;
  vc_json : is_Some (from_str (tc_arguments c));
}.

(** Every call sends only text of this request, and goes on only when it was accepted. *)
Definition sends_text (request_id : string) (e : event lsys) : Prop :=
  match ev_call e with
  | SendEvent event => exists content, 0 < len content /\ event = BeDelta BROKER_PROTOCOL_VERSION request_id content
  | _ => True
  end.

Definition answered (request_id : string) (t : list (event lsys)) : Prop :=
  exists content, 0 < len content /\
    Event _ (SendEvent (BeDelta BROKER_PROTOCOL_VERSION request_id content)) true ∈ t.

Lemma nonempty_content_Some message content : nonempty_content message = Some content -> 0 < len content.
Proof.
  unfold nonempty_content. intros Hc. repeat (apply bind_Some in Hc as (? & _ & Hc)).
  destruct (is_empty _) eqn:E; [done|]. injection Hc as <-. by apply is_empty_false.
Qed.

Lemma send_content_sends S request_id content :
  0 < len content -> emits (sends_text request_id) (send_content (S := S) request_id content).
Proof. intros Hc. unfold send_content. emits_tac. by exists content. Qed.

Lemma send_content_answers S request_id content :
  0 < len content -> ensures (send_content (S := S) request_id content) (fun _ _ t => answered request_id t).
Proof.
  intros Hc. unfold send_content. eapply ensures_step; [apply ensures_perform|]. intros [].
  - eapply ensures_mono; [|apply ensures_ret]. cbn beta. intros env a u [_ ->] t ->. exists content.
    split; [done|]. set_solver.
  - by intros env h s b.
Qed.

(** The flag is set only after a text was accepted. *)
Definition justified (request_id : string) (s : SseState) (t : list (event lsys)) (s' : SseState) : Prop :=
  ss_content_seen s' = true -> ss_content_seen s = true \/ answered request_id t.

Definition justifies (request_id : string) {A} (m : eff lsys SseState LlamaError A) : Prop :=
  forall env h s a, value (m env h s) = Ok a -> justified request_id s (trace (m env h s)) (final (m env h s)).

Lemma justified_trans request_id s t s' t' s'' :
  justified request_id s t s' -> justified request_id s' t' s'' -> justified request_id s (t ++ t') s''.
Proof.
  unfold justified, answered. intros H1 H2 Hs. destruct (H2 Hs) as [Hs'|(c & Hc & Hin)].
  - destruct (H1 Hs') as [|(c & Hc & Hin)]; [by left|]. right. exists c. set_solver.
  - right. exists c. set_solver.
Qed.

Lemma justifies_bind request_id A B (m : eff lsys SseState LlamaError A) (k : A -> eff lsys SseState LlamaError B) :
  justifies request_id m -> (forall a, justifies request_id (k a)) -> justifies request_id (m ≫= k).
Proof.
  intros Hm Hk env h s b Hb. apply run_bind_Ok in Hb as (a & Ha & Hb & -> & ->).
  eapply justified_trans; [by eapply Hm|by eapply Hk].
Qed.

Lemma justifies_keeps request_id A (m : eff lsys SseState LlamaError A) : keeps_state m -> justifies request_id m.
Proof. intros Hm env h s a _. rewrite Hm. by left. Qed.

Lemma justifies_with_state request_id (f : SseState -> SseState) :
  (forall s, ss_content_seen (f s) = ss_content_seen s) ->
  justifies request_id (with_state (E := LlamaError) (fun s => (f s, Ok tt))).
Proof. intros Hf env h s a _. cbn. unfold justified. rewrite Hf. by left. Qed.

(** Setting the flag and sending the text. *)
Lemma justifies_send request_id content (f : SseState -> SseState) :
  0 < len content ->
  justifies request_id (with_state (fun s => (f s, Ok tt));; send_content request_id content).
Proof.
  intros Hc env h s a Ha. apply run_bind_Ok in Ha as (b & _ & Hv & -> & _).
  apply (send_content_answers _ _ _ Hc) in Hv. intros _. right. exact Hv.
Qed.

Lemma process_sse_event_justifies request_id event : justifies request_id (process_sse_event from_str request_id event).
Proof.
  unfold process_sse_event. apply justifies_bind; [apply justifies_keeps, keeps_lift|intros _].
  cbv zeta. destruct (is_empty _); [apply justifies_keeps, keeps_ret|].
  destruct (String.eqb _ _); [apply justifies_keeps, keeps_ret|].
  apply justifies_bind; [apply justifies_keeps, keeps_lift|intros value].
  destruct (get value "error"); [apply justifies_keeps, keeps_lift|].
  apply justifies_bind; [apply justifies_keeps, keeps_lift|intros choice].
  apply justifies_bind; [by apply justifies_with_state|intros _].
  apply justifies_bind.
  - destruct (nonempty_content _) eqn:Hc; [|apply justifies_keeps, keeps_ret].
    apply justifies_send. by eapply nonempty_content_Some.
  - intros _. apply justifies_bind; [by apply justifies_with_state|intros _]. apply justifies_keeps, keeps_ret.
Qed.

Lemma drain_events_justifies fuel request_id sse : justifies request_id (drain_events from_str fuel request_id sse).
Proof.
  revert sse. induction fuel as [|fuel IH]; intros sse; cbn [drain_events]; [apply justifies_keeps, keeps_lift|].
  destruct (take_sse_event sse) as [[event rest]|]; [|apply justifies_keeps, keeps_ret].
  apply justifies_bind; [apply process_sse_event_justifies|]. intros []; [apply justifies_keeps, keeps_ret|apply IH].
Qed.

Lemma finish_tool_calls_valid m calls : finish_tool_calls from_str m = Ok calls -> Forall valid_call calls.
Proof.
  unfold finish_tool_calls. intros Hf%map_result_Forall2.
  induction Hf as [|parts c ps cs Hc Hf IH]; constructor; [|done].
  unfold finish_tool_call in Hc. inv_result. subst. zbool.
  repeat match goal with H : is_empty _ = false |- _ => apply is_empty_false in H end.
  constructor; cbn; eauto; lia.
Qed.

Lemma ensure_answered_Ok seen calls u : ensure_answered seen calls = Ok u -> seen = true \/ calls <> [].
Proof. unfold ensure_answered. destruct seen; [by left|]. by destruct calls; [|right]. Qed.

(** A complete answer: text that was accepted or tool calls, all of them valid. *)
Definition complete (request_id : string) (t : list (event lsys)) (output : LlamaOutput) : Prop :=
  (answered request_id t \/ lo_tool_calls output <> []) /\ Forall valid_call (lo_tool_calls output).

Lemma finish_output_complete s reason output :
  finish_output from_str s reason = Ok output ->
  (ss_content_seen s = true \/ lo_tool_calls output <> []) /\ Forall valid_call (lo_tool_calls output).
Proof.
  unfold finish_output. intros Hf. inv_result. subst. cbn.
  split; [by eapply ensure_answered_Ok|by eapply finish_tool_calls_valid].
Qed.

(** [m] returns only complete answers, given what its start state stands for. *)
Definition concludes (request_id : string) (m : eff lsys SseState LlamaError LlamaOutput) : Prop :=
  forall env h s output, value (m env h s) = Ok output ->
    (ss_content_seen s = true \/ answered request_id (trace (m env h s)) \/ lo_tool_calls output <> []) /\
    Forall valid_call (lo_tool_calls output).

Lemma concludes_bind request_id A (m : eff lsys SseState LlamaError A) k :
  justifies request_id m -> (forall a, concludes request_id (k a)) -> concludes request_id (m ≫= k).
Proof.
  intros Hm Hk env h s output Ho. apply run_bind_Ok in Ho as (a & Ha & Ho & -> & _).
  apply Hk in Ho as [Ho Hv]. split; [|done]. apply Hm in Ha. destruct Ho as [Ho|[(c & Hc & Hin)|Ho]].
  - destruct (Ha Ho) as [|(c & Hc & Hin)]; [by left|]. right; left. exists c. set_solver.
  - right; left. exists c. set_solver.
  - by right; right.
Qed.

Lemma concludes_finish request_id (r : SseState -> result LlamaError LlamaOutput) :
  (forall s output, r s = Ok output -> exists reason, finish_output from_str s reason = Ok output) ->
  concludes request_id (with_state (fun s => (s, r s))).
Proof.
  intros Hr env h s output Ho. cbn in Ho. apply Hr in Ho as (reason & Ho).
  apply finish_output_complete in Ho as [[Ho|Ho] Hv]; split; auto.
Qed.

Lemma read_sse_loop_concludes fuel request_id mode reader sse :
  concludes request_id (read_sse_loop from_str fuel request_id mode reader sse).
Proof.
  revert mode reader sse. induction fuel as [|fuel IH]; intros mode reader sse; cbn [read_sse_loop]; [done|].
  apply concludes_bind; [apply justifies_keeps; unfold checkpoint; keeps_tac|intros _].
  apply concludes_bind; [apply justifies_keeps, keeps_lift|]. intros [[[chunk|] mode'] reader'].
  - apply concludes_bind; [apply justifies_keeps, keeps_lift|intros _].
    apply concludes_bind; [apply drain_events_justifies|]. intros [[] sse']; [|apply IH].
    apply concludes_finish. eauto.
  - apply concludes_bind.
    + destruct (is_empty sse); [apply justifies_keeps, keeps_ret|].
      apply justifies_bind; [apply process_sse_event_justifies|intros _]. apply justifies_keeps, keeps_ret.
    + intros _. apply concludes_finish. intros s output. destruct (ss_finish_reason s); [eauto|done].
Qed.

Lemma read_sse_complete request_id reader head :
  ensures (read_sse from_str request_id reader head) (fun _ output t => complete request_id t output).
Proof.
  intros env h s output Ho. apply read_sse_loop_concludes in Ho as [[Ho|Ho] Hv]; [done|]. by split.
Qed.

Lemma parse_calls_valid values calls : map_result (parse_call from_str) values = Ok calls -> Forall valid_call calls.
Proof.
  intros Hf%map_result_Forall2. induction Hf as [|v c vs cs Hc Hf IH]; constructor; [|done].
  unfold parse_call in Hc. cbv zeta in Hc. inv_result. subst. zbool.
  repeat match goal with H : is_empty _ = false |- _ => apply is_empty_false in H end.
  constructor; cbn; try lia. by destruct (from_str _).
Qed.

Lemma parse_non_stream_complete request_id body :
  ensures (parse_non_stream_response from_slice from_str request_id body) (fun _ output t => complete request_id t output).
Proof.
  unfold parse_non_stream_response. apply ensures_skip. intros value.
  destruct (get value "error"). { intros env h s a. cbn. by destruct (provider_json_error _). }
  apply ensures_skip. intros choice. cbv zeta.
  destruct (nonempty_content _) as [content|] eqn:Hc.
  - eapply ensures_step; [by eapply send_content_answers, nonempty_content_Some|]. intros [].
    eapply ensures_step; [apply ensures_lift|]. intros calls.
    apply ensures_skip. intros _.
    eapply ensures_mono; [|apply ensures_ret]. cbn beta. intros env output u [-> ->] t1 t2 [Hv ->] t3 (c & Hl & Hin).
    split; [left; exists c; set_solver|by eapply parse_calls_valid].
  - apply ensures_skip. intros _. eapply ensures_step; [apply ensures_lift|]. intros calls.
    eapply ensures_step; [apply ensures_lift|]. intros u0.
    eapply ensures_mono; [|apply ensures_ret]. cbn beta. intros env output u [-> ->] t1 [Ha ->] t2 [Hv ->] t3.
    apply ensure_answered_Ok in Ha as [Ha|Ha]; [done|]. split; [by right|by eapply parse_calls_valid].
Qed.

Lemma ensures_if A (b : bool) (m1 m2 : eff lsys unit LlamaError A) Q :
  ensures m1 Q -> ensures m2 Q -> ensures (if b then m1 else m2) Q.
Proof. by destruct b. Qed.

Lemma complete_app request_id output t u : complete request_id u output -> complete request_id (t ++ u) output.
Proof.
  intros [[(c & Hc & Hin)|Hn] Hv]; split; try done; [left|by right]. exists c. set_solver.
Qed.

(** A rule for the steps before the answer. *)
Lemma complete_after request_id A (m : eff lsys unit LlamaError A) k :
  (forall a, ensures (k a) (fun _ output t => complete request_id t output)) ->
  ensures (m ≫= k) (fun _ output t => complete request_id t output).
Proof.
  intros Hk. apply ensures_skip. intros a. eapply ensures_mono; [|apply Hk]. cbn.
  intros env output u Hu t. by apply complete_app.
Qed.

Lemma process_sse_event_sends request_id event :
  emits (sends_text request_id) (process_sse_event from_str request_id event).
Proof.
  unfold process_sse_event. cbv zeta. apply emits_bind; [apply emits_lift|intros _].
  destruct (is_empty _); [apply emits_ret|]. destruct (String.eqb _ _); [apply emits_ret|].
  apply emits_bind; [apply emits_lift|intros value]. destruct (get value "error"); [apply emits_lift|].
  apply emits_bind; [apply emits_lift|intros choice]. apply emits_bind; [apply emits_with_state|intros _].
  apply emits_bind.
  - destruct (nonempty_content _) eqn:Hc; [|apply emits_ret].
    apply emits_bind; [apply emits_with_state|intros _]. by eapply send_content_sends, nonempty_content_Some.
  - intros _. apply emits_bind; [apply emits_with_state|intros _]. apply emits_ret.
Qed.

Lemma drain_events_sends fuel request_id sse : emits (sends_text request_id) (drain_events from_str fuel request_id sse).
Proof.
  revert sse. induction fuel as [|fuel IH]; intros sse; cbn [drain_events]; [apply emits_lift|].
  destruct (take_sse_event sse) as [[event rest]|]; [|apply emits_ret].
  apply emits_bind; [apply process_sse_event_sends|]. intros []; [apply emits_ret|apply IH].
Qed.

Lemma checkpoint_sends S request_id token : emits (sends_text request_id) (checkpoint (S := S) token).
Proof. unfold checkpoint. emits_tac; done. Qed.

Lemma read_sse_loop_sends fuel request_id mode reader sse :
  emits (sends_text request_id) (read_sse_loop from_str fuel request_id mode reader sse).
Proof.
  revert mode reader sse. induction fuel as [|fuel IH]; intros mode reader sse; cbn [read_sse_loop]; [apply emits_lift|].
  apply emits_bind; [apply checkpoint_sends|intros _].
  apply emits_bind; [apply emits_lift|]. intros [[[chunk|] mode'] reader'].
  - apply emits_bind; [apply emits_lift|intros _].
    apply emits_bind; [apply drain_events_sends|]. intros [[] sse']; [apply emits_with_state|apply IH].
  - apply emits_bind; [|intros _; apply emits_with_state].
    destruct (is_empty sse); [apply emits_ret|].
    apply emits_bind; [apply process_sse_event_sends|intros _]. apply emits_ret.
Qed.

Lemma parse_non_stream_sends request_id body :
  emits (sends_text request_id) (parse_non_stream_response from_slice from_str request_id body).
Proof.
  unfold parse_non_stream_response. apply emits_bind; [apply emits_lift|intros value].
  destruct (get value "error"); [apply emits_lift|]. apply emits_bind; [apply emits_lift|intros choice].
  cbv zeta. apply emits_bind.
  - destruct (nonempty_content _) eqn:Hc; [|apply emits_ret]. by eapply send_content_sends, nonempty_content_Some.
  - intros _. emits_tac.
Qed.

Lemma connect_sends S request_id token : emits (sends_text request_id) (connect (S := S) config token).
Proof.
  unfold connect. repeat (apply emits_bind; [|intros ?]);
    first [apply checkpoint_sends | apply emits_lift | by apply emits_perform].
Qed.

Lemma write_all_sends S request_id token bytes : emits (sends_text request_id) (write_all (S := S) token bytes).
Proof.
  unfold write_all. repeat (apply emits_bind; [|intros ?]);
    first [apply checkpoint_sends | apply emits_lift | by apply emits_perform].
Qed.

Lemma chat_sends request_id messages tools max_tokens :
  emits (sends_text request_id) (chat' request_id messages tools max_tokens).
Proof.
  unfold chat. apply emits_bind; [apply emits_lift|intros body]. apply emits_bind; [apply connect_sends|intros _].
  do 2 (apply emits_bind; [apply write_all_sends|intros _]).
  apply emits_bind; [by apply emits_perform|intros reader]. apply emits_bind; [apply checkpoint_sends|intros _].
  apply emits_bind; [apply emits_lift|]. intros [head rest]. destruct (negb _); [emits_tac|].
  cbv zeta. destruct (_ || _); [apply emits_zoom, read_sse_loop_sends|].
  apply emits_bind; [apply checkpoint_sends|intros _]. apply emits_bind; [apply emits_lift|].
  intros [b r]. apply parse_non_stream_sends.
Qed.

Lemma chat_complete request_id messages tools max_tokens :
  ensures (chat' request_id messages tools max_tokens) (fun _ output t => complete request_id t output).
Proof.
  unfold chat. do 5 (apply complete_after; intros ?). apply complete_after; intros _.
  apply complete_after. intros [head reader]. apply ensures_if.
  - apply complete_after. intros [body rest]. intros env h s output. cbn. by destruct (http_error _ _ _).
  - cbv zeta. apply ensures_if; [apply read_sse_complete|].
    apply complete_after; intros _. apply complete_after. intros [body rest]. apply parse_non_stream_complete.
Qed.

(** What a chat tells its client: it sends only texts of this request, none of them
    empty; and when it returns, some text was accepted by the receiver or the output has
    tool calls, and every tool call has an identifier, a name and arguments of at most
    64 KiB that are JSON.  An empty answer is an error. *)
Theorem answers_are_complete request_id messages tools max_tokens env h :
  let o := chat' request_id messages tools max_tokens env h tt in
  Forall (sends_text request_id) (trace o) /\
  forall output, value o = Ok output -> complete request_id (trace o) output.
Proof. cbn zeta. split; [apply chat_sends|]. intros output. apply chat_complete. Qed.

(** ** Panics *)

(** A response in JSON that reports an error, and a message that cannot be cut at 512. *)
Definition reports (value : Value) (message : string) : Prop :=
  exists error, get value "error" = Some error /\ get error "message" = Some (VString message).
Definition uncuttable (message : string) : Prop :=
  512 < len message /\ is_char_boundary message (Z.to_nat 512) = false.

Definition bad_report : Prop := exists text value message,
  (from_slice text = Some value \/ from_str text = Some value) /\ reports value message /\ uncuttable message.

(** [m] panics only if [Q]. *)
Section panics.
Context (Q : Prop).
Definition faults {S E A} (m : eff lsys S E A) : Prop := forall env h s, value (m env h s) = Panic -> Q.

Lemma faults_bind S E A B (m : eff lsys S E A) (k : A -> eff lsys S E B) :
  faults m -> (forall a, faults (k a)) -> faults (m ≫= k).
Proof.
  intros Hm Hk env h s. unfold mbind, eff_bind. destruct (value (m env h s)) eqn:E1; cbn; [apply Hk|done|].
  intros _. by eapply Hm.
Qed.
Lemma faults_lift S E A (r : result E A) : r <> Panic -> faults (lift (S := S) r).
Proof. by intros Hr env h s. Qed.
Lemma faults_bind_lift S E A B (r : result E A) (k : A -> eff lsys S E B) :
  r <> Panic -> (forall a, r = Ok a -> faults (k a)) -> faults (lift r ≫= k).
Proof.
  intros Hr Hk env h s. unfold mbind, eff_bind, lift. destruct r as [a| |]; cbn; [|done|done].
  by apply Hk.
Qed.
Lemma faults_with_state S E A (f : S -> S * result E A) : (forall s, (f s).2 <> Panic) -> faults (with_state f).
Proof. intros Hf env h s. unfold with_state. specialize (Hf s). by destruct (f s). Qed.
Lemma faults_ret S E A (a : A) : faults (mret a : eff lsys S E A).
Proof. by intros env h s. Qed.
Lemma faults_perform S E A (c : lsys A) : faults (perform (S := S) (E := E) c).
Proof. by intros env h s. Qed.
Lemma faults_io S A (r : result string A) : r <> Panic -> faults (io (S := S) r).
Proof. intros Hr. apply faults_lift. by destruct r. Qed.
Lemma faults_checkpoint S token : faults (checkpoint (S := S) token).
Proof.
  unfold checkpoint. destruct token; [|apply faults_ret]. apply faults_bind; [apply faults_perform|].
  intros []; [by apply faults_lift|apply faults_ret].
Qed.

Lemma reply_no_panic A (r : string + A) : reply r <> Panic.
Proof. by destruct r. Qed.

Lemma connect_faults S token : faults (connect (S := S) config token).
Proof.
  unfold connect. repeat (apply faults_bind; [|intros ?]);
    first [apply faults_checkpoint | apply faults_perform | apply faults_io, reply_no_panic | apply faults_lift].
  - by destruct (parent _).
  - by destruct (unsafe_socket _ _).
  - by match goal with |- ok_or ?o _ <> _ => destruct o end.
  - by destruct (negb _).
Qed.

Lemma write_all_faults S token bytes : faults (write_all (S := S) token bytes).
Proof.
  unfold write_all. repeat (apply faults_bind; [|intros ?]);
    first [apply faults_checkpoint | apply faults_perform | apply faults_io, reply_no_panic].
Qed.

Lemma truncate_Panic {E} message : truncate (E := E) message 512 = Panic -> uncuttable message.
Proof.
  unfold truncate. destruct (Z.leb_spec (len message) 512); [done|].
  destruct (is_char_boundary message (Z.to_nat 512)) eqn:E1; done.
Qed.

Context (reported : bad_report -> Q).

Lemma provider_json_error_faults {S A} text value error :
  from_slice text = Some value \/ from_str text = Some value -> get value "error" = Some error ->
  faults (A := A) (lift (S := S) (e ← provider_json_error error; Err e)).
Proof.
  intros Ht He env h s. cbn. unfold provider_json_error, bounded_error_message.
  destruct (truncate _ 512) eqn:E1; try done. intros _. apply truncate_Panic in E1.
  destruct (get error "message") as [[| | |message| |]|] eqn:Em; cbn in E1; try by destruct E1.
  apply reported. exists text, value, message. split; [done|]. split; [by exists error|done].
Qed.

Lemma http_error_faults {S A} status body :
  faults (A := A) (lift (S := S) (e ← http_error from_slice status body; Err e)).
Proof.
  intros env h s. cbn. unfold http_error. destruct (status_kind status) as [kind retryable].
  unfold bounded_error_message. destruct (truncate _ 512) eqn:E1; try done. intros _. apply truncate_Panic in E1.
  match type of E1 with uncuttable (default ?d ?o) => destruct o as [message|] eqn:Eo end; cbn [default] in E1.
  - apply bind_Some in Eo as (value & Hv & Eo). apply bind_Some in Eo as (error & He & Eo).
    apply bind_Some in Eo as (m & Hm & Eo). destruct m; try done. injection Eo as ->.
    apply reported. exists body, value, message. split; [by left|]. split; [by exists error|done].
  - exfalso. destruct E1 as [Hl E1]. unfold id in E1. rewrite ascii_boundary in E1; [done| |unfold len, id in *; lia].
    rewrite bytes_all_app. apply andb_true_iff. split; [done|]. pose proof (show_uint_digits status) as Hd.
    unfold bytes_all in *. rewrite forallb_forall in *. intros c Hc. apply Hd in Hc.
    unfold is_ascii_digit, is_ascii in *. inv_result. zbool. apply Z.ltb_lt. lia.
Qed.

Lemma first_choice_no_panic value : first_choice value <> Panic.
Proof. unfold first_choice. by destruct (_ ≫= _). Qed.

Lemma send_content_faults S request_id content : faults (send_content (S := S) request_id content).
Proof.
  unfold send_content. apply faults_bind; [apply faults_perform|]. intros []; [apply faults_ret|by apply faults_lift].
Qed.

Lemma process_sse_event_faults request_id event : faults (process_sse_event from_str request_id event).
Proof.
  unfold process_sse_event. cbv zeta. apply faults_bind; [apply faults_lift; by destruct (negb _)|intros _].
  destruct (is_empty _); [apply faults_ret|]. destruct (String.eqb _ _); [apply faults_ret|].
  apply faults_bind_lift; [by destruct (from_str _)|]. intros value Hv. apply ok_or_Ok in Hv.
  destruct (get value "error") as [error|] eqn:He; [eapply provider_json_error_faults; eauto|].
  apply faults_bind; [apply faults_lift, first_choice_no_panic|intros choice].
  apply faults_bind; [by apply faults_with_state|intros _].
  apply faults_bind.
  - destruct (nonempty_content _); [|apply faults_ret].
    apply faults_bind; [by apply faults_with_state|intros _]. apply send_content_faults.
  - intros _. apply faults_bind; [by apply faults_with_state|intros _]. apply faults_ret.
Qed.

(** An event and its separator are consumed. *)
Lemma take_sse_event_shorter sse event rest :
  take_sse_event sse = Some (event, rest) -> (String.length rest < String.length sse)%nat.
Proof.
  assert (forall w s n, find_window w s = Some n -> w <> EmptyString -> (n < String.length s)%nat) as Hw.
  { intros w. induction s as [|c s IH]; intros n; cbn [find_window]; destruct (starts_with w _) eqn:E; try done.
    - intros [= <-] Hne. by destruct w.
    - intros [= <-] _. cbn. lia.
    - intros Hn Hne. apply fmap_Some in Hn as (m & Hm & ->). apply IH in Hm; [|done]. cbn. lia. }
  unfold take_sse_event. destruct (find_window LFLF sse) as [lf|] eqn:E1, (find_window (CRLF +:+ CRLF) sse) as [crlf|] eqn:E2; try done.
  all: repeat match goal with H : find_window _ _ = Some _ |- _ => apply Hw in H; [|done] end.
  1: destruct (_ <=? _)%nat. all: intros [= _ <-]; rewrite length_sdrop; lia.
Qed.

Lemma drain_events_faults fuel request_id sse :
  (String.length sse < fuel)%nat -> faults (drain_events from_str fuel request_id sse).
Proof.
  revert sse. induction fuel as [|fuel IH]; intros sse Hf; cbn [drain_events]; [lia|].
  destruct (take_sse_event sse) as [[event rest]|] eqn:E1; [|apply faults_ret].
  apply take_sse_event_shorter in E1. apply faults_bind; [apply process_sse_event_faults|].
  intros []; [apply faults_ret|apply IH; lia].
Qed.

Lemma finish_output_no_panic s reason : finish_output from_str s reason <> Panic.
Proof.
  unfold finish_output. assert (finish_tool_calls from_str (ss_tool_calls s) <> Panic) as Hp.
  { apply map_result_no_panic. intros p. unfold finish_tool_call. destruct (_ || _); [done|]. cbn.
    by destruct (from_str _). }
  destruct (finish_tool_calls _ _) as [calls| |]; try done. cbn. unfold ensure_answered. by destruct (_ || _).
Qed.

Lemma read_sse_loop_faults fuel request_id mode reader sse :
  mode_ok mode -> (left reader < fuel)%nat -> faults (read_sse_loop from_str fuel request_id mode reader sse).
Proof.
  revert mode reader sse. induction fuel as [|fuel IH]; intros mode reader sse Hm Hf; cbn [read_sse_loop]; [lia|].
  apply faults_bind; [apply faults_checkpoint|intros _].
  apply faults_bind_lift.
  { pose proof (body_next_no_panic mode reader). by destruct (body_next mode reader). }
  intros [[[chunk|] mode'] reader'] Hn.
  - apply map_err_Ok, body_next_left in Hn as (_ & Hm' & Hl); [|done].
    apply faults_bind; [apply faults_lift; by destruct (_ <? _)|intros _].
    apply faults_bind; [apply drain_events_faults; lia|]. intros [[] sse'].
    + apply faults_with_state. intros s. apply finish_output_no_panic.
    + apply IH; [done|lia].
  - apply faults_bind.
    + destruct (is_empty sse); [apply faults_ret|].
      apply faults_bind; [apply process_sse_event_faults|intros _]. apply faults_ret.
    + intros _. apply faults_with_state. intros s. cbn. destruct (ss_finish_reason s); [|done].
      apply finish_output_no_panic.
Qed.

Lemma parse_non_stream_faults request_id body : faults (parse_non_stream_response from_slice from_str request_id body).
Proof.
  unfold parse_non_stream_response. apply faults_bind_lift; [by destruct (from_slice _)|]. intros value Hv.
  apply ok_or_Ok in Hv. destruct (get value "error") as [error|] eqn:He; [eapply provider_json_error_faults; eauto|].
  apply faults_bind; [apply faults_lift, first_choice_no_panic|intros choice]. cbv zeta.
  apply faults_bind; [destruct (nonempty_content _); [apply send_content_faults|apply faults_ret]|intros _].
  apply faults_bind.
  - apply faults_lift, map_result_no_panic. intros call. unfold parse_call. cbv zeta. by destruct (_ || _).
  - intros calls. apply faults_bind; [|intros _; apply faults_ret]. apply faults_lift. unfold ensure_answered.
    by destruct (_ || _).
Qed.

Lemma chat_faults request_id messages tools max_tokens :
  build_chat_body to_vec (bc_backend_model config) messages tools max_tokens <> Panic ->
  faults (chat' request_id messages tools max_tokens).
Proof.
  intros Hb. unfold chat. apply faults_bind; [by apply faults_lift|intros body].
  apply faults_bind; [apply connect_faults|intros _]. do 2 (apply faults_bind; [apply write_all_faults|intros _]).
  apply faults_bind; [apply faults_perform|intros reader]. apply faults_bind; [apply faults_checkpoint|intros _].
  apply faults_bind_lift; [pose proof (read_head_no_panic reader); by destruct (read_head reader)|].
  intros [head rest] Hh%map_err_Ok%read_head_ok. destruct (negb _).
  - apply faults_bind; [by apply faults_io, read_body_bounded_no_panic|]. intros []. apply http_error_faults.
  - cbv zeta. destruct (_ || _).
    + intros env h s. apply read_sse_loop_faults; [by apply new_mode_ok|unfold turns, left; lia].
    + apply faults_bind; [apply faults_checkpoint|intros _].
      apply faults_bind; [by apply faults_io, read_body_bounded_no_panic|]. intros []. apply parse_non_stream_faults.
Qed.
End panics.

Lemma health_faults : faults False health'.
Proof.
  unfold health. apply faults_bind; [apply connect_faults|intros _]. apply faults_bind; [apply write_all_faults|intros _].
  apply faults_bind; [apply faults_perform|intros reader].
  apply faults_bind_lift; [pose proof (read_head_no_panic reader); by destruct (read_head reader)|].
  intros [head rest] Hh%map_err_Ok%read_head_ok.
  apply faults_bind; [by apply faults_io, read_body_bounded_no_panic|]. intros []. apply faults_ret.
Qed.

Lemma build_chat_body_no_panic model messages tools max_tokens :
  (forall value, to_vec value <> Panic) -> build_chat_body to_vec model messages tools max_tokens <> Panic.
Proof.
  intros Hv. unfold build_chat_body. destruct (existsb _ _); [done|]. cbn [fail_if mbind result_bind].
  match goal with |- map_err _ (to_vec ?v) <> _ => specialize (Hv v); by destruct (to_vec v) end.
Qed.

(** The client returns whatever the model process sends: [health] never panics, and
    [chat] only when a JSON response reports an error whose message is longer than 512
    bytes with a character across that position; in particular the loops over headers,
    chunks and events end. *)
Theorem chat_panics_only_on_reports request_id messages tools max_tokens env h :
  (forall value, to_vec value <> Panic) ->
  value (health' env h tt) <> Panic /\
  (value (chat' request_id messages tools max_tokens env h tt) = Panic -> bad_report).
Proof.
  intros Hv. split.
  - intros Hp. by apply health_faults in Hp.
  - apply (chat_faults bad_report); [done|by apply build_chat_body_no_panic].
Qed.
End safety.
