(* ===== verification/LlamaTransfer.v ===== *)
(** * An answer does not depend on its transfer

    A streamed answer reaches [read_sse] in one of the framings of HTTP, cut into reads by
    the kernel.  As long as the whole response is within the size limit of one event, the
    texts it sends and the output it returns depend only on the bytes of the body. *)

From Stdlib Require Import Ascii String.
From S2P Require Import Prelude RustStr RustText Contract Effects Framing BrokerProtocol LlamaHttp LlamaClient LlamaSafety.

(** ** Events of a growing buffer *)

(** [take_sse_event] from the left. *)
Fixpoint next_event (s : string) : option (string * string) :=
  if starts_with LFLF s then Some (EmptyString, sdrop 2 s)
  else if starts_with (CRLF +:+ CRLF) s then Some (EmptyString, sdrop 4 s)
  else match s with
       | EmptyString => None
       | String c s' => match next_event s' with Some (e, r) => Some (String c e, r) | None => None end
       end.

Lemma take_sse_event_next s : take_sse_event s = next_event s.
Proof.
  induction s as [|c s IH]; [done|]. unfold take_sse_event in *.
  cbn [find_window next_event].
  destruct (starts_with LFLF (String c s)) eqn:E1; [by destruct (starts_with (CRLF +:+ CRLF) (String c s)), (find_window (CRLF +:+ CRLF) s)|].
  destruct (starts_with (CRLF +:+ CRLF) (String c s)) eqn:E2; [by destruct (find_window LFLF s)|].
  rewrite <-IH. destruct (find_window LFLF s) as [l|], (find_window (CRLF +:+ CRLF) s) as [r|]; cbn [fmap option_fmap option_map]; try done.
  change (S l <=? S r)%nat with (l <=? r)%nat. by destruct (l <=? r)%nat.
Qed.

Lemma starts_with_app w s b : starts_with w s = true -> starts_with w (s +:+ b) = true.
Proof. rewrite !starts_with_true. intros (r & ->). exists (r +:+ b). by rewrite str_app_assoc. Qed.

Lemma starts_with_long w s b :
  (String.length w <= String.length s)%nat -> starts_with w s = false -> starts_with w (s +:+ b) = false.
Proof.
  intros Hl Hs. destruct (starts_with w (s +:+ b)) eqn:E1; [|done]. apply starts_with_true in E1 as (r & E1).
  symmetry in E1. apply app_cut in E1 as (v & -> & _); [|done].
  rewrite <-Hs. symmetry. apply starts_with_true. by exists v.
Qed.

Lemma starts_with_head w s : starts_with w s = true -> (String.length w <= String.length s)%nat.
Proof. intros (r & ->)%starts_with_true. rewrite str_length_app. lia. Qed.

Lemma sdrop_app n s b : (n <= String.length s)%nat -> sdrop n (s +:+ b) = sdrop n s +:+ b.
Proof. revert s. induction n as [|n IH]; intros s Hn; [done|]. destruct s as [|c s]; [cbn in Hn; lia|]. apply IH. cbn in Hn. lia. Qed.

Lemma next_event_long s e r : next_event s = Some (e, r) -> (2 <= String.length s)%nat.
Proof.
  revert e r. induction s as [|c s IH]; intros e r; [done|]. cbn [next_event].
  destruct (starts_with LFLF _) eqn:E1; [intros _; by apply starts_with_head in E1|].
  destruct (starts_with (CRLF +:+ CRLF) _) eqn:E2; [intros _; apply starts_with_head in E2; cbn in *; lia|].
  destruct (next_event s) as [[e' r']|] eqn:E3; [|done]. intros _. pose proof (IH _ _ eq_refl). cbn. lia.
Qed.

(** A separator of two bytes does not end inside one of four. *)
Lemma crlf_not_split c s e r b :
  next_event s = Some (e, r) -> starts_with (CRLF +:+ CRLF) (String c s) = false ->
  starts_with (CRLF +:+ CRLF) (String c s +:+ b) = false.
Proof.
  intros Hn Hs. pose proof (next_event_long _ _ _ Hn) as Hl. destruct (Nat.le_gt_cases 4 (S (String.length s))).
  { by apply starts_with_long. }
  destruct s as [|c1 [|c2 [|c3 s]]]; cbn in Hl; try lia; [|cbn in *; lia].
  remember (String c2 EmptyString) as s2 eqn:Hs2. cbn [next_event] in Hn. subst s2.
  destruct (starts_with LFLF (String c1 (String c2 EmptyString))) eqn:E1.
  - apply starts_with_true in E1 as (v & E1). injection E1 as -> -> _. cbn.
    destruct (starts_with _ _) eqn:E2; [|done]. apply starts_with_true in E2 as (v2 & E2). discriminate E2.
  - exfalso. destruct (starts_with (CRLF +:+ CRLF) (String c1 (String c2 EmptyString))) eqn:E2.
    { apply starts_with_head in E2. cbn in E2. lia. }
    destruct (next_event (String c2 EmptyString)) as [[e2 r2]|] eqn:E4; [|done].
    apply next_event_long in E4. cbn in E4. lia.
Qed.

(** More bytes do not change the events that are already complete. *)
Lemma take_sse_event_app s e r b : take_sse_event s = Some (e, r) -> take_sse_event (s +:+ b) = Some (e, r +:+ b).
Proof.
  rewrite !take_sse_event_next. revert e r. induction s as [|c s IH]; intros e r; [done|].
  cbn [next_event]. change (String c s +:+ b) with (String c (s +:+ b)). cbn [next_event].
  change (String c (s +:+ b)) with (String c s +:+ b).
  destruct (starts_with LFLF (String c s)) eqn:E1.
  { rewrite starts_with_app by done. intros [= <- <-]. apply starts_with_head in E1.
    by rewrite sdrop_app by (cbn in *; lia). }
  destruct (starts_with (CRLF +:+ CRLF) (String c s)) eqn:E2.
  { rewrite starts_with_long, starts_with_app; [|done| |done].
    - intros [= <- <-]. apply starts_with_head in E2. by rewrite sdrop_app by (cbn in *; lia).
    - apply starts_with_head in E2. cbn in *. lia. }
  destruct (next_event s) as [[e' r']|] eqn:E3; [|done]. intros [= <- <-].
  rewrite (starts_with_long LFLF), (crlf_not_split c s e' r'), (IH _ _ eq_refl); [done..| |done].
  apply next_event_long in E3. cbn. lia.
Qed.

(** ** What the receiver observes *)

(** A receiver that takes every text, and no cancellation. *)
Definition obliging (env : environment lsys) : Prop :=
  (forall h, env h bool Cancelled = false) /\ (forall h event, env h bool (SendEvent event) = true).

Definition text_of (e : event lsys) : option string :=
  match ev_call e with SendEvent (BeDelta _ _ content) => Some content | _ => None end.
Definition texts (t : list (event lsys)) : list string := omap text_of t.

Definition observed {S E A} (o : outcome lsys S E A) : result E A * S * list string :=
  (value o, final o, texts (trace o)).

Section observing.
Context (env : environment lsys) (env_obliging : obliging env).

(** Two computations that differ only in calls nobody sees, whatever happened before. *)
Definition same {S E A} (m1 m2 : eff lsys S E A) : Prop :=
  forall h1 h2 s, observed (m1 env h1 s) = observed (m2 env h2 s).

Lemma same_trans S E A (m1 m2 m3 : eff lsys S E A) : same m1 m2 -> same m2 m3 -> same m1 m3.
Proof. intros H1 H2 h1 h2 s. rewrite (H1 h1 h1 s). apply H2. Qed.
Lemma same_sym S E A (m1 m2 : eff lsys S E A) : same m1 m2 -> same m2 m1.
Proof. intros H1 h1 h2 s. by rewrite (H1 h2 h1 s). Qed.

Lemma same_lift S E A (r : result E A) : same (lift (S := S) r) (lift r).
Proof. by intros h1 h2 s. Qed.
Lemma same_ret S E A (a : A) : same (mret a : eff lsys S E A) (mret a).
Proof. by intros h1 h2 s. Qed.
Lemma same_with_state S E A (f : S -> S * result E A) : same (with_state f) (with_state f).
Proof. intros h1 h2 s. unfold with_state. by destruct (f s). Qed.

Lemma same_bind_post S E A B (m1 m2 : eff lsys S E A) (k1 k2 : A -> eff lsys S E B) (P : A -> Prop) :
  same m1 m2 -> yields m1 P -> (forall a, P a -> same (k1 a) (k2 a)) -> same (m1 ≫= k1) (m2 ≫= k2).
Proof.
  intros Hm HP Hk h1 h2 s. specialize (Hm h1 h2 s). specialize (HP env h1 s).
  unfold mbind, eff_bind, observed in *. destruct (m1 env h1 s) as [t1 s1 v1], (m2 env h2 s) as [t2 s2 v2].
  cbn [value final trace] in *. injection Hm as -> -> Ht. destruct v2 as [a| |]; cbn [value final trace];
    [|by rewrite Ht..].
  specialize (Hk a (HP a eq_refl) (h1 ++ t1) (h2 ++ t2) s2). unfold observed in Hk. injection Hk as -> -> Hu.
  unfold texts in *. by rewrite !omap_app, Ht, Hu.
Qed.

Lemma same_bind S E A B (m1 m2 : eff lsys S E A) (k1 k2 : A -> eff lsys S E B) :
  same m1 m2 -> (forall a, same (k1 a) (k2 a)) -> same (m1 ≫= k1) (m2 ≫= k2).
Proof. intros Hm Hk. by eapply (same_bind_post _ _ _ _ _ _ _ _ (fun _ => True)). Qed.

(** Sequences can be regrouped; a step that yields its value at once can be left out. *)
Lemma same_assoc S E A B C (m : eff lsys S E A) (k : A -> eff lsys S E B) (l : B -> eff lsys S E C) :
  same m m -> (forall a, same (k a) (k a)) -> (forall b, same (l b) (l b)) ->
  same ((m ≫= k) ≫= l) (m ≫= fun a => k a ≫= l).
Proof.
  intros Hm Hk Hl h1 h2 s.
  assert (((m ≫= k) ≫= l) env h1 s = (m ≫= fun a => k a ≫= l) env h1 s) as ->.
  { unfold mbind, eff_bind. destruct (m env h1 s) as [t1 s1 [a| |]]; cbn; try done.
    destruct (k a env (h1 ++ t1) s1) as [t2 s2 [b| |]]; cbn; rewrite ?app_assoc; done. }
  apply same_bind; [done|]. intros a. by apply same_bind.
Qed.

Lemma same_ret_bind S E A B (a : A) (k : A -> eff lsys S E B) (m : eff lsys S E B) :
  same (k a) m -> same (mret a ≫= k) m.
Proof.
  intros Hk h1 h2 s. specialize (Hk (h1 ++ []) h2 s). unfold mbind, eff_bind. cbn.
  by destruct (k a env (h1 ++ []) s).
Qed.

Lemma same_lift_bind S E A B (a : A) (k : A -> eff lsys S E B) (m : eff lsys S E B) :
  same (k a) m -> same (lift (Ok a) ≫= k) m.
Proof. apply same_ret_bind. Qed.

Lemma same_checkpoint S B (token : bool) (k : unit -> eff lsys S LlamaError B) (m : eff lsys S LlamaError B) :
  same (k tt) m -> same (checkpoint token ≫= k) m.
Proof.
  intros Hk h1 h2 s. unfold checkpoint. destruct token; [|by apply same_ret_bind].
  destruct env_obliging as [Hc _]. unfold mbind, eff_bind, perform. cbn. rewrite Hc. cbn.
  specialize (Hk ((h1 ++ [Event bool Cancelled false]) ++ []) h2 s). rewrite <-app_assoc, app_nil_r in Hk. exact Hk.
Qed.

Lemma same_send_content S request_id content : same (send_content (S := S) request_id content) (send_content request_id content).
Proof.
  intros h1 h2 s. unfold send_content, mbind, eff_bind, perform. cbn.
  destruct env_obliging as [_ Hs]. by rewrite !Hs.
Qed.

Section events.
Context (from_str : string -> option Value) (request_id : string).
Abbreviation process := (process_sse_event from_str request_id).
Abbreviation drain := (drain_events from_str).

Lemma same_process event : same (process event) (process event).
Proof.
  unfold process_sse_event. cbv zeta. apply same_bind; [apply same_lift|intros _].
  destruct (is_empty _); [apply same_ret|]. destruct (String.eqb _ _); [apply same_ret|].
  apply same_bind; [apply same_lift|intros value]. destruct (get value "error"); [apply same_lift|].
  apply same_bind; [apply same_lift|intros choice]. apply same_bind; [apply same_with_state|intros _].
  apply same_bind.
  - destruct (nonempty_content _); [|apply same_ret].
    apply same_bind; [apply same_with_state|intros _]. apply same_send_content.
  - intros _. apply same_bind; [apply same_with_state|intros _]. apply same_ret.
Qed.

(** Fuel above the length of the buffer does not matter. *)
Lemma same_drain f1 f2 sse :
  (String.length sse < f1)%nat -> (String.length sse < f2)%nat -> same (drain f1 request_id sse) (drain f2 request_id sse).
Proof.
  revert f2 sse. induction f1 as [|f1 IH]; intros [|f2] sse H1 H2; try lia. cbn [drain_events].
  destruct (take_sse_event sse) as [[event rest]|] eqn:Et; [|apply same_ret].
  apply take_sse_event_shorter in Et. apply same_bind; [apply same_process|].
  intros []; [apply same_ret|apply IH; lia].
Qed.

(** The buffer that is left has no complete event. *)
Lemma drain_events_rest fuel sse :
  yields (drain fuel request_id sse) (fun '(ended, rest) =>
    ended = false -> take_sse_event rest = None /\ (String.length rest <= String.length sse)%nat).
Proof.
  revert sse. induction fuel as [|fuel IH]; intros sse; cbn [drain_events]; [by intros env' h s a|].
  destruct (take_sse_event sse) as [[event rest]|] eqn:Et; [|by apply yields_ret].
  apply take_sse_event_shorter in Et. apply yields_bind. intros []; [by apply yields_ret; intros|].
  intros env' h s [ended r] Hr He. destruct (IH _ env' h s _ Hr He) as [Hn Hl]. split; [done|lia].
Qed.

(** Draining a longer buffer is draining its beginning first. *)
Definition drain_more (b : string) (p : bool * string) : eff lsys SseState LlamaError (bool * string) :=
  let '(ended, rest) := p in
  if ended : bool then mret (true, rest +:+ b)
  else drain (S (String.length (rest +:+ b))) request_id (rest +:+ b).

Lemma same_drain_more b p : same (drain_more b p) (drain_more b p).
Proof. destruct p as [[] rest]; cbn [drain_more]; [apply same_ret|apply same_drain; lia]. Qed.

Lemma drain_events_app f1 f2 a b :
  (String.length (a +:+ b) < f1)%nat -> (String.length a < f2)%nat ->
  same (drain f1 request_id (a +:+ b)) (drain f2 request_id a ≫= drain_more b).
Proof.
  revert f1 a. induction f2 as [|f2 IH]; intros f1 a H1 H2; [lia|]. cbn [drain_events].
  destruct (take_sse_event a) as [[event rest]|] eqn:Et.
  - destruct f1 as [|f1]; [lia|]. cbn [drain_events]. pose proof (take_sse_event_shorter _ _ _ Et).
    rewrite (take_sse_event_app _ _ _ b Et). rewrite str_length_app in H1.
    eapply same_trans; [|apply same_sym, same_assoc; [apply same_process| |apply same_drain_more]].
    + apply same_bind; [apply same_process|]. intros [].
      * apply same_sym, same_ret_bind. apply same_ret.
      * apply IH; rewrite ?str_length_app; lia.
    + intros []; [apply same_ret|apply same_drain; lia].
  - apply same_sym, same_ret_bind. cbn [drain_more]. apply same_drain; lia.
Qed.
End events.
End observing.

(** ** The whole body at once *)
Section transfer.
Context `{IoTexts} (from_str : string -> option Value) (request_id : string).

Definition finish_stream (p : bool * string) : eff lsys SseState LlamaError LlamaOutput :=
  let '(ended, rest) := p in
  if ended : bool then
    with_state (fun s => (s, finish_output from_str s (default "stop"%string (ss_finish_reason s))))
  else
    (if is_empty rest then mret tt else process_sse_event from_str request_id rest;; mret tt);;
    with_state (fun s => (s,
      match ss_finish_reason s with
      | None => Err (process_failure "local inference stream ended before a terminal event" true)
      | Some reason => finish_output from_str s reason
      end)).

(** The reference: [read_sse] on a body that is in memory. *)
Definition read_whole (body : string) : eff lsys SseState LlamaError LlamaOutput :=
  drain_events from_str (S (String.length body)) request_id body ≫= finish_stream.

Section run.
Context (env : environment lsys) (env_obliging : obliging env).
Abbreviation same := (same env).

Lemma same_finish_stream p : same (finish_stream p) (finish_stream p).
Proof.
  destruct p as [[] rest]; cbn [finish_stream]; [apply same_with_state|].
  apply same_bind; [|intros _; apply same_with_state]. destruct (is_empty rest); [apply same_ret|].
  apply same_bind; [by apply same_process|intros _; apply same_ret].
Qed.

Lemma same_read_whole body : same (read_whole body) (read_whole body).
Proof. apply same_bind; [apply same_drain; (done || lia)|apply same_finish_stream]. Qed.

Lemma read_sse_loop_whole fuel mode reader body rest sse :
  mode_ok mode -> delivers mode reader body rest -> (left reader < fuel)%nat ->
  take_sse_event sse = None -> len (sse +:+ body) <= MAX_SSE_EVENT_BYTES ->
  same (read_sse_loop from_str fuel request_id mode reader sse) (read_whole (sse +:+ body)).
Proof.
  intros Hm Hd. revert fuel sse Hm.
  induction Hd as [mode reader mode' reader' E1|mode reader chunk mode' reader' body rest E1 Hd IH]; intros fuel sse Hm Hf Ht Hl.
  all: destruct fuel as [|fuel]; [lia|]; cbn [read_sse_loop]; apply same_checkpoint; [done|].
  all: unfold io; rewrite E1; apply same_lift_bind.
  - rewrite app_empty_r. unfold read_whole. cbn [drain_events]. rewrite Ht.
    apply same_sym, same_ret_bind. apply (same_finish_stream (false, sse)).
  - destruct (body_next_left _ _ _ _ _ Hm E1) as (Hc & Hm' & Hr). cbv beta iota zeta.
    rewrite <-str_app_assoc in Hl |- *. rewrite len_app in Hl. pose proof (len_nonneg body).
    destruct (Z.ltb_spec MAX_SSE_EVENT_BYTES (len (sse +:+ chunk))); [lia|]. apply same_lift_bind.
    unfold read_whole. eapply same_trans.
    2: { apply same_sym. eapply same_trans.
         - apply same_bind; [|apply same_finish_stream].
           apply drain_events_app; [done|lia|]. apply Nat.lt_succ_diag_r.
         - apply same_assoc; [by apply same_drain; (done || lia)|by apply same_drain_more|apply same_finish_stream]. }
    eapply same_bind_post; [apply same_drain; (done || lia)|apply drain_events_rest|].
    intros [[] sse'] Hp; cbn [drain_more].
    + apply same_sym, same_ret_bind. apply same_with_state.
    + destruct (Hp eq_refl) as [Hn Hle]. apply IH; [done|lia|done|].
      rewrite len_app. unfold len in *. lia.
Qed.
End run.

(** C32 An answer does not depend on its transfer: two responses with the same body, each
    chunked, with a length or up to the end of the connection, and each cut into reads in
    any way, make [read_sse] send the same texts and return the same output or error, when
    the body is at most 1 MiB and the receiver takes every text. *)
Theorem answer_independent_of_transfer env head1 head2 reader1 reader2 rest1 rest2 body h1 h2 :
  obliging env -> healthy reader1 -> healthy reader2 ->
  framed head1 body (pending reader1) rest1 -> framed head2 body (pending reader2) rest2 ->
  len body <= MAX_SSE_EVENT_BYTES ->
  observed (read_sse from_str request_id reader1 head1 env h1 tt)
  = observed (read_sse from_str request_id reader2 head2 env h2 tt).
Proof.
  intros Ho Hh1 Hh2 Hf1 Hf2 Hl.
  assert (forall head reader rest h, healthy reader -> framed head body (pending reader) rest ->
    observed (read_sse_loop from_str (turns reader) request_id (BodyReader_new head) reader EmptyString env h SseState_new)
    = observed (read_whole body env h1 SseState_new)) as Href.
  { intros head reader rest h Hh Hf.
    apply (read_sse_loop_whole env Ho (turns reader) (BodyReader_new head) reader body rest EmptyString);
      [by eapply framed_mode_ok|by apply framed_delivers|unfold turns, left; lia|done|done]. }
  pose proof (Href _ _ _ h1 Hh1 Hf1) as E1. pose proof (Href _ _ _ h2 Hh2 Hf2) as E2. rewrite <-E2 in E1.
  unfold observed, read_sse, zoom in *. cbn [value final trace]. revert E1.
  generalize (read_sse_loop from_str (turns reader1) request_id (BodyReader_new head1) reader1 EmptyString env h1 SseState_new),
    (read_sse_loop from_str (turns reader2) request_id (BodyReader_new head2) reader2 EmptyString env h2 SseState_new).
  by intros o1 o2 [= -> _ ->].
Qed.
End transfer.

(** ** An example: a chunked stream and the same stream with a length *)

Definition demo_event : string := "data: {}" +:+ LFLF +:+ "data: [DONE]" +:+ LFLF.
Definition demo_parse (s : string) : option Value :=
  Some (object [("choices", VArray [object [("delta", object [("content", VString "hello")]);
                                            ("finish_reason", VString "stop")]])]%string).
Definition demo_env : environment lsys := fun h A c =>
  match c in lsys A return A with
  | SymlinkMetadata p => inr {| sm_is_socket := Nat.eqb (List.length h) 1; sm_uid := 990;
                                sm_mode := if Nat.eqb (List.length h) 1 then 384 else 448 |}
  | Connect _ => Some (inr tt)
  | PeerUid => inr 990
  | WriteAll _ => inr tt
  | Response => [Some ("HTTP/1.1 200 OK" +:+ CRLF +:+ "Transfer-Encoding: chunked" +:+ CRLF +:+ CRLF);
                 Some ("18" +:+ CRLF +:+ demo_event +:+ CRLF +:+ "0" +:+ CRLF +:+ CRLF)]
  | Cancelled => false
  | SendEvent _ => true
  end.

Abbreviation demo_chat :=
  (@chat demo_texts demo_parse demo_parse (fun _ => Ok "{}") BrokerConfig_default "r1" [] [] 16 demo_env [] tt).

Example demo_chat_answers :
  value demo_chat = Ok {| lo_finish_reason := "stop"; lo_tool_calls := [] |} /\ texts (trace demo_chat) = ["hello"].
Proof. split; vm_compute; reflexivity. Qed.

Lemma requests_reach_only_the_backend_witness : backend_trusted BrokerConfig_default (take 8 (trace demo_chat)).
Proof.
  apply (@requests_reach_only_the_backend demo_texts demo_parse demo_parse (fun _ => Ok "{}") BrokerConfig_default
    "r1" [] [] 16 demo_env [] (take 8 (trace demo_chat)) (chat_header 2) (inr tt) (drop 9 (trace demo_chat))).
  left. vm_compute. reflexivity.
Defined.

Lemma answers_are_complete_witness :
  complete demo_parse "r1" (trace demo_chat) {| lo_finish_reason := "stop"; lo_tool_calls := [] |}.
Proof.
  apply (@answers_are_complete demo_texts demo_parse demo_parse (fun _ => Ok "{}") BrokerConfig_default
    "r1" [] [] 16 demo_env []). vm_compute. reflexivity.
Defined.

(** A response of 512 bytes and one character of two bytes across the limit. *)
Definition demo_long_message : string :=
  sconcat (repeat "a" 511) +:+ String (chr 195) (String (chr 169) EmptyString).
Definition demo_error (s : string) : option Value :=
  Some (object [("error", object [("message", VString demo_long_message)])]%string).

Lemma chat_panics_only_on_reports_witness : bad_report demo_error demo_error.
Proof.
  apply (@chat_panics_only_on_reports demo_texts demo_error demo_error (fun _ => Ok "{}") BrokerConfig_default
    "r1" [] [] 16 demo_env []); [done|]. vm_compute. reflexivity.
Defined.

Lemma answer_independent_of_transfer_witness :
  observed (@read_sse demo_texts demo_parse "r1" [Some ("18" +:+ CRLF); Some (demo_event +:+ CRLF +:+ "0" +:+ CRLF +:+ CRLF)]
              (demo_head [] true None) demo_env [] tt)
  = observed (@read_sse demo_texts demo_parse "r1" [Some "data: "; Some ("{}" +:+ LFLF +:+ "data: [DONE]" +:+ LFLF)]
              (demo_head [] false (Some 24)) demo_env [] tt).
Proof.
  apply (@answer_independent_of_transfer demo_texts demo_parse "r1" demo_env (demo_head [] true None)
           (demo_head [] false (Some 24)) _ _ EmptyString EmptyString demo_event).
  - by split.
  - repeat constructor; by eexists.
  - repeat constructor; by eexists.
  - apply (framed_chunked _ [demo_event] EmptyString); [done|]. repeat constructor; vm_compute; congruence.
  - by apply (framed_length _ demo_event EmptyString).
  - vm_compute. congruence.
Defined.
