(* ===== verification/BrokerServer.v ===== *)
(** * The local broker's server (crates/sentia-local-broker/src/server.rs)

    Connections of login users send chat, health and cancel requests.  A chat reserves
    a place in the inference queue, waits for the model process to be ready and relays
    its output; the events it sends are the broker's protocol towards the router.  The
    model process, the queue, the clock and cancellation are the environment. *)

From Stdlib Require Import Ascii String.
From S2P Require Import Prelude RustStr Bounded Contract RouterContract Effects LlamaClient RouterApi BrokerProtocol Queue RouterTools Providers.

Definition QueueError_to_string (e : QueueError) : string :=
  match e with
  | GlobalFull => "global local inference queue is full"
  | UserFull => "per-user local inference queue is full"
  | QCancelled => "request cancelled while queued"
  end.

(** What a [select!] with the cancellation token yields. *)
Inductive selected (A : Type) := SelCancelled | SelDone (a : A).
Arguments SelCancelled {A}.
Arguments SelDone {A} a.

(** [llama.chat] under its timeout: the deltas it sent and what it returned ([None]: the
    timeout fired). *)
Record LlamaRun := { lr_deltas : list string; lr_result : option (result LlamaError LlamaOutput) }.

Inductive bcall : Type -> Type :=
| Emit (event : BrokerEvent) : bcall unit
| Reserve (uid : u32) : bcall (result QueueError u32)
| Acquire : bcall (result QueueError unit)
| LlamaHealth : bcall (selected (result LlamaError (ProviderHealth * string)))
| HealthProbe : bcall (option (result LlamaError (ProviderHealth * string)))
| LlamaChat (request_id : string) (messages : list BrokerMessage) (tools : list BrokerTool)
    (max_tokens : u32) : bcall LlamaRun
| Instant : bcall Z
| Sleep (ms : u64) : bcall (selected unit)
| BIsCancelled : bcall bool
| BCancel (request_id : string) : bcall unit.

Abbreviation V := BROKER_PROTOCOL_VERSION.

Definition emit {S E} (event : BrokerEvent) : eff bcall S E unit := perform (Emit event).

Definition send_error {S E} (request_id : string) (code : ContractErrorCode)
    (provider_error : ProviderErrorCode) (message : string) (retryable : bool) : eff bcall S E unit :=
  emit (BeError V request_id (ContractError_new code message retryable) provider_error).

Definition send_llama_error {S E} (request_id : string) (error : LlamaError) : eff bcall S E unit :=
  send_error request_id (match le_kind error with PTimeout => ErrTimeout | _ => ProviderUnavailable end)
    (le_kind error) (le_message error) (le_retryable error).

Definition send_cancelled {S E} (request_id : string) : eff bcall S E unit :=
  emit (BeCancelled V request_id request_id).

(** ** Validation *)

(** One message in the [try_fold]; [None] stops it. *)
Definition add_message (total : option usize) (message : BrokerMessage) : option usize :=
  total ← total;
  if negb (existsb (String.eqb (bm_role message)) ["system"; "user"; "assistant"; "tool"])
     || (16 <? len (bm_role message))
     || (128 <? default 0 (len <$> bm_name message))
     || (128 <? default 0 (len <$> bm_tool_call_id message))
  then None
  else checked_add USIZE_MAX total (len (bm_content message)).

Section server.
(** [Value::to_string] *)
Context (config : BrokerConfig) (value_to_string : Value -> string).

Definition broker_validate_chat (messages : list BrokerMessage) (tools : list BrokerTool)
    (max_tokens : u32) : result string unit :=
  fail_if (match messages with [] => true | _ => false end || (bc_max_messages config <? vlen messages))
    "message count is outside configured bounds";;
  total ← ok_or (fold_left add_message messages (Some 0)) "messages contain invalid fields";
  fail_if (bc_max_prompt_bytes config <? total) "prompt exceeds configured size limit";;
  fail_if ((max_tokens =? 0) || (bc_max_generation_tokens config <? max_tokens))
    "max_tokens is outside configured bounds";;
  fail_if ((64 <? vlen tools)
           || existsb (fun tool => is_empty (bt_name tool) || (128 <? len (bt_name tool))
                                   || (4096 <? len (bt_description tool))
                                   || (65536 <? len (value_to_string (bt_parameters tool)))) tools)
    "tool definitions are outside configured bounds".

Definition valid_envelope {S E} (version request_id : string) : eff bcall S E bool :=
  if negb (String.eqb version V) then
    send_error request_id UnsupportedVersion UnsupportedCapability
      "unsupported broker protocol version" false;;
    mret false
  else if is_empty request_id || (128 <? len request_id) then
    send_error "unknown" InvalidRequest MalformedResponse "request_id must contain 1 to 128 bytes" false;;
    mret false
  else mret true.

(** [validate_peer] on the credentials of the connection. *)
Definition validate_peer (euid uid : u32) : result string u32 :=
  fail_if ((uid <? bc_minimum_peer_uid config) || (bc_maximum_peer_uid config <? uid) || (uid =? euid))
    "local broker rejected non-login or broker peer UID";;
  Ok uid.

(** ** One chat *)

Definition request_cancelled : LlamaError :=
  {| le_kind := PInternal; le_message := "local inference request cancelled"; le_retryable := false |}.

(** The tail of a turn of the loop that goes on: an event, then 250 ms. *)
Definition pause (request_id state detail : string) : eff bcall unit LlamaError unit :=
  emit (BeProgress V request_id state detail);;
  slept ← perform (Sleep 250);
  match slept with
  | SelCancelled => lift (Err request_cancelled)
  | SelDone _ => mret tt
  end.

Fixpoint ready_loop (fuel : nat) (request_id : string) (deadline : Z) : eff bcall unit LlamaError unit :=
  match fuel with
  | O => lift Panic
  | S fuel' =>
      health_result ← perform LlamaHealth;
      match health_result with
      | SelCancelled => lift (Err request_cancelled)
      | SelDone (Err error) =>
          if le_retryable error then
            now ← perform Instant;
            if now <? deadline then
              pause request_id "backend_starting" "Waiting for the shared local inference service";;
              ready_loop fuel' request_id deadline
            else lift (Err error)
          else lift (Err error)
      | SelDone (Ok (Healthy, _)) => mret tt
      | SelDone (Ok (Starting, _)) =>
          now ← perform Instant;
          if now <? deadline then
            pause request_id "model_loading" "Waiting for the shared local model";;
            ready_loop fuel' request_id deadline
          else lift (Err {| le_kind := PTimeout;
                            le_message := "shared local model did not become ready in time";
                            le_retryable := true |})
      | SelDone (Ok (_, detail)) =>
          lift (Err {| le_kind := ProcessFailure; le_message := detail; le_retryable := true |})
      | SelDone Panic => lift Panic
      end
  end.

(** Every turn that goes on takes 250 ms: one turn per started quarter of a second, and
    the last one. *)
Definition ready_turns : nat := Z.to_nat (bc_backend_connect_timeout_ms config / 250) + 2.

Definition wait_until_ready (request_id : string) : eff bcall unit LlamaError unit :=
  now ← perform Instant;
  ready_loop ready_turns request_id (now + bc_backend_connect_timeout_ms config).

Fixpoint emit_deltas (request_id : string) (deltas : list string) : eff bcall unit Empty_set unit :=
  match deltas with
  | [] => mret tt
  | content :: rest => emit (BeDelta V request_id content);; emit_deltas request_id rest
  end.

Definition run_chat (request_id : string) (messages : list BrokerMessage) (tools : list BrokerTool)
    (max_tokens : u32) : eff bcall unit Empty_set unit :=
  acquired ← perform Acquire;
  match acquired with
  | Err QCancelled => emit (BeCancelled V request_id request_id)
  | Err error =>
      send_error request_id ProviderUnavailable Quota (QueueError_to_string error) true
  | Panic => lift Panic
  | Ok _ =>
      emit (BeProgress V request_id "starting" "Local AI starting");;
      ready ← attempt (wait_until_ready request_id);
      match ready with
      | Err error =>
          cancelled ← perform BIsCancelled;
          if cancelled : bool then send_cancelled request_id else send_llama_error request_id error
      | Panic => lift Panic
      | Ok _ =>
          emit (BeProgress V request_id "ready" "Local AI ready");;
          run ← perform (LlamaChat request_id messages tools max_tokens);
          emit_deltas request_id (lr_deltas run);;
          match lr_result run with
          | Some (Ok output) =>
              match lo_tool_calls output with
              | [] => emit (BeComplete V request_id (lo_finish_reason output))
              | calls => emit (BeToolCalls V request_id calls)
              end
          | Some (Err error) =>
              cancelled ← perform BIsCancelled;
              if cancelled : bool then send_cancelled request_id else send_llama_error request_id error
          | Some Panic => lift Panic
          | None =>
              perform (BCancel request_id);;
              send_error request_id ErrTimeout PTimeout
                "local inference request exceeded its time limit" true
          end
      end
  end.
End server.

(** ** The socket *)

(** What [symlink_metadata] reports of a path, and the calls of [bind_public_socket]. *)
Record PathMetadata := { pm_is_symlink : bool; pm_is_dir : bool; pm_is_socket : bool; pm_uid : u32 }.

Inductive bind_io : Type -> Type :=
| Exists_ (path : string) : bind_io bool
| Lstat (path : string) : bind_io (result string PathMetadata)
| CreateDirAll (path : string) : bind_io (result string unit)
| SetMode (path : string) (mode : u32) : bind_io (result string unit)
| RemoveFile (path : string) : bind_io (result string unit)
| Bind (path : string) : bind_io (result string unit).

Definition bind_public_socket (euid : u32) (parent_of : string -> option string) (path : string)
  : eff bind_io unit string unit :=
  parent ← lift (ok_or (parent_of path) "broker socket has no parent"%string);
  exists_parent ← perform (Exists_ parent);
  (if exists_parent : bool then
     metadata ← perform (Lstat parent);
     metadata ← lift metadata;
     lift (fail_if (pm_is_symlink metadata || negb (pm_is_dir metadata) || negb (pm_uid metadata =? euid))
             "broker runtime directory is not an owned directory"%string)
   else
     created ← perform (CreateDirAll parent);
     lift created);;
  r ← perform (SetMode parent 493);
  lift r;;
  exists_socket ← perform (Exists_ path);
  (if exists_socket : bool then
     metadata ← perform (Lstat path);
     metadata ← lift metadata;
     lift (fail_if (negb (pm_is_socket metadata) || negb (pm_uid metadata =? euid))
             "refusing to replace non-owned broker socket path"%string);;
     removed ← perform (RemoveFile path);
     lift removed
   else mret tt);;
  r ← perform (Bind path);
  lift r;;
  r ← perform (SetMode path 438);
  lift r.

(** ** Time

    What the history says about the clock: the last reading, and the sleeps since. *)
Definition clock_step (now : Z) (e : event bcall) : Z :=
  match ev_call e in bcall A return A -> Z with
  | Instant => fun r => r
  | Sleep ms => fun r => match r with SelDone _ => now + ms | SelCancelled => now end
  | _ => fun _ => now
  end (ev_reply e).
Definition at_least (h : list (event bcall)) : Z := fold_left clock_step h 0.

(** A monotone clock that counts the sleeps. *)
Definition ticks (env : environment bcall) : Prop := forall h, at_least h <= env h Z Instant.

Definition calm_broker_reply {A} (c : bcall A) : A -> Prop :=
  match c with
  | Acquire => fun r => r <> Panic
  | LlamaHealth => fun r => r <> SelDone Panic
  | LlamaChat _ _ _ _ => fun run => lr_result run <> Some Panic
  | _ => fun _ => True
  end.
Definition calm_broker (env : environment bcall) : Prop :=
  forall h A (c : bcall A), calm_broker_reply c (env h A c).

Lemma at_least_snoc h e : at_least (h ++ [e]) = clock_step (at_least h) e.
Proof. unfold at_least. by rewrite fold_left_app. Qed.

Lemma perform_bind_value {S E A B} (c : bcall A) (k : A -> eff bcall S E B) env h s :
  value ((perform c ≫= k) env h s)
    = value (k (env h A c) env (h ++ [Event A c (env h A c)]) s).
Proof. done. Qed.

Section waiting.
Context (env : environment bcall) (env_ticks : ticks env) (env_calm : calm_broker env).
Context (config : BrokerConfig).

(** The end of a turn: cancelled, or 250 ms later. *)
Lemma pause_run request_id state detail h :
  let o := pause request_id state detail env h tt in
  value o = Err request_cancelled \/
  value o = Ok tt /\ at_least (h ++ trace o) = at_least h + 250.
Proof.
  unfold pause, emit, mbind, eff_bind, perform, lift, mret, eff_ret. cbn -[at_least].
  match goal with |- context [env ?x _ (Sleep 250)] => destruct (env x _ (Sleep 250)) as [|[]] end.
  - by left.
  - right. split; [done|]. cbn -[at_least].
    match goal with |- context [h ++ [?a; ?b]] => change (h ++ [a; b]) with (h ++ ([a] ++ [b])) end.
    by rewrite app_assoc, !at_least_snoc.
Qed.

Lemma pause_then request_id state detail (k : eff bcall unit LlamaError unit) h :
  (forall h', at_least h + 250 <= at_least h' -> value (k env h' tt) <> Panic) ->
  value ((pause request_id state detail;; k) env h tt) <> Panic.
Proof.
  intros Hk. unfold mbind, eff_bind.
  destruct (pause_run request_id state detail h) as [->|[-> Hat]]; [done|]. cbn [value].
  destruct (final _). apply Hk. lia.
Qed.

Lemma ready_loop_total fuel request_id deadline h :
  (0 < fuel)%nat -> deadline <= at_least h + 250 * Z.of_nat (fuel - 1) ->
  value (ready_loop fuel request_id deadline env h tt) <> Panic.
Proof.
  revert h. induction fuel as [|fuel IH]; intros h Hpos Hfuel; [lia|]. cbn [ready_loop].
  rewrite perform_bind_value. pose proof (env_calm h _ LlamaHealth) as Hc. cbn in Hc.
  set (r := env h _ LlamaHealth) in *. set (h1 := h ++ [_]).
  assert (at_least h1 = at_least h) as Hh1 by (unfold h1; by rewrite at_least_snoc). clearbody r h1.
  assert (forall state detail error, value ((now ← perform Instant;
      if now <? deadline then pause request_id state detail;; ready_loop fuel request_id deadline
      else lift (Err error)) env h1 tt) <> Panic) as Hturn.
  { intros state detail error. rewrite perform_bind_value.
    pose proof (env_ticks h1) as Ht. set (now := env h1 Z Instant) in *. clearbody now.
    destruct (Z.ltb_spec now deadline) as [Hlt|]; [|done]. apply pause_then. intros h' Hh'.
    rewrite at_least_snoc in Hh'. cbn in Hh'. destruct fuel as [|fuel]; [lia|]. apply IH; lia. }
  destruct r as [|[[health detail]|error|]]; [done| | |done].
  - by destruct health.
  - destruct (le_retryable error); [apply Hturn|done].
Qed.

Lemma wait_until_ready_total request_id h :
  0 <= bc_backend_connect_timeout_ms config ->
  value (wait_until_ready config request_id env h tt) <> Panic.
Proof.
  intros Hpos. unfold wait_until_ready. rewrite perform_bind_value. unfold ready_turns.
  apply ready_loop_total; [lia|]. rewrite at_least_snoc. cbn -[Z.mul Z.div].
  pose proof (Z.div_mod (bc_backend_connect_timeout_ms config) 250 ltac:(lia)).
  pose proof (Z.mod_pos_bound (bc_backend_connect_timeout_ms config) 250 ltac:(lia)).
  pose proof (Z.div_pos (bc_backend_connect_timeout_ms config) 250 Hpos ltac:(lia)). lia.
Qed.
End waiting.

(** ** The events of a chat *)

Definition is_terminal (event : BrokerEvent) : bool :=
  match event with
  | BeToolCalls _ _ _ | BeComplete _ _ _ | BeCancelled _ _ _ | BeError _ _ _ _ => true
  | _ => false
  end.

Definition event_request (event : BrokerEvent) : string :=
  match event with
  | BeQueued _ r _ | BeProgress _ r _ _ | BeDelta _ r _ | BeToolCalls _ r _ | BeComplete _ r _
  | BeHealth _ r _ _ | BeCancelled _ r _ | BeError _ r _ _ => r
  end.

Definition emitted_by (e : event bcall) : list BrokerEvent :=
  match ev_call e with Emit event => [event] | _ => [] end.
Definition emitted (t : list (event bcall)) : list BrokerEvent := t ≫= emitted_by.

Section events.
Context (env : environment bcall) (env_ticks : ticks env) (env_calm : calm_broker env).
Context (config : BrokerConfig) (timeout_nonneg : 0 <= bc_backend_connect_timeout_ms config).
Context (request_id : string).

(** Neither the end of the request nor another request's event. *)
Definition under_way (e : event bcall) : Prop :=
  Forall (fun event => is_terminal event = false /\ event_request event = request_id) (emitted_by e).

Lemma under_way_emitted t :
  Forall under_way t ->
  Forall (fun event => is_terminal event = false /\ event_request event = request_id) (emitted t).
Proof. induction 1; cbn; [constructor|]. by apply Forall_app. Qed.

Definition finishes (o : outcome bcall unit Empty_set unit) : Prop :=
  value o = Ok tt /\ exists k e, emitted (trace o) = k ++ [e] /\ is_terminal e = true /\
    Forall (fun event => is_terminal event = false) k /\
    Forall (fun event => event_request event = request_id) (k ++ [e]).

Definition ends (m : eff bcall unit Empty_set unit) : Prop := forall h, finishes (m env h tt).

Lemma ends_emit event : is_terminal event = true -> event_request event = request_id -> ends (emit event).
Proof.
  intros Ht Hr h. unfold finishes, emit, perform. cbn [value trace].
  split; [by destruct (env h unit (Emit event))|].
  exists [], event. repeat split; try done. by constructor.
Qed.

Lemma ends_bind {A} (m : eff bcall unit Empty_set A) (k : A -> eff bcall unit Empty_set unit) (R : A -> Prop) :
  emits under_way m -> (forall h, exists a, value (m env h tt) = Ok a /\ R a) ->
  (forall a, R a -> ends (k a)) -> ends (m ≫= k).
Proof.
  intros Hm Hv Hk h. destruct (Hv h) as (a & Ha & HR). specialize (Hm env h tt).
  unfold mbind, eff_bind. rewrite Ha. destruct (final (m env h tt)).
  destruct (Hk a HR (h ++ trace (m env h tt))) as [Hval (l & e & Hl & He & Hq & Hr)].
  split; [done|]. apply under_way_emitted in Hm. cbn [trace].
  exists (emitted (trace (m env h tt)) ++ l), e. unfold emitted in *. rewrite bind_app, Hl, app_assoc.
  split; [done|]. split; [done|]. rewrite <-app_assoc. rewrite !Forall_app in *.
  destruct Hr as [Hr1 Hr2]. repeat split; try done; (eapply Forall_impl; [exact Hm|naive_solver]).
Qed.

Lemma ends_perform {A} (c : bcall A) (k : A -> eff bcall unit Empty_set unit) :
  (forall r, emitted_by (Event A c r) = []) -> (forall a, calm_broker_reply c a -> ends (k a)) ->
  ends (perform c ≫= k).
Proof.
  intros Hc Hk. apply (ends_bind _ _ (calm_broker_reply c)); [| |done].
  - apply emits_perform. intros r. unfold under_way. by rewrite Hc.
  - intros h. eexists. split; [done|apply env_calm].
Qed.

Lemma ends_progress event (k : eff bcall unit Empty_set unit) :
  is_terminal event = false -> event_request event = request_id -> ends k -> ends (emit event;; k).
Proof.
  intros Ht Hr Hk. apply (ends_bind _ _ (fun _ => True)); [| |done].
  - apply emits_perform. intros r. by constructor.
  - intros h. by eexists.
Qed.

(** Waiting emits progress of this request and nothing else. *)
Section waiting_emits.
Context (P : event bcall -> Prop) (silent : forall A (c : bcall A) r, emitted_by (Event A c r) = [] -> P (Event A c r)).
Context (progress : forall state detail r, P (Event unit (Emit (BeProgress V request_id state detail)) r)).

Lemma ready_loop_emits fuel deadline : emits P (ready_loop fuel request_id deadline).
Proof using silent progress.
  induction fuel as [|fuel IH]; cbn [ready_loop]; [apply emits_lift|].
  apply emits_bind; [apply emits_perform; intros; by apply silent|].
  assert (forall state detail error, emits P (now ← perform Instant;
      if now <? deadline then pause request_id state detail;; ready_loop fuel request_id deadline
      else lift (Err error))) as Hturn.
  { intros state detail error. apply emits_bind; [apply emits_perform; intros; by apply silent|]. intros now.
    destruct (now <? deadline); [|apply emits_lift]. apply emits_bind; [|done].
    unfold pause, emit. emits_tac; [apply progress|by apply silent]. }
  intros [|[[[] detail]|error|]]; try apply emits_lift; [apply Hturn|].
  destruct (le_retryable error); [apply Hturn|apply emits_lift].
Qed.

Lemma wait_until_ready_emits : emits P (wait_until_ready config request_id).
Proof using silent progress.
  unfold wait_until_ready. apply emits_bind; [apply emits_perform; intros; by apply silent|].
  intros. apply ready_loop_emits.
Qed.
End waiting_emits.

Lemma cancelled_or_error error :
  ends (cancelled ← perform BIsCancelled;
        if cancelled : bool then send_cancelled request_id else send_llama_error request_id error).
Proof. apply ends_perform; [done|]. intros [] _; by apply ends_emit. Qed.

Lemma run_chat_ends messages tools max_tokens : ends (run_chat config request_id messages tools max_tokens).
Proof.
  unfold run_chat. apply ends_perform; [done|]. intros [|error|] Hacq; [| |done].
  2: destruct error; by apply ends_emit.
  apply ends_progress; [done..|].
  apply (ends_bind _ _ (fun r => r <> Panic)).
  { apply emits_attempt, wait_until_ready_emits; [|by repeat constructor].
    intros A c r Hc. unfold under_way. by rewrite Hc. }
  { intros h. unfold attempt.
    pose proof (wait_until_ready_total env env_ticks env_calm config request_id h timeout_nonneg).
    destruct (value _); [by eexists..|done]. }
  intros [|error|] Hr; [|apply cancelled_or_error|done].
  apply ends_progress; [done..|]. apply ends_perform; [done|]. intros run Hrun. cbn in Hrun.
  apply (ends_bind _ _ (fun _ => True)).
  { induction (lr_deltas run); cbn [emit_deltas]; [apply emits_ret|].
    apply emits_bind; [apply emits_perform; intros; by constructor|done]. }
  { intros h. exists tt. split; [|done]. revert h. induction (lr_deltas run); [done|].
    intros h. cbn [emit_deltas]. unfold emit. rewrite perform_bind_value. auto. }
  intros _ _. destruct (lr_result run) as [[output|error|]|]; [|apply cancelled_or_error|done|].
  - by destruct (lo_tool_calls output); apply ends_emit.
  - apply ends_perform; [done|]. intros _ _. by apply ends_emit.
Qed.
End events.

(** Every local chat ends, with exactly one final event.  With a clock that advances
    during sleeps, [run_chat] returns: waiting for the model stops after at most one turn
    per 250 ms of the connect timeout and two more.  Its last event is a completion, tool
    calls, a cancellation or an error, the only one of these, and every event carries the
    identifier of the request. *)
Theorem local_chat_ends_once config env request_id messages tools max_tokens h :
  ticks env -> calm_broker env -> 0 <= bc_backend_connect_timeout_ms config ->
  let o := run_chat config request_id messages tools max_tokens env h tt in
  value o = Ok tt /\ exists k e, emitted (trace o) = k ++ [e] /\ is_terminal e = true /\
    Forall (fun event => is_terminal event = false) k /\
    Forall (fun event => event_request event = request_id) (k ++ [e]).
Proof. intros Ht Hc Hp. by apply run_chat_ends. Qed.

(** A model that loads for one second. *)
Definition demo_model : environment bcall := fun h _ c =>
  match c with
  | Reserve _ => Ok 1
  | Acquire => Ok tt
  | LlamaHealth => SelDone (Ok (if at_least h <? 1000 then Starting else Healthy, EmptyString))
  | HealthProbe => None
  | LlamaChat _ _ _ _ =>
      {| lr_deltas := ["hello"];
         lr_result := Some (Ok {| lo_finish_reason := "stop"; lo_tool_calls := [] |}) |}
  | Instant => at_least h
  | Sleep _ => SelDone tt
  | BIsCancelled => false
  | _ => tt
  end.

Lemma local_chat_ends_once_witness :
  value (run_chat BrokerConfig_default "request-1" [] [] 64 demo_model [] tt) = Ok tt.
Proof.
  apply (local_chat_ends_once BrokerConfig_default demo_model "request-1" [] [] 64 []).
  - intros h. apply Z.le_refl.
  - intros h A c. by destruct c.
  - cbn. lia.
Defined.

(** ** The socket's modes agree *)

(** The mode the last successful [set_permissions] gave a path. *)
Definition mode_step (path : string) (mode : option Z) (e : event bind_io) : option Z :=
  match ev_call e in bind_io A return A -> option Z with
  | SetMode p m => fun r => if String.eqb p path && is_ok r then Some m else mode
  | _ => fun _ => mode
  end (ev_reply e).
Definition mode_of (path : string) (t : list (event bind_io)) : option Z :=
  fold_left (mode_step path) t None.

(** An octal mode of the contract, such as 0755. *)
Fixpoint octal_digits (acc : Z) (s : string) : Z :=
  match s with
  | EmptyString => acc
  | String c s' => octal_digits (8 * acc + (byte c - 48)) s'
  end.
Definition octal (s : string) : Z := octal_digits 0 s.

Lemma fold_mode_app path m t u :
  fold_left (mode_step path) (t ++ u) m = fold_left (mode_step path) u (fold_left (mode_step path) t m).
Proof. apply fold_left_app. Qed.

(** The file type bits above the nine mode bits do not matter to the check. *)
Lemma safe_modes uid self_uid kind kind' :
  uid <> 0 -> uid <> self_uid ->
  broker_socket_is_safe true uid (512 * kind + 438) uid (512 * kind' + 493) self_uid = true.
Proof.
  intros H0 Hs. unfold broker_socket_is_safe. rewrite !andb_true_iff, !negb_true_iff.
  rewrite !Z.eqb_eq, !Z.eqb_neq. repeat split; try done.
  - change 511 with (Z.ones 9). rewrite Z.land_ones by lia. rewrite Z.add_comm, Z.mul_comm, Z_mod_plus_full.
    done.
  - replace 18 with (Z.land (Z.ones 9) 18) by done. rewrite Z.land_assoc, Z.land_ones by lia.
    rewrite Z.add_comm, Z.mul_comm, Z_mod_plus_full. done.
Qed.

Lemma bind_modes euid parent_of path :
  parent_of path <> Some path ->
  ensures (bind_public_socket euid parent_of path) (fun _ _ t => exists parent,
    parent_of path = Some parent /\ mode_of parent t = Some 493 /\ mode_of path t = Some 438).
Proof.
  intros Hne. unfold bind_public_socket.
  eapply ensures_step; [apply ensures_lift|intros parent].
  eapply ensures_step; [apply (ensures_emits _ (fun _ => True)); by emits_tac|intros exists_parent].
  eapply ensures_step; [apply (ensures_emits _ (fun _ => True)); by emits_tac|intros []].
  eapply ensures_step; [apply ensures_perform|intros r1].
  eapply ensures_step; [apply ensures_lift|intros []].
  eapply ensures_step; [apply ensures_perform|intros exists_socket].
  eapply (ensures_step _ _ _ _ (fun _ _ t => Forall (fun e => match ev_call e with SetMode _ _ => False | _ => True end) t)).
  { intros env h s a _. revert env h s.
    enough (emits (fun e => match ev_call e with SetMode _ _ => False | _ => True end)
      (if exists_socket : bool then
         metadata ← perform (Lstat path);
         metadata ← lift metadata;
         lift (fail_if (negb (pm_is_socket metadata) || negb (pm_uid metadata =? euid))
                 "refusing to replace non-owned broker socket path"%string);;
         removed ← perform (RemoveFile path);
         lift removed
       else (mret tt : eff bind_io unit string unit))) as H by apply H.
    by emits_tac. }
  intros [].
  eapply ensures_step; [apply ensures_perform|intros r2].
  eapply ensures_step; [apply ensures_lift|intros []].
  eapply ensures_step; [apply ensures_perform|intros r3].
  eapply ensures_mono; [|apply ensures_lift].
  intros _ [] ? [H3 ->] ? -> ? [H2 ->] ? -> quiet_t Hquiet ? -> ? [H1 ->] ? -> t1 _ t0 _ ? [Hp ->].
  apply ok_or_Ok in Hp. subst. exists parent. split; [done|].
  assert (parent <> path) as Hpp by congruence.
  assert (forall p m, fold_left (mode_step p) quiet_t m = m) as Hq.
  { intros p. induction Hquiet as [|e t He Hall IH]; intros m; cbn; [done|].
    rewrite IH. unfold mode_step. destruct e as [A c r]. cbn in *. by destruct c. }
  unfold mode_of. rewrite !fold_mode_app. cbn [fold_left]. rewrite !Hq. cbn.
  rewrite !String.eqb_refl. cbn. destruct (String.eqb_spec path parent); [by subst|].
  by destruct (String.eqb_spec parent path).
Qed.

(** The three places that state the broker socket's modes agree: when
    [bind_public_socket] succeeds, the modes it gave the socket and its directory are
    those of the router contract's default for the local broker, and
    [broker_socket_is_safe] of every router run by another user accepts them, whatever
    the file type bits; so a broker that starts as documented can be used. *)
Theorem broker_socket_agreement euid parent_of path env h self_uid :
  parent_of path <> Some path -> euid <> 0 -> euid <> self_uid ->
  value (bind_public_socket euid parent_of path env h tt) = Ok tt ->
  let t := trace (bind_public_socket euid parent_of path env h tt) in
  exists parent socket_mode parent_mode defaults,
    parent_of path = Some parent /\ mode_of path t = Some socket_mode /\
    mode_of parent t = Some parent_mode /\
    (forall kind kind', broker_socket_is_safe true euid (512 * kind + socket_mode) euid
                          (512 * kind' + parent_mode) self_uid = true) /\
    IntegrationSocketDefaults_default = Ok defaults /\
    octal (as_str (se_socket_mode_octal (is_local_broker defaults))) = socket_mode /\
    octal (as_str (se_directory_mode_octal (is_local_broker defaults))) = parent_mode.
Proof.
  intros Hne H0 Hs Hv. cbn zeta.
  destruct (bind_modes euid parent_of path Hne env h tt tt Hv) as (parent & Hp & Hm & Hm').
  exists parent, 438, 493. eexists. split; [done|]. split; [done|]. split; [done|].
  split; [intros; by apply safe_modes|]. split; [vm_compute; reflexivity|]. by vm_compute.
Qed.

Definition demo_filesystem : environment bind_io := fun _ _ c =>
  match c with
  | Exists_ _ => false
  | Lstat _ => Err "no such file"%string
  | CreateDirAll _ | SetMode _ _ | RemoveFile _ | Bind _ => Ok tt
  end.

Lemma broker_socket_agreement_witness :
  mode_of LOCAL_BROKER_SOCKET_PATH_V1
    (trace (bind_public_socket 992 (fun _ => Some "/run/sentia-local"%string)
              LOCAL_BROKER_SOCKET_PATH_V1 demo_filesystem [] tt)) = Some 438.
Proof.
  destruct (broker_socket_agreement 992 (fun _ => Some "/run/sentia-local"%string)
    LOCAL_BROKER_SOCKET_PATH_V1 demo_filesystem [] 1000)
    as (parent & socket_mode & parent_mode & defaults & _ & Hm & _ & _ & Hd & Hs & _);
    [done|lia|lia|vm_compute; reflexivity|].
  rewrite Hm. rewrite <-Hs. f_equal. revert Hd. vm_compute. by intros [= <-].
Defined.
