(* ===== verification/BrokerConnection.v ===== *)
(** * A router's connection to the local broker (crates/sentia-local-broker/src/server.rs)

    [handle_connection] serves one login user: it checks the peer, reads requests, answers
    health and cancel requests at once, reserves a place in the queue for a chat and
    starts a task for it.  The requests in flight are those of [Connection]; the queue,
    the model and the events sent are calls to the outside.  [run] binds the socket,
    accepts connections and removes the socket at the end. *)

From Stdlib Require Import Ascii String.
From S2P Require Import Prelude RustStr Bounded Contract RouterContract Effects LlamaClient RouterApi BrokerProtocol Framing Queue Connection ConnectionLoop RouterTools Providers BrokerServer.

(** [Broker::new]: the limits of the queue. *)
Definition Broker_new (config : BrokerConfig) : Limits :=
  {| max_active := bc_max_active config; global_limit := bc_max_global_queue config;
     per_uid_limit := bc_max_queue_per_uid config |}.

(** What a chat task is started with. *)
Record BrokerChat := {
  bk_uid : u32;
  bk_messages : list BrokerMessage;
  bk_tools : list BrokerTool;
  bk_max_tokens : u32;
}.

Inductive broker_ext : Type -> Type :=
| BPeerUid : broker_ext (result string u32)
| BShutdownWins : broker_ext bool
| Bc A (c : bcall A) : broker_ext A
| BAwaitWriter : broker_ext (result string unit).
Arguments Bc {A} c.

Abbreviation beff S E A := (eff (server_io BrokerChat broker_ext) S E A).

Definition bout {S E A} (m : eff bcall S E A) : beff S E A := embed (call := bcall) (fun A c => Ext (Bc c)) m.

Section broker_connection.
(** [serde_json::from_slice] at [BrokerRequest], the text of a failed read, and
    [Value::to_string]. *)
Context (config : BrokerConfig) (value_to_string : Value -> string)
  (from_slice : string -> result string BrokerRequest) (io_error : string).

Definition health_answer (health : option (result LlamaError (ProviderHealth * string)))
  : result Empty_set (ProviderHealth * string) :=
  match health with
  | Some (Ok value) => Ok value
  | Some (Err error) => Ok (Unavailable, le_message error)
  | Some Panic => Panic
  | None => Ok (Unavailable, "local inference health check timed out"%string)
  end.

Definition handle_chat (uid : u32) (request_id : string) (messages : list BrokerMessage) (tools : list BrokerTool)
    (max_tokens : u32) : beff Reader Empty_set flow :=
  match broker_validate_chat config value_to_string messages tools max_tokens with
  | Err message =>
      bout (send_error request_id InvalidRequest UnsupportedCapability message false);;
      mret Continue
  | Panic => lift Panic
  | Ok _ =>
      active ← perform (Reg (IsActive request_id));
      if active : bool then
        bout (send_error request_id InvalidRequest MalformedResponse
                "request_id is already active on this connection" false);;
        mret Continue
      else
        reserved ← perform (Ext (Bc (Reserve uid)));
        match reserved with
        | Err error =>
            bout (send_error request_id ProviderUnavailable Quota (QueueError_to_string error) true);;
            mret Continue
        | Panic => lift Panic
        | Ok position =>
            bout (emit (BeQueued V request_id position));;
            start_request request_id
              {| bk_uid := uid; bk_messages := messages; bk_tools := tools; bk_max_tokens := max_tokens |}
        end
  end.

Definition handle_request (uid : u32) (request : BrokerRequest) : beff Reader Empty_set flow :=
  match request with
  | BrHealth version request_id =>
      valid ← bout (valid_envelope version request_id);
      if negb valid then mret Continue
      else
        health ← perform (Ext (Bc HealthProbe));
        '(state, detail) ← lift (health_answer health);
        bout (emit (BeHealth V request_id state detail));;
        mret Through
  | BrCancel version request_id target_request_id =>
      valid ← bout (valid_envelope version request_id);
      if negb valid then mret Continue
      else
        perform (Reg (CancelActive target_request_id));;
        bout (emit (BeCancelled V request_id target_request_id));;
        mret Through
  | BrChat version request_id messages tools max_tokens =>
      valid ← bout (valid_envelope version request_id);
      if negb valid then mret Continue
      else handle_chat uid request_id messages tools max_tokens
  end.

Definition handle_frame (uid : u32) (bytes : string) : beff Reader Empty_set flow :=
  match from_slice bytes with
  | Err error =>
      bout (send_error "unknown" InvalidRequest MalformedResponse ("malformed broker request: " +:+ error) false);;
      mret Continue
  | Panic => lift Panic
  | Ok request => handle_request uid request
  end.

Definition line_error_text (e : LineError) : string :=
  match e with
  | LineIo => io_error
  | LineEof _ => "unterminated JSONL broker frame"
  | LineTooLong => "broker frame exceeds configured size limit"
  end.

Definition read_failed (error : LineError) : beff Reader Empty_set unit :=
  bout (send_error "unknown" InvalidRequest MalformedResponse (line_error_text error) false).

Definition handle_connection (euid : u32) : beff Reader string unit :=
  credentials ← perform (Ext BPeerUid);
  uid ← lift (uid ← credentials; validate_peer config euid uid);
  eff_map_err (fun never : Empty_set => match never with end)
    (serve_connection (broker_read_frame (bc_max_request_bytes config)) BShutdownWins (handle_frame uid) read_failed);;
  written ← perform (Ext BAwaitWriter);
  lift written.

(** ** The accept loop *)

(** Connections are accepted until shutdown; an error of [accept] ends [run] at once. *)
Fixpoint accept_loop (accepted : list (result string unit)) : result string unit :=
  match accepted with
  | [] => Ok tt
  | r :: rest => r;; accept_loop rest
  end.

(** The end of [run]: the socket is removed when it is still the broker's. *)
Definition remove_own_socket (euid : u32) (path : string) : eff bind_io unit string unit :=
  present ← perform (Exists_ path);
  if present : bool then
    metadata ← perform (Lstat path);
    metadata ← lift metadata;
    if pm_is_socket metadata && (pm_uid metadata =? euid) then perform (RemoveFile path);; mret tt else mret tt
  else mret tt.

Definition run (euid : u32) (parent_of : string -> option string) (path : string) (accepted : list (result string unit))
  : eff bind_io unit string unit :=
  bind_public_socket euid parent_of path;;
  lift (accept_loop accepted);;
  remove_own_socket euid path.
End broker_connection.

(** ** What a client can expect *)

(** What the reader did: on the connection's table, on the queue, on the model process, and
    the events it sent. *)
Inductive outside_step :=
| SentEvent (event : BrokerEvent)
| Reserved (uid : u32) (r : result QueueError usize)
| Probed (r : option (result LlamaError (ProviderHealth * string))).
Abbreviation banswer := (item BrokerChat outside_step).
Abbreviation BSent event := (Did (SentEvent event)).

Definition bcall_items {A} (c : bcall A) : A -> list banswer :=
  match c in bcall A return A -> list banswer with
  | Emit event => fun _ => [BSent event]
  | Reserve uid => fun r => [Did (Reserved uid r)]
  | HealthProbe => fun r => [Did (Probed r)]
  | _ => fun _ => []
  end.

Definition bext_items {A} (c : broker_ext A) : A -> list banswer :=
  match c in broker_ext A return A -> list banswer with
  | BShutdownWins => fun won => [Raced won]
  | Bc c => bcall_items c
  | _ => fun _ => []
  end.

Definition banswer_of (e : event (server_io BrokerChat broker_ext)) : list banswer :=
  match ev_call e in server_io _ _ A return A -> list banswer with
  | Ext c => bext_items c
  | Reg c => reg_items c
  end (ev_reply e).

Definition broker_error (request_id : string) (code : ContractErrorCode) (provider_error : ProviderErrorCode)
    (message : string) (retryable : bool) : BrokerEvent :=
  BeError V request_id (ContractError_new code message retryable) provider_error.

(** What is wrong with the envelope of a request. *)
Definition envelope_error (version request_id : string) : option BrokerEvent :=
  if negb (String.eqb version V) then
    Some (broker_error request_id UnsupportedVersion UnsupportedCapability "unsupported broker protocol version" false)
  else if is_empty request_id || (128 <? len request_id) then
    Some (broker_error "unknown" InvalidRequest MalformedResponse "request_id must contain 1 to 128 bytes" false)
  else None.

Section broker_specification.
Context (config : BrokerConfig) (value_to_string : Value -> string)
  (from_slice : string -> result string BrokerRequest) (io_error : string).

(** The answer to a valid request of user [uid]. *)
Definition request_answered (uid : u32) (request : BrokerRequest) (l : list banswer) : Prop :=
  match request with
  | BrHealth _ request_id => exists health state detail,
      l = [Did (Probed health); BSent (BeHealth V request_id state detail)] /\
      match health with
      | Some (Ok seen) => (state, detail) = seen
      | Some (Err error) => state = Unavailable /\ detail = le_message error
      | Some Panic => False
      | None => state = Unavailable /\ detail = "local inference health check timed out"%string
      end
  | BrCancel _ request_id target => exists active, l = [CancelledFor target active; BSent (BeCancelled V request_id target)]
  | BrChat _ request_id messages tools max_tokens =>
      match broker_validate_chat config value_to_string messages tools max_tokens with
      | Err message => l = [BSent (broker_error request_id InvalidRequest UnsupportedCapability message false)]
      | _ =>
          l = [Looked request_id true; BSent (broker_error request_id InvalidRequest MalformedResponse
                        "request_id is already active on this connection" false)] \/
          (exists error, l = [Looked request_id false; Did (Reserved uid (Err error));
             BSent (broker_error request_id ProviderUnavailable Quota (QueueError_to_string error) true)]) \/
          (exists position t, l = [Looked request_id false; Did (Reserved uid (Ok position));
             BSent (BeQueued V request_id position); Entered request_id t;
             Started request_id t {| bk_uid := uid; bk_messages := messages; bk_tools := tools;
                                      bk_max_tokens := max_tokens |}])
      end
  end.

Definition envelope_of (request : BrokerRequest) : option BrokerEvent :=
  match request with
  | BrHealth version request_id | BrCancel version request_id _ | BrChat version request_id _ _ _ =>
      envelope_error version request_id
  end.

Definition broker_answered (uid : u32) (bytes : string) (l : list banswer) : Prop :=
  match from_slice bytes with
  | Ok request =>
      match envelope_of request with
      | Some event => l = [BSent event]
      | None => request_answered uid request l
      end
  | Err error => l = [BSent (broker_error "unknown" InvalidRequest MalformedResponse
                               ("malformed broker request: " +:+ error) false)]
  | Panic => False
  end.

Definition broker_read_failed (e : LineError) (l : list banswer) : Prop :=
  l = [BSent (broker_error "unknown" InvalidRequest MalformedResponse (line_error_text io_error e) false)].

Definition broker_transcript (uid : u32) (reader : Reader) (l : list banswer) : Prop :=
  transcript (broker_read_frame (bc_max_request_bytes config)) (broker_answered uid) broker_read_failed reader l.

(** ** Correctness *)

Context (max : usize) (schedule : nat -> list action) (outside : environment (server_io BrokerChat broker_ext)).
Context (from_slice_calm : forall bytes, from_slice bytes <> Panic).
Context (reserve_calm : forall h uid, outside h _ (Ext (Bc (Reserve uid))) <> Panic).
Context (probe_calm : forall h, outside h _ (Ext (Bc HealthProbe)) <> Some Panic).

Abbreviation serves := (serves max schedule outside banswer_of).

Lemma emit_serves (P : Conn -> Prop) (I : Reader -> Prop) event :
  stable P ->
  serves (bout (E := Empty_set) (emit event)) (fun s c => I s /\ P c) (fun _ s c l => (I s /\ P c) /\ l = [BSent event]).
Proof.
  intros HP. apply serves_embed. intros s env'. eexists. split; [done|].
  intros k l _ [HI Hk]. cbn. split; [|done]. split; [done|]. by apply stable_acts.
Qed.

(** An event, and the end of the frame. *)
Lemma emit_then_serves (I : Reader -> Prop) event fl (spec : list banswer -> Prop) :
  spec [BSent event] ->
  serves (bout (E := Empty_set) (emit event);; mret fl : beff Reader Empty_set flow) (fun s c => I s /\ idle c) (logs spec I).
Proof.
  intros Hs. eapply serves_bind; [apply (emit_serves idle), stable_idle|]. intros [] l.
  apply serves_ret. by intros s c [[HI Hc] ->].
Qed.

Lemma envelope_serves (I : Reader -> Prop) version request_id (k : beff Reader Empty_set flow) (spec : list banswer -> Prop) :
  (forall event, envelope_error version request_id = Some event -> spec [BSent event]) ->
  (envelope_error version request_id = None -> serves k (fun s c => I s /\ idle c) (logs spec I)) ->
  serves (valid ← bout (valid_envelope version request_id); if negb valid then mret Continue else k : beff Reader Empty_set flow)
    (fun s c => I s /\ idle c) (logs spec I).
Proof.
  intros He Hk.
  eapply (serves_bind _ _ _ _ _ _ _ (fun (valid : bool) s c l => (I s /\ idle c) /\
    if valid then l = [] /\ envelope_error version request_id = None
    else exists event, l = [BSent event] /\ envelope_error version request_id = Some event)).
  - apply serves_embed. intros s env'. unfold valid_envelope, envelope_error.
    destruct (String.eqb version V); [destruct (is_empty request_id || (128 <? len request_id))|];
      cbn [negb]; eexists; (split; [done|]); intros k' l _ [HI Hc]; cbn;
      (split; [split; [done|by apply stable_acts; [apply stable_idle|]]|]); by repeat eexists.
  - intros [] l; cbn [negb].
    + eapply (serves_pre _ _ _ _ _ (fun s c => (l = [] /\ envelope_error version request_id = None) /\ I s /\ idle c));
        [naive_solver|]. apply serves_pure. intros [-> Hn]. cbn [app]. by apply Hk.
    + apply serves_ret. intros s c [[HI Hc] (event & -> & Hev)]. split; [done|]. split; [done|]. by apply He.
Qed.

Lemma broker_validate_chat_calm messages tools max_tokens :
  broker_validate_chat config value_to_string messages tools max_tokens <> Panic.
Proof.
  apply no_panic_spec. unfold broker_validate_chat.
  apply no_panic_bind; [apply no_panic_fail_if|intros _ _]. apply no_panic_bind; [by destruct (fold_left _ _ _)|intros total _].
  do 2 (apply no_panic_bind; [apply no_panic_fail_if|intros _ _]). apply no_panic_fail_if.
Qed.

Lemma handle_chat_serves (I : Reader -> Prop) uid version request_id messages tools max_tokens :
  serves (handle_chat config value_to_string uid request_id messages tools max_tokens) (fun s c => I s /\ idle c)
    (logs (request_answered uid (BrChat version request_id messages tools max_tokens)) I).
Proof.
  unfold handle_chat, request_answered. pose proof (broker_validate_chat_calm messages tools max_tokens).
  destruct (broker_validate_chat _ _ _ _ _) as [[]|message|]; [|by apply emit_then_serves|done].
  eapply (serves_bind _ _ _ _ _ _ _ (fun active s c l => l = [Looked request_id active] /\ I s /\ idle c /\
            (active = false -> cn_active c !! request_id = None))).
  { apply serves_reg. intros s k _ [HI Hk]. split; [done|]. intros l. split; [done|]. split; [done|].
    split; [by apply stable_acts; [apply stable_idle|]|].
    cbn. intros Hn%bool_decide_eq_false. apply (stable_acts _ _ _ (stable_absent request_id)). by apply eq_None_not_Some. }
  intros active looked. apply serves_pure. intros ->. destruct active.
  { eapply serves_pre; [|eapply (emit_then_serves I _ _ (fun l => _ ([_] ++ l))); by left]. by intros s c (? & ? & _). }
  set (ready := fun c => idle c /\ cn_active c !! request_id = None).
  assert (stable ready) as Hready by (apply stable_and; [apply stable_idle|apply stable_absent]).
  eapply (serves_bind _ _ _ _ _ _ _ (fun r s c l => (l = [Did (Reserved uid r)] /\ r <> Panic) /\ I s /\ ready c)).
  { apply (serves_ext_reply _ _ _ _ _ (fun r => r <> Panic)); [intros h; apply reserve_calm|].
    intros s k r l _ (HI & Hc & Ha) Hr. split; [done|]. split; [done|].
    apply (stable_acts ready); [done|]. split; [done|]. by apply Ha. }
  intros reserved asked. apply serves_pure. intros [-> Hr]. destruct reserved as [position|error|]; [| |done].
  - eapply serves_bind; [apply (emit_serves ready), Hready|]. intros [] l.
    eapply (serves_pre _ _ _ _ _ (fun s c => l = [BSent (BeQueued V request_id position)] /\ I s /\ ready c)); [naive_solver|].
    apply serves_pure. intros ->.
    eapply serves_weaken; [| |apply (start_serves max schedule outside banswer_of (fun A c r => eq_refl) I)].
    + by intros s c (HI & [_ Hcr] & Hact).
    + intros fl s c l (HI & Hc & t & ->). split; [done|]. split; [done|]. right. right. by exists position, t.
  - eapply serves_pre; [|eapply (emit_then_serves I _ _ (fun l => _ ([_] ++ [_] ++ l))); right; left; by exists error].
    by intros s c (? & ? & _).
Qed.

Lemma handle_request_serves (I : Reader -> Prop) uid request :
  serves (handle_request config value_to_string uid request) (fun s c => I s /\ idle c)
    (logs (fun l => match envelope_of request with Some event => l = [BSent event] | None => request_answered uid request l end) I).
Proof.
  destruct request as [version request_id messages tools max_tokens|version request_id|version request_id target];
    cbn [handle_request envelope_of]; apply envelope_serves; (intros event -> || intros ->); try done.
  - apply (handle_chat_serves I uid version).
  - eapply (serves_bind _ _ _ _ _ _ _ (fun r s c l => (l = [Did (Probed r)] /\ r <> Some Panic) /\ I s /\ idle c)).
    { apply (serves_ext_reply _ _ _ _ _ (fun r => r <> Some Panic)); [intros h; apply probe_calm|].
      intros s k r l _ (HI & Hc) Hr. split; [done|]. split; [done|]. by apply stable_acts; [apply stable_idle|]. }
    intros health probed. apply serves_pure. intros [-> Hh].
    assert (exists state detail, health_answer health = Ok (state, detail) /\ forall l,
      l = [BSent (BeHealth V request_id state detail)] -> request_answered uid (BrHealth version request_id) ([Did (Probed health)] ++ l))
      as (state & detail & -> & Hspec).
    { destruct health as [[[state detail]|error|]|]; [|..|done|]; eexists _, _; (split; [reflexivity|]); intros l ->; eexists _, _, _; (split; [reflexivity|]); repeat split. }
    eapply (serves_silent _ _ _ _ _ _ _ (fun r s c => r = (state, detail) /\ I s /\ idle c)).
    { intros h s Hok HP. exists (state, detail). cbn. rewrite app_nil_r. split; [done|]. split; [|split; [|done]].
      - intros [] u Ht; [by rewrite app_nil_r|done].
      - by intros [] ? ?. }
    intros [state' detail']. apply serves_pure. intros [= -> ->].
    eapply (emit_then_serves I _ _ (fun l => _ ([_] ++ l))). by apply Hspec.
  - eapply (serves_bind _ _ _ _ _ _ _ (fun active s c l => l = [CancelledFor target active] /\ I s /\ idle c));
      [|intros active reached; apply serves_pure; intros ->;
        eapply (emit_then_serves I _ _ (fun l => _ ([_] ++ l))); by exists active].
    apply serves_reg. intros s k _ [HI Hk]. split; [done|]. intros l. split; [done|]. split; [done|].
    apply stable_acts; [apply stable_idle|]. cbn. by destruct (cn_active k !! _).
Qed.

Lemma broker_frame_serves (I : Reader -> Prop) uid bytes :
  serves (handle_frame config value_to_string from_slice uid bytes) (fun s c => I s /\ idle c)
    (logs (broker_answered uid bytes) I).
Proof.
  unfold handle_frame, broker_answered. pose proof (from_slice_calm bytes).
  destruct (from_slice bytes) as [request|error|]; [apply handle_request_serves|by apply emit_then_serves|done].
Qed.

Lemma read_failed_serves (I : Reader -> Prop) e :
  serves (read_failed io_error e) (fun s c => I s /\ idle c) (logs (broker_read_failed e) I).
Proof.
  eapply serves_weaken; [| |apply (emit_serves idle I), stable_idle]; [done|]. by intros [] s c l [[? ?] ->].
Qed.
End broker_specification.

(** The check of the peer, the service, the writer. *)
Lemma broker_connection_run (check : u32 -> result string u32) (body : u32 -> beff Reader string unit)
    (env : environment (server_io BrokerChat broker_ext)) reader :
  let o := (credentials ← perform (Ext BPeerUid); uid ← lift (uid ← credentials; check uid); body uid;;
            written ← perform (Ext BAwaitWriter); lift written) env [] reader in
  let peer := env [] _ (Ext BPeerUid) in
  let first := Event _ (Ext BPeerUid) peer in
  match (uid ← peer; check uid) with
  | Ok uid =>
      value (body uid env [first] reader) = Ok tt ->
      exists written, value o = written /\
        trace o = ([first] ++ trace (body uid env [first] reader)) ++ [Event _ (Ext BAwaitWriter) written]
  | Err error => trace o = [first] /\ value o = Err error
  | Panic => trace o = [first] /\ value o = Panic
  end.
Proof.
  cbn zeta. set (peer := env [] _ (Ext BPeerUid)).
  match goal with |- context [(perform (Ext BPeerUid) ≫= ?f) env [] reader] => set (rest := f) end.
  destruct (bind_run (perform (Ext BPeerUid)) rest env [] reader peer eq_refl) as [-> ->].
  cbn [perform trace final app]. fold peer. unfold rest. clear rest.
  destruct (uid ← peer; check uid) as [uid|error|]; [|done..]. intros Hv.
  match goal with |- context [(lift (Ok uid) ≫= ?f) env ?h reader] =>
    destruct (bind_run (lift (Ok uid)) f env h reader uid eq_refl) as [-> ->] end.
  cbn [lift trace final app].
  match goal with |- context [(body uid ≫= ?f) env ?h reader] =>
    destruct (bind_run (body uid) f env h reader tt Hv) as [-> ->] end.
  eexists. split; [reflexivity|]. cbn [perform mbind eff_bind lift value trace app]. by rewrite app_comm_cons.
Qed.

(** C23 The broker answers every request of a connection once and keeps its chats apart,
    in every interleaving with its tasks.  Only a login user other than the broker itself
    is served.  The reader then answers frame after frame until the shutdown wins the race
    against the next frame, the bytes are at their end, or a frame cannot be read, which gets
    one error.  All it does for a frame is what the frame asks for: an error that says what is
    wrong; the health the model process reported; for a cancel, cancelling the chat the frame
    names, and its acknowledgement; for a chat, a refusal exactly when its identifier is
    active or the queue refuses the user, with the queue's reason, or else the place the queue
    gave it, its entry and its task.  What the table of the connection replied was true of it
    at that moment.  At every moment the running chats have different identifiers, and a chat
    is cancelled only by such a cancel or by the end of the connection; at the end every chat
    was cancelled and waited for. *)
Theorem broker_connection_answers_every_request config value_to_string from_slice io_error schedule
    (outside : environment (server_io BrokerChat broker_ext)) euid reader :
  (forall bytes, from_slice bytes <> Panic) ->
  (forall h uid, outside h _ (Ext (Bc (Reserve uid))) <> Panic) ->
  (forall h, outside h _ (Ext (Bc HealthProbe)) <> Some Panic) ->
  let o := handle_connection config value_to_string from_slice io_error euid (conn_env 0 schedule outside) [] reader in
  (forall t u, trace o = t ++ u -> orderly 0 schedule t) /\
  (forall t e u, trace o = t ++ e :: u -> honest (conn_at 0 schedule t) e) /\
  match (uid ← outside [] _ (Ext BPeerUid); validate_peer config euid uid) with
  | Ok uid =>
      bc_minimum_peer_uid config <= uid <= bc_maximum_peer_uid config /\ uid <> euid /\
      broker_transcript config value_to_string from_slice io_error uid reader (trace o ≫= banswer_of) /\
      (exists t, trace o = t ++ [Event _ (Ext BAwaitWriter) (value o)]) /\
      let c := conn_at 0 schedule (trace o) in cn_shutdown c = true /\ forall t, settled t c
  | Err error => trace o ≫= banswer_of = [] /\ value o = Err error
  | Panic => value o = Panic
  end.
Proof.
  intros Hs Hres Hprobe. cbn zeta. set (env := conn_env 0 schedule outside). set (peer := outside [] _ (Ext BPeerUid)).
  set (first := Event _ (Ext BPeerUid) peer : event (server_io BrokerChat broker_ext)).
  destruct (first_point 0 schedule first ltac:(lia) I) as (Hnil & Hone & _).
  assert ((forall t u, [first] = t ++ u -> orderly 0 schedule t) /\
    (forall t e u, [first] = t ++ e :: u -> honest (conn_at 0 schedule t) e)) as Hpre.
  { split; [intros [|e t] u; [done|]; intros [= <- Ht]; by destruct t|].
    intros [|e' t] e u; [by intros [= <- _]|]. intros [= _ Ht]. by destruct t. }
  set (body uid := serve_connection (broker_read_frame (bc_max_request_bytes config)) BShutdownWins
                     (handle_frame config value_to_string from_slice uid) (read_failed io_error)).
  pose proof (broker_connection_run (validate_peer config euid)
    (fun uid => eff_map_err (fun never : Empty_set => match never with end) (body uid)) env reader) as Hrun.
  cbn zeta in Hrun. change (env [] _ (Ext BPeerUid)) with peer in Hrun.
  unfold handle_connection. unfold body in Hrun. match goal with |- context [trace ?x] => set (o := x) in * end.
  clearbody o.
  destruct (uid ← peer; validate_peer config euid uid) as [uid|error|] eqn:Hpeer;
    [|by destruct Hrun as [Ht ?], Hpre as [??]; fold first in Ht; rewrite Ht..].
  fold first in Hrun.
  assert (forall last, outside_event last -> _) as Hserved by (intros last Hl; exact (
    connection_served (broker_read_frame (bc_max_request_bytes config)) BShutdownWins
      (handle_frame config value_to_string from_slice uid) (read_failed io_error)
      0 schedule outside banswer_of (fun r => eq_refl) (fun A c r => eq_refl)
      (fun reader => read_frame_progress _ _ reader)
      (broker_answered config value_to_string from_slice uid) (broker_read_failed io_error)
      (fun I bytes => broker_frame_serves config value_to_string from_slice 0 schedule outside Hs Hres Hprobe I uid bytes)
      (read_failed_serves io_error 0 schedule outside)
      first last reader ltac:(lia) I Hl)).
  fold env in Hserved. cbn zeta in Hserved.
  destruct (Hrun ltac:(unfold eff_map_err; cbn [value]; by rewrite (proj1 (Hserved first I)))) as (written & Hval & Ht).
  cbn [eff_map_err trace] in Ht. rewrite Ht, Hval.
  destruct (Hserved (Event _ (Ext BAwaitWriter) written) I) as (_ & Hpts & Htrue & Htr & Hdown & _ & Hset).
  split; [exact Hpts|]. split; [exact Htrue|].
  assert (bc_minimum_peer_uid config <= uid <= bc_maximum_peer_uid config /\ uid <> euid) as [Hrange Hne].
  { apply bind_Ok in Hpeer as (u & _ & Hu). unfold validate_peer in Hu. inv_result. subst.
    zbool. lia. }
  split; [done|]. split; [done|]. split; [|split; [by eexists|by split]].
  rewrite !bind_app. cbn [mbind list_bind banswer_of ev_call first app]. by rewrite app_nil_r.
Qed.

(** Two chats and a cancel from user 1000, on a queue that admits them. *)
Definition demo_broker_slice (bytes : string) : result string BrokerRequest :=
  if String.eqb bytes "chat" then
    Ok (BrChat V "request-1" [{| bm_role := "user"; bm_content := "hello"; bm_name := None; bm_tool_call_id := None;
                                 bm_tool_calls := [] |}] [] 64)
  else if String.eqb bytes "cancel" then Ok (BrCancel V "cancel-1" "request-1")
  else Err "expected value at line 1 column 1".

Definition demo_bcall {A} (c : bcall A) : A :=
  match c with
  | Emit _ | BCancel _ => tt
  | Reserve _ => Ok 1
  | Acquire => Ok tt
  | LlamaHealth => SelCancelled
  | HealthProbe => None
  | LlamaChat _ _ _ _ => {| lr_deltas := []; lr_result := None |}
  | Instant => 0
  | Sleep _ => SelDone tt
  | BIsCancelled => false
  end.

Definition demo_broker_ext {A} (c : broker_ext A) : A :=
  match c with
  | BPeerUid => Ok 1000
  | BShutdownWins => false
  | Bc c => demo_bcall c
  | BAwaitWriter => Ok tt
  end.

Definition demo_broker_client : environment (server_io BrokerChat broker_ext) := fun _ _ c =>
  match c with
  | Reg c => conn_reply (Conn_new 0) c
  | Ext c => demo_broker_ext c
  end.

Definition demo_broker_bytes : Reader :=
  [Some ("chat" +:+ String LF "ch"); Some ("at" +:+ String LF "cancel" +:+ String LF EmptyString)].

Definition demo_broker_connection :=
  handle_connection BrokerConfig_default (fun _ => EmptyString) demo_broker_slice "broken pipe" 992
    (conn_env 0 (fun _ => []) demo_broker_client) [] demo_broker_bytes.

Lemma broker_connection_answers_every_request_witness :
  broker_transcript BrokerConfig_default (fun _ => EmptyString) demo_broker_slice "broken pipe" 1000 demo_broker_bytes
    (trace demo_broker_connection ≫= banswer_of) /\
  length (trace demo_broker_connection ≫= banswer_of) = 13%nat /\
  cn_shutdown (conn_at 0 (fun _ => []) (trace demo_broker_connection)) = true.
Proof.
  destruct (broker_connection_answers_every_request BrokerConfig_default (fun _ => EmptyString) demo_broker_slice
    "broken pipe" (fun _ => []) demo_broker_client 992 demo_broker_bytes) as (_ & _ & _ & _ & Htr & _ & Hd & _).
  - intros bytes. unfold demo_broker_slice. by destruct (String.eqb bytes "chat"), (String.eqb bytes "cancel").
  - done.
  - done.
  - split; [exact Htr|]. split; [vm_compute; reflexivity|exact Hd].
Defined.
