(* ===== verification/RouterListener.v ===== *)
(** * The router's socket and its connections (crates/sentia-router/src/server.rs)

    [run] takes the listening socket from systemd or binds it below the user's runtime
    directory, accepts connections up to a limit, and has each of them served.  Frames go
    to the client through a writer task.  The file system, the process environment and
    the descriptor systemd passes are the outside world. *)

From Stdlib Require Import Ascii String.
From S2P Require Import Prelude RustStr Bounded Contract RouterContract SocketContract Effects Monitor Framing StreamState Queue Connection ConnectionLoop RouterConnection BrokerServer.

(** [Path::parent] in text form. *)
Definition parent_path (path : string) : option string :=
  (fun l => fold_left push l EmptyString) <$> parent (components path).

(** Where the listener came from. *)
Inductive Listener := Inherited | Bound (path : string).

Inductive listen_io : Type -> Type :=
| EnvVar (name : string) : listen_io (option string)
| ProcessId : listen_io u32
| AdoptFd (fd : Z) : listen_io unit
| SetNonblocking : listen_io (result string unit)
| FromStd : listen_io (result string unit)
| LocalPath : listen_io (result string (option string))
| Stat (path : string) : listen_io (result string (u32 * u32))
| Fs A (c : bind_io A) : listen_io A.
Arguments Fs {A} c.

Abbreviation leff A := (eff listen_io unit string A).

(** [call?] *)
Definition try_call {A} (c : listen_io (result string A)) : leff A := r ← perform c; lift r.

(** ** The socket *)

Definition runtime_socket_path : leff string :=
  configured ← perform (EnvVar "SENTIA_ROUTER_SOCKET");
  match configured with
  | Some path => mret path
  | None =>
      runtime ← perform (EnvVar "XDG_RUNTIME_DIR");
      runtime ← lift (ok_or runtime "XDG_RUNTIME_DIR is required for the per-user router socket"%string);
      mret (path_join runtime "sentia/router.sock")
  end.

Section socket.
(** [libc::geteuid()] *)
Context (euid : u32).

Definition ensure_private_directory (path : string) : leff unit :=
  present ← perform (Fs (Exists_ path));
  (if present : bool then
     metadata ← try_call (Fs (Lstat path));
     lift (fail_if (pm_is_symlink metadata || negb (pm_is_dir metadata) || negb (pm_uid metadata =? euid))
             "router runtime directory is not a private owned directory"%string)
   else try_call (Fs (CreateDirAll path)));;
  try_call (Fs (SetMode path 448)).

Definition bind_socket_path (path : string) : leff Listener :=
  parent ← lift (ok_or (parent_path path) "router socket has no parent"%string);
  ensure_private_directory parent;;
  present ← perform (Fs (Exists_ path));
  (if present : bool then
     metadata ← try_call (Fs (Lstat path));
     lift (fail_if (negb (pm_is_socket metadata) || negb (pm_uid metadata =? euid))
             "refusing to replace non-owned router socket path"%string);;
     try_call (Fs (RemoveFile path))
   else mret tt);;
  try_call (Fs (Bind path));;
  try_call (Fs (SetMode path 384));;
  mret (Bound path).

Definition bind_runtime_socket : leff Listener :=
  path ← runtime_socket_path;
  bind_socket_path path.

Definition listener_from_systemd : leff (option Listener) :=
  listen_pid ← perform (EnvVar "LISTEN_PID");
  let listen_pid := value ← listen_pid; parse_uint U32_MAX value in
  listen_fds ← perform (EnvVar "LISTEN_FDS");
  let listen_fds := default 0 (value ← listen_fds; parse_uint U32_MAX value) in
  id ← perform ProcessId;
  if negb (bool_decide (listen_pid = Some id)) || (listen_fds =? 0) then mret None
  else
    lift (fail_if (negb (listen_fds =? 1)) "sentia-router expects exactly one systemd socket"%string);;
    perform (AdoptFd 3);;
    try_call SetNonblocking;;
    try_call FromStd;;
    address ← try_call LocalPath;
    path ← lift (ok_or address "systemd supplied an unnamed router socket"%string);
    '(uid, mode) ← try_call (Stat path);
    lift (fail_if (negb (uid =? euid) || negb (Z.land mode 511 =? 384))
            "systemd router socket ownership or mode is unsafe"%string);;
    mret (Some Inherited).

Definition acquire_listener (from_systemd : leff (option Listener)) (bind : leff Listener) : leff Listener :=
  supplied ← from_systemd;
  match supplied with
  | Some listener => mret listener
  | None => bind
  end.

Definition router_listener : leff Listener := acquire_listener listener_from_systemd bind_runtime_socket.
End socket.

(** ** Accepting connections *)

(** What the loop's [select!] sees, and connections that end in between. *)
Inductive run_event :=
| RunAccepted (accepted : result string unit)
| RunJoined
| RunConnectionEnds.

(** Free permits, connections being served (each holds a permit), finished ones that
    were not joined yet, and clients turned away. *)
Record RunState := {
  rn_permits : usize;
  rn_serving : Z;
  rn_finished : Z;
  rn_turned_away : Z;
}.

Definition RunState_new (max_connections : usize) : RunState :=
  {| rn_permits := max_connections; rn_serving := 0; rn_finished := 0; rn_turned_away := 0 |}.

Definition connection_ends (s : RunState) : RunState :=
  if 0 <? rn_serving s then
    {| rn_permits := rn_permits s + 1; rn_serving := rn_serving s - 1; rn_finished := rn_finished s + 1;
       rn_turned_away := rn_turned_away s |}
  else s.

Definition accept_connection (s : RunState) : RunState :=
  if 0 <? rn_permits s then
    {| rn_permits := rn_permits s - 1; rn_serving := rn_serving s + 1; rn_finished := rn_finished s;
       rn_turned_away := rn_turned_away s |}
  else {| rn_permits := rn_permits s; rn_serving := rn_serving s; rn_finished := rn_finished s;
          rn_turned_away := rn_turned_away s + 1 |}.

Definition join_connection (s : RunState) : RunState :=
  {| rn_permits := rn_permits s; rn_serving := rn_serving s; rn_finished := saturating_sub (rn_finished s) 1;
     rn_turned_away := rn_turned_away s |}.

(** The loop up to the shutdown, which comes after the last event; then every connection
    is cancelled and joined.  An error of [accept] ends [run] at once. *)
Fixpoint run_loop (events : list run_event) (s : RunState) : RunState * result string unit :=
  match events with
  | [] => ({| rn_permits := rn_permits s + rn_serving s; rn_serving := 0; rn_finished := 0;
              rn_turned_away := rn_turned_away s |}, Ok tt)
  | RunAccepted (Ok _) :: rest => run_loop rest (accept_connection s)
  | RunAccepted (Err error) :: _ => (s, Err error)
  | RunAccepted Panic :: _ => (s, Panic)
  | RunJoined :: rest => run_loop rest (join_connection s)
  | RunConnectionEnds :: rest => run_loop rest (connection_ends s)
  end.

(** ** The socket is the user's own *)

Abbreviation history := (list (event listen_io)).

Definition fs_event {A} (c : bind_io A) (r : A) : event listen_io := Event A (Fs c) r.

(** The directory was an owned directory, or was just created. *)
Definition owned_directory (euid : u32) (dir : string) (before : history) : Prop :=
  (exists m, fs_event (Lstat dir) (Ok m) ∈ before /\ pm_is_symlink m = false /\ pm_is_dir m = true /\ pm_uid m = euid) \/
  fs_event (CreateDirAll dir) (Ok tt) ∈ before.

(** The path held a socket of the user. *)
Definition owned_socket (euid : u32) (path : string) (before : history) : Prop :=
  exists m, fs_event (Lstat path) (Ok m) ∈ before /\ pm_is_socket m = true /\ pm_uid m = euid.

(** What binding may do to the file system for the socket [path] in [dir], and after what. *)
Definition may_touch (euid : u32) (dir path : string) (before : history) (e : event listen_io) : Prop :=
  match ev_call e with
  | Fs (Exists_ p) | Fs (Lstat p) => p = dir \/ p = path
  | Fs (CreateDirAll p) => p = dir
  | Fs (RemoveFile p) => p = path /\ owned_socket euid path before
  | Fs (Bind p) => p = path /\ fs_event (SetMode dir 448) (Ok tt) ∈ before
  | Fs (SetMode p mode) =>
      p = dir /\ mode = 448 /\ owned_directory euid dir before \/
      p = path /\ mode = 384 /\ fs_event (Bind path) (Ok tt) ∈ before
  | _ => False
  end.

Lemma may_touch_mono euid dir path t before e :
  may_touch euid dir path before e -> may_touch euid dir path (t ++ before) e.
Proof.
  unfold may_touch, owned_directory, owned_socket. destruct e as [A c r]. cbn.
  destruct c as [| | | | | | |A c]; try done. destruct c; try done; setoid_rewrite elem_of_app; naive_solver.
Qed.

Lemma guarded_try_call P {A B} (c : listen_io (result string A)) (k : A -> leff B) :
  (forall r, P [] (Event _ c r)) ->
  (forall a, guarded (fun before => P (Event _ c (Ok a) :: before)) (k a)) -> guarded P (try_call c ≫= k).
Proof.
  intros Hc Hk. eapply (guarded_bind _ _ _ (fun _ a t => t = [Event _ c (Ok a)])).
  - apply guarded_perform_then; [done|]. intros r. apply guarded_lift.
  - intros env h s a Ha. unfold try_call, mbind, eff_bind, perform, lift in *. cbn in *. by rewrite Ha.
  - intros env a t ->. apply Hk.
Qed.

Lemma guarded_last P {A} (c : listen_io (result string A)) : (forall r, P [] (Event _ c r)) -> guarded P (try_call c).
Proof. intros Hc. apply guarded_perform_then; [done|]. intros r. apply guarded_lift. Qed.

Lemma try_call_ensures {A} (c : listen_io (result string A)) :
  ensures (try_call c) (fun _ a t => t = [Event _ c (Ok a)]).
Proof. intros env h s a Ha. unfold try_call, mbind, eff_bind, perform, lift in *. cbn in *. by rewrite Ha. Qed.

Lemma private_directory_guarded euid dir path :
  guarded (may_touch euid dir path) (ensure_private_directory euid dir).
Proof.
  unfold ensure_private_directory. apply guarded_perform_then; [by left|]. intros present.
  eapply (guarded_bind _ _ _ (fun _ _ t => owned_directory euid dir t)).
  - destruct present.
    + apply guarded_try_call; [by left|]. intros m. apply guarded_lift.
    + by apply guarded_last.
  - destruct present.
    + eapply ensures_step; [apply try_call_ensures|]. intros m. eapply ensures_mono; [|apply ensures_lift].
      intros env [] t [Hm ->] t' ->. left. exists m. apply fail_if_Ok in Hm.
      apply orb_false_iff in Hm as [[? ?]%orb_false_iff ?].
      rewrite negb_false_iff in *. zbool. split; [set_solver|done].
    + eapply ensures_mono; [|apply try_call_ensures]. intros env [] t ->. right. set_solver.
  - intros env [] t Ht. apply guarded_last. intros r. left. split; [done|]. split; [done|].
    unfold owned_directory in *. setoid_rewrite elem_of_cons. setoid_rewrite elem_of_app. naive_solver.
Qed.

Lemma private_directory_ensures euid dir :
  ensures (ensure_private_directory euid dir) (fun _ _ t => fs_event (SetMode dir 448) (Ok tt) ∈ t).
Proof.
  unfold ensure_private_directory. eapply ensures_step; [apply ensures_perform|]. intros present.
  eapply (ensures_step _ _ _ _ (fun _ _ _ => True)); [by intros env h s a|].
  intros []. eapply ensures_mono; [|apply try_call_ensures]. intros env [] t -> t1 _ t2 ->. set_solver.
Qed.

Lemma bind_socket_guarded euid path dir :
  parent_path path = Some dir -> guarded (may_touch euid dir path) (bind_socket_path euid path).
Proof.
  intros Hd. unfold bind_socket_path. rewrite Hd.
  eapply guarded_bind; [apply guarded_lift|apply ensures_lift|]. cbn. intros _ dir' _ [[= <-] ->]. cbn [app].
  eapply guarded_bind; [apply private_directory_guarded|apply private_directory_ensures|].
  intros _ [] t Ht. apply guarded_perform_then; [by right|]. intros present.
  eapply (guarded_bind _ _ _ (fun _ _ _ => True)); [| |intros _ [] u _].
  - destruct present; [|apply guarded_ret]. apply guarded_try_call; [by right|]. intros m.
    eapply guarded_bind; [apply guarded_lift|apply ensures_lift|]. intros _ [] u [Hm ->]. apply guarded_last. intros r.
    apply fail_if_Ok, orb_false_iff in Hm as [? ?]. rewrite negb_false_iff in *. zbool. split; [done|].
    exists m. split; [set_solver|done].
  - by intros env h s a.
  - apply guarded_try_call; [intros r; split; [done|]; set_solver|]. intros [].
    apply guarded_try_call; [intros r; right; split; [done|]; split; [done|]; set_solver|]. intros []. apply guarded_ret.
Qed.

Lemma bind_socket_ensures euid path :
  ensures (bind_socket_path euid path) (fun _ listener t => listener = Bound path /\
    exists u, t = u ++ [fs_event (Bind path) (Ok tt); fs_event (SetMode path 384) (Ok tt)]).
Proof.
  unfold bind_socket_path. do 4 (eapply (ensures_step _ _ _ _ (fun _ _ _ => True)); [by intros ? ? ? ?|]; intros ?).
  eapply ensures_step; [apply try_call_ensures|]. intros [].
  eapply ensures_step; [apply try_call_ensures|]. intros [].
  eapply ensures_mono; [|apply ensures_ret]. intros env l t [-> ->] t1 -> t2 -> t3 _ t4 _ t5 _ t6 _. split; [done|].
  exists (t6 ++ t5 ++ t4 ++ t3). by rewrite <-!app_assoc.
Qed.

(** Which socket systemd may pass: for this process, exactly one, owned by the user, with
    mode 0600. *)
Definition trusted_descriptor (euid : u32) (t : history) : Prop :=
  exists pid fds id path uid mode,
    Event _ (EnvVar "LISTEN_PID") (Some pid) ∈ t /\ Event _ (EnvVar "LISTEN_FDS") (Some fds) ∈ t /\
    Event _ ProcessId id ∈ t /\ parse_uint U32_MAX pid = Some id /\ parse_uint U32_MAX fds = Some 1 /\
    Event _ LocalPath (Ok (Some path)) ∈ t /\ Event _ (Stat path) (Ok (uid, mode)) ∈ t /\
    uid = euid /\ Z.land mode 511 = 384.

Definition no_fs (e : event listen_io) : Prop := match ev_call e with Fs _ => False | _ => True end.

Lemma systemd_ensures euid :
  ensures (listener_from_systemd euid) (fun _ r t =>
    match r with Some listener => listener = Inherited /\ trusted_descriptor euid t | None => True end).
Proof.
  unfold listener_from_systemd.
  eapply ensures_step; [apply ensures_perform|]. intros pid. eapply ensures_step; [apply ensures_perform|]. intros fds.
  eapply ensures_step; [apply ensures_perform|]. intros id.
  destruct (negb _ || _) eqn:Hg; [eapply ensures_mono; [|apply ensures_ret]; by intros env a t [-> _]|].
  apply orb_false_iff in Hg as [Hpid%negb_false_iff%bool_decide_eq_true _].
  eapply ensures_step; [apply ensures_lift|]. intros []. eapply ensures_step; [apply ensures_perform|]. intros [].
  do 2 (eapply ensures_step; [apply try_call_ensures|]; intros []).
  eapply ensures_step; [apply try_call_ensures|]. intros address. eapply ensures_step; [apply ensures_lift|]. intros path.
  eapply ensures_step; [apply try_call_ensures|]. intros [uid mode]. eapply ensures_step; [apply ensures_lift|]. intros [].
  eapply ensures_mono; [|apply ensures_ret].
  intros env r t [-> ->] ? [Hsafe ->] ? -> ? [Haddr ->] ? -> ? -> ? -> ? -> ? [Hfds ->] ? -> ? -> ? ->.
  apply fail_if_Ok in Hsafe, Hfds. apply orb_false_iff in Hsafe as [? ?]. apply ok_or_Ok in Haddr. subst.
  rewrite negb_false_iff in *. zbool. destruct pid as [pid|]; [|done]. destruct fds as [fds|]; [|done]. cbn in Hpid, Hfds.
  destruct (parse_uint U32_MAX fds) as [n|] eqn:Hn; [|done]. cbn in Hfds. subst.
  split; [done|]. exists pid, fds, id, path, euid, mode. repeat (split; [set_solver|]). done.
Qed.

Lemma systemd_no_fs euid : emits no_fs (listener_from_systemd euid).
Proof. unfold listener_from_systemd, try_call. by emits_tac. Qed.

Lemma socket_path_no_fs : emits no_fs runtime_socket_path.
Proof. unfold runtime_socket_path. by emits_tac. Qed.

(** The path the process environment asks for. *)
Definition configured (t : history) (path : string) : Prop :=
  Event _ (EnvVar "SENTIA_ROUTER_SOCKET") (Some path) ∈ t \/
  exists runtime, Event _ (EnvVar "SENTIA_ROUTER_SOCKET") None ∈ t /\
    Event _ (EnvVar "XDG_RUNTIME_DIR") (Some runtime) ∈ t /\ path = path_join runtime "sentia/router.sock".

Lemma configured_mono t u path : (forall e, e ∈ t -> e ∈ u) -> configured t path -> configured u path.
Proof. intros Hi [H|(runtime & H1 & H2 & H3)]; [left|right; exists runtime]; auto. Qed.

Lemma socket_path_ensures : ensures runtime_socket_path (fun _ path t => configured t path).
Proof.
  unfold runtime_socket_path. eapply ensures_step; [apply ensures_perform|]. intros [path|].
  - eapply ensures_mono; [|apply ensures_ret]. intros env p t [-> ->] t1 ->. left. set_solver.
  - eapply ensures_step; [apply ensures_perform|]. intros runtime. eapply ensures_step; [apply ensures_lift|]. intros r.
    eapply ensures_mono; [|apply ensures_ret]. intros env p t [-> ->] t1 [Hr ->] t2 -> t3 ->.
    apply ok_or_Ok in Hr. subst. right. exists r. set_solver.
Qed.

(** A contact with the file system that serves the configured socket. *)
Definition for_the_socket (euid : u32) (before : history) (e : event listen_io) : Prop :=
  no_fs e \/ exists path dir, configured before path /\ parent_path path = Some dir /\ may_touch euid dir path before e.

Lemma for_the_socket_mono euid : monotone (for_the_socket euid).
Proof.
  intros t before e [?|(path & dir & Hc & Hd & Hm)]; [by left|]. right. exists path, dir.
  split; [eapply configured_mono; [|exact Hc]; intros e' He; apply elem_of_app; auto|]. split; [done|]. by apply may_touch_mono.
Qed.

Lemma bind_socket_for_the_socket euid path t :
  configured t path -> guarded (fun before => for_the_socket euid (t ++ before)) (bind_socket_path euid path).
Proof.
  intros Hc. destruct (parent_path path) as [dir|] eqn:Hd.
  - eapply guarded_mono; [|by apply bind_socket_guarded]. intros before e Hm. right. exists path, dir.
    split; [eapply configured_mono; [|exact Hc]; intros e' He; apply elem_of_app; auto|]. split; [done|]. by apply may_touch_mono.
  - unfold bind_socket_path. rewrite Hd. intros env h s before e after. by destruct before.
Qed.

Lemma router_listener_guarded euid : guarded (for_the_socket euid) (router_listener euid).
Proof.
  unfold router_listener, acquire_listener. apply guarded_seq; [apply for_the_socket_mono| |].
  - eapply guarded_emits; [|apply systemd_no_fs]. intros before e He. by left.
  - intros [listener|]; [apply guarded_ret|]. unfold bind_runtime_socket.
    eapply guarded_bind; [|apply socket_path_ensures|].
    + eapply guarded_emits; [|apply socket_path_no_fs]. intros before e He. by left.
    + intros env path t Ht. by apply bind_socket_for_the_socket.
Qed.

(** C24 The router listens only on a private socket of its user.  A listener from systemd
    is accepted only when systemd passed exactly one descriptor to this process and the
    socket is the user's with mode 0600; then the file system is not touched, so a live
    socket is never replaced.  Otherwise the socket path is the configured one: its
    directory is the user's (or new) and gets mode 0700 before anything is bound there,
    an existing path is removed only when it is a socket of the user, and a listener is
    returned only after the new socket got mode 0600. *)
Theorem router_socket_is_private euid env h :
  let o := router_listener euid env h tt in
  (forall before e after, trace o = before ++ e :: after -> for_the_socket euid before e) /\
  match value o with
  | Ok Inherited => trusted_descriptor euid (trace o) /\ Forall no_fs (trace o)
  | Ok (Bound path) => configured (trace o) path /\
      exists u, trace o = u ++ [fs_event (Bind path) (Ok tt); fs_event (SetMode path 384) (Ok tt)]
  | _ => True
  end.
Proof.
  cbn zeta. split; [intros before e after; apply router_listener_guarded|].
  unfold router_listener, acquire_listener.
  destruct (value _) as [listener| |] eqn:Hv; [|done..]. apply run_bind_Ok in Hv as (supplied & Hs & Hk & Ht & _).
  rewrite Ht. clear Ht. destruct supplied as [listener'|].
  - injection Hk as <-. apply systemd_ensures in Hs as [-> Htr]. rewrite app_nil_r. split; [done|]. apply systemd_no_fs.
  - unfold bind_runtime_socket in *. apply run_bind_Ok in Hk as (path & Hp & Hb & Ht' & _). rewrite Ht'.
    apply socket_path_ensures in Hp. apply bind_socket_ensures in Hb as [-> (u & Hu)]. rewrite Hu. split; [|rewrite !app_assoc; by eexists].
    eapply configured_mono; [|exact Hp]. intros e He. apply elem_of_app. right. apply elem_of_app. by left.
Qed.

(** ** Connections stay within the limit *)

Definition run_ok (max_connections : usize) (s : RunState) : Prop :=
  rn_permits s + rn_serving s = max_connections /\ 0 <= rn_permits s /\ 0 <= rn_serving s /\ 0 <= rn_finished s.

Lemma run_step_ok max s : run_ok max s ->
  run_ok max (accept_connection s) /\ run_ok max (join_connection s) /\ run_ok max (connection_ends s).
Proof.
  intros (H1 & H2 & H3 & H4). unfold run_ok, accept_connection, join_connection, connection_ends, saturating_sub.
  destruct (Z.ltb_spec 0 (rn_permits s)), (Z.ltb_spec 0 (rn_serving s)); cbn; lia.
Qed.

(** The states the loop goes through. *)
Fixpoint run_states (events : list run_event) (s : RunState) : list RunState :=
  s :: match events with
       | RunAccepted (Ok _) :: rest => run_states rest (accept_connection s)
       | RunJoined :: rest => run_states rest (join_connection s)
       | RunConnectionEnds :: rest => run_states rest (connection_ends s)
       | _ => []
       end.

Theorem connections_are_bounded max_connections events :
  0 <= max_connections ->
  Forall (fun s => rn_serving s <= max_connections /\ rn_permits s + rn_serving s = max_connections)
    (run_states events (RunState_new max_connections)) /\
  forall s, run_loop events (RunState_new max_connections) = (s, Ok tt) ->
    rn_serving s = 0 /\ rn_permits s = max_connections.
Proof.
  intros Hm. assert (run_ok max_connections (RunState_new max_connections)) as Hok by (unfold run_ok; cbn; lia).
  revert Hok. generalize (RunState_new max_connections). induction events as [|e rest IH]; intros s Hok;
    destruct (run_step_ok _ _ Hok) as (Ha & Hj & He); destruct Hok as (H1 & H2 & H3 & H4); cbn [run_states run_loop].
  - split; [repeat constructor; lia|]. intros s' [= <-]. cbn. lia.
  - destruct e as [[[]|error|]| |]; [destruct (IH _ Ha) as [Hall Hend]|..|destruct (IH _ Hj) as [Hall Hend]|
      destruct (IH _ He) as [Hall Hend]]; (split; [constructor; [lia|done]|done]).
Qed.

(** ** A lost error *)

(** The error for a frame that is too long is queued, and at once the connection's token
    is cancelled.  When the writer sees the cancellation first, the client never gets the
    error. *)
Example last_error_may_be_lost :
  let o := handle_connection demo_from_slice "broken pipe" 4 1000 (conn_env 1 (fun _ => []) demo_client) []
             [Some ("request" +:+ String LF EmptyString)] in
  let writer : environment writer_io := fun _ _ c =>
    match c with WriterShutdown => true | WriteAll _ => Ok tt | CloseWriter => Ok tt end in
  exists frame, trace o ≫= answer_of = [Raced false; Sent frame] /\
    sconcat (map written_of (trace (writer_task (fun _ => Ok "{}"%string) [frame] writer [] tt))) = EmptyString.
Proof. eexists. split; [vm_compute; reflexivity|vm_compute; reflexivity]. Qed.
