(* ===== verification/SettingsFile.v ===== *)
(** * The user's settings on disk (crates/sentia-router/src/settings.rs)

    [load] accepts a settings file only when it is private and of the supported version;
    [update] patches the settings in memory and replaces the file through a temporary one
    in the same directory.  The file system answers every call as it likes; [file_after]
    says what the calls that succeeded, and those that failed half way, leave behind. *)

From Stdlib Require Import Ascii String.
From S2P Require Import Prelude RustStr Bounded Contract RouterContract Effects Monitor RouterApi RouterListener.

Inductive settings_io : Type -> Type :=
| SEnvVar (name : string) : settings_io (option string)
| SProcessId : settings_io u32
| SExists (path : string) : settings_io bool
| SIsSymlink (path : string) : settings_io (result string bool)
| SMode (path : string) : settings_io (result string u32)
| SRead (path : string) : settings_io (result string string)
| SCreateDirAll (path : string) : settings_io (result string unit)
| SSetMode (path : string) (mode : u32) : settings_io (result string unit)
| SOpenNew (path : string) (mode : u32) : settings_io (result string unit)
| SWrite (path bytes : string) : settings_io (result string unit)
| SSyncAll (path : string) : settings_io (result string unit)
| SRename (from to : string) : settings_io (result string unit)
| SRemove (path : string) : settings_io (result string unit).

Abbreviation stf S A := (eff settings_io S string A).

Definition try_io {S A} (c : settings_io (result string A)) : stf S A := r ← perform c; lift r.

Definition settings_path {S} : stf S string :=
  configured ← perform (SEnvVar "SENTIA_ROUTER_SETTINGS");
  match configured with
  | Some path => mret path
  | None =>
      config_home ← perform (SEnvVar "XDG_CONFIG_HOME");
      base ← match config_home with
             | Some base => mret (Some base)
             | None => home ← perform (SEnvVar "HOME"); mret (option_map (fun home => path_join home ".config") home)
             end;
      base ← lift (ok_or base "HOME is not set"%string);
      mret (path_join base "sentia/router.json")
  end.

Definition reject_symlink {S} (path : string) : stf S unit :=
  symlink ← try_io (SIsSymlink path);
  lift (fail_if symlink "refusing symlink settings file"%string).

Section settings.
(** [serde_json::from_slice] and [to_writer_pretty]. *)
Context (from_slice : string -> result string UserSettings) (pretty : UserSettings -> string).

(** [SettingsStore::load]: the settings the store starts with. *)
Definition load {S} (path : string) : stf S UserSettings :=
  present ← perform (SExists path);
  if present : bool then
    reject_symlink path;;
    mode ← try_io (SMode path);
    lift (fail_if (negb (Z.land mode 63 =? 0)) "router settings must not be accessible by group or others"%string);;
    bytes ← try_io (SRead path);
    parsed ← lift (from_slice bytes);
    lift (fail_if (negb (String.eqb (us_version parsed) PROTOCOL_VERSION_V1)) "unsupported settings version"%string);;
    mret parsed
  else mret UserSettings_default.

Definition load_default {S} : stf S UserSettings :=
  path ← settings_path;
  load path.

Definition LF1 : string := String LF EmptyString.

(** The closure of [write_private_json]. *)
Definition write_temporary {S} (temporary path : string) (value : UserSettings) : stf S unit :=
  try_io (SOpenNew temporary 384);;
  try_io (SWrite temporary (pretty value));;
  try_io (SWrite temporary LF1);;
  try_io (SSyncAll temporary);;
  try_io (SRename temporary path);;
  try_io (SSetMode path 384).

Definition temporary_name (parent : string) (pid : u32) : string :=
  path_join parent (".router.json." +:+ show_uint pid +:+ ".new").

(** [write_private_json] below the directory [parent]. *)
Definition write_below {S} (parent path : string) (value : UserSettings) : stf S unit :=
  present ← perform (SExists parent);
  (if present : bool then
     symlink ← try_io (SIsSymlink parent);
     lift (fail_if symlink "refusing symlink settings directory"%string)
   else mret tt);;
  try_io (SCreateDirAll parent);;
  try_io (SSetMode parent 448);;
  present ← perform (SExists path);
  (if present : bool then reject_symlink path else mret tt);;
  pid ← perform SProcessId;
  let temporary := temporary_name parent pid in
  result ← attempt (write_temporary temporary path value);
  (if negb (is_ok result) then perform (SRemove temporary);; mret tt else mret tt);;
  lift result.

Definition write_private_json {S} (path : string) (value : UserSettings) : stf S unit :=
  parent ← lift (ok_or (parent_path path) "settings path has no parent"%string);
  write_below parent path value.

(** [SettingsStore::update] under the write lock; the state is the settings in memory. *)
Definition update (path : option string) (patch : SettingsPatch) : stf UserSettings UserSettings :=
  current ← with_state (fun value => (value, Ok value));
  updated ← lift (apply_patch current patch);
  match path with
  | Some path => write_private_json path updated
  | None => mret tt
  end;;
  with_state (fun _ => (updated, Ok updated)).
End settings.

(** ** What is on disk *)

(** A file: its bytes ([None]: unknown, after a write that failed) and its mode. *)
Record DiskFile := { df_bytes : option string; df_mode : u32 }.
Abbreviation disk := (gmap string DiskFile).

Definition disk_step (d : disk) (e : event settings_io) : disk :=
  match ev_call e in settings_io A return A -> disk with
  | SOpenNew path mode => fun r => if is_ok r then <[path := {| df_bytes := Some EmptyString; df_mode := mode |}]> d else d
  | SWrite path bytes => fun r =>
      match d !! path with
      | Some f => <[path := {| df_bytes := if is_ok r then (old ← df_bytes f; Some (old +:+ bytes)) else None;
                               df_mode := df_mode f |}]> d
      | None => d
      end
  | SSetMode path mode => fun r =>
      match d !! path with
      | Some f => if is_ok r then <[path := {| df_bytes := df_bytes f; df_mode := mode |}]> d else d
      | None => d
      end
  | SRename from to => fun r =>
      match d !! from with
      | Some f => if is_ok r then <[to := f]> (delete from d) else d
      | None => d
      end
  | SRemove path => fun r => if is_ok r then delete path d else d
  | _ => fun _ => d
  end (ev_reply e).

Definition file_after (d : disk) (t : list (event settings_io)) : disk := fold_left disk_step t d.

(** ** Program logic

    [tracks Inv m P Q]: from every disk with [P], all disks on the way satisfy [Inv] and
    the last one, with the value, [Q]. *)
Definition tracks {S E A} (Inv : disk -> Prop) (m : eff settings_io S E A) (P : disk -> Prop)
    (Q : result E A -> disk -> Prop) : Prop :=
  forall env h s d, P d -> let o := m env h s in
    (forall t u, trace o = t ++ u -> Inv (file_after d t)) /\ Q (value o) (file_after d (trace o)).

Lemma file_after_app d t u : file_after d (t ++ u) = file_after (file_after d t) u.
Proof. apply fold_left_app. Qed.

Section tracks.
Context {S E : Type} (Inv : disk -> Prop).

Lemma tracks_lift {A} (r : result E A) (P : disk -> Prop) (Q : result E A -> disk -> Prop) :
  (forall d, P d -> Inv d /\ Q r d) -> tracks Inv (lift (S := S) r) P Q.
Proof. intros H env h s d HP. destruct (H d HP) as [Hi HQ]. split; [|done]. by intros [] u. Qed.

Lemma tracks_ret {A} (a : A) (P : disk -> Prop) (Q : result E A -> disk -> Prop) :
  (forall d, P d -> Inv d /\ Q (Ok a) d) -> tracks Inv (mret a : eff settings_io S E A) P Q.
Proof. intros H env h s d HP. destruct (H d HP) as [Hi HQ]. split; [|done]. by intros [] u. Qed.

Lemma tracks_perform {A} (c : settings_io A) (P : disk -> Prop) (Q : result E A -> disk -> Prop) :
  (forall d r, P d -> Inv d /\ Inv (disk_step d (Event A c r)) /\ Q (Ok r) (disk_step d (Event A c r))) ->
  tracks Inv (perform (S := S) (E := E) c) P Q.
Proof.
  intros H env h s d HP. destruct (H d (env h A c) HP) as (Hi & Hi' & HQ). split; [|done].
  intros [|e t] u; [done|]. intros [= <- Ht]. by destruct t.
Qed.

Lemma tracks_bind {A B} (m : eff settings_io S E A) (k : A -> eff settings_io S E B) P
    (F : result E A -> disk -> Prop) (Q : result E B -> disk -> Prop) :
  tracks Inv m P F -> (forall a, tracks Inv (k a) (F (Ok a)) Q) ->
  (forall e d, F (Err e) d -> Q (Err e) d) -> (forall d, F Panic d -> Q Panic d) -> tracks Inv (m ≫= k) P Q.
Proof.
  intros Hm Hk He Hp env h s d HP. destruct (Hm env h s d HP) as [Hi HF]. unfold mbind, eff_bind.
  destruct (value (m env h s)) as [a|e|]; cbn [value trace final]; [|by auto..].
  destruct (Hk a env (h ++ trace (m env h s)) (final (m env h s)) _ HF) as [Hi' HQ]. split.
  - intros t u [(l & Hl & ->)|(l & -> & Hl)]%app_eq_inv; [by eapply Hi|]. rewrite file_after_app. by eapply Hi'.
  - by rewrite file_after_app.
Qed.

Lemma tracks_weaken {A} (m : eff settings_io S E A) (P P' : disk -> Prop) (Q Q' : result E A -> disk -> Prop) :
  (forall d, P' d -> P d) -> (forall r d, Q r d -> Q' r d) -> tracks Inv m P Q -> tracks Inv m P' Q'.
Proof. intros HP HQ Hm env h s d H. destruct (Hm env h s d (HP d H)). auto. Qed.

Lemma tracks_attempt {F A} (m : eff settings_io S E A) P (Q : result F (result E A) -> disk -> Prop) :
  tracks Inv m P (fun r => Q match r with Panic => Panic | r => Ok r end) -> tracks Inv (attempt m) P Q.
Proof.
  intros Hm env h s d HP. specialize (Hm env h s d HP). revert Hm. unfold attempt. cbn zeta. by destruct (Effects.value (m env h s)).
Qed.
End tracks.

Lemma tracks_try {S A} Inv (c : settings_io (result string A)) (P : disk -> Prop) (Q : result string A -> disk -> Prop) :
  (forall d r, P d -> Inv d /\ Inv (disk_step d (Event _ c r)) /\ Q r (disk_step d (Event _ c r))) ->
  tracks Inv (try_io (S := S) c) P Q.
Proof.
  intros H. eapply (tracks_bind _ _ _ _ (fun r d => exists r', r = Ok r' /\ Inv d /\ Q r' d));
    [apply tracks_perform; intros d r HP; destruct (H d r HP) as (? & ? & ?); naive_solver| |naive_solver..].
  intros r. apply tracks_lift. naive_solver.
Qed.

(** ** Replacing the file *)

Section replacing.
Context (pretty : UserSettings -> string) (path parent : string) (value : UserSettings) (before : disk).
Context (parent_of_path : parent_path path = Some parent) (parent_not_path : parent <> path).
Context (temporary_not_path : forall pid, temporary_name parent pid <> path).

Definition new_file : DiskFile := {| df_bytes := Some (pretty value +:+ LF1); df_mode := 384 |}.

(** The settings file is the old one or the complete new one, and a temporary file is
    private from its first byte. *)
Definition whole (d : disk) : Prop :=
  (d !! path = before !! path \/ d !! path = Some new_file) /\
  forall pid f, d !! temporary_name parent pid = Some f ->
    before !! temporary_name parent pid = Some f \/ df_mode f = 384.

(** Nothing of ours is on disk yet. *)
Definition untouched (d : disk) : Prop :=
  d !! path = before !! path /\ forall pid, d !! temporary_name parent pid = before !! temporary_name parent pid.

Lemma untouched_whole d : untouched d -> whole d.
Proof. intros [H1 H2]. split; [by left|]. intros pid f. rewrite H2. auto. Qed.

Lemma temporary_not_parent pid : temporary_name parent pid <> parent.
Proof.
  unfold temporary_name, path_join, push. cbn [starts_with].
  set (name := ".router.json." +:+ _). assert (0 < len name) as Hn.
  { unfold name. rewrite len_app. change (len ".router.json.") with 13.
    pose proof (len_nonneg (show_uint pid +:+ ".new")). lia. }
  assert (starts_with "/" name = false) as -> by done.
  intros H. apply (f_equal len) in H. destruct (is_empty parent || ends_with "/" parent); rewrite !len_app in H;
    [|change (len "/") with 1 in H]; lia.
Qed.

(** A call that touches neither file. *)
Lemma untouched_step d A (c : settings_io A) r :
  match c with
  | SOpenNew _ _ | SWrite _ _ | SRename _ _ | SRemove _ => False
  | SSetMode p _ => p = parent
  | _ => True
  end -> untouched d -> untouched (disk_step d (Event A c r)).
Proof.
  intros Hc [H1 H2]. destruct c; try done; try by split. cbn in *. subst. destruct (d !! parent) as [f|]; [|by split].
  destruct (is_ok r); [|by split]. split; [by rewrite lookup_insert_ne|]. intros pid.
  rewrite lookup_insert_ne; [apply H2|]. apply not_eq_sym, temporary_not_parent.
Qed.

(** Computations that leave both files alone. *)
Definition quiet {S A} (m : stf S A) : Prop := tracks whole m untouched (fun _ d => untouched d).

Lemma quiet_lift {S A} (r : result string A) : quiet (lift (S := S) r).
Proof. apply tracks_lift. intros d Hd. split; [by apply untouched_whole|done]. Qed.

Lemma quiet_ret {S A} (a : A) : quiet (mret a : stf S A).
Proof. apply tracks_ret. intros d Hd. split; [by apply untouched_whole|done]. Qed.

Lemma quiet_perform {S A} (c : settings_io A) :
  match c with
  | SOpenNew _ _ | SWrite _ _ | SRename _ _ | SRemove _ => False
  | SSetMode p _ => p = parent
  | _ => True
  end -> quiet (perform (S := S) c).
Proof.
  intros Hc. apply tracks_perform. intros d r Hd. pose proof (untouched_step d A c r Hc Hd).
  split; [by apply untouched_whole|]. split; [by apply untouched_whole|done].
Qed.

Lemma quiet_bind {S A B} (m : stf S A) (k : A -> stf S B) : quiet m -> (forall a, quiet (k a)) -> quiet (m ≫= k).
Proof. intros Hm Hk. by eapply tracks_bind; [exact Hm|exact Hk|..]. Qed.
Hint Resolve quiet_lift quiet_ret quiet_perform quiet_bind : core.

(** The temporary file with the bytes written so far, the settings file untouched. *)
Definition filling (pid : u32) (bytes : option string) (d : disk) : Prop :=
  d !! path = before !! path /\
  d !! temporary_name parent pid = Some {| df_bytes := bytes; df_mode := 384 |} /\
  forall other, temporary_name parent other <> temporary_name parent pid ->
    d !! temporary_name parent other = before !! temporary_name parent other.

Lemma filling_whole pid bytes d : filling pid bytes d -> whole d.
Proof.
  intros (H1 & H2 & H3). split; [by left|]. intros other f Hf.
  destruct (decide (temporary_name parent other = temporary_name parent pid)) as [E|Hne].
  - rewrite E in Hf. rewrite H2 in Hf. injection Hf as <-. by right.
  - left. by rewrite <-H3.
Qed.

Definition replaced (pid : u32) (d : disk) : Prop :=
  d !! path = Some new_file /\ d !! temporary_name parent pid = None /\
  forall other, temporary_name parent other <> temporary_name parent pid ->
    d !! temporary_name parent other = before !! temporary_name parent other.

Lemma replaced_whole pid d : replaced pid d -> whole d.
Proof.
  intros (H1 & H2 & H3). split; [by right|]. intros other f Hf.
  destruct (decide (temporary_name parent other = temporary_name parent pid)) as [E|Hne].
  - rewrite E in Hf. congruence.
  - left. by rewrite <-H3.
Qed.

(** After the closure: the new file, or an error that leaves the settings file whole. *)
Definition closure_done (pid : u32) (r : result string unit) (d : disk) : Prop :=
  whole d /\ match r with
             | Ok _ => replaced pid d
             | Err _ => d !! path = before !! path \/ replaced pid d
             | Panic => True
             end.

Lemma open_filling d pid : untouched d -> filling pid (Some EmptyString)
  (<[temporary_name parent pid := {| df_bytes := Some EmptyString; df_mode := 384 |}]> d).
Proof.
  intros [H1 H2]. split; [by rewrite lookup_insert_ne|]. split; [by rewrite lookup_insert_eq|].
  intros other Hne. by rewrite lookup_insert_ne.
Qed.

Lemma write_filling d pid old new : filling pid old d -> filling pid new
  (<[temporary_name parent pid := {| df_bytes := new; df_mode := 384 |}]> d).
Proof.
  intros (H1 & H2 & H3). split; [by rewrite lookup_insert_ne|]. split; [by rewrite lookup_insert_eq|].
  intros other Hne. rewrite lookup_insert_ne by done. by apply H3.
Qed.

Lemma rename_replaced d pid : filling pid (Some (pretty value +:+ LF1)) d -> replaced pid
  (<[path := new_file]> (delete (temporary_name parent pid) d)).
Proof.
  intros (H1 & H2 & H3). split; [by rewrite lookup_insert_eq|].
  split; [rewrite lookup_insert_ne by (apply not_eq_sym, temporary_not_path); apply lookup_delete_eq|].
  intros other Hne. rewrite lookup_insert_ne by (apply not_eq_sym, temporary_not_path).
  rewrite lookup_delete_ne by done. by apply H3.
Qed.

(** One write of the closure. *)
Lemma tracks_write {S} pid old bytes (Q : result string unit -> disk -> Prop) :
  (forall d, filling pid (Some (old +:+ bytes)) d -> Q (Ok tt) d) ->
  (forall e d, filling pid None d -> Q (Err e) d) -> (forall d, filling pid None d -> Q Panic d) ->
  tracks whole (try_io (S := S) (SWrite (temporary_name parent pid) bytes)) (filling pid (Some old)) Q.
Proof.
  intros Hok Herr Hp. apply tracks_try. intros d r Hd. split; [by eapply filling_whole|].
  unfold disk_step. cbn [ev_call ev_reply]. rewrite (proj1 (proj2 Hd)). cbn [df_bytes df_mode].
  destruct r as [[]|e|]; cbn [is_ok mbind option_bind];
    (split; [by eapply filling_whole, write_filling|]); [apply Hok|apply Herr|apply Hp]; by eapply write_filling.
Qed.

Lemma closure_tracks {S} pid :
  tracks whole (write_temporary (S := S) pretty (temporary_name parent pid) path value) untouched (closure_done pid).
Proof.
  assert (forall d e, filling pid None d -> closure_done pid (Err e) d) as Hfail.
  { intros d e Hd. split; [by eapply filling_whole|]. left. apply Hd. }
  assert (forall d, filling pid None d -> closure_done pid Panic d) as Hpanic.
  { intros d Hd. split; [by eapply filling_whole|done]. }
  unfold write_temporary.
  eapply (tracks_bind _ _ _ _ (fun r d => match r with
    | Ok _ => filling pid (Some EmptyString) d | r => closure_done pid r d end)); [| |done..].
  { apply tracks_try. intros d r Hd. split; [by apply untouched_whole|]. unfold disk_step. cbn [ev_call ev_reply].
    pose proof (open_filling d pid Hd) as Ho. pose proof (untouched_whole d Hd).
    destruct r as [[]|e|]; cbn [is_ok]; [split; [by eapply filling_whole|done]|..]; (split; [done|]); (split; [done|]);
      [left; apply Hd|done]. }
  intros [].
  eapply (tracks_bind _ _ _ _ (fun r d => match r with
    | Ok _ => filling pid (Some (pretty value)) d | r => closure_done pid r d end)); [by apply tracks_write; auto| |done..].
  intros [].
  eapply (tracks_bind _ _ _ _ (fun r d => match r with
    | Ok _ => filling pid (Some (pretty value +:+ LF1)) d | r => closure_done pid r d end)); [by apply tracks_write; auto| |done..].
  intros [].
  eapply (tracks_bind _ _ _ _ (fun r d => match r with
    | Ok _ => filling pid (Some (pretty value +:+ LF1)) d | r => closure_done pid r d end)); [| |done..].
  { apply tracks_try. intros d r Hd. assert (whole d) by (by eapply filling_whole). split; [done|]. split; [done|].
    destruct r as [[]|e|]; [done|split; [done|left; apply Hd]|by split]. }
  intros [].
  eapply (tracks_bind _ _ _ _ (fun r d => match r with
    | Ok _ => replaced pid d | r => closure_done pid r d end)); [| |done..].
  { apply tracks_try. intros d r Hd. assert (whole d) by (by eapply filling_whole). split; [done|].
    unfold disk_step. cbn [ev_call ev_reply]. rewrite (proj1 (proj2 Hd)). pose proof (rename_replaced d pid Hd) as Hr.
    destruct r as [[]|e|]; cbn [is_ok]; [split; [by eapply replaced_whole|done]|..]; (split; [done|]); (split; [done|]);
      [left; apply Hd|done]. }
  intros []. apply tracks_try. intros d r Hd. assert (whole d) by (by eapply replaced_whole). split; [done|].
  unfold disk_step. cbn [ev_call ev_reply]. rewrite (proj1 Hd).
  assert (<[path := {| df_bytes := df_bytes new_file; df_mode := 384 |}]> d = d) as -> by (apply insert_id, (proj1 Hd)).
  destruct r as [[]|e|]; cbn [is_ok]; (split; [done|]); (split; [done|]); [done|by right|done].
Qed.

(** The cleanup cannot touch the settings file. *)
Lemma remove_keeps d pid r : whole d -> whole (disk_step d (Event _ (SRemove (temporary_name parent pid)) r)) /\
  disk_step d (Event _ (SRemove (temporary_name parent pid)) r) !! path = d !! path.
Proof.
  intros Hw. unfold disk_step. cbn [ev_call ev_reply]. destruct (is_ok r); [|done]. destruct Hw as [H1 H2].
  assert (delete (temporary_name parent pid) d !! path = d !! path) as Hp by (apply lookup_delete_ne, temporary_not_path).
  rewrite Hp. split; [|done]. split; [by rewrite Hp|].
  intros other f [_ Hf]%lookup_delete_Some. by apply H2.
Qed.

(** What [write_private_json] leaves. *)
Definition write_done (r : result string unit) (d : disk) : Prop :=
  match r with
  | Ok _ => d !! path = Some new_file
  | _ => d !! path = before !! path \/ d !! path = Some new_file
  end.

Lemma quiet_then {S A} (m : stf S A) (k : A -> stf S unit) :
  quiet m -> (forall a, tracks whole (k a) untouched write_done) -> tracks whole (m ≫= k) untouched write_done.
Proof. intros Hm Hk. eapply tracks_bind; [exact Hm|exact Hk|..]; intros; left; by apply H. Qed.

Lemma cleanup_tracks {S} pid (result : result string unit) :
  tracks whole ((if negb (is_ok result) then perform (SRemove (temporary_name parent pid));; mret tt else mret tt);;
                lift result : stf S unit) (closure_done pid result) write_done.
Proof.
  eapply (tracks_bind _ _ _ _ (fun r d => r = Ok tt /\ whole d /\ write_done result d)); [|intros []|naive_solver..].
  - destruct result as [[]|e|]; cbn [is_ok negb].
    + apply tracks_ret. intros d [Hw Hr]. split; [done|]. split; [done|]. split; [done|]. apply Hr.
    + eapply (tracks_bind _ _ _ _ (fun r d => is_ok r = true /\ whole d /\ write_done (Err e) d)); [|intros removed|naive_solver..].
      * apply tracks_perform. intros d r [Hw Hr]. destruct (remove_keeps d pid r Hw) as [Hw' Hp].
        split; [done|]. split; [done|]. split; [done|]. split; [done|]. unfold write_done. rewrite Hp.
        destruct Hr as [Hr|Hr]; [by left|right; apply Hr].
      * apply tracks_ret. naive_solver.
    + eapply (tracks_bind _ _ _ _ (fun r d => is_ok r = true /\ whole d)); [|intros removed|naive_solver..].
      * apply tracks_perform. intros d r [Hw _]. by destruct (remove_keeps d pid r Hw) as [Hw' Hp].
      * apply tracks_ret. intros d [_ Hw]. split; [done|]. split; [done|]. split; [done|]. apply Hw.
  - apply tracks_lift. naive_solver.
Qed.

Lemma write_below_tracks {S} : tracks whole (write_below (S := S) pretty parent path value) untouched write_done.
Proof.
  unfold write_below, reject_symlink, try_io.
  apply quiet_then; [auto|intros present].
  apply quiet_then; [destruct present; auto 10|intros []].
  apply quiet_then; [auto|intros []]. apply quiet_then; [auto|intros []]. apply quiet_then; [auto|intros present'].
  apply quiet_then; [destruct present'; auto 10|intros []]. apply quiet_then; [auto|intros pid]. cbn zeta.
  eapply (tracks_bind _ _ _ _ (fun r d => match r with
    | Ok result => closure_done pid result d | Err _ => False | Panic => whole d end)); [|intros result|done|].
  - apply tracks_attempt. eapply tracks_weaken; [| |apply closure_tracks]; [done|]. intros [[]|e|] d Hd; [done|done|apply Hd].
  - apply cleanup_tracks.
  - intros d [H _]. exact H.
Qed.

Lemma write_private_json_tracks {S} : tracks whole (write_private_json (S := S) pretty path value) untouched write_done.
Proof.
  unfold write_private_json. rewrite parent_of_path.
  eapply (tracks_bind _ _ _ _ (fun r d => r = Ok parent /\ untouched d)); [|intros parent'|naive_solver..].
  { apply tracks_lift. intros d Hd. split; [by apply untouched_whole|done]. }
  intros env h s d [[= ->] Hd]. by apply write_below_tracks.
Qed.
End replacing.

Lemma write_keeps {S} pretty path value : keeps_state (write_private_json (S := S) pretty path value).
Proof.
  unfold write_private_json, write_below, write_temporary, reject_symlink, try_io.
  repeat first [apply keeps_bind; [|intros ?]|apply keeps_attempt|apply keeps_lift|apply keeps_perform|apply keeps_ret
    |match goal with |- keeps_state (if ?b then _ else _) => destruct b end].
Qed.

(** An outside world that shows the disk [d]. *)
Definition shows (d : disk) (env : environment settings_io) : Prop :=
  forall h path f bytes, d !! path = Some f -> df_bytes f = Some bytes ->
    env h _ (SExists path) = true /\ env h _ (SIsSymlink path) = Ok false /\
    env h _ (SMode path) = Ok (df_mode f) /\ env h _ (SRead path) = Ok bytes.

(** [m] returns [a] in [env], whenever it is run. *)
Definition always {S A} (env : environment settings_io) (m : stf S A) (a : A) : Prop :=
  forall h s, Effects.value (m env h s) = Ok a.

Lemma always_bind {S A B} env (m : stf S A) (k : A -> stf S B) a b :
  always env m a -> always env (k a) b -> always env (m ≫= k) b.
Proof. intros Hm Hk h s. unfold mbind, eff_bind. rewrite (Hm h s). apply Hk. Qed.

Lemma always_perform {S A} env (c : settings_io A) a : (forall h, env h A c = a) -> always env (perform (S := S) c) a.
Proof. intros H h s. cbn. by rewrite H. Qed.

Lemma always_lift {S A} env (r : result string A) a : r = Ok a -> always env (lift (S := S) r) a.
Proof. by intros -> h s. Qed.

Lemma load_new_file {S} from_slice pretty path value d env :
  shows d env -> d !! path = Some (new_file pretty value) -> from_slice (pretty value +:+ LF1) = Ok value ->
  us_version value = PROTOCOL_VERSION_V1 -> always env (load (S := S) from_slice path) value.
Proof.
  intros Hs Hd Hf Hv. pose proof (fun h => Hs h path _ _ Hd eq_refl) as Hs'. unfold load, reject_symlink, try_io.
  assert (forall A (c : settings_io (result string A)) a, (forall h, env h _ c = Ok a) ->
    always env (r ← perform c; lift r : stf S A) a) as Htry.
  { intros A c a Hc. eapply always_bind; [apply always_perform, Hc|by apply always_lift]. }
  eapply always_bind; [apply always_perform; intros h; apply Hs'|]. cbn beta iota.
  eapply always_bind; [eapply always_bind; [apply Htry; intros h; apply Hs'|by apply always_lift]|].
  eapply always_bind; [apply Htry; intros h; apply Hs'|]. eapply always_bind; [by apply always_lift|].
  eapply always_bind; [apply Htry; intros h; apply Hs'|]. eapply always_bind; [by apply always_lift|].
  eapply always_bind; [apply always_lift; by rewrite Hv|]. by intros h s.
Qed.

(** C25 The settings file is replaced as a whole.  At every moment of an update, and so
    after a crash at any of them, the file is the old one or the complete new one, and the
    temporary file is private from its first byte.  When [update] succeeds the memory and
    the file hold the patched settings and a later [load] returns them; when it fails the
    memory keeps the old ones. *)
Theorem settings_are_replaced_whole from_slice pretty path parent patch value env h d :
  parent_path path = Some parent -> parent <> path -> (forall pid, temporary_name parent pid <> path) ->
  let o := update pretty (Some path) patch env h value in
  match apply_patch value patch with
  | Ok updated =>
      (forall t u, trace o = t ++ u -> whole pretty path parent updated d (file_after d t)) /\
      match Effects.value o with
      | Ok r => r = updated /\ final o = updated /\ file_after d (trace o) !! path = Some (new_file pretty updated) /\
          forall later h', shows (file_after d (trace o)) later -> from_slice (pretty updated +:+ LF1) = Ok updated ->
            us_version updated = PROTOCOL_VERSION_V1 -> Effects.value (load from_slice path later h' tt) = Ok updated
      | _ => final o = value
      end
  | _ => trace o = [] /\ final o = value /\ forall r, Effects.value o <> Ok r
  end.
Proof.
  intros Hp Hne Ht. cbn zeta. unfold update.
  destruct (apply_patch value patch) as [updated|e|] eqn:Ha;
    [|unfold mbind, eff_bind, with_state, lift; cbn; by rewrite Ha..].
  unfold mbind, eff_bind, with_state, lift. cbn [Effects.value trace final app]. rewrite Ha. cbn [Effects.value trace final app].
  match goal with |- context [write_private_json pretty path updated env ?x value] => set (h1 := x) end.
  pose proof (write_private_json_tracks (S := UserSettings) pretty path parent updated d Hp Hne Ht env h1 value d
    ltac:(done)) as [Hwhole Hdone].
  pose proof (write_keeps (S := UserSettings) pretty path updated env h1 value) as Hkeep.
  set (w := write_private_json pretty path updated env h1 value) in *. clearbody w.
  destruct (Effects.value w) as [[]|e|]; cbn [Effects.value trace final app]; [|by split..].
  rewrite app_nil_r. split; [done|]. split; [done|]. split; [done|]. split; [done|].
  intros later h' Hs Hf Hv. by eapply load_new_file.
Qed.

(** A patch written to a working disk, and the same with a disk that refuses the last
    [chmod]: the file is replaced although [update] reports an error. *)
Definition demo_patch : SettingsPatch :=
  {| pa_default_policy := Some RemotePreferred; pa_preferred_remote_provider := None; pa_remote_categories := None |}.

Definition demo_disk_world (refuses : string) : environment settings_io := fun _ _ c =>
  match c with
  | SEnvVar _ => None
  | SProcessId => 7
  | SExists _ => true
  | SIsSymlink _ => Ok false
  | SMode _ => Ok 384
  | SRead _ => Ok "{}"%string
  | SSetMode path _ => if String.eqb path refuses then Err "operation not permitted"%string else Ok tt
  | SCreateDirAll _ | SOpenNew _ _ | SWrite _ _ | SSyncAll _ | SRename _ _ | SRemove _ => Ok tt
  end.

Definition demo_settings_file : string := "/home/u/.config/sentia/router.json".

Lemma temporary_differs pid : temporary_name "/home/u/.config/sentia" pid <> demo_settings_file.
Proof. unfold temporary_name, path_join, push. cbn. by intros [=]. Qed.

Definition demo_updated : UserSettings :=
  {| us_version := us_version UserSettings_default; us_default_policy := RemotePreferred;
     us_preferred_remote_provider := us_preferred_remote_provider UserSettings_default;
     us_remote_categories := us_remote_categories UserSettings_default |}.

Definition demo_update : outcome settings_io UserSettings string UserSettings :=
  update (fun _ => "{}"%string) (Some demo_settings_file) demo_patch (demo_disk_world EmptyString) [] UserSettings_default.

Lemma demo_update_value : Effects.value demo_update = Ok demo_updated.
Proof. vm_compute. reflexivity. Qed.

Lemma settings_are_replaced_whole_witness :
  final demo_update = demo_updated /\
  file_after ∅ (trace demo_update) !! demo_settings_file = Some (new_file (fun _ => "{}"%string) demo_updated).
Proof.
  pose proof (settings_are_replaced_whole (fun _ => Ok UserSettings_default) (fun _ => "{}"%string) demo_settings_file
    "/home/u/.config/sentia" demo_patch UserSettings_default (demo_disk_world EmptyString) [] ∅ eq_refl ltac:(done)
    temporary_differs) as H.
  fold demo_update in H. cbn zeta in H. rewrite demo_update_value in H.
  change (apply_patch UserSettings_default demo_patch) with (Ok (E := string) demo_updated) in H.
  destruct H as (_ & _ & Hf & Hd & _). by split.
Defined.

Example failed_update_may_replace_the_file :
  let o := update (fun _ => "{}"%string) (Some demo_settings_file) demo_patch (demo_disk_world demo_settings_file) []
             UserSettings_default in
  Effects.value o = Err "operation not permitted"%string /\ final o = UserSettings_default /\
  file_after ∅ (trace o) !! demo_settings_file
    = Some {| df_bytes := Some ("{}" +:+ LF1); df_mode := 384 |}.
Proof. vm_compute. by repeat split. Qed.
