(* ===== verification/LocalChat.v ===== *)
(** * A local chat, end to end

    [run_chat] of the broker's server composed with [chat] of the model client: the server's
    call [LlamaChat] is answered by a run of the client, whose accepted texts the server
    relays.  A timeout drops the client in the middle. *)

From Stdlib Require Import Ascii String.
From S2P Require Import Prelude RustStr Contract Effects BrokerProtocol LlamaHttp LlamaClient LlamaSafety LlamaTransfer Queue BrokerServer.

(** The texts that were put into the channel. *)
Definition accepted_text (e : event lsys) : option string :=
  match ev_call e in lsys A return A -> option string with
  | SendEvent (BeDelta _ _ content) => fun sent => if sent : bool then Some content else None
  | _ => fun _ => None
  end (ev_reply e).
Definition accepted (t : list (event lsys)) : list string := omap accepted_text t.

Section composition.
Context `{IoTexts} (from_slice from_str : string -> option Value) (to_vec : Value -> result string string).
Context (config : BrokerConfig).

(** What the server sees of a run of the client: all of it, or its beginning. *)
Inductive run_of (o : outcome lsys unit LlamaError LlamaOutput) : LlamaRun -> Prop :=
| run_complete : run_of o {| lr_deltas := accepted (trace o); lr_result := Some (value o) |}
| run_dropped k : run_of o {| lr_deltas := accepted (take k (trace o)); lr_result := None |}.

Definition served_by_client (env : environment bcall) : Prop :=
  forall h request_id messages tools max_tokens, exists lenv lh,
    run_of (chat from_slice from_str to_vec config request_id messages tools max_tokens lenv lh tt)
           (env h _ (LlamaChat request_id messages tools max_tokens)).

Lemma accepted_elem t content : content ∈ accepted t ->
  exists version request_id, Event _ (SendEvent (BeDelta version request_id content)) true ∈ t.
Proof.
  unfold accepted. rewrite list_elem_of_omap. intros (e & Hin & He).
  destruct e as [A c r]. destruct c as [| | | | | |event]; try done. destruct event as [| |v i c| | | | |]; try done.
  cbn in He. destruct r; [|done]. injection He as ->. by exists v, i.
Qed.

Lemma accepted_nonempty request_id t content :
  Forall (sends_text request_id) t -> content ∈ accepted t -> 0 < len content.
Proof.
  intros Ht (v & i & Hin)%accepted_elem. rewrite Forall_forall in Ht. apply Ht in Hin as (c & Hc & Heq).
  by injection Heq as _ _ ->.
Qed.

Lemma answered_accepted request_id t : answered request_id t -> exists content, 0 < len content /\ content ∈ accepted t.
Proof.
  intros (content & Hc & Hin). exists content. split; [done|]. unfold accepted. rewrite list_elem_of_omap.
  eexists. by split.
Qed.

(** ** How a chat ends *)

(** The waits of the server for its model: health requests and pauses. *)
Definition is_wait (e : event bcall) : bool :=
  match ev_call e with LlamaHealth | Sleep _ => true | _ => false end.
Definition waits : list (event bcall) -> list (event bcall) := List.filter is_wait.

(** What a wait after which the model is given up says: the request was cancelled, the health
    request failed, the model is still loading, or it is in no state to answer. *)
Inductive gives_up : event bcall -> LlamaError -> Prop :=
| UpCancelled : gives_up (Event _ LlamaHealth SelCancelled) request_cancelled
| UpAsleep ms : gives_up (Event _ (Sleep ms) SelCancelled) request_cancelled
| UpFailed error : gives_up (Event _ LlamaHealth (SelDone (Err error))) error
| UpLoading detail : gives_up (Event _ LlamaHealth (SelDone (Ok (Starting, detail))))
    {| le_kind := PTimeout; le_message := "shared local model did not become ready in time"; le_retryable := true |}
| UpState health detail : health <> Healthy -> health <> Starting ->
    gives_up (Event _ LlamaHealth (SelDone (Ok (health, detail))))
      {| le_kind := ProcessFailure; le_message := detail; le_retryable := true |}.

(** The error event that reports an error of the model client. *)
Definition reports (request_id : string) (error : LlamaError) (event : BrokerEvent) : Prop :=
  exists code, event = BeError V request_id (ContractError_new code (le_message error) (le_retryable error)) (le_kind error) /\
    (le_kind error = PTimeout -> code = ErrTimeout) /\ (le_kind error <> PTimeout -> code = ProviderUnavailable).

(** A failure ends with the cancellation when the request is cancelled by then, and otherwise with
    its report. *)
Inductive failed (request_id : string) (t : list (event bcall)) (error : LlamaError) : BrokerEvent -> Prop :=
| FailedCancelled : Event _ BIsCancelled true ∈ t -> failed request_id t error (BeCancelled V request_id request_id)
| FailedReported event : Event _ BIsCancelled false ∈ t -> reports request_id error event -> failed request_id t error event.

Definition not_run (e : event bcall) : Prop := match ev_call e with LlamaChat _ _ _ _ => False | _ => True end.

(** The texts relayed and the last event of a chat with the calls [t]. *)
Inductive ending (request_id : string) (call : bcall LlamaRun) (t : list (event bcall)) : list string -> BrokerEvent -> Prop :=
| EndWithdrawn : Event _ Acquire (Err QCancelled) ∈ t -> Forall not_run t ->
    ending request_id call t [] (BeCancelled V request_id request_id)
| EndRefused error : Event _ Acquire (Err error) ∈ t -> error <> QCancelled -> Forall not_run t ->
    ending request_id call t []
      (BeError V request_id (ContractError_new ProviderUnavailable (QueueError_to_string error) true) Quota)
| EndUnready wait error event : last (waits t) = Some wait -> gives_up wait error -> Forall not_run t ->
    failed request_id t error event -> ending request_id call t [] event
| EndComplete run output : Event _ call run ∈ t -> lr_result run = Some (Ok output) -> lo_tool_calls output = [] ->
    ending request_id call t (lr_deltas run) (BeComplete V request_id (lo_finish_reason output))
| EndCalls run output : Event _ call run ∈ t -> lr_result run = Some (Ok output) -> lo_tool_calls output <> [] ->
    ending request_id call t (lr_deltas run) (BeToolCalls V request_id (lo_tool_calls output))
| EndFailed run error event : Event _ call run ∈ t -> lr_result run = Some (Err error) -> failed request_id t error event ->
    ending request_id call t (lr_deltas run) event
| EndTimedOut run r : Event _ call run ∈ t -> lr_result run = None -> Event _ (BCancel request_id) r ∈ t ->
    ending request_id call t (lr_deltas run)
      (BeError V request_id (ContractError_new ErrTimeout "local inference request exceeded its time limit" true) PTimeout).

(** *** Giving up waiting *)

Section giving_up.
Context (env : environment bcall) (request_id : string).

(** After the calls [past], every error of [m] is what the last wait says. *)
Definition stuck {A} (past : list (event bcall)) (m : eff bcall unit LlamaError A) : Prop :=
  forall h error, value (m env h tt) = Err error ->
    exists wait, last (waits (past ++ trace (m env h tt))) = Some wait /\ gives_up wait error.

Lemma stuck_err {A} past error wait : last (waits past) = Some wait -> gives_up wait error -> stuck past (lift (Err error) : eff bcall unit LlamaError A).
Proof. intros Hl Hg h e [= <-]. exists wait. cbn. by rewrite app_nil_r. Qed.

Lemma stuck_perform {A B} past (c : bcall A) (k : A -> eff bcall unit LlamaError B) :
  (forall r, stuck (past ++ [Event A c r]) (k r)) -> stuck past (perform c ≫= k).
Proof. intros Hk h error Herr. specialize (Hk _ _ _ Herr). by rewrite <-app_assoc in Hk. Qed.

Lemma stuck_weaken {A} past (m : eff bcall unit LlamaError A) : stuck [] m -> stuck past m.
Proof.
  intros Hm h error (wait & Hl & Hg)%Hm. exists wait. split; [|done].
  unfold waits in *. cbn [app] in Hl. by rewrite List.filter_app, last_app, Hl.
Qed.

Lemma stuck_bind {A B} past (m : eff bcall unit LlamaError A) (k : A -> eff bcall unit LlamaError B) :
  stuck past m -> (forall a, stuck [] (k a)) -> stuck past (m ≫= k).
Proof.
  intros Hm Hk h error. unfold mbind, eff_bind. destruct (value (m env h tt)) as [a|e|] eqn:Hv; cbn [value trace].
  - destruct (final (m env h tt)). rewrite app_assoc. by apply stuck_weaken.
  - intros [= <-]. by apply Hm.
  - done.
Qed.

Lemma ready_loop_stuck fuel deadline : stuck [] (ready_loop fuel request_id deadline).
Proof.
  induction fuel as [|fuel IH]; cbn [ready_loop]; [done|]. apply stuck_perform. intros r.
  assert (forall state detail past error wait, last (waits past) = Some wait -> gives_up wait error ->
    stuck past (now ← perform Instant;
      if now <? deadline then pause request_id state detail;; ready_loop fuel request_id deadline else lift (Err error))) as Hturn.
  { intros state detail past error wait Hl Hg. apply stuck_perform. intros now. destruct (now <? deadline).
    - apply stuck_bind; [|done]. unfold pause, emit. do 2 (apply stuck_perform; intros ?). case_match; [|done].
      eapply stuck_err; [|apply (UpAsleep 250)]. unfold waits. by rewrite !List.filter_app, !last_app.
    - eapply stuck_err; [|done]. unfold waits in *. by rewrite List.filter_app, last_app. }
  destruct r as [|[[health detail]|error|]]; [by eapply stuck_err; [|constructor]| | |done].
  - destruct health; try (eapply stuck_err; [done|by constructor]); [done|eapply Hturn; [done|constructor]].
  - destruct (le_retryable error); [eapply Hturn; [done|constructor]|by eapply stuck_err; [|constructor]].
Qed.

Lemma wait_until_ready_stuck : stuck [] (wait_until_ready config request_id).
Proof. unfold wait_until_ready. apply stuck_perform. intros now. apply stuck_weaken, ready_loop_stuck. Qed.
End giving_up.

(** While waiting nothing but progress is reported, and the model is not run. *)
Definition is_progress (request_id : string) (event : BrokerEvent) : Prop :=
  exists state detail, event = BeProgress V request_id state detail.
Definition waiting (request_id : string) (e : event bcall) : Prop := not_run e /\ Forall (is_progress request_id) (emitted_by e).

Lemma waiting_all request_id t : Forall (waiting request_id) t -> Forall not_run t /\ Forall (is_progress request_id) (emitted t).
Proof.
  induction 1 as [|e t [Hn Hp] _ [IHn IHp]]; [by split|]. split; [by constructor|]. cbn. by apply Forall_app.
Qed.

Lemma ready_loop_waiting request_id fuel deadline : emits (waiting request_id) (ready_loop fuel request_id deadline).
Proof.
  assert (forall state detail, emits (waiting request_id) (pause request_id state detail)) as Hpause.
  { intros state detail. unfold pause, emit. emits_tac; (split; [done|]); repeat constructor. by eexists _, _. }
  induction fuel as [|fuel IH]; cbn [ready_loop]; [apply emits_lift|].
  emits_tac; auto; by repeat constructor.
Qed.

Lemma wait_until_ready_waiting request_id : emits (waiting request_id) (wait_until_ready config request_id).
Proof. unfold wait_until_ready. apply emits_bind; [apply emits_perform; by repeat constructor|]. intros. apply ready_loop_waiting. Qed.

(** *** Replies of the environment *)

Section truthful.
Context (env : environment bcall).

(** The reply is one the environment gives. *)
Definition truthful (e : event bcall) : Prop := exists h, ev_reply e = env h _ (ev_call e).
Definition tells {S E A} (m : eff bcall S E A) : Prop := forall h s, Forall truthful (trace (m env h s)).

Lemma tells_lift {S E A} (r : result E A) : tells (S := S) (lift r).
Proof. intros h s. constructor. Qed.

Lemma tells_ret {S E A} (a : A) : tells (S := S) (E := E) (mret a).
Proof. intros h s. constructor. Qed.

Lemma tells_perform {S E A} (c : bcall A) : tells (S := S) (E := E) (perform c).
Proof. intros h s. repeat constructor. by exists h. Qed.

Lemma tells_bind {S E A B} (m : eff bcall S E A) (k : A -> eff bcall S E B) : tells m -> (forall a, tells (k a)) -> tells (m ≫= k).
Proof.
  intros Hm Hk h s. destruct (run_bind_cases m k env h s) as [(a & _ & ->)|(_ & -> & _)]; [|apply Hm].
  apply Forall_app. split; [apply Hm|apply Hk].
Qed.

Lemma tells_attempt {S E F A} (m : eff bcall S E A) : tells m -> tells (attempt (F := F) m).
Proof. intros Hm h s. unfold attempt. destruct (value (m env h s)) eqn:Hv; rewrite ?Hv; apply Hm. Qed.

Ltac tells_tac :=
  repeat (first [apply tells_lift | apply tells_ret | apply tells_perform | apply tells_attempt
                | apply tells_bind; [|intros ?] | case_match | progress unfold send_error, send_llama_error, send_cancelled, pause, emit]).

Lemma run_chat_tells request_id messages tools max_tokens : tells (run_chat config request_id messages tools max_tokens).
Proof.
  assert (forall fuel deadline, tells (ready_loop fuel request_id deadline)) as Hloop.
  { induction fuel as [|fuel IH]; intros deadline; cbn [ready_loop]; tells_tac; apply IH. }
  assert (forall deltas, tells (emit_deltas request_id deltas)) as Hdeltas.
  { induction deltas; cbn [emit_deltas]; tells_tac; done. }
  unfold run_chat, wait_until_ready. tells_tac; auto.
Qed.
End truthful.

(** *** The answer *)

Section server.
Context (env : environment bcall) (env_ticks : ticks env) (env_calm : calm_broker env).
Context (timeout_nonneg : 0 <= bc_backend_connect_timeout_ms config) (request_id : string).
Context (messages : list BrokerMessage) (tools : list BrokerTool) (max_tokens : u32).
Abbreviation call := (LlamaChat request_id messages tools max_tokens).

Definition answered_after (past : list (event bcall)) (o : outcome bcall unit Empty_set unit) : Prop :=
  value o = Ok tt /\ exists progress texts last,
    emitted (trace o) = progress ++ map (BeDelta V request_id) texts ++ [last] /\
    Forall (is_progress request_id) progress /\ ending request_id call (past ++ trace o) texts last.

(** After the calls [past] the chat is answered. *)
Definition answers (past : list (event bcall)) (m : eff bcall unit Empty_set unit) : Prop := forall h, answered_after past (m env h tt).

Lemma answers_after {A} past (m : eff bcall unit Empty_set A) (k : A -> eff bcall unit Empty_set unit) :
  (forall h, exists a, value (m env h tt) = Ok a /\ Forall (is_progress request_id) (emitted (trace (m env h tt))) /\
     answers (past ++ trace (m env h tt)) (k a)) -> answers past (m ≫= k).
Proof.
  intros Hm h. destruct (Hm h) as (a & Ha & Hp & Hk). unfold answered_after, mbind, eff_bind. rewrite Ha. cbn [value trace].
  destruct (final (m env h tt)). destruct (Hk (h ++ trace (m env h tt))) as (Hv & progress & texts & last & He & Hp' & Hend).
  split; [done|]. exists (emitted (trace (m env h tt)) ++ progress), texts, last. unfold emitted in *. rewrite bind_app, He, <-!app_assoc.
  split; [done|]. split; [by apply Forall_app|]. by rewrite <-app_assoc in Hend.
Qed.

Lemma answers_perform {A} past (c : bcall A) (k : A -> eff bcall unit Empty_set unit) :
  (forall r, Forall (is_progress request_id) (emitted_by (Event A c r))) ->
  (forall r, calm_broker_reply c r -> answers (past ++ [Event A c r]) (k r)) -> answers past (perform c ≫= k).
Proof.
  intros Hp Hk. apply answers_after. intros h. exists (env h A c). split; [done|]. cbn. rewrite app_nil_r. split; [apply Hp|].
  apply Hk, env_calm.
Qed.

Lemma answers_last past event : (forall r, ending request_id call (past ++ [Event unit (Emit event) r]) [] event) -> answers past (emit event).
Proof.
  intros He h. unfold answered_after, emit, perform. cbn [value trace]. split; [by destruct (env h unit (Emit event))|].
  exists [], [], event. by split; [|split; [constructor|]].
Qed.

(** The failure of a chat that has relayed [texts]. *)
Lemma failure_run past error h :
  let o := (cancelled ← perform BIsCancelled;
            if cancelled : bool then send_cancelled request_id else send_llama_error request_id error : eff bcall unit Empty_set unit) env h tt in
  value o = Ok tt /\ exists event, emitted (trace o) = [event] /\ Forall not_run (trace o) /\ waits (trace o) = [] /\
    failed request_id (past ++ trace o) error event.
Proof.
  cbn zeta. unfold send_cancelled, send_llama_error, send_error, emit, mbind, eff_bind, perform. cbn [value trace final].
  destruct (env h bool BIsCancelled) eqn:Ec; cbn [value trace final];
    match goal with |- context [Emit ?event] => set (last := event) end;
    (split; [by match goal with |- Ok ?u = _ => destruct u end|]);
    exists last; (split; [done|]); (split; [by repeat constructor|]); (split; [done|]).
  - apply FailedCancelled. apply elem_of_app. right. left.
  - apply FailedReported; [apply elem_of_app; right; left|]. eexists. split; [done|]. by destruct (le_kind error).
Qed.

Lemma answers_unready past error wait :
  last (waits past) = Some wait -> gives_up wait error -> Forall not_run past ->
  answers past (cancelled ← perform BIsCancelled;
    if cancelled : bool then send_cancelled request_id else send_llama_error request_id error).
Proof.
  intros Hl Hg Hn h. destruct (failure_run past error h) as (Hv & event & He & Hq & Hw & Hf).
  split; [done|]. exists [], [], event. split; [done|]. split; [constructor|].
  eapply EndUnready; [|done|by apply Forall_app|done]. unfold waits in *. by rewrite List.filter_app, Hw, app_nil_r.
Qed.

Lemma emit_deltas_run deltas h :
  let o := emit_deltas request_id deltas env h tt in
  value o = Ok tt /\ emitted (trace o) = map (BeDelta V request_id) deltas.
Proof.
  revert h. induction deltas as [|d deltas IH]; intros h; [done|]. cbn [emit_deltas].
  specialize (IH (h ++ [Event unit (Emit (BeDelta V request_id d)) (env h unit (Emit (BeDelta V request_id d)))])).
  unfold mbind, eff_bind, emit, perform. cbn [value trace final]. cbn zeta in IH. destruct IH as [Hv He].
  split; [done|]. unfold emitted in *. rewrite bind_app, He. done.
Qed.

(** What the last part of [run_chat] does with the run [run] of the model. *)
Lemma answers_run past run (k : eff bcall unit Empty_set unit) :
  (forall h t, exists event, value (k env h tt) = Ok tt /\ emitted (trace (k env h tt)) = [event] /\
     ending request_id call ((past ++ t) ++ trace (k env h tt)) (lr_deltas run) event) ->
  answers past (emit_deltas request_id (lr_deltas run);; k).
Proof.
  intros Hk h. destruct (emit_deltas_run (lr_deltas run) h) as [Hv He].
  unfold answered_after, mbind, eff_bind. rewrite Hv. cbn [value trace]. destruct (final (emit_deltas _ _ env h tt)).
  set (t := trace (emit_deltas request_id (lr_deltas run) env h tt)) in *.
  destruct (Hk (h ++ t) t) as (event & Hv' & He' & Hend). split; [done|]. exists [], (lr_deltas run), event.
  unfold emitted in *. rewrite bind_app, He, He'. split; [done|]. split; [constructor|]. by rewrite app_assoc.
Qed.

Lemma run_chat_answers : answers [] (run_chat config request_id messages tools max_tokens).
Proof.
  unfold run_chat. apply answers_perform; [intros; constructor|]. intros [|error|] Hacq; [| |done].
  2:{ destruct error; apply answers_last; intros; (constructor || by apply EndRefused; [left|..]);
        first [left|by repeat constructor]. }
  apply answers_perform; [intros; repeat constructor; by eexists _, _|]. intros started _. apply answers_after. intros h.
  pose proof (wait_until_ready_total env env_ticks env_calm config request_id h timeout_nonneg) as Hok.
  pose proof (wait_until_ready_waiting request_id env h tt) as [Hn Hp]%waiting_all.
  pose proof (stuck_weaken env [Event _ Acquire (Ok tt); Event _ (Emit (BeProgress V request_id "starting" "Local AI starting")) started]
    _ (wait_until_ready_stuck env request_id) h) as Hstuck.
  unfold attempt. destruct (wait_until_ready config request_id env h tt) as [t [] r]. cbn [value trace final] in *.
  destruct r as [[]|error|]; [| |done]; eexists; (split; [done|]); (split; [done|]).
  2:{ destruct (Hstuck error eq_refl) as (wait & Hl & Hg). eapply answers_unready; [exact Hl|done|].
      apply Forall_app. by repeat constructor. }
  apply answers_perform; [intros; repeat constructor; by eexists _, _|]. intros ready _.
  apply answers_perform; [intros; constructor|]. intros run Hrun. apply answers_run. intros h' t'.
  set (past := _ ++ [Event LlamaRun call run]) in *. assert (Event _ call run ∈ past) as Hin by (apply elem_of_app; right; left).
  clearbody past. destruct (lr_result run) as [[output|error|]|] eqn:Hr; [| |done|].
  - destruct (lo_tool_calls output) as [|c calls] eqn:Hcalls; eexists; (split; [unfold emit, perform; cbn [value]; by match goal with |- Ok ?u = _ => destruct u end|]); (split; [done|]).
    + eapply EndComplete; [|done..]. set_solver.
    + rewrite <-Hcalls. eapply EndCalls; [|done|by rewrite Hcalls]. set_solver.
  - destruct (failure_run (past ++ t') error h') as (Hv & event & He & _ & _ & Hf). exists event. split; [done|]. split; [done|].
    eapply EndFailed; [|done|done]. set_solver.
  - unfold send_error, emit, mbind, eff_bind, perform. cbn [value trace final]. eexists.
    split; [by match goal with |- Ok ?u = _ => destruct u end|]. split; [done|].
    eapply (EndTimedOut _ _ _ run); [set_solver|done|apply elem_of_app; right; left].
Qed.
End server.

(** What a run of the client lets the server relay. *)
Lemma run_of_client request_id messages tools max_tokens lenv lh run :
  run_of (chat from_slice from_str to_vec config request_id messages tools max_tokens lenv lh tt) run ->
  (forall content, content ∈ lr_deltas run -> 0 < len content) /\
  (forall output, lr_result run = Some (Ok output) ->
     Forall (valid_call from_str) (lo_tool_calls output) /\
     (lo_tool_calls output = [] -> exists content, 0 < len content /\ content ∈ lr_deltas run)).
Proof.
  pose proof (chat_sends from_slice from_str to_vec config request_id messages tools max_tokens lenv lh tt) as Hs.
  pose proof (chat_complete from_slice from_str to_vec config request_id messages tools max_tokens lenv lh tt) as Hc.
  generalize dependent (chat from_slice from_str to_vec config request_id messages tools max_tokens lenv lh tt).
  intros o Hs Hc [|k]; cbn [lr_deltas lr_result]; (split; [intros content|intros output]).
  - by apply accepted_nonempty with (request_id := request_id).
  - intros [= Ho]. destruct (Hc output Ho) as [Ha Hv]. split; [done|]. intros Hn.
    destruct Ha as [Ha|Ha]; [by eapply answered_accepted|done].
  - apply accepted_nonempty with (request_id := request_id). by apply Forall_take.
  - done.
Qed.

(** C31 A local chat is answered, and its client can tell a whole answer from any other.  With a
    clock that advances during sleeps the chat returns, after progress, the texts of the
    model's run in order and one last event.  No text is empty.  The last event is the completion of
    a run that ended without tool calls, and comes after at least one text; the calls of a
    run that ended with some, each valid; an error event; or the cancellation.  An error
    says why: the queue was full, the model was given up while it was not ready, its run
    failed, or the run took too long.  The cancellation takes the place of an error only
    when the request was cancelled, and a run that failed or timed out never ends without
    one or the other. *)
Theorem local_answers_are_complete env request_id messages tools max_tokens h :
  served_by_client env -> ticks env -> calm_broker env -> 0 <= bc_backend_connect_timeout_ms config ->
  let o := run_chat config request_id messages tools max_tokens env h tt in
  value o = Ok tt /\ exists progress texts last,
    emitted (trace o) = progress ++ map (BeDelta V request_id) texts ++ [last] /\
    Forall (is_progress request_id) progress /\ Forall (fun content => 0 < len content) texts /\
    ending request_id (LlamaChat request_id messages tools max_tokens) (trace o) texts last /\
    match last with
    | BeComplete _ _ _ => texts <> []
    | BeToolCalls _ _ calls => calls <> [] /\ Forall (valid_call from_str) calls
    | BeCancelled _ _ _ | BeError _ _ _ _ => True
    | _ => False
    end.
Proof.
  intros Henv Ht Hc Hp. destruct (run_chat_answers env Ht Hc Hp request_id messages tools max_tokens h)
    as (Hv & progress & texts & last & He & Hpr & Hend). split; [done|]. exists progress, texts, last.
  split; [done|]. split; [done|]. cbn [app] in Hend.
  assert (forall run, Event _ (LlamaChat request_id messages tools max_tokens) run ∈
      trace (run_chat config request_id messages tools max_tokens env h tt) -> Forall (fun content => 0 < len content) (lr_deltas run) /\
    forall output, lr_result run = Some (Ok output) -> Forall (valid_call from_str) (lo_tool_calls output) /\
      (lo_tool_calls output = [] -> lr_deltas run <> [])) as Hclient.
  { intros run Hin. pose proof (run_chat_tells env request_id messages tools max_tokens h tt) as Htells.
    rewrite Forall_forall in Htells. destruct (Htells _ Hin) as (h' & Heq). cbn in Heq. subst run. destruct (Henv h' request_id messages tools max_tokens) as (lenv & lh & Hrun).
    apply run_of_client in Hrun as [Hd Ho]. split; [by apply Forall_forall|]. intros output Hout. destruct (Ho output Hout) as [Hvalid Hn].
    split; [done|]. intros (content & _ & Helem)%Hn. by destruct (lr_deltas _); [apply not_elem_of_nil in Helem|]. }
  split; [|split; [done|]].
  - destruct Hend; [constructor..|apply (Hclient run); done|apply (Hclient run); done|apply (Hclient run); done|apply (Hclient run); done].
  - destruct Hend as [| |wait error event _ _ _ Hf|run output Hin Ho Hn|run output Hin Ho Hn|run error event _ _ Hf|]; [done|done| | | | |done].
    + by destruct Hf as [|event _ (code & -> & _)].
    + by apply (Hclient run Hin) in Ho as [_ Hd]; apply Hd.
    + split; [done|]. by apply (Hclient run Hin).
    + by destruct Hf as [|event' _ (code & -> & _)].
Qed.
End composition.

(** ** An example: the server with the client of [demo_env] *)

Definition demo_run (request_id : string) (messages : list BrokerMessage) (tools : list BrokerTool) (max_tokens : u32)
  : LlamaRun :=
  let o := @chat demo_texts demo_parse demo_parse (fun _ => Ok "{}") BrokerConfig_default request_id messages tools
             max_tokens demo_env [] tt in
  {| lr_deltas := accepted (trace o); lr_result := Some (value o) |}.

(** For another chat its run is dropped before it starts. *)
Definition demo_backend : environment bcall := fun h A c =>
  match c in bcall A return A with
  | LlamaChat request_id messages tools max_tokens =>
      if bool_decide ((request_id, max_tokens) = ("request-1"%string, 64)) then
        match messages, tools with [], [] => demo_run "request-1" [] [] 64 | _, _ => {| lr_deltas := []; lr_result := None |} end
      else {| lr_deltas := []; lr_result := None |}
  | c => demo_model h _ c
  end.

Lemma demo_backend_serves : @served_by_client demo_texts demo_parse demo_parse (fun _ => Ok "{}"%string) BrokerConfig_default demo_backend.
Proof.
  intros h request_id messages tools max_tokens. exists demo_env, [].
  pose proof (fun o => run_dropped o 0%nat) as Hdropped. cbn [demo_backend].
  destruct (bool_decide_reflect ((request_id, max_tokens) = ("request-1"%string, 64))) as [[= -> ->]|]; [|apply Hdropped].
  destruct messages, tools; [apply run_complete|apply Hdropped..].
Qed.

Lemma demo_backend_calm : calm_broker demo_backend.
Proof.
  intros h A c. destruct c as [| | | | |request_id messages tools max_tokens| | | |]; try done. cbn [calm_broker_reply demo_backend].
  destruct (bool_decide _); [|done]. destruct messages, tools; [|done..]. by vm_compute.
Qed.

Lemma local_answers_are_complete_witness : exists progress texts last,
  emitted (trace (run_chat BrokerConfig_default "request-1" [] [] 64 demo_backend [] tt))
    = progress ++ map (BeDelta V "request-1") texts ++ [last] /\ Forall (fun content => 0 < len content) texts.
Proof.
  destruct (@local_answers_are_complete demo_texts demo_parse demo_parse (fun _ => Ok "{}"%string) BrokerConfig_default
    demo_backend "request-1" [] [] 64 []) as (_ & progress & texts & last & He & _ & Hn & _).
  - apply demo_backend_serves.
  - intros h. apply Z.le_refl.
  - apply demo_backend_calm.
  - cbn. lia.
  - exists progress, texts, last. split; [exact He|exact Hn].
Defined.
