(* ===== verification/WorkerProtocol.v ===== *)
(** * The provider worker's protocol
    (crates/sentia-providers/src/error.rs, protocol.rs, integration.rs)

    A remote provider is served by a worker process of its own.  The router side sends
    typed commands and reads typed events, one JSON line each.  [serde_json] on commands and
    events is a parameter.  An [f32] is its value as a float. *)

From Stdlib Require Import Ascii String.
From S2P Require Import Prelude RustStr RustFloat.

(** ** error.rs *)

Inductive ProviderErrorKind :=
| KNetwork | KDns | KAuthentication | KAuthenticationExpired | KQuota | KUnsupportedCapability
| KTimeout | KCancelled | KMalformedResponse | KProcessFailure | KInvalidRequest.

#[global] Instance ProviderErrorKind_eq_dec : EqDecision ProviderErrorKind.
Proof. solve_decision. Defined.

Record ProviderError := MkProviderError {
  pe_kind : ProviderErrorKind;
  pe_code : string;
  pe_message : string;
  pe_retryable : bool;
}.

#[global] Instance ProviderError_eq_dec : EqDecision ProviderError.
Proof. solve_decision. Defined.

Definition ProviderError_new := MkProviderError.
Definition ProviderError_invalid (code message : string) : ProviderError :=
  ProviderError_new KInvalidRequest code message false.
Definition ProviderError_unsupported (code message : string) : ProviderError :=
  ProviderError_new KUnsupportedCapability code message false.
Definition ProviderError_malformed (code : string) : ProviderError :=
  ProviderError_new KMalformedResponse code
    "The provider returned a response that did not match the reviewed contract." false.
Definition ProviderError_process (code message : string) : ProviderError :=
  ProviderError_new KProcessFailure code message false.

Definition ProviderError_fmt (e : ProviderError) : string := pe_code e +:+ ": " +:+ pe_message e.

(** ** protocol.rs *)

Definition PROTOCOL_VERSION : u16 := 1.
Definition MAX_COMMAND_BYTES : usize := 1100000.
Definition MAX_TEXT_BYTES : usize := 1048576.
Definition MAX_RESPONSE_BYTES : usize := 4 * 1048576.
Definition DEFAULT_TIMEOUT_MS : u64 := 60000.
Definition MAX_TIMEOUT_MS : u64 := 300000.

Inductive ProviderId := OpenAi | Anthropic | Gemini | Xai | DeepSeek.

#[global] Instance ProviderId_eq_dec : EqDecision ProviderId.
Proof. solve_decision. Defined.

Definition ProviderId_ALL : list ProviderId := [OpenAi; Anthropic; Gemini; Xai; DeepSeek].

Definition ProviderId_as_str (p : ProviderId) : string :=
  match p with
  | OpenAi => "openai"
  | Anthropic => "anthropic"
  | Gemini => "gemini"
  | Xai => "xai"
  | DeepSeek => "deepseek"
  end.

Definition ProviderId_from_str (value : string) : result ProviderError ProviderId :=
  if String.eqb value "openai" then Ok OpenAi
  else if String.eqb value "anthropic" then Ok Anthropic
  else if String.eqb value "gemini" then Ok Gemini
  else if String.eqb value "xai" then Ok Xai
  else if String.eqb value "deepseek" then Ok DeepSeek
  else Err (ProviderError_invalid "unknown_provider" "The provider name is not supported.").

Inductive Role := User | Assistant.

Record Message := { ms_role : Role; ms_content : string }.

Record InferenceRequest := {
  ir_request_id : string;
  ir_provider : ProviderId;
  ir_model : string;
  ir_system : option string;
  ir_messages : list Message;
  ir_max_output_tokens : u32;
  ir_temperature : option f64;
  ir_timeout_ms : option u64;
  ir_stream : bool;
}.

Definition request_id_byte (c : ascii) : bool := is_ascii_alphanumeric c || one_of "-_." c.
Definition model_byte (c : ascii) : bool := is_ascii_alphanumeric c || one_of "-_.:" c.

Definition validate_request_id (request_id : string) : result ProviderError unit :=
  if is_empty request_id || (128 <? len request_id) || negb (bytes_all request_id_byte request_id)
  then Err (ProviderError_invalid "invalid_request_id" "request_id must be 1-128 safe ASCII characters.")
  else Ok tt.

(** The loop over the messages: the total length of the text. *)
Fixpoint validate_messages (total_text : usize) (messages : list Message) : result ProviderError usize :=
  match messages with
  | [] => Ok total_text
  | message :: rest =>
      fail_if (is_empty (ms_content message) || (262144 <? len (ms_content message)))
        (ProviderError_invalid "invalid_message_content" "Each message must contain 1-262144 bytes of text.");;
      validate_messages (saturating_add USIZE_MAX total_text (len (ms_content message))) rest
  end.

Definition is_finite (x : f64) : bool :=
  match x with SpecFloat.S754_nan | SpecFloat.S754_infinity _ => false | _ => true end.

(** The checks of [validate], in its order. *)
Definition check_model (model : string) : result ProviderError unit :=
  fail_if (is_empty model || (200 <? len model) || negb (bytes_all model_byte model))
    (ProviderError_invalid "invalid_model" "model must be a configured, non-empty provider model identifier.").

Definition check_message_count (messages : list Message) : result ProviderError unit :=
  fail_if (match messages with [] => true | _ => false end || (128 <? vlen messages))
    (ProviderError_invalid "invalid_messages" "messages must contain between 1 and 128 text messages.").

Definition check_temperature (temperature : option f64) : result ProviderError unit :=
  match temperature with
  | Some temperature =>
      fail_if (negb (is_finite temperature) || negb ((of_Z 0 <=? temperature)%f64 && (temperature <=? of_Z 2)%f64))
        (ProviderError_invalid "invalid_temperature" "temperature must be finite and between 0 and 2.")
  | None => Ok tt
  end.

Definition check_timeout (timeout_ms : option u64) : result ProviderError unit :=
  match timeout_ms with
  | Some timeout_ms =>
      fail_if (negb ((100 <=? timeout_ms) && (timeout_ms <=? MAX_TIMEOUT_MS)))
        (ProviderError_invalid "invalid_timeout" "timeout_ms must be between 100 and 300000.")
  | None => Ok tt
  end.

Definition InferenceRequest_validate (self : InferenceRequest) : result ProviderError unit :=
  validate_request_id (ir_request_id self);;
  check_model (ir_model self);;
  check_message_count (ir_messages self);;
  total_text ← validate_messages (match ir_system self with Some system => len system | None => 0 end)
                 (ir_messages self);
  fail_if (MAX_TEXT_BYTES <? total_text)
    (ProviderError_invalid "request_too_large" "The sanitized request text exceeds the worker limit.");;
  fail_if (negb ((1 <=? ir_max_output_tokens self) && (ir_max_output_tokens self <=? 65536)))
    (ProviderError_invalid "invalid_max_output_tokens" "max_output_tokens must be between 1 and 65536.");;
  check_temperature (ir_temperature self);;
  check_timeout (ir_timeout_ms self);;
  fail_if (ir_stream self)
    (ProviderError_unsupported "streaming_not_enabled" "Remote streaming is not enabled in protocol version 1.").

(** In milliseconds. *)
Definition InferenceRequest_timeout (self : InferenceRequest) : u64 := default DEFAULT_TIMEOUT_MS (ir_timeout_ms self).

Inductive FinishReason := FinishStop | FinishLength | FinishRefusal | FinishIncomplete | FinishOther.

Record TokenUsage := {
  tu_input_tokens : option u64;
  tu_output_tokens : option u64;
  tu_total_tokens : option u64;
}.

Record InferenceResponse := {
  rs_provider : ProviderId;
  rs_requested_model : string;
  rs_text : string;
  rs_finish_reason : FinishReason;
  rs_incomplete : bool;
  rs_usage : option TokenUsage;
}.

Inductive ApiBilling := SeparatelyBilledApiUsage.
Inductive ConsumerSubscription := NotAnApiBillingEntitlement.
Inductive ProviderVerification := OfficialDocsAndOfflineFixturesOnly.

Record ProviderCapabilities := {
  cp_provider : ProviderId;
  cp_remote_egress : bool;
  cp_requires_router_consent : bool;
  cp_privacy_classification : bool;
  cp_text_generation : bool;
  cp_streaming : bool;
  cp_cancellation : bool;
  cp_tool_calls : bool;
  cp_server_state_requested : bool;
  cp_max_input_bytes : u32;
  cp_max_response_bytes : u32;
  cp_live_tested : bool;
  cp_enabled_by_default : bool;
  cp_billing : ApiBilling;
  cp_consumer_subscription : ConsumerSubscription;
  cp_verification : ProviderVerification;
}.

Definition ProviderCapabilities_for_provider (provider : ProviderId) : ProviderCapabilities :=
  {| cp_provider := provider; cp_remote_egress := true; cp_requires_router_consent := true;
     cp_privacy_classification := false; cp_text_generation := true; cp_streaming := false;
     cp_cancellation := true; cp_tool_calls := false; cp_server_state_requested := false;
     cp_max_input_bytes := MAX_COMMAND_BYTES; cp_max_response_bytes := MAX_RESPONSE_BYTES;
     cp_live_tested := false; cp_enabled_by_default := false; cp_billing := SeparatelyBilledApiUsage;
     cp_consumer_subscription := NotAnApiBillingEntitlement;
     cp_verification := OfficialDocsAndOfflineFixturesOnly |}.

Inductive WorkerCommand :=
| WcInfer (protocol_version : u16) (request : InferenceRequest)
| WcCancel (protocol_version : u16) (request_id : string).

Definition WorkerCommand_protocol_version (c : WorkerCommand) : u16 :=
  match c with WcInfer v _ | WcCancel v _ => v end.

Inductive WorkerEvent :=
| WeReady (protocol_version : u16) (capabilities : ProviderCapabilities)
| WeStarted (protocol_version : u16) (request_id : string)
| WeCompleted (protocol_version : u16) (request_id : string) (response : InferenceResponse)
| WeError (protocol_version : u16) (request_id : option string) (error : ProviderError).

(** ** integration.rs *)

Definition unsupported_version : ProviderError :=
  ProviderError_unsupported "unsupported_protocol_version" "The worker protocol version is not supported.".

(** The trait [ProviderWorkerIntegration]: what the router asks of a worker's transport. *)
Class ProviderWorkerIntegration (T : Type) := {
  provider_of : T -> ProviderId;
  capabilities : T -> ProviderCapabilities := fun self => ProviderCapabilities_for_provider (provider_of self);
  inference_command : T -> InferenceRequest -> result ProviderError WorkerCommand;
  cancellation_command : T -> string -> result ProviderError WorkerCommand;
  encode_command : T -> WorkerCommand -> result ProviderError string;
  decode_event : T -> string -> result ProviderError WorkerEvent;
}.

Record JsonLineProviderIntegration := { jl_provider : ProviderId }.

Section integration.
Context (command_to_string : WorkerCommand -> option string) (event_from_str : string -> option WorkerEvent).

Definition json_inference_command (self : JsonLineProviderIntegration) (request : InferenceRequest)
  : result ProviderError WorkerCommand :=
  InferenceRequest_validate request;;
  fail_if (negb (bool_decide (ir_provider request = jl_provider self)))
    (ProviderError_invalid "provider_mismatch" "The request provider does not match this integration.");;
  Ok (WcInfer PROTOCOL_VERSION request).

Definition json_cancellation_command (self : JsonLineProviderIntegration) (request_id : string)
  : result ProviderError WorkerCommand :=
  validate_request_id request_id;;
  Ok (WcCancel PROTOCOL_VERSION request_id).

Definition json_encode_command (self : JsonLineProviderIntegration) (command : WorkerCommand)
  : result ProviderError string :=
  fail_if (negb (WorkerCommand_protocol_version command =? PROTOCOL_VERSION)) unsupported_version;;
  ok_or (command_to_string command)
    (ProviderError_process "command_encoding_failed" "The provider command could not be encoded.").

Definition event_version (event : WorkerEvent) : u16 :=
  match event with WeReady v _ | WeStarted v _ | WeCompleted v _ _ | WeError v _ _ => v end.

Definition json_decode_event (self : JsonLineProviderIntegration) (line : string)
  : result ProviderError WorkerEvent :=
  event ← ok_or (event_from_str line)
            (ProviderError_new KMalformedResponse "invalid_worker_event"
               "The provider worker returned invalid protocol JSON." false);
  fail_if (negb (event_version event =? PROTOCOL_VERSION)) unsupported_version;;
  Ok event.

#[global] Instance json_line_integration : ProviderWorkerIntegration JsonLineProviderIntegration := {
  provider_of := jl_provider;
  inference_command := json_inference_command;
  cancellation_command := json_cancellation_command;
  encode_command := json_encode_command;
  decode_event := json_decode_event;
}.
End integration.

(** ** What a valid request is *)

Fixpoint text_total (messages : list Message) : Z :=
  match messages with [] => 0 | m :: rest => len (ms_content m) + text_total rest end.

Record request_bounds (r : InferenceRequest) : Prop := {
  rb_id : 1 <= len (ir_request_id r) <= 128 /\ bytes_all request_id_byte (ir_request_id r) = true;
  rb_model : 1 <= len (ir_model r) <= 200 /\ bytes_all model_byte (ir_model r) = true;
  rb_messages : 1 <= vlen (ir_messages r) <= 128;
  rb_message : Forall (fun m => 1 <= len (ms_content m) <= 262144) (ir_messages r);
  rb_total : len (default EmptyString (ir_system r)) + text_total (ir_messages r) <= MAX_TEXT_BYTES;
  rb_tokens : 1 <= ir_max_output_tokens r <= 65536;
  rb_temperature : forall t, ir_temperature r = Some t ->
    is_finite t = true /\ (of_Z 0 <=? t)%f64 = true /\ (t <=? of_Z 2)%f64 = true;
  rb_timeout : 100 <= InferenceRequest_timeout r <= MAX_TIMEOUT_MS;
  rb_stream : ir_stream r = false;
}.

Lemma text_total_nonneg messages : 0 <= text_total messages.
Proof. induction messages as [|m messages IH]; cbn [text_total]; [lia|]. pose proof (len_nonneg (ms_content m)). lia. Qed.

Lemma validate_message_Ok m u :
  fail_if (is_empty (ms_content m) || (262144 <? len (ms_content m)))
    (ProviderError_invalid "invalid_message_content" "Each message must contain 1-262144 bytes of text.") = Ok u
  <-> 1 <= len (ms_content m) <= 262144.
Proof. rewrite fail_if_Ok, orb_false_iff, is_empty_false, Z.ltb_ge. lia. Qed.

(** The sum saturates, which no comparison with the limit notices. *)
Lemma validate_messages_Ok total messages : 0 <= total ->
  (exists t, validate_messages total messages = Ok t /\ (MAX_TEXT_BYTES <? t) = false) <->
  Forall (fun m => 1 <= len (ms_content m) <= 262144) messages /\ total + text_total messages <= MAX_TEXT_BYTES.
Proof.
  revert total. induction messages as [|m messages IH]; intros total Ht; cbn [validate_messages text_total].
  { split; [intros (t & [= <-] & Hm); zbool; split; [constructor|lia]|].
    intros [_ Hm]. exists total. split; [done|]. apply Z.ltb_ge. lia. }
  pose proof (len_nonneg (ms_content m)). pose proof (text_total_nonneg messages) as Hn.
  specialize (IH (saturating_add USIZE_MAX total (len (ms_content m)))).
  unfold saturating_add, USIZE_MAX, U64_MAX, MAX_TEXT_BYTES in *. rewrite Forall_cons. split.
  - intros (t & (u & Hu & Hv)%bind_Ok & Hm). apply validate_message_Ok in Hu.
    destruct IH as [[Hf Hs] _]; [lia|eauto|]. split; [done|lia].
  - intros [[Hm Hf] Hs]. destruct IH as [_ (t & Hv & Hl)]; [lia|split; [done|lia]|].
    exists t. split; [|done]. apply bind_Ok. exists tt. split; [by apply validate_message_Ok|done].
Qed.

Lemma validate_request_id_Ok id u :
  validate_request_id id = Ok u <-> 1 <= len id <= 128 /\ bytes_all request_id_byte id = true.
Proof.
  destruct u. unfold validate_request_id.
  destruct (is_empty id) eqn:He; [apply is_empty_true in He; subst; split; [done|by intros [[] _]]|].
  apply is_empty_false in He. destruct (Z.ltb_spec 128 (len id)); cbn; [split; [done|lia]|].
  destruct (bytes_all _ _); cbn; split; try done; [|by intros []]. intros _. split; [lia|done].
Qed.

Lemma check_temperature_Ok o u :
  check_temperature o = Ok u <->
  forall t, o = Some t -> is_finite t = true /\ (of_Z 0 <=? t)%f64 = true /\ (t <=? of_Z 2)%f64 = true.
Proof.
  unfold check_temperature. destruct u, o as [t|]; [|done].
  rewrite fail_if_Ok, orb_false_iff, !negb_false_iff, andb_true_iff. split; [by intros H t' [= <-]|auto].
Qed.

Lemma check_timeout_Ok o u : check_timeout o = Ok u <-> 100 <= default DEFAULT_TIMEOUT_MS o <= MAX_TIMEOUT_MS.
Proof.
  unfold check_timeout, MAX_TIMEOUT_MS, DEFAULT_TIMEOUT_MS. destruct u, o as [x|]; cbn [default]; [|split; [|done]; cbn; lia].
  rewrite fail_if_Ok, negb_false_iff, andb_true_iff, !Z.leb_le. done.
Qed.

Lemma check_model_Ok model u :
  check_model model = Ok u <-> 1 <= len model <= 200 /\ bytes_all model_byte model = true.
Proof.
  unfold check_model. rewrite fail_if_Ok, !orb_false_iff, is_empty_false, Z.ltb_ge, negb_false_iff. intuition lia.
Qed.

Lemma check_message_count_Ok l u : check_message_count l = Ok u <-> 1 <= vlen l <= 128.
Proof.
  unfold check_message_count. rewrite fail_if_Ok, orb_false_iff, Z.ltb_ge. unfold vlen.
  destruct l; cbn [length]; split; [by intros []|lia|intros []; lia|intros; split; [done|lia]].
Qed.

(** A worker accepts exactly the requests within the documented bounds: identifier,
    model, number and size of the messages, total text, tokens, temperature and deadline.
    The total cannot overflow. *)
Theorem valid_requests_are_bounded request :
  InferenceRequest_validate request = Ok tt <-> request_bounds request.
Proof.
  unfold InferenceRequest_validate.
  assert (0 <= match ir_system request with Some system => len system | None => 0 end) as H0
    by (destruct (ir_system request); [apply len_nonneg|lia]).
  assert (match ir_system request with Some system => len system | None => 0 end
          = len (default EmptyString (ir_system request))) as Hsys by (by destruct (ir_system request)).
  pose proof (validate_messages_Ok _ (ir_messages request) H0) as Hmsgs. rewrite Hsys in Hmsgs, H0 |- *. clear Hsys.
  split.
  - intros (? & Hid%validate_request_id_Ok & (? & Hmodel%check_model_Ok & (? & Hn%check_message_count_Ok & (t & Ht & Hr)%bind_Ok)%bind_Ok)%bind_Ok)%bind_Ok.
    apply bind_Ok in Hr as (? & Hl%fail_if_Ok & (? & Htok%fail_if_Ok & (? & Htemp & (? & Htime%check_timeout_Ok & Hs%fail_if_Ok)%bind_Ok)%bind_Ok)%bind_Ok).
    destruct Hmsgs as [[Hf Hsum] _]; [by eauto|]. pose proof (proj1 (check_temperature_Ok _ _) Htemp). inv_result. zbool.
    by constructor.
  - intros [Hid Hmodel Hn Hf Hsum Htok Htemp Htime Hs].
    destruct Hmsgs as [_ (t & Ht & Hl)]; [done|].
    rewrite (proj2 (validate_request_id_Ok _ tt) Hid). cbn. rewrite (proj2 (check_model_Ok _ tt) Hmodel). cbn.
    rewrite (proj2 (check_message_count_Ok _ tt) Hn). cbn. rewrite Ht. cbn. rewrite Hl. cbn.
    rewrite !(proj2 (Z.leb_le _ _)) by lia. cbn. rewrite (proj2 (check_temperature_Ok _ tt) Htemp). cbn.
    rewrite (proj2 (check_timeout_Ok _ tt) Htime). cbn. by rewrite Hs.
Qed.
