(* ===== verification/ProviderAdapters.v ===== *)
(** * Provider adapters (crates/sentia-providers/src/adapter/*.rs)

    One adapter per provider: it turns an inference request into one HTTPS request and the
    body of the answer into text.  A reqwest request is its URL, headers and JSON body;
    building it parses the URL ([build]).  [from_slice] is [serde_json::from_slice],
    [json_f32] is [json!] of a float, [header_ok] is what [HeaderValue::from_bytes]
    accepts. *)

From Stdlib Require Import Ascii String.
From S2P Require Import Prelude RustStr RustText Contract RustFloat WorkerProtocol.

(** ** HTTP requests *)

Record HeaderValue := { hv_bytes : string; hv_sensitive : bool }.
Abbreviation HeaderMap := (list (string * HeaderValue)) (only parsing).

(** [HeaderValue::from_static] *)
Definition from_static (value : string) : HeaderValue := {| hv_bytes := value; hv_sensitive := false |}.

Record HttpRequest := { rq_url : string; rq_headers : list (string * HeaderValue); rq_body : Value }.

(** The accessors of [url::Url]; [port] is [None] for the default port of the scheme. *)
Record Url := {
  url_scheme : string;
  url_username : string;
  url_password : option string;
  url_host_str : option string;
  url_port : option u16;
  url_path : string;
  url_query : option string;
  url_fragment : option string;
}.

Record BuiltRequest := { br_request : HttpRequest; br_url : Url }.

(** What an adapter returns, and the trait [ProviderAdapter]. *)
Record ParsedResponse := {
  pr_text : string;
  pr_finish_reason : FinishReason;
  pr_incomplete : bool;
  pr_usage : option TokenUsage;
}.

Record ProviderAdapter := {
  ad_provider : ProviderId;
  ad_build_request : InferenceRequest -> string -> result ProviderError BuiltRequest;
  ad_parse_success : string -> result ProviderError ParsedResponse;
  ad_parse_error : u16 -> string -> ProviderError;
}.

(** ** adapter/mod.rs *)

Definition ADAPTER_USER_AGENT : string := "sentia-provider-worker/0.1".

Definition json_headers : HeaderMap :=
  bt_of [("content-type", from_static "application/json"); ("accept", from_static "application/json")]%string.

Definition authentication_header_error : ProviderError :=
  ProviderError_new KAuthentication "invalid_credential"
    "The provider credential cannot be represented as an HTTP header." false.

Definition token_usage (input output total : option u64) : option TokenUsage :=
  match input, output, total with
  | None, None, None => None
  | _, _, _ => Some {| tu_input_tokens := input; tu_output_tokens := output; tu_total_tokens := total |}
  end.

Definition role_name (role : Role) : string := match role with User => "user" | Assistant => "assistant" end.

Definition any_of (s : string) (l : list string) : bool := existsb (String.eqb s) l.

Definition finish_reason (value : option string) (incomplete : bool) : FinishReason :=
  if incomplete then FinishIncomplete
  else
    let reason := to_ascii_lowercase (default EmptyString value) in
    if any_of reason ["stop"; "end_turn"; "stop_sequence"; "complete"; "completed"]%string then FinishStop
    else if any_of reason ["length"; "max_tokens"; "max_output_tokens"]%string then FinishLength
    else if any_of reason ["refusal"; "safety"; "content_filter"; "blocked"]%string then FinishRefusal
    else FinishOther.

Definition sanitize_code (value : string) : option string :=
  if is_empty value || (64 <? len value) || negb (bytes_all request_id_byte value) then None else Some value.

(** [value.pointer("/a/b")] on objects. *)
Definition pointer2 (value : Value) (a b : string) : option Value := x ← get value a; get x b.

Definition is_str (v : option Value) (s : string) : bool :=
  match v ≫= v_as_str with Some t => String.eqb t s | None => false end.

Section adapters.
Context (from_slice : string -> option Value) (json_f32 : f64 -> Value) (header_ok : string -> bool).
Context (build : HttpRequest -> option Url).

Definition bearer_header (secret : string) : result ProviderError HeaderValue :=
  let value := "Bearer " +:+ secret in
  fail_if (negb (header_ok value)) authentication_header_error;;
  Ok {| hv_bytes := value; hv_sensitive := true |}.

Definition api_key_header (secret : string) : result ProviderError HeaderValue :=
  fail_if (negb (header_ok secret)) authentication_header_error;;
  Ok {| hv_bytes := secret; hv_sensitive := true |}.

Definition insert_bearer (headers : HeaderMap) (secret : string) : result ProviderError (list (string * HeaderValue)) :=
  header ← bearer_header secret;
  Ok (bt_insert "authorization" header headers).

Definition parse_json (body : string) : result ProviderError Value :=
  ok_or (from_slice body) (ProviderError_malformed "invalid_json").

Definition safe_vendor_code (body : string) : option string :=
  value ← from_slice body;
  code ← head (omap v_as_str (omap id [pointer2 value "error" "code"; pointer2 value "error" "type";
                                       get value "type"; pointer2 value "error" "status"]));
  sanitize_code code.

Definition classify_http_error (status : u16) (body : string) : ProviderError :=
  let code := default ("http_" +:+ show_uint status) (safe_vendor_code body) in
  let normalized_code := to_ascii_lowercase code in
  let expired := contains "expir" normalized_code
    || match value ← from_slice body; message ← pointer2 value "error" "message"; v_as_str message with
       | Some message => contains "expir" (to_ascii_lowercase message)
       | None => false
       end in
  let unsupported_model := contains "model" normalized_code
    && (contains "unsupported" normalized_code || contains "not_found" normalized_code
        || contains "deprecated" normalized_code) in
  if (status =? 401) && expired then
    ProviderError_new KAuthenticationExpired "authentication_expired" "The provider credential has expired." false
  else if (status =? 401) || (status =? 403) then
    ProviderError_new KAuthentication code "The provider rejected the credential or its permissions." false
  else if (status =? 402) || (status =? 429) then
    ProviderError_new KQuota code "The provider reported a billing, quota, or rate limit." (status =? 429)
  else if (status =? 408) || (status =? 504) then
    ProviderError_new KTimeout code "The provider timed out." true
  else if ((status =? 400) || (status =? 404)) && unsupported_model then
    ProviderError_new KUnsupportedCapability code
      "The provider does not support the configured model for this request." false
  else if (status =? 400) || (status =? 404) || (status =? 409) || (status =? 413) || (status =? 422) then
    ProviderError_new KInvalidRequest code "The provider rejected the configured model or request." false
  else if (500 <=? status) && (status <=? 599) then
    ProviderError_new KNetwork code "The provider service is temporarily unavailable." true
  else
    ProviderError_new KNetwork code "The provider returned an unexpected HTTP status." false.

(** [client.post(url).headers(headers).json(body).build()] *)
Definition build_post (url : string) (headers : HeaderMap) (body : Value) : result ProviderError BuiltRequest :=
  let request := {| rq_url := url; rq_headers := headers; rq_body := body |} in
  parsed ← ok_or (build request) (ProviderError_process "request_build_failed" "The request could not be built.");
  Ok {| br_request := request; br_url := parsed |}.

Definition with_user_agent (headers : HeaderMap) : list (string * HeaderValue) :=
  bt_insert "user-agent" (from_static ADAPTER_USER_AGENT) headers.

Definition role_message (message : Message) : Value :=
  object [("role", VString (role_name (ms_role message))); ("content", VString (ms_content message))]%string.

Definition system_message (system : option string) : list Value :=
  match system with
  | Some system => [object [("role", VString "system"); ("content", VString system)]%string]
  | None => []
  end.

(** [if let Some(x) = option { body.insert(key, ..) }] *)
Definition insert_some {A} (key : string) (value : A -> Value) (x : option A) (body : Value) : Value :=
  match x with Some a => set_key body key (value a) | None => body end.

Definition usage_field (usage : option Value) (key : string) : option u64 :=
  usage ← usage; field ← get usage key; v_as_u64 field.

Definition non_empty_text (text : string) : result ProviderError unit :=
  fail_if (is_empty text) (ProviderError_malformed "empty_text_output").

(** ** adapter/responses.rs *)

(** The blocks of a message: the text so far and whether it is a refusal. *)
Fixpoint response_blocks (text : string) (refusal : bool) (content : list Value)
  : result ProviderError (string * bool) :=
  match content with
  | [] => Ok (text, refusal)
  | block :: rest =>
      if is_str (get block "type") "output_text" then
        block_text ← ok_or (get block "text" ≫= v_as_str) (ProviderError_malformed "missing_output_text");
        response_blocks (text +:+ block_text) refusal rest
      else if is_str (get block "type") "refusal" then
        block_text ← ok_or ((match get block "refusal" with Some x => Some x | None => get block "text" end) ≫= v_as_str)
                       (ProviderError_malformed "missing_refusal_text");
        response_blocks (text +:+ block_text) true rest
      else Err (ProviderError_unsupported "provider_content_not_text" "The provider returned non-text content.")
  end.

Fixpoint response_items (text : string) (refusal : bool) (output : list Value)
  : result ProviderError (string * bool) :=
  match output with
  | [] => Ok (text, refusal)
  | item :: rest =>
      if is_str (get item "type") "reasoning" then response_items text refusal rest
      else if is_str (get item "type") "message" then
        fail_if (negb (is_str (get item "role") "assistant")) (ProviderError_malformed "unexpected_message_role");;
        content ← ok_or (get item "content" ≫= v_as_array) (ProviderError_malformed "missing_message_content");
        '(text, refusal) ← response_blocks text refusal content;
        response_items text refusal rest
      else Err (ProviderError_unsupported "provider_tool_or_unknown_output"
                  "The provider returned a tool call or unsupported output item.")
  end.

Definition responses_parse (body : string) : result ProviderError ParsedResponse :=
  value ← parse_json body;
  fail_if (negb (is_str (get value "object") "response")) (ProviderError_malformed "unexpected_object");;
  status ← ok_or (get value "status" ≫= v_as_str) (ProviderError_malformed "missing_status");
  fail_if (negb (any_of status ["completed"; "incomplete"]%string)) (ProviderError_malformed "unexpected_response_status");;
  let incomplete := String.eqb status "incomplete" in
  output ← ok_or (get value "output" ≫= v_as_array) (ProviderError_malformed "missing_output");
  '(text, refusal) ← response_items EmptyString false output;
  non_empty_text text;;
  let usage := get value "usage" in
  let reason := default status (pointer2 value "incomplete_details" "reason" ≫= v_as_str) in
  Ok {| pr_text := text;
        pr_finish_reason := if refusal : bool then FinishRefusal else finish_reason (Some reason) incomplete;
        pr_incomplete := incomplete;
        pr_usage := token_usage (usage_field usage "input_tokens") (usage_field usage "output_tokens")
                      (usage_field usage "total_tokens") |}.

(** ** adapter/openai.rs *)

Definition openai_build_request (request : InferenceRequest) (credential : string) : result ProviderError BuiltRequest :=
  headers ← insert_bearer json_headers credential;
  let body := object [("model", VString (ir_model request)); ("input", VArray (map role_message (ir_messages request)));
    ("max_output_tokens", VNumber (NInt (ir_max_output_tokens request))); ("store", VBool false);
    ("stream", VBool false); ("tools", VArray []); ("tool_choice", VString "none")]%string in
  let body := insert_some "instructions" VString (ir_system request) body in
  let body := insert_some "temperature" json_f32 (ir_temperature request) body in
  build_post "https://api.openai.com/v1/responses" (with_user_agent headers) body.

Definition OpenAiAdapter : ProviderAdapter :=
  {| ad_provider := OpenAi; ad_build_request := openai_build_request; ad_parse_success := responses_parse;
     ad_parse_error := classify_http_error |}.

(** ** adapter/xai.rs *)

Definition xai_build_request (request : InferenceRequest) (credential : string) : result ProviderError BuiltRequest :=
  headers ← insert_bearer json_headers credential;
  let input := system_message (ir_system request) ++ map role_message (ir_messages request) in
  let body := object [("model", VString (ir_model request)); ("input", VArray input);
    ("max_output_tokens", VNumber (NInt (ir_max_output_tokens request))); ("store", VBool false);
    ("stream", VBool false); ("tools", VArray []); ("tool_choice", VString "none");
    ("search_parameters", object [("mode", VString "off")])]%string in
  let body := insert_some "temperature" json_f32 (ir_temperature request) body in
  build_post "https://api.x.ai/v1/responses" (with_user_agent headers) body.

Definition XaiAdapter : ProviderAdapter :=
  {| ad_provider := Xai; ad_build_request := xai_build_request; ad_parse_success := responses_parse;
     ad_parse_error := classify_http_error |}.

(** ** adapter/anthropic.rs *)

Definition anthropic_build_request (request : InferenceRequest) (credential : string)
  : result ProviderError BuiltRequest :=
  fail_if (match ir_temperature request with Some value => (of_Z 1 <? value)%f64 | None => false end)
    (ProviderError_invalid "invalid_temperature" "Anthropic Messages accepts temperature values between 0 and 1.");;
  key ← api_key_header credential;
  let headers := bt_insert "x-api-key" key json_headers in
  let headers := bt_insert "anthropic-version" (from_static "2023-06-01") headers in
  let body := object [("model", VString (ir_model request)); ("messages", VArray (map role_message (ir_messages request)));
    ("max_tokens", VNumber (NInt (ir_max_output_tokens request))); ("stream", VBool false)]%string in
  let body := insert_some "system" VString (ir_system request) body in
  let body := insert_some "temperature" json_f32 (ir_temperature request) body in
  build_post "https://api.anthropic.com/v1/messages" (with_user_agent headers) body.

Fixpoint anthropic_blocks (text : string) (content : list Value) : result ProviderError string :=
  match content with
  | [] => Ok text
  | block :: rest =>
      if is_str (get block "type") "text" then
        block_text ← ok_or (get block "text" ≫= v_as_str) (ProviderError_malformed "missing_text");
        anthropic_blocks (text +:+ block_text) rest
      else if is_str (get block "type") "thinking" || is_str (get block "type") "redacted_thinking" then
        anthropic_blocks text rest
      else Err (ProviderError_unsupported "provider_tool_or_unknown_output"
                  "The provider returned a tool call or unsupported content block.")
  end.

Definition anthropic_parse_success (body : string) : result ProviderError ParsedResponse :=
  value ← parse_json body;
  fail_if (negb (is_str (get value "type") "message") || negb (is_str (get value "role") "assistant"))
    (ProviderError_malformed "unexpected_message_envelope");;
  content ← ok_or (get value "content" ≫= v_as_array) (ProviderError_malformed "missing_content");
  text ← anthropic_blocks EmptyString content;
  non_empty_text text;;
  let usage := get value "usage" in
  Ok {| pr_text := text; pr_finish_reason := finish_reason (get value "stop_reason" ≫= v_as_str) false;
        pr_incomplete := false;
        pr_usage := token_usage (usage_field usage "input_tokens") (usage_field usage "output_tokens") None |}.

Definition AnthropicAdapter : ProviderAdapter :=
  {| ad_provider := Anthropic; ad_build_request := anthropic_build_request;
     ad_parse_success := anthropic_parse_success; ad_parse_error := classify_http_error |}.

(** ** adapter/gemini.rs *)

Definition gemini_part (text : string) : Value := VArray [object [("text", VString text)]%string].

Definition gemini_message (message : Message) : Value :=
  object [("role", VString (match ms_role message with User => "user" | Assistant => "model" end));
          ("parts", gemini_part (ms_content message))]%string.

Definition gemini_build_request (request : InferenceRequest) (credential : string) : result ProviderError BuiltRequest :=
  key ← api_key_header credential;
  let headers := bt_insert "x-goog-api-key" key json_headers in
  let generation_config := object [("maxOutputTokens", VNumber (NInt (ir_max_output_tokens request)))]%string in
  let generation_config := insert_some "temperature" json_f32 (ir_temperature request) generation_config in
  let body := object [("contents", VArray (map gemini_message (ir_messages request)));
                      ("generationConfig", generation_config)]%string in
  let body := insert_some "system_instruction" (fun system => object [("parts", gemini_part system)]%string)
                (ir_system request) body in
  build_post ("https://generativelanguage.googleapis.com/v1beta/models/" +:+ ir_model request +:+ ":generateContent")
    (with_user_agent headers) body.

Fixpoint gemini_parts (text : string) (parts : list Value) : result ProviderError string :=
  match parts with
  | [] => Ok text
  | part :: rest =>
      match get part "thought" ≫= v_as_bool with
      | Some true => gemini_parts text rest
      | _ =>
          match get part "text" ≫= v_as_str with
          | Some part_text => gemini_parts (text +:+ part_text) rest
          | None => Err (ProviderError_unsupported "provider_tool_or_non_text_output"
                           "The provider returned a tool call or non-text output.")
          end
      end
  end.

Definition gemini_parse_success (body : string) : result ProviderError ParsedResponse :=
  value ← parse_json body;
  candidates ← ok_or (get value "candidates" ≫= v_as_array)
    (match pointer2 value "promptFeedback" "blockReason" with
     | Some _ => ProviderError_unsupported "provider_blocked_prompt"
                   "The provider declined to generate text for this request."
     | None => ProviderError_malformed "missing_candidates"
     end);
  match candidates with
  | [candidate] =>
      parts ← ok_or (pointer2 candidate "content" "parts" ≫= v_as_array) (ProviderError_malformed "missing_content_parts");
      text ← gemini_parts EmptyString parts;
      non_empty_text text;;
      let usage := get value "usageMetadata" in
      Ok {| pr_text := text; pr_finish_reason := finish_reason (get candidate "finishReason" ≫= v_as_str) false;
            pr_incomplete := false;
            pr_usage := token_usage (usage_field usage "promptTokenCount") (usage_field usage "candidatesTokenCount")
                          (usage_field usage "totalTokenCount") |}
  | _ => Err (ProviderError_malformed "unexpected_candidate_count")
  end.

Definition GeminiAdapter : ProviderAdapter :=
  {| ad_provider := Gemini; ad_build_request := gemini_build_request; ad_parse_success := gemini_parse_success;
     ad_parse_error := classify_http_error |}.

(** ** adapter/deepseek.rs *)

Definition deepseek_build_request (request : InferenceRequest) (credential : string)
  : result ProviderError BuiltRequest :=
  headers ← insert_bearer json_headers credential;
  let messages := system_message (ir_system request) ++ map role_message (ir_messages request) in
  let body := object [("model", VString (ir_model request)); ("messages", VArray messages);
    ("max_tokens", VNumber (NInt (ir_max_output_tokens request))); ("stream", VBool false)]%string in
  let body := insert_some "temperature" json_f32 (ir_temperature request) body in
  build_post "https://api.deepseek.com/chat/completions" (with_user_agent headers) body.

Definition deepseek_parse_success (body : string) : result ProviderError ParsedResponse :=
  value ← parse_json body;
  fail_if (negb (is_str (get value "object") "chat.completion")) (ProviderError_malformed "unexpected_object");;
  choices ← ok_or (get value "choices" ≫= v_as_array) (ProviderError_malformed "missing_choices");
  match choices with
  | [choice] =>
      message ← ok_or (get choice "message") (ProviderError_malformed "missing_message");
      fail_if (negb (is_str (get message "role") "assistant")) (ProviderError_malformed "unexpected_message_role");;
      fail_if (match get message "tool_calls" ≫= v_as_array with Some (_ :: _) => true | _ => false end)
        (ProviderError_unsupported "provider_tool_output"
           "The provider returned a tool call even though tools were not requested.");;
      text ← ok_or (get message "content" ≫= v_as_str) (ProviderError_malformed "empty_text_output");
      non_empty_text text;;
      let usage := get value "usage" in
      Ok {| pr_text := text; pr_finish_reason := finish_reason (get choice "finish_reason" ≫= v_as_str) false;
            pr_incomplete := false;
            pr_usage := token_usage (usage_field usage "prompt_tokens") (usage_field usage "completion_tokens")
                          (usage_field usage "total_tokens") |}
  | _ => Err (ProviderError_malformed "unexpected_choice_count")
  end.

Definition DeepSeekAdapter : ProviderAdapter :=
  {| ad_provider := DeepSeek; ad_build_request := deepseek_build_request;
     ad_parse_success := deepseek_parse_success; ad_parse_error := classify_http_error |}.

Definition for_provider (provider : ProviderId) : ProviderAdapter :=
  match provider with
  | OpenAi => OpenAiAdapter
  | Anthropic => AnthropicAdapter
  | Gemini => GeminiAdapter
  | Xai => XaiAdapter
  | DeepSeek => DeepSeekAdapter
  end.
End adapters.
