(* ===== verification/ProviderAnswers.v ===== *)
(** * Which answers of a provider are accepted

    What a provider's answer says, as relations on its JSON, and the proof that the parsers
    of the adapters accept exactly the answers that consist of text. *)

From Stdlib Require Import Ascii String.
From S2P Require Import Prelude RustStr RustText Contract RustFloat WorkerProtocol ProviderAdapters.

Definition typed (v : Value) (t : string) : Prop := is_str (get v "type") t = true.

Inductive response_block : Value -> string -> Prop :=
| rb_text block t : typed block "output_text" -> get block "text" = Some (VString t) -> response_block block t
| rb_refusal block t : typed block "refusal" -> get block "refusal" = Some (VString t) -> response_block block t
| rb_refusal_text block t :
    typed block "refusal" -> get block "refusal" = None -> get block "text" = Some (VString t) -> response_block block t.

Inductive response_item : Value -> string -> Prop :=
| ri_reasoning item : typed item "reasoning" -> response_item item EmptyString
| ri_message item content texts :
    typed item "message" -> is_str (get item "role") "assistant" = true -> get item "content" = Some (VArray content) ->
    Forall2 response_block content texts -> response_item item (sconcat texts).

Inductive anthropic_block : Value -> string -> Prop :=
| ab_text block t : typed block "text" -> get block "text" = Some (VString t) -> anthropic_block block t
| ab_thinking block : typed block "thinking" -> anthropic_block block EmptyString
| ab_redacted block : typed block "redacted_thinking" -> anthropic_block block EmptyString.

Inductive gemini_text : Value -> string -> Prop :=
| gt_thought part : get part "thought" = Some (VBool true) -> gemini_text part EmptyString
| gt_text part t : get part "thought" <> Some (VBool true) -> get part "text" = Some (VString t) -> gemini_text part t.

(** The answer [value] of a provider consists of [texts] and nothing else: no tool call and
    no content that is not text. *)
Definition answers (provider : ProviderId) (value : Value) (texts : list string) : Prop :=
  match provider with
  | OpenAi | Xai =>
      is_str (get value "object") "response" = true /\
      (is_str (get value "status") "completed" = true \/ is_str (get value "status") "incomplete" = true) /\
      exists items, get value "output" = Some (VArray items) /\ Forall2 response_item items texts
  | Anthropic =>
      typed value "message" /\ is_str (get value "role") "assistant" = true /\
      exists content, get value "content" = Some (VArray content) /\ Forall2 anthropic_block content texts
  | Gemini =>
      exists candidate parts, get value "candidates" = Some (VArray [candidate]) /\
        pointer2 candidate "content" "parts" = Some (VArray parts) /\ Forall2 gemini_text parts texts
  | DeepSeek =>
      is_str (get value "object") "chat.completion" = true /\
      exists choice message t, get value "choices" = Some (VArray [choice]) /\ get choice "message" = Some message /\
        is_str (get message "role") "assistant" = true /\
        (forall call calls, get message "tool_calls" <> Some (VArray (call :: calls))) /\
        get message "content" = Some (VString t) /\ texts = [t]
  end.

(** ** The fields of an answer *)

Lemma as_str_Some v t : v ≫= v_as_str = Some t <-> v = Some (VString t).
Proof. destruct v as [[]|]; cbn; naive_solver. Qed.

Lemma as_array_Some v l : v ≫= v_as_array = Some l <-> v = Some (VArray l).
Proof. destruct v as [[]|]; cbn; naive_solver. Qed.

Lemma as_bool_Some v b : v ≫= v_as_bool = Some b <-> v = Some (VBool b).
Proof. destruct v as [[]|]; cbn; naive_solver. Qed.

Lemma is_str_true v s : is_str v s = true <-> v = Some (VString s).
Proof.
  unfold is_str. destruct v as [[]|]; cbn; try naive_solver.
  destruct (String.eqb_spec s0 s); naive_solver.
Qed.

(** Rewrites with a field that is known. *)
Ltac known := cbn; repeat (match goal with H : get _ _ = _ |- _ => rewrite H end; cbn).

Ltac fields :=
  repeat match goal with
  | H : typed _ _ |- _ => unfold typed in H
  | H : is_str _ _ = true |- _ => apply is_str_true in H
  | H : _ ≫= v_as_str = Some _ |- _ => apply as_str_Some in H
  | H : _ ≫= v_as_array = Some _ |- _ => apply as_array_Some in H
  end.

(** ** Blocks *)

(** On [l], [parse] extends the text by what [R] says of each element. *)
Definition collects {A} (R : Value -> string -> Prop) (parse : string -> list Value -> result ProviderError A)
    (text_of : A -> string) (l : list Value) : Prop :=
  forall text,
    (forall a, parse text l = Ok a -> exists texts, Forall2 R l texts /\ text_of a = text +:+ sconcat texts) /\
    (forall texts, Forall2 R l texts -> exists a, parse text l = Ok a /\ text_of a = text +:+ sconcat texts).

Section collects.
Context {A : Type} (R : Value -> string -> Prop) (parse : string -> list Value -> result ProviderError A).
Context (text_of : A -> string).

Lemma collects_nil : (forall text, exists a, parse text [] = Ok a /\ text_of a = text) -> collects R parse text_of [].
Proof.
  intros Hp text. destruct (Hp text) as (a & Ha & Ht). rewrite Ha. split.
  - intros a' [= <-]. exists []. by rewrite Ht, app_empty_r.
  - intros texts ->%Forall2_nil_inv_l. exists a. by rewrite Ht, app_empty_r.
Qed.

(** The first element adds a text and the rest is parsed by some [rest], or it is refused. *)
Lemma collects_step v l :
  ((exists t, R v t /\ (forall t', R v t' -> t' = t) /\
      forall text, exists rest, collects R rest text_of l /\ parse text (v :: l) = rest (text +:+ t) l) \/
   ((forall t, ~ R v t) /\ forall text a, parse text (v :: l) <> Ok a)) ->
  collects R parse text_of (v :: l).
Proof.
  intros [(t & Hv & Hu & Hp)|[Hv Hp]] text.
  - destruct (Hp text) as (rest & Hrest & ->). destruct (Hrest (text +:+ t)) as [Hs Hc]. split.
    + intros a (texts & Hf & Ha)%Hs. exists (t :: texts). split; [by constructor|]. cbn. by rewrite Ha, str_app_assoc.
    + intros texts (t' & texts' & Ht' & Hf & ->)%Forall2_cons_inv_l. apply Hu in Ht' as ->.
      destruct (Hc _ Hf) as (a & Ha & Ht). exists a. split; [done|]. cbn. by rewrite Ht, str_app_assoc.
  - split; [by intros a ?%Hp|]. by intros texts (t' & texts' & ?%Hv & _)%Forall2_cons_inv_l.
Qed.

Lemma collects_cons (rest : string -> list Value -> result ProviderError A) v l :
  collects R rest text_of l ->
  ((exists t, R v t /\ (forall t', R v t' -> t' = t) /\ forall text, parse text (v :: l) = rest (text +:+ t) l) \/
   ((forall t, ~ R v t) /\ forall text a, parse text (v :: l) <> Ok a)) ->
  collects R parse text_of (v :: l).
Proof.
  intros Hrest [(t & Hv & Hu & Hp)|Hv]; apply collects_step; [left|by right].
  exists t. split; [done|]. split; [done|]. eauto.
Qed.

(** Two readings of the same list have the same text. *)
Lemma collects_unique l texts texts' :
  collects R parse text_of l -> Forall2 R l texts -> Forall2 R l texts' -> sconcat texts = sconcat texts'.
Proof.
  intros Hc H1 H2. destruct (proj2 (Hc EmptyString) _ H1) as (a & Ha & Ht).
  destruct (proj2 (Hc EmptyString) _ H2) as (a' & Ha' & Ht'). cbn in *. congruence.
Qed.
End collects.

(** Contradictory or equal fields. *)
Ltac clash :=
  fields; first [congruence
    | match goal with H : ?g ≫= _ = None, H' : ?g = Some _ |- _ => by rewrite H' in H end
    | match goal with H : is_str ?g ?s = false, H' : ?g = Some (VString ?s) |- _ => apply is_str_true in H'; congruence end
    | match goal with H : Some ?v ≫= _ = None, H1 : ?g = Some ?v, H2 : ?g = Some _ |- _ =>
        rewrite H2 in H1; injection H1 as <-; discriminate H end].

Ltac refused := right; split; [intros ? Hrel; inversion Hrel; subst; clash|done].
Ltac accepted t :=
  fields; left; exists t;
  split; [solve [econstructor 1; by (done || apply is_str_true) | econstructor 2; by (done || apply is_str_true)
                | econstructor 3; by (done || apply is_str_true)]|];
  split; [intros ? Hrel; inversion Hrel; subst; clash|intros ?; by rewrite ?app_empty_r].

Lemma response_blocks_collects l refusal :
  collects response_block (fun text l => response_blocks text refusal l) fst l.
Proof.
  revert refusal. induction l as [|block l IH]; intros refusal; [apply collects_nil; by eexists|].
  destruct (is_str (get block "type") "output_text") eqn:Ht.
  { eapply collects_cons; [apply (IH refusal)|]. cbn [response_blocks]. rewrite Ht. fields.
    destruct (get block "text" ≫= v_as_str) as [t|] eqn:Hb; fields; [accepted t|refused]. }
  eapply collects_cons; [apply (IH true)|]. cbn [response_blocks]. rewrite Ht.
  destruct (is_str (get block "type") "refusal") eqn:Hr; [|refused].
  destruct (get block "refusal") as [v|] eqn:Hv.
  - destruct (Some v ≫= v_as_str) as [t|] eqn:Hb; fields; [|refused]. injection Hb as ->. accepted t.
  - destruct (get block "text" ≫= v_as_str) as [t|] eqn:Hb; fields; [|refused].
    accepted t.
Qed.

Lemma response_items_collects l refusal :
  collects response_item (fun text l => response_items text refusal l) fst l.
Proof.
  revert refusal. induction l as [|item l IH]; intros refusal; [apply collects_nil; by eexists|].
  destruct (is_str (get item "type") "reasoning") eqn:Ht.
  { eapply collects_cons; [apply (IH refusal)|]. cbn [response_items]. rewrite Ht. accepted EmptyString. }
  apply collects_step. cbn [response_items]. rewrite Ht.
  destruct (is_str (get item "type") "message") eqn:Hm; [|refused].
  destruct (is_str (get item "role") "assistant") eqn:Hr; cbn; [|refused].
  destruct (get item "content" ≫= v_as_array) as [content|] eqn:Hc; cbn; [|refused]. fields.
  pose proof (response_blocks_collects content refusal) as Hblocks.
  assert ((exists texts, Forall2 response_block content texts) \/ forall texts, ~ Forall2 response_block content texts)
    as [[texts Htexts]|Hno].
  { destruct (response_blocks EmptyString refusal content) as [a| |] eqn:He;
      [destruct (proj1 (Hblocks EmptyString) _ He) as (texts & ? & _); eauto|right..];
      (intros texts Hf; destruct (proj2 (Hblocks EmptyString) _ Hf) as (a & Ha & _); congruence). }
  - left. exists (sconcat texts). split; [eapply ri_message; by (done || apply is_str_true)|]. split.
    + intros t Hrel. inversion Hrel; subst; [clash|]. fields. simplify_option_eq. by eapply collects_unique.
    + intros text. destruct (proj2 (Hblocks text) _ Htexts) as ([text' b] & Ha & Ht'). cbn in *.
      exists (fun text l => response_items text b l). split; [apply IH|]. by rewrite Ha; cbn; rewrite Ht'.
  - right. split.
    + intros t Hrel. inversion Hrel; subst; [clash|]. fields. simplify_option_eq. by eapply Hno.
    + intros text a Ha. inv_result. destruct (proj1 (Hblocks text) _ H) as (texts & Hf & _). by eapply Hno.
Qed.

Lemma anthropic_blocks_collects l : collects anthropic_block anthropic_blocks id l.
Proof.
  induction l as [|block l IH]; [apply collects_nil; by eexists|].
  eapply collects_cons; [exact IH|]. cbn [anthropic_blocks].
  destruct (is_str (get block "type") "text") eqn:Ht.
  { destruct (get block "text" ≫= v_as_str) as [t|] eqn:Hb; [accepted t|refused]. }
  destruct (is_str (get block "type") "thinking") eqn:Hr; cbn.
  { accepted EmptyString. }
  destruct (is_str (get block "type") "redacted_thinking") eqn:Hd; [|refused]. accepted EmptyString.
Qed.

Lemma gemini_parts_collects l : collects gemini_text gemini_parts id l.
Proof.
  induction l as [|part l IH]; [apply collects_nil; by eexists|].
  eapply collects_cons; [exact IH|]. cbn [gemini_parts].
  destruct (get part "thought" ≫= v_as_bool) as [[]|] eqn:Ht; [apply as_bool_Some in Ht; accepted EmptyString|..];
    (assert (get part "thought" <> Some (VBool true)) by (intros Hb; by rewrite Hb in Ht));
    (destruct (get part "text" ≫= v_as_str) as [t|] eqn:Hb; [accepted t|refused]).
Qed.

Section parsers.
Context (from_slice : string -> option Value) (json_f32 : f64 -> Value) (header_ok : string -> bool).
Context (build : HttpRequest -> option Url).
Abbreviation adapter := (for_provider from_slice json_f32 header_ok build).

Lemma non_empty_text_Ok text u : non_empty_text text = Ok u <-> 0 < len text.
Proof. unfold non_empty_text. by rewrite fail_if_Ok, is_empty_false. Qed.

(** The two directions for a list that [parse] collects. *)
Lemma collected {A R} {parse : string -> list Value -> result ProviderError A} {text_of l} a :
  collects R parse text_of l -> parse EmptyString l = Ok a ->
  exists texts, Forall2 R l texts /\ text_of a = sconcat texts.
Proof. intros Hc Ha. apply (Hc EmptyString) in Ha. done. Qed.

Lemma collectable {A R} {parse : string -> list Value -> result ProviderError A} {text_of l} texts :
  collects R parse text_of l -> Forall2 R l texts ->
  exists a, parse EmptyString l = Ok a /\ text_of a = sconcat texts.
Proof. intros Hc Ha. apply (Hc EmptyString) in Ha. done. Qed.

(** What a body says, if it is JSON. *)
Definition readable (provider : ProviderId) (body text : string) : Prop :=
  0 < len text /\ exists value texts, from_slice body = Some value /\ answers provider value texts /\
    text = sconcat texts.

Lemma responses_accepts body text :
  (exists parsed, responses_parse from_slice body = Ok parsed /\ pr_text parsed = text) <-> readable OpenAi body text.
Proof.
  unfold responses_parse, parse_json. cbv zeta. split.
  - intros (parsed & Hp & <-). inv_result.
    match goal with H : response_items _ _ _ = Ok ?a |- _ =>
      apply (collected _ (response_items_collects _ _)) in H as (texts & Hf & Ht); destruct a as [text refusal] end.
    inv_result. subst. cbn in Ht |- *. subst text. fields.
    match goal with H : non_empty_text _ = Ok _ |- _ => apply non_empty_text_Ok in H end.
    split; [done|]. do 2 eexists. split; [done|]. split; [|done]. split; [by apply is_str_true|]. split; [|eauto].
    rewrite !is_str_true. match goal with H : any_of _ _ = true, H' : get _ "status" = _ |- _ =>
      rewrite H'; cbn in H; rewrite orb_false_r in H; apply orb_true_iff in H as [H|H];
      apply String.eqb_eq in H as -> end; auto.
  - intros (Hn & value & texts & Hv & (Ho & Hs & items & Hi & Hf) & ->). rewrite Hv. cbn. rewrite Ho. cbn.
    apply non_empty_text_Ok with (u := tt) in Hn.
    destruct (collectable _ (response_items_collects items false) Hf) as ([t refusal] & Hp & Ht). cbn in Ht. subst t.
    rewrite !is_str_true in Hs. destruct Hs as [Hs|Hs]; rewrite Hs; cbn; rewrite Hi; cbn; rewrite Hp; cbn;
      rewrite Hn; cbn; eauto.
Qed.

(** The last steps of a parser. *)
Ltac conclude_forward :=
  inv_result; subst; cbn in *; subst; fields;
  match goal with H : non_empty_text _ = Ok _ |- _ => apply non_empty_text_Ok in H end;
  split; [done|]; do 2 eexists; split; [done|]; split; [|done].

Lemma anthropic_accepts body text :
  (exists parsed, anthropic_parse_success from_slice body = Ok parsed /\ pr_text parsed = text) <->
  readable Anthropic body text.
Proof.
  unfold anthropic_parse_success, parse_json. cbv zeta. split.
  - intros (parsed & Hp & <-). inv_result.
    match goal with H : anthropic_blocks _ _ = Ok ?a |- _ =>
      apply (collected _ (anthropic_blocks_collects _)) in H as (texts & Hf & Ht) end.
    conclude_forward. split; [by apply is_str_true|]. split; [by apply is_str_true|eauto].
  - intros (Hn & value & texts & Hv & (Ht & Hr & content & Hc & Hf) & ->). rewrite Hv. cbn. unfold typed in Ht.
    rewrite Ht, Hr. cbn. rewrite Hc. cbn.
    destruct (collectable _ (anthropic_blocks_collects content) Hf) as (t & Hp & Hs). cbn in Hs. subst t.
    rewrite Hp. cbn. apply non_empty_text_Ok with (u := tt) in Hn. rewrite Hn. cbn. eauto.
Qed.

Lemma gemini_accepts body text :
  (exists parsed, gemini_parse_success from_slice body = Ok parsed /\ pr_text parsed = text) <->
  readable Gemini body text.
Proof.
  unfold gemini_parse_success, parse_json. cbv zeta. split.
  - intros (parsed & Hp & <-). inv_result.
    match goal with H : (match ?l with [] => _ | _ => _ end) = Ok _ |- _ => destruct l as [|candidate []]; try done end.
    inv_result. match goal with H : gemini_parts _ _ = Ok ?a |- _ =>
      apply (collected _ (gemini_parts_collects _)) in H as (texts & Hf & Ht) end.
    conclude_forward. do 2 eexists. eauto.
  - intros (Hn & value & texts & Hv & (candidate & parts & Hc & Hp & Hf) & ->). rewrite Hv. cbn. rewrite Hc. cbn.
    rewrite Hp. cbn. destruct (collectable _ (gemini_parts_collects parts) Hf) as (t & Ht & Hs). cbn in Hs. subst t.
    rewrite Ht. cbn. apply non_empty_text_Ok with (u := tt) in Hn. rewrite Hn. cbn. eauto.
Qed.

Lemma deepseek_accepts body text :
  (exists parsed, deepseek_parse_success from_slice body = Ok parsed /\ pr_text parsed = text) <->
  readable DeepSeek body text.
Proof.
  unfold deepseek_parse_success, parse_json. cbv zeta. split.
  - intros (parsed & Hp & <-). inv_result.
    match goal with H : (match ?l with [] => _ | _ => _ end) = Ok _ |- _ => destruct l as [|choice []]; try done end.
    inv_result. subst. fields. match goal with H : non_empty_text ?t = Ok _ |- _ => apply non_empty_text_Ok in H end.
    split; [done|]. match goal with H : get ?m "content" = Some (VString ?t) |- _ => eexists _, [t] end.
    split; [done|]. split; [|cbn; by rewrite app_empty_r]. split; [by apply is_str_true|].
    do 3 eexists. repeat (split; [by (done || apply is_str_true)|]). split; [|by auto].
    intros call calls Ht. by match goal with H : (match _ with Some _ => _ | None => _ end) = false |- _ => rewrite Ht in H end.
  - intros (Hn & value & texts & Hv & (Ho & choice & message & t & Hc & Hm & Hr & Ht & Hx & ->) & ->).
    cbn in Hn |- *. rewrite app_empty_r in Hn |- *. rewrite Hv. cbn. rewrite Ho. cbn. rewrite Hc. cbn. rewrite Hm. cbn.
    rewrite Hr. cbn. apply non_empty_text_Ok with (u := tt) in Hn.
    destruct (get message "tool_calls") as [[]|] eqn:Htc; cbn;
      try (rewrite Hx; cbn; rewrite Hn; cbn; by eauto).
    destruct l as [|call calls]; [|by destruct (Ht call calls)]. cbn. rewrite Hx. cbn. rewrite Hn. cbn. eauto.
Qed.

(** C33 The worker accepts exactly the answers that are text: an adapter returns [text] for a
    body if and only if the body is an answer of its provider that consists of texts, without
    a tool call or any other content, and [text] is their concatenation and not empty. *)
Theorem only_text_is_accepted provider body text :
  (exists parsed, ad_parse_success (adapter provider) body = Ok parsed /\ pr_text parsed = text) <->
  (0 < len text /\ exists value texts, from_slice body = Some value /\ answers provider value texts /\
     text = sconcat texts).
Proof.
  destruct provider; cbn [ad_parse_success for_provider OpenAiAdapter AnthropicAdapter GeminiAdapter XaiAdapter
    DeepSeekAdapter]; [apply responses_accepts|apply anthropic_accepts|apply gemini_accepts|apply responses_accepts
    |apply deepseek_accepts].
Qed.
End parsers.
