(* ===== verification/ProviderWorker.v ===== *)
(** * The provider worker
    (crates/sentia-providers/src/credential.rs, transport.rs, worker.rs, bin/sentia-provider-worker.rs)

    [run_stdio] hardens the process, reads its credential from a descriptor and then serves
    commands, one inference at a time.  [infer] is the task of one request.  Contact with the
    machine, the network and the two pipes is a [psys] call; the overwriting of secrets in
    memory has no counterpart here. *)

From Stdlib Require Import Ascii String.
From S2P Require Import Prelude RustStr RustText Contract RustFloat Effects WorkerProtocol ProviderAdapters.

(** A [reqwest::Error]. *)
Record TransportError := { te_is_timeout : bool; te_text : string }.

(** A [reqwest::Response]: the two headers as text, when they are text, and the results of
    its byte stream. *)
Record HttpResponse := {
  hr_status : u16;
  hr_content_type : option string;
  hr_content_length : option string;
  hr_chunks : list (TransportError + string);
}.

(** What [select!] yields while a request is active: its task ended ([Panic]: the join
    failed), or a line of input ([None]: the end; [Some None]: the codec failed). *)
Inductive WorkerTurn :=
| TaskEnded (r : result ProviderError InferenceResponse)
| InputLine (line : option (option string)).

(** What [Client::builder] is told: the schemes, what to do with a redirect, the proxies, and
    the two timeouts. *)
Inductive RedirectPolicy := RedirectNone | RedirectDefault.
Record ClientOptions := {
  co_https_only : bool;
  co_redirect : RedirectPolicy;
  co_no_proxy : bool;
  co_connect_timeout_secs : u64;
  co_timeout_secs : u64;
}.

Inductive psys : Type -> Type :=
| Prctl (option arg : Z) : psys Z
| ReadCredential (limit : u64) : psys (option string)
| BuildClient (options : ClientOptions) : psys bool
| Execute (request : HttpRequest) : psys (TransportError + HttpResponse)
| DeadlinePassed : psys bool
| NextLine : psys (option (option string))
| NextTurn : psys WorkerTurn
| WriteLine (line : string) : psys bool
| SpawnTask (provider : ProviderId) (request : InferenceRequest) (credential : string) : psys unit
| AbortTask : psys unit.

Abbreviation peff := (eff psys unit ProviderError).

(** ** credential.rs *)

Definition PR_SET_DUMPABLE : Z := 4.
Definition PR_SET_PDEATHSIG : Z := 1.
Definition SIGKILL : Z := 9.
Definition MAX_CREDENTIAL_BYTES : u64 := 16384.

Definition harden_process : peff unit :=
  dumpable ← perform (Prctl PR_SET_DUMPABLE 0);
  lift (fail_if (negb (dumpable =? 0))
          (ProviderError_process "process_hardening_failed" "The worker could not disable process dumps."));;
  parent_death ← perform (Prctl PR_SET_PDEATHSIG SIGKILL);
  lift (fail_if (negb (parent_death =? 0))
          (ProviderError_process "process_hardening_failed" "The worker could not bind its lifetime to the launcher.")).

Definition NUL : ascii := ascii_of_N 0.
Definition line_end (c : ascii) : bool := Ascii.eqb c LF || Ascii.eqb c CR.

(** The checks of [read_inherited] on the bytes it read. *)
Definition check_credential (bytes : string) : result ProviderError string :=
  fail_if (MAX_CREDENTIAL_BYTES <? len bytes)
    (ProviderError_new KAuthentication "credential_too_large" "The provider credential exceeds the worker limit." false);;
  let bytes := trim_end_bytes line_end bytes in
  fail_if (is_empty bytes || negb (lacks NUL bytes) || negb (lacks LF bytes) || negb (lacks CR bytes))
    (ProviderError_new KAuthentication "invalid_credential"
       "The provider credential descriptor contained invalid data." false);;
  Ok bytes.

Definition read_inherited : peff string :=
  bytes ← perform (ReadCredential (MAX_CREDENTIAL_BYTES + 1));
  bytes ← lift (ok_or bytes (ProviderError_new KAuthentication "credential_unavailable"
                               "The provider credential descriptor could not be read." false));
  lift (check_credential bytes).

(** ** transport.rs *)

Definition transport_new : peff unit :=
  built ← perform (BuildClient {| co_https_only := true; co_redirect := RedirectNone; co_no_proxy := true;
                                  co_connect_timeout_secs := 5; co_timeout_secs := 300 |});
  lift (fail_if (negb built)
          (ProviderError_process "http_client_unavailable" "The HTTPS client could not be initialized.")).

Definition destination_error : ProviderError :=
  ProviderError_new KNetwork "destination_not_allowlisted" "The provider destination is not allowlisted." false.

Definition is_some {A} (o : option A) : bool := match o with Some _ => true | None => false end.

Definition host_is (url : Url) (host : string) : bool := bool_decide (url_host_str url = Some host).

Definition destination_allowed (provider : ProviderId) (url : Url) : bool :=
  match provider with
  | OpenAi => host_is url "api.openai.com" && String.eqb (url_path url) "/v1/responses"
  | Anthropic => host_is url "api.anthropic.com" && String.eqb (url_path url) "/v1/messages"
  | Gemini => host_is url "generativelanguage.googleapis.com" && starts_with "/v1beta/models/" (url_path url)
              && ends_with ":generateContent" (url_path url)
  | Xai => host_is url "api.x.ai" && String.eqb (url_path url) "/v1/responses"
  | DeepSeek => host_is url "api.deepseek.com" && String.eqb (url_path url) "/chat/completions"
  end.

Definition validate_destination (provider : ProviderId) (url : Url) : result ProviderError unit :=
  fail_if (negb (String.eqb (url_scheme url) "https") || is_some (url_port url)
           || negb (is_empty (url_username url)) || is_some (url_password url)
           || is_some (url_query url) || is_some (url_fragment url)) destination_error;;
  fail_if (negb (destination_allowed provider url)) destination_error.

Definition classify_transport_error (error : TransportError) : ProviderError :=
  if te_is_timeout error then
    ProviderError_new KTimeout "transport_timeout" "The HTTPS transport timed out." true
  else
    let internal := to_ascii_lowercase (te_text error) in
    if contains "dns" internal || contains "resolve" internal || contains "name or service not known" internal then
      ProviderError_new KDns "dns_failure" "The provider hostname could not be resolved." true
    else
      ProviderError_new KNetwork "network_failure" "The HTTPS connection to the provider failed." true.

Fixpoint read_chunks (body : string) (chunks : list (TransportError + string)) : result ProviderError string :=
  match chunks with
  | [] => Ok body
  | inl error :: _ => Err (classify_transport_error error)
  | inr chunk :: rest =>
      fail_if (MAX_RESPONSE_BYTES <? saturating_add USIZE_MAX (len body) (len chunk))
        (ProviderError_malformed "response_too_large");;
      read_chunks (body +:+ chunk) rest
  end.

Definition is_json (response : HttpResponse) : bool :=
  match hr_content_type response with
  | Some value =>
      match split_char ";" value with
      | mime :: _ => eq_ignore_ascii_case (trim mime) "application/json"
      | [] => false
      end
  | None => false
  end.

Definition request_timeout : ProviderError :=
  ProviderError_new KTimeout "request_timeout" "The provider request exceeded its configured deadline." true.

(** An await point under the deadline. *)
Definition before_deadline : peff unit :=
  passed ← perform DeadlinePassed;
  lift (fail_if passed request_timeout).

Definition read_bounded_body (response : HttpResponse) : peff string :=
  lift (fail_if (match value ← hr_content_length response; ok (from_str_radix false 0 USIZE_MAX 10 value) with
                 | Some length => MAX_RESPONSE_BYTES <? length
                 | None => false
                 end) (ProviderError_malformed "response_too_large"));;
  before_deadline;;
  lift (read_chunks EmptyString (hr_chunks response)).

(** The whole body: its type, then the adapter. *)
Definition parse_body (adapter : ProviderAdapter) (response : HttpResponse) (body : string)
  : result ProviderError ParsedResponse :=
  let status := hr_status response in
  if (200 <=? status) && (status <=? 299) then
    fail_if (negb (is_json response)) (ProviderError_malformed "unexpected_content_type");;
    ad_parse_success adapter body
  else Err (ad_parse_error adapter status body).

Definition infer (adapter : ProviderAdapter) (request : InferenceRequest) (credential : string)
  : peff InferenceResponse :=
  http_request ← lift (ad_build_request adapter request credential);
  lift (validate_destination (ad_provider adapter) (br_url http_request));;
  response ← perform (Execute (br_request http_request));
  before_deadline;;
  response ← lift (match response with inl error => Err (classify_transport_error error) | inr r => Ok r end);
  lift (fail_if ((300 <=? hr_status response) && (hr_status response <=? 399))
          (ProviderError_new KNetwork "unexpected_redirect" "The provider attempted an unexpected redirect." false));;
  body ← read_bounded_body response;
  parsed ← lift (parse_body adapter response body);
  mret {| rs_provider := ad_provider adapter; rs_requested_model := ir_model request; rs_text := pr_text parsed;
          rs_finish_reason := pr_finish_reason parsed; rs_incomplete := pr_incomplete parsed;
          rs_usage := pr_usage parsed |}.

(** ** worker.rs *)
Section worker.
Context (command_from_str : string -> option WorkerCommand) (event_to_string : WorkerEvent -> option string).

Definition write_event (event : WorkerEvent) : peff unit :=
  line ← lift (ok_or (event_to_string event)
           (ProviderError_process "response_encoding_failed" "The worker response could not be encoded."));
  sent ← perform (WriteLine line);
  lift (fail_if (negb sent)
          (ProviderError_process "response_write_failed" "The worker response channel closed.")).

Definition write_error (request_id : option string) (error : ProviderError) : peff unit :=
  write_event (WeError PROTOCOL_VERSION request_id error).

Definition decode_command (line : option string) : result ProviderError WorkerCommand :=
  line ← ok_or line (ProviderError_invalid "command_too_large"
                       "The worker command exceeded the protocol frame limit.");
  command ← ok_or (command_from_str line)
              (ProviderError_invalid "invalid_command" "The worker command was not valid protocol JSON.");
  fail_if (negb (WorkerCommand_protocol_version command =? PROTOCOL_VERSION)) unsupported_version;;
  match command with
  | WcCancel _ request_id => validate_request_id request_id
  | WcInfer _ _ => Ok tt
  end;;
  Ok command.

(** The identifier an error can name. *)
Definition safe_id (request_id : string) : option string :=
  if is_ok (validate_request_id request_id) then Some request_id else None.

(** The event of a task that ended. *)
Definition task_event (request_id : string) (r : result ProviderError InferenceResponse) : WorkerEvent :=
  match r with
  | Ok response => WeCompleted PROTOCOL_VERSION request_id response
  | Err error => WeError PROTOCOL_VERSION (Some request_id) error
  | Panic => WeError PROTOCOL_VERSION (Some request_id)
               (ProviderError_process "worker_task_failed" "The provider request task failed.")
  end.

Definition request_cancelled : ProviderError :=
  ProviderError_new KCancelled "cancelled" "The provider request was cancelled." false.
Definition worker_busy : ProviderError :=
  ProviderError_new KProcessFailure "worker_busy" "The provider worker already has an active request." true.

(** A turn of the loop: the request that is active afterwards, or the end of input. *)
Inductive LoopStep := Continue (active : option string) | Finished.

(** A command while [current] is active. *)
Definition busy_command (current : string) (line : option string) : peff LoopStep :=
  match decode_command line with
  | Err error => write_error None error;; mret (Continue (Some current))
  | Panic => lift Panic
  | Ok (WcCancel _ request_id) =>
      if String.eqb request_id current then
        perform AbortTask;;
        write_error (Some request_id) request_cancelled;;
        mret (Continue None)
      else
        write_error (Some request_id)
          (ProviderError_invalid "request_not_active" "The cancellation request did not match the active request.");;
        mret (Continue (Some current))
  | Ok (WcInfer _ request) =>
      write_error (safe_id (ir_request_id request)) worker_busy;;
      mret (Continue (Some current))
  end.

(** A command while no request is active. *)
Definition idle_command (provider : ProviderId) (credential : string) (line : option string) : peff LoopStep :=
  match decode_command line with
  | Err error => write_error None error;; mret (Continue None)
  | Panic => lift Panic
  | Ok (WcCancel _ request_id) =>
      write_error (Some request_id)
        (ProviderError_invalid "request_not_active" "There is no active provider request to cancel.");;
      mret (Continue None)
  | Ok (WcInfer _ request) =>
      match InferenceRequest_validate request with
      | Err error => write_error (safe_id (ir_request_id request)) error;; mret (Continue None)
      | Panic => lift Panic
      | Ok _ =>
          if negb (bool_decide (ir_provider request = provider)) then
            write_error (Some (ir_request_id request))
              (ProviderError_invalid "provider_mismatch" "The request provider does not match this worker.");;
            mret (Continue None)
          else
            write_event (WeStarted PROTOCOL_VERSION (ir_request_id request));;
            perform (SpawnTask provider request credential);;
            mret (Continue (Some (ir_request_id request)))
      end
  end.

Definition worker_turn (provider : ProviderId) (credential : string) (active : option string) : peff LoopStep :=
  match active with
  | Some current =>
      turn ← perform NextTurn;
      match turn with
      | TaskEnded r => write_event (task_event current r);; mret (Continue None)
      | InputLine None => perform AbortTask;; mret Finished
      | InputLine (Some line) => busy_command current line
      end
  | None =>
      line ← perform NextLine;
      match line with
      | None => mret Finished
      | Some line => idle_command provider credential line
      end
  end.

(** [turns] turns of the endless loop. *)
Fixpoint worker_loop (turns : nat) (provider : ProviderId) (credential : string) (active : option string)
  : peff unit :=
  match turns with
  | O => mret tt
  | S turns' =>
      next ← worker_turn provider credential active;
      match next with
      | Continue active => worker_loop turns' provider credential active
      | Finished => mret tt
      end
  end.

Definition run_stdio (turns : nat) (provider : ProviderId) : peff unit :=
  harden_process;;
  credential ← read_inherited;
  transport_new;;
  write_event (WeReady PROTOCOL_VERSION (ProviderCapabilities_for_provider provider));;
  worker_loop turns provider credential None.
End worker.

(** ** bin/sentia-provider-worker.rs *)

Inductive WorkerMode := ModeRun (provider : ProviderId) | ModeCapabilities (provider : ProviderId).

Fixpoint worker_args (provider : option ProviderId) (capabilities : bool) (arguments : list string)
  : result ProviderError (option ProviderId * bool) :=
  match arguments with
  | [] => Ok (provider, capabilities)
  | argument :: rest =>
      if String.eqb argument "--provider" then
        match rest with
        | [] => Err (ProviderError_invalid "missing_provider" "--provider requires a provider name.")
        | value :: rest' =>
            provider ← ProviderId_from_str value;
            worker_args (Some provider) capabilities rest'
        end
      else if String.eqb argument "--capabilities" then worker_args provider true rest
      else Err (ProviderError_invalid "invalid_argument" "Only --provider and --capabilities are accepted.")
  end.

Definition worker_parse_args (arguments : list string) : result ProviderError WorkerMode :=
  '(provider, capabilities) ← worker_args None false arguments;
  provider ← ok_or provider (ProviderError_invalid "missing_provider" "--provider is required.");
  Ok (if capabilities : bool then ModeCapabilities provider else ModeRun provider).
