(* ===== verification/ProviderSafety.v ===== *)
(** * What a provider worker promises

    Theorems about [infer] and [run_stdio] of [ProviderWorker] in every environment: where
    the credential goes, which answers are accepted, what an error discloses, and the
    protocol towards the router. *)

From Stdlib Require Import Ascii String.
From S2P Require Import Prelude RustStr RustText Contract RustFloat Effects Monitor WorkerProtocol ProviderAdapters ProviderWorker.

(** ** Where a request goes *)

Definition endpoint (provider : ProviderId) (model : string) : string :=
  match provider with
  | OpenAi => "https://api.openai.com/v1/responses"
  | Anthropic => "https://api.anthropic.com/v1/messages"
  | Gemini => "https://generativelanguage.googleapis.com/v1beta/models/" +:+ model +:+ ":generateContent"
  | Xai => "https://api.x.ai/v1/responses"
  | DeepSeek => "https://api.deepseek.com/chat/completions"
  end.

Definition host_of (provider : ProviderId) : string :=
  match provider with
  | OpenAi => "api.openai.com"
  | Anthropic => "api.anthropic.com"
  | Gemini => "generativelanguage.googleapis.com"
  | Xai => "api.x.ai"
  | DeepSeek => "api.deepseek.com"
  end.

(** The headers of a request: fixed ones, and one with the credential that is never
    printed. *)
Definition secret_header (value : string) : HeaderValue := {| hv_bytes := value; hv_sensitive := true |}.
Definition provider_headers (provider : ProviderId) (credential : string) : list (string * HeaderValue) :=
  let json := from_static "application/json" in
  let agent := ("user-agent"%string, from_static "sentia-provider-worker/0.1") in
  match provider with
  | OpenAi | Xai | DeepSeek =>
      [("accept"%string, json); ("authorization"%string, secret_header ("Bearer " +:+ credential));
       ("content-type"%string, json); agent]
  | Anthropic =>
      [("accept"%string, json); ("anthropic-version"%string, from_static "2023-06-01"); ("content-type"%string, json);
       agent; ("x-api-key"%string, secret_header credential)]
  | Gemini =>
      [("accept"%string, json); ("content-type"%string, json); agent; ("x-goog-api-key"%string, secret_header credential)]
  end.

(** A URL without anything that could redirect the credential. *)
Record plain_https (provider : ProviderId) (url : Url) : Prop := {
  ph_scheme : url_scheme url = "https"%string;
  ph_host : url_host_str url = Some (host_of provider);
  ph_port : url_port url = None;
  ph_user : url_username url = EmptyString;
  ph_password : url_password url = None;
  ph_query : url_query url = None;
  ph_fragment : url_fragment url = None;
}.

(** Neither tools nor streaming nor stored state is asked for. *)
Record modest_body (body : Value) : Prop := {
  mb_tools : get body "tools" = None \/ get body "tools" = Some (VArray []);
  mb_stream : get body "stream" <> Some (VBool true);
  mb_store : get body "store" <> Some (VBool true);
}.

Lemma is_some_false {A} (o : option A) : is_some o = false -> o = None.
Proof. by destruct o. Qed.

Lemma validate_destination_Ok provider url u :
  validate_destination provider url = Ok u -> plain_https provider url.
Proof.
  unfold validate_destination. intros Hv. inv_result.
  repeat match goal with H : is_some _ = false |- _ => apply is_some_false in H end.
  assert (url_host_str url = Some (host_of provider)) as Hh.
  { destruct provider; cbn in *; inv_result; unfold host_is in *;
      repeat match goal with H : bool_decide _ = true |- _ => apply bool_decide_eq_true in H end; done. }
  match goal with H : String.eqb _ _ = true |- _ => apply String.eqb_eq in H end.
  match goal with H : is_empty _ = true |- _ => apply is_empty_true in H end.
  by constructor.
Qed.

Section adapters.
Context (from_slice : string -> option Value) (json_f32 : f64 -> Value) (header_ok : string -> bool).
Context (build : HttpRequest -> option Url).
Abbreviation adapter := (for_provider from_slice json_f32 header_ok build).

Lemma ad_provider_for provider : ad_provider (adapter provider) = provider.
Proof. by destruct provider. Qed.

Lemma get_insert_some {A} key k (value : A -> Value) x body :
  key <> k -> is_object body = true -> get (insert_some k value x body) key = get body key.
Proof.
  intros Hk Hb. destruct body; try done. destruct x; [|done]. cbn. rewrite member_bt_insert.
  by destruct (String.eqb_spec key k).
Qed.

Lemma is_object_insert_some {A} k (value : A -> Value) x body :
  is_object body = true -> is_object (insert_some k value x body) = true.
Proof. destruct body; try done. by destruct x. Qed.

Lemma build_post_Ok url headers body b :
  build_post build url headers body = Ok b ->
  br_request b = {| rq_url := url; rq_headers := headers; rq_body := body |} /\ build (br_request b) = Some (br_url b).
Proof. unfold build_post. intros Hb. inv_result. by subst b. Qed.

Ltac modest :=
  constructor; repeat (rewrite get_insert_some by (done || by rewrite ?is_object_insert_some)); cbn; auto.

Lemma build_request_spec provider request credential b :
  ad_build_request (adapter provider) request credential = Ok b ->
  rq_url (br_request b) = endpoint provider (ir_model request) /\
  rq_headers (br_request b) = provider_headers provider credential /\
  modest_body (rq_body (br_request b)) /\ build (br_request b) = Some (br_url b).
Proof.
  destruct provider; cbn [ad_build_request for_provider OpenAiAdapter AnthropicAdapter GeminiAdapter XaiAdapter DeepSeekAdapter];
    unfold openai_build_request, anthropic_build_request, gemini_build_request, xai_build_request,
      deepseek_build_request, insert_bearer, bearer_header, api_key_header; intros Hb; inv_result; subst;
    match goal with H : build_post _ _ _ _ = Ok _ |- _ => apply build_post_Ok in H as [-> Hb] end;
    cbn [rq_url rq_headers rq_body]; (split; [done|]; split; [done|]; split; [|done]); modest.
Qed.
End adapters.

(** What the worker is allowed to send for [request]. *)
Record confined (build : HttpRequest -> option Url) (provider : ProviderId) (request : InferenceRequest)
    (credential : string) (sent : HttpRequest) : Prop := {
  cf_url : rq_url sent = endpoint provider (ir_model request);
  cf_headers : rq_headers sent = provider_headers provider credential;
  cf_body : modest_body (rq_body sent);
  cf_destination : exists url, build sent = Some url /\ plain_https provider url;
}.

Definition is_execute (e : event psys) : bool := match ev_call e with Execute _ => true | _ => false end.

Definition executes (P : HttpRequest -> Prop) (e : event psys) : Prop :=
  match ev_call e with Execute sent => P sent | _ => True end.

Section requests.
Context (from_slice : string -> option Value) (json_f32 : f64 -> Value) (header_ok : string -> bool).
Context (build : HttpRequest -> option Url).
Abbreviation adapter := (for_provider from_slice json_f32 header_ok build).

Lemma after_execute_quiet adapter request response :
  emits (fun e => is_execute e = false)
    (before_deadline;;
     response ← lift (match response with inl error => Err (classify_transport_error error) | inr r => Ok r end);
     lift (fail_if ((300 <=? hr_status response) && (hr_status response <=? 399))
             (ProviderError_new KNetwork "unexpected_redirect" "The provider attempted an unexpected redirect." false));;
     body ← read_bounded_body response;
     parsed ← lift (parse_body adapter response body);
     mret {| rs_provider := ad_provider adapter; rs_requested_model := ir_model request; rs_text := pr_text parsed;
             rs_finish_reason := pr_finish_reason parsed; rs_incomplete := pr_incomplete parsed;
             rs_usage := pr_usage parsed |} : peff InferenceResponse).
Proof. unfold read_bounded_body, before_deadline. emits_tac; done. Qed.

(** C28 The credential reaches nobody but the provider: in every environment a worker's
    inference sends at most one request, and that one goes to the provider's fixed endpoint
    over HTTPS on the default port, carries the credential in one header that is never
    printed, and asks for neither tools nor streaming nor stored state. *)
Theorem provider_requests_are_confined provider request credential :
  emits (executes (confined build provider request credential)) (infer (adapter provider) request credential) /\
  costs is_execute 1 (infer (adapter provider) request credential).
Proof.
  unfold infer. split.
  - apply emits_bind_lift. intros b Hb. apply emits_bind_lift. intros u Hu.
    apply build_request_spec in Hb as (Hurl & Hh & Hm & Hb). rewrite ad_provider_for in Hu.
    apply validate_destination_Ok in Hu. apply emits_bind.
    + apply emits_perform. intros r. cbn. split; eauto.
    + intros response. eapply emits_mono; [|apply after_execute_quiet]. intros [A c r]. by destruct c.
  - apply (costs_bind _ 0 1); [apply costs_emits, emits_lift|intros b].
    apply (costs_bind _ 0 1); [apply costs_emits, emits_lift|intros _].
    apply (costs_bind _ 1 0); [apply costs_perform|intros response].
    apply costs_emits, after_execute_quiet.
Qed.
End requests.

(** ** What an error discloses *)

(** Every message a failed inference can have. *)
Definition reviewed_messages : list string := [
  "The provider returned a response that did not match the reviewed contract.";
  "The provider credential cannot be represented as an HTTP header.";
  "The request could not be built.";
  "Anthropic Messages accepts temperature values between 0 and 1.";
  "The provider destination is not allowlisted.";
  "The HTTPS transport timed out.";
  "The provider hostname could not be resolved.";
  "The HTTPS connection to the provider failed.";
  "The provider attempted an unexpected redirect.";
  "The provider request exceeded its configured deadline.";
  "The provider credential has expired.";
  "The provider rejected the credential or its permissions.";
  "The provider reported a billing, quota, or rate limit.";
  "The provider timed out.";
  "The provider does not support the configured model for this request.";
  "The provider rejected the configured model or request.";
  "The provider service is temporarily unavailable.";
  "The provider returned an unexpected HTTP status.";
  "The provider returned non-text content.";
  "The provider returned a tool call or unsupported output item.";
  "The provider returned a tool call or unsupported content block.";
  "The provider declined to generate text for this request.";
  "The provider returned a tool call or non-text output.";
  "The provider returned a tool call even though tools were not requested."]%string.

(** A code is 1 to 64 letters, digits, hyphens, underscores and periods, or names the HTTP status. *)
Definition CODE_CHARACTERS : string := "ABCDEFGHIJKLMNOPQRSTUVWXYZabcdefghijklmnopqrstuvwxyz0123456789-_.".
Definition code_characters (code : string) : Prop :=
  forall c, c ∈ list_ascii_of_string code -> c ∈ list_ascii_of_string CODE_CHARACTERS.
Definition safe_code (code : string) : Prop :=
  1 <= len code <= 64 /\ code_characters code \/ exists status, code = ("http_" +:+ show_uint status)%string.

Record reviewed (e : ProviderError) : Prop := {
  rv_message : pe_message e ∈ reviewed_messages;
  rv_code : safe_code (pe_code e);
}.

(** A fixed code and message of the program. *)
Definition reviewed_b (e : ProviderError) : bool :=
  bool_decide (pe_message e ∈ reviewed_messages) && (1 <=? len (pe_code e)) && (len (pe_code e) <=? 64) &&
  forallb (fun c => bool_decide (c ∈ list_ascii_of_string CODE_CHARACTERS)) (list_ascii_of_string (pe_code e)).

Lemma reviewed_b_spec e : reviewed_b e = true -> reviewed e.
Proof.
  unfold reviewed_b. rewrite !andb_true_iff, forallb_forall. intros [[[Hm%bool_decide_eq_true H1%Z.leb_le] H64%Z.leb_le] Hc].
  split; [done|]. left. split; [done|]. intros c Hin. apply list_elem_of_In, Hc in Hin. by apply bool_decide_eq_true in Hin.
Qed.

Ltac reviewed := apply reviewed_b_spec; vm_compute; reflexivity.

Lemma sanitize_code_Some value code : sanitize_code value = Some code ->
  code = value /\ 1 <= len code <= 64 /\ code_characters code.
Proof.
  unfold sanitize_code. destruct (_ || _) eqn:Hb; [done|]. intros [= <-].
  apply orb_false_iff in Hb as [[He%is_empty_false H64%Z.ltb_ge]%orb_false_iff Hc%negb_false_iff].
  split; [done|]. split; [lia|]. unfold bytes_all in Hc. rewrite forallb_forall in Hc.
  intros c Hin%list_elem_of_In%Hc. revert Hin. clear.
  destruct c as [[] [] [] [] [] [] [] []]; (by intros [=]) || (intros _; apply (bool_decide_unpack _); vm_compute; exact I).
Qed.

Section errors.
Context (from_slice : string -> option Value) (json_f32 : f64 -> Value) (header_ok : string -> bool).
Context (build : HttpRequest -> option Url).
Abbreviation adapter := (for_provider from_slice json_f32 header_ok build).

Lemma safe_vendor_code_safe status body :
  safe_code (default ("http_" +:+ show_uint status) (safe_vendor_code from_slice body)).
Proof.
  destruct (safe_vendor_code from_slice body) as [code|] eqn:Hc; cbn; [left|right; eauto].
  unfold safe_vendor_code in Hc. repeat (apply bind_Some in Hc as (? & ? & Hc)).
  by apply sanitize_code_Some in Hc as [-> Hc].
Qed.

Lemma classify_http_error_reviewed status body : reviewed (classify_http_error from_slice status body).
Proof.
  unfold classify_http_error. pose proof (safe_vendor_code_safe status body) as Hc.
  set (code := default _ _) in *. clearbody code. cbv zeta.
  repeat match goal with |- reviewed (if ?b then _ else _) => destruct b end; try reviewed;
    (split; [apply (bool_decide_unpack _); vm_compute; exact I|done]).
Qed.

Lemma classify_transport_error_reviewed error : reviewed (classify_transport_error error).
Proof. unfold classify_transport_error. cbv zeta. repeat case_match; reviewed. Qed.

Lemma response_blocks_reviewed text refusal content : blames reviewed (response_blocks text refusal content).
Proof.
  revert text refusal. induction content as [|b content IH]; intros text refusal; cbn [response_blocks];
    blames_tac; reviewed.
Qed.

Lemma response_items_reviewed text refusal items : blames reviewed (response_items text refusal items).
Proof.
  revert text refusal. induction items as [|b items IH]; intros text refusal; cbn [response_items];
    [|pose proof response_blocks_reviewed]; blames_tac; reviewed.
Qed.

Lemma anthropic_blocks_reviewed text content : blames reviewed (anthropic_blocks text content).
Proof.
  revert text. induction content as [|b content IH]; intros text; cbn [anthropic_blocks]; blames_tac; reviewed.
Qed.

Lemma gemini_parts_reviewed text parts : blames reviewed (gemini_parts text parts).
Proof.
  revert text. induction parts as [|b parts IH]; intros text; cbn [gemini_parts]; blames_tac; reviewed.
Qed.

Lemma parse_success_reviewed provider body : blames reviewed (ad_parse_success (adapter provider) body).
Proof.
  pose proof response_items_reviewed. pose proof anthropic_blocks_reviewed. pose proof gemini_parts_reviewed.
  destruct provider; cbn; unfold responses_parse, anthropic_parse_success, gemini_parse_success,
    deepseek_parse_success, parse_json, non_empty_text; cbv zeta; blames_tac;
    try match goal with |- reviewed (match ?x with _ => _ end) => destruct x end; reviewed.
Qed.

Lemma build_request_reviewed provider request credential :
  blames reviewed (ad_build_request (adapter provider) request credential).
Proof.
  destruct provider; cbn [ad_build_request for_provider OpenAiAdapter AnthropicAdapter GeminiAdapter XaiAdapter DeepSeekAdapter];
    unfold openai_build_request, anthropic_build_request, gemini_build_request, xai_build_request,
      deepseek_build_request, insert_bearer, bearer_header, api_key_header, build_post; cbv zeta; blames_tac; reviewed.
Qed.

Lemma read_chunks_reviewed body chunks : blames reviewed (read_chunks body chunks).
Proof.
  revert body. induction chunks as [|c chunks IH]; intros body; cbn [read_chunks]; blames_tac;
    first [apply classify_transport_error_reviewed|reviewed].
Qed.

Lemma infer_reviewed provider request credential :
  raises reviewed (infer (adapter provider) request credential).
Proof.
  pose proof build_request_reviewed. pose proof parse_success_reviewed. pose proof read_chunks_reviewed.
  unfold infer, read_bounded_body, before_deadline, parse_body, validate_destination. cbv zeta.
  blames_tac; first [done|apply classify_transport_error_reviewed|destruct provider; apply classify_http_error_reviewed
    |reviewed].
Qed.

(** C34 A failed inference tells the router nothing the provider wrote: in every environment
    its message is one of the messages of the program, and its code is 1 to 64 letters, digits,
    hyphens, underscores and periods, or the HTTP status. *)
Theorem errors_are_reviewed provider request credential env h e :
  value (infer (adapter provider) request credential env h tt) = Err e -> reviewed e.
Proof. apply infer_reviewed. Qed.
End errors.
