(* ===== verification/ProviderSession.v ===== *)
(** * The session of a provider worker

    [run_stdio] of [ProviderWorker] as seen by the router, which decodes each line with its
    [JsonLineProviderIntegration]: an automaton of the session, and the theorem that in
    every environment the worker follows it; then concrete runs. *)

From Stdlib Require Import Ascii String.
From S2P Require Import Prelude RustStr RustText Contract RustFloat Effects Monitor WorkerProtocol ProviderAdapters ProviderWorker ProviderSafety.

(** ** The session *)

(** The worker starts; it is idle; it announced a request; the task of a request runs; the
    task is over and its result is not yet reported; the task was told to stop and the
    cancellation is not yet reported.  [abort] is not awaited, so a task that was told to stop
    can be in its last step when the cancellation is reported; its result is dropped with
    its handle. *)
Inductive session := Fresh | Idle | Announced (id : string) | Running (id : string) | Over (id : string) | Stopping (id : string).

(** The client of the requests: HTTPS alone, no redirect followed, no proxy, bounded in time. *)
Definition closed_client (options : ClientOptions) : Prop :=
  co_https_only options = true /\ co_redirect options = RedirectNone /\ co_no_proxy options = true /\
  co_connect_timeout_secs options = 5 /\ co_timeout_secs options = 300.

#[global] Instance RedirectPolicy_eq_dec : EqDecision RedirectPolicy.
Proof. solve_decision. Defined.

(** An event the router reads. *)
Definition read_event (provider : ProviderId) (q : session) (e : WorkerEvent) : option session :=
  match q, e with
  | Fresh, WeReady _ capabilities =>
      if bool_decide (cp_provider capabilities = provider) then Some Idle else None
  | Idle, WeStarted _ id => Some (Announced id)
  | Idle, WeError _ _ _ => Some Idle
  | Running id, WeError _ request_id e =>
      (* an error that does not end the request [id] *)
      if bool_decide (request_id = Some id -> e = worker_busy) then Some (Running id) else None
  | Over id, WeCompleted _ id' _ => if String.eqb id id' then Some Idle else None
  | Over id, WeError _ request_id e =>
      if bool_decide (request_id = Some id /\ e <> worker_busy) then Some Idle else None
  | Stopping id, WeError _ request_id e =>
      if bool_decide (request_id = Some id /\ e = request_cancelled) then Some Idle else None
  | _, _ => None
  end.

(** The request may run: it is valid, for this provider, and the one that was announced. *)
Definition may_run (provider : ProviderId) (id : string) (p : ProviderId) (request : InferenceRequest) : bool :=
  is_ok (InferenceRequest_validate request) && bool_decide (ir_provider request = provider)
  && bool_decide (p = provider) && String.eqb id (ir_request_id request).

Section session.
Context (command_from_str : string -> option WorkerCommand) (event_to_string : WorkerEvent -> option string).
Context (event_from_str : string -> option WorkerEvent) (provider : ProviderId).
Abbreviation decode := (json_decode_event event_from_str {| jl_provider := provider |}).

(** What the worker does next.  [NextLine] waits for a command alone, [NextTurn] for a
    command or the end of the running task. *)
Definition session_step (q : session) (e : event psys) : option session :=
  match ev_call e in psys A return A -> option session with
  | WriteLine line => fun _ =>
      match decode line with Ok event => read_event provider q event | _ => None end
  | SpawnTask p request _ => fun _ =>
      match q with Announced id => if may_run provider id p request then Some (Running id) else None | _ => None end
  | AbortTask => fun _ => match q with Running id => Some (Stopping id) | _ => None end
  | NextTurn => fun turn =>
      match q, turn with
      | Running id, TaskEnded _ => Some (Over id)
      | Running id, InputLine _ => Some (Running id)
      | _, _ => None
      end
  | NextLine => fun _ => match q with Idle => Some Idle | _ => None end
  | Execute _ | DeadlinePassed => fun _ => None
  | BuildClient options => fun _ =>
      match q with Fresh => if bool_decide (closed_client options) then Some Fresh else None | _ => None end
  | Prctl _ _ | ReadCredential _ => fun _ => match q with Fresh => Some Fresh | _ => None end
  end (ev_reply e).

(** Documented behaviour of [serde_json]: what is written can be read back. *)
Context (event_roundtrip : forall e line, event_to_string e = Some line -> event_from_str line = Some e).
(** The task that ends is an inference of this worker. *)
Context (from_slice : string -> option Value) (json_f32 : f64 -> Value) (header_ok : string -> bool).
Context (build : HttpRequest -> option Url) (env : environment psys).
Context (tasks_infer : forall h e, env h _ NextTurn = TaskEnded (Err e) ->
  exists request credential env' h',
    value (infer (for_provider from_slice json_f32 header_ok build provider) request credential env' h' tt) = Err e).

Abbreviation follows' := (follows session_step env (S := unit) (E := ProviderError)).

Lemma task_error_not_busy h e : env h _ NextTurn = TaskEnded (Err e) -> e <> worker_busy.
Proof.
  intros (request & credential & env' & h' & He)%tasks_infer ->.
  apply infer_reviewed in He as [Hm _]. apply (bool_decide_pack _) in Hm. vm_compute in Hm. done.
Qed.

Lemma write_event_follows q e q' :
  event_version e = PROTOCOL_VERSION -> read_event provider q e = Some q' ->
  follows' q (write_event event_to_string e) (fun _ q'' => q'' = q').
Proof.
  intros Hv Hr. unfold write_event. apply follows_lift_then. intros line Hl. inv_result.
  apply follows_perform_then. intros h. exists q'. split.
  - cbn. unfold json_decode_event. rewrite (event_roundtrip _ _ Hl). cbn. rewrite Hv. cbn. done.
  - by apply follows_lift.
Qed.

Lemma write_error_follows q request_id e q' :
  read_event provider q (WeError PROTOCOL_VERSION request_id e) = Some q' ->
  follows' q (write_error event_to_string request_id e) (fun _ q'' => q'' = q').
Proof. intros Hr. by apply write_event_follows. Qed.

(** The automaton's state between two turns. *)
Definition between (active : option string) : session :=
  match active with Some id => Running id | None => Idle end.
Definition at_step (s : LoopStep) (q : session) : Prop :=
  match s with Continue active => q = between active | Finished => True end.

Lemma then_continue q (m : peff unit) active :
  follows' q m (fun _ q' => q' = between active) -> follows' q (m;; mret (Continue active)) at_step.
Proof. intros Hm. eapply follows_bind; [exact Hm|]. intros _ q' ->. by apply follows_ret. Qed.

Ltac decided := cbn; rewrite bool_decide_eq_true_2; [done|first [done | by split | by intros [=] | by intros ?]].

Lemma busy_command_follows current line :
  follows' (Running current) (busy_command command_from_str event_to_string current line) at_step.
Proof.
  unfold busy_command. destruct (decode_command command_from_str line) as [[v request|v request_id]|e|].
  - apply then_continue, write_error_follows. decided.
  - destruct (String.eqb_spec request_id current) as [->|Hne].
    + apply follows_perform_then. intros h. exists (Stopping current). split; [done|].
      apply then_continue, write_error_follows. decided.
    + apply then_continue, write_error_follows. decided.
  - apply then_continue, write_error_follows. decided.
  - by apply follows_lift.
Qed.

Lemma idle_command_follows credential line :
  follows' Idle (idle_command command_from_str event_to_string provider credential line) at_step.
Proof.
  unfold idle_command. destruct (decode_command command_from_str line) as [[v request|v request_id]|e|];
    [|by apply then_continue, write_error_follows..|by apply follows_lift].
  destruct (InferenceRequest_validate request) as [u|e|] eqn:Hv;
    [|by apply then_continue, write_error_follows|by apply follows_lift].
  case_bool_decide as Hp; cbn [negb]; [|by apply then_continue, write_error_follows].
  eapply follows_bind; [by apply write_event_follows|]. intros _ q' ->.
  apply follows_perform_then. intros h. exists (Running (ir_request_id request)). split; [|by apply follows_ret].
  cbn. unfold may_run. rewrite Hv, String.eqb_refl, !bool_decide_eq_true_2 by done. done.
Qed.

Lemma task_event_follows h id r :
  env h _ NextTurn = TaskEnded r ->
  follows' (Over id) (write_event event_to_string (task_event id r)) (fun _ q' => q' = Idle).
Proof.
  intros Hr. destruct r as [response|e|]; apply write_event_follows; try done; cbn.
  - by rewrite String.eqb_refl.
  - apply task_error_not_busy in Hr. by rewrite bool_decide_eq_true_2.
  - by rewrite bool_decide_eq_true_2.
Qed.

Lemma worker_turn_follows credential active :
  follows' (between active) (worker_turn command_from_str event_to_string provider credential active) at_step.
Proof.
  unfold worker_turn. destruct active as [current|]; apply follows_perform_then; intros h; cbn.
  - destruct (env h _ NextTurn) as [r|[line|]] eqn:Ht; eexists; (split; [done|]).
    + apply then_continue. by eapply task_event_follows.
    + apply busy_command_follows.
    + apply follows_perform_then. intros h'. exists (Stopping current). split; [done|]. by apply follows_ret.
  - destruct (env h _ NextLine) as [line|]; exists Idle; (split; [done|]); [apply idle_command_follows|by apply follows_ret].
Qed.

Lemma worker_loop_follows turns credential active :
  follows' (between active) (worker_loop command_from_str event_to_string turns provider credential active)
    (fun _ _ => True).
Proof.
  revert active. induction turns as [|turns IH]; intros active; cbn [worker_loop]; [by apply follows_ret|].
  eapply follows_bind; [apply worker_turn_follows|].
  intros [active'|] q' Hq; [|by apply follows_ret]. cbn in Hq. subst. apply IH.
Qed.

(** Calls before the worker is ready. *)
Lemma run_stdio_follows turns :
  follows' Fresh (run_stdio command_from_str event_to_string turns provider) (fun _ _ => True).
Proof.
  unfold run_stdio. eapply (follows_bind _ _ _ _ _ (fun _ q => q = Fresh)).
  { unfold harden_process. apply follows_perform_then. intros h. eexists. split; [done|].
    apply follows_lift_then. intros _ _. apply follows_perform_then. intros h'. eexists. split; [done|].
    by apply follows_lift. }
  intros _ q ->. eapply (follows_bind _ _ _ _ _ (fun _ q => q = Fresh)).
  { unfold read_inherited. apply follows_perform_then. intros h. eexists. split; [done|].
    apply follows_lift_then. intros bytes _. by apply follows_lift. }
  intros credential q ->. eapply (follows_bind _ _ _ _ _ (fun _ q => q = Fresh)).
  { unfold transport_new. apply follows_perform_then. intros h. eexists. split; [done|]. by apply follows_lift. }
  intros _ q ->. eapply follows_bind; [apply write_event_follows; [done|]|].
  - cbn. by rewrite bool_decide_eq_true_2.
  - intros _ q ->. apply (worker_loop_follows turns credential None).
Qed.

End session.

(** * Provider workers at work

    Concrete runs that meet the hypotheses of the theorems about provider workers. *)

Definition demo_request : InferenceRequest :=
  {| ir_request_id := "r1"; ir_provider := OpenAi; ir_model := "small"; ir_system := None;
     ir_messages := [{| ms_role := User; ms_content := "hello" |}]; ir_max_output_tokens := 64;
     ir_temperature := None; ir_timeout_ms := None; ir_stream := false |}.

Definition demo_url : Url :=
  {| url_scheme := "https"; url_username := EmptyString; url_password := None;
     url_host_str := Some "api.openai.com"%string; url_port := None; url_path := "/v1/responses";
     url_query := None; url_fragment := None |}.

Definition demo_build (request : HttpRequest) : option Url := Some demo_url.
Definition demo_f32 (x : f64) : Value := VNull.
Definition demo_header_ok (value : string) : bool := true.

(** An error body with a code and a message that must stay inside the worker. *)
Definition demo_from_slice (body : string) : option Value :=
  if String.eqb body "refused" then
    Some (object [("error", object [("code", VString "invalid_api_key"); ("message", VString "key sk-1 is wrong")])]%string)
  else None.

Definition demo_adapter : ProviderAdapter := for_provider demo_from_slice demo_f32 demo_header_ok demo_build OpenAi.

(** A provider that refuses the credential. *)
Definition refusing_response : HttpResponse :=
  {| hr_status := 401; hr_content_type := Some "application/json"%string; hr_content_length := None;
     hr_chunks := [inr "refu"; inr "sed"]%string |}.

(** The codec of a session with few events. *)
#[global] Instance ApiBilling_eq_dec : EqDecision ApiBilling.
Proof. solve_decision. Defined.
#[global] Instance ConsumerSubscription_eq_dec : EqDecision ConsumerSubscription.
Proof. solve_decision. Defined.
#[global] Instance ProviderVerification_eq_dec : EqDecision ProviderVerification.
Proof. solve_decision. Defined.
#[global] Instance FinishReason_eq_dec : EqDecision FinishReason.
Proof. solve_decision. Defined.
#[global] Instance TokenUsage_eq_dec : EqDecision TokenUsage.
Proof. solve_decision. Defined.
#[global] Instance ProviderCapabilities_eq_dec : EqDecision ProviderCapabilities.
Proof. solve_decision. Defined.
#[global] Instance InferenceResponse_eq_dec : EqDecision InferenceResponse.
Proof. solve_decision. Defined.
#[global] Instance WorkerEvent_eq_dec : EqDecision WorkerEvent.
Proof. solve_decision. Defined.

Definition demo_events : list (string * WorkerEvent) := [
  ("ready", WeReady 1 (ProviderCapabilities_for_provider OpenAi));
  ("started", WeStarted 1 "r1");
  ("busy", WeError 1 (Some "r1") worker_busy);
  ("refused", WeError 1 (Some "r1") (classify_http_error demo_from_slice 401 "refused"))]%string.

Definition demo_to_string (e : WorkerEvent) : option string :=
  fst <$> find (fun p => bool_decide (p.2 = e)) demo_events.
Definition demo_of_string (line : string) : option WorkerEvent :=
  snd <$> find (fun p => String.eqb p.1 line) demo_events.
Definition demo_command (line : string) : option WorkerCommand :=
  if String.eqb line "infer" then Some (WcInfer 1 demo_request) else None.

Lemma demo_roundtrip e line : demo_to_string e = Some line -> demo_of_string line = Some e.
Proof.
  unfold demo_to_string, demo_events. cbn [find].
  repeat (case_bool_decide; [intros [= <-]; subst e; reflexivity|]). done.
Qed.

(** The router asks, asks again while the request runs, and the request is refused. *)
Definition demo_turns (h : list (event psys)) : nat :=
  length (List.filter (fun e => match ev_call e with NextTurn => true | _ => false end) h).

Definition demo_env : environment psys := fun h A c =>
  match c in psys A return A with
  | Prctl _ _ => 0
  | ReadCredential _ => Some "sk-1"%string
  | BuildClient _ => true
  | Execute _ => inr refusing_response
  | DeadlinePassed => false
  | NextLine => match demo_turns h with O => Some (Some "infer"%string) | _ => None end
  | NextTurn =>
      match demo_turns h with
      | O => InputLine (Some (Some "infer"%string))
      | _ => TaskEnded (Err (classify_http_error demo_from_slice 401 "refused"))
      end
  | WriteLine _ => true
  | SpawnTask _ _ _ => tt
  | AbortTask => tt
  end.

Lemma errors_are_reviewed_witness :
  reviewed (classify_http_error demo_from_slice 401 "refused") /\
  pe_code (classify_http_error demo_from_slice 401 "refused") = "invalid_api_key"%string.
Proof.
  split; [|vm_compute; reflexivity].
  apply (errors_are_reviewed demo_from_slice demo_f32 demo_header_ok demo_build OpenAi demo_request "sk-1" demo_env []).
  vm_compute. reflexivity.
Defined.

(** The lines of a run. *)
Definition written (t : list (event psys)) : list string :=
  omap (fun e => match ev_call e with WriteLine line => Some line | _ => None end) t.

