(* ===== verification/RetrievalIndex.v ===== *)
(** * Retrieval: the index
    (crates/sentia-retrieval/src/path_guard.rs, indexer.rs)

    [rebuild] walks the configured sources, collects their documents within a budget and
    brings the table of documents up to date.  The file system, the directory walker and the
    sqlite connection answer the calls [rsys]; the texts of the statements stand for the
    statements ([Upsert], [SelectHashes], [DeleteRow]).  SHA-256 and the gzip decoder are
    parameters. *)

From Stdlib Require Import Ascii String.
From S2P Require Import Prelude RustStr RustText Effects RetrievalConfig.

(** ** Calls *)

(** The metadata [fs::metadata] reports; the time of modification as seconds since the
    epoch when there is one. *)
Record FileMeta := { fm_is_file : bool; fm_len : u64; fm_modified : option Z }.

(** An entry of the walker: its path, and whether its own type is a file or a symlink. *)
Record WalkEntry := { we_path : string; we_is_file : bool; we_is_symlink : bool }.

Record CollectedDocument := {
  cd_path : string;
  cd_source_name : string;
  cd_source_kind : SourceKind;
  cd_trust_label : string;
  cd_package_name : option string;
  cd_package_version : option string;
  cd_content : string;
  cd_content_hash : string;
  cd_byte_len : usize;
  cd_modified_unix : Z;
}.

Inductive rsys : Type -> Type :=
| Geteuid : rsys Z
| CreateDirAll (path : list Component) : rsys (option string)
| OpenRw (path : string) : rsys (SqliteError + unit)
| ExecuteSchema : rsys (SqliteError + unit)
| SetMetadata (key value : string) : rsys (SqliteError + unit)
| BeginTransaction : rsys (SqliteError + unit)
| CommitTransaction : rsys (SqliteError + unit)
| QuickCheck : rsys (SqliteError + string)
| SetPermissions (path : string) (mode : Z) : rsys (option string)
| PathExists (path : string) : rsys bool
| PathIsFile (path : string) : rsys bool
| CanonicalizePath (path : string) : rsys (string + string)
| WalkTree (root : string) (max_depth : usize) : rsys (list (option WalkEntry))
| ReadMetadata (path : string) : rsys (string + FileMeta)
| ReadBytes (path : string) : rsys (string + string)
| ReadText (path : string) : rsys (string + string)
| SystemSeconds : rsys (option Z)
| PrepareUpsert : rsys (SqliteError + unit)
| PrepareDelete : rsys (SqliteError + unit)
| SelectHashes (source_name : string) : rsys (SqliteError + list (SqliteError + string * string))
| Upsert (row : CollectedDocument) (indexed_unix : Z) : rsys (SqliteError + unit)
| DeleteRow (source_name path : string) : rsys (SqliteError + unit).

(** ** Budget *)

Record Budget := {
  bg_max_file_count : usize;
  bg_max_total_bytes : usize;
  bg_consumed_files : usize;
  bg_consumed_bytes : usize;
}.

Definition Budget_new (max_file_count max_total_bytes : usize) : Budget :=
  {| bg_max_file_count := max_file_count; bg_max_total_bytes := max_total_bytes;
     bg_consumed_files := 0; bg_consumed_bytes := 0 |}.

Definition try_consume (self : Budget) (bytes : usize) : option Budget :=
  if bg_max_file_count self <=? bg_consumed_files self then None
  else if bg_max_total_bytes self <? saturating_add USIZE_MAX (bg_consumed_bytes self) bytes then None
  else Some {| bg_max_file_count := bg_max_file_count self; bg_max_total_bytes := bg_max_total_bytes self;
               bg_consumed_files := bg_consumed_files self + 1; bg_consumed_bytes := bg_consumed_bytes self + bytes |}.

(** What [rebuild] lends to its helpers: the budget, the counters of the current source and
    the documents collected for it. *)
Record IndexState := { is_budget : Budget; is_counts : Counts; is_docs : list CollectedDocument }.

Abbreviation reff := (eff rsys IndexState RetrievalError).

Definition count (k : Counter) : reff unit :=
  with_state (fun s => ({| is_budget := is_budget s; is_counts := bump k (is_counts s); is_docs := is_docs s |}, Ok tt)).

Definition keep_document (doc : CollectedDocument) : reff unit :=
  with_state (fun s => ({| is_budget := is_budget s; is_counts := is_counts s; is_docs := is_docs s ++ [doc] |}, Ok tt)).

(** [budget.try_consume(bytes)] *)
Definition consume_budget (bytes : usize) : reff bool :=
  with_state (fun s =>
    match try_consume (is_budget s) bytes with
    | Some budget => ({| is_budget := budget; is_counts := is_counts s; is_docs := is_docs s |}, Ok true)
    | None => (s, Ok false)
    end).

Definition sqlite {A} (r : SqliteError + A) : reff A :=
  lift (match r with inl e => Err (Sqlite e) | inr a => Ok a end).

(** ** path_guard.rs *)

Definition Allowlist := list string.

Definition for_root (root : string) : reff (result RetrievalError Allowlist) :=
  canonical ← perform (CanonicalizePath root);
  mret (match canonical with
        | inl source => Err (Canonicalize root source)
        | inr canonical => Ok [canonical]
        end).

Definition contains_resolved (roots : Allowlist) (resolved : string) : bool :=
  existsb (fun root => path_starts_with root resolved) roots.

Definition resolve_if_allowed (roots : Allowlist) (candidate : string)
  : reff (result RetrievalError (option string)) :=
  resolved ← perform (CanonicalizePath candidate);
  mret (match resolved with
        | inl source => Err (Canonicalize candidate source)
        | inr resolved => Ok (if contains_resolved roots resolved then Some resolved else None)
        end).

(** ** Texts *)

(** The text of a file name, as [to_string_lossy] gives it. *)
Definition lossy_name (path : string) : string := default EmptyString (from_utf8_lossy <$> file_name path).

Definition manpage_suffixes : list string :=
  [".1"; ".2"; ".3"; ".4"; ".5"; ".6"; ".7"; ".8";
   ".1.gz"; ".2.gz"; ".3.gz"; ".4.gz"; ".5.gz"; ".6.gz"; ".7.gz"; ".8.gz"]%string.

Definition is_manpage_file (path : string) : bool :=
  existsb (fun suffix => ends_with suffix (to_ascii_lowercase (lossy_name path))) manpage_suffixes.

Definition extract_manpage_name (path : string) : string :=
  let name := lossy_name path in
  let without_gz := default name (strip_suffix ".gz" name) in
  to_ascii_lowercase (default without_gz (head (split_char "." without_gz))).

(** [line.starts_with('.') || line.starts_with('\'')] *)
Definition is_macro (line : string) : bool := starts_with "." line || starts_with "'" line.

Definition clean_line (trimmed : string) : string :=
  trim (replace "\(aq" "'" (replace "\fR" "" (replace "\fI" "" (replace "\fB" "" (replace "\-" "-" trimmed))))).

Definition sanitize_line (line : string) : option string :=
  let trimmed := trim line in
  if is_empty trimmed then None else if is_macro trimmed then None else Some (clean_line trimmed).

Definition sanitize_manpage (raw : string) : string :=
  sconcat (map (fun clean => clean +:+ String LF EmptyString) (omap sanitize_line (lines raw))).

Definition source_kind_to_string (kind : SourceKind) : string :=
  match kind with
  | Filesystem => "filesystem"
  | DpkgStatus => "dpkg_status"
  | ManDirectory => "man_directory"
  end.

Definition matches_extension (path : string) (allowed : list string) : bool :=
  let file_name := to_ascii_lowercase (lossy_name path) in
  existsb (fun ext =>
    let ext := to_ascii_lowercase (trim_start_char "." ext) in
    String.eqb file_name ext || ends_with ("." +:+ ext) file_name || ends_with ext file_name) allowed.

(** ** dpkg *)

Abbreviation fields := (gmap string string).

(** One line of a stanza: the fields so far and the key a continuation belongs to. *)
Definition dpkg_line (state : fields * option string) (line : string) : fields * option string :=
  let '(fs, current_key) := state in
  if starts_with " " line || starts_with (String (chr 9) EmptyString) line then
    match key ← current_key; existing ← fs !! key; Some (key, existing) with
    | Some (key, existing) => (<[key := existing +:+ String LF EmptyString +:+ trim line]> fs, current_key)
    | None => (fs, current_key)
    end
  else
    match split_once ":" line with
    | Some (raw_key, raw_value) => (<[trim raw_key := trim raw_value]> fs, Some (trim raw_key))
    | None => (fs, current_key)
    end.

(** [split("\n\n")] *)
Fixpoint split_blank (fuel : nat) (s : string) : list string :=
  match fuel with
  | O => [s]
  | S fuel' =>
      match split_once_str (String LF (String LF EmptyString)) s with
      | Some (stanza, rest) => stanza :: split_blank fuel' rest
      | None => [s]
      end
  end.

Definition dpkg_stanza (stanza : string) : option fields :=
  let stanza := trim stanza in
  if is_empty stanza then None
  else
    let '(fs, _) := fold_left dpkg_line (lines stanza) (∅, None) in
    if decide (fs = ∅) then None else Some fs.

Definition parse_dpkg_status (content : string) : list fields :=
  omap dpkg_stanza (split_blank (String.length content) content).

Definition dpkg_keys : list string :=
  ["Package"; "Version"; "Architecture"; "Priority"; "Section"; "Depends"; "Description"]%string.

Definition dpkg_content (package : fields) : string :=
  sconcat (omap (fun key => value ← package !! key;
                            Some (key +:+ ": " +:+ trim value +:+ String LF EmptyString)) dpkg_keys).

Definition dpkg_installed (package : fields) : bool :=
  contains "installed" (default EmptyString (to_ascii_lowercase <$> package !! "Status"%string)).

Section indexer.
Context (hash_content : string -> string) (gunzip : string -> result string string).
Context (hash_order : list string -> list string).

(** [metadata.modified()..unwrap_or_else(now_unix_seconds)] *)
Definition now_unix_seconds : reff Z :=
  now ← perform SystemSeconds;
  mret (default 0 now).

Definition modified_seconds (metadata : FileMeta) : reff Z :=
  match fm_modified metadata with
  | Some seconds => mret seconds
  | None => now_unix_seconds
  end.

Definition read_manpage_without_macro_execution (path : string) : reff (result RetrievalError string) :=
  bytes ← perform (ReadBytes path);
  mret (bytes ← match bytes with inl source => Err (Io path source) | inr bytes => Ok bytes end;
        raw ← (if match extension path with Some ext => eq_ignore_ascii_case ext "gz" | None => false end
               then map_err (Io path) (gunzip bytes)
               else Ok (from_utf8_lossy bytes));
        Ok (sanitize_manpage raw)).

Definition read_plain (path : string) : reff (result RetrievalError string) :=
  bytes ← perform (ReadBytes path);
  mret (match bytes with inl source => Err (Io path source) | inr bytes => Ok (from_utf8_lossy bytes) end).

(** A document whose text was read: the last checks, and its place in the list. *)
Definition admit_document (config : RetrievalConfig) (content : string) (modified : reff Z)
    (document : Z -> CollectedDocument) : reff unit :=
  if is_empty (trim content) then mret tt
  else if rc_max_file_bytes config <? len content then count SkippedOversize
  else
    admitted ← consume_budget (len content);
    if admitted : bool then modified ← modified; keep_document (document modified)
    else count SkippedBudget.

(** The text of a file, as it was read, becomes a document of the source. *)
Definition collect_content (source : SourceConfig) (config : RetrievalConfig) (resolved : string) (metadata : FileMeta)
    (content : result RetrievalError string) : reff unit :=
  match content with
  | Err _ | Panic => count SkippedUnreadable
  | Ok content =>
      admit_document config content (modified_seconds metadata) (fun modified =>
        {| cd_path := display resolved; cd_source_name := sc_name source;
           cd_source_kind := as_model (sc_kind source); cd_trust_label := trust_label source;
           cd_package_name := sc_package_name source; cd_package_version := sc_package_version source;
           cd_content := content; cd_content_hash := hash_content content;
           cd_byte_len := len content; cd_modified_unix := modified |})
  end.

Definition maybe_collect_document (source : SourceConfig) (config : RetrievalConfig) (candidate : string)
    (allowlist : Allowlist) (is_manpage : bool) : reff unit :=
  count ScannedFiles;;
  if negb (has_no (sc_include_extensions source)) && negb (matches_extension candidate (sc_include_extensions source))
  then mret tt
  else
    resolved ← resolve_if_allowed allowlist candidate;
    match resolved with
    | Err _ | Panic => count SkippedUnreadable
    | Ok None => count SkippedOutsideAllowlist
    | Ok (Some resolved) =>
        metadata ← perform (ReadMetadata resolved);
        match metadata with
        | inl _ => count SkippedUnreadable
        | inr metadata =>
            if negb (fm_is_file metadata) then mret tt
            else if rc_max_file_bytes config <? fm_len metadata then count SkippedOversize
            else
              content ← (if is_manpage then read_manpage_without_macro_execution resolved else read_plain resolved);
              collect_content source config resolved metadata content
        end
    end.

(** A loop over the elements of a list. *)
Fixpoint for_each_eff {A} (body : A -> reff unit) (l : list A) : reff unit :=
  match l with
  | [] => mret tt
  | a :: l' => body a;; for_each_eff body l'
  end.

(** The body of the loop over the entries of a tree. *)
Definition visit_entry (collect : string -> reff unit) (entry : option WalkEntry) : reff unit :=
  match entry with
  | None => count SkippedUnreadable
  | Some entry =>
      if negb (we_is_file entry) && negb (we_is_symlink entry) then mret tt else collect (we_path entry)
  end.

Definition walk (source : SourceConfig) (root : string) (collect : string -> reff unit) : reff unit :=
  entries ← perform (WalkTree root (sc_max_depth source));
  for_each_eff (visit_entry collect) entries.

(** A root that exists and can be resolved. *)
Definition with_root (root : string) (body : Allowlist -> reff unit) : reff unit :=
  exists_ ← perform (PathExists root);
  if negb exists_ then count SkippedUnreadable
  else
    allowlist ← for_root root;
    match allowlist with
    | Err _ | Panic => count SkippedUnreadable
    | Ok allowlist => body allowlist
    end.

Definition collect_filesystem_documents (source : SourceConfig) (config : RetrievalConfig) : reff unit :=
  for_each_eff (fun root =>
    with_root root (fun allowlist =>
      is_file ← perform (PathIsFile root);
      if is_file : bool then maybe_collect_document source config root allowlist false
      else walk source root (fun path => maybe_collect_document source config path allowlist false)))
    (sc_roots source).

Definition collect_man_documents (source : SourceConfig) (config : RetrievalConfig) : reff unit :=
  let allowed_pages := map to_ascii_lowercase (sc_allow_pages source) in
  for_each_eff (fun root =>
    with_root root (fun allowlist =>
      walk source root (fun path =>
        if negb (is_manpage_file path) then mret tt
        else if negb (has_no allowed_pages) && negb (bool_decide (extract_manpage_name path ∈ allowed_pages)) then mret tt
        else maybe_collect_document source config path allowlist true)))
    (sc_roots source).

Definition collect_package (source : SourceConfig) (config : RetrievalConfig) (path : string) (modified : Z)
    (package : fields) : reff unit :=
  count ScannedFiles;;
  let package_name := default "unknown"%string (package !! "Package"%string) in
  let package_version := default "unknown"%string (package !! "Version"%string) in
  if negb (dpkg_installed package) then mret tt
  else
    let content := dpkg_content package in
    admit_document config content (mret modified) (fun modified =>
      {| cd_path := display path +:+ "#" +:+ package_name; cd_source_name := sc_name source;
         cd_source_kind := DpkgStatus; cd_trust_label := trust_label source;
         cd_package_name := Some package_name; cd_package_version := Some package_version;
         cd_content := content; cd_content_hash := hash_content content; cd_byte_len := len content;
         cd_modified_unix := modified |}).

Definition collect_dpkg_documents (source : SourceConfig) (config : RetrievalConfig) : reff unit :=
  match sc_path source with
  | None => lift (Err (InvalidConfig ("dpkg_status source " +:+ sc_name source +:+ " is missing path")))
  | Some path =>
      metadata ← perform (ReadMetadata path);
      match metadata with
      | inl _ => count SkippedUnreadable
      | inr metadata =>
          if rc_max_file_bytes config <? fm_len metadata then count SkippedOversize
          else
            text ← perform (ReadText path);
            match text with
            | inl _ => count SkippedUnreadable
            | inr text =>
                modified ← modified_seconds metadata;
                for_each_eff (collect_package source config path modified) (parse_dpkg_status text)
            end
      end
  end.

Definition collect_documents_for_source (source : SourceConfig) (config : RetrievalConfig) : reff unit :=
  match sc_kind source with
  | Filesystem => collect_filesystem_documents source config
  | DpkgStatus => collect_dpkg_documents source config
  | ManDirectory => collect_man_documents source config
  end.

(** ** The table of documents *)

(** The rows of the query, a failed row ends the reading. *)
Fixpoint read_rows (values : gmap string string) (rows : list (SqliteError + string * string))
  : result RetrievalError (gmap string string) :=
  match rows with
  | [] => Ok values
  | inl e :: _ => Err (Sqlite e)
  | inr (path, hash) :: rest => read_rows (<[path := hash]> values) rest
  end.

Definition load_existing_hashes (source_name : string) : reff (gmap string string) :=
  rows ← perform (SelectHashes source_name);
  rows ← sqlite rows;
  lift (read_rows ∅ rows).

Definition apply_document (existing : gmap string string) (indexed_at : Z) (doc : CollectedDocument) : reff unit :=
  count IndexedDocuments;;
  let upsert := r ← perform (Upsert doc indexed_at); sqlite r in
  match existing !! cd_path doc with
  | Some existing_hash =>
      if String.eqb existing_hash (cd_content_hash doc) then count Unchanged
      else count Updated;; upsert
  | None => count Inserted;; upsert
  end.

Definition remove_stale (source : SourceConfig) (stale : string) : reff unit :=
  r ← perform (DeleteRow (sc_name source) stale);
  sqlite r;;
  count Removed.

Definition stale_paths (existing : gmap string string) (docs : list CollectedDocument) : list string :=
  filter (fun path => path ∉ map cd_path docs) (hash_order (map fst (map_to_list existing))).

Definition apply_source_documents (source : SourceConfig) (docs : list CollectedDocument) : reff unit :=
  existing ← load_existing_hashes (sc_name source);
  r ← perform PrepareUpsert;
  sqlite r;;
  indexed_at ← now_unix_seconds;
  for_each_eff (apply_document existing indexed_at) docs;;
  r ← perform PrepareDelete;
  sqlite r;;
  for_each_eff (remove_stale source) (stale_paths existing docs).

(** ** rebuild *)

Definition verify_non_root_identity : reff unit :=
  uid ← perform Geteuid;
  lift (fail_if (uid =? 0) RootIndexDenied).

(** The parent directory is given by its components. *)
Definition ensure_parent_directory (path : string) : reff unit :=
  parent ← lift (ok_or (parent (components path)) (InvalidConfig "index path must have a parent directory"));
  failed ← perform (CreateDirAll parent);
  lift (match failed with Some source => Err (Io (fold_left push parent EmptyString) source) | None => Ok tt end).

Definition open_index_rw (index_path : string) : reff unit :=
  r ← perform (OpenRw index_path);
  lift (match r with inl e => Err (map_sqlite_error index_path e) | inr _ => Ok tt end).

Definition initialize_schema : reff unit :=
  r ← perform ExecuteSchema;
  sqlite r;;
  r ← perform (SetMetadata "schema_version" "1");
  sqlite r;;
  r ← perform (SetMetadata "authority_boundary" AUTHORITY_BOUNDARY);
  sqlite r.

Definition quick_check (index_path : string) : reff unit :=
  r ← perform QuickCheck;
  lift (match r with
        | inl e => Err (map_sqlite_error index_path e)
        | inr text => fail_if (negb (String.eqb text "ok")) (CorruptDatabase index_path text)
        end).

Definition set_secure_permissions (index_path : string) : reff unit :=
  failed ← perform (SetPermissions index_path 416);
  lift (match failed with Some source => Err (Io index_path source) | None => Ok tt end).

(** One source: a new report, no documents yet. *)
Definition start_source : reff unit :=
  with_state (fun s => ({| is_budget := is_budget s; is_counts := MkCounts 0 0 0 0 0 0 0 0 0 0; is_docs := [] |}, Ok tt)).

Definition take_documents : reff (list CollectedDocument) := with_state (fun s => (s, Ok (is_docs s))).

Definition source_report (source : SourceConfig) : reff SourceReport :=
  with_state (fun s =>
    let report := SourceReport_new (sc_name source) (as_model (sc_kind source)) (trust_label source)
                    (configured_roots source) in
    (s, Ok {| sr_name := sr_name report; sr_kind := sr_kind report; sr_trust_label := sr_trust_label report;
              sr_configured_roots := sr_configured_roots report; sr_counts := is_counts s |})).

Definition index_source (config : RetrievalConfig) (source : SourceConfig) : reff SourceReport :=
  start_source;;
  collect_documents_for_source source config;;
  docs ← take_documents;
  apply_source_documents source docs;;
  source_report source.

Fixpoint index_sources (config : RetrievalConfig) (sources : list SourceConfig) : reff (list SourceReport) :=
  match sources with
  | [] => mret []
  | source :: rest =>
      report ← index_source config source;
      reports ← index_sources config rest;
      mret (report :: reports)
  end.

Definition total (k : Counter) (sources : list SourceReport) : usize :=
  foldr (fun source n => counter k (sr_counts source) + n) 0 sources.

Definition index_report (index_path : string) (config : RetrievalConfig) (sources : list SourceReport) : IndexReport :=
  {| xr_protocol_id := COMMON_PROTOCOL_ID; xr_router_contract_id := ROUTER_CONTEXT_ID;
     xr_index_path := display index_path; xr_authority_boundary := AUTHORITY_BOUNDARY;
     xr_max_file_count := rc_max_file_count config; xr_max_file_bytes := rc_max_file_bytes config;
     xr_max_total_bytes := rc_max_total_bytes config;
     xr_indexed_total := total IndexedDocuments sources; xr_inserted_total := total Inserted sources;
     xr_updated_total := total Updated sources; xr_removed_total := total Removed sources;
     xr_skipped_total := total SkippedBudget sources + total SkippedOutsideAllowlist sources
       + total SkippedOversize sources + total SkippedUnreadable sources;
     xr_sources := sources |}.

(** From the state [start config], which replaces the locals of [rebuild]. *)
Definition start (config : RetrievalConfig) : IndexState :=
  {| is_budget := Budget_new (rc_max_file_count config) (rc_max_total_bytes config);
     is_counts := MkCounts 0 0 0 0 0 0 0 0 0 0; is_docs := [] |}.

Definition rebuild (index_path : string) (config : RetrievalConfig) : reff IndexReport :=
  verify_non_root_identity;;
  lift (RetrievalConfig_validate config);;
  ensure_parent_directory index_path;;
  open_index_rw index_path;;
  initialize_schema;;
  r ← perform BeginTransaction;
  sqlite r;;
  sources ← index_sources config (rc_source config);
  r ← perform CommitTransaction;
  sqlite r;;
  quick_check index_path;;
  set_secure_permissions index_path;;
  mret (index_report index_path config sources).
End indexer.
