(* ===== verification/RetrievalSafety.v ===== *)
(** * What indexing may read and store

    Theorems about [rebuild] of [RetrievalIndex] in every environment: the files it reads,
    the budget it keeps, and the table of documents it leaves. *)

From Stdlib Require Import Ascii String.
From S2P Require Import Prelude RustStr RustText Effects Monitor RetrievalConfig RetrievalIndex.

(** ** Which files are read *)

(** The path was resolved from a candidate, lies under the resolved root of a source, and is
    a file within the limit. *)
Definition inside_root (config : RetrievalConfig) (before : list (event rsys)) (path : string) : Prop :=
  exists source root canonical candidate metadata,
    source ∈ rc_source config /\ root ∈ sc_roots source /\
    Event _ (CanonicalizePath root) (inr canonical) ∈ before /\
    Event _ (CanonicalizePath candidate) (inr path) ∈ before /\
    path_starts_with canonical path = true /\
    Event _ (ReadMetadata path) (inr metadata) ∈ before /\
    fm_is_file metadata = true /\ fm_len metadata <= rc_max_file_bytes config.

(** The path is the one a package source of the configuration names, which was seen to be within
    the limit.  Such a path is opened as it stands: [collect_dpkg_documents] neither resolves
    it nor asks for a regular file. *)
Definition package_database (config : RetrievalConfig) (before : list (event rsys)) (path : string) : Prop :=
  exists source metadata,
    source ∈ rc_source config /\ sc_kind source = DpkgStatus /\ sc_path source = Some path /\
    Event _ (ReadMetadata path) (inr metadata) ∈ before /\ fm_len metadata <= rc_max_file_bytes config.

Definition permitted_read (config : RetrievalConfig) (before : list (event rsys)) (e : event rsys) : Prop :=
  match ev_call e with
  | ReadBytes path => inside_root config before path
  | ReadText path => package_database config before path
  | _ => True
  end.

Lemma permitted_read_grows config before before' e :
  before ⊆ before' -> permitted_read config before e -> permitted_read config before' e.
Proof.
  intros Hs. unfold permitted_read, inside_root, package_database. destruct (ev_call e); try done.
  - intros (source & root & canonical & candidate & metadata & H). exists source, root, canonical, candidate, metadata.
    destruct_and!. repeat split; try done; by apply Hs.
  - intros (source & metadata & H). exists source, metadata. destruct_and!. repeat split; try done; by apply Hs.
Qed.

(** The guard after a part of the run. *)
Abbreviation permitted_after config t := (fun before => permitted_read config (t ++ before)).

Lemma permitted_monotone config t : monotone (permitted_after config t).
Proof. intros u before e. apply permitted_read_grows. set_solver. Qed.

Definition reads_nothing (e : event rsys) : Prop :=
  match ev_call e with ReadBytes _ | ReadText _ => False | _ => True end.

Lemma guarded_quiet config f {A} (m : reff A) :
  emits reads_nothing m -> guarded (fun before => permitted_read config (f before)) m.
Proof. apply guarded_emits. intros before e. unfold permitted_read, reads_nothing. by destruct (ev_call e). Qed.

Lemma guarded_for_each {A} P (body : A -> reff unit) l :
  monotone P -> (forall a, a ∈ l -> guarded P (body a)) -> guarded P (for_each_eff body l).
Proof.
  intros HP. induction l as [|a l IH]; intros Hb; cbn [for_each_eff]; [apply guarded_ret|].
  apply guarded_seq; [done|apply Hb; constructor|]. intros _. apply IH. intros a' Ha'. apply Hb. by constructor.
Qed.

Section reads.
Context (hash_content : string -> string) (gunzip : string -> result string string).
Context (hash_order : list string -> list string) (config : RetrievalConfig).

Lemma count_quiet k : emits reads_nothing (count k).
Proof. apply emits_with_state. Qed.

Lemma admit_quiet content modified document :
  emits reads_nothing modified -> emits reads_nothing (admit_document config content modified document).
Proof. intros Hm. unfold admit_document, count, consume_budget, keep_document. emits_tac; done. Qed.

Lemma modified_quiet metadata : emits reads_nothing (modified_seconds metadata).
Proof. unfold modified_seconds, now_unix_seconds. emits_tac; done. Qed.

(** One document, after its root was resolved. *)
Lemma maybe_collect_permitted source root canonical t candidate is_manpage :
  source ∈ rc_source config -> root ∈ sc_roots source -> Event _ (CanonicalizePath root) (inr canonical) ∈ t ->
  guarded (permitted_after config t)
    (maybe_collect_document hash_content gunzip source config candidate [canonical] is_manpage).
Proof.
  intros Hs Hr Ht. unfold maybe_collect_document, resolve_if_allowed.
  apply guarded_seq; [apply permitted_monotone|apply guarded_quiet, count_quiet|intros _].
  destruct (_ && _); [apply guarded_ret|].
  apply guarded_reply_then; [done|]. intros [e|resolved]; [apply guarded_quiet, count_quiet|].
  cbn [contains_resolved existsb]. rewrite orb_false_r.
  destruct (path_starts_with canonical resolved) eqn:Hp; [|apply guarded_quiet, count_quiet].
  apply guarded_perform_then; [done|]. intros [e|metadata]; [apply guarded_quiet, count_quiet|].
  destruct (fm_is_file metadata) eqn:Hf; cbn [negb]; [|apply guarded_ret].
  destruct (Z.ltb_spec (rc_max_file_bytes config) (fm_len metadata)); [apply guarded_quiet, count_quiet|].
  assert (forall content, emits reads_nothing (collect_content hash_content source config resolved metadata content))
    as Hrest.
  { intros [content| |]; [apply admit_quiet, modified_quiet|apply count_quiet..]. }
  assert (inside_root config (t ++ [Event _ (CanonicalizePath candidate) (inr resolved);
                                    Event _ (ReadMetadata resolved) (inr metadata)]) resolved) as Hin.
  { exists source, root, canonical, candidate, metadata. repeat split; try done; set_solver. }
  destruct is_manpage; unfold read_manpage_without_macro_execution, read_plain;
    (apply guarded_reply_then; [intros r; exact Hin|intros r; apply guarded_quiet, Hrest]).
Qed.

Lemma visit_permitted P collect entry :
  monotone P -> (forall m : reff unit, emits reads_nothing m -> guarded P m) ->
  (forall path, guarded P (collect path)) -> guarded P (visit_entry collect entry).
Proof.
  intros HP Hq Hc. unfold visit_entry. destruct entry as [entry|]; [|apply Hq, count_quiet].
  destruct (_ && _); [apply guarded_ret|apply Hc].
Qed.

Lemma walk_permitted t source root collect :
  (forall path, guarded (permitted_after config t) (collect path)) ->
  guarded (permitted_after config t) (walk source root collect).
Proof.
  intros Hc. unfold walk. apply guarded_seq; [apply permitted_monotone|by apply guarded_perform|].
  intros entries. apply guarded_for_each; [apply permitted_monotone|]. intros entry _.
  apply visit_permitted; [apply permitted_monotone|intros m; apply guarded_quiet|done].
Qed.

Lemma with_root_permitted t root body :
  (forall canonical u, Event _ (CanonicalizePath root) (inr canonical) ∈ u ->
     guarded (permitted_after config u) (body [canonical])) ->
  guarded (permitted_after config t) (with_root root body).
Proof.
  intros Hb. unfold with_root, for_root. apply guarded_perform_then; [done|]. intros [];
    [|apply guarded_quiet, count_quiet]. cbn [negb].
  apply guarded_reply_then; [done|]. intros [e|canonical]; [apply guarded_quiet, count_quiet|].
  eapply guarded_mono; [|apply (Hb canonical (t ++ [Event _ (PathExists root) true; Event _ (CanonicalizePath root) (inr canonical)]));
    set_solver].
  intros before e. apply permitted_read_grows. set_solver.
Qed.

Lemma collect_permitted t source :
  source ∈ rc_source config ->
  guarded (permitted_after config t) (collect_documents_for_source hash_content gunzip source config).
Proof.
  intros Hs. unfold collect_documents_for_source. destruct (sc_kind source) eqn:Hk.
  - apply guarded_for_each; [apply permitted_monotone|]. intros root Hr. apply with_root_permitted.
    intros canonical u Hu. apply guarded_seq; [apply permitted_monotone|by apply guarded_perform|]. intros [].
    + by eapply maybe_collect_permitted.
    + apply walk_permitted. intros path. by eapply maybe_collect_permitted.
  - unfold collect_dpkg_documents. destruct (sc_path source) as [path|] eqn:Hp; [|apply guarded_lift].
    apply guarded_perform_then; [done|]. intros [e|metadata]; [apply guarded_quiet, count_quiet|].
    destruct (Z.ltb_spec (rc_max_file_bytes config) (fm_len metadata)); [apply guarded_quiet, count_quiet|].
    apply guarded_perform_then.
    { intros r. exists source, metadata. repeat split; try done. set_solver. }
    intros [e|text]; [apply guarded_quiet, count_quiet|].
    apply guarded_quiet. apply emits_bind; [apply modified_quiet|]. intros modified.
    generalize (parse_dpkg_status text). intros l. induction l as [|package l IH]; cbn [for_each_eff]; [apply emits_ret|].
    apply emits_bind; [|done]. unfold collect_package. apply emits_bind; [apply count_quiet|intros _].
    destruct (negb _); [apply emits_ret|apply admit_quiet, emits_ret].
  - apply guarded_for_each; [apply permitted_monotone|]. intros root Hr. apply with_root_permitted.
    intros canonical u Hu. apply walk_permitted. intros path. destruct (negb _); [apply guarded_ret|].
    destruct (_ && _); [apply guarded_ret|]. by eapply maybe_collect_permitted.
Qed.

Lemma sqlite_quiet {A} (r : SqliteError + A) : emits reads_nothing (sqlite r).
Proof. apply emits_lift. Qed.

Lemma for_each_quiet {A} (body : A -> reff unit) l :
  (forall a, emits reads_nothing (body a)) -> emits reads_nothing (for_each_eff body l).
Proof. intros Hb. induction l as [|a l IH]; cbn [for_each_eff]; [apply emits_ret|]. by apply emits_bind. Qed.

Ltac quiet :=
  repeat first [apply emits_bind; [|intros ?]|apply count_quiet|apply sqlite_quiet|apply emits_lift|apply emits_ret
    |by apply emits_perform].

Lemma apply_document_quiet existing indexed_at doc : emits reads_nothing (apply_document existing indexed_at doc).
Proof.
  unfold apply_document. cbv zeta. apply emits_bind; [apply count_quiet|intros _].
  destruct (_ !! _); [destruct (String.eqb _ _)|]; quiet.
Qed.

Lemma remove_stale_quiet source stale : emits reads_nothing (remove_stale source stale).
Proof. unfold remove_stale. quiet. Qed.

Lemma apply_quiet source docs : emits reads_nothing (apply_source_documents hash_order source docs).
Proof.
  unfold apply_source_documents, load_existing_hashes, now_unix_seconds.
  apply emits_bind; [quiet|intros existing]. apply emits_bind; [quiet|intros r]. apply emits_bind; [quiet|intros _].
  apply emits_bind; [quiet|intros indexed_at].
  apply emits_bind; [apply for_each_quiet; intros doc; apply apply_document_quiet|intros _].
  apply emits_bind; [quiet|intros r']. apply emits_bind; [quiet|intros _].
  apply for_each_quiet. intros stale. apply remove_stale_quiet.
Qed.

Lemma index_sources_permitted t sources :
  sources ⊆ rc_source config ->
  guarded (permitted_after config t) (index_sources hash_content gunzip hash_order config sources).
Proof.
  induction sources as [|source sources IH]; intros Hs; cbn [index_sources]; [apply guarded_ret|].
  apply guarded_seq; [apply permitted_monotone| |].
  - unfold index_source. apply guarded_seq; [apply permitted_monotone|apply guarded_with_state|intros _].
    apply guarded_seq; [apply permitted_monotone|apply collect_permitted; set_solver|intros _].
    apply guarded_quiet. apply emits_bind; [apply emits_with_state|intros docs].
    apply emits_bind; [apply apply_quiet|intros _]. apply emits_with_state.
  - intros report. apply guarded_seq; [apply permitted_monotone|apply IH; set_solver|]. intros reports. apply guarded_ret.
Qed.

(** Indexing reads only documentation: in every environment [rebuild] opens a file only
    when its resolved path lies under the resolved root of a configured source (no symbolic
    link leads out) and its metadata showed a regular file within [max_file_bytes], or when
    it is the package database of a source, within the same limit. *)
Theorem indexing_reads_only_allowed_files index_path :
  guarded (permitted_read config) (rebuild hash_content gunzip hash_order index_path config).
Proof.
  assert (monotone (permitted_read config)) as HP by apply (permitted_monotone config []).
  assert (forall A (m : reff A), emits reads_nothing m -> guarded (permitted_read config) m) as Hq
    by (intros A m; apply (guarded_quiet config id)).
  unfold rebuild, verify_non_root_identity, ensure_parent_directory, open_index_rw, initialize_schema, quick_check,
    set_secure_permissions.
  do 7 (apply guarded_seq; [exact HP|apply Hq; quiet|intros ?]).
  apply guarded_seq; [exact HP|by apply (index_sources_permitted [])|intros sources]. apply Hq. quiet.
Qed.
End reads.

(** ** The budget *)

(** The rows a run writes, and their size. *)
Definition upserted (e : event rsys) : option CollectedDocument :=
  match ev_call e with Upsert row _ => Some row | _ => None end.
Definition upserts (t : list (event rsys)) : list CollectedDocument := omap upserted t.
Fixpoint rows_bytes (rows : list CollectedDocument) : Z :=
  match rows with [] => 0 | row :: rest => cd_byte_len row + rows_bytes rest end.

Definition writes_nothing (e : event rsys) : Prop := upserted e = None.

Lemma upserts_app t u : upserts (t ++ u) = upserts t ++ upserts u.
Proof. apply omap_app. Qed.

Lemma upserts_none t : Forall writes_nothing t -> upserts t = [].
Proof. induction 1 as [|e t He _ IH]; [done|]. unfold upserts in *. cbn. by rewrite He. Qed.

(** A document the indexer may keep. *)
Record acceptable (config : RetrievalConfig) (row : CollectedDocument) : Prop := {
  ac_length : cd_byte_len row = len (cd_content row);
  ac_limit : cd_byte_len row <= rc_max_file_bytes config;
}.

Record within (b : Budget) : Prop := {
  wi_files : 0 <= bg_consumed_files b <= bg_max_file_count b;
  wi_bytes : 0 <= bg_consumed_bytes b <= bg_max_total_bytes b;
}.

(** [n] files and [bytes] bytes were taken from the budget [b], which leaves [b']. *)
Record taken (b b' : Budget) (rows : list CollectedDocument) : Prop := {
  tk_files_limit : bg_max_file_count b' = bg_max_file_count b;
  tk_bytes_limit : bg_max_total_bytes b' = bg_max_total_bytes b;
  tk_within : within b';
  tk_files : bg_consumed_files b + Z.of_nat (length rows) <= bg_consumed_files b';
  tk_bytes : bg_consumed_bytes b + rows_bytes rows <= bg_consumed_bytes b';
}.

Lemma rows_bytes_app l k : rows_bytes (l ++ k) = rows_bytes l + rows_bytes k.
Proof. induction l as [|row l IH]; cbn [rows_bytes app]; lia. Qed.

Lemma taken_refl b : within b -> taken b b [].
Proof. intros Hb. constructor; cbn; lia || done. Qed.

Lemma taken_trans b b' b'' rows rows' : taken b b' rows -> taken b' b'' rows' -> taken b b'' (rows ++ rows').
Proof.
  intros [? ? ? ? ?] [? ? ? ? ?]. constructor; try done; try congruence; rewrite ?length_app, ?rows_bytes_app; lia.
Qed.

Lemma try_consume_taken b bytes b' rows :
  within b -> 0 <= bytes -> try_consume b bytes = Some b' -> (length rows <= 1)%nat -> rows_bytes rows <= bytes ->
  bg_max_total_bytes b < USIZE_MAX -> taken b b' rows.
Proof.
  intros [? ?] Hn. unfold try_consume, saturating_add. destruct (Z.leb_spec (bg_max_file_count b) (bg_consumed_files b)); [done|].
  destruct (Z.ltb_spec (bg_max_total_bytes b) (Z.min USIZE_MAX (bg_consumed_bytes b + bytes))); [done|].
  intros [= <-] Hl Hr Hm. constructor; cbn; try done; try lia. constructor; cbn; lia.
Qed.

(** What collecting may do to the state: nothing is written, the new documents are
    acceptable and paid for. *)
Definition collecting (config : RetrievalConfig) (s : IndexState) (t : list (event rsys)) (s' : IndexState) : Prop :=
  Forall writes_nothing t /\
  (within (is_budget s) -> bg_max_total_bytes (is_budget s) < USIZE_MAX ->
   exists docs, is_docs s' = is_docs s ++ docs /\ Forall (acceptable config) docs /\
     taken (is_budget s) (is_budget s') docs).

Lemma collecting_quiet config s t s' :
  Forall writes_nothing t -> is_docs s' = is_docs s -> is_budget s' = is_budget s -> collecting config s t s'.
Proof.
  intros Ht Hd Hb. split; [done|]. intros Hw _. exists []. rewrite Hd, Hb, app_nil_r.
  split; [done|]. split; [done|]. by apply taken_refl.
Qed.

Lemma collecting_trans config s t s' t' s'' :
  collecting config s t s' -> collecting config s' t' s'' -> collecting config s (t ++ t') s''.
Proof.
  intros [Ht H1] [Ht' H2]. split; [by apply Forall_app|]. intros Hw Hm.
  destruct (H1 Hw Hm) as (docs & Hd & Ha & Hk).
  destruct (H2 (tk_within _ _ _ Hk)) as (docs' & Hd' & Ha' & Hk'); [by rewrite (tk_bytes_limit _ _ _ Hk)|].
  exists (docs ++ docs'). rewrite Hd', Hd, app_assoc. split; [done|]. split; [by apply Forall_app|].
  by eapply taken_trans.
Qed.

(** [m] only collects. *)
Definition gathers (config : RetrievalConfig) {A} (m : reff A) : Prop := relates (collecting config) m.

Section budget.
Context (hash_content : string -> string) (gunzip : string -> result string string).
Context (hash_order : list string -> list string) (config : RetrievalConfig).

Lemma gathers_bind A B (m : reff A) (k : A -> reff B) :
  gathers config m -> (forall a, gathers config (k a)) -> gathers config (m ≫= k).
Proof. apply relates_bind. apply collecting_trans. Qed.

Lemma gathers_quiet A (m : reff A) : keeps_state m -> emits writes_nothing m -> gathers config m.
Proof. intros Hk He env h s. rewrite Hk. by apply collecting_quiet. Qed.

Lemma gathers_count k : gathers config (count k).
Proof. intros env h s. by apply collecting_quiet. Qed.

Lemma gathers_ret A (a : A) : gathers config (mret a).
Proof. intros env h s. by apply collecting_quiet. Qed.

Lemma gathers_lift A (r : result RetrievalError A) : gathers config (lift r).
Proof. intros env h s. by apply collecting_quiet. Qed.

Lemma gathers_perform A (c : rsys A) : (forall r, writes_nothing (Event A c r)) -> gathers config (perform c).
Proof. intros Hc env h s. apply collecting_quiet; [|done..]. by repeat constructor. Qed.

Lemma gathers_for_each {A} (body : A -> reff unit) l :
  (forall a, gathers config (body a)) -> gathers config (for_each_eff body l).
Proof. intros Hb. induction l as [|a l IH]; cbn [for_each_eff]; [apply gathers_ret|]. by apply gathers_bind. Qed.

Lemma admit_gathers content modified document :
  keeps_state modified -> emits writes_nothing modified ->
  (forall m, cd_content (document m) = content /\ cd_byte_len (document m) = len content) ->
  gathers config (admit_document config content modified document).
Proof.
  intros Hk He Hd. unfold admit_document. destruct (is_empty _); [apply gathers_ret|].
  destruct (Z.ltb_spec (rc_max_file_bytes config) (len content)); [apply gathers_count|].
  intros env h s. unfold consume_budget, with_state, mbind, eff_bind. cbn.
  destruct (try_consume (is_budget s) (len content)) as [b|] eqn:Hb; cbn; [|by apply collecting_quiet].
  set (s1 := {| is_budget := b; is_counts := is_counts s; is_docs := is_docs s |}).
  rewrite app_nil_r. specialize (Hk env h s1). specialize (He env h s1). pose proof (len_nonneg content) as Hn.
  assert (forall rows t s', Forall writes_nothing t -> is_docs s' = is_docs s ++ rows -> is_budget s' = b ->
            Forall (acceptable config) rows -> (length rows <= 1)%nat -> rows_bytes rows <= len content ->
            collecting config s t s') as Hc.
  { intros rows t s' Ht Hs' Hb' Ha Hl Hr. split; [done|]. intros Hw Hm. exists rows. rewrite Hb'.
    split; [done|]. split; [done|]. by eapply try_consume_taken. }
  destruct (value (modified env h s1)) as [m| |]; cbn; rewrite ?Hk, ?app_nil_r; cbn.
  - destruct (Hd m) as [Hd1 Hd2]. apply (Hc [document m]); try done; cbn [rows_bytes]; rewrite ?Hd2; [|lia].
    repeat constructor; rewrite ?Hd1, Hd2; [done|lia].
  - apply (Hc []); try done; cbn; [by rewrite app_nil_r|lia].
  - apply (Hc []); try done; cbn; [by rewrite app_nil_r|lia].
Qed.

Lemma modified_gathers metadata : keeps_state (modified_seconds metadata) /\ emits writes_nothing (modified_seconds metadata).
Proof.
  unfold modified_seconds, now_unix_seconds. destruct (fm_modified metadata); split; keeps_tac; emits_tac; done.
Qed.

Ltac gather :=
  repeat first [apply gathers_bind; [|intros ?]|apply gathers_count|apply gathers_ret|apply gathers_lift
    |by apply gathers_perform].

Lemma collect_content_gathers source resolved metadata content :
  gathers config (collect_content hash_content source config resolved metadata content).
Proof.
  unfold collect_content. destruct content; [|apply gathers_count..].
  destruct (modified_gathers metadata). by apply admit_gathers.
Qed.

Lemma maybe_collect_gathers source candidate allowlist is_manpage :
  gathers config (maybe_collect_document hash_content gunzip source config candidate allowlist is_manpage).
Proof.
  unfold maybe_collect_document, resolve_if_allowed. apply gathers_bind; [apply gathers_count|intros _].
  destruct (_ && _); [apply gathers_ret|]. apply gathers_bind; [gather|]. intros [[resolved|]| |]; try apply gathers_count.
  apply gathers_bind; [gather|]. intros [e|metadata]; [apply gathers_count|].
  destruct (negb _); [apply gathers_ret|]. destruct (_ <? _); [apply gathers_count|].
  apply gathers_bind; [|intros content; apply collect_content_gathers].
  destruct is_manpage; unfold read_manpage_without_macro_execution, read_plain; gather.
Qed.

Lemma walk_gathers source root collect : (forall path, gathers config (collect path)) -> gathers config (walk source root collect).
Proof.
  intros Hc. unfold walk. apply gathers_bind; [gather|]. intros entries. apply gathers_for_each. intros [entry|]; cbn;
    [|apply gathers_count]. destruct (_ && _); [apply gathers_ret|apply Hc].
Qed.

Lemma with_root_gathers root body : (forall allowlist, gathers config (body allowlist)) -> gathers config (with_root root body).
Proof.
  intros Hb. unfold with_root, for_root. apply gathers_bind; [gather|]. intros []; cbn; [|apply gathers_count].
  apply gathers_bind; [gather|]. intros [allowlist| |]; [apply Hb|apply gathers_count..].
Qed.

Lemma collect_gathers source : gathers config (collect_documents_for_source hash_content gunzip source config).
Proof.
  unfold collect_documents_for_source. destruct (sc_kind source).
  - apply gathers_for_each. intros root. apply with_root_gathers. intros allowlist. apply gathers_bind; [gather|].
    intros []; [apply maybe_collect_gathers|]. apply walk_gathers. intros path. apply maybe_collect_gathers.
  - unfold collect_dpkg_documents. destruct (sc_path source) as [path|]; [|apply gathers_lift].
    apply gathers_bind; [gather|]. intros [e|metadata]; [apply gathers_count|]. destruct (_ <? _); [apply gathers_count|].
    apply gathers_bind; [gather|]. intros [e|text]; [apply gathers_count|]. destruct (modified_gathers metadata).
    apply gathers_bind; [by apply gathers_quiet|]. intros modified. apply gathers_for_each. intros package.
    unfold collect_package. apply gathers_bind; [apply gathers_count|intros _].
    destruct (negb _); [apply gathers_ret|]. apply admit_gathers; [apply keeps_ret|apply emits_ret|done].
  - apply gathers_for_each. intros root. apply with_root_gathers. intros allowlist. apply walk_gathers. intros path.
    destruct (negb _); [apply gathers_ret|]. destruct (_ && _); [apply gathers_ret|]. apply maybe_collect_gathers.
Qed.
(** ** Writing the table *)

(** [m] leaves documents and budget alone and writes some of [docs], in order. *)
Definition writes (docs : list CollectedDocument) {A} (m : reff A) : Prop :=
  forall env h s, let o := m env h s in
    sublist (upserts (trace o)) docs /\ is_budget (final o) = is_budget s /\ is_docs (final o) = is_docs s.

Lemma writes_bind docs docs' A B (m : reff A) (k : A -> reff B) :
  writes docs m -> (forall a, writes docs' (k a)) -> writes (docs ++ docs') (m ≫= k).
Proof.
  intros Hm Hk env h s. destruct (Hm env h s) as (Hs & Hb & Hd).
  destruct (run_bind_cases m k env h s) as [(a & _ & ->)|(_ & Ht & Hf & _)]; cbn [trace final].
  - destruct (Hk a env (h ++ trace (m env h s)) (final (m env h s))) as (Hs' & Hb' & Hd').
    rewrite upserts_app, Hb', Hd'. split; [by apply sublist_app|done].
  - rewrite Ht, Hf. split; [|done]. etrans; [exact Hs|]. by apply sublist_inserts_r.
Qed.

Lemma writes_nil A (m : reff A) :
  emits writes_nothing m -> (forall env h s, is_budget (final (m env h s)) = is_budget s /\ is_docs (final (m env h s)) = is_docs s) ->
  writes [] m.
Proof. intros Hm Hk env h s. cbn zeta. by rewrite upserts_none. Qed.

Lemma writes_count k : writes [] (count k).
Proof. by apply writes_nil; [apply emits_with_state|]. Qed.

Lemma writes_keeps A (m : reff A) : emits writes_nothing m -> keeps_state m -> writes [] m.
Proof. intros Hm Hk. apply writes_nil; [done|]. intros env h s. by rewrite Hk. Qed.

Lemma writes_sqlite A (r : SqliteError + A) : writes [] (sqlite r).
Proof. apply writes_keeps; [apply emits_lift|apply keeps_lift]. Qed.

Lemma writes_eq docs docs' A (m : reff A) : docs = docs' -> writes docs m -> writes docs' m.
Proof. by intros ->. Qed.

(** Two parts, of which only one writes. *)
Lemma writes_then docs A B (m : reff A) (k : A -> reff B) :
  writes [] m -> (forall a, writes docs (k a)) -> writes docs (m ≫= k).
Proof. apply (writes_bind []). Qed.

Lemma writes_for_each {A} (body : A -> reff unit) (rows : A -> list CollectedDocument) l :
  (forall a, writes (rows a) (body a)) -> writes (l ≫= rows) (for_each_eff body l).
Proof.
  intros Hb. induction l as [|a l IH]; cbn [for_each_eff]; [by apply writes_nil; [apply emits_ret|]|].
  by apply writes_bind.
Qed.

Lemma apply_document_writes existing indexed_at doc : writes [doc] (apply_document existing indexed_at doc).
Proof.
  assert (writes [doc] (r ← perform (Upsert doc indexed_at); sqlite r)) as Hu.
  { apply (writes_bind [doc] []); [|intros r; apply writes_sqlite]. intros env h s. cbn. by split. }
  assert (writes [doc] (count Unchanged)) as Hn.
  { intros env h s. destruct (writes_count Unchanged env h s) as [Hs Hk]. split; [|done].
    etrans; [exact Hs|]. apply sublist_nil_l. }
  unfold apply_document. cbv zeta. apply writes_then; [apply writes_count|intros _].
  destruct (_ !! _); [destruct (String.eqb _ _); [done|]|]; (apply writes_then; [apply writes_count|done]).
Qed.

Lemma list_bind_id {A} (l : list A) : (l ≫= fun a => [a]) = l.
Proof. induction l; cbn; [done|]. by f_equal. Qed.

Lemma list_bind_nil {A B} (l : list A) : (l ≫= fun _ => []) = ([] : list B).
Proof. by induction l. Qed.

Ltac unwritten :=
  first [apply writes_sqlite|apply writes_count
    |apply writes_keeps; [unfold now_unix_seconds; emits_tac; done|unfold now_unix_seconds; keeps_tac]].

Lemma apply_writes source docs : writes docs (apply_source_documents hash_order source docs).
Proof.
  unfold apply_source_documents, load_existing_hashes.
  apply writes_then; [apply writes_then; [unwritten|intros rows]; apply writes_then; [unwritten|intros r; unwritten]|].
  intros existing. do 3 (apply writes_then; [unwritten|intros ?]).
  eapply writes_eq; [apply app_nil_r|]. apply writes_bind.
  - eapply writes_eq; [apply list_bind_id|]. apply writes_for_each. intros doc. apply apply_document_writes.
  - intros _. do 2 (apply writes_then; [unwritten|intros ?]).
    eapply writes_eq; [apply (list_bind_nil (stale_paths hash_order existing docs))|]. apply writes_for_each. intros stale.
    unfold remove_stale. do 2 (apply writes_then; [unwritten|intros ?]). unwritten.
Qed.
(** ** Indexing keeps the budget *)

Lemma rows_bytes_nonneg rows : Forall (acceptable config) rows -> 0 <= rows_bytes rows.
Proof. induction 1 as [|row rows [Hl _] _ IH]; cbn [rows_bytes]; [lia|]. pose proof (len_nonneg (cd_content row)). lia. Qed.

Lemma rows_bytes_sublist rows rows' :
  sublist rows rows' -> Forall (acceptable config) rows' -> rows_bytes rows <= rows_bytes rows'.
Proof.
  induction 1 as [|row rows rows' Hs IH|row rows rows' Hs IH]; [done|..]; intros [[Hl _] Ha]%Forall_cons;
    cbn [rows_bytes]; specialize (IH Ha); pose proof (len_nonneg (cd_content row)); lia.
Qed.

Lemma taken_sublist b b' rows rows' :
  taken b b' rows' -> sublist rows rows' -> Forall (acceptable config) rows' -> taken b b' rows.
Proof.
  intros [? ? ? ? ?] Hs Ha. pose proof (sublist_length _ _ Hs). pose proof (rows_bytes_sublist _ _ Hs Ha).
  constructor; try done; lia.
Qed.

Definition indexing (s : IndexState) (t : list (event rsys)) (s' : IndexState) : Prop :=
  within (is_budget s) -> bg_max_total_bytes (is_budget s) < USIZE_MAX ->
  Forall (acceptable config) (upserts t) /\ taken (is_budget s) (is_budget s') (upserts t).

Lemma indexing_trans s t s' t' s'' : indexing s t s' -> indexing s' t' s'' -> indexing s (t ++ t') s''.
Proof.
  intros H1 H2 Hw Hm. destruct (H1 Hw Hm) as [Ha Hk].
  destruct (H2 (tk_within _ _ _ Hk)) as [Ha' Hk']; [by rewrite (tk_bytes_limit _ _ _ Hk)|].
  rewrite upserts_app. split; [by apply Forall_app|by eapply taken_trans].
Qed.

Lemma indexing_quiet s t s' : Forall writes_nothing t -> is_budget s' = is_budget s -> indexing s t s'.
Proof. intros Ht Hb Hw _. rewrite upserts_none, Hb by done. split; [done|by apply taken_refl]. Qed.

(** Collecting, and then writing what was collected. *)
Lemma index_source_indexing source : relates indexing (index_source hash_content gunzip hash_order config source).
Proof.
  intros env h s. unfold index_source.
  set (s0 := {| is_budget := is_budget s; is_counts := MkCounts 0 0 0 0 0 0 0 0 0 0; is_docs := [] |}).
  set (rest := (collect_documents_for_source hash_content gunzip source config;;
                docs ← take_documents; apply_source_documents hash_order source docs;; source_report source) : reff SourceReport).
  change (indexing s (trace (rest env (h ++ []) s0)) (final (rest env (h ++ []) s0))). subst rest.
  generalize (h ++ []). clear h. intros h.
  destruct (collect_gathers source env h s0) as [Hq Hc].
  destruct (run_bind_cases (collect_documents_for_source hash_content gunzip source config)
    (fun _ => docs ← take_documents; apply_source_documents hash_order source docs;; source_report source) env h s0)
    as [(a & _ & ->)|(_ & Ht & Hf & _)].
  - cbn [trace final]. set (t1 := trace _) in *. set (s1 := final _) in *.
    assert (writes (is_docs s1) (apply_source_documents hash_order source (is_docs s1);; source_report source)) as Hw.
    { eapply writes_eq; [apply app_nil_r|]. apply writes_bind; [apply apply_writes|intros _].
      by apply writes_nil; [apply emits_with_state|]. }
    destruct (Hw env ((h ++ t1) ++ []) s1) as (Hs & Hb & Hd). intros Hin Hm.
    destruct (Hc Hin Hm) as (docs & Hdocs & Ha & Hk). cbn in Hdocs. rewrite <-Hdocs in Ha, Hk.
    match goal with |- Forall _ (upserts (_ ++ trace (?m env ?h' s1))) /\ _ =>
      change (trace (m env h' s1)) with (trace ((apply_source_documents hash_order source (is_docs s1);; source_report source) env (h' ++ []) s1));
      change (final (m env h' s1)) with (final ((apply_source_documents hash_order source (is_docs s1);; source_report source) env (h' ++ []) s1)) end.
    rewrite upserts_app, upserts_none by done. cbn [app]. rewrite Hb.
    split; [|by eapply taken_sublist]. apply Forall_forall. rewrite Forall_forall in Ha.
    intros row Hrow. apply Ha. by eapply elem_of_sublist.
  - rewrite Ht, Hf. intros Hin Hm. destruct (Hc Hin Hm) as (docs & _ & Ha & Hk). rewrite upserts_none by done.
    split; [done|]. eapply taken_sublist; [exact Hk|apply sublist_nil_l|done].
Qed.
Lemma index_sources_indexing sources : relates indexing (index_sources hash_content gunzip hash_order config sources).
Proof.
  induction sources as [|source sources IH]; cbn [index_sources]; [intros env h s; by apply indexing_quiet|].
  apply relates_bind; [apply indexing_trans|apply index_source_indexing|]. intros report.
  apply relates_bind; [apply indexing_trans|exact IH|]. intros reports env h s. by apply indexing_quiet.
Qed.

Lemma quiet_indexing A (m : reff A) : emits writes_nothing m -> keeps_state m -> relates indexing m.
Proof. intros Hm Hk env h s. rewrite Hk. by apply indexing_quiet. Qed.

Lemma rebuild_indexing index_path : relates indexing (rebuild hash_content gunzip hash_order index_path config).
Proof.
  unfold rebuild, verify_non_root_identity, ensure_parent_directory, open_index_rw, initialize_schema, quick_check,
    set_secure_permissions, sqlite.
  do 7 (apply relates_bind; [apply indexing_trans|apply quiet_indexing; [emits_tac; done|keeps_tac]|intros ?]).
  apply relates_bind; [apply indexing_trans|apply index_sources_indexing|intros sources].
  apply quiet_indexing; [emits_tac; done|keeps_tac].
Qed.

(** C38 One rebuild of the index keeps its budget whatever the file system holds: it writes
    at most [max_file_count] documents of at most [max_total_bytes] in total, each of them
    within [max_file_bytes] and with its true length. *)
Theorem indexing_keeps_budget index_path env h :
  0 <= rc_max_file_count config -> 0 <= rc_max_total_bytes config < USIZE_MAX ->
  let rows := upserts (trace (rebuild hash_content gunzip hash_order index_path config env h (start config))) in
  Z.of_nat (length rows) <= rc_max_file_count config /\ rows_bytes rows <= rc_max_total_bytes config /\
  Forall (acceptable config) rows.
Proof.
  intros Hn Hb rows. destruct (rebuild_indexing index_path env h (start config)) as [Ha [? ? [? ?] ? ?]]; cbn in *;
    [split; cbn; lia|lia|]. fold rows in Ha. subst rows. repeat split; [lia|lia|done].
Qed.
End budget.
