(* ===== verification/RetrievalTable.v ===== *)
(** * The table of documents follows the sources

    The statements of [apply_source_documents] with the meaning SQL gives them: the table
    is keyed by path, an upsert replaces the row of its path, a deletion names source and
    path.  When the database answers its queries accordingly, applying the documents of a
    source leaves exactly them as the rows of that source.  Concrete runs follow. *)

From Stdlib Require Import Ascii String.
From S2P Require Import Prelude RustStr RustText Effects Monitor RetrievalConfig RetrievalIndex RetrievalSafety.

(** ** The meaning of the statements *)

Abbreviation table := (gmap string CollectedDocument).

Definition delete_row (source_name path : string) (T : table) : table :=
  match T !! path with
  | Some row => if String.eqb (cd_source_name row) source_name then delete path T else T
  | None => T
  end.

Definition table_step (T : table) (e : event rsys) : table :=
  match ev_call e in rsys A return A -> table with
  | Upsert row _ => fun r => match r with inr _ => <[cd_path row := row]> T | inl _ => T end
  | DeleteRow source_name path => fun r => match r with inr _ => delete_row source_name path T | inl _ => T end
  | _ => fun _ => T
  end (ev_reply e).

(** The table after a history, from the table [T0]. *)
Definition table_after (T0 : table) (h : list (event rsys)) : table := fold_left table_step h T0.

(** [SELECT path, content_hash FROM documents WHERE source_name = ?1] *)
Definition selected (source_name : string) (T : table) : list (string * string) :=
  (fun '(path, row) => (path, cd_content_hash row)) <$>
  filter (fun '(_, row) => cd_source_name row = source_name) (map_to_list T).

(** The database answers a query from its table, in any order. *)
Definition honest_database (env : environment rsys) (T0 : table) : Prop :=
  forall h source_name rows, env h _ (SelectHashes source_name) = inr rows ->
    exists l, rows = map inr l /\ l ≡ₚ selected source_name (table_after T0 h).

Lemma table_after_app T0 h t : table_after T0 (h ++ t) = table_after (table_after T0 h) t.
Proof. apply fold_left_app. Qed.

Definition keeps_table (e : event rsys) : Prop := forall T, table_step T e = T.

Lemma table_after_keeps T t : Forall keeps_table t -> table_after T t = T.
Proof. induction 1 as [|e t He _ IH]; [done|]. cbn. by rewrite He. Qed.

(** ** What is loaded *)

Lemma read_rows_Ok v l M : read_rows v (map inr l) = Ok M -> NoDup l.*1 ->
  forall path hash, M !! path = Some hash <-> (path, hash) ∈ l \/ (path ∉ l.*1 /\ v !! path = Some hash).
Proof.
  revert v. induction l as [|[p h] l IH]; intros v; cbn [map read_rows fmap list_fmap]; intros Hr Hn path hash.
  { injection Hr as <-. set_solver. }
  apply NoDup_cons in Hn as [Hp Hn]. rewrite (IH _ Hr Hn). cbn.
  destruct (decide (path = p)) as [->|Hne].
  - rewrite lookup_insert_eq. split.
    + intros [Hin|[_ [= <-]]]; [destruct Hp; by apply (list_elem_of_fmap_2 fst) in Hin|left; constructor].
    + intros [[[= ->]|Hin]%elem_of_cons|[Hnot _]]; [by right|by left|]. destruct Hnot. constructor.
  - rewrite lookup_insert_ne by done. rewrite !elem_of_cons. naive_solver.
Qed.

Lemma selected_spec source_name T path hash :
  (path, hash) ∈ selected source_name T <->
  exists row, T !! path = Some row /\ cd_source_name row = source_name /\ cd_content_hash row = hash.
Proof.
  unfold selected. rewrite list_elem_of_fmap. split.
  - intros ([p row] & [= -> ->] & [Hs Hin%elem_of_map_to_list]%list_elem_of_filter). eauto.
  - intros (row & Hr & Hs & <-). exists (path, row). split; [done|]. apply list_elem_of_filter.
    split; [done|]. by apply elem_of_map_to_list.
Qed.

Lemma selected_NoDup source_name T : NoDup (selected source_name T).*1.
Proof.
  unfold selected. rewrite <-list_fmap_compose.
  rewrite (list_fmap_ext _ fst) by (by intros i [p row]).
  eapply sublist_NoDup; [apply (NoDup_fst_map_to_list T)|]. apply fmap_sublist, sublist_filter.
Qed.

(** The loaded hashes are those of the source's rows. *)
Lemma loaded_hashes env T0 h source_name (s : IndexState) existing :
  honest_database env T0 ->
  value (load_existing_hashes source_name env h s) = Ok existing ->
  forall path hash, existing !! path = Some hash <->
    exists row, table_after T0 h !! path = Some row /\ cd_source_name row = source_name /\ cd_content_hash row = hash.
Proof.
  intros Hdb Hv path hash. unfold load_existing_hashes in Hv.
  apply run_bind_Ok in Hv as (r & Hr & Hv & _). cbn in Hr. injection Hr as Hr.
  destruct r as [e|rows]; [by cbn in Hv|].
  apply run_bind_Ok in Hv as (rows' & Hrows & Hv & _). cbn in Hrows, Hv. injection Hrows as <-.
  destruct (Hdb _ _ _ Hr) as (l & -> & Hl).
  assert (NoDup l.*1) as Hn by (rewrite Hl; apply selected_NoDup).
  rewrite (read_rows_Ok _ _ _ Hv Hn), Hl, selected_spec, lookup_empty. naive_solver.
Qed.

(** ** The documents *)

Section sync.
Context (T0 : table) (existing : gmap string string) (source_name : string).

(** The table after the documents [done] were applied to [T0]. *)
Record applied (done : list CollectedDocument) (T : table) : Prop := {
  ap_rows : forall path, path ∈ map cd_path done ->
    exists row doc, T !! path = Some row /\ doc ∈ done /\ cd_path doc = path /\
      cd_content_hash row = cd_content_hash doc /\
      (row ∈ done \/ T0 !! path = Some row /\ cd_source_name row = source_name);
  ap_rest : forall path, path ∉ map cd_path done -> T !! path = T0 !! path;
}.

Context (existing_rows : forall path hash, existing !! path = Some hash ->
  exists row, T0 !! path = Some row /\ cd_source_name row = source_name /\ cd_content_hash row = hash).

Lemma applied_upsert done doc T : applied done T -> applied (done ++ [doc]) (<[cd_path doc := doc]> T).
Proof.
  intros [Hr Hn]. constructor; intros path; rewrite map_app, elem_of_app; cbn; rewrite list_elem_of_singleton.
  - destruct (decide (path = cd_path doc)) as [->|Hne].
    + intros _. exists doc, doc. rewrite lookup_insert_eq. repeat split; try done; set_solver.
    + intros [Hin|?]; [|done]. destruct (Hr _ Hin) as (row & d & HT & Hd & Hp & Hh & Hw). exists row, d.
      rewrite lookup_insert_ne by done. repeat split; try done; set_solver.
  - intros Hnot. rewrite lookup_insert_ne by (intros <-; tauto). apply Hn. tauto.
Qed.

Lemma applied_unchanged done doc T :
  applied done T -> existing !! cd_path doc = Some (cd_content_hash doc) -> applied (done ++ [doc]) T.
Proof.
  intros [Hr Hn] He. constructor; intros path; rewrite map_app, elem_of_app; cbn; rewrite list_elem_of_singleton.
  - intros Hin. destruct (decide (path ∈ map cd_path done)) as [Hd|Hd].
    + destruct (Hr _ Hd) as (row & d & HT & ? & ? & ? & ?). exists row, d. repeat split; try done; set_solver.
    + destruct Hin as [| ->]; [done|]. destruct (existing_rows _ _ He) as (row & HT & Hs & Hh). exists row, doc.
      rewrite Hn by done. repeat split; try done; set_solver.
  - intros Hnot. apply Hn. tauto.
Qed.

Lemma upsert_run doc indexed_at env h (s : IndexState) u T :
  value ((r ← perform (Upsert doc indexed_at); sqlite r) env h s) = Ok u ->
  table_after T (trace ((r ← perform (Upsert doc indexed_at); sqlite r) env h s)) = <[cd_path doc := doc]> T.
Proof.
  intros Hv. apply run_bind_Ok in Hv as (r & Hr & Hv & -> & _). cbn in *. injection Hr as ->.
  by destruct r as [e|[]].
Qed.

Lemma apply_document_run indexed_at doc env h (s : IndexState) done T :
  value (apply_document existing indexed_at doc env h s) = Ok tt -> applied done T ->
  applied (done ++ [doc]) (table_after T (trace (apply_document existing indexed_at doc env h s))).
Proof.
  intros Hv Ha. unfold apply_document in *. cbv zeta in *. apply run_bind_Ok in Hv as ([] & _ & Hv & -> & _).
  rewrite table_after_app. change (table_after T (trace (count IndexedDocuments env h s))) with T.
  set (h1 := h ++ _) in *. set (s1 := final _) in *. clearbody h1 s1.
  assert (forall k, value ((count k;; r ← perform (Upsert doc indexed_at); sqlite r) env h1 s1) = Ok tt ->
    applied (done ++ [doc]) (table_after T (trace ((count k;; r ← perform (Upsert doc indexed_at); sqlite r) env h1 s1)))) as Hup.
  { intros k Hk. apply run_bind_Ok in Hk as ([] & _ & Hk & -> & _). rewrite table_after_app.
    change (table_after T (trace (count k env h1 s1))) with T. rewrite (upsert_run _ _ _ _ _ _ _ Hk).
    by apply applied_upsert. }
  destruct (existing !! cd_path doc) as [hash|] eqn:He; [|by apply Hup].
  destruct (String.eqb_spec hash (cd_content_hash doc)) as [->|_]; [|by apply Hup].
  by apply applied_unchanged.
Qed.

Lemma apply_documents_run indexed_at docs env h (s : IndexState) done T :
  value (for_each_eff (apply_document existing indexed_at) docs env h s) = Ok tt -> applied done T ->
  applied (done ++ docs) (table_after T (trace (for_each_eff (apply_document existing indexed_at) docs env h s))).
Proof.
  revert h s done T. induction docs as [|doc docs IH]; intros h s done T; cbn [for_each_eff]; [by rewrite app_nil_r|].
  intros Hv Ha. apply run_bind_Ok in Hv as ([] & Hd & Hv & -> & _). rewrite table_after_app.
  replace (done ++ doc :: docs) with ((done ++ [doc]) ++ docs) by (by rewrite <-app_assoc). apply IH; [done|]. by apply apply_document_run.
Qed.
End sync.

(** ** The stale rows *)

(** The row of [path] belongs to the source. *)
Definition owned (source_name : string) (T : table) (path : string) : bool :=
  match T !! path with Some row => String.eqb (cd_source_name row) source_name | None => false end.

Lemma delete_row_lookup source_name path T p :
  delete_row source_name path T !! p = if bool_decide (p = path) && owned source_name T p then None else T !! p.
Proof.
  unfold delete_row, owned. case_bool_decide as Hp; cbn; [subst|].
  - destruct (T !! path) as [row|] eqn:HT; [|done]. destruct (String.eqb _ _); [apply lookup_delete_eq|done].
  - destruct (T !! path) as [row|]; [|done]. destruct (String.eqb _ _); [by rewrite lookup_delete_ne|done].
Qed.

Lemma remove_stale_run source path env h (s : IndexState) u T :
  value (remove_stale source path env h s) = Ok u ->
  table_after T (trace (remove_stale source path env h s)) = delete_row (sc_name source) path T.
Proof.
  intros Hv. unfold remove_stale in *. apply run_bind_Ok in Hv as (r & Hr & Hv & -> & _). cbn in *. injection Hr as ->.
  by destruct r as [e|[]].
Qed.

Lemma remove_all_run source paths env h (s : IndexState) T p :
  value (for_each_eff (remove_stale source) paths env h s) = Ok tt ->
  table_after T (trace (for_each_eff (remove_stale source) paths env h s)) !! p =
    if bool_decide (p ∈ paths) && owned (sc_name source) T p then None else T !! p.
Proof.
  revert h s T. induction paths as [|path paths IH]; intros h s T; cbn [for_each_eff].
  { intros _. rewrite bool_decide_eq_false_2 by set_solver. done. }
  intros Hv. apply run_bind_Ok in Hv as ([] & Hd & Hv & -> & _). rewrite table_after_app.
  rewrite (remove_stale_run _ _ _ _ _ _ _ Hd), (IH _ _ _ Hv). unfold owned. rewrite delete_row_lookup. unfold owned.
  destruct (T !! p) as [row|]; [|by rewrite !andb_false_r].
  destruct (String.eqb (cd_source_name row) (sc_name source)) eqn:Ho; rewrite ?andb_false_r, ?andb_true_r; cbn;
    [|by rewrite Ho, andb_false_r].
  repeat case_bool_decide; cbn; rewrite ?Ho; set_solver.
Qed.

(** ** The whole operation *)

Definition untouched (e : event rsys) : Prop :=
  match ev_call e with Upsert _ _ | DeleteRow _ _ => False | _ => True end.

Lemma untouched_keeps e : untouched e -> keeps_table e.
Proof. destruct e as [A c r]. unfold untouched, keeps_table. cbn. by destruct c. Qed.

Lemma table_untouched T {A} (m : reff A) env h s : emits untouched m -> table_after T (trace (m env h s)) = T.
Proof. intros Hm. apply table_after_keeps. eapply Forall_impl; [apply Hm|apply untouched_keeps]. Qed.

(** A first part that leaves the table alone. *)
Lemma run_after_untouched {A} (m : reff A) (k : A -> reff unit) env h s T0 :
  emits untouched m -> value ((m ≫= k) env h s) = Ok tt ->
  exists a h' s', value (m env h s) = Ok a /\ value (k a env h' s') = Ok tt /\
    table_after T0 h' = table_after T0 h /\
    table_after T0 (h ++ trace ((m ≫= k) env h s)) = table_after T0 (h' ++ trace (k a env h' s')).
Proof.
  intros Hm Hv. apply run_bind_Ok in Hv as (a & Ha & Hv & -> & _). exists a, (h ++ trace (m env h s)), (final (m env h s)).
  split; [done|]. split; [done|]. rewrite app_assoc. split; [|done]. by rewrite table_after_app, table_untouched.
Qed.

Section whole.
Context (hash_order : list string -> list string) (hash_order_permutes : forall l, hash_order l ≡ₚ l).

(** The second half of the operation, after the documents were applied to [T]. *)
Lemma removal_run source existing docs env h s T0 :
  value ((r ← perform PrepareDelete; sqlite r;; for_each_eff (remove_stale source) (stale_paths hash_order existing docs))
           env h s) = Ok tt ->
  forall p, table_after T0 (h ++ trace ((r ← perform PrepareDelete; sqlite r;;
      for_each_eff (remove_stale source) (stale_paths hash_order existing docs)) env h s)) !! p =
    if bool_decide (p ∈ stale_paths hash_order existing docs) && owned (sc_name source) (table_after T0 h) p
    then None else table_after T0 h !! p.
Proof.
  intros Hv p. eapply (run_after_untouched _ _ _ _ _ T0) in Hv as (r & h1 & s1 & _ & Hv & <- & ->); [|by apply emits_perform].
  eapply (run_after_untouched _ _ _ _ _ T0) in Hv as (u & h2 & s2 & _ & Hv & <- & ->); [|apply emits_lift].
  rewrite table_after_app. by apply remove_all_run.
Qed.

Lemma stale_paths_spec existing docs p :
  p ∈ stale_paths hash_order existing docs <-> p ∉ map cd_path docs /\ is_Some (existing !! p).
Proof.
  unfold stale_paths. rewrite list_elem_of_filter, hash_order_permutes.
  assert (p ∈ map fst (map_to_list existing) <-> is_Some (existing !! p)) as ->; [|done].
  rewrite list_elem_of_fmap. split.
  - intros ([q v] & -> & Hq%elem_of_map_to_list). eauto.
  - intros [v Hv]. exists (p, v). split; [done|]. by apply elem_of_map_to_list.
Qed.

(** C36 Applying the documents of a source leaves the index in step with it: when the
    database answers queries from its table and every statement succeeds, each document's
    path has a row with the hash of a document of that path (a new row, or the old one of this
    source when its hash is the same), every other row of the source is gone, and at the paths
    of no document the rows of other sources are as before.  At the path of a document
    the row of another source is lost: the statement of an upsert replaces it. *)
Theorem index_follows_the_source source docs env T0 h s :
  honest_database env T0 ->
  value (apply_source_documents hash_order source docs env h s) = Ok tt ->
  let before := table_after T0 h in
  let after := table_after T0 (h ++ trace (apply_source_documents hash_order source docs env h s)) in
  (forall path, path ∈ map cd_path docs ->
     exists row doc, after !! path = Some row /\ doc ∈ docs /\ cd_path doc = path /\
       cd_content_hash row = cd_content_hash doc /\
       (row ∈ docs \/ before !! path = Some row /\ cd_source_name row = sc_name source)) /\
  (forall path, path ∉ map cd_path docs ->
     after !! path = if owned (sc_name source) before path then None else before !! path).
Proof.
  intros Hdb Hv before after. subst before after. unfold apply_source_documents in *.
  eapply (run_after_untouched _ _ _ _ _ T0) in Hv as (existing & h1 & s1 & Hload & Hv & HT1 & ->);
    [|unfold load_existing_hashes, sqlite; emits_tac; done].
  eapply (run_after_untouched _ _ _ _ _ T0) in Hv as (r & h2 & s2 & _ & Hv & HT2 & ->); [|by apply emits_perform].
  eapply (run_after_untouched _ _ _ _ _ T0) in Hv as (u & h3 & s3 & _ & Hv & HT3 & ->); [|apply emits_lift].
  eapply (run_after_untouched _ _ _ _ _ T0) in Hv as (indexed_at & h4 & s4 & _ & Hv & HT4 & ->);
    [|unfold now_unix_seconds; emits_tac; done].
  apply run_bind_Ok in Hv as ([] & Hdocs & Hv & -> & _). rewrite app_assoc.
  pose proof (loaded_hashes _ _ _ _ _ _ Hdb Hload) as Hex. rewrite HT3, HT2, HT1 in HT4. rewrite <-HT4 in Hex |- *.
  eapply (apply_documents_run (table_after T0 h4) existing (sc_name source)) with (done := []) (T := table_after T0 h4) in Hdocs as [Hrows Hrest].
  - rewrite <-table_after_app in Hrows, Hrest. pose proof (removal_run _ _ _ _ _ _ T0 Hv) as Hrm.
    split; intros path Hp; rewrite Hrm.
    + rewrite bool_decide_eq_false_2 by (rewrite stale_paths_spec; tauto). by apply Hrows.
    + unfold owned. rewrite Hrest by done. fold (owned (sc_name source) (table_after T0 h4) path).
      case_bool_decide as Hs; cbn; [done|]. destruct (owned _ _ _) eqn:Ho; [|done]. destruct Hs. apply stale_paths_spec.
      split; [done|]. unfold owned in Ho. destruct (table_after T0 h4 !! path) as [row|] eqn:HT; [|done].
      apply String.eqb_eq in Ho. exists (cd_content_hash row). apply Hex. eauto.
  - intros path hash (row & HT & Hs & Hh)%Hex. eauto.
  - constructor; [set_solver|done].
Qed.
End whole.

(** * Retrieval at work

    Concrete runs that meet the hypotheses of the theorems about the index, and inputs on
    which the code does less than its configuration says. *)

Definition demo_source : SourceConfig :=
  {| sc_name := "docs"; sc_kind := Filesystem; sc_trust_label := Some "NEW"%string; sc_roots := ["/usr/share/doc/x"]%string;
     sc_path := None; sc_allow_pages := []; sc_include_extensions := ["md"]%string; sc_max_depth := 3;
     sc_allow_private_roots := false; sc_package_name := None; sc_package_version := None |}.

Definition demo_config : RetrievalConfig :=
  {| rc_schema_version := 1; rc_max_file_count := 1; rc_max_file_bytes := 64; rc_max_total_bytes := 100;
     rc_max_query_results := 8; rc_source := [demo_source] |}.

Definition demo_doc (path source label content hash : string) : CollectedDocument :=
  {| cd_path := path; cd_source_name := source; cd_source_kind := Filesystem; cd_trust_label := label;
     cd_package_name := None; cd_package_version := None; cd_content := content; cd_content_hash := hash;
     cd_byte_len := len content; cd_modified_unix := 7 |}.

(** The index before: an old text, a text whose file is gone, and a row of another source. *)
Definition demo_table : table :=
  <["/usr/share/doc/x/a.md" := demo_doc "/usr/share/doc/x/a.md" "docs" "OLD" "alpha" "alpha"]>
  (<["/usr/share/doc/x/gone.md" := demo_doc "/usr/share/doc/x/gone.md" "docs" "OLD" "gone" "gone"]>
   (<["/var/lib/dpkg/status#apt" := demo_doc "/var/lib/dpkg/status#apt" "dpkg" "LOCAL" "apt" "apt"]> ∅))%string.

(** A machine with two readable files and a link that leads out; the database answers from
    its table. *)
Definition demo_entry (path : string) : option WalkEntry :=
  Some {| we_path := path; we_is_file := true; we_is_symlink := false |}.

Definition demo_env : environment rsys := fun h A c =>
  match c in rsys A return A with
  | Geteuid => 999
  | CreateDirAll _ => None
  | OpenRw _ => inr tt
  | ExecuteSchema => inr tt
  | SetMetadata _ _ => inr tt
  | BeginTransaction => inr tt
  | CommitTransaction => inr tt
  | QuickCheck => inr "ok"%string
  | SetPermissions _ _ => None
  | PathExists _ => true
  | PathIsFile _ => false
  | CanonicalizePath path => inr (if String.eqb path "/usr/share/doc/x/link.md" then "/home/a/secret"%string else path)
  | WalkTree _ _ => map demo_entry ["/usr/share/doc/x/link.md"; "/usr/share/doc/x/a.md"; "/usr/share/doc/x/b.md"]%string
  | ReadMetadata _ => inr {| fm_is_file := true; fm_len := 5; fm_modified := Some 7 |}
  | ReadBytes path => inr (if String.eqb path "/usr/share/doc/x/a.md" then "alpha" else "beta")%string
  | ReadText _ => inl "missing"%string
  | SystemSeconds => Some 9
  | PrepareUpsert => inr tt
  | PrepareDelete => inr tt
  | SelectHashes source_name => inr (map inr (selected source_name (table_after demo_table h)))
  | Upsert _ _ => inr tt
  | DeleteRow _ _ => inr tt
  end.

Definition demo_hash (content : string) : string := content.
Definition demo_gunzip (bytes : string) : result string string := Err "not gzip"%string.
Definition demo_order (l : list string) : list string := l.

Lemma demo_database_honest : honest_database demo_env demo_table.
Proof. intros h source_name rows Hr. cbn in Hr. injection Hr as <-. eauto. Qed.

(** The second file is over the budget of one document. *)
Lemma indexing_keeps_budget_witness :
  let rows := upserts (trace (rebuild demo_hash demo_gunzip demo_order "/var/lib/sentia/index.sqlite" demo_config
                                demo_env [] (start demo_config))) in
  Z.of_nat (length rows) <= 1 /\ rows_bytes rows <= 100.
Proof.
  destruct (indexing_keeps_budget demo_hash demo_gunzip demo_order demo_config "/var/lib/sentia/index.sqlite" demo_env [])
    as (Hn & Hb & _).
  - vm_compute. discriminate.
  - split; [vm_compute; discriminate|reflexivity].
  - exact (conj Hn Hb).
Defined.

(** What that run reported: three files seen, one outside the root, one over the budget, the
    other one unchanged, and the row of the missing file removed. *)
Example demo_report :
  match value (rebuild demo_hash demo_gunzip demo_order "/var/lib/sentia/index.sqlite" demo_config
                 demo_env [] (start demo_config)) with
  | Ok report => map sr_counts (xr_sources report)
  | _ => []
  end = [MkCounts 3 1 0 0 1 1 1 0 1 0].
Proof. vm_compute. reflexivity. Qed.

Definition demo_docs : list CollectedDocument :=
  [demo_doc "/usr/share/doc/x/a.md" "docs" "NEW" "alpha" "alpha"; demo_doc "/usr/share/doc/x/b.md" "docs" "NEW" "beta" "beta"]%string.

Definition demo_after : table :=
  table_after demo_table (trace (apply_source_documents demo_order demo_source demo_docs demo_env [] (start demo_config))).

Lemma demo_docs_hash doc : doc ∈ demo_docs -> cd_path doc = "/usr/share/doc/x/b.md"%string -> cd_content_hash doc = "beta"%string.
Proof.
  intros Hdoc. unfold demo_docs in Hdoc. rewrite !elem_of_cons, elem_of_nil in Hdoc.
  destruct Hdoc as [Hd|[Hd|[]]]; subst doc; cbn; [discriminate|done].
Qed.

Lemma index_follows_the_source_witness :
  demo_after !! "/usr/share/doc/x/gone.md"%string = None /\
  exists row, demo_after !! "/usr/share/doc/x/b.md"%string = Some row /\ cd_content_hash row = "beta"%string.
Proof.
  destruct (index_follows_the_source demo_order (fun l => Permutation_refl l) demo_source demo_docs demo_env demo_table []
              (start demo_config) demo_database_honest) as [Hdocs Hrest]; [vm_compute; reflexivity|].
  split.
  - etransitivity; [apply (Hrest "/usr/share/doc/x/gone.md"%string)|vm_compute; reflexivity].
    apply (bool_decide_unpack _). vm_compute. exact I.
  - destruct (Hdocs "/usr/share/doc/x/b.md"%string) as (row & doc & Hrow & Hdoc & Hpath & Hhash & _).
    + apply (bool_decide_unpack _). vm_compute. exact I.
    + exists row. split; [exact Hrow|]. transitivity (cd_content_hash doc); [exact Hhash|].
      exact (demo_docs_hash doc Hdoc Hpath).
Defined.

(** ** Where the code does less than its configuration says *)

(** A document whose text is unchanged keeps the trust label it had, whatever the
    configuration says now. *)
Example unchanged_documents_keep_their_label :
  (cd_trust_label <$> demo_after !! "/usr/share/doc/x/a.md"%string) = Some "OLD"%string.
Proof. vm_compute. reflexivity. Qed.

Lemma split_char_head c acc s :
  lacks c acc = true -> exists x, head (split_char_aux c acc s) = Some x /\ lacks c x = true.
Proof.
  revert acc. induction s as [|d s IH]; intros acc Ha; cbn [split_char_aux]; [by exists acc|].
  destruct (Ascii.eqb d c) eqn:Hd; [by exists acc|]. apply IH. rewrite lacks_app, Ha. cbn. by rewrite Hd.
Qed.

Lemma lowercase_lacks_dot s : lacks "." s = true -> lacks "." (to_ascii_lowercase s) = true.
Proof.
  induction s as [|c s IH]; [done|]. cbn. rewrite !andb_true_iff. intros [Hc Hs]. split; [|by apply IH].
  assert (forall d, Ascii.eqb (ascii_lower d) "." = Ascii.eqb d ".") as Hl by (intros [[][][][][][][][]]; reflexivity).
  by rewrite Hl.
Qed.

(** The name of a manual page ends at its first dot, so an allowed page with a dot in its
    name is never indexed. *)
Lemma manpage_names_have_no_dot path : lacks "." (extract_manpage_name path) = true.
Proof.
  unfold extract_manpage_name. apply lowercase_lacks_dot.
  destruct (split_char_head "." EmptyString (default (lossy_name path) (strip_suffix ".gz" (lossy_name path))))
    as (x & Hx & Hl); [done|]. unfold split_char. by rewrite Hx.
Qed.

Example dotted_pages_never_match :
  extract_manpage_name "/usr/share/man/man5/sources.list.5.gz" = "sources"%string.
Proof. vm_compute. reflexivity. Qed.

(** A package that is not installed counts as installed. *)
Example removed_packages_are_indexed :
  map dpkg_installed (parse_dpkg_status ("Package: old" +:+ String LF "Status: deinstall ok not-installed")) = [true].
Proof. vm_compute. reflexivity. Qed.

(** Private directories are recognised by the spelling of an absolute path. *)
Example private_roots_by_spelling :
  map path_is_disallowed ["/home/alice"; "/usr/../home/alice"; "home/alice"]%string = [true; false; false].
Proof. vm_compute. reflexivity. Qed.

(** An extension matches any name that ends with its letters. *)
Example extensions_match_any_ending : matches_extension "/usr/share/doc/run.cmd" ["md"]%string = true.
Proof. vm_compute. reflexivity. Qed.
