(* ===== verification/RetrievalQuery.v ===== *)
(** * Retrieval: queries (crates/sentia-retrieval/src/query.rs)

    A query is turned into a conjunction of quoted tokens for the full-text index of sqlite,
    the index is opened read-only after its permissions were checked, and the snippets of
    the answer are cut to a bounded length.  The file system and sqlite answer the calls
    [qsys]; [unicode_alphanumeric] is [char::is_alphanumeric] outside ASCII.  Below are the
    theorems on queries and answers. *)

From Stdlib Require Import Ascii String.
From S2P Require Import Prelude RustStr RustText RustFloat Effects Monitor RetrievalConfig.

(** ** Calls *)

(** What [fs::symlink_metadata] tells of the index. *)
Record IndexMeta := { im_is_symlink : bool; im_mode : Z }.

(** A row of the statement. *)
Record QueryRow := {
  qr_path : string;
  qr_source_name : string;
  qr_source_kind : string;
  qr_trust_label : string;
  qr_package_name : option string;
  qr_package_version : option string;
  qr_snippet : string;
  qr_score : option f64;
}.

Inductive qsys : Type -> Type :=
| LinkMetadata (path : string) : qsys (string + IndexMeta)
| OpenRo (path : string) : qsys (SqliteError + unit)
| QuickCheckRo : qsys (SqliteError + string)
| PrepareSelect : qsys (SqliteError + unit)
| SelectDocuments (token_window : usize) (fts_query : string) (limit : Z)
  : qsys (SqliteError + list (SqliteError + QueryRow)).

Abbreviation qeff := (eff qsys unit RetrievalError).

Definition query_sqlite {A} (r : SqliteError + A) : qeff A :=
  lift (match r with inl e => Err (Sqlite e) | inr a => Ok a end).

(** ** model.rs, requests and responses *)

Record QueryRequest := { qq_query : string; qq_limit : usize; qq_max_content_chars : usize }.

Record Citation := {
  ci_source_name : string;
  ci_source_kind : SourceKind;
  ci_path : string;
  ci_package_name : option string;
  ci_package_version : option string;
  ci_trust_label : string;
}.

Record QueryResult := { qt_rank : usize; qt_score : f64; qt_bounded_content : string; qt_citation : Citation }.

Record QueryResponse := {
  qp_protocol_id : string;
  qp_router_contract_id : string;
  qp_authority_boundary : string;
  qp_query : string;
  qp_fts_query : string;
  qp_result_count : usize;
  qp_results : list QueryResult;
}.

Record RouterContextDocument := { rd_bounded_content : string; rd_citation : Citation }.

Record RouterContextResponse := {
  rx_protocol_id : string;
  rx_router_contract_id : string;
  rx_authority_boundary : string;
  rx_documents : list RouterContextDocument;
}.

(** ** Permissions *)

Definition verify_read_only_permissions (index_path : string) : qeff unit :=
  metadata ← perform (LinkMetadata index_path);
  metadata ← lift (match metadata with inl source => Err (Io index_path source) | inr m => Ok m end);
  lift (fail_if (im_is_symlink metadata) (InsecureIndexPermissions "index path cannot be a symlink"));;
  let mode := Z.land (im_mode metadata) 511 in
  lift (fail_if (negb (Z.land mode 18 =? 0))
          (InsecureIndexPermissions ("index permissions must not be group/other writable (found "
             +:+ radix_digits 22 8 mode EmptyString +:+ ")"))).

Definition open_index_ro (index_path : string) : qeff unit :=
  r ← perform (OpenRo index_path);
  lift (match r with inl e => Err (map_sqlite_error index_path e) | inr _ => Ok tt end).

Definition query_quick_check (index_path : string) : qeff unit :=
  r ← perform QuickCheckRo;
  lift (match r with
        | inl e => Err (map_sqlite_error index_path e)
        | inr text => fail_if (negb (String.eqb text "ok")) (CorruptDatabase index_path text)
        end).

(** ** Texts *)

Definition clamp_chars (max_chars : usize) : usize := Z.min (Z.max max_chars 64) 2000.

Definition snippet_tokens_for_chars (max_chars : usize) : usize := Z.max (clamp_chars max_chars / 8) 12.

(** U+2026 *)
Definition ELLIPSIS : string := String (chr 226) (String (chr 128) (String (chr 166) EmptyString)).

Definition bound_content (input : string) (max_chars : usize) : string :=
  let max_chars := clamp_chars max_chars in
  if char_count input <=? max_chars then trim input
  else trim (take_chars (Z.to_nat max_chars) input +:+ ELLIPSIS).

Section query.
Context (unicode_alphanumeric : string -> bool).

(** A character of a token. *)
Definition token_char (g : string) : bool :=
  match g with
  | String c EmptyString => is_ascii_alphanumeric c || one_of "_-." c
  | _ => unicode_alphanumeric g
  end.

Fixpoint split_tokens (current : string) (cs : list string) : list string :=
  match cs with
  | [] => if is_empty current then [] else [current]
  | g :: cs' =>
      if token_char g then split_tokens (current +:+ to_ascii_lowercase g) cs'
      else if is_empty current then split_tokens EmptyString cs'
      else current :: split_tokens EmptyString cs'
  end.

Definition keyword (token : string) : bool :=
  existsb (String.eqb token) ["and"; "or"; "not"; "near"]%string.

(** [tokens.retain(..)] *)
Definition searchable (token : string) : bool :=
  negb (is_empty token) && negb (keyword token) && negb (bytes_all is_ascii_digit token).

Definition search_tokens (input : string) : list string :=
  List.filter searchable (split_tokens EmptyString (chars input)).

Definition quoted (token : string) : string :=
  let quote := String QUOTE EmptyString in
  quote +:+ replace quote (quote +:+ quote) token +:+ quote.

Definition to_safe_fts_query (input : string) : result RetrievalError string :=
  match search_tokens input with
  | [] => Err EmptyQuery
  | tokens => Ok (join " AND " (map quoted tokens))
  end.

Definition row_kind (text : string) : SourceKind :=
  if String.eqb text "filesystem" then Filesystem
  else if String.eqb text "dpkg_status" then DpkgStatus
  else if String.eqb text "man_directory" then ManDirectory
  else Filesystem.

(** The loop over the rows; [index] counts them from 0. *)
Fixpoint query_results (max_content_chars index : usize) (rows : list (SqliteError + QueryRow))
  : result RetrievalError (list QueryResult) :=
  match rows with
  | [] => Ok []
  | inl e :: _ => Err (Sqlite e)
  | inr row :: rest =>
      results ← query_results max_content_chars (index + 1) rest;
      Ok ({| qt_rank := index + 1; qt_score := default (of_Z 0) (qr_score row);
             qt_bounded_content := bound_content (qr_snippet row) max_content_chars;
             qt_citation :=
               {| ci_source_name := qr_source_name row; ci_source_kind := row_kind (qr_source_kind row);
                  ci_path := qr_path row; ci_package_name := qr_package_name row;
                  ci_package_version := qr_package_version row; ci_trust_label := qr_trust_label row |} |} :: results)
  end.

Definition query (index_path : string) (request : QueryRequest) : qeff QueryResponse :=
  lift (fail_if (is_empty (trim (qq_query request))) EmptyQuery);;
  verify_read_only_permissions index_path;;
  open_index_ro index_path;;
  query_quick_check index_path;;
  fts_query ← lift (to_safe_fts_query (qq_query request));
  let limit := Z.min (Z.max (qq_limit request) 1) 64 in
  let token_window := snippet_tokens_for_chars (qq_max_content_chars request) in
  r ← perform PrepareSelect;
  query_sqlite r;;
  rows ← perform (SelectDocuments token_window fts_query limit);
  rows ← query_sqlite rows;
  results ← lift (query_results (qq_max_content_chars request) 0 rows);
  mret {| qp_protocol_id := COMMON_PROTOCOL_ID; qp_router_contract_id := ROUTER_CONTEXT_ID;
          qp_authority_boundary := AUTHORITY_BOUNDARY; qp_query := qq_query request; qp_fts_query := fts_query;
          qp_result_count := vlen results; qp_results := results |}.

Definition query_router_context (index_path : string) (request : QueryRequest) : qeff RouterContextResponse :=
  response ← query index_path request;
  mret {| rx_protocol_id := COMMON_PROTOCOL_ID; rx_router_contract_id := ROUTER_CONTEXT_ID;
          rx_authority_boundary := AUTHORITY_BOUNDARY;
          rx_documents := map (fun result => {| rd_bounded_content := qt_bounded_content result;
                                                rd_citation := qt_citation result |}) (qp_results response) |}.

(** main.rs, the request of a query command. *)
Definition command_request (args : QueryArgs) (text : string) : QueryRequest :=
  {| qq_query := text; qq_limit := Z.min (qa_limit args) 64;
     qq_max_content_chars := Z.min (qa_max_content_chars args) 2000 |}.
End query.

Example fts_ex : to_safe_fts_query (fun _ => false)
    ("sentia OR " +:+ String QUOTE ("router" +:+ String QUOTE " NEAR(test,2)")) =
  Ok (join " AND " (map quoted ["sentia"; "router"; "test"]%string)).
Proof. vm_compute. reflexivity. Qed.

(** * What a query can ask and return

    Theorems about [RetrievalQuery]: the text of the full-text query, the guards before the
    index is read, and the size of an answer. *)

(** ** Reading a full-text query

    The string syntax of FTS5: a phrase between quotes, in which a doubled quote stands for
    one, and phrases joined by [AND]. *)

Fixpoint read_phrase (acc s : string) : option (string * string) :=
  match s with
  | EmptyString => None
  | String c rest =>
      if Ascii.eqb c QUOTE then
        match rest with
        | String d rest' =>
            if Ascii.eqb d QUOTE then read_phrase (acc +:+ String QUOTE EmptyString) rest' else Some (acc, rest)
        | EmptyString => Some (acc, EmptyString)
        end
      else read_phrase (acc +:+ String c EmptyString) rest
  end.

Fixpoint fts_phrases (fuel : nat) (s : string) : option (list string) :=
  match fuel, s with
  | S fuel', String c rest =>
      if Ascii.eqb c QUOTE then
        '(phrase, rest) ← read_phrase EmptyString rest;
        if is_empty rest then Some [phrase]
        else rest ← strip_prefix " AND " rest; phrases ← fts_phrases fuel' rest; Some (phrase :: phrases)
      else None
  | _, _ => None
  end.

Definition fts_parse (s : string) : option (list string) := fts_phrases (String.length s) s.

(** Quotes doubled. *)
Abbreviation doubled s := (substituted QUOTE (String QUOTE (String QUOTE EmptyString)) s).

Lemma quoted_doubled token :
  quoted token = String QUOTE (doubled token +:+ String QUOTE EmptyString).
Proof.
  unfold quoted.
  change (String QUOTE EmptyString +:+ String QUOTE EmptyString) with (String QUOTE (String QUOTE EmptyString)).
  by rewrite replace_single.
Qed.

(** A quoted token is read back, up to what follows it. *)
Lemma read_phrase_doubled acc token rest :
  first_byte (Ascii.eqb QUOTE) rest = false ->
  read_phrase acc (doubled token +:+ String QUOTE rest) = Some (acc +:+ token, rest).
Proof.
  intros Hr. revert acc. induction token as [|c token IH]; intros acc; cbn [substituted].
  - rewrite app_empty_r. cbn [append read_phrase]. rewrite Ascii.eqb_refl. destruct rest as [|d rest]; [done|].
    unfold first_byte in Hr. by rewrite Ascii.eqb_sym, Hr.
  - destruct (Ascii.eqb_spec c QUOTE) as [->|Hc]; cbn [append read_phrase].
    + rewrite Ascii.eqb_refl. rewrite IH, str_app_assoc. done.
    + rewrite (proj2 (Ascii.eqb_neq c QUOTE)) by done. rewrite IH, str_app_assoc. done.
Qed.

Lemma join_quoted token tokens :
  join " AND " (map quoted (token :: tokens)) =
    String QUOTE (doubled token +:+ String QUOTE
      (match tokens with [] => EmptyString | _ => " AND " +:+ join " AND " (map quoted tokens) end)).
Proof.
  unfold join. destruct tokens as [|token' tokens]; cbn [map String.concat]; rewrite quoted_doubled; [done|].
  cbn [append]. f_equal. by rewrite str_app_assoc.
Qed.

Lemma fts_phrases_join tokens fuel : tokens <> [] -> (String.length (join " AND " (map quoted tokens)) <= fuel)%nat ->
  fts_phrases fuel (join " AND " (map quoted tokens)) = Some tokens.
Proof.
  revert fuel. induction tokens as [|token tokens IH]; intros fuel Hn; [done|].
  rewrite join_quoted. destruct fuel as [|fuel]; [cbn [String.length]; lia|].
  intros Hf. cbn [fts_phrases]. rewrite Ascii.eqb_refl.
  rewrite read_phrase_doubled by (by destruct tokens). cbn [mbind option_bind].
  destruct tokens as [|token' tokens]; [done|].
  assert (forall s, strip_prefix " AND " (" AND " +:+ s) = Some s) as Hp by done.
  assert (forall s, is_empty (" AND " +:+ s) = false) as He by done. rewrite Hp, He. cbn [mbind option_bind].
  rewrite IH; [done|done|]. cbn [String.length] in Hf.
  pose proof (len_app (doubled token) (String QUOTE (" AND " +:+ join " AND " (map quoted (token' :: tokens))))) as Hl.
  unfold len in Hl. cbn [String.length append] in Hf, Hl. lia.
Qed.

Section answers.
Context (unicode_alphanumeric : string -> bool).

(** *** The words of a text

    Written on the characters of the text alone: its words are the longest runs of letters,
    digits, underscores, hyphens and periods, in order, and nothing else of it counts. *)

Definition WORD_CHARACTERS : string := "ABCDEFGHIJKLMNOPQRSTUVWXYZabcdefghijklmnopqrstuvwxyz0123456789_-.".
Definition DIGITS : string := "0123456789".

Definition word_char (g : string) : Prop :=
  match g with
  | String c EmptyString => c ∈ list_ascii_of_string WORD_CHARACTERS
  | _ => unicode_alphanumeric g = true
  end.

Inductive words : list string -> list (list string) -> Prop :=
| WordsEnd : words [] []
| WordsGap g cs ws : ~ word_char g -> words cs ws -> words (g :: cs) ws
| WordsWord w cs ws : w <> [] -> Forall word_char w -> (forall g, head cs = Some g -> ~ word_char g) -> words cs ws ->
    words (w ++ cs) (w :: ws).

(** A word as it is searched for. *)
Definition lowered (w : list string) : string := sconcat (map to_ascii_lowercase w).

(** The words that are searched for: no operator of the query language and no number. *)
Definition wanted (w : list string) : Prop :=
  lowered w ∉ ["and"; "or"; "not"; "near"]%string /\
  exists c, c ∈ list_ascii_of_string (lowered w) /\ c ∉ list_ascii_of_string DIGITS.

Inductive searched : list (list string) -> list string -> Prop :=
| SearchedEnd : searched [] []
| SearchedKept w ws tokens : wanted w -> searched ws tokens -> searched (w :: ws) (lowered w :: tokens)
| SearchedLeft w ws tokens : ~ wanted w -> searched ws tokens -> searched (w :: ws) tokens.

(** *** The tokenizer finds them *)

Lemma word_table c : is_ascii_alphanumeric c || one_of "_-." c = bool_decide (c ∈ list_ascii_of_string WORD_CHARACTERS).
Proof. destruct c as [[] [] [] [] [] [] [] []]; vm_compute; reflexivity. Qed.

Lemma token_char_spec g : token_char unicode_alphanumeric g = true <-> word_char g.
Proof. destruct g as [|c [|d g]]; [done| |done]. cbn [token_char word_char]. by rewrite word_table, bool_decide_eq_true. Qed.

Lemma digit_table c : is_ascii_digit c = bool_decide (c ∈ list_ascii_of_string DIGITS).
Proof. destruct c as [[] [] [] [] [] [] [] []]; vm_compute; reflexivity. Qed.

Lemma digit_spec c : is_ascii_digit c = true <-> c ∈ list_ascii_of_string DIGITS.
Proof. by rewrite digit_table, bool_decide_eq_true. Qed.

Lemma keyword_spec t : keyword t = true <-> t ∈ ["and"; "or"; "not"; "near"]%string.
Proof.
  unfold keyword. rewrite existsb_exists. setoid_rewrite <-list_elem_of_In. split; [|by exists t; rewrite String.eqb_refl].
  intros (u & Hu & ->%String.eqb_eq). done.
Qed.

Lemma forallb_false {A} (p : A -> bool) l : forallb p l = false -> exists x, x ∈ l /\ p x = false.
Proof.
  induction l as [|x l IH]; cbn; [done|]. destruct (p x) eqn:Hx; [|by exists x; split; [left|]].
  intros (y & Hy & Hp)%IH. exists y. split; [by right|done].
Qed.

Lemma searchable_spec w : searchable (lowered w) = true <-> wanted w.
Proof.
  unfold searchable, wanted. rewrite <-keyword_spec. generalize (lowered w). intros t. unfold bytes_all.
  destruct (keyword t); [by rewrite andb_false_r; split; [|intros []]|]. rewrite andb_true_r.
  destruct (forallb is_ascii_digit (list_ascii_of_string t)) eqn:Hd.
  - rewrite andb_false_r. split; [done|]. intros [_ (c & Hc & Hn)]. destruct Hn. rewrite forallb_forall in Hd.
    by apply digit_spec, Hd, list_elem_of_In.
  - destruct t as [|c t]; [done|]. split; [intros _|done]. split; [done|].
    apply forallb_false in Hd as (d & Hd & Hn). exists d. split; [done|]. intros H%digit_spec. by rewrite H in Hn.
Qed.

Lemma lowered_nonempty w : w <> [] -> Forall (fun g => is_empty g = false) w -> is_empty (lowered w) = false.
Proof. intros Hn Hw. destruct Hw as [|g w Hg _]; [done|]. by destruct g. Qed.

(** Through a run of word characters the token grows. *)
Lemma split_tokens_run current w cs : Forall word_char w ->
  split_tokens unicode_alphanumeric current (w ++ cs) = split_tokens unicode_alphanumeric (current +:+ lowered w) cs.
Proof.
  intros Hw. revert current. induction Hw as [|g w Hg _ IH]; intros current; cbn [app split_tokens].
  - unfold lowered. cbn. by rewrite app_empty_r.
  - rewrite (proj2 (token_char_spec g) Hg), IH. by rewrite str_app_assoc.
Qed.

Lemma split_tokens_words cs ws : words cs ws -> Forall (fun g => is_empty g = false) cs ->
  split_tokens unicode_alphanumeric EmptyString cs = map lowered ws.
Proof.
  induction 1 as [|g cs ws Hg _ IH|w cs ws Hn Hw Hh Hcs IH]; [done| |].
  - intros [_ Hne]%Forall_cons. cbn [split_tokens]. rewrite <-token_char_spec in Hg. apply not_true_is_false in Hg.
    rewrite Hg. by apply IH.
  - intros [Hnw Hne]%Forall_app. rewrite split_tokens_run by done. pose proof (lowered_nonempty w Hn Hnw) as Hl.
    change (EmptyString +:+ lowered w) with (lowered w). specialize (IH Hne). cbn [map].
    destruct cs as [|g cs]; cbn [split_tokens].
    + rewrite Hl. cbn in IH. by rewrite <-IH.
    + specialize (Hh g eq_refl). rewrite <-token_char_spec in Hh. apply not_true_is_false in Hh. rewrite Hh, Hl.
      cbn [split_tokens] in IH. rewrite Hh in IH. cbn in IH. by rewrite IH.
Qed.

Lemma words_exist cs : exists ws, words cs ws.
Proof.
  enough (exists w rest ws, cs = w ++ rest /\ Forall word_char w /\ (forall g, head rest = Some g -> ~ word_char g) /\ words rest ws)
    as (w & rest & ws & -> & Hw & Hh & Hr).
  { destruct w as [|g w]; [by exists ws|]. eexists. by apply WordsWord. }
  induction cs as [|g cs (w & rest & ws & -> & Hw & Hh & Hr)]; [by exists [], [], []; repeat constructor|].
  destruct (token_char unicode_alphanumeric g) eqn:Hg.
  - apply token_char_spec in Hg. exists (g :: w), rest, ws. by repeat constructor.
  - assert (~ word_char g) as Hn by (rewrite <-token_char_spec; congruence).
    destruct w as [|g' w].
    + exists [], (g :: rest), ws. split; [done|]. split; [constructor|]. split; [by intros ? [= <-]|by apply WordsGap].
    + exists [], (g :: (g' :: w) ++ rest), ((g' :: w) :: ws). split; [done|]. split; [constructor|]. split; [by intros ? [= <-]|].
      apply WordsGap; [done|by apply WordsWord].
Qed.

Lemma chars_nonempty s : Forall (fun g => is_empty g = false) (chars s).
Proof.
  induction s as [|c s IH]; [constructor|]. rewrite chars_cons. destruct (chars s) as [|g gs]; [by apply Forall_singleton|].
  destruct (first_byte is_cont s); [|by apply Forall_cons]. apply Forall_cons in IH as [_ IH]. by apply Forall_cons.
Qed.

Lemma searched_filter ws : searched ws (List.filter searchable (map lowered ws)).
Proof.
  induction ws as [|w ws IH]; cbn [map List.filter]; [constructor|]. destruct (searchable (lowered w)) eqn:Hs.
  - by apply SearchedKept; [apply searchable_spec|].
  - apply SearchedLeft; [|done]. rewrite <-searchable_spec. congruence.
Qed.

(** C39 A query cannot leave the search language: whatever text is asked for, the statement gets
    a full-text query that reads as a conjunction of literal phrases, which are the words of
    the text in lower case and in order, all of them but the operators of the query language and the
    numbers; a text without such a word is refused. *)
Theorem fts_queries_are_literal input : exists ws tokens,
  words (chars input) ws /\ searched ws tokens /\
  match to_safe_fts_query unicode_alphanumeric input with
  | Ok q => tokens <> [] /\ fts_parse q = Some tokens
  | Err e => e = EmptyQuery /\ tokens = []
  | Panic => False
  end.
Proof.
  destruct (words_exist (chars input)) as [ws Hw]. exists ws, (List.filter searchable (map lowered ws)).
  split; [done|]. split; [apply searched_filter|].
  rewrite <-(split_tokens_words _ _ Hw (chars_nonempty input)). unfold to_safe_fts_query.
  change (List.filter searchable _) with (search_tokens unicode_alphanumeric input).
  destruct (search_tokens unicode_alphanumeric input) as [|t l]; [done|].
  split; [done|]. by apply fts_phrases_join.
Qed.


(** ** The size of an answer *)

Lemma drop_while_kept {A} (P : A -> Prop) p l :
  Forall P l -> Forall P (drop_while p l) /\ (length (drop_while p l) <= length l)%nat.
Proof.
  induction 1 as [|x l Hx Hl [IH1 IH2]]; cbn; [done|]. destruct (p x); [split; [done|lia]|].
  split; [by constructor|done].
Qed.

Lemma drop_while_end_kept {A} (P : A -> Prop) p l :
  Forall P l -> Forall P (drop_while_end p l) /\ (length (drop_while_end p l) <= length l)%nat.
Proof.
  intros Hl. apply Forall_rev in Hl. unfold drop_while_end. rewrite length_rev.
  destruct (drop_while_kept P p _ Hl) as [H1 H2]. rewrite length_rev in H2. split; [by apply Forall_rev|done].
Qed.

Lemma trim_count cs : well_formed cs -> char_count (trim (sconcat cs)) <= vlen cs.
Proof.
  intros Hw. unfold trim, char_count, vlen. rewrite (chars_sconcat _ Hw).
  destruct (drop_while_kept _ is_whitespace _ Hw) as [Hw1 Hl1].
  destruct (drop_while_end_kept _ is_whitespace _ Hw1) as [Hw2 Hl2].
  rewrite chars_sconcat by done. lia.
Qed.

Lemma bound_content_count input max_chars :
  valid_utf8 input = true -> char_count (bound_content input max_chars) <= clamp_chars max_chars + 1.
Proof.
  intros Hv%valid_chars. unfold bound_content. cbv zeta.
  destruct (Z.leb_spec (char_count input) (clamp_chars max_chars)) as [Hc|Hc].
  - rewrite <-(sconcat_chars input) at 1. pose proof (trim_count _ Hv). unfold char_count in *. lia.
  - unfold take_chars. replace ELLIPSIS with (sconcat [ELLIPSIS]) by done. rewrite <-sconcat_app.
    assert (well_formed (take (Z.to_nat (clamp_chars max_chars)) (chars input) ++ [ELLIPSIS])) as Hw.
    { apply Forall_app. split; [by apply Forall_take|]. by constructor. }
    pose proof (trim_count _ Hw) as Ht. unfold vlen in Ht. rewrite length_app, length_take in Ht. cbn [length] in Ht.
    unfold clamp_chars in *. lia.
Qed.
(** ** What a query does *)

(** The index is opened when it is no link and nobody else can write it; the statement runs
    on the open index, with a safe query and small limits. *)
Definition permitted_query (index_path : string) (request : QueryRequest) (before : list (event qsys)) (e : event qsys)
  : Prop :=
  match ev_call e with
  | OpenRo path => path = index_path /\ exists metadata,
      Event _ (LinkMetadata index_path) (inr metadata) ∈ before /\
      im_is_symlink metadata = false /\ Z.land (im_mode metadata) 18 = 0
  | SelectDocuments token_window fts_query limit =>
      12 <= token_window <= 250 /\ 1 <= limit <= 64 /\
      to_safe_fts_query unicode_alphanumeric (qq_query request) = Ok fts_query /\
      Event _ (OpenRo index_path) (inr tt) ∈ before
  | _ => True
  end.

(** The rows become results in order, numbered from 1, with short contents. *)
Record faithful_results (max_content_chars : usize) (rows : list QueryRow) (results : list QueryResult) : Prop := {
  fr_paths : map (fun r => ci_path (qt_citation r)) results = map qr_path rows;
  fr_ranks : map qt_rank results = map Z.of_nat (seq 1 (length rows));
  fr_contents : Forall (fun row => valid_utf8 (qr_snippet row) = true) rows ->
    Forall (fun r => char_count (qt_bounded_content r) <= clamp_chars max_content_chars + 1) results;
}.

Lemma query_results_Ok max_content_chars index rows results :
  query_results max_content_chars (Z.of_nat index) rows = Ok results ->
  exists rows', rows = map inr rows' /\
    map (fun r => ci_path (qt_citation r)) results = map qr_path rows' /\
    map qt_rank results = map Z.of_nat (seq (S index) (length rows')) /\
    (Forall (fun row => valid_utf8 (qr_snippet row) = true) rows' ->
     Forall (fun r => char_count (qt_bounded_content r) <= clamp_chars max_content_chars + 1) results).
Proof.
  revert index results. induction rows as [|[e|row] rows IH]; intros index results; cbn [query_results].
  - intros [= <-]. by exists [].
  - done.
  - intros Hr. inv_result. subst. replace (Z.of_nat index + 1) with (Z.of_nat (S index)) in H by lia.
    apply IH in H as (rows' & -> & Hp & Hk & Hc). exists (row :: rows'). cbn [map length seq]. rewrite Hp, Hk.
    split; [done|]. split; [done|]. split; [f_equal; cbn; lia|].
    intros [Hv Hvs]%Forall_cons. constructor; [by apply bound_content_count|by apply Hc].
Qed.

Lemma land_owner_bits m : Z.land (Z.land m 511) 18 = Z.land m 18.
Proof. rewrite <-Z.land_assoc. done. Qed.

Lemma permitted_query_grows index_path request before before' e :
  before ⊆ before' -> permitted_query index_path request before e -> permitted_query index_path request before' e.
Proof.
  intros Hs. unfold permitted_query. destruct (ev_call e); try done; [|naive_solver].
  intros (-> & metadata & ? & ? & ?). split; [done|]. exists metadata. set_solver.
Qed.

Lemma verify_permissions_trace index_path :
  ensures (verify_read_only_permissions index_path) (fun _ _ t => exists metadata,
    Event _ (LinkMetadata index_path) (inr metadata) ∈ t /\ im_is_symlink metadata = false /\
    Z.land (im_mode metadata) 18 = 0).
Proof.
  unfold verify_read_only_permissions. eapply ensures_step; [apply ensures_perform|]. intros r.
  eapply ensures_step; [apply ensures_lift|]. intros metadata.
  eapply ensures_step; [apply ensures_lift|]. intros [].
  eapply ensures_mono; [|apply ensures_lift]. cbn beta zeta. intros env u t [Hm ->] t1 [Hl ->] t2 [Hr ->] t3 ->.
  destruct r as [e|m]; [done|]. inv_result. subst m. zbool. rewrite land_owner_bits in *.
  exists metadata. split; [set_solver|]. done.
Qed.

Lemma open_index_trace index_path :
  ensures (open_index_ro index_path) (fun _ _ t => Event _ (OpenRo index_path) (inr tt) ∈ t).
Proof.
  unfold open_index_ro. eapply ensures_step; [apply ensures_perform|]. intros r.
  eapply ensures_mono; [|apply ensures_lift]. cbn beta. intros env u t [Hr ->] t1 ->.
  destruct r as [e|[]]; [done|]. set_solver.
Qed.
Lemma ensures_any {A} (m : qeff A) : ensures m (fun _ _ _ => True).
Proof. by intros env h s a. Qed.

Lemma query_guarded index_path request :
  guarded (permitted_query index_path request) (query unicode_alphanumeric index_path request).
Proof.
  set (P := permitted_query index_path request).
  assert (forall f A (m : qeff A), emits (fun e => match ev_call e with OpenRo _ | SelectDocuments _ _ _ => False | _ => True end) m ->
            guarded (fun before => P (f before)) m) as Hq.
  { intros f A m. apply guarded_emits. intros before e. unfold P, permitted_query. by destruct (ev_call e). }
  unfold query. eapply guarded_bind; [apply guarded_lift|apply ensures_lift|]. intros env [] t [_ ->].
  eapply guarded_bind; [apply (Hq (app [])); unfold verify_read_only_permissions; emits_tac; done
    |apply verify_permissions_trace|].
  intros env' [] t1 (metadata & Hmeta & Hlink & Hmode). cbn [app].
  eapply guarded_bind; [|apply open_index_trace|].
  { unfold open_index_ro. apply guarded_perform_then; [|intros r; apply guarded_lift].
    intros r. split; [done|]. exists metadata. rewrite app_nil_r. done. }
  intros env2 [] t2 Hopen.
  eapply guarded_bind; [apply (Hq (fun before => t1 ++ t2 ++ before)); unfold query_quick_check; emits_tac; done
    |apply ensures_any|].
  intros env3 [] t3 _.
  eapply guarded_bind; [apply guarded_lift|apply ensures_lift|]. intros env4 fts t4 [Hfts ->].
  cbv zeta. apply guarded_perform_then; [done|]. intros r.
  eapply guarded_bind; [apply guarded_lift|apply ensures_any|].
  intros env5 [] t5 _. apply guarded_perform_then.
  { intros rows. split; [|split; [lia|split; [done|set_solver]]].
    unfold snippet_tokens_for_chars, clamp_chars. pose proof (Z.div_le_mono (Z.min (Z.max (qq_max_content_chars request) 64) 2000) 2000 8).
    change (2000 / 8) with 250 in *. lia. }
  intros rows. apply (Hq (fun before => _)). unfold query_sqlite. emits_tac.
Qed.
(** What is known of the rest carries over the first part. *)
Lemma ensures_later {A B} (m : qeff A) (k : A -> qeff B) (F : B -> list (event qsys) -> Prop) :
  (forall b t u, F b u -> F b (t ++ u)) -> (forall a, ensures (k a) (fun _ => F)) -> ensures (m ≫= k) (fun _ => F).
Proof.
  intros HF Hk env h s b Hb. apply run_bind_Ok in Hb as (a & _ & Hb & -> & _). by apply HF, (Hk a).
Qed.

Definition answered (request : QueryRequest) (response : QueryResponse) (t : list (event qsys)) : Prop :=
  qp_result_count response = vlen (qp_results response) /\
  exists token_window fts_query limit rows,
    Event _ (SelectDocuments token_window fts_query limit) (inr (map inr rows)) ∈ t /\
    faithful_results (qq_max_content_chars request) rows (qp_results response).

Lemma answered_later request response t u : answered request response u -> answered request response (t ++ u).
Proof. intros (Hc & w & q & l & rows & Hin & Hf). split; [done|]. exists w, q, l, rows. set_solver. Qed.

(** A query reads only an index it may trust and answers within its limits: in every
    environment the index is opened only after it was seen not to be a link nor writable by
    others; the one statement that runs has a safe query, 12 to 250 tokens per snippet and a
    limit of 64 rows; and the results are its rows in order, numbered from 1, each with at
    most 2000 characters and the mark of an omission. *)
Theorem queries_are_guarded_and_bounded index_path request :
  guarded (permitted_query index_path request) (query unicode_alphanumeric index_path request) /\
  ensures (query unicode_alphanumeric index_path request) (fun _ => answered request).
Proof.
  split; [apply query_guarded|]. unfold query.
  do 5 (apply ensures_later; [apply answered_later|intros ?]). cbv zeta.
  do 2 (apply ensures_later; [apply answered_later|intros ?]).
  eapply ensures_step; [apply ensures_perform|]. intros rows.
  eapply ensures_step; [apply ensures_lift|]. intros rows'.
  eapply ensures_step; [apply ensures_lift|]. intros results.
  eapply ensures_mono; [|apply ensures_ret]. cbn beta. intros env response t [-> ->] t1 [Hr ->] t2 [Hrows ->] t3 ->.
  destruct rows as [e|rows]; [done|]. injection Hrows as <-.
  apply (query_results_Ok _ 0) in Hr as (rows' & -> & Hp & Hk & Hc).
  split; [done|]. cbn. do 4 eexists. split; [constructor|by constructor].
Qed.
End answers.
