(* ===== verification/RetrievalCommand.v ===== *)
(** * The retrieval program (crates/sentia-retrieval/src/main.rs)

    The two subcommands over the calls of the indexer, of the query engine and of the
    program itself.  The program keeps the guarantees of its parts: an index command reads
    what the configuration it names allows, a query command opens the index it names. *)

From Stdlib Require Import Ascii String.
From S2P Require Import Prelude RustStr RustText RustFloat Effects Monitor RetrievalConfig RetrievalIndex RetrievalSafety RetrievalQuery.

Inductive xsys : Type -> Type :=
| XIndex {A} (c : rsys A) : xsys A
| XQuery {A} (c : qsys A) : xsys A
| XReadConfig (path : string) : xsys (result string string)
| XStdout (line : string) : xsys bool
| XStderr (line : string) : xsys bool.

Abbreviation xeff A := (eff xsys unit RetrievalError A).

(** The calls of a part as calls of the program, from the state the part starts in. *)
Definition embed {call : Type -> Type} {S E A} (inject : forall A, call A -> xsys A) (start : S) (m : eff call S E A)
  : eff xsys unit E A := fun env h s =>
  let lifted := map (fun e : event call => Event _ (inject _ (ev_call e)) (ev_reply e)) in
  let o := m (fun inner A c => env (h ++ lifted inner) A (inject A c)) [] start in
  Outcome (lifted (trace o)) s (value o).

(** [println!] and [eprintln!] panic when the stream cannot be written. *)
Definition xprint {E} (c : xsys bool) : eff xsys unit E unit :=
  written ← perform c; lift (if written : bool then Ok tt else Panic).

Definition NEWLINE : string := String (chr 10) EmptyString.
Definition USAGE : string := join NEWLINE
  ["sentia-retrieval"; ""; "Usage:"; "sentia-retrieval index [--config PATH] [--index PATH] [--pretty]";
   "sentia-retrieval query --query TEXT [--index PATH] [--limit N] [--max-content-chars N] [--router-context] [--pretty]"; ""].
Definition print_usage {E} : eff xsys unit E unit := xprint (XStderr (USAGE +:+ NEWLINE)).

Section program.
Context (hash_content : string -> string) (gunzip : string -> result string string) (hash_order : list string -> list string).
Context (unicode_alphanumeric : string -> bool) (from_toml : string -> result string RetrievalConfig).
(** [serde_json::to_string] and [to_string_pretty], which comes first. *)
Context (report_json : bool -> IndexReport -> option string) (response_json : bool -> QueryResponse -> option string)
  (context_json : bool -> RouterContextResponse -> option string) (envelope_json : ErrorEnvelope -> option string).

(** The [expect] of [serialize_json]. *)
Definition serialized {E} (text : option string) : eff xsys unit E string :=
  lift match text with Some text => Ok text | None => Panic end.

Definition index_command (args : IndexArgs) : xeff string :=
  text ← perform (XReadConfig (ia_config args));
  config ← lift (RetrievalConfig_load (ia_config args) text from_toml);
  report ← embed (@XIndex) (start config) (rebuild hash_content gunzip hash_order (ia_index args) config);
  serialized (report_json (ia_pretty args) report).

Definition query_command (args : QueryArgs) (text : string) : xeff string :=
  let request := command_request args text in
  if qa_router_context args then
    response ← embed (@XQuery) tt (query_router_context unicode_alphanumeric (qa_index args) request);
    serialized (context_json (qa_pretty args) response)
  else
    response ← embed (@XQuery) tt (query unicode_alphanumeric (qa_index args) request);
    serialized (response_json (qa_pretty args) response).

(** [run]; [Usage] is the exit of [--help] after a subcommand. *)
Definition run (args : list string) : xeff (option string) :=
  command ← lift (parse_command args);
  match command with
  | Help | Usage => print_usage;; mret None
  | Index args => output ← index_command args; mret (Some output)
  | Query args =>
      match qa_query args with
      | Some text => output ← query_command args text; mret (Some output)
      | None => lift Panic
      end
  end.

(** [main]: the exit status. *)
Definition main (args : list string) : eff xsys unit Empty_set Z :=
  r ← attempt (run args);
  match r with
  | Ok (Some output) => xprint (XStdout (output +:+ NEWLINE));; mret 0
  | Ok None => mret 0
  | Err err =>
      text ← serialized (envelope_json (error_to_envelope err));
      xprint (XStderr (text +:+ NEWLINE));;
      mret 1
  | Panic => lift Panic
  end.

(** ** The parts keep their guarantees *)

Definition as_index_event (e : event xsys) : option (event rsys) :=
  match ev_call e in xsys A return A -> option (event rsys) with
  | XIndex c => fun r => Some (Event _ c r)
  | _ => fun _ => None
  end (ev_reply e).
Definition as_query_event (e : event xsys) : option (event qsys) :=
  match ev_call e in xsys A return A -> option (event qsys) with
  | XQuery c => fun r => Some (Event _ c r)
  | _ => fun _ => None
  end (ev_reply e).

Definition loaded (args : IndexArgs) (config : RetrievalConfig) (before : list (event xsys)) : Prop :=
  exists text, Event _ (XReadConfig (ia_config args)) text ∈ before /\
    RetrievalConfig_load (ia_config args) text from_toml = Ok config.

Definition permitted_command (args : list string) (before : list (event xsys)) (e : event xsys) : Prop :=
  match as_index_event e, as_query_event e with
  | Some e', _ => exists a config, parse_command args = Ok (Index a) /\ loaded a config before /\
      permitted_read config (omap as_index_event before) e'
  | None, Some e' => exists a text, parse_command args = Ok (Query a) /\ qa_query a = Some text /\
      permitted_query unicode_alphanumeric (qa_index a) (command_request a text) (omap as_query_event before) e'
  | None, None => True
  end.

(** A part under its own guard, seen from the program. *)
Lemma guarded_embed {call S E A} (inject : forall A, call A -> xsys A) (project : event xsys -> option (event call))
    (P : list (event call) -> event call -> Prop) (start : S) (m : eff call S E A) :
  (forall A (c : call A) r, project (Event A (inject A c) r) = Some (Event A c r)) -> guarded P m ->
  guarded (fun before e => exists e', project e = Some e' /\ P (omap project before) e') (embed inject start m).
Proof.
  intros Hp Hm env h s before e after. unfold embed. cbn [trace].
  set (inner := fun inner A c => _). set (lifted := map _).
  assert (forall t, omap project (lifted t) = t) as Hback.
  { intros t. unfold lifted. induction t as [|[B c r] t IH]; [done|]. cbn. rewrite Hp. by rewrite IH. }
  intros Ht. assert (trace (m inner [] start) = omap project before ++ omap project (e :: after)) as Hinner.
  { rewrite <-(Hback (trace _)), Ht. apply omap_app. }
  assert (exists e', project e = Some e') as (e' & He).
  { assert (e ∈ lifted (trace (m inner [] start))) as Hin by (rewrite Ht; set_solver).
    unfold lifted in Hin. apply list_elem_of_fmap in Hin as ([B c r] & -> & _). cbn. rewrite Hp. by eexists. }
  exists e'. split; [done|]. cbn [omap list_omap] in Hinner. rewrite He in Hinner. by eapply Hm.
Qed.

Lemma query_context_guarded index_path request :
  guarded (permitted_query unicode_alphanumeric index_path request) (query_router_context unicode_alphanumeric index_path request).
Proof.
  unfold query_router_context. apply guarded_seq; [|apply query_guarded|intros response; apply guarded_ret].
  intros t before e. apply permitted_query_grows. set_solver.
Qed.

Lemma print_permitted {E} args (c : xsys bool) (f : list (event xsys) -> list (event xsys)) :
  (forall r, as_index_event (Event _ c r) = None /\ as_query_event (Event _ c r) = None) ->
  guarded (fun before => permitted_command args (f before)) (xprint (E := E) c).
Proof.
  intros Hc. unfold xprint. apply guarded_perform_then; [|intros r; apply guarded_lift].
  intros r. unfold permitted_command. by destruct (Hc r) as [-> ->].
Qed.

Lemma index_permitted args a : parse_command args = Ok (Index a) -> guarded (permitted_command args) (index_command a).
Proof.
  intros Ha. unfold index_command. apply guarded_perform_then; [done|]. intros text.
  eapply guarded_bind; [apply guarded_lift|apply ensures_lift|]. intros env config t [Hload ->].
  eapply (guarded_bind _ _ _ (fun _ _ _ => True)); [|done|].
  - eapply guarded_mono; [|apply (guarded_embed (@XIndex) as_index_event); [done|apply indexing_reads_only_allowed_files]].
    intros before e (e' & He & Hp). unfold permitted_command. rewrite He. exists a, config. split; [done|].
    split; [exists text; split; [set_solver|done]|exact Hp].
  - intros env' report t' _. apply guarded_lift.
Qed.

Lemma query_permitted args a text : parse_command args = Ok (Query a) -> qa_query a = Some text ->
  guarded (permitted_command args) (query_command a text).
Proof.
  intros Ha Ht. unfold query_command.
  assert (forall A (m : eff qsys unit RetrievalError A), guarded (permitted_query unicode_alphanumeric (qa_index a) (command_request a text)) m ->
    guarded (permitted_command args) (embed (@XQuery) tt m)) as Hpart.
  { intros A m Hm. eapply guarded_mono; [|apply (guarded_embed (@XQuery) as_query_event); [done|exact Hm]].
    intros before [B c r] (e' & He & Hp). unfold permitted_command. assert (as_index_event (Event B c r) = None) as -> by (by destruct c).
    rewrite He. by exists a, text. }
  destruct (qa_router_context a); (eapply (guarded_bind _ _ _ (fun _ _ _ => True)); [apply Hpart|done|intros env response t _; apply guarded_lift]).
  - apply query_context_guarded.
  - apply query_guarded.
Qed.

Lemma run_permitted args : guarded (permitted_command args) (run args).
Proof.
  unfold run. eapply guarded_bind; [apply guarded_lift|apply ensures_lift|]. intros env command t [Hc ->]. cbn [app].
  assert (guarded (permitted_command args) (print_usage;; mret None : xeff (option string))) as Husage.
  { eapply (guarded_bind _ _ _ (fun _ _ _ => True)); [by apply (print_permitted args _ id)|done|intros ? ? ? _; apply guarded_ret]. }
  destruct command as [| |a|a]; [done|done| |].
  - eapply (guarded_bind _ _ _ (fun _ _ _ => True)); [by apply index_permitted|done|intros ? ? ? _; apply guarded_ret].
  - destruct (qa_query a) as [text|] eqn:Ht; [|apply guarded_lift].
    eapply (guarded_bind _ _ _ (fun _ _ _ => True)); [by apply query_permitted|done|intros ? ? ? _; apply guarded_ret].
Qed.

(** *** At most one statement *)

Definition selects (e : event qsys) : bool := match ev_call e with SelectDocuments _ _ _ => true | _ => false end.
Definition x_selects (e : event xsys) : bool := match as_query_event e with Some e' => selects e' | None => false end.

Lemma query_selects_once index_path request : costs selects 1 (query unicode_alphanumeric index_path request).
Proof.
  assert (forall A (m : qeff A), emits (fun e => selects e = false) m -> costs selects 0 m) as H0 by (intros; by apply costs_emits).
  unfold query. do 3 (apply (costs_bind _ 0 1); [apply H0; unfold verify_read_only_permissions, open_index_ro; emits_tac; done|intros []]).
  apply (costs_bind _ 0 1); [apply H0; unfold query_quick_check; emits_tac; done|intros []].
  apply (costs_bind _ 0 1); [apply H0, emits_lift|intros fts_query]. cbv zeta.
  apply (costs_bind _ 0 1); [apply H0; by apply emits_perform|intros r].
  apply (costs_bind _ 0 1); [apply H0; unfold query_sqlite; apply emits_lift|intros []].
  apply (costs_bind _ 1 0); [apply costs_perform|intros rows]. apply H0. unfold query_sqlite. emits_tac.
Qed.

Lemma embed_query_selects {A} (m : eff qsys unit RetrievalError A) n : costs selects n m -> costs x_selects n (embed (@XQuery) tt m).
Proof.
  intros Hm env h s. unfold embed. cbn [trace].
  match goal with |- context [m ?inner [] tt] => specialize (Hm inner [] tt); generalize dependent (m inner [] tt) end.
  intros o Ho. etransitivity; [|exact Ho]. unfold count_events. clear Ho.
  induction (trace o) as [|[B c r] t IH]; cbn; [done|]. destruct (selects (Event B c r)); cbn; lia.
Qed.

Lemma embed_index_selects {S A} (m : eff rsys S RetrievalError A) start : costs x_selects 0 (embed (@XIndex) start m).
Proof.
  apply costs_emits. intros env h s. unfold embed. cbn [trace]. apply Forall_map, Forall_true. by intros [B c r].
Qed.

Lemma selects_once args : costs x_selects 1 (main args).
Proof.
  assert (forall E A (m : eff xsys unit E A), emits (fun e => x_selects e = false) m -> costs x_selects 0 m) as H0
    by (intros; by apply costs_emits).
  unfold main. apply (costs_bind _ 1 0).
  2:{ intros r. apply H0. unfold xprint. emits_tac; done. }
  apply costs_attempt. unfold run. apply (costs_bind _ 0 1); [apply H0, emits_lift|]. intros [| |a|a].
  - eapply costs_mono; [|apply H0; unfold print_usage, xprint; emits_tac; done]. lia.
  - eapply costs_mono; [|apply H0; unfold print_usage, xprint; emits_tac; done]. lia.
  - apply (costs_mono _ 0); [lia|]. apply (costs_bind _ 0 0); [|intros; apply H0, emits_ret].
    unfold index_command. apply (costs_bind _ 0 0); [apply H0; by apply emits_perform|intros text].
    apply (costs_bind _ 0 0); [apply H0, emits_lift|intros config].
    apply (costs_bind _ 0 0); [apply embed_index_selects|intros; apply H0, emits_lift].
  - destruct (qa_query a) as [text|]; [|apply (costs_mono _ 0); [lia|apply H0, emits_lift]].
    apply (costs_bind _ 1 0); [|intros; apply H0, emits_ret]. unfold query_command.
    destruct (qa_router_context a); (apply (costs_bind _ 1 0); [apply embed_query_selects|intros; apply H0, emits_lift]).
    + unfold query_router_context. apply (costs_bind _ 1 0); [apply query_selects_once|intros]. apply costs_emits, emits_ret.
    + apply query_selects_once.
Qed.

(** C35 The retrieval program does what its command line says.  In every environment only an index
    command touches the indexer, with the configuration read from the file it names.  The
    file of a document it then opens only when its resolved path lies under a resolved root of
    that configuration and it was seen to be regular and small enough; a package database
    only under the very path a package source of that configuration names, which is
    neither resolved nor compared with a root, and when it was seen to be small enough.  Only
    a query command touches the query engine, and opens the index it names, and no other, only
    after it was seen to be no link and not writable by others; it runs at most one
    statement, on the open index, with the full-text query of its text and the limits of
    the command. *)
Theorem command_confines_its_parts args :
  guarded (permitted_command args) (main args) /\
  forall env h, (count_events x_selects (trace (main args env h tt)) <= 1)%nat.
Proof.
  split; [|intros env h; apply selects_once]. unfold main. eapply (guarded_bind _ _ _ (fun _ _ _ => True)); [|done|].
  { intros env h s before e after Ht. apply (run_permitted args env h s before e after). rewrite <-Ht. unfold attempt.
    by destruct (value (run args env h s)). }
  intros env r t _. destruct r as [[output|]|err|]; [|apply guarded_ret| |apply guarded_lift].
  - eapply (guarded_bind _ _ _ (fun _ _ _ => True)); [by apply (print_permitted args _ (app t))|done|intros ? ? ? _; apply guarded_ret].
  - eapply (guarded_bind _ _ _ (fun _ _ _ => True)); [apply guarded_lift|done|]. intros env' text t' _.
    eapply (guarded_bind _ _ _ (fun _ _ _ => True)); [by apply (print_permitted args _ (fun before => t ++ t' ++ before))|done|intros ? ? ? _; apply guarded_ret].
Qed.
End program.
