(* ===== verification/EditDistance.v ===== *)
(** * The distance of two commands (levenshtein of crates/sentia-ui/src/terminal/mod.rs)

    The code fills a table of prefix distances row by row in two vectors that it swaps.
    Its contract is stated without a table: the least number of single-character
    insertions, deletions and replacements that turn one text into the other. *)

From Stdlib Require Import Ascii String.
From S2P Require Import Prelude RustStr.

(** ** The code *)

(** [v[i]] and [v[i] = a]. *)
Definition index {E A} (v : list A) (i : nat) : result E A :=
  match v !! i with Some a => Ok a | None => Panic end.
Definition store {E A} (v : list A) (i : nat) (a : A) : result E (list A) :=
  match v !! i with Some _ => Ok (<[i := a]> v) | None => Panic end.

(** The inner loop: the characters of [b] from index [j] on. *)
Fixpoint fill_row {E} (ca : string) (cs : list string) (j : nat) (prev curr : list usize) : result E (list usize) :=
  match cs with
  | [] => Ok curr
  | cb :: cs' =>
      let cost := if String.eqb ca cb then 0 else 1 in
      left ← index curr j;
      above ← index prev (S j);
      corner ← index prev j;
      curr ← store curr (S j) (Z.min (Z.min (left + 1) (above + 1)) (corner + cost));
      fill_row ca cs' (S j) prev curr
  end.

(** The outer loop: the characters of [a] from index [i] on. *)
Fixpoint fill_rows {E} (i : nat) (cs bs : list string) (prev curr : list usize) : result E (list usize) :=
  match cs with
  | [] => Ok prev
  | ca :: cs' =>
      curr ← store curr 0 (Z.of_nat i + 1);
      curr ← fill_row ca bs 0 prev curr;
      fill_rows (S i) cs' bs curr prev
  end.

Definition levenshtein {E} (a b : string) : result E usize :=
  let b_len := length (chars b) in
  let prev := Z.of_nat <$> seq 0 (S b_len) in
  let curr := replicate (S b_len) 0 in
  prev ← fill_rows 0 (chars a) (chars b) prev curr;
  index prev b_len.

(** ** The contract *)

(** One edit of one character. *)
Inductive edit {A} : list A -> list A -> Prop :=
| edit_insert x l : edit l (x :: l)
| edit_delete x l : edit (x :: l) l
| edit_replace x y l : edit (x :: l) (y :: l)
| edit_later x l k : edit l k -> edit (x :: l) (x :: k).

(** [n] edits turn [l] into [k], and no fewer do. *)
Definition edit_distance {A} (l k : list A) (n : nat) : Prop :=
  nsteps edit n l k /\ forall m, nsteps edit m l k -> (n <= m)%nat.

(** ** The distance by recursion *)

Section distance.
Context {A : Type} `{EqDecision A}.
Implicit Types (l k : list A) (x y : A).

Definition replace_cost x y : nat := if decide (x = y) then 0 else 1.

Fixpoint lev l : list A -> nat :=
  match l with
  | [] => fun k => length k
  | x :: l' =>
      fix lev_l k := match k with
                     | [] => S (length l')
                     | y :: k' => Nat.min (Nat.min (S (lev_l k')) (S (lev l' k))) (replace_cost x y + lev l' k')
                     end
  end.

Lemma lev_nil_r l : lev l [] = length l.
Proof. by destruct l. Qed.

Lemma lev_cons x y l k :
  lev (x :: l) (y :: k) = Nat.min (Nat.min (S (lev (x :: l) k)) (S (lev l (y :: k)))) (replace_cost x y + lev l k).
Proof. done. Qed.

(** An alignment of two texts with its cost. *)
Inductive align : nat -> list A -> list A -> Prop :=
| align_nil : align 0 [] []
| align_keep n x l k : align n l k -> align n (x :: l) (x :: k)
| align_replace n x y l k : align n l k -> align (S n) (x :: l) (y :: k)
| align_delete n x l k : align n l k -> align (S n) (x :: l) k
| align_insert n x l k : align n l k -> align (S n) l (x :: k).

Lemma align_refl l : align 0 l l.
Proof. induction l; by constructor. Qed.

Lemma align_nil_r l : align (length l) l [].
Proof. induction l; by constructor. Qed.

Lemma align_nil_l k : align (length k) [] k.
Proof. induction k; by constructor. Qed.

Lemma align_lev l k : align (lev l k) l k.
Proof.
  revert k. induction l as [|x l IH]; intros k; [apply align_nil_l|].
  induction k as [|y k IHk]; [apply (align_nil_r (x :: l))|].
  rewrite lev_cons. destruct (Nat.min_dec (Nat.min (S (lev (x :: l) k)) (S (lev l (y :: k)))) (replace_cost x y + lev l k)) as [->| ->].
  - destruct (Nat.min_dec (S (lev (x :: l) k)) (S (lev l (y :: k)))) as [->| ->]; [apply align_insert, IHk|apply align_delete, IH].
  - unfold replace_cost. destruct (decide (x = y)) as [<-|]; [apply align_keep, IH|apply align_replace, IH].
Qed.

Lemma lev_self_le x l k : (lev (x :: l) k <= S (lev l k))%nat.
Proof. destruct k; [by rewrite !lev_nil_r|]. rewrite lev_cons. lia. Qed.

Lemma lev_cons_r_le x l k : (lev l (x :: k) <= S (lev l k))%nat.
Proof. destruct l; [done|]. rewrite lev_cons. lia. Qed.

Lemma lev_least n l k : align n l k -> (lev l k <= n)%nat.
Proof.
  induction 1 as [|n x l k _ IH|n x y l k _ IH|n x l k _ IH|n x l k _ IH]; [done| | | |].
  - rewrite lev_cons. unfold replace_cost. rewrite decide_True by done. lia.
  - rewrite lev_cons. unfold replace_cost. destruct (decide _); lia.
  - pose proof (lev_self_le x l k). lia.
  - pose proof (lev_cons_r_le x l k). lia.
Qed.

(** An edit of the second text costs at most one more. *)
Lemma align_edit n l k k' : align n l k -> edit k k' -> exists m, (m <= S n)%nat /\ align m l k'.
Proof.
  intros Ha. revert k'. induction Ha as [|n x l k Ha IH|n x y l k Ha IH|n x l k Ha IH|n x l k Ha IH]; intros k' He.
  - inversion He; subst. exists 1%nat. split; [done|]. repeat constructor.
  - inversion He; subst; [by exists (S n); split; [lia|repeat constructor]..|].
    edestruct IH as (m & Hm & H); [done|]. exists m. split; [done|]. by constructor.
  - inversion He; subst; [exists (S (S n)); split; [lia|by repeat constructor]| | |].
    + exists (S n). split; [lia|]. by constructor.
    + exists (S n). split; [lia|]. by constructor.
    + edestruct IH as (m & Hm & H); [done|]. exists (S m). split; [lia|]. by constructor.
  - destruct (IH _ He) as (m & Hm & H). exists (S m). split; [lia|]. by constructor.
  - inversion He; subst; [exists (S (S n)); split; [lia|by repeat constructor]| | |].
    + exists n. split; [lia|done].
    + exists (S n). split; [lia|]. by constructor.
    + edestruct IH as (m & Hm & H); [done|]. exists (S m). split; [lia|]. by constructor.
Qed.

Lemma align_edits n l k : nsteps edit n l k -> exists m, (m <= n)%nat /\ align m l k.
Proof.
  revert k. induction n as [|n IH]; intros k H.
  - inversion H; subst. exists 0%nat. split; [done|apply align_refl].
  - apply nsteps_inv_r in H as (k' & H & He). destruct (IH _ H) as (m & Hm & Ha).
    destruct (align_edit _ _ _ _ Ha He) as (m' & Hm' & Ha'). exists m'. split; [lia|done].
Qed.

Lemma edits_later n x l k : nsteps edit n l k -> nsteps edit n (x :: l) (x :: k).
Proof. induction 1; econstructor; [by apply edit_later|done]. Qed.

Lemma edits_align n l k : align n l k -> nsteps edit n l k.
Proof.
  induction 1 as [|n x l k _ IH|n x y l k _ IH|n x l k _ IH|n x l k _ IH].
  - constructor.
  - by apply edits_later.
  - econstructor; [apply (edit_replace x y)|]. by apply edits_later.
  - econstructor; [apply edit_delete|done].
  - eapply nsteps_r; [done|constructor].
Qed.

Lemma lev_distance l k : edit_distance l k (lev l k).
Proof.
  split; [apply edits_align, align_lev|]. intros m H. apply align_edits in H as (n & Hn & H).
  apply lev_least in H. lia.
Qed.

(** ** Both ends *)

Lemma edit_app_l p l k : edit l k -> edit (p ++ l) (p ++ k).
Proof. intros H. induction p; [done|]. by apply edit_later. Qed.

Lemma edit_app_r l k q : edit l k -> edit (l ++ q) (k ++ q).
Proof. induction 1; cbn; by constructor. Qed.

Lemma edit_reverse l k : edit l k -> edit (reverse l) (reverse k).
Proof.
  induction 1 as [x l|x l|x y l|x l k _ IH]; rewrite ?reverse_cons.
  - rewrite <-(app_nil_r (reverse l)) at 1. apply edit_app_l. constructor.
  - rewrite <-(app_nil_r (reverse l)) at 2. apply edit_app_l. constructor.
  - apply edit_app_l. constructor.
  - by apply edit_app_r.
Qed.

Lemma edits_reverse n l k : nsteps edit n l k -> nsteps edit n (reverse l) (reverse k).
Proof. induction 1; econstructor; [by apply edit_reverse|done]. Qed.

Lemma edit_distance_reverse n l k : edit_distance (reverse l) (reverse k) n -> edit_distance l k n.
Proof.
  intros [H Hmin]. split; [|intros m Hm; by apply Hmin, edits_reverse].
  apply edits_reverse in H. by rewrite !reverse_involutive in H.
Qed.

(** The distance of two prefixes, seen from their ends. *)
Definition prefix_distance l k : nat := lev (reverse l) (reverse k).

Lemma prefix_distance_nil k : prefix_distance [] k = length k.
Proof. apply length_reverse. Qed.

Lemma prefix_distance_nil_r l : prefix_distance l [] = length l.
Proof. unfold prefix_distance. by rewrite lev_nil_r, length_reverse. Qed.

Lemma prefix_distance_snoc l k x y :
  prefix_distance (l ++ [x]) (k ++ [y]) = Nat.min (Nat.min (S (prefix_distance (l ++ [x]) k)) (S (prefix_distance l (k ++ [y]))))
      (replace_cost x y + prefix_distance l k).
Proof. unfold prefix_distance. by rewrite !reverse_snoc, lev_cons. Qed.
End distance.

(** ** The table *)

Definition table_row (p bs : list string) : list usize := (fun j => Z.of_nat (prefix_distance p (take j bs))) <$> seq 0 (S (length bs)).

Lemma table_row_lookup p bs j : (j <= length bs)%nat -> table_row p bs !! j = Some (Z.of_nat (prefix_distance p (take j bs))).
Proof.
  intros H. unfold table_row. rewrite list_lookup_fmap, lookup_seq_lt by lia. done.
Qed.

Lemma length_table_row p bs : length (table_row p bs) = S (length bs).
Proof. unfold table_row. by rewrite length_fmap, length_seq. Qed.

(** [curr] holds the row of [p] up to index [j]. *)
Definition filled (p bs : list string) (j : nat) (curr : list usize) : Prop :=
  length curr = S (length bs) /\ forall i, (i <= j)%nat -> curr !! i = table_row p bs !! i.

Lemma filled_all p bs curr : filled p bs (length bs) curr -> curr = table_row p bs.
Proof.
  intros [Hl H]. apply list_eq. intros i. destruct (decide (i <= length bs)%nat); [by apply H|].
  rewrite !lookup_ge_None_2; [done|rewrite length_table_row; lia|lia].
Qed.

Lemma store_filled {E} p bs j curr v : (S j <= length bs)%nat -> filled p bs j curr -> table_row p bs !! S j = Some v ->
  exists curr', store (E := E) curr (S j) v = Ok curr' /\ filled p bs (S j) curr'.
Proof.
  intros Hj [Hl H] Hv. unfold store.
  destruct (lookup_lt_is_Some_2 curr (S j)) as [? ->]; [lia|]. eexists. split; [done|]. split; [by rewrite length_insert|].
  intros i Hi. destruct (decide (i = S j)) as [->|Hne].
  - rewrite list_lookup_insert_eq by lia. done.
  - rewrite list_lookup_insert_ne by done. apply H. lia.
Qed.

Lemma index_Some {E A} (v : list A) i a : v !! i = Some a -> index (E := E) v i = Ok a.
Proof. unfold index. by intros ->. Qed.

Lemma fill_row_table {E} p ca qs cs curr :
  filled (p ++ [ca]) (qs ++ cs) (length qs) curr ->
  fill_row (E := E) ca cs (length qs) (table_row p (qs ++ cs)) curr = Ok (table_row (p ++ [ca]) (qs ++ cs)).
Proof.
  revert qs curr. induction cs as [|cb cs IH]; intros qs curr Hf; cbn [fill_row].
  - rewrite app_nil_r in *. f_equal. by apply filled_all.
  - assert (length qs < length (qs ++ cb :: cs))%nat as Hlt by (rewrite length_app; cbn; lia).
    assert (take (length qs) (qs ++ cb :: cs) = qs) as Ht by (by rewrite take_app_length).
    assert (take (S (length qs)) (qs ++ cb :: cs) = qs ++ [cb]) as Ht1.
    { rewrite (cons_middle cb qs cs), app_assoc. apply take_app_length'. rewrite length_app. cbn. lia. }
    rewrite (index_Some curr _ (Z.of_nat (prefix_distance (p ++ [ca]) qs))).
    2:{ rewrite (proj2 Hf) by lia. rewrite table_row_lookup by lia. by rewrite Ht. }
    cbn [mbind result_bind].
    rewrite (index_Some _ (S (length qs)) (Z.of_nat (prefix_distance p (qs ++ [cb])))) by (rewrite table_row_lookup by lia; by rewrite Ht1).
    cbn [mbind result_bind].
    rewrite (index_Some _ (length qs) (Z.of_nat (prefix_distance p qs))) by (rewrite table_row_lookup by lia; by rewrite Ht).
    cbn [mbind result_bind].
    edestruct (store_filled (E := E) (p ++ [ca]) (qs ++ cb :: cs) (length qs) curr) as (curr' & -> & Hf'); [lia|done| |].
    { rewrite table_row_lookup by lia. rewrite Ht1, prefix_distance_snoc. f_equal.
      unfold replace_cost. destruct (String.eqb_spec ca cb); [rewrite decide_True by done|rewrite decide_False by done]; lia. }
    cbn [mbind result_bind]. specialize (IH (qs ++ [cb]) curr'). rewrite <-app_assoc in IH. cbn in IH.
    rewrite length_app, Nat.add_1_r in IH. by apply IH.
Qed.

Lemma fill_rows_table {E} p cs bs curr :
  length curr = S (length bs) ->
  fill_rows (E := E) (length p) cs bs (table_row p bs) curr = Ok (table_row (p ++ cs) bs).
Proof.
  revert p curr. induction cs as [|ca cs IH]; intros p curr Hl; cbn [fill_rows]; [by rewrite app_nil_r|].
  unfold store. destruct (lookup_lt_is_Some_2 curr 0) as [? ->]; [lia|]. cbn [mbind result_bind].
  rewrite (fill_row_table p ca [] bs).
  - cbn [mbind result_bind]. specialize (IH (p ++ [ca]) (table_row p bs)).
    rewrite length_app, Nat.add_1_r, <-app_assoc in IH. apply IH, length_table_row.
  - split; [by rewrite length_insert|]. intros i Hi. replace i with 0%nat by (cbn in Hi; lia).
    rewrite list_lookup_insert_eq by lia. rewrite table_row_lookup by lia.
    rewrite take_0, prefix_distance_nil_r, length_app. cbn. f_equal. lia.
Qed.

Lemma first_row bs : Z.of_nat <$> seq 0 (S (length bs)) = table_row [] bs.
Proof.
  apply list_fmap_ext. intros i j Hj. apply lookup_seq in Hj as [-> Hi].
  rewrite prefix_distance_nil, length_take. lia.
Qed.

Lemma levenshtein_table {E} (a b : string) : levenshtein (E := E) a b = Ok (Z.of_nat (prefix_distance (chars a) (chars b))).
Proof.
  unfold levenshtein. rewrite first_row, (fill_rows_table [] (chars a) (chars b)) by apply length_replicate.
  cbn [mbind result_bind app]. apply index_Some. by rewrite table_row_lookup, firstn_all.
Qed.

Lemma levenshtein_distance {E} (a b : string) :
  exists n : nat, levenshtein (E := E) a b = Ok (Z.of_nat n) /\ edit_distance (chars a) (chars b) n.
Proof.
  exists (prefix_distance (chars a) (chars b)). split; [apply levenshtein_table|apply edit_distance_reverse, lev_distance].
Qed.

Lemma edit_distance_unique {A} (l k : list A) n m : edit_distance l k n -> edit_distance l k m -> n = m.
Proof. intros [Hn Hn'] [Hm Hm']. apply Hn' in Hm. apply Hm' in Hn. lia. Qed.

Lemma edit_distance_0 {A} (l k : list A) : edit_distance l k 0 <-> l = k.
Proof.
  split; [intros [H _]; by inversion H|]. intros ->. split; [constructor|lia].
Qed.
