(* ===== verification/UiTransport.v ===== *)
(** * Sockets of the desktop programs (crates/sentia-ui/src/transport.rs)

    [usys] are the calls the desktop programs make: environment variables, files, the
    sockets of the router and of the health monitor, the clock.  A failed call answers
    with the text of its error.  [Path::display] shows bytes that are not UTF-8 as
    replacement characters. *)

From Stdlib Require Import Ascii String.
From S2P Require Import Prelude RustStr RustText Effects RouterContract SocketContract BrokerServer RouterListener.

Record UiMetadata := { um_is_socket : bool; um_is_file : bool; um_mode : u32 }.
Record Statvfs := { f_blocks : u64; f_bavail : u64; f_frsize : u64 }.

(** The answer of a call that can fail: the text of the error, or the value. *)
Definition uio (A : Type) : Type := (string + A)%type.
Definition of_uio {A} (r : uio A) : result string A := match r with inl error => Err error | inr a => Ok a end.

Inductive usys : Type -> Type :=
| UVarOs (name : string) : usys (option string)
| UVars : usys (list (string * string))
| UGeteuid : usys u32
| UUnixSecs : usys u64
| UMetadata (path : string) : usys (uio UiMetadata)
| UIsDir (path : string) : usys bool
| UReadDir (path : string) : usys (uio (list (uio string)))
| UEntryMetadata (dir name : string) : usys (uio UiMetadata)
| UReadToString (path : string) : usys (uio string)
| UStatvfs (path : string) : usys (option Statvfs)
| UCreateDirAll (path : string) : usys (uio unit)
| UWriteFile (path bytes : string) : usys (uio unit)
| UConnect (path : string) : usys (uio unit)
| USetReadTimeout (millis : Z) : usys (uio unit)
| USetWriteTimeout (millis : Z) : usys (uio unit)
| UWriteAll (bytes : string) : usys (uio unit)
| UReadToEnd : usys (uio string).

Abbreviation ueff A := (eff usys unit string A).

(** [call?] and [call.map_err(..)?] *)
Definition utry {A} (c : usys (uio A)) : ueff A := r ← perform c; lift (of_uio r).
Definition utry_as {A} (f : string -> string) (c : usys (uio A)) : ueff A := r ← perform c; lift (map_err f (of_uio r)).

Definition display (path : string) : string := from_utf8_lossy path.
Definition show_octal (n : Z) : string := radix_digits 12 8 n EmptyString.

Definition ROUTER_SOCKET_RELATIVE_PATH : string := "sentia/router.sock".
Definition HEALTH_SOCKET_DEFAULT_PATH : string := "/run/sentia-health/metrics.sock".

Inductive RouterPolicy := UiLocalOnly | UiLocalPreferred | UiRemotePreferred | UiAskBeforeRemote.

#[global] Instance RouterPolicy_eq_dec : EqDecision RouterPolicy.
Proof. solve_decision. Defined.

Definition as_contract_label (self : RouterPolicy) : string :=
  match self with
  | UiLocalOnly => "LOCAL_ONLY"
  | UiLocalPreferred => "LOCAL_PREFERRED"
  | UiRemotePreferred => "REMOTE_PREFERRED"
  | UiAskBeforeRemote => "ASK_BEFORE_REMOTE"
  end.

Definition router_socket_path : ueff string :=
  explicit ← perform (UVarOs "SENTIA_ROUTER_SOCKET");
  match explicit with
  | Some explicit => mret explicit
  | None =>
      runtime_dir ← perform (UVarOs "XDG_RUNTIME_DIR");
      runtime_dir ← match runtime_dir with
                    | Some dir => mret dir
                    | None => uid ← perform UGeteuid; mret ("/run/user/" +:+ show_uint uid)
                    end;
      mret (path_join runtime_dir ROUTER_SOCKET_RELATIVE_PATH)
  end.

Definition health_socket_path : ueff string :=
  configured ← perform (UVarOs "SENTIA_HEALTH_SOCKET");
  mret (default HEALTH_SOCKET_DEFAULT_PATH configured).

Definition verify_router_socket_0600 (socket_path : string) : ueff unit :=
  metadata ← utry_as (fun _ => "failed to inspect router socket at " +:+ display socket_path) (UMetadata socket_path);
  lift (fail_if (negb (um_is_socket metadata))
          ("router endpoint " +:+ display socket_path +:+ " is not a unix socket"));;
  let mode := Z.land (um_mode metadata) 511 in
  lift (fail_if (negb (mode =? 384))
          ("router socket " +:+ display socket_path +:+ " must be mode 0600, found " +:+ show_octal mode));;
  parent ← lift (ok_or (parent_path socket_path)
                   ("router socket " +:+ display socket_path +:+ " has no parent directory"));
  parent_metadata ← utry (UMetadata parent);
  let parent_mode := Z.land (um_mode parent_metadata) 511 in
  lift (fail_if (negb (Z.land parent_mode 63 =? 0))
          ("router socket parent " +:+ display parent +:+ " must not be accessible by group/others (mode "
             +:+ show_octal parent_mode +:+ ")")).

Record UnixRouterClient := { urc_socket_path : string; urc_timeout : Z }.

Definition UnixRouterClient_default : ueff UnixRouterClient :=
  path ← router_socket_path;
  mret {| urc_socket_path := path; urc_timeout := 3000 |}.

Definition send_request (self : UnixRouterClient) (request_json : string) : ueff string :=
  utry (UConnect (urc_socket_path self));;
  utry (USetReadTimeout (urc_timeout self));;
  utry (USetWriteTimeout (urc_timeout self));;
  utry (UWriteAll request_json);;
  utry (UWriteAll (String LF EmptyString));;
  utry UReadToEnd.

(** ** The socket the programs agree on *)

(** The variables as the router and as the desktop programs read them. *)
Definition same_variables (ui : environment usys) (router : environment listen_io)
    (vars : string -> option string) : Prop :=
  (forall h name, ui h _ (UVarOs name) = vars name) /\ (forall h name, router h _ (EnvVar name) = vars name).

Lemma socket_paths_agree ui router vars h h' :
  same_variables ui router vars -> vars "SENTIA_ROUTER_SOCKET" <> None \/ vars "XDG_RUNTIME_DIR" <> None ->
  value (router_socket_path ui h tt) = value (runtime_socket_path router h' tt).
Proof.
  intros [Hu Hr] Hset. unfold router_socket_path, runtime_socket_path.
  unfold mbind, eff_bind, perform, lift, mret, eff_ret. cbn. rewrite Hu, Hr.
  destruct (vars "SENTIA_ROUTER_SOCKET") as [path|] eqn:E; cbn; [done|]. rewrite Hu, Hr.
  destruct (vars "XDG_RUNTIME_DIR") as [dir|] eqn:E'; cbn; [done|]. by destruct Hset.
Qed.
