(* ===== verification/UiTerminal.v ===== *)
(** * Terminal assistance (crates/sentia-ui/src/terminal/mod.rs, bin/sentia-terminal.rs)

    What the terminal does with a command that was not found: it looks for a misspelt
    executable, a package that ships the command, or a question for the assistant; and the
    bounded buffer of captured commands.  A [BTreeSet] of texts is a [gset] that is
    iterated in the order of its elements ([in_order]), a [BTreeMap] a [gmap].  Last comes
    the shell the terminal window starts. *)

From Stdlib Require Import Ascii String.
From S2P Require Import Prelude RustStr RustText Effects EditDistance UiTransport.

Inductive StopClass := ScQuestion | ScPolite | ScTask.

Inductive AssistanceMode := AmCommandNotFound | AmOnRequest | AmAutoSuggest | AmDisabled | AmConventional.

#[global] Instance AssistanceMode_eq_dec : EqDecision AssistanceMode.
Proof. solve_decision. Defined.

Definition env_value (self : AssistanceMode) : string :=
  match self with
  | AmCommandNotFound => "command-not-found"
  | AmOnRequest => "on-request"
  | AmAutoSuggest => "auto-suggest"
  | AmDisabled => "disabled"
  | AmConventional => "conventional"
  end.

Definition AssistanceMode_default : AssistanceMode := AmCommandNotFound.

Inductive CommandNotFoundClass := LikelyTypo | MissingPackage | NaturalLanguage | UnknownCommand.

Record CommandNotFoundResult := {
  nf_class : CommandNotFoundClass;
  nf_command : string;
  nf_suggestion : option string;
  nf_packages : list string;
  nf_ai_hint : option string;
}.

(** ** The index of packages *)

Definition in_order (s : gset string) : list string := sort_by (leb_of String.compare) (elements s).

Abbreviation PackageIndex := (gmap string (gset string)).

(** [map.entry(command).or_default().insert(package)] *)
Definition add_package (command package : string) (map : PackageIndex) : PackageIndex :=
  <[command := {[package]} ∪ default ∅ (map !! command)]> map.

Definition TAB : ascii := chr 9.

(** One line of the table: the command and the package it names, if any. *)
Definition tsv_entry (line : string) : option (string * string) :=
  let trimmed := trim line in
  if is_empty trimmed || starts_with "#" trimmed then None
  else
    let '(command, package) := match split_once TAB trimmed with
                               | Some (a, b) => (trim a, trim b)
                               | None => (trim trimmed, EmptyString)
                               end in
    if is_empty command || is_empty package then None else Some (command, package).

Fixpoint read_tsv (lines : list string) (map : PackageIndex) : PackageIndex :=
  match lines with
  | [] => map
  | line :: lines' =>
      read_tsv lines' match tsv_entry line with
                      | Some (command, package) => add_package command package map
                      | None => map
                      end
  end.

Definition from_tsv (path : string) : ueff PackageIndex :=
  raw ← utry (UReadToString path);
  mret (read_tsv (lines raw) ∅).

Definition from_pairs (pairs : list (string * string)) : PackageIndex :=
  fold_left (fun map '(command, package) => add_package command package map) pairs ∅.

Definition lookup_packages (self : PackageIndex) (command : string) : list string :=
  match self !! command with
  | Some packages => in_order packages
  | None => []
  end.

(** ** The executables of the search path *)

(** The entries of one directory, in the order the system lists them. *)
Fixpoint add_executables (dir : string) (entries : list (uio string)) (out : gset string) : ueff (gset string) :=
  match entries with
  | [] => mret out
  | entry :: entries' =>
      match entry with
      | inr name =>
          metadata ← perform (UEntryMetadata dir name);
          add_executables dir entries'
            match metadata with
            | inr metadata =>
                if negb (um_is_file metadata) then out
                else if Z.land (um_mode metadata) 73 =? 0 then out
                else if valid_utf8 name then {[name]} ∪ out else out
            | inl _ => out
            end
      | inl _ => add_executables dir entries' out
      end
  end.

Fixpoint search_paths (paths : list string) (out : gset string) : ueff (gset string) :=
  match paths with
  | [] => mret out
  | path :: paths' =>
      is_dir ← perform (UIsDir path);
      if negb is_dir then search_paths paths' out
      else
        entries ← perform (UReadDir path);
        match entries with
        | inr entries => out ← add_executables path entries out; search_paths paths' out
        | inl _ => search_paths paths' out
        end
  end.

Definition DEFAULT_SEARCH_PATH : string := "/usr/local/sbin:/usr/local/bin:/usr/sbin:/usr/bin:/sbin:/bin".

Definition collect_executables : ueff (gset string) :=
  configured ← perform (UVarOs "SENTIA_EXECUTABLE_SEARCH_PATH");
  search_path ← match configured with
                | Some path => mret path
                | None => path ← perform (UVarOs "PATH"); mret (default DEFAULT_SEARCH_PATH path)
                end;
  search_paths (split_char ":" search_path) ∅.

Record ClassifierConfig := {
  max_typo_distance : usize;
  executable_catalog : gset string;
  package_index : option PackageIndex;
}.

Definition ClassifierConfig_default : ueff ClassifierConfig :=
  path ← perform (UVarOs "SENTIA_COMMAND_INDEX");
  package_index ← match path with
                  | Some path => r ← attempt (from_tsv path); mret (ok r)
                  | None => mret None
                  end;
  executable_catalog ← collect_executables;
  mret {| max_typo_distance := 2; executable_catalog := executable_catalog; package_index := package_index |}.

(** ** Classification *)

Definition stop_class : list (string * StopClass) :=
  [("how", ScQuestion); ("what", ScQuestion); ("why", ScQuestion);
   ("please", ScPolite); ("could", ScPolite); ("should", ScPolite);
   ("show", ScTask); ("list", ScTask); ("find", ScTask); ("explain", ScTask); ("install", ScTask)].

(** The two nested loops; the state is [seen_question] and [seen_other]. *)
Definition see_token (token : string) (seen : bool * bool) : bool * bool :=
  fold_left (fun '(seen_question, seen_other) '(stop, class) =>
    if String.eqb token stop then
      match class with
      | ScQuestion => (true, seen_other)
      | ScPolite | ScTask => (seen_question, true)
      end
    else (seen_question, seen_other)) stop_class seen.

Definition looks_like_natural_language (raw : string) : bool :=
  if vlen (split_whitespace raw) <? 3 then false
  else
    let lower := to_ascii_lowercase raw in
    if contains "?" lower then true
    else
      let '(seen_question, seen_other) :=
        fold_left (fun seen token => see_token token seen) (split_whitespace lower) (false, false) in
      seen_question || seen_other.

(** [Iterator::min_by] *)
Definition min_by {A} (compare : A -> A -> comparison) (l : list A) : option A :=
  match l with
  | [] => None
  | x :: l' => Some (fold_left (fun x y => match compare x y with Gt => y | _ => x end) l' x)
  end.

(** The [filter_map] over the catalog. *)
Fixpoint near {E} (command : string) (max_distance : usize) (catalog : list string) : result E (list (string * usize)) :=
  match catalog with
  | [] => Ok []
  | candidate :: catalog' =>
      distance ← levenshtein command candidate;
      rest ← near command max_distance catalog';
      Ok (if distance <=? max_distance then (candidate, distance) :: rest else rest)
  end.

Definition match_order (left right : string * usize) : comparison :=
  cmp_then (Z.compare (snd left) (snd right)) (String.compare (fst left) (fst right)).

Definition best_typo_match {E} (command : string) (executable_catalog : gset string) (max_distance : usize)
  : result E (option (string * usize)) :=
  candidates ← near command max_distance (in_order executable_catalog);
  Ok (min_by match_order candidates).

Definition shell_quote (value : string) : string :=
  "'" +:+ replace "'" "'\''" value +:+ "'".

Definition not_found (class : CommandNotFoundClass) (command : string) (suggestion : option string)
    (packages : list string) (ai_hint : option string) : CommandNotFoundResult :=
  {| nf_class := class; nf_command := command; nf_suggestion := suggestion; nf_packages := packages; nf_ai_hint := ai_hint |}.

Definition classify_command_line {E} (raw_command_line : string) (config : ClassifierConfig) : result E CommandNotFoundResult :=
  let trimmed := trim raw_command_line in
  let command := default EmptyString (head (split_whitespace trimmed)) in
  if is_empty command then Ok (not_found UnknownCommand command None [] None)
  else
    typo ← best_typo_match command (executable_catalog config) (max_typo_distance config);
    let suggestion := '(suggestion, _) ← typo; if String.eqb suggestion command then None else Some suggestion in
    match suggestion with
    | Some suggestion => Ok (not_found LikelyTypo command (Some suggestion) [] None)
    | None =>
        let packages := match package_index config with
                        | Some index => lookup_packages index command
                        | None => []
                        end in
        match packages with
        | _ :: _ => Ok (not_found MissingPackage command None packages None)
        | [] =>
            if looks_like_natural_language trimmed
            then Ok (not_found NaturalLanguage command None [] (Some ("ai -- " +:+ shell_quote trimmed)))
            else Ok (not_found UnknownCommand command None [] None)
        end
    end.

(** ** Captured commands *)

Record CapturedCommand := {
  cap_timestamp : string;
  cap_cwd : string;
  cap_command : string;
  cap_exit_status : Z;
  cap_combined_output : option string;
}.

Record CaptureBuffer := {
  cb_max_events : usize;
  cb_max_total_output_bytes : usize;
  cb_output_bytes : usize;
  cb_events : list CapturedCommand;
}.

Definition CaptureBuffer_new (max_events max_total_output_bytes : usize) : CaptureBuffer :=
  {| cb_max_events := max_events; cb_max_total_output_bytes := max_total_output_bytes;
     cb_output_bytes := 0; cb_events := [] |}.

(** [output.len()] of an event that has one. *)
Definition output_len (event : CapturedCommand) : usize :=
  match cap_combined_output event with Some output => len output | None => 0 end.

(** The two loops on the counter and the queue; [None]: still running when the fuel ends. *)
Fixpoint drop_events (fuel : nat) (max_events bytes : usize) (events : list CapturedCommand)
  : option (usize * list CapturedCommand) :=
  if vlen events <? max_events then Some (bytes, events)
  else
    match fuel with
    | O => None
    | S fuel' =>
        match events with
        | old :: events' => drop_events fuel' max_events (saturating_sub bytes (output_len old)) events'
        | [] => drop_events fuel' max_events bytes []
        end
    end.

Fixpoint drop_output (max_bytes bytes : usize) (events : list CapturedCommand) : usize * list CapturedCommand :=
  if bytes <=? max_bytes then (bytes, events)
  else
    match events with
    | old :: events' => drop_output max_bytes (saturating_sub bytes (output_len old)) events'
    | [] => (bytes, [])
    end.

Definition without_output (event : CapturedCommand) : CapturedCommand :=
  {| cap_timestamp := cap_timestamp event; cap_cwd := cap_cwd event; cap_command := cap_command event;
     cap_exit_status := cap_exit_status event; cap_combined_output := None |}.

(** [push]; the addition wraps as in a release build. *)
Definition push_event (fuel : nat) (self : CaptureBuffer) (event : CapturedCommand) : option CaptureBuffer :=
  let bytes := (cb_output_bytes self + output_len event) mod (USIZE_MAX + 1) in
  '(bytes, events) ← drop_events fuel (cb_max_events self) bytes (cb_events self);
  let '(bytes, events) := drop_output (cb_max_total_output_bytes self) bytes events in
  let event := if cb_max_total_output_bytes self <? bytes then without_output event else event in
  Some {| cb_max_events := cb_max_events self; cb_max_total_output_bytes := cb_max_total_output_bytes self;
          cb_output_bytes := bytes; cb_events := events ++ [event] |}.

(** ** The suggestion is the closest executable *)

Lemma in_order_elem x s : x ∈ in_order s <-> x ∈ s.
Proof. unfold in_order. rewrite sort_by_perm. apply elem_of_elements. Qed.

Lemma match_order_lawful : lawful_cmp match_order.
Proof.
  apply (lawful_then (cmp_on snd Z.compare) (cmp_on fst String.compare)); apply lawful_on; [|apply str_compare_lawful].
  split; intros.
  - by rewrite Z.compare_antisym.
  - rewrite Z.compare_lt_iff in *. lia.
  - apply Z.compare_eq_iff in H. by subst.
Qed.

Lemma min_by_spec {A} (cmp : A -> A -> comparison) (l : list A) : lawful_cmp cmp ->
  match min_by cmp l with
  | Some m => m ∈ l /\ forall y, y ∈ l -> leb_of cmp m y = true
  | None => l = []
  end.
Proof.
  intros Hc. destruct l as [|x l]; [done|]. cbn [min_by]. revert x. induction l as [|y l IH]; intros x; cbn [fold_left].
  - split; [by left|]. intros y [->|[]%elem_of_nil]%elem_of_cons. by destruct (leb_of_total cmp x x Hc).
  - pose (z := match cmp x y with Gt => y | _ => x end). fold z. destruct (IH z) as [Hin Hmin].
    assert (leb_of cmp z x = true /\ leb_of cmp z y = true /\ (z = x \/ z = y)) as (Hx & Hy & Hz).
    { assert (forall w, leb_of cmp w w = true) as Hr by (intros w; by destruct (leb_of_total cmp w w Hc)).
      unfold z. destruct (cmp x y) eqn:E; repeat split; auto; unfold leb_of; rewrite ?(cmp_sym cmp Hc x y), E; done. }
    specialize (Hmin z ltac:(by left)) as Hmz. split.
    + apply elem_of_cons in Hin as [->|Hin]; [destruct Hz as [->| ->]; [by left|by right; left]|by right; right].
    + intros w [->|[->|Hw]%elem_of_cons]%elem_of_cons; [by eapply leb_of_trans..|]. apply Hmin. by right.
Qed.

Lemma near_spec {E} command max catalog :
  exists l, near (E := E) command max catalog = Ok l /\
    forall s d, (s, d) ∈ l <-> s ∈ catalog /\ d <= max /\ exists n : nat, d = Z.of_nat n /\ edit_distance (chars command) (chars s) n.
Proof.
  induction catalog as [|c catalog (l & Hl & IH)]; cbn [near].
  { exists []. split; [done|]. intros s d. set_solver. }
  destruct (levenshtein_distance (E := E) command c) as (n & -> & Hn). cbn [mbind result_bind]. rewrite Hl.
  cbn [mbind result_bind]. eexists. split; [done|]. intros s d. destruct (Z.leb_spec (Z.of_nat n) max) as [Hle|Hgt].
  - rewrite elem_of_cons, IH, elem_of_cons. split.
    + intros [[= -> ->]|(H & H' & H'')]; [|by auto]. split; [by left|]. eauto.
    + intros ([->|H] & H' & m & -> & Hm); [|by eauto 7]. left. by rewrite (edit_distance_unique _ _ _ _ Hm Hn).
  - rewrite IH, elem_of_cons. split; [intros (H & H'); by auto|].
    intros ([->|H] & H' & m & -> & Hm); [|by eauto 7]. rewrite (edit_distance_unique _ _ _ _ Hm Hn) in H'. lia.
Qed.

(** [s] is at distance [n] from [command]. *)
Definition distant (command s : string) (n : nat) : Prop := edit_distance (chars command) (chars s) n.

(** [s] is an executable within [max] edits of [command], no other is closer, and of equally
    close ones it comes first. *)
Definition closest (command : string) (catalog : gset string) (max : usize) (s : string) (n : nat) : Prop :=
  s ∈ catalog /\ distant command s n /\ Z.of_nat n <= max /\
  forall s' n', s' ∈ catalog -> distant command s' n' -> (n < n')%nat \/ n = n' /\ String.compare s s' <> Gt.

Lemma best_typo_match_spec {E} command catalog max :
  exists r, best_typo_match (E := E) command catalog max = Ok r /\
    match r with
    | Some (s, d) => exists n : nat, d = Z.of_nat n /\ closest command catalog max s n
    | None => forall s n, s ∈ catalog -> distant command s n -> max < Z.of_nat n
    end.
Proof.
  unfold best_typo_match. destruct (near_spec (E := E) command max (in_order catalog)) as (l & -> & Hl). cbn [mbind result_bind].
  eexists. split; [done|]. pose proof (min_by_spec match_order l match_order_lawful) as H.
  destruct (min_by match_order l) as [[s d]|].
  - destruct H as [Hin Hmin]. apply Hl in Hin as (Hs & Hd & n & -> & Hn). exists n. split; [done|].
    split; [by apply in_order_elem|]. split; [done|]. split; [done|]. intros s' n' Hs' Hn'.
    destruct (decide (Z.of_nat n' <= max)) as [Hle|]; [|left; lia].
    specialize (Hmin (s', Z.of_nat n')). rewrite Hl, in_order_elem in Hmin. specialize (Hmin ltac:(by eauto)).
    unfold leb_of, match_order, cmp_then in Hmin. cbn in Hmin. destruct (Z.compare_spec (Z.of_nat n) (Z.of_nat n')) as [?|?|?].
    + right. split; [lia|]. by destruct (String.compare s s').
    + left. lia.
    + done.
  - intros s n Hs Hn. destruct (decide (Z.of_nat n <= max)) as [Hle|]; [|lia].
    assert ((s, Z.of_nat n) ∈ l) as Hin; [|subst; by apply elem_of_nil in Hin].
    apply Hl. rewrite in_order_elem. eauto.
Qed.

Lemma distant_0 command s : distant command s 0 <-> s = command.
Proof.
  unfold distant. rewrite edit_distance_0. split; [|by intros ->].
  intros H. by rewrite <-(sconcat_chars s), <-(sconcat_chars command), H.
Qed.

(** The first word of a line. *)
Definition command_of (line : string) : string := default EmptyString (head (split_whitespace (trim line))).

(** The packages the index names for a command. *)
Definition shipped (config : ClassifierConfig) (command : string) : gset string :=
  default ∅ (index ← package_index config; index !! command).

Lemma lookup_packages_nil config command :
  match package_index config with Some index => lookup_packages index command | None => [] end = in_order (shipped config command).
Proof.
  unfold shipped, lookup_packages. destruct (package_index config) as [index|]; cbn; [|done]. by destruct (index !! command).
Qed.

Lemma in_order_nil s : in_order s = [] <-> s = ∅.
Proof.
  split; [|by intros ->]. intros H. apply set_eq. intros x. rewrite <-in_order_elem, H. set_solver.
Qed.

(** A question or a request: three words at least, with a question mark or one of the words
    the table lists. *)
Definition asks (line : string) : Prop :=
  3 <= vlen (split_whitespace line) /\
  (contains "?" (to_ascii_lowercase line) = true \/
   exists word, word ∈ split_whitespace (to_ascii_lowercase line) /\ word ∈ stop_class.*1).

Lemma see_token_spec token seen :
  let seen' := see_token token seen in
  seen'.1 || seen'.2 = seen.1 || seen.2 || bool_decide (token ∈ stop_class.*1).
Proof.
  unfold see_token. revert seen. induction stop_class as [|[stop class] l IH]; intros [q o]; cbn [fold_left].
  - cbn. by rewrite orb_false_r.
  - rewrite fmap_cons. cbn [fst]. destruct (String.eqb_spec token stop) as [->|Hne].
    + rewrite (bool_decide_true (stop ∈ stop :: l.*1)) by left. rewrite orb_true_r. destruct class; rewrite IH; cbn;
        by rewrite ?orb_true_r.
    + rewrite IH. f_equal. apply bool_decide_ext. rewrite elem_of_cons. naive_solver.
Qed.

Lemma see_tokens_spec tokens seen :
  let seen' := fold_left (fun seen token => see_token token seen) tokens seen in
  seen'.1 || seen'.2 = true <-> seen.1 || seen.2 = true \/ exists word, word ∈ tokens /\ word ∈ stop_class.*1.
Proof.
  revert seen. induction tokens as [|token tokens IH]; intros seen; cbn zeta; cbn [fold_left].
  { split; [by left|]. intros [|(word & []%elem_of_nil & _)]; done. }
  rewrite IH. cbn zeta. rewrite see_token_spec, orb_true_iff, bool_decide_eq_true. split.
  - intros [[H|H]|(word & Hw & H)]; [by left|right; exists token; split; [left|done]|right; exists word; split; [by right|done]].
  - intros [H|(word & [->|Hw]%elem_of_cons & H)]; [by left; left|by left; right|right; by exists word].
Qed.

Lemma natural_language_spec line : looks_like_natural_language line = true <-> asks line.
Proof.
  unfold looks_like_natural_language, asks. destruct (Z.ltb_spec (vlen (split_whitespace line)) 3) as [|Hl].
  { split; [done|lia]. }
  destruct (contains "?" (to_ascii_lowercase line)); [by split; [auto|]|].
  pose proof (see_tokens_spec (split_whitespace (to_ascii_lowercase line)) (false, false)) as H. cbn zeta in H.
  destruct (fold_left _ _ _) as [q o]. cbn [fst snd] in H. rewrite H. cbn. naive_solver.
Qed.

(** No executable is a likely spelling of the command. *)
Definition no_typo (config : ClassifierConfig) (command : string) : Prop :=
  command ∈ executable_catalog config \/
  forall s n, s ∈ executable_catalog config -> distant command s n -> max_typo_distance config < Z.of_nat n.

(** What each class promises about the line and the answer. *)
Definition classified (line : string) (config : ClassifierConfig) (r : CommandNotFoundResult) : Prop :=
  let command := command_of line in
  nf_command r = command /\
  match nf_class r with
  | LikelyTypo =>
      exists s n, nf_suggestion r = Some s /\ command ∉ executable_catalog config /\
        closest command (executable_catalog config) (max_typo_distance config) s n
  | MissingPackage =>
      no_typo config command /\ shipped config command <> ∅ /\ nf_packages r = in_order (shipped config command)
  | NaturalLanguage =>
      no_typo config command /\ shipped config command = ∅ /\ asks (trim line) /\
      nf_ai_hint r = Some ("ai -- " +:+ shell_quote (trim line))
  | UnknownCommand =>
      command = EmptyString \/ no_typo config command /\ shipped config command = ∅ /\ ~ asks (trim line)
  end.

(** The suggestion of [classify_command_line]. *)
Lemma suggestion_spec config command typo :
  match typo with
  | Some (s, d) => exists n : nat, d = Z.of_nat n /\ closest command (executable_catalog config) (max_typo_distance config) s n
  | None => forall s n, s ∈ executable_catalog config -> distant command s n -> max_typo_distance config < Z.of_nat n
  end ->
  match ('(s, _) ← typo; if String.eqb s command then None else Some s) with
  | Some s => command ∉ executable_catalog config /\
      exists n, closest command (executable_catalog config) (max_typo_distance config) s n
  | None => no_typo config command
  end.
Proof.
  destruct typo as [[s d]|]; cbn; [|by right]. intros (n & -> & Hs).
  destruct (String.eqb_spec s command) as [->|Hne]; [left; apply Hs|]. split; [|by exists n]. intros Hin.
  destruct Hs as (_ & Hd & _ & Hmin). destruct (Hmin command 0%nat Hin) as [|[-> _]]; [by apply distant_0|lia|].
  by apply distant_0 in Hd.
Qed.

Lemma classified_line {E} line config :
  exists r, classify_command_line (E := E) line config = Ok r /\ classified line config r.
Proof.
  unfold classify_command_line, classified. fold (command_of line). set (command := command_of line). cbn zeta.
  destruct (is_empty command) eqn:He.
  { eexists. split; [done|]. split; [done|]. left. by destruct command. }
  destruct (best_typo_match_spec (E := E) command (executable_catalog config) (max_typo_distance config)) as (typo & -> & Ht).
  cbn [mbind result_bind].
  apply suggestion_spec in Ht. destruct ('(s, _) ← typo; _) as [s|].
  { eexists. split; [done|]. split; [done|]. destruct Ht as [Hc (n & Hs)]. by exists s, n. }
  rewrite lookup_packages_nil. destruct (in_order (shipped config command)) as [|p ps] eqn:Hp.
  2:{ eexists. split; [done|]. split; [done|]. split; [done|]. split; [|done]. by intros H%in_order_nil; rewrite H in Hp. }
  apply in_order_nil in Hp. pose proof (natural_language_spec (trim line)) as Hn.
  destruct (looks_like_natural_language (trim line)); (eexists; split; [done|]; split; [done|]).
  - split; [done|]. split; [done|]. split; [by apply Hn|done].
  - right. split; [done|]. split; [done|]. by intros H%Hn.
Qed.

(** C20 [classify_command_line] never panics, and its answer is right on every line: a typo is
    reported exactly for a command that is not installed, with the executable at the least
    edit distance within the limit, the first of equally close ones; else the packages that
    ship the command in order; else a hint for a line that asks something. *)
Theorem classification_is_right {E} line config :
  exists r, classify_command_line (E := E) line config = Ok r /\ classified line config r.
Proof. apply classified_line. Qed.

(** ** The hint as a shell reads it

    POSIX word splitting of texts without expansions: blanks separate words, everything
    between single quotes stands for itself, a backslash outside them takes the next
    character literally. *)

Definition APOSTROPHE : ascii := chr 39.
Definition BACKSLASH : ascii := chr 92.
Definition blank (c : ascii) : bool := (byte c =? 32) || (byte c =? 9) || (byte c =? 10).

Definition flush (word : option string) (words : list string) : list string :=
  match word with Some w => w :: words | None => words end.
Definition extend (word : option string) (c : ascii) : option string :=
  Some (default EmptyString word +:+ String c EmptyString).

Fixpoint sh_read (quoted : bool) (word : option string) (s : string) : option (list string) :=
  match s with
  | EmptyString => if quoted then None else Some (flush word [])
  | String c s' =>
      if quoted then
        if Ascii.eqb c APOSTROPHE then sh_read false word s' else sh_read true (extend word c) s'
      else if Ascii.eqb c APOSTROPHE then sh_read true (Some (default EmptyString word)) s'
      else if Ascii.eqb c BACKSLASH then
        match s' with
        | String d s'' => sh_read false (extend word d) s''
        | EmptyString => None
        end
      else if blank c then flush word <$> sh_read false None s'
      else sh_read false (extend word c) s'
  end.
Definition sh_words (s : string) : option (list string) := sh_read false None s.

Lemma sh_read_quoted a v rest :
  sh_read true (Some a) (substituted APOSTROPHE "'\''" v +:+ rest) = sh_read true (Some (a +:+ v)) rest.
Proof.
  revert a. induction v as [|c v IH]; intros a; cbn [substituted]; [by rewrite app_empty_r|].
  destruct (Ascii.eqb_spec c APOSTROPHE) as [->|Hc].
  - cbn. rewrite IH, str_app_assoc. done.
  - cbn [append sh_read]. rewrite (proj2 (Ascii.eqb_neq _ _) Hc). cbn [extend]. unfold extend, default. cbn. rewrite IH, str_app_assoc. done.
Qed.

Lemma sh_words_quote v : sh_words ("ai -- " +:+ shell_quote v) = Some ["ai"; "--"; v].
Proof.
  unfold sh_words, shell_quote. rewrite (replace_single APOSTROPHE "'\''" v : replace "'" "'\''" v = _).
  change (sh_read false None ("ai -- " +:+ "'" +:+ substituted APOSTROPHE "'\''" v +:+ "'"))
    with (flush (Some "ai") <$> (flush (Some "--") <$> sh_read true (Some EmptyString) (substituted APOSTROPHE "'\''" v +:+ "'"))).
  by rewrite sh_read_quoted.
Qed.

(** ** The buffer of captured commands *)

Fixpoint total_output (events : list CapturedCommand) : Z :=
  match events with
  | [] => 0
  | event :: events' => output_len event + total_output events'
  end.

Lemma output_len_nonneg event : 0 <= output_len event.
Proof. unfold output_len. destruct (cap_combined_output event); [apply Zle_0_nat|done]. Qed.

Lemma total_output_nonneg events : 0 <= total_output events.
Proof. induction events as [|event events IH]; cbn; [done|]. pose proof (output_len_nonneg event). lia. Qed.

Lemma total_output_app l k : total_output (l ++ k) = total_output l + total_output k.
Proof. induction l as [|event l IH]; cbn; [done|]. rewrite IH. lia. Qed.

(** The counter covers what is kept; the slack is output it counts that is gone. *)
Record buffer_ok (b : CaptureBuffer) : Prop := {
  ok_count : vlen (cb_events b) <= cb_max_events b;
  ok_counter : total_output (cb_events b) <= cb_output_bytes b;
  ok_bytes : total_output (cb_events b) <= cb_max_total_output_bytes b;
}.

Lemma drop_events_spec fuel max bytes events :
  0 < max -> (length events <= fuel)%nat -> total_output events <= bytes ->
  exists gone kept, events = gone ++ kept /\ vlen kept < max /\
    drop_events fuel max bytes events = Some (bytes - total_output gone, kept).
Proof.
  intros Hmax. revert bytes events. induction fuel as [|fuel IH]; intros bytes events Hf Hb; cbn [drop_events].
  - destruct events; [|cbn in Hf; lia]. exists [], []. change (vlen []) with 0. rewrite (proj2 (Z.ltb_lt _ _) Hmax). cbn. by rewrite Z.sub_0_r.
  - destruct (Z.ltb_spec (vlen events) max) as [H|H].
    { exists [], events. cbn. by rewrite Z.sub_0_r. }
    destruct events as [|old events]; [change (max <= 0) in H; lia|]. cbn [total_output length] in *.
    pose proof (output_len_nonneg old). pose proof (total_output_nonneg events).
    unfold saturating_sub. rewrite Z.max_r by lia.
    destruct (IH (bytes - output_len old) events) as (gone & kept & -> & Hk & ->); [lia..|].
    exists (old :: gone), kept. split; [done|]. split; [done|]. cbn. do 2 f_equal. lia.
Qed.

Lemma drop_output_spec max bytes events :
  total_output events <= bytes ->
  exists gone kept, events = gone ++ kept /\ (bytes - total_output gone <= max \/ kept = []) /\
    drop_output max bytes events = (bytes - total_output gone, kept).
Proof.
  revert bytes. induction events as [|old events IH]; intros bytes Hb; cbn [drop_output].
  - exists [], []. cbn. rewrite Z.sub_0_r. split; [done|]. split; [by right|]. by destruct (bytes <=? max).
  - destruct (Z.leb_spec bytes max) as [H|H].
    { exists [], (old :: events). cbn. rewrite Z.sub_0_r. split; [done|]. split; [by left|done]. }
    cbn [total_output] in Hb. pose proof (output_len_nonneg old). pose proof (total_output_nonneg events).
    unfold saturating_sub. rewrite Z.max_r by lia.
    destruct (IH (bytes - output_len old)) as (gone & kept & -> & Hk & ->); [lia|].
    exists (old :: gone), kept. split; [done|]. cbn. replace (bytes - (output_len old + total_output gone)) with
      (bytes - output_len old - total_output gone) by lia. done.
Qed.

(** Pushing terminates and keeps the newest events: a suffix of what was there and the new
    event, whose output is dropped only when the counter is over the limit. *)
Lemma push_event_spec fuel b event :
  0 < cb_max_events b -> (length (cb_events b) <= fuel)%nat -> total_output (cb_events b) <= cb_output_bytes b ->
  cb_output_bytes b + output_len event <= USIZE_MAX ->
  exists gone kept bytes, cb_events b = gone ++ kept /\ vlen kept < cb_max_events b /\
    bytes = cb_output_bytes b + output_len event - total_output gone /\
    (bytes <= cb_max_total_output_bytes b \/ kept = []) /\
    push_event fuel b event = Some {|
      cb_max_events := cb_max_events b; cb_max_total_output_bytes := cb_max_total_output_bytes b; cb_output_bytes := bytes;
      cb_events := kept ++ [if cb_max_total_output_bytes b <? bytes then without_output event else event] |}.
Proof.
  intros Hmax Hf Hc Hov. pose proof (output_len_nonneg event). pose proof (total_output_nonneg (cb_events b)).
  unfold push_event. rewrite Z.mod_small by lia.
  destruct (drop_events_spec fuel (cb_max_events b) (cb_output_bytes b + output_len event) (cb_events b))
    as (g1 & k1 & E1 & Hk1 & ->); [done|done|lia|]. cbn [mbind option_bind].
  rewrite E1, total_output_app in Hc.
  destruct (drop_output_spec (cb_max_total_output_bytes b) (cb_output_bytes b + output_len event - total_output g1) k1)
    as (g2 & k2 & -> & Hk2 & ->); [lia|].
  exists (g1 ++ g2), k2, (cb_output_bytes b + output_len event - total_output (g1 ++ g2)).
  rewrite total_output_app. split; [by rewrite E1, app_assoc|]. split.
  { unfold vlen in *. rewrite length_app in Hk1. lia. }
  split; [done|].
  replace (cb_output_bytes b + output_len event - (total_output g1 + total_output g2))
    with (cb_output_bytes b + output_len event - total_output g1 - total_output g2) by lia. done.
Qed.

Fixpoint push_events (b : CaptureBuffer) (events : list CapturedCommand) : option CaptureBuffer :=
  match events with
  | [] => Some b
  | event :: events' => b ← push_event (length (cb_events b)) b event; push_events b events'
  end.

Lemma push_event_ok b event :
  0 < cb_max_events b -> 0 <= cb_max_total_output_bytes b -> buffer_ok b -> cb_output_bytes b + output_len event <= USIZE_MAX ->
  exists b', push_event (length (cb_events b)) b event = Some b' /\ buffer_ok b' /\
    cb_max_events b' = cb_max_events b /\ cb_max_total_output_bytes b' = cb_max_total_output_bytes b /\
    cb_output_bytes b' <= cb_output_bytes b + output_len event.
Proof.
  intros Hmax Hlim [Hn Hc Hb] Hov.
  destruct (push_event_spec (length (cb_events b)) b event) as (gone & kept & bytes & E & Hk & -> & Hor & ->); [done..|].
  eexists. split; [done|]. cbn. pose proof (total_output_nonneg gone). pose proof (total_output_nonneg kept).
  pose proof (output_len_nonneg event). rewrite E, total_output_app in Hc.
  split; [|split; [done|split; [done|lia]]]. split; cbn [cb_events cb_output_bytes cb_max_events cb_max_total_output_bytes].
  - unfold vlen in *. rewrite length_app. cbn. lia.
  - rewrite total_output_app. cbn. destruct (_ <? _); cbn; lia.
  - rewrite total_output_app. cbn. destruct (Z.ltb_spec (cb_max_total_output_bytes b)
      (cb_output_bytes b + output_len event - total_output gone)) as [H2|H2]; cbn; [|lia].
    destruct Hor as [| ->]; cbn; lia.
Qed.

(** The commands in the buffer are the last ones pushed. *)
Lemma push_event_newest b event b' :
  push_event (length (cb_events b)) b event = Some b' ->
  0 < cb_max_events b -> total_output (cb_events b) <= cb_output_bytes b -> cb_output_bytes b + output_len event <= USIZE_MAX ->
  (cap_command <$> cb_events b') `suffix_of` (cap_command <$> cb_events b) ++ [cap_command event].
Proof.
  intros Hp Hmax Hc Hov.
  destruct (push_event_spec (length (cb_events b)) b event) as (gone & kept & bytes & E & _ & _ & _ & H); [done..|].
  rewrite H in Hp. injection Hp as <-. cbn. rewrite E, !fmap_app, <-app_assoc. exists (cap_command <$> gone).
  do 2 f_equal. by destruct (_ <? _).
Qed.

Lemma push_events_bounded b events :
  0 < cb_max_events b -> 0 <= cb_max_total_output_bytes b -> buffer_ok b -> cb_output_bytes b + total_output events <= USIZE_MAX ->
  exists b', push_events b events = Some b' /\ buffer_ok b' /\ cb_max_events b' = cb_max_events b /\
    cb_max_total_output_bytes b' = cb_max_total_output_bytes b /\
    (cap_command <$> cb_events b') `suffix_of` (cap_command <$> cb_events b) ++ (cap_command <$> events).
Proof.
  revert b. induction events as [|event events IH]; intros b Hmax Hlim Hok Hov; cbn [push_events].
  { exists b. repeat split; [apply Hok..|]. by rewrite app_nil_r. }
  cbn [total_output] in Hov. pose proof (total_output_nonneg events).
  destruct (push_event_ok b event) as (b1 & E & Hok1 & Hm & Hl & Hc); [done|done|done|lia|].
  pose proof (push_event_newest _ _ _ E Hmax (ok_counter _ Hok) ltac:(lia)) as Hs1. rewrite E. cbn [mbind option_bind].
  destruct (IH b1) as (b' & -> & Hok' & Hm' & Hl' & Hs); [by rewrite Hm|by rewrite Hl|done|lia|].
  exists b'. split; [done|]. split; [done|]. split; [congruence|]. split; [congruence|].
  rewrite fmap_cons, cons_middle, app_assoc. etransitivity; [exact Hs|].
  destruct Hs1 as [k ->]. exists k. by rewrite <-!app_assoc.
Qed.

(** A capture buffer with room for an event takes any sequence of commands: every push
    returns, the buffer keeps at most its number of events and of output bytes, and what it
    keeps are the newest commands. *)
Theorem capture_buffer_is_bounded max_events max_bytes events :
  0 < max_events -> 0 <= max_bytes -> total_output events <= USIZE_MAX ->
  exists b, push_events (CaptureBuffer_new max_events max_bytes) events = Some b /\
    vlen (cb_events b) <= max_events /\ total_output (cb_events b) <= max_bytes /\
    (cap_command <$> cb_events b) `suffix_of` (cap_command <$> events).
Proof.
  intros Hmax Hlim Hov.
  destruct (push_events_bounded (CaptureBuffer_new max_events max_bytes) events) as (b & H & [Hn _ Hb] & Hm & Hl & Hs); [done|done| |done|].
  - split; cbn; [change (vlen []) with 0|..]; lia.
  - exists b. rewrite Hm in Hn. rewrite Hl in Hb. done.
Qed.

(** *** Output the counter never forgets *)

(** The counter holds more lost output than the limit allows. *)
Definition stuck (b : CaptureBuffer) : Prop :=
  cb_max_total_output_bytes b < cb_output_bytes b - total_output (cb_events b).

Lemma push_stuck b event :
  0 < cb_max_events b -> total_output (cb_events b) <= cb_output_bytes b -> cb_output_bytes b + output_len event <= USIZE_MAX ->
  cb_max_total_output_bytes b < output_len event \/ stuck b ->
  exists b', push_event (length (cb_events b)) b event = Some b' /\ cb_events b' = [without_output event] /\ stuck b' /\
    0 < cb_max_events b' /\ total_output (cb_events b') <= cb_output_bytes b' /\
    cb_output_bytes b' <= cb_output_bytes b + output_len event.
Proof.
  intros Hmax Hc Hov Hlost. pose proof (output_len_nonneg event).
  destruct (push_event_spec (length (cb_events b)) b event) as (gone & kept & bytes & E & _ & Hbytes & Hor & ->); [done..|].
  pose proof (total_output_nonneg gone). pose proof (total_output_nonneg kept). rewrite E, total_output_app in Hc.
  assert (cb_max_total_output_bytes b < bytes) as Hover.
  { destruct Hlost as [|Hst]; [lia|]. unfold stuck in Hst. rewrite E, total_output_app in Hst. lia. }
  destruct Hor as [| ->]; [lia|]. rewrite (proj2 (Z.ltb_lt _ _) Hover). eexists. split; [done|]. unfold stuck. cbn.
  repeat split; lia.
Qed.

Lemma push_events_stuck b events event :
  0 < cb_max_events b -> total_output (cb_events b) <= cb_output_bytes b -> stuck b ->
  cb_output_bytes b + total_output (events ++ [event]) <= USIZE_MAX ->
  exists b', push_events b (events ++ [event]) = Some b' /\ cb_events b' = [without_output event].
Proof.
  revert b. induction events as [|e events IH]; intros b Hmax Hc Hst Hov; cbn [app push_events];
    cbn [app total_output] in Hov.
  - destruct (push_stuck b event) as (b' & -> & He & _); [done|done|lia|by right|]. by exists b'.
  - pose proof (total_output_nonneg (events ++ [event])).
    destruct (push_stuck b e) as (b' & -> & He & Hst' & Hm & Hc' & Hle); [done|done|lia|by right|].
    cbn [mbind option_bind]. apply IH; [done|done|done|lia].
Qed.

(** Once a command with more output than the limit has been pushed, the buffer is useless:
    after every later push it holds that one event alone, without its output, however small
    the output is.  The bytes of the dropped output stay in the counter. *)
Theorem one_large_output_stops_capture b large events event :
  0 < cb_max_events b -> buffer_ok b -> cb_max_total_output_bytes b < output_len large ->
  cb_output_bytes b + total_output (large :: events ++ [event]) <= USIZE_MAX ->
  exists b', push_events b (large :: events ++ [event]) = Some b' /\ cb_events b' = [without_output event].
Proof.
  intros Hmax Hok Hl Hov. cbn [push_events]. cbn [total_output] in Hov. pose proof (total_output_nonneg (events ++ [event])).
  destruct (push_stuck b large) as (b' & -> & _ & Hst & Hm & Hc & Hle); [done|apply Hok|lia|by left|].
  cbn [mbind option_bind]. apply push_events_stuck; [done|done|done|lia].
Qed.

(** A buffer without room: [push] never returns. *)
Lemma no_room_never_returns fuel max_bytes event : push_event fuel (CaptureBuffer_new 0 max_bytes) event = None.
Proof.
  unfold push_event. cbn [cb_max_events cb_events CaptureBuffer_new cb_output_bytes].
  generalize ((0 + output_len event) mod (USIZE_MAX + 1)) as bytes. intros bytes.
  induction fuel as [|fuel IH]; [done|]. cbn [drop_events]. change (vlen [] <? 0) with false. cbn iota. exact IH.
Qed.

Definition captured (command : string) (output : option string) : CapturedCommand :=
  {| cap_timestamp := "1"; cap_cwd := "/"; cap_command := command; cap_exit_status := 0; cap_combined_output := output |}.

Lemma capture_buffer_is_bounded_witness :
  exists b, push_events (CaptureBuffer_new 2 4) [captured "a" (Some "ok"); captured "b" (Some "ok"); captured "c" (Some "ok")] = Some b /\
    vlen (cb_events b) <= 2 /\ total_output (cb_events b) <= 4 /\ (cap_command <$> cb_events b) `suffix_of` ["a"; "b"; "c"].
Proof.
  apply (capture_buffer_is_bounded 2 4 [captured "a" (Some "ok"); captured "b" (Some "ok"); captured "c" (Some "ok")]);
    [done|done|]. vm_compute. discriminate.
Defined.

Lemma one_large_output_stops_capture_witness :
  exists b', push_events (CaptureBuffer_new 8 4) [captured "a" (Some "too long"); captured "b" (Some "ok"); captured "c" (Some "ok")] = Some b' /\
    cb_events b' = [captured "c" None].
Proof.
  apply (one_large_output_stops_capture (CaptureBuffer_new 8 4) (captured "a" (Some "too long")) [captured "b" (Some "ok")] (captured "c" (Some "ok")));
    [done| |done|vm_compute; discriminate].
  split; vm_compute; discriminate.
Defined.

(** * The shell of the terminal window (spawn_shell of crates/sentia-ui/src/bin/sentia-terminal.rs)

    The window starts a login shell with the inherited variables and those that tell the
    shell hook what assistance to give. *)

Record TerminalCli := {
  tc_assist_mode : AssistanceMode;
  tc_conventional : bool;
  tc_capture : bool;
  tc_capture_max_entries : usize;
  tc_cwd : option string;
  tc_shell : string;
  tc_command : option string;
  tc_quit_after_ms : option u64;
}.

(** The defaults of the flags. *)
Definition TerminalCli_default : TerminalCli := {|
  tc_assist_mode := AmCommandNotFound; tc_conventional := false; tc_capture := false; tc_capture_max_entries := 128;
  tc_cwd := None; tc_shell := "/bin/bash"; tc_command := None; tc_quit_after_ms := None |}.

(** What [spawn_async] is given. *)
Record Spawn := { sp_cwd : option string; sp_argv : list string; sp_envv : list string }.

(** [std::env::vars] panics on a variable that is not text. *)
Definition env_vars : ueff (list (string * string)) :=
  vars ← perform UVars;
  lift (if forallb (fun '(key, value) => valid_utf8 key && valid_utf8 value) vars then Ok vars else Panic).

Definition shell_variables (cli : TerminalCli) (inherited : list (string * string)) (router health : string) : list (string * string) :=
  let effective_mode := if tc_conventional cli then AmConventional else tc_assist_mode cli in
  inherited ++
  [("SENTIA_ROUTER_SOCKET", display router); ("SENTIA_HEALTH_SOCKET", display health);
   ("SENTIA_TERMINAL_ASSIST_MODE", env_value effective_mode)] ++
  (if negb (tc_conventional cli) then [("_SENTIA_TERMINAL", "1")] else []) ++
  (if tc_capture cli && negb (tc_conventional cli) then [("SENTIA_TERMINAL_CAPTURE", "1")] else []) ++
  [("SENTIA_CAPTURE_MAX", show_uint (tc_capture_max_entries cli));
   ("SENTIA_TERMINAL_HOOK", "/usr/share/sentia/sentia-terminal-hook.bash")].

Definition spawn_shell (cli : TerminalCli) : ueff Spawn :=
  inherited ← env_vars;
  router ← router_socket_path;
  health ← health_socket_path;
  mret {| sp_cwd := display <$> tc_cwd cli;
          sp_argv := [display (tc_shell cli); "--login"] ++ match tc_command cli with Some command => ["-lc"; command] | None => [] end;
          sp_envv := (fun '(key, value) => key +:+ "=" +:+ value) <$> shell_variables cli inherited router health |}.

(** The variable that turns the shell hook on. *)
Definition hook_variable : string * string := ("_SENTIA_TERMINAL", "1").
Definition capture_variable : string * string := ("SENTIA_TERMINAL_CAPTURE", "1").

Lemma shell_hooks cli inherited router health :
  (hook_variable ∈ shell_variables cli inherited router health <-> hook_variable ∈ inherited \/ tc_conventional cli = false) /\
  (capture_variable ∈ shell_variables cli inherited router health <->
     capture_variable ∈ inherited \/ tc_conventional cli = false /\ tc_capture cli = true).
Proof.
  unfold shell_variables, hook_variable, capture_variable.
  destruct (tc_conventional cli), (tc_capture cli); cbn [negb andb app]; rewrite ?elem_of_app, ?elem_of_cons, ?elem_of_nil; intuition congruence.
Qed.

(** A conventional terminal opened from an assisted one still has the assistant's hooks. *)
Example conventional_terminal_inherits_hooks router health :
  let cli := {| tc_assist_mode := AmCommandNotFound; tc_conventional := true; tc_capture := false; tc_capture_max_entries := 128;
                tc_cwd := None; tc_shell := "/bin/bash"; tc_command := None; tc_quit_after_ms := None |} in
  hook_variable ∈ shell_variables cli [hook_variable; capture_variable] router health /\
  capture_variable ∈ shell_variables cli [hook_variable; capture_variable] router health.
Proof. split; apply shell_hooks; left; set_solver. Qed.
