(* ===== verification/UiPrivileged.v ===== *)
(** * The client side of privileged actions (crates/sentia-ui/src/privileged.rs)

    The desktop keeps a ticket for every plan it shows: the exact text of the preview, the
    plan it describes and the bus connection it came over.  The ticket is consumed by the
    one [apply] call it allows.  The types are the desktop's copies of the broker's;
    [serde_json] is an argument of the definitions that call it. *)

From Stdlib Require Import Ascii String.
From S2P Require Import Prelude RustStr RustText Contract Privileged PlanStore.

Definition SYSTEM1_BUS_NAME : string := "org.sentia.System1".
Definition SYSTEM1_OBJECT_PATH : string := "/org/sentia/System1".
Definition SYSTEM1_INTERFACE : string := "org.sentia.System1".
Definition SYSTEM1_METHOD_PREPARE : string := "Prepare".
Definition SYSTEM1_METHOD_APPLY : string := "Apply".

Inductive UiServiceAction := UiStart | UiStop | UiRestart | UiEnable.

Inductive PrivilegedOperation :=
| UiService (action : UiServiceAction) (unit : string)
| UiProcessKill (pid : u32)
| UiAptInstall (packages : list string)
| UiAptRemove (packages : list string)
| UiAptUpdate
| UiAptUpgrade.

Record UiPrepareRequest := { urq_version : u32; urq_operation : PrivilegedOperation }.

Record PreparedCaller := {
  uc_unique_name : string;
  uc_uid : u32;
  uc_pid : u32;
  uc_process_start : u64;
  uc_session : string;
}.

Record PreparedPlan := {
  up_version : u32;
  up_id : string;
  up_caller : PreparedCaller;
  up_action_id : string;
  up_operation : PrivilegedOperation;
  up_argument_digest : string;
  up_state : Value;
  up_issued_at : u64;
  up_expires_at : u64;
}.

Record PrepareResponse := { urs_plan : PreparedPlan; urs_digest : string }.

Record ApplyCall := { ac_id : string; ac_digest : string }.

Record PreparedPlanTicket := {
  tk_dbus_unique_name : string;
  tk_consumed : bool;
  tk_exact_prepare_json : string;
  tk_response : PrepareResponse;
}.

Inductive ApplyGuardError :=
| MissingConnection
| AlreadyConsumed
| ConnectionChanged (expected got : string)
| PlanIdMismatch (expected got : string)
| DigestMismatch.

Definition ApplyGuardError_fmt (self : ApplyGuardError) : string :=
  match self with
  | MissingConnection => "missing D-Bus unique connection name"
  | AlreadyConsumed => "prepared plan already consumed; prepare again before apply"
  | ConnectionChanged expected got =>
      "prepare/apply must use same D-Bus connection (expected " +:+ expected +:+ ", got " +:+ got +:+ ")"
  | PlanIdMismatch expected got => "plan ID mismatch (expected " +:+ expected +:+ ", got " +:+ got +:+ ")"
  | DigestMismatch => "plan digest mismatch; previewed plan no longer matches"
  end.

Section ticket.
(** [serde_json::from_str] and [to_string_pretty] on a response. *)
Context (from_str : string -> result string PrepareResponse) (pretty : PrepareResponse -> result string string).

Definition from_prepare_json (dbus_unique_name exact_prepare_json : string) : result string PreparedPlanTicket :=
  response ← from_str exact_prepare_json;
  Ok {| tk_dbus_unique_name := dbus_unique_name; tk_consumed := false;
        tk_exact_prepare_json := exact_prepare_json; tk_response := response |}.

Definition PreparedPlanTicket_new (dbus_unique_name : string) (response : PrepareResponse) : result string PreparedPlanTicket :=
  match pretty response with
  | Ok exact_prepare_json =>
      Ok {| tk_dbus_unique_name := dbus_unique_name; tk_consumed := false;
            tk_exact_prepare_json := exact_prepare_json; tk_response := response |}
  | _ => Panic
  end.
End ticket.

Definition exact_preview_json (self : PreparedPlanTicket) : string := tk_exact_prepare_json self.

Definition apply_call (self : PreparedPlanTicket) : ApplyCall :=
  {| ac_id := up_id (urs_plan (tk_response self)); ac_digest := urs_digest (tk_response self) |}.

Definition set_consumed (self : PreparedPlanTicket) : PreparedPlanTicket :=
  {| tk_dbus_unique_name := tk_dbus_unique_name self; tk_consumed := true;
     tk_exact_prepare_json := tk_exact_prepare_json self; tk_response := tk_response self |}.

Definition consume_for_apply (self : PreparedPlanTicket) (dbus_unique_name id digest : string)
  : PreparedPlanTicket * result ApplyGuardError unit :=
  if is_empty (trim dbus_unique_name) then (self, Err MissingConnection)
  else if tk_consumed self then (self, Err AlreadyConsumed)
  else if negb (String.eqb (tk_dbus_unique_name self) dbus_unique_name)
  then (self, Err (ConnectionChanged (tk_dbus_unique_name self) dbus_unique_name))
  else if negb (String.eqb (up_id (urs_plan (tk_response self))) id)
  then (self, Err (PlanIdMismatch (up_id (urs_plan (tk_response self))) id))
  else if negb (String.eqb (urs_digest (tk_response self)) digest) then (self, Err DigestMismatch)
  else (set_consumed self, Ok tt).

(** ** One apply call for one preview *)

(** An attempt to apply: the connection, the id and the digest. *)
Abbreviation Attempt := (string * string * string)%type.

Fixpoint run_attempts (self : PreparedPlanTicket) (attempts : list Attempt) : list (result ApplyGuardError unit) :=
  match attempts with
  | [] => []
  | (name, id, digest) :: attempts' =>
      let '(self, r) := consume_for_apply self name id digest in r :: run_attempts self attempts'
  end.

(** The attempt the ticket was issued for. *)
Definition intended (self : PreparedPlanTicket) : Attempt :=
  (tk_dbus_unique_name self, ac_id (apply_call self), ac_digest (apply_call self)).

Lemma consume_for_apply_spec self name id digest :
  let r := consume_for_apply self name id digest in
  if decide (tk_consumed self = false /\ is_empty (trim name) = false /\ (name, id, digest) = intended self)
  then r = (set_consumed self, Ok tt) else r.1 = self /\ r.2 <> Ok tt.
Proof.
  unfold consume_for_apply, intended, apply_call. cbn [ac_id ac_digest]. case_decide as H.
  - destruct H as (-> & -> & [= -> -> ->]). by rewrite !String.eqb_refl.
  - destruct (is_empty (trim name)); [done|]. destruct (tk_consumed self); [done|].
    destruct (String.eqb_spec (tk_dbus_unique_name self) name); cbn [negb]; [|done].
    destruct (String.eqb_spec (up_id (urs_plan (tk_response self))) id); cbn [negb]; [|done].
    destruct (String.eqb_spec (urs_digest (tk_response self)) digest); cbn [negb]; [|done]. subst. by destruct H.
Qed.

Lemma consumed_rejects self attempts i : tk_consumed self = true -> run_attempts self attempts !! i <> Some (Ok tt).
Proof.
  intros Hc. revert i. induction attempts as [|[[name id] digest] attempts IH]; intros i; [done|]. cbn [run_attempts].
  pose proof (consume_for_apply_spec self name id digest) as H. rewrite decide_False in H by (rewrite Hc; naive_solver).
  destruct (consume_for_apply self name id digest) as [self' r]. cbn in H. destruct H as [-> Hr].
  destruct i; cbn; [congruence|apply IH].
Qed.

(** A fresh ticket of a connection lets exactly one attempt through, whatever is tried:
    the first that names the connection, the plan and the digest of the preview. *)
Theorem ticket_allows_one_apply self attempts i :
  tk_consumed self = false -> is_empty (trim (tk_dbus_unique_name self)) = false ->
  run_attempts self attempts !! i = Some (Ok tt) <->
  attempts !! i = Some (intended self) /\ forall j, (j < i)%nat -> attempts !! j <> Some (intended self).
Proof.
  intros Hf Hn. revert i. induction attempts as [|[[name id] digest] attempts IH]; intros i; [cbn; naive_solver|].
  cbn [run_attempts]. pose proof (consume_for_apply_spec self name id digest) as H.
  destruct (decide ((name, id, digest) = intended self)) as [Hi|Hi].
  - rewrite decide_True in H by (split; [done|]; split; [by injection Hi as -> _ _|done]). cbn in H. rewrite H.
    destruct i as [|i]; cbn.
    + rewrite Hi. split; [|done]. intros _. split; [done|lia].
    + split; [intros Hs; exfalso; revert Hs; by apply consumed_rejects|]. intros [_ Hj]. specialize (Hj 0%nat ltac:(lia)). by rewrite Hi in Hj.
  - rewrite decide_False in H by naive_solver. destruct (consume_for_apply self name id digest) as [self' r]. cbn in H.
    destruct H as [-> Hr]. destruct i as [|i]; cbn.
    + split; [congruence|]. intros [Heq _]. congruence.
    + rewrite IH. split; intros [Ha Hj]; (split; [done|]).
      * intros [|j] Hlt; cbn; [congruence|apply Hj; lia].
      * intros j Hlt. apply (Hj (S j)). lia.
Qed.

(** ** From the preview to the plan that is carried out *)

(** The broker's plan in the desktop's types: the same fields under the same names. *)
Definition ui_action (action : ServiceAction) : UiServiceAction :=
  match action with Start => UiStart | Stop => UiStop | Restart => UiRestart | Enable => UiEnable end.
Definition ui_operation (op : Operation) : PrivilegedOperation :=
  match op with
  | OpService action unit => UiService (ui_action action) unit
  | OpProcessKill pid => UiProcessKill pid
  | OpAptInstall packages => UiAptInstall packages
  | OpAptRemove packages => UiAptRemove packages
  | OpAptUpdate => UiAptUpdate
  | OpAptUpgrade => UiAptUpgrade
  end.
Definition ui_caller (c : Caller) : PreparedCaller :=
  {| uc_unique_name := unique_name c; uc_uid := caller_uid c; uc_pid := caller_pid c;
     uc_process_start := process_start c; uc_session := session c |}.
Definition ui_response (p : Prepared) : PrepareResponse :=
  let plan := prepared_plan p in
  {| urs_plan := {| up_version := plan_version plan; up_id := plan_id plan; up_caller := ui_caller (plan_caller plan);
                    up_action_id := plan_action_id plan; up_operation := ui_operation (plan_operation plan);
                    up_argument_digest := argument_digest plan; up_state := plan_state plan;
                    up_issued_at := issued_at plan; up_expires_at := expires_at plan |};
     urs_digest := prepared_digest p |}.

Lemma len_hex_encode nonce : len (hex_encode nonce) = 2 * vlen nonce.
Proof.
  unfold hex_encode, vlen. induction nonce as [|b nonce IH]; [done|]. cbn [map sconcat length]. rewrite len_app, IH.
  change (len (hex_byte b)) with 2. lia.
Qed.

Lemma consume_prepared `{DigestsOk} plans caller op state now nonce p plans' later :
  prepare plans caller op state now (Some nonce) = (plans', Ok p) -> vlen nonce = 32 ->
  now <= later < now + PLAN_LIFETIME_SECONDS ->
  consume plans' (plan_id (prepared_plan p)) (prepared_digest p) caller later
    = (delete (plan_id (prepared_plan p)) plans', Ok (prepared_plan p)).
Proof.
  intros Hp Hn Ht. unfold prepare in Hp. destruct (Operation_validate op) as [[]| |] eqn:Hop; [|done..].
  destruct (_ || _); [done|]. destruct (build_prepared caller op state now (Some nonce)) as [q| |] eqn:Hq; [|done..].
  injection Hp as <- <-.
  destruct (build_prepared_wf _ _ _ _ _ _ Hop Hq) as (Hwf & Hc & _ & _ & Hi & nonce' & [= <-] & Hid).
  unfold consume. rewrite Hid at 1. rewrite len_hex_encode, Hn.
  assert (len (prepared_digest q) = 64) as ->.
  { pose proof (wf_digest _ _ Hwf) as Hd. unfold digest_plan, digest_of in Hd. apply bind_Ok in Hd as (bytes & _ & [= <-]).
    apply sha256_hex_len. }
  cbn [negb orb Z.eqb Z.mul Pos.eqb Pos.mul]. rewrite lookup_insert_eq, Hc, bool_decide_true by done. cbn [negb].
  rewrite (wf_lifetime _ _ Hwf), Hi, String.eqb_refl.
  rewrite (proj2 (Z.ltb_ge later now)), (proj2 (Z.leb_gt (now + PLAN_LIFETIME_SECONDS) later)) by lia. done.
Qed.

(** What an attempt at a ticket ends with, for the connection, plan and digest the ticket was
    issued for ([right]) and whether an earlier attempt went through ([used]). *)
Inductive verdict (right : Attempt) (used : Prop) : Attempt -> result ApplyGuardError unit -> Prop :=
| VerdictGranted : ~ used -> is_empty (trim right.1.1) = false -> verdict right used right (Ok tt)
| VerdictNoConnection name id digest : is_empty (trim name) = true ->
    verdict right used (name, id, digest) (Err MissingConnection)
| VerdictUsed name id digest : is_empty (trim name) = false -> used ->
    verdict right used (name, id, digest) (Err AlreadyConsumed)
| VerdictConnection name id digest : is_empty (trim name) = false -> ~ used -> name <> right.1.1 ->
    verdict right used (name, id, digest) (Err (ConnectionChanged right.1.1 name))
| VerdictPlan id digest : is_empty (trim right.1.1) = false -> ~ used -> id <> right.1.2 ->
    verdict right used (right.1.1, id, digest) (Err (PlanIdMismatch right.1.2 id))
| VerdictDigest digest : is_empty (trim right.1.1) = false -> ~ used -> digest <> right.2 ->
    verdict right used (right.1, digest) (Err DigestMismatch).

Lemma verdict_iff right (used used' : Prop) a r : (used <-> used') -> verdict right used a r -> verdict right used' a r.
Proof. intros Hu []; constructor; tauto. Qed.

Lemma attempt_verdict self (used : Prop) name id digest : (tk_consumed self = true <-> used) ->
  verdict (intended self) used (name, id, digest) (consume_for_apply self name id digest).2.
Proof.
  intros Hu. unfold consume_for_apply. destruct (is_empty (trim name)) eqn:En; [by apply VerdictNoConnection|].
  destruct (tk_consumed self) eqn:Ec; [apply VerdictUsed; tauto|]. assert (~ used) as Hn by (intros H%Hu; done).
  destruct (String.eqb_spec (tk_dbus_unique_name self) name) as [<-|Hname]; cbn [negb]; [|by apply (VerdictConnection (intended self))].
  destruct (String.eqb_spec (up_id (urs_plan (tk_response self))) id) as [<-|Hid]; cbn [negb]; [|by apply (VerdictPlan (intended self))].
  destruct (String.eqb_spec (urs_digest (tk_response self)) digest) as [<-|Hd]; cbn [negb]; [|by apply (VerdictDigest (intended self))].
  by apply (VerdictGranted (intended self)).
Qed.

Lemma attempts_verdicts self attempts i a :
  is_empty (trim (tk_dbus_unique_name self)) = false -> attempts !! i = Some a ->
  exists r, run_attempts self attempts !! i = Some r /\
    verdict (intended self) (tk_consumed self = true \/ intended self ∈ take i attempts) a r.
Proof.
  intros Hname. revert self i Hname. induction attempts as [|[[name id] digest] attempts IH]; intros self [|i] Hname Ha; [done|done| |].
  { injection Ha as <-. cbn [run_attempts]. destruct (consume_for_apply self name id digest) as [self' r] eqn:Er. exists r. split; [done|].
    replace r with (consume_for_apply self name id digest).2 by (by rewrite Er). apply attempt_verdict. cbn. rewrite elem_of_nil. tauto. }
  cbn [run_attempts]. pose proof (consume_for_apply_spec self name id digest) as H.
  destruct (consume_for_apply self name id digest) as [self' r'] eqn:Er. cbn in Ha. cbn [lookup list_lookup take].
  assert (intended self' = intended self /\ tk_dbus_unique_name self' = tk_dbus_unique_name self) as [Hi Hd].
  { case_decide; [by injection H as -> _|by destruct H as [H _]; cbn in H; subst]. }
  destruct (IH self' i ltac:(by rewrite Hd) Ha) as (r & Hr & Hv). exists r. split; [done|]. rewrite Hi in Hv.
  assert ((tk_consumed self' = true \/ intended self ∈ take i attempts) <->
          (tk_consumed self = true \/ intended self ∈ (name, id, digest) :: take i attempts)) as Hequiv.
  { rewrite elem_of_cons. case_decide as Hc.
    - destruct Hc as (_ & _ & ->). injection H as -> _. cbn. tauto.
    - destruct H as [H _]. cbn in H. subst self'. destruct (tk_consumed self); [tauto|]. split; [tauto|]. intros [?|[He|?]]; [done| |by right].
      destruct Hc. split; [done|]. split; [|done]. injection He as <- _ _. done. }
  by eapply verdict_iff.
Qed.

(** C19 The plan the user saw is the plan that is consumed.  The ticket made from the text of
    a prepared plan shows that text and describes that plan.  Of any attempts made with it,
    on whatever connection, with whatever identifier and digest, the first that names
    the connection of the plan, its identifier and its digest goes through and no other: a
    blank connection, an attempt after that one, another connection, another identifier
    and another digest each give their own error.  And the broker answers the apply call that
    goes through, from the same caller within the lifetime, with exactly that plan. *)
Theorem previewed_plan_is_applied `{DigestsOk} (from_str : string -> result string PrepareResponse)
    plans caller op state now nonce p plans' json later :
  prepare plans caller op state now (Some nonce) = (plans', Ok p) -> vlen nonce = 32 ->
  from_str json = Ok (ui_response p) -> is_empty (trim (unique_name caller)) = false ->
  now <= later < now + PLAN_LIFETIME_SECONDS ->
  exists ticket, from_prepare_json from_str (unique_name caller) json = Ok ticket /\
    exact_preview_json ticket = json /\ up_operation (urs_plan (tk_response ticket)) = ui_operation op /\
    let call := apply_call ticket in
    let right := (unique_name caller, plan_id (prepared_plan p), prepared_digest p) in
    (forall attempts i a, attempts !! i = Some a ->
       exists r, run_attempts ticket attempts !! i = Some r /\ verdict right (right ∈ take i attempts) a r) /\
    run_attempts ticket [(unique_name caller, ac_id call, ac_digest call)] = [Ok tt] /\
    exists plan, (consume plans' (ac_id call) (ac_digest call) caller later).2 = Ok plan /\ plan = prepared_plan p /\
      plan_operation plan = op.
Proof.
  intros Hp Hn Hj Hname Ht. unfold from_prepare_json. rewrite Hj. cbn [mbind result_bind].
  assert (plan_operation (prepared_plan p) = op) as Hop.
  { unfold prepare in Hp. destruct (Operation_validate op) as [[]| |] eqn:Hv; [|done..]. destruct (_ || _); [done|].
    destruct (build_prepared caller op state now (Some nonce)) as [q| |] eqn:Hq; [|done..]. injection Hp as _ <-.
    by destruct (build_prepared_wf _ _ _ _ _ _ Hv Hq) as (_ & _ & ? & _). }
  eexists. split; [done|]. split; [done|]. cbn zeta. cbn -[run_attempts trim]. rewrite Hop. split; [done|]. split; [|split].
  - intros attempts i a Ha. match goal with |- context [run_attempts ?ticket attempts] => destruct (attempts_verdicts ticket attempts i a Hname Ha) as (r & Hr & Hv) end. exists r. split; [exact Hr|].
    eapply verdict_iff; [|exact Hv]. cbn. naive_solver.
  - cbn [run_attempts]. unfold consume_for_apply. cbn -[trim]. by rewrite Hname, !String.eqb_refl.
  - rewrite (consume_prepared _ _ _ _ _ _ _ _ _ Hp Hn Ht). by eexists.
Qed.

Definition demo_response : PrepareResponse := {|
  urs_plan := {| up_version := 1; up_id := "abc123";
    up_caller := {| uc_unique_name := ":1.42"; uc_uid := 1000; uc_pid := 4242; uc_process_start := 98765;
                    uc_session := "/org/freedesktop/login1/session/_31" |};
    up_action_id := "org.sentia.system.service-restart"; up_operation := UiService UiRestart "ssh.service";
    up_argument_digest := "arg-digest"; up_state := VNull; up_issued_at := 1700000000; up_expires_at := 1700000120 |};
  urs_digest := "outer-digest" |}.
Definition demo_ticket : PreparedPlanTicket := {|
  tk_dbus_unique_name := ":1.42"; tk_consumed := false; tk_exact_prepare_json := "{}"; tk_response := demo_response |}.

Lemma ticket_allows_one_apply_witness :
  run_attempts demo_ticket [(":1.43", "abc123", "outer-digest"); (":1.42", "abc123", "outer-digest"); (":1.42", "abc123", "outer-digest")]
    !! 1%nat = Some (Ok tt).
Proof.
  apply (ticket_allows_one_apply demo_ticket); [done|done|]. split; [done|]. intros [|[|j]] Hj; [by intros [=]|lia|lia].
Defined.

(** The first plan of [PlanStore]'s example. *)
Definition demo_issue : gmap string Prepared * result string Prepared :=
  prepare (D := demo_digests) ∅ demo_caller (OpService Restart "ssh.service") VNull 1000 (Some demo_nonce).

Lemma demo_issued : exists p, demo_issue = (demo_store, Ok p).
Proof.
  assert (exists p, demo_issue.2 = Ok p) as [p Hp] by (eexists; vm_compute; reflexivity). exists p.
  change demo_store with demo_issue.1. rewrite <-Hp. apply surjective_pairing.
Qed.

Lemma previewed_plan_is_applied_witness :
  exists ticket p, from_prepare_json (fun _ => Ok (ui_response p)) ":1.42" "{}" = Ok ticket /\
    (consume demo_store (ac_id (apply_call ticket)) (ac_digest (apply_call ticket)) demo_caller 1119).2 = Ok (prepared_plan p).
Proof.
  destruct demo_issued as [p Hp].
  assert (1000 <= 1119 < 1000 + PLAN_LIFETIME_SECONDS) as Hlive by (unfold PLAN_LIFETIME_SECONDS; lia).
  destruct (previewed_plan_is_applied (H0 := demo_digests_ok) (fun _ => Ok (ui_response p)) ∅ demo_caller
    (OpService Restart "ssh.service") VNull 1000 demo_nonce p demo_store "{}" 1119 Hp eq_refl eq_refl eq_refl Hlive)
    as (ticket & Ht & _ & _ & _ & _ & plan & Hc & -> & _).
  exists ticket, p. split; [exact Ht|exact Hc].
Defined.
