(* ===== verification/UiMonitor.v ===== *)
(** * The health window (crates/sentia-ui/src/monitor.rs, bin/sentia-monitor.rs)

    The window asks the health daemon for a snapshot and samples procfs itself when that
    fails.  [from_str] is [serde_json::from_str] for the window's own snapshot type. *)

From Stdlib Require Import Ascii String.
From S2P Require Import Prelude RustStr RustText Contract Effects RustFloat UiTransport.

Inductive CapabilityState := CsAvailable | CsUnsupported | CsUnavailable.

Record CapabilityValue (T : Type) := {
  cv_state : CapabilityState;
  cv_value : option T;
  cv_note : option string;
}.
Arguments cv_state {T} _.
Arguments cv_value {T} _.
Arguments cv_note {T} _.

Definition available {T} (value : T) : CapabilityValue T :=
  {| cv_state := CsAvailable; cv_value := Some value; cv_note := None |}.
Definition unsupported {T} (note : string) : CapabilityValue T :=
  {| cv_state := CsUnsupported; cv_value := None; cv_note := Some note |}.
Definition unavailable {T} (note : string) : CapabilityValue T :=
  {| cv_state := CsUnavailable; cv_value := None; cv_note := Some note |}.

Record CpuLoad := { cl_one : f32; cl_five : f32; cl_fifteen : f32 }.
Record MemoryMetrics := { mm_total_kib : u64; mm_available_kib : u64 }.
Record SwapMetrics := { sm_total_kib : u64; sm_free_kib : u64 }.
Record CapacityMetrics := { cm_total_bytes : u64; cm_used_bytes : u64; cm_used_percent : f32 }.
Record NetworkMetrics := { nm_rx_bytes : u64; nm_tx_bytes : u64 }.

(** [HealthSnapshot] of the window. *)
Record UiSnapshot := {
  us_source : string;
  us_collected_at : string;
  us_cpu_load : CapabilityValue CpuLoad;
  us_memory : CapabilityValue MemoryMetrics;
  us_swap : CapabilityValue SwapMetrics;
  us_root_capacity : CapabilityValue CapacityMetrics;
  us_disk_health : CapabilityValue string;
  us_network : CapabilityValue NetworkMetrics;
  us_temperature_celsius : CapabilityValue f32;
}.

Definition set_source (source : string) (s : UiSnapshot) : UiSnapshot :=
  {| us_source := source; us_collected_at := us_collected_at s; us_cpu_load := us_cpu_load s;
     us_memory := us_memory s; us_swap := us_swap s; us_root_capacity := us_root_capacity s;
     us_disk_health := us_disk_health s; us_network := us_network s;
     us_temperature_celsius := us_temperature_celsius s |}.

(** ** The local sample *)

Definition now_timestamp : ueff string := now ← perform UUnixSecs; mret ("unix:" +:+ show_uint now).

Definition parse_loadavg (raw : string) : CapabilityValue CpuLoad :=
  let parts := split_whitespace raw in
  let part (i : nat) : option f32 := word ← parts !! i; parse_f32 word in
  match part 0%nat, part 1%nat, part 2%nat with
  | Some one, Some five, Some fifteen => available {| cl_one := one; cl_five := five; cl_fifteen := fifteen |}
  | _, _, _ => unavailable "load average parse failed"
  end.

Definition read_loadavg : ueff (CapabilityValue CpuLoad) :=
  raw ← perform (UReadToString "/proc/loadavg");
  mret match raw with
       | inr raw => parse_loadavg raw
       | inl _ => unavailable "/proc/loadavg unavailable"
       end.

(** The four fields of meminfo; a later line of the same name replaces the value. *)
Record MemFields := {
  mf_mem_total : option u64; mf_mem_available : option u64; mf_swap_total : option u64; mf_swap_free : option u64;
}.

Definition mem_line (line : string) (f : MemFields) : MemFields :=
  let parts := split_whitespace line in
  let value := word ← parts !! 1%nat; ok (parse_u64 word) in
  match default EmptyString (head parts) with
  | "MemTotal:" =>
      {| mf_mem_total := value; mf_mem_available := mf_mem_available f; mf_swap_total := mf_swap_total f; mf_swap_free := mf_swap_free f |}
  | "MemAvailable:" =>
      {| mf_mem_total := mf_mem_total f; mf_mem_available := value; mf_swap_total := mf_swap_total f; mf_swap_free := mf_swap_free f |}
  | "SwapTotal:" =>
      {| mf_mem_total := mf_mem_total f; mf_mem_available := mf_mem_available f; mf_swap_total := value; mf_swap_free := mf_swap_free f |}
  | "SwapFree:" =>
      {| mf_mem_total := mf_mem_total f; mf_mem_available := mf_mem_available f; mf_swap_total := mf_swap_total f; mf_swap_free := value |}
  | _ => f
  end.

Definition parse_meminfo (raw : string) : CapabilityValue MemoryMetrics * CapabilityValue SwapMetrics :=
  let f := fold_left (fun f line => mem_line line f) (lines raw)
             {| mf_mem_total := None; mf_mem_available := None; mf_swap_total := None; mf_swap_free := None |} in
  (match mf_mem_total f, mf_mem_available f with
   | Some total, Some free => available {| mm_total_kib := total; mm_available_kib := free |}
   | _, _ => unavailable "memory fields missing"
   end,
   match mf_swap_total f, mf_swap_free f with
   | Some total, Some free => available {| sm_total_kib := total; sm_free_kib := free |}
   | _, _ => unavailable "swap fields missing"
   end).

Definition read_mem_and_swap : ueff (CapabilityValue MemoryMetrics * CapabilityValue SwapMetrics) :=
  raw ← perform (UReadToString "/proc/meminfo");
  mret match raw with
       | inr raw => parse_meminfo raw
       | inl _ => (unavailable "/proc/meminfo unavailable", unavailable "/proc/meminfo unavailable")
       end.

Definition saturating_mul (a b : u64) : u64 := Z.min U64_MAX (a * b).

Definition capacity_of (stat : Statvfs) : CapacityMetrics :=
  let total_bytes := saturating_mul (f_blocks stat) (f_frsize stat) in
  let available_bytes := saturating_mul (f_bavail stat) (f_frsize stat) in
  let used_bytes := saturating_sub total_bytes available_bytes in
  {| cm_total_bytes := total_bytes; cm_used_bytes := used_bytes;
     cm_used_percent := if total_bytes =? 0 then of_Z_32 0
                        else fmul_32 (fdiv_32 (of_Z_32 used_bytes) (of_Z_32 total_bytes)) (of_Z_32 100) |}.

Definition read_root_capacity : ueff (CapabilityValue CapacityMetrics) :=
  stat ← perform (UStatvfs "/");
  mret match stat with
       | Some stat => available (capacity_of stat)
       | None => unavailable "statvfs failed"
       end.

(** One interface line on the totals. *)
Definition net_line (line : string) (totals : u64 * u64) : u64 * u64 :=
  match split_once ":" line with
  | None => totals
  | Some (iface, stats) =>
      if String.eqb (trim iface) "lo" then totals
      else
        let numbers := omap (fun field => ok (parse_u64 field)) (split_whitespace stats) in
        match numbers !! 0%nat, numbers !! 8%nat with
        | Some rx, Some tx => (saturating_add U64_MAX totals.1 rx, saturating_add U64_MAX totals.2 tx)
        | _, _ => totals
        end
  end.

Definition parse_net_dev (raw : string) : NetworkMetrics :=
  let '(rx, tx) := fold_left (fun totals line => net_line line totals) (drop 2 (lines raw)) (0, 0) in
  {| nm_rx_bytes := rx; nm_tx_bytes := tx |}.

Definition read_network_totals : ueff (CapabilityValue NetworkMetrics) :=
  raw ← perform (UReadToString "/proc/net/dev");
  mret match raw with
       | inr raw => available (parse_net_dev raw)
       | inl _ => unavailable "/proc/net/dev unavailable"
       end.

(** The first thermal zone with a readable number. *)
Fixpoint first_zone (entries : list (uio string)) : ueff (CapabilityValue f32) :=
  match entries with
  | [] => mret (unsupported "no readable thermal zones")
  | inr name :: entries' =>
      if valid_utf8 name && starts_with "thermal_zone" name then
        raw ← perform (UReadToString (path_join (path_join "/sys/class/thermal" name) "temp"));
        match (match raw with inr raw => parse_f32 (trim raw) | inl _ => None end) with
        | Some millidegrees => mret (available (fdiv_32 millidegrees (of_Z_32 1000)))
        | None => first_zone entries'
        end
      else first_zone entries'
  | inl _ :: entries' => first_zone entries'
  end.

Definition read_temperature : ueff (CapabilityValue f32) :=
  entries ← perform (UReadDir "/sys/class/thermal");
  match entries with
  | inr entries => first_zone entries
  | inl _ => mret (unsupported "thermal zone interface unavailable")
  end.

Definition from_local_system : ueff UiSnapshot :=
  '(memory, swap) ← read_mem_and_swap;
  collected_at ← now_timestamp;
  cpu_load ← read_loadavg;
  root_capacity ← read_root_capacity;
  network ← read_network_totals;
  temperature ← read_temperature;
  mret {| us_source := "local-procfs"; us_collected_at := collected_at; us_cpu_load := cpu_load;
          us_memory := memory; us_swap := swap; us_root_capacity := root_capacity;
          us_disk_health := unsupported "SMART/NVMe health needs sentia-health privileged probe";
          us_network := network; us_temperature_celsius := temperature |}.

(** ** The daemon's sample *)

Definition SNAPSHOT_REQUEST : string :=
  "{" +:+ String QUOTE ("request" +:+ String QUOTE (":" +:+ String QUOTE ("snapshot" +:+ String QUOTE ("}" +:+ String LF EmptyString)))).

Section snapshot.
Context (from_str : string -> result string UiSnapshot).

Definition from_health_socket (path : string) : ueff UiSnapshot :=
  utry_as (fun error => "failed to connect " +:+ display path +:+ ": " +:+ error) (UConnect path);;
  utry_as (fun error => "failed to set read timeout: " +:+ error) (USetReadTimeout 2000);;
  utry_as (fun error => "failed to set write timeout: " +:+ error) (USetWriteTimeout 2000);;
  utry_as (fun error => "failed to request metrics: " +:+ error) (UWriteAll SNAPSHOT_REQUEST);;
  payload ← utry_as (fun error => "failed to read metrics: " +:+ error) UReadToEnd;
  lift (map_err (fun error => "invalid metrics payload: " +:+ error) (from_str (trim payload))).

Definition collect (socket_path : option string) : ueff UiSnapshot :=
  socket ← match socket_path with Some path => mret path | None => health_socket_path end;
  r ← attempt (from_health_socket socket);
  match r with
  | Ok snapshot => mret snapshot
  | Err error =>
      snapshot ← from_local_system;
      mret (set_source ("local-fallback (" +:+ error +:+ ")") snapshot)
  | Panic => lift Panic
  end.
End snapshot.

(** ** The text of the window *)

Definition note_suffix (note : option string) : string := match note with Some note => ": " +:+ note | None => EmptyString end.

Definition describe {T} (value : CapabilityValue T) (render : T -> string) : string :=
  match cv_state value with
  | CsAvailable => match cv_value value with Some v => render v | None => "available (value missing)" end
  | CsUnsupported => "unsupported" +:+ note_suffix (cv_note value)
  | CsUnavailable => "unavailable" +:+ note_suffix (cv_note value)
  end.

Definition NL : string := String LF EmptyString.

(** The degree sign, U+00B0. *)
Definition DEGREE : string := String (chr 194) (String (chr 176) EmptyString).

Definition format_snapshot (snapshot : UiSnapshot) : string :=
  "source: " +:+ us_source snapshot +:+ NL +:+
  "collected_at: " +:+ us_collected_at snapshot +:+ NL +:+ NL +:+
  "CPU load: " +:+ describe (us_cpu_load snapshot) (fun v =>
    "1m=" +:+ fixed 2 (cl_one v) +:+ " 5m=" +:+ fixed 2 (cl_five v) +:+ " 15m=" +:+ fixed 2 (cl_fifteen v)) +:+ NL +:+
  "Memory: " +:+ describe (us_memory snapshot) (fun v =>
    "available=" +:+ show_uint (mm_available_kib v / 1024) +:+ " MiB / total=" +:+ show_uint (mm_total_kib v / 1024) +:+ " MiB") +:+ NL +:+
  "Swap: " +:+ describe (us_swap snapshot) (fun v =>
    "free=" +:+ show_uint (sm_free_kib v / 1024) +:+ " MiB / total=" +:+ show_uint (sm_total_kib v / 1024) +:+ " MiB") +:+ NL +:+
  "Root capacity: " +:+ describe (us_root_capacity snapshot) (fun v =>
    "used=" +:+ show_uint (cm_used_bytes v) +:+ " / total=" +:+ show_uint (cm_total_bytes v) +:+ " (" +:+ fixed 1 (cm_used_percent v) +:+ "%)") +:+ NL +:+
  "Disk health: " +:+ describe (us_disk_health snapshot) (fun v => v) +:+ NL +:+
  "Network totals: " +:+ describe (us_network snapshot) (fun v =>
    "rx=" +:+ show_uint (nm_rx_bytes v) +:+ " bytes tx=" +:+ show_uint (nm_tx_bytes v) +:+ " bytes") +:+ NL +:+
  "Temperature: " +:+ describe (us_temperature_celsius snapshot) (fun v => fixed 1 v +:+ " " +:+ DEGREE +:+ "C") +:+ NL.

Definition refresh_metrics (from_str : string -> result string UiSnapshot) (socket : option string) : ueff string :=
  snapshot ← collect from_str socket;
  mret (format_snapshot snapshot).

Example loadavg_example :
  describe (parse_loadavg "0.20 1.18 12.05 2/1204 8831") (fun v => fixed 2 (cl_one v) +:+ " " +:+ fixed 2 (cl_fifteen v)) = "0.20 12.05"%string.
Proof. by vm_compute. Qed.

(** ** The window always has something to show *)

Definition succeeds {A} (m : ueff A) : Prop := forall env h s, exists a, value (m env h s) = Ok a.

Lemma succeeds_ret {A} (a : A) : succeeds (mret a : ueff A).
Proof. intros env h s. by exists a. Qed.

Lemma succeeds_perform {A} (c : usys A) : succeeds (perform c).
Proof. intros env h s. by eexists. Qed.

Lemma succeeds_bind {A B} (m : ueff A) (k : A -> ueff B) : succeeds m -> (forall a, succeeds (k a)) -> succeeds (m ≫= k).
Proof.
  intros Hm Hk env h s. destruct (Hm env h s) as [a Ha]. unfold mbind, eff_bind. rewrite Ha. apply Hk.
Qed.

Lemma succeeds_attempt {A} (m : ueff A) (k : result string A -> ueff UiSnapshot) :
  (forall env, returns env m) -> (forall a, succeeds (k (Ok a))) -> (forall e, succeeds (k (Err e))) -> succeeds (attempt m ≫= k).
Proof.
  intros Hm Ha He env h s. specialize (Hm env h s). unfold mbind, eff_bind, attempt.
  destruct (value (m env h s)); [apply Ha|apply He|done].
Qed.

#[local] Hint Resolve succeeds_ret succeeds_perform : core.

Lemma first_zone_succeeds entries : succeeds (first_zone entries).
Proof.
  induction entries as [|[e|name] entries IH]; cbn [first_zone]; [done|done|].
  destruct (_ && _); [|done]. apply succeeds_bind; [done|]. intros raw. by destruct (match raw with inl _ => _ | inr _ => _ end).
Qed.

Lemma from_local_system_succeeds : succeeds from_local_system.
Proof.
  unfold from_local_system, read_mem_and_swap, now_timestamp, read_loadavg, read_root_capacity, read_network_totals, read_temperature.
  repeat first [apply succeeds_ret | apply succeeds_perform | apply first_zone_succeeds | apply succeeds_bind; [|intros ?]
    | match goal with |- succeeds (match ?x with _ => _ end) => destruct x end].
Qed.

(** What the window may do: look, and ask the given socket for a snapshot. *)
Definition observes (socket : option string) (e : event usys) : Prop :=
  match ev_call e with
  | UConnect path => match socket with Some given => path = given | None => True end
  | UWriteAll bytes => bytes = SNAPSHOT_REQUEST
  | UCreateDirAll _ | UWriteFile _ _ => False
  | _ => True
  end.

Lemma first_zone_observes socket entries : emits (observes socket) (first_zone entries).
Proof. induction entries as [|[e|name] entries IH]; cbn [first_zone]; emits_tac; done. Qed.

#[local] Hint Resolve first_zone_observes : sentia.

Lemma from_local_system_observes socket : emits (observes socket) from_local_system.
Proof.
  unfold from_local_system, read_mem_and_swap, now_timestamp, read_loadavg, read_root_capacity, read_network_totals, read_temperature.
  by emits_tac.
Qed.

Lemma from_health_socket_observes from_str socket path :
  match socket with Some given => path = given | None => True end ->
  emits (observes socket) (from_health_socket from_str path).
Proof. intros Hs. unfold from_health_socket, utry_as. by emits_tac. Qed.

Lemma of_uio_no_panic {A} (f : string -> string) (r : uio A) : map_err f (of_uio r) <> Panic.
Proof. by destruct r. Qed.

Lemma from_health_socket_returns from_str path env : (forall s, from_str s <> Panic) -> returns env (from_health_socket from_str path).
Proof.
  intros Hs. unfold from_health_socket, utry_as. returns_tac; try apply of_uio_no_panic.
  intros H. specialize (Hs (trim a3)). by destruct (from_str (trim a3)).
Qed.

Lemma emits_ret_bind {A B} P (a : A) (k : A -> ueff B) : emits P (k a) -> emits P (mret a ≫= k).
Proof. intros Hk env h s. apply Hk. Qed.

Lemma collect_observes from_str socket : emits (observes socket) (collect from_str socket).
Proof.
  unfold collect, health_socket_path. destruct socket as [path|]; [apply emits_ret_bind|]; emits_tac;
    first [done | by apply from_health_socket_observes | apply from_local_system_observes].
Qed.

(** Refreshing the health window always yields a text, whatever the machine and the daemon
    answer, and it changes nothing: it reads files, connects at most to the given socket and
    sends only the snapshot request. *)
Theorem health_window_always_answers from_str socket env h :
  (forall s, from_str s <> Panic) ->
  let o := refresh_metrics from_str socket env h tt in
  (exists text, value o = Ok text) /\ Forall (observes socket) (trace o).
Proof.
  intros Hs. split.
  - revert env h. cut (succeeds (refresh_metrics from_str socket)); [intros H env h; apply H|]. unfold refresh_metrics, collect, health_socket_path.
    apply succeeds_bind; [|done]. apply succeeds_bind; [by destruct socket; [|apply succeeds_bind]|]. intros path.
    apply succeeds_attempt; [intros env; by apply from_health_socket_returns|done|]. intros e.
    apply succeeds_bind; [apply from_local_system_succeeds|done].
  - pose proof (collect_observes from_str socket) as H.
    revert env h. cut (emits (observes socket) (refresh_metrics from_str socket)); [intros He env h; apply He|].
    apply emits_bind; [done|]. intros s. apply emits_ret.
Qed.

(** ** The daemon's snapshots *)

(** The fields of the two snapshot types. *)
Definition snapshot_fields : list string :=
  ["source"; "collected_at"; "cpu_load"; "memory"; "swap"; "root_capacity"; "disk_health"; "network"; "temperature_celsius"].
Definition daemon_fields : list string :=
  ["schema_version"; "collected_at_unix_ms"; "elapsed_ms"; "cpu"; "memory"; "swap"; "filesystem"; "disk"; "diskhealth";
   "temperature"; "network"; "processes"; "systemd"; "kernel"; "tools"; "alerts"; "alert_log"].

Lemma member_absent {A} k (m : list (string * A)) : k ∉ m.*1 -> member k m = None.
Proof.
  induction m as [|[k' v] m IH]; [done|]. rewrite fmap_cons, not_elem_of_cons. cbn [member fst]. intros [Hne Hm].
  rewrite (proj2 (String.eqb_neq _ _)) by done. auto.
Qed.

(** A call that succeeds is followed by the rest. *)
Lemma run_utry_as {A B} f (c : usys (uio A)) (k : A -> ueff B) (env : environment usys) h a s :
  env h _ c = inr a -> value ((utry_as f c ≫= k) env h s) = value (k a env (h ++ [Event _ c (inr a)]) s).
Proof. intros Ha. unfold utry_as, mbind, eff_bind, perform, lift. cbn. by rewrite Ha. Qed.

Section daemon.
(** [serde_json] into a generic value, and into the snapshot of the window: the derived
    deserializer refuses an object that lacks a field. *)
Context (json : string -> option Value) (from_str : string -> result string UiSnapshot).
Context (missing_field : forall s m f, json s = Some (VObject m) -> f ∈ snapshot_fields -> member f m = None ->
  exists error, from_str s = Err error).

(** The socket accepts the connection and answers with [payload]. *)
Definition daemon_answers (env : environment usys) (payload : string) : Prop :=
  (forall h path, env h _ (UConnect path) = inr tt) /\ (forall h t, env h _ (USetReadTimeout t) = inr tt) /\
  (forall h t, env h _ (USetWriteTimeout t) = inr tt) /\ (forall h bytes, env h _ (UWriteAll bytes) = inr tt) /\
  (forall h, env h _ UReadToEnd = inr payload).

Lemma daemon_payload_refused env h path payload m :
  daemon_answers env payload -> json (trim payload) = Some (VObject m) -> m.*1 = daemon_fields ->
  exists error, value (from_health_socket from_str path env h tt) = Err ("invalid metrics payload: " +:+ error).
Proof.
  intros (H1 & H2 & H3 & H4 & H5) Hj Hm.
  destruct (missing_field (trim payload) m "source" Hj) as [error He]; [by left|..].
  { apply member_absent. rewrite Hm. by apply (bool_decide_unpack _). }
  exists error. unfold from_health_socket. rewrite (run_utry_as _ _ _ _ _ _ _ (H1 _ _)), (run_utry_as _ _ _ _ _ _ _ (H2 _ _)).
  rewrite (run_utry_as _ _ _ _ _ _ _ (H3 _ _)), (run_utry_as _ _ _ _ _ _ _ (H4 _ _)), (run_utry_as _ _ _ _ _ _ _ (H5 _)).
  cbn [lift value]. by rewrite He.
Qed.

(** The window never shows what the health daemon measured: the daemon's snapshot has no
    field [source], so the window refuses every payload with the daemon's fields and falls
    back to its own reading, marked as a fallback. *)
Theorem daemon_snapshot_is_refused env h path payload m :
  daemon_answers env payload -> json (trim payload) = Some (VObject m) -> m.*1 = daemon_fields ->
  exists snapshot error, value (collect from_str (Some path) env h tt) = Ok snapshot /\
    us_source snapshot = "local-fallback (invalid metrics payload: " +:+ error +:+ ")".
Proof.
  intros Hd Hj Hm. destruct (daemon_payload_refused env h path payload m Hd Hj Hm) as [error He].
  unfold collect. unfold mbind at 1, eff_bind at 1. cbn [mret eff_ret value trace final]. rewrite app_nil_r.
  unfold mbind at 1, eff_bind at 1, attempt. rewrite He. cbn [value trace final].
  match goal with |- context [mbind ?k from_local_system env ?h' ?s'] => destruct (from_local_system_succeeds env h' s') as [snapshot Hs] end.
  exists (set_source ("local-fallback (" +:+ ("invalid metrics payload: " +:+ error) +:+ ")") snapshot), error.
  unfold mbind, eff_bind. rewrite Hs. by split.
Qed.
End daemon.

(** A machine without procfs whose health daemon answers. *)
Definition demo_ui_env (payload : string) : environment usys := fun _ _ c =>
  match c in usys A return A with
  | UVarOs _ => None
  | UVars => []
  | UGeteuid => 1000
  | UUnixSecs => 1700000000
  | UMetadata _ | UEntryMetadata _ _ => inl "not found"
  | UIsDir _ => false
  | UReadDir _ => inl "not found"
  | UReadToString _ => inl "not found"
  | UStatvfs _ => None
  | UCreateDirAll _ | UWriteFile _ _ => inl "read-only"
  | UConnect _ | USetReadTimeout _ | USetWriteTimeout _ | UWriteAll _ => inr tt
  | UReadToEnd => inr payload
  end.

Lemma health_window_always_answers_witness :
  exists text, value (refresh_metrics (fun _ => Err "missing field `source`"%string) (Some "/run/m.sock") (demo_ui_env "{}") [] tt) = Ok text.
Proof. by apply (health_window_always_answers (fun _ => Err "missing field `source`"%string) (Some "/run/m.sock") (demo_ui_env "{}") []). Defined.

Definition demo_daemon_object : list (string * Value) := (fun f => (f, VNull)) <$> daemon_fields.

Lemma daemon_snapshot_is_refused_witness :
  exists snapshot error,
    value (collect (fun _ => Err "missing field `source`"%string) (Some "/run/m.sock") (demo_ui_env "{}") [] tt) = Ok snapshot /\
    us_source snapshot = "local-fallback (invalid metrics payload: " +:+ error +:+ ")".
Proof.
  apply (daemon_snapshot_is_refused (fun _ => Some (VObject demo_daemon_object)) (fun _ => Err "missing field `source`"%string))
    with (payload := "{}") (m := demo_daemon_object); [|done|done|done].
  intros s m f _ _ _. by eexists.
Defined.
