(* ===== verification/UiFirstBoot.v ===== *)
(** * The setup wizard (crates/sentia-ui/src/firstboot.rs, bin/sentia-firstboot.rs)

    The wizard shows the stored choices in its widgets and stores what they show.  A check
    button holds a bool; a combo box holds the identifier of its selected row, and selecting
    an identifier without a row changes nothing.  [from_str] and [pretty] are [serde_json]'s
    reader and printer of the configuration. *)

From Stdlib Require Import Ascii String.
From S2P Require Import Prelude RustStr RustText Effects RouterListener UiTransport UiTerminal UiMonitor.

Record PrivacyCategories := {
  pv_files : bool;
  pv_command_history : bool;
  pv_hostnames : bool;
  pv_ip_addresses : bool;
  pv_process_names : bool;
  pv_journals : bool;
}.

Definition PrivacyCategories_default : PrivacyCategories :=
  {| pv_files := false; pv_command_history := false; pv_hostnames := false; pv_ip_addresses := false;
     pv_process_names := false; pv_journals := false |}.

Record FirstBootConfig := {
  fb_wizard_skipped : bool;
  fb_completed : bool;
  fb_policy : RouterPolicy;
  fb_telemetry_enabled : bool;
  fb_terminal_mode : AssistanceMode;
  fb_privacy : PrivacyCategories;
  fb_eligible_providers : list string;
  fb_updated_at : string;
}.

Definition default_config (updated_at : string) : FirstBootConfig :=
  {| fb_wizard_skipped := false; fb_completed := false; fb_policy := UiLocalOnly; fb_telemetry_enabled := false;
     fb_terminal_mode := AmCommandNotFound; fb_privacy := PrivacyCategories_default;
     fb_eligible_providers := []; fb_updated_at := updated_at |}.
Definition FirstBootConfig_default : ueff FirstBootConfig :=
  updated_at ← now_timestamp;
  mret (default_config updated_at).

Definition default_config_path : ueff string :=
  configured ← perform (UVarOs "SENTIA_FIRSTBOOT_CONFIG");
  match configured with
  | Some path => mret path
  | None =>
      config_home ← perform (UVarOs "XDG_CONFIG_HOME");
      base ← match config_home with
             | Some base => mret base
             | None => home ← perform (UVarOs "HOME"); mret (match home with Some home => path_join home ".config" | None => ".config"%string end)
             end;
      mret (path_join base "sentia/firstboot.json")
  end.

Section wizard.
Context (from_str : string -> result string FirstBootConfig) (pretty : FirstBootConfig -> result string string).

Definition load_or_default (path : option string) : ueff FirstBootConfig :=
  path ← match path with Some path => mret path | None => default_config_path end;
  raw ← perform (UReadToString path);
  match raw with
  | inl _ => FirstBootConfig_default
  | inr raw =>
      match from_str raw with
      | Ok config => mret config
      | Err _ => FirstBootConfig_default
      | Panic => lift Panic
      end
  end.

Definition save (self : FirstBootConfig) (path : option string) : ueff string :=
  path ← match path with Some path => mret path | None => default_config_path end;
  match parent_path path with
  | Some parent => utry (UCreateDirAll parent)
  | None => mret tt
  end;;
  payload ← lift match pretty self with Ok payload => Ok payload | _ => Panic end;
  utry (UWriteFile path payload);;
  mret path.

(** ** The widgets *)

Record Wizard := {
  wz_policy_combo : option string;
  wz_terminal_combo : option string;
  wz_telemetry_toggle : bool;
  wz_files : bool;
  wz_command_history : bool;
  wz_hostnames : bool;
  wz_ip_addresses : bool;
  wz_process_names : bool;
  wz_journals : bool;
  wz_openai : bool;
  wz_anthropic : bool;
  wz_google : bool;
  wz_xai : bool;
  wz_deepseek : bool;
}.

(** [set_active_id(Some(id))] on a box without selection. *)
Definition set_active_id (rows : list string) (id : string) : option string :=
  if bool_decide (id ∈ rows) then Some id else None.

Definition policy_rows : list string := ["LOCAL_ONLY"; "LOCAL_PREFERRED"; "REMOTE_PREFERRED"; "ASK_BEFORE_REMOTE"].
Definition terminal_rows : list string := ["command-not-found"; "on-request"; "auto-suggest"; "disabled"; "conventional"].

(** [build_ui]: the widgets of the stored configuration. *)
Definition show_config (existing : FirstBootConfig) : Wizard :=
  let eligible (name : string) := existsb (String.eqb name) (fb_eligible_providers existing) in
  {| wz_policy_combo := set_active_id policy_rows (as_contract_label (fb_policy existing));
     wz_terminal_combo := set_active_id terminal_rows (env_value (fb_terminal_mode existing));
     wz_telemetry_toggle := fb_telemetry_enabled existing;
     wz_files := pv_files (fb_privacy existing);
     wz_command_history := pv_command_history (fb_privacy existing);
     wz_hostnames := pv_hostnames (fb_privacy existing);
     wz_ip_addresses := pv_ip_addresses (fb_privacy existing);
     wz_process_names := pv_process_names (fb_privacy existing);
     wz_journals := pv_journals (fb_privacy existing);
     wz_openai := eligible "openai"; wz_anthropic := eligible "anthropic"; wz_google := eligible "google";
     wz_xai := eligible "xai"; wz_deepseek := eligible "deepseek" |}.

Definition build_wizard (config : option string) : ueff (string * Wizard) :=
  config_path ← match config with Some path => mret path | None => default_config_path end;
  existing ← load_or_default (Some config_path);
  mret (config_path, show_config existing).

(** The handler of the skip button: the text of the status line. *)
Definition on_skip (config_path : string) : ueff string :=
  config ← FirstBootConfig_default;
  let config := {| fb_wizard_skipped := true; fb_completed := true; fb_policy := fb_policy config;
                   fb_telemetry_enabled := fb_telemetry_enabled config; fb_terminal_mode := fb_terminal_mode config;
                   fb_privacy := fb_privacy config; fb_eligible_providers := fb_eligible_providers config;
                   fb_updated_at := fb_updated_at config |} in
  r ← attempt (save config (Some config_path));
  match r with
  | Ok path => mret ("Skipped. Saved defaults to " +:+ display path)
  | Err error => mret ("Failed to save defaults: " +:+ error)
  | Panic => lift Panic
  end.

Definition chosen_policy (id : option string) : RouterPolicy :=
  match id with
  | Some "LOCAL_PREFERRED" => UiLocalPreferred
  | Some "REMOTE_PREFERRED" => UiRemotePreferred
  | Some "ASK_BEFORE_REMOTE" => UiAskBeforeRemote
  | _ => UiLocalOnly
  end.

Definition chosen_mode (id : option string) : AssistanceMode :=
  match id with
  | Some "on-request" => AmOnRequest
  | Some "auto-suggest" => AmAutoSuggest
  | Some "disabled" => AmDisabled
  | Some "conventional" => AmConventional
  | _ => AmCommandNotFound
  end.

Definition chosen_providers (w : Wizard) : list string :=
  (if wz_openai w then ["openai"] else []) ++ (if wz_anthropic w then ["anthropic"] else []) ++
  (if wz_google w then ["google"] else []) ++ (if wz_xai w then ["xai"] else []) ++
  (if wz_deepseek w then ["deepseek"] else []).

Definition chosen_config (w : Wizard) (updated_at : string) : FirstBootConfig :=
  {| fb_wizard_skipped := false; fb_completed := true; fb_policy := chosen_policy (wz_policy_combo w);
     fb_telemetry_enabled := wz_telemetry_toggle w; fb_terminal_mode := chosen_mode (wz_terminal_combo w);
     fb_privacy := {| pv_files := wz_files w; pv_command_history := wz_command_history w; pv_hostnames := wz_hostnames w;
                      pv_ip_addresses := wz_ip_addresses w; pv_process_names := wz_process_names w; pv_journals := wz_journals w |};
     fb_eligible_providers := chosen_providers w; fb_updated_at := updated_at |}.

(** The handler of the save button. *)
Definition on_save (config_path : string) (w : Wizard) : ueff string :=
  updated_at ← now_timestamp;
  r ← attempt (save (chosen_config w updated_at) (Some config_path));
  match r with
  | Ok path => mret ("Saved " +:+ display path)
  | Err error => mret ("Save failed: " +:+ error)
  | Panic => lift Panic
  end.
End wizard.

(** ** The choices of the user *)

(** A wizard whose boxes have a row selected, as the window always shows it. *)
Definition selected (w : Wizard) : Prop :=
  (exists row, row ∈ policy_rows /\ wz_policy_combo w = Some row) /\ (exists row, row ∈ terminal_rows /\ wz_terminal_combo w = Some row).

Lemma show_chosen w updated_at : selected w -> show_config (chosen_config w updated_at) = w.
Proof.
  intros [(p & Hp & Ep) (t & Ht & Et)].
  assert (forall f : string -> bool, forallb f policy_rows = true -> f p = true) as Dp.
  { intros f Hf. rewrite forallb_forall in Hf. by apply Hf, list_elem_of_In. }
  assert (forall f : string -> bool, forallb f terminal_rows = true -> f t = true) as Dt.
  { intros f Hf. rewrite forallb_forall in Hf. by apply Hf, list_elem_of_In. }
  destruct w as [wp wt ? ? ? ? ? ? ? o a g x d]. cbn in Ep, Et. subst. unfold show_config, chosen_config. cbn. f_equal.
  - apply (bool_decide_eq_true_1 _). apply (Dp (fun p => bool_decide (_ = Some p))). by vm_compute.
  - apply (bool_decide_eq_true_1 _). apply (Dt (fun t => bool_decide (_ = Some t))). by vm_compute.
  - by destruct o, a, g, x, d.
  - by destruct o, a, g, x, d.
  - by destruct o, a, g, x, d.
  - by destruct o, a, g, x, d.
  - by destruct o, a, g, x, d.
Qed.

(** Saving touches only the configuration: its directory and its file. *)
Definition stores (path : string) (good : FirstBootConfig -> Prop) (pretty : FirstBootConfig -> result string string) (e : event usys) : Prop :=
  match ev_call e with
  | UWriteFile p bytes => p = path /\ exists config, good config /\ pretty config = Ok bytes
  | UCreateDirAll dir => parent_path path = Some dir
  | UUnixSecs => True
  | _ => False
  end.

Lemma save_stores pretty path config (good : FirstBootConfig -> Prop) :
  good config -> emits (stores path good pretty) (save pretty config (Some path)).
Proof.
  intros Hg. unfold save, utry. apply emits_ret_bind. apply emits_bind.
  { destruct (parent_path path) as [dir|] eqn:Hp; by emits_tac. }
  intros _. apply emits_bind_lift. intros payload Hp. emits_tac; [|done..]. split; [done|].
  exists config. split; [done|]. by destruct (pretty config).
Qed.

(** What skipping stores: nothing leaves the machine. *)
Definition private_choices (c : FirstBootConfig) : Prop :=
  fb_wizard_skipped c = true /\ fb_policy c = UiLocalOnly /\ fb_telemetry_enabled c = false /\
  fb_privacy c = PrivacyCategories_default /\ fb_eligible_providers c = [].

Lemma on_skip_stores pretty path : emits (stores path private_choices pretty) (on_skip pretty path).
Proof.
  unfold on_skip. eapply (emits_bind_yields _ _ _ (fun config => exists t, config = default_config t)).
  - unfold FirstBootConfig_default, now_timestamp. by emits_tac.
  - intros env h s config Hv. injection Hv as <-. by eexists.
  - intros config (t & ->). emits_tac; try done. by apply save_stores.
Qed.

Lemma on_save_stores pretty path w : emits (stores path (fun c => exists t, c = chosen_config w t) pretty) (on_save pretty path w).
Proof.
  unfold on_save, now_timestamp. emits_tac; try done. apply save_stores. eauto.
Qed.

(** C26 The wizard keeps the user's choices: whatever it writes when the user saves is, read
    back, shown with every widget as the user left it; and skipping writes only the private
    defaults, local only and without telemetry. *)
Theorem first_boot_choices_return from_str pretty path w :
  (forall config bytes, pretty config = Ok bytes -> from_str bytes = Ok config) -> selected w ->
  (forall env h p bytes r, Event _ (UWriteFile p bytes) r ∈ trace (on_save pretty path w env h tt) ->
     p = path /\ forall (env' : environment usys) h', env' h' _ (UReadToString path) = inr bytes ->
       value (build_wizard from_str (Some path) env' h' tt) = Ok (path, w)) /\
  (forall env h p bytes r, Event _ (UWriteFile p bytes) r ∈ trace (on_skip pretty path env h tt) ->
     p = path /\ exists config, from_str bytes = Ok config /\ private_choices config).
Proof.
  intros Hjson Hw. split; intros env h p bytes r Hin.
  - pose proof (on_save_stores pretty path w env h tt) as H. rewrite Forall_forall in H. specialize (H _ Hin). cbn in H.
    destruct H as (-> & config & (t & ->) & Hb). split; [done|]. intros env' h' Hr. apply Hjson in Hb.
    unfold build_wizard, load_or_default, mbind, eff_bind, perform, mret, eff_ret. cbn. rewrite !app_nil_r, Hr. cbn. rewrite Hb. cbn.
    by rewrite show_chosen.
  - pose proof (on_skip_stores pretty path env h tt) as H. rewrite Forall_forall in H. specialize (H _ Hin). cbn in H.
    destruct H as (-> & config & Hc & Hb). split; [done|]. apply Hjson in Hb. eauto.
Qed.

Definition demo_wizard : Wizard :=
  {| wz_policy_combo := Some "LOCAL_PREFERRED"; wz_terminal_combo := Some "disabled"; wz_telemetry_toggle := false;
     wz_files := true; wz_command_history := false; wz_hostnames := false; wz_ip_addresses := false; wz_process_names := false;
     wz_journals := false; wz_openai := true; wz_anthropic := false; wz_google := false; wz_xai := false; wz_deepseek := true |}.

#[global] Instance PrivacyCategories_eq_dec : EqDecision PrivacyCategories.
Proof. solve_decision. Defined.
#[global] Instance FirstBootConfig_eq_dec : EqDecision FirstBootConfig.
Proof. solve_decision. Defined.

(** A format that knows one configuration, and a disk that keeps it. *)
Definition demo_config : FirstBootConfig := chosen_config demo_wizard "unix:1700000000".
Definition demo_pretty (c : FirstBootConfig) : result string string := if decide (c = demo_config) then Ok "{}" else Err "unknown".
Definition demo_parse (s : string) : result string FirstBootConfig := if String.eqb s "{}" then Ok demo_config else Err "unknown".
Definition demo_disk_env (content : string) : environment usys := fun h _ c =>
  match c in usys A return A with
  | UReadToString _ => inr content
  | UCreateDirAll _ | UWriteFile _ _ => inr tt
  | c => demo_ui_env "{}" h _ c
  end.

Lemma first_boot_choices_return_witness :
  Event _ (UWriteFile "/c/f.json" "{}") (inr tt) ∈ trace (on_save demo_pretty "/c/f.json" demo_wizard (demo_disk_env EmptyString) [] tt) /\
  value (build_wizard demo_parse (Some "/c/f.json") (demo_disk_env "{}") [] tt) = Ok ("/c/f.json", demo_wizard).
Proof.
  assert (Event _ (UWriteFile "/c/f.json" "{}") (inr tt) ∈ trace (on_save demo_pretty "/c/f.json" demo_wizard (demo_disk_env EmptyString) [] tt)) as Hin.
  { right. right. left. }
  split; [exact Hin|].
  eapply (proj1 (first_boot_choices_return demo_parse demo_pretty "/c/f.json" demo_wizard _ _)); [exact Hin|done].
  Unshelve.
  - intros config bytes. unfold demo_pretty. case_decide; [|done]. subst. by intros [= <-].
  - split; eexists; (split; [|done]); apply (bool_decide_unpack _); by vm_compute.
Defined.
