(* ===== verification/Client.v ===== *)
(** * The command line client (crates/sentia-client/src/main.rs)

    [csys] are the calls of the client.  The state of the process is its request counter
    and what the open connection will still deliver.  First the command line, then requests,
    the connection, the exchange, what is shown, and the commands. *)

From Stdlib Require Import Ascii String.
From S2P Require Import Prelude RustStr RustText Bounded Contract RouterContract ToolContract SocketContract Effects Framing RouterApi.

(** ** The outside world *)

(** [io::ErrorKind] as far as the client looks at it, and the text of the error. *)
Inductive ErrorKind :=
| KNotFound | KConnectionRefused | KPermissionDenied | KInvalidInput | KInvalidData | KUnexpectedEof | KTimedOut | KOther.
Record ClientError := MkError { er_kind : ErrorKind; er_text : string }.

#[global] Instance ErrorKind_eq_dec : EqDecision ErrorKind.
Proof. solve_decision. Defined.

Definition cio (A : Type) : Type := (ClientError + A)%type.
Definition of_cio {A} (r : cio A) : result ClientError A := match r with inl e => Err e | inr a => Ok a end.

Record SocketMetadata := { sm_is_socket : bool; sm_uid : u32; sm_mode : u32 }.

(** What a connection delivers while the client waits: bytes, a failed read, or an
    interrupt from the keyboard.  After the last one the stream has ended, unless it is
    [ASilence]: then the stream stays open and nothing more comes, and the client, which sets
    no time for an answer, waits for ever.  An interrupt between two lines that came in one
    piece is the piece cut there. *)
Inductive Arrival := ABytes (bytes : string) | AFail (error : ClientError) | ACtrlC (signal : cio unit) | ASilence.

Inductive csys : Type -> Type :=
| CStdinAll : csys (cio string)
| CStdinLine : csys (cio string)
| CStdout (text : string) : csys bool
| CStderr (text : string) : csys bool
| CFlushStdout : csys (cio unit)
| CFlushStderr : csys (cio unit)
| CVarOs (name : string) : csys (option string)
| CProcessId : csys u32
| CUnixMs : csys u64
| CEuid : csys u32
| CInstantMs : csys Z
| CSleepMs (millis : Z) : csys unit
| CLstat (path : string) : csys (cio SocketMetadata)
| CConnect (path : string) : csys (cio unit)
| CPeerUid : csys (cio u32)
| CWriteAll (bytes : string) : csys (cio unit)
| CIncoming : csys (list Arrival).

Record Client := { cl_sequence : u64; cl_incoming : list Arrival }.

Abbreviation ceff A := (eff csys Client ClientError A).

Definition ctry {A} (c : csys (cio A)) : ceff A := r ← perform c; lift (of_cio r).
Definition cfail {A} (kind : ErrorKind) (text : string) : ceff A := lift (Err (MkError kind text)).

(** [print!] and [eprint!] panic when the stream cannot be written. *)
Definition print {E} (text : string) : eff csys Client E unit :=
  written ← perform (CStdout text); lift (if written : bool then Ok tt else Panic).
Definition eprint {E} (text : string) : eff csys Client E unit :=
  written ← perform (CStderr text); lift (if written : bool then Ok tt else Panic).
Definition EOL : string := String LF EmptyString.
Definition println {E} (text : string) : eff csys Client E unit := print (text +:+ EOL).
Definition eprintln {E} (text : string) : eff csys Client E unit := eprint (text +:+ EOL).

(** ** Commands *)

Inductive OutputMode := Human | Json | Silent.

#[global] Instance OutputMode_eq_dec : EqDecision OutputMode.
Proof. solve_decision. Defined.

Inductive Command :=
| CmdChat (question : string) (policy : option RoutingPolicy) (provider : option string) (consent_token : option ConsentToken)
| CmdStatus
| CmdSettingsGet
| CmdSettingsPolicy (policy : RoutingPolicy)
| CmdSettingsProvider (provider : option string)
| CmdSettingsPrivacy (category : PrivacyCategory) (remote : bool)
| CmdAskRemote (provider question : string)
| CmdHelp.

Record Options := { op_output : OutputMode; op_command : Command }.

Definition ascii_upper (c : ascii) : ascii := if is_ascii_lowercase c then ascii_of_N (N_of_ascii c - 32) else c.
Fixpoint to_ascii_uppercase (s : string) : string :=
  match s with EmptyString => EmptyString | String c s' => String (ascii_upper c) (to_ascii_uppercase s') end.

(** A [match] on literal texts. *)
Definition literal {A} (table : list (string * A)) (value : string) : option A :=
  snd <$> find (fun entry => String.eqb (fst entry) value) table.

Definition parse_policy (value : string) : result string RoutingPolicy :=
  ok_or (literal [("LOCAL_ONLY", LocalOnly); ("LOCAL_PREFERRED", LocalPreferred); ("REMOTE_PREFERRED", RemotePreferred);
                  ("ASK_BEFORE_REMOTE", AskBeforeRemote)] (to_ascii_uppercase value)) "unknown policy"%string.

Definition parse_category (value : string) : result string PrivacyCategory :=
  ok_or (literal [("user_prompt", UserPrompt); ("file_content", FileContent); ("command_history", CommandHistory);
                  ("hostname", Hostname); ("ip_address", IpAddress); ("process_name", ProcessName); ("journal", Journal);
                  ("diagnostic", Diagnostic)] value) "unknown privacy category"%string.

(** [position] and [remove]: the arguments without the first [--json], if there is one. *)
Fixpoint remove_json (args : list string) : option (list string) :=
  match args with
  | [] => None
  | arg :: args' => if String.eqb arg "--json" then Some args' else cons arg <$> remove_json args'
  end.

(** The loop over the arguments of a chat. *)
Fixpoint chat_args (args : list string) (policy : option RoutingPolicy) (provider : option string) (question : list string)
  : result string (option RoutingPolicy * option string * list string) :=
  match args with
  | [] => Ok (policy, provider, question)
  | arg :: args' =>
      if String.eqb arg "--policy" then
        match args' with
        | value :: rest => policy ← parse_policy value; chat_args rest (Some policy) provider question
        | [] => Err "--policy requires a value"
        end
      else if String.eqb arg "--provider" then
        match args' with
        | value :: rest => chat_args rest policy (Some value) question
        | [] => Err "--provider requires a value"
        end
      else if String.eqb arg "--consent-token" then
        Err "consent tokens are structured; use ask-remote or the JSONL API"
      else if starts_with "-" arg then Err ("unknown option: " +:+ arg)
      else chat_args args' policy provider (question ++ [arg])
  end.

Definition chat_command (args : list string) : result string Command :=
  '(policy, provider, question) ← chat_args args None None [];
  if bool_decide (question = []) then Err "a question is required"
  else Ok (CmdChat (join " " question) policy provider None).

(** The [match] on the first argument. *)
Definition parse_command (args : list string) : result string Command :=
  match args with
  | [] => chat_command args
  | first :: rest =>
      if String.eqb first "-h" || String.eqb first "--help" || String.eqb first "help" then Ok CmdHelp
      else if String.eqb first "status" && bool_decide (rest = []) then Ok CmdStatus
      else if String.eqb first "settings" then
        match rest with
        | [] => Ok CmdSettingsGet
        | [second; value] =>
            if String.eqb second "policy" then policy ← parse_policy value; Ok (CmdSettingsPolicy policy)
            else if String.eqb second "provider" then
              Ok (CmdSettingsProvider (if String.eqb value "none" then None else Some value))
            else chat_command args
        | [second; value; scope] =>
            if String.eqb second "privacy" then
              category ← parse_category value;
              remote ← (if String.eqb scope "remote" then Ok true
                        else if String.eqb scope "local" then Ok false
                        else Err "privacy scope must be local or remote");
              Ok (CmdSettingsPrivacy category remote)
            else chat_command args
        | _ => chat_command args
        end
      else if String.eqb first "ask-remote" then
        match rest with
        | provider :: word :: words => Ok (CmdAskRemote provider (join " " (word :: words)))
        | _ => chat_command args
        end
      else chat_command args
  end.

Definition parse_args (args : list string) : eff csys Client string Options :=
  let '(output, args) := match remove_json args with Some args => (Json, args) | None => (Human, args) end in
  match args with
  | [] =>
      r ← perform CStdinAll;
      question ← lift (map_err er_text (of_cio r));
      if is_empty (trim question) then mret {| op_output := output; op_command := CmdHelp |}
      else mret {| op_output := output; op_command := CmdChat question None None None |}
  | _ => command ← lift (parse_command args); mret {| op_output := output; op_command := command |}
  end.

(** * The command line client (crates/sentia-client/src/main.rs)

    The client makes one request frame per exchange, connects to the user's router, sends
    the frame and shows the frames of its stream until the result.  An interrupt from the
    keyboard sends one cancel frame; the stream still ends with the router's result. *)

(** [serde_json] at the types the client prints and parses. *)
Class ClientJson := {
  frame_to_string : JsonlFrame -> result string string;
  frame_from_slice : string -> result string JsonlFrame;
  chat_to_string : ChatContent -> result string string;
  control_to_string : ControlRequest -> result string string;
  response_from_str : string -> result string ControlResponse;
  value_pretty : Value -> result string string;
  settings_pretty : UserSettings -> result string string;
}.

(** ** Errors and identifiers *)

Definition invalid_data {A} (r : result string A) : result ClientError A := map_err (MkError KInvalidData) r.

Definition contract_error {A} (r : result ContractError A) : result ClientError A :=
  map_err (fun error =>
    MkError match ce_code error with
            | PermissionDenied | PolicyDenied => KPermissionDenied
            | ErrTimeout => KTimedOut
            | _ => KInvalidData
            end (ce_message error)) r.

Definition bounded {MAX} (value : string) : result ClientError (BoundedString MAX) :=
  map_err (fun error => MkError KInvalidInput (BoundedStringError_fmt error)) (BoundedString_new value).

Definition id_text (prefix : string) (pid : u32) (ms sequence : u64) : string :=
  prefix +:+ "-" +:+ show_uint pid +:+ "-" +:+ show_uint ms +:+ "-" +:+ show_uint sequence.

(** [REQUEST_SEQUENCE.fetch_add(1)] *)
Definition next_sequence : ceff u64 :=
  with_state (fun s => ({| cl_sequence := (cl_sequence s + 1) mod (U64_MAX + 1); cl_incoming := cl_incoming s |}, Ok (cl_sequence s))).

Definition generated_id (prefix : string) : ceff (BoundedString 64) :=
  pid ← perform CProcessId;
  ms ← perform CUnixMs;
  sequence ← next_sequence;
  lift (bounded (id_text prefix pid ms sequence)).

(** ** Requests *)

Section client.
Context `{J : ClientJson}.

Definition make_request (capability : RouterCapability) (policy : RoutingPolicy) (provider : option string)
    (consent_token : option ConsentToken) (mime_type content : string) : ceff JsonlFrame :=
  request_id ← generated_id "request";
  stream_id ← generated_id "stream";
  version ← lift (bounded PROTOCOL_VERSION_V1);
  session_id ← generated_id "session";
  created_at_ms ← perform CUnixMs;
  provider_id ← lift match provider with
                     | Some provider => id ← bounded provider; Ok (Some id)
                     | None => Ok None
                     end;
  origin_label ← lift (bounded "ai-cli");
  mime_type ← lift (bounded mime_type);
  bounded_content ← lift (bounded content);
  let request := {|
    rr_version := version; rr_request_id := request_id; rr_session_id := session_id;
    rr_created_at_ms := created_at_ms; rr_capability := capability; rr_policy := policy; rr_provider_id := provider_id;
    rr_provenance := {| dp_source := UserInput; dp_sensitivity := Internal; dp_redaction_applied := false;
                        dp_origin_label := origin_label; dp_trace_id := None |};
    rr_payload := {| rp_mime_type := mime_type; rp_content := bounded_content;
                     rp_byte_count := len content mod (U32_MAX + 1); rp_truncated := false |};
    rr_consent_token := consent_token |} in
  lift (contract_error (RouterRequest_validate request));;
  frame_id ← generated_id "frame";
  mret (FRequest PROTOCOL_VERSION_V1 frame_id stream_id request).

Definition make_chat_request (question : string) (policy : RoutingPolicy) (provider : option string)
    (consent_token : option ConsentToken) : ceff JsonlFrame :=
  content ← lift (invalid_data (chat_to_string {| cc_question := question; cc_context := []; cc_max_tokens := None |}));
  make_request Inference policy provider consent_token CHAT_MIME content.

Definition make_control_request (capability : RouterCapability) (control : ControlRequest) : ceff JsonlFrame :=
  content ← lift (invalid_data (control_to_string control));
  make_request capability LocalOnly None None CONTROL_MIME content.

(** ** The connection *)

Definition client_socket_path : ceff string :=
  configured ← perform (CVarOs "SENTIA_ROUTER_SOCKET");
  match configured with
  | Some path => mret path
  | None =>
      runtime ← perform (CVarOs "XDG_RUNTIME_DIR");
      runtime ← lift (ok_or runtime (MkError KNotFound "XDG_RUNTIME_DIR is required for the per-user router socket"));
      mret (path_join runtime "sentia/router.sock")
  end.

Definition verify_socket (path : string) : ceff unit :=
  metadata ← ctry (CLstat path);
  euid ← perform CEuid;
  lift (fail_if (negb (sm_is_socket metadata) || negb (sm_uid metadata =? euid) || negb (Z.land (sm_mode metadata) 511 =? 384))
          (MkError KPermissionDenied "router socket must be an owned socket with mode 0600")).

Definition ROUTER_CONNECT_TIMEOUT : Z := 30000.
Definition ROUTER_CONNECT_RETRY : Z := 250.

Definition starting (error : ClientError) : bool :=
  bool_decide (er_kind error = KNotFound) || bool_decide (er_kind error = KConnectionRefused).

Definition not_available (path : string) : ClientError :=
  MkError KConnectionRefused
    ("local AI is not available: nothing is accepting connections on " +:+ from_utf8_lossy path +:+ " after "
     +:+ show_uint (ROUTER_CONNECT_TIMEOUT / 1000) +:+ "s. The per-user router starts with your session; check it with "
     +:+ "`systemctl --user status sentia-router.socket sentia-router.service`.").

(** The loop of [connect_router]; it stops by itself when the clock runs. *)
Fixpoint connect_loop (turns : nat) (path : string) (deadline : Z) : ceff unit :=
  match turns with
  | O => lift Panic
  | S turns' =>
      attempted ← attempt (verify_socket path;; ctry (CConnect path));
      match attempted with
      | Ok _ => mret tt
      | Err error =>
          if negb (starting error) then lift (Err error)
          else
            now ← perform CInstantMs;
            if deadline <=? now then lift (Err (not_available path))
            else perform (CSleepMs ROUTER_CONNECT_RETRY);; connect_loop turns' path deadline
      | Panic => lift Panic
      end
  end.

(** One turn for each retry of the timeout and two more. *)
Definition CONNECT_TURNS : nat := Z.to_nat (ROUTER_CONNECT_TIMEOUT / ROUTER_CONNECT_RETRY) + 2.

Definition connect_router (path : string) : ceff unit :=
  now ← perform CInstantMs;
  connect_loop CONNECT_TURNS path (now + ROUTER_CONNECT_TIMEOUT).

Definition write_json_line (frame : JsonlFrame) : ceff unit :=
  bytes ← lift (invalid_data (frame_to_string frame));
  ctry (CWriteAll (bytes +:+ EOL)).

(** ** Reading frames *)

(** What waiting for a frame ends with: a line, the end of the stream, or the interrupt. *)
Inductive Read := RFrame (frame : option string) | RInterrupted (signal : cio unit).

Definition push_back (bytes : string) (arrivals : list Arrival) : list Arrival :=
  if is_empty bytes then arrivals else ABytes bytes :: arrivals.

Definition at_end (output : string) : result ClientError Read :=
  if is_empty output then Ok (RFrame None) else Err (MkError KUnexpectedEof "unterminated router response").

(** [read_frame], raced against the interrupt when [select] holds: the line read so far is
    dropped with the reader.  At a silence it does not return, which is [Panic] like the other
    runs that give no result. *)
Fixpoint read_loop (fuel : nat) (select : bool) (maximum : Z) (output : string) (arrivals : list Arrival)
  : result ClientError Read * list Arrival :=
  match fuel with
  | O => (Panic, arrivals)
  | S fuel' =>
      match arrivals with
      | [] => (at_end output, [])
      | AFail error :: rest => (Err error, rest)
      | ASilence :: _ => (Panic, arrivals)
      | ACtrlC signal :: rest =>
          if select then (Ok (RInterrupted signal), rest) else read_loop fuel' select maximum output rest
      | ABytes available :: rest =>
          if is_empty available then (at_end output, rest)
          else
            let take := match position_lf available with Some index => S index | None => String.length available end in
            if maximum <? saturating_add USIZE_MAX (len output) (Z.of_nat take)
            then (Err (MkError KInvalidData "router response exceeds size limit"), arrivals)
            else
              let output := output +:+ stake take available in
              let rest := push_back (sdrop take available) rest in
              match position_lf available with
              | Some _ =>
                  let output := strip_newline output in
                  if is_empty output then read_loop fuel' select maximum output rest
                  else (Ok (RFrame (Some output)), rest)
              | None => read_loop fuel' select maximum output rest
              end
      end
  end.

(** The turns a reader can need: one for each arrival and each byte. *)
Fixpoint arrival_turns (arrivals : list Arrival) : nat :=
  match arrivals with
  | [] => O
  | ABytes bytes :: rest => S (String.length bytes + arrival_turns rest)
  | _ :: rest => S (arrival_turns rest)
  end.

Definition read_frame (select : bool) : ceff Read :=
  with_state (fun s =>
    let '(r, rest) := read_loop (S (arrival_turns (cl_incoming s))) select MAX_FRAME_BYTES EmptyString (cl_incoming s) in
    ({| cl_sequence := cl_sequence s; cl_incoming := rest |}, r)).

(** ** Showing frames *)

Definition ProviderHealth_debug (h : ProviderHealth) : string :=
  match h with
  | Healthy => "Healthy" | Degraded => "Degraded" | Unavailable => "Unavailable" | Disabled => "Disabled" | Starting => "Starting"
  end.
Definition ToolPhase_debug (p : ToolPhase) : string :=
  match p with
  | PhQueued => "Queued" | PhValidating => "Validating" | PhRunning => "Running" | PhVerifying => "Verifying"
  | PhCompleted => "Completed" | PhFailed => "Failed"
  end.

Definition provider_line (status : ProviderStatus) : string :=
  as_str (ps_provider_id status) +:+ ": " +:+ ProviderHealth_debug (ps_health status) +:+ " ("
    +:+ default EmptyString (ps_message status) +:+ ")".

Fixpoint print_lines (lines : list string) : ceff unit :=
  match lines with
  | [] => mret tt
  | line :: lines' => println line;; print_lines lines'
  end.

Definition render_control_payload (content : string) : ceff unit :=
  response ← lift (invalid_data (response_from_str content));
  match response with
  | CpStatus display local remotes =>
      println display;;
      println (provider_line local);;
      print_lines (map provider_line remotes)
  | CpSettings settings =>
      text ← lift (invalid_data (settings_pretty settings));
      println text
  | CpConsentPreview provider token _ redactions =>
      println ("Remote consent preview for " +:+ provider);;
      println ("payload sha256: " +:+ as_str (ct_payload_sha256 token));;
      if bool_decide (redactions = []) then mret tt else println ("redactions: " +:+ join ", " redactions)
  end.

Definition render_human (frame : JsonlFrame) : ceff unit :=
  match frame with
  | FEvent _ _ _ event =>
      match sv_payload event with
      | EpOutputDelta delta _ => print (as_str delta);; ctry CFlushStdout
      | EpProviderStatus provider_status =>
          match ps_message provider_status with
          | Some message => eprintln message
          | None => mret tt
          end
      | EpToolProgress tool phase detail =>
          eprintln ("[tool " +:+ ToolName_as_str tool +:+ ": " +:+ ToolPhase_debug phase
            +:+ match detail with Some value => ": " +:+ value | None => EmptyString end +:+ "]")
      | _ => mret tt
      end
  | FResult _ _ _ result =>
      match rs_payload result with
      | Some payload =>
          if String.eqb (as_str (sp_mime_type payload)) "text/plain" then mret tt
          else render_control_payload (as_str (sp_content payload))
      | None => mret tt
      end
  | FError _ _ _ error => eprintln ("error: " +:+ ce_message error)
  | FCancelAck _ _ _ cancel_ack =>
      eprintln ("cancellation " +:+ if ca_accepted cancel_ack then "accepted" else "not accepted")
  | _ => mret tt
  end.

Definition render_frame (frame : JsonlFrame) (output : OutputMode) : ceff unit :=
  match output with
  | Json => text ← lift (invalid_data (frame_to_string frame)); println text
  | Silent => mret tt
  | Human => render_human frame
  end.

(** ** The exchange *)

Definition same_id (a b : BoundedString 64) : bool := String.eqb (as_str a) (as_str b).

(** The message of an error frame of the stream. *)
Definition stream_failure (stream : StreamId) (frame : JsonlFrame) : option string :=
  match frame with
  | FError _ _ stream_id error => if same_id stream_id stream then Some (ce_message error) else None
  | _ => None
  end.

(** Whether a frame is the result that ends the exchange. *)
Definition ends_exchange (request : RequestId) (stream : StreamId) (frame : JsonlFrame) : bool :=
  match frame with
  | FResult _ _ stream_id result => same_id stream_id stream && same_id (rs_request_id result) request
  | _ => false
  end.

Definition send_cancel (request : RequestId) (stream : StreamId) : ceff unit :=
  frame_id ← generated_id "frame";
  cancel_id ← generated_id "cancel";
  requested_at_ms ← perform CUnixMs;
  write_json_line (FCancel PROTOCOL_VERSION_V1 frame_id stream
    {| cq_cancel_id := cancel_id; cq_request_id := request; cq_reason := UserRequested; cq_requested_at_ms := requested_at_ms |}).

Fixpoint exchange_loop (fuel : nat) (request : RequestId) (stream : StreamId) (output : OutputMode)
    (frames : list JsonlFrame) (interrupted : bool) (failed : option string) : ceff (list JsonlFrame) :=
  match fuel with
  | O => lift Panic
  | S fuel' =>
      read ← read_frame (negb interrupted);
      match read with
      | RInterrupted signal =>
          lift (of_cio signal);;
          send_cancel request stream;;
          exchange_loop fuel' request stream output frames true failed
      | RFrame None => cfail KUnexpectedEof "router closed before completing the request"
      | RFrame (Some bytes) =>
          frame ← lift (invalid_data (frame_from_slice bytes));
          lift (contract_error (validate_version frame));;
          render_frame frame output;;
          let failed := match stream_failure stream frame with Some message => Some message | None => failed end in
          let frames := frames ++ [frame] in
          if ends_exchange request stream frame then
            (if bool_decide (output = Human) then println EmptyString else mret tt);;
            match failed with
            | Some message => cfail KOther message
            | None => mret frames
            end
          else exchange_loop fuel' request stream output frames interrupted failed
      end
  end.

Definition exchange (request : JsonlFrame) (output : OutputMode) : ceff (list JsonlFrame) :=
  '(target_request_id, target_stream_id) ← lift match request with
    | FRequest _ _ stream_id request => Ok (rr_request_id request, stream_id)
    | _ => Err (MkError KInvalidInput "client can only initiate request frames")
    end;
  socket ← client_socket_path;
  connect_router socket;;
  uid ← ctry CPeerUid;
  euid ← perform CEuid;
  lift (fail_if (negb (uid =? euid)) (MkError KPermissionDenied "router peer UID does not match the current user"));;
  write_json_line request;;
  incoming ← perform CIncoming;
  with_state (fun s => ({| cl_sequence := cl_sequence s; cl_incoming := incoming |}, Ok tt));;
  exchange_loop (S (arrival_turns incoming)) target_request_id target_stream_id output [] false None.

(** The response in the last result frame that carries one. *)
Fixpoint last_response (frames : list JsonlFrame) : result ClientError (option ControlResponse) :=
  match frames with
  | [] => Ok None
  | FResult _ _ _ result :: frames' =>
      match rs_payload result with
      | Some payload =>
          if String.eqb (as_str (sp_mime_type payload)) "text/plain" then last_response frames'
          else response ← invalid_data (response_from_str (as_str (sp_content payload))); Ok (Some response)
      | None => last_response frames'
      end
  | _ :: frames' => last_response frames'
  end.
Definition control_response (frames : list JsonlFrame) : result ClientError (option ControlResponse) := last_response (rev frames).

(** ** Commands *)

Definition fetch_settings : ceff UserSettings :=
  request ← make_control_request IntentClassification CrSettingsGet;
  frames ← exchange request Silent;
  response ← lift (control_response frames);
  match response with
  | Some (CpSettings settings) => mret settings
  | _ => cfail KInvalidData "router omitted settings"
  end.

Definition update_settings (patch : SettingsPatch) (output : OutputMode) : ceff unit :=
  request ← make_control_request IntentClassification (CrSettingsUpdate patch);
  exchange request output;;
  mret tt.

Definition CONSENT_QUESTION : string := "Send this payload once? Type 'yes' to continue: ".

(** From the preview to the answer of the user. *)
Definition confirm_preview (provider : string) (payload : Value) (redactions : list string) : ceff unit :=
  eprintln ("Exact payload proposed for " +:+ provider +:+ ":" +:+ EOL +:+ default EmptyString (ok (value_pretty payload)));;
  (if bool_decide (redactions = []) then mret tt else eprintln ("Redactions applied: " +:+ join ", " redactions));;
  eprint CONSENT_QUESTION;;
  ctry CFlushStderr;;
  answer ← ctry CStdinLine;
  lift (fail_if (negb (String.eqb (trim answer) "yes")) (MkError KPermissionDenied "remote request was not consented")).

Definition ask_remote (provider question : string) (output : OutputMode) : ceff unit :=
  lift (fail_if (bool_decide (output = Json)) (MkError KInvalidInput
    "ask-remote is interactive; machine clients should submit a consent_preview control request and use its exact token"));;
  request ← make_control_request IntentClassification (CrConsentPreview provider question [] None);
  preview_frames ← exchange request Silent;
  preview ← lift (control_response preview_frames);
  preview ← lift (ok_or preview (MkError KInvalidData "router omitted preview"));
  match preview with
  | CpConsentPreview _ token payload redactions =>
      confirm_preview provider payload redactions;;
      request ← make_chat_request question AskBeforeRemote (Some provider) (Some token);
      exchange request Human;;
      mret tt
  | _ => cfail KInvalidData "router returned the wrong control response"
  end.

Definition HELP : string := join EOL
  ["Usage:"; "  ai <question>"; "  ai                         # read question from stdin"; "  ai --json <question>";
   "  ai status [--json]"; "  ai settings [--json]";
   "  ai settings policy LOCAL_ONLY|LOCAL_PREFERRED|REMOTE_PREFERRED|ASK_BEFORE_REMOTE";
   "  ai settings provider <name|none>"; "  ai settings privacy <category> <local|remote>";
   "  ai ask-remote <provider> <question>"; ""; "Options for chat:"; "  --policy <policy>"; "  --provider <provider>"].

(** The patches of the settings commands. *)
Definition policy_patch (policy : RoutingPolicy) : SettingsPatch :=
  {| pa_default_policy := Some policy; pa_preferred_remote_provider := None; pa_remote_categories := None |}.
Definition provider_patch (provider : option string) : SettingsPatch :=
  {| pa_default_policy := None; pa_preferred_remote_provider := Some provider; pa_remote_categories := None |}.
Definition categories_patch (categories : gset PrivacyCategory) : SettingsPatch :=
  {| pa_default_policy := None; pa_preferred_remote_provider := None; pa_remote_categories := Some categories |}.

Definition run (options : Options) : ceff unit :=
  let output := op_output options in
  match op_command options with
  | CmdHelp => println HELP
  | CmdStatus => request ← make_control_request HealthCap CrStatus; exchange request output;; mret tt
  | CmdSettingsGet => request ← make_control_request IntentClassification CrSettingsGet; exchange request output;; mret tt
  | CmdSettingsPolicy policy => update_settings (policy_patch policy) output
  | CmdSettingsProvider provider => update_settings (provider_patch provider) output
  | CmdSettingsPrivacy category remote =>
      settings ← fetch_settings;
      let categories := if remote then {[category]} ∪ us_remote_categories settings
                        else us_remote_categories settings ∖ {[category]} in
      update_settings (categories_patch categories) output
  | CmdChat question policy provider consent_token =>
      policy ← match policy with
               | Some policy => mret policy
               | None => settings ← fetch_settings; mret (us_default_policy settings)
               end;
      request ← make_chat_request question policy provider consent_token;
      exchange request output;;
      mret tt
  | CmdAskRemote provider question => ask_remote provider question output
  end.

(** The exit status on the arguments after the name of the program. *)
Definition main_on (args : list string) : eff csys Client Empty_set Z :=
  parsed ← attempt (parse_args args);
  outcome ← match parsed with
            | Ok options => attempt (run options)
            | Err message => mret (Err (MkError KInvalidInput message))
            | Panic => lift Panic
            end;
  match outcome with
  | Ok _ => mret 0
  | Err error => eprintln ("ai: " +:+ er_text error);; mret 2
  | Panic => lift Panic
  end.

(** [main] on the bytes of [argv], the name of the program first; run from [Client_start].
    [std::env::args] panics at an argument that is not UTF-8, skipped or not. *)
Definition main (argv : list string) : eff csys Client Empty_set Z :=
  lift (if forallb valid_utf8 argv then Ok tt else Panic);;
  main_on (drop 1 argv).
Definition Client_start : Client := {| cl_sequence := 1; cl_incoming := [] |}.
End client.
