(* ===== verification/ClientSafety.v ===== *)
(** * Whom the client talks to, and with whose consent

    [link_step] is the protocol of one exchange: the socket is inspected, then connected,
    then its peer is checked, and only then the request is written, and after it at most
    one more line. *)

From Stdlib Require Import Ascii String.
From S2P Require Import Prelude RustStr RustText Bounded Contract RouterContract ToolContract SocketContract Effects Monitor Framing RouterApi Client.

(** ** The protocol of an exchange *)

Inductive link :=
| Unlinked | Inspected (path : string) (metadata : SocketMetadata) | Verified (path : string) | Linked | Peer (uid : u32)
| Cleared | Sent | CancelSent.

Definition private_socket (euid : u32) (m : SocketMetadata) : bool :=
  sm_is_socket m && (sm_uid m =? euid) && (Z.land (sm_mode m) 511 =? 384).

(** Before the request has been written. *)
Definition unsent (q : link) : bool := match q with Sent | CancelSent => false | _ => true end.

Definition link_step (line : string) (q : link) (e : event csys) : option link :=
  match ev_call e in csys A return A -> option link with
  | CLstat path => fun r => if unsent q then Some match r with inr m => Inspected path m | inl _ => Unlinked end else None
  | CEuid => fun euid =>
      Some match q with
           | Inspected path m => if private_socket euid m then Verified path else Unlinked
           | Peer uid => if uid =? euid then Cleared else Unlinked
           | q => q
           end
  | CConnect path => fun r =>
      match q with
      | Verified p => if String.eqb path p then Some match r with inr _ => Linked | inl _ => Unlinked end else None
      | _ => None
      end
  | CPeerUid => fun r => match q with Linked => Some match r with inr uid => Peer uid | inl _ => Unlinked end | _ => None end
  | CWriteAll bytes => fun _ =>
      match q with
      | Cleared => if String.eqb bytes line then Some Sent else None
      | Sent => Some CancelSent
      | _ => None
      end
  | CIncoming => fun _ => match q with Sent => Some Sent | _ => None end
  | _ => fun _ => Some q
  end (ev_reply e).

(** Calls that have nothing to do with the socket. *)
Definition aside (e : event csys) : Prop :=
  match ev_call e with
  | CLstat _ | CEuid | CConnect _ | CPeerUid | CWriteAll _ | CIncoming => False
  | _ => True
  end.

Lemma aside_step line q e : aside e -> link_step line q e = Some q.
Proof. destruct e as [A c r]. unfold aside, link_step. cbn. by destruct c. Qed.

Section safety.
Context `{J : ClientJson}.

Lemma generated_id_aside prefix : emits aside (generated_id prefix).
Proof. unfold generated_id, next_sequence. by emits_tac. Qed.
#[local] Hint Resolve generated_id_aside : sentia.

Lemma print_aside {E} text : emits aside (print (E := E) text).
Proof. unfold print. by emits_tac. Qed.
Lemma eprint_aside {E} text : emits aside (eprint (E := E) text).
Proof. unfold eprint. by emits_tac. Qed.
Lemma println_aside {E} text : emits aside (println (E := E) text).
Proof. apply print_aside. Qed.
Lemma eprintln_aside {E} text : emits aside (eprintln (E := E) text).
Proof. apply eprint_aside. Qed.
#[local] Hint Resolve print_aside eprint_aside println_aside eprintln_aside : sentia.

Lemma print_lines_aside lines : emits aside (print_lines lines).
Proof. induction lines; cbn [print_lines]; by emits_tac. Qed.
#[local] Hint Resolve print_lines_aside : sentia.

Lemma render_frame_aside frame output : emits aside (render_frame frame output).
Proof. unfold render_frame, render_human, render_control_payload, ctry. by emits_tac. Qed.
#[local] Hint Resolve render_frame_aside : sentia.

Lemma socket_path_aside : emits aside client_socket_path.
Proof. unfold client_socket_path. by emits_tac. Qed.

Lemma make_request_aside capability policy provider token mime content :
  emits aside (make_request capability policy provider token mime content).
Proof. unfold make_request. by emits_tac. Qed.
#[local] Hint Resolve make_request_aside : sentia.

Lemma make_chat_request_aside question policy provider token : emits aside (make_chat_request question policy provider token).
Proof. unfold make_chat_request. by emits_tac. Qed.

Lemma make_control_request_aside capability control : emits aside (make_control_request capability control).
Proof. unfold make_control_request. by emits_tac. Qed.

Lemma drives_aside line q {E A} (m : eff csys Client E A) : emits aside m -> drives (link_step line) q m (fun _ q' => q' = q).
Proof. apply drives_silent. intros e. apply aside_step. Qed.

(** A step aside, then the rest. *)
Lemma drives_aside_then line q {A B} (m : ceff A) (k : A -> ceff B) (G : result ClientError B -> link -> Prop) :
  emits aside m -> (forall e, G (Err e) q) -> G Panic q ->
  (forall a, drives (link_step line) q (k a) G) -> drives (link_step line) q (m ≫= k) G.
Proof.
  intros Hm He Hp Hk. eapply drives_bind; [by apply drives_aside|..].
  - intros a q' ->. apply Hk.
  - by intros e q' ->.
  - by intros q' ->.
Qed.

Lemma drives_lift_then line q {A B} (r : result ClientError A) (k : A -> ceff B) (G : result ClientError B -> link -> Prop) :
  (forall e, G (Err e) q) -> G Panic q ->
  (forall a, r = Ok a -> drives (link_step line) q (k a) G) -> drives (link_step line) q (lift r ≫= k) G.
Proof.
  intros He Hp Hk. eapply (drives_bind _ _ _ _ (fun r' q' => r' = r /\ q' = q)); [by apply drives_lift|..].
  - intros a q' [Ha ->]. by apply Hk.
  - by intros e q' [_ ->].
  - by intros q' [_ ->].
Qed.

Lemma drives_perform_then line q {A B} (c : csys A) (k : A -> ceff B) (G : result ClientError B -> link -> Prop) :
  (forall r, exists q', link_step line q (Event A c r) = Some q' /\ drives (link_step line) q' (k r) G) ->
  drives (link_step line) q (perform c ≫= k) G.
Proof.
  intros Hc. eapply (drives_bind _ _ _ _ (fun r' q' => exists r, r' = Ok r /\ drives (link_step line) q' (k r) G)).
  - apply drives_perform. intros r. destruct (Hc r) as (q' & Hs & Hk). eauto.
  - by intros a q' (r & [= <-] & Hk).
  - by intros e q' (r & [=] & _).
  - by intros q' (r & [=] & _).
Qed.

(** The outcome of connecting: a link whose socket was inspected, or nothing was sent. *)
Definition linked_or_unsent {A} (r : result ClientError A) (q : link) : Prop :=
  match r with Ok _ => q = Linked | _ => unsent q = true end.

Lemma attempt_connection line path q : unsent q = true ->
  drives (link_step line) q (verify_socket path;; ctry (CConnect path)) linked_or_unsent.
Proof.
  intros Hq. eapply (drives_bind _ _ _ _ (fun r q' => unsent q' = true /\ (is_ok r = true -> q' = Verified path))).
  - unfold verify_socket, ctry. eapply (drives_bind _ _ _ _ (fun r q' => unsent q' = true /\
      forall m, r = Ok m -> q' = Inspected path m)).
    + apply drives_perform_then. intros [e|m]; eexists; (split; [by cbn; rewrite Hq|]); apply drives_lift; (split; [done|]).
      * by intros m' [=].
      * by intros m' [= <-].
    + intros m q' [_ Hm]. rewrite (Hm m eq_refl). apply drives_perform_then. intros euid. eexists. split; [done|].
      apply drives_lift. cbn. unfold private_socket. rewrite <-!negb_andb.
      destruct (sm_is_socket m && (sm_uid m =? euid) && (Z.land (sm_mode m) 511 =? 384)); by split.
    + intros e q' [Hu _]. split; [done|]. by intros [=].
    + intros q' [Hu _]. split; [done|]. by intros [=].
  - intros [] q' [_ Hv]. rewrite (Hv eq_refl). unfold ctry. apply drives_perform_then.
    intros [e|[]]; eexists; (split; [cbn; by rewrite String.eqb_refl|]); by apply drives_lift.
  - by intros e q' [Hu _].
  - by intros q' [Hu _].
Qed.

Lemma connect_loop_drives line turns path deadline q : unsent q = true ->
  drives (link_step line) q (connect_loop turns path deadline) linked_or_unsent.
Proof.
  revert q. induction turns as [|turns IH]; intros q Hq; cbn [connect_loop]; [by apply drives_lift|].
  eapply (drives_bind _ _ _ _ (fun r q' => match r with Ok (Ok _) => q' = Linked | _ => unsent q' = true end)).
  { apply drives_attempt. eapply drives_mono; [|by apply (attempt_connection line path q)]. by intros [[]|e|] q'. }
  - intros [[]|error|] q' Hr; [by apply drives_ret| |by apply drives_lift].
    destruct (negb (starting error)); [by apply drives_lift|].
    apply drives_perform_then. intros now. exists q'. split; [done|]. destruct (deadline <=? now); [by apply drives_lift|].
    apply drives_perform_then. intros []. exists q'. split; [done|]. by apply IH.
  - by intros e q' Hr.
  - by intros q' Hr.
Qed.

(** Once interrupted, reading does not end with the interrupt again. *)
Lemma read_loop_uninterrupted fuel maximum output arrivals signal rest :
  read_loop fuel false maximum output arrivals <> (Ok (RInterrupted signal), rest).
Proof.
  revert output arrivals. induction fuel as [|fuel IH]; intros output arrivals; [done|]. cbn [read_loop].
  destruct arrivals as [|[bytes|error|s|] arrivals]; [unfold at_end; by destruct (is_empty output)| |done|apply IH|done].
  destruct (is_empty bytes); [unfold at_end; by destruct (is_empty output)|]. destruct (_ <? _); [done|].
  destruct (position_lf bytes); [|apply IH]. destruct (is_empty _); [apply IH|done].
Qed.

(** After the request: nothing more, or one cancel line. *)
Definition past_request (q : link) : Prop := q = Sent \/ q = CancelSent.

Lemma exchange_loop_drives line fuel request stream output frames (interrupted : bool) failed q :
  q = (if interrupted then CancelSent else Sent) ->
  drives (link_step line) q (exchange_loop fuel request stream output frames interrupted failed) (fun _ => past_request).
Proof.
  revert frames interrupted failed q. induction fuel as [|fuel IH]; intros frames interrupted failed q Hq; cbn [exchange_loop].
  { apply drives_lift. subst. destruct interrupted; [by right|by left]. }
  assert (past_request q) as Hp by (subst; destruct interrupted; [by right|by left]).
  eapply (drives_bind _ _ _ _ (fun (r : result ClientError Read) q' => q' = q /\ (forall signal, r = Ok (RInterrupted signal) -> interrupted = false))).
  { unfold read_frame. apply drives_with_state. intros s. split; [done|]. intros signal.
    destruct (read_loop _ _ _ _ _) as [r rest] eqn:Er. cbn. intros ->. destruct interrupted; [|done].
    exfalso. revert Er. apply read_loop_uninterrupted. }
  2:{ by intros e q' [-> _]. }
  2:{ by intros q' [-> _]. }
  intros [[bytes|]|signal] q' [-> Hs]; [|by apply drives_lift|].
  - apply drives_lift_then; [done|done|]. intros frame _. apply drives_lift_then; [done|done|]. intros [] _.
    apply drives_aside_then; [apply render_frame_aside|done|done|]. intros [].
    destruct (ends_exchange request stream frame); [|by apply IH].
    apply drives_aside_then; [by emits_tac|done|done|]. intros [].
    destruct (match stream_failure stream frame with Some _ => _ | None => _ end); [by apply drives_lift|by apply drives_ret].
  - rewrite (Hs signal eq_refl) in *. subst q. apply drives_lift_then; [done|done|]. intros [] _.
    eapply (drives_bind _ _ _ _ (fun r q' => past_request q' /\ (is_ok r = true -> q' = CancelSent))).
    + unfold send_cancel, write_json_line, ctry.
      do 2 (apply drives_aside_then; [by emits_tac|by split|by split|]; intros ?).
      apply drives_perform_then. intros ms. exists Sent. split; [done|]. apply drives_lift_then; [by split|by split|].
      intros bytes _. apply drives_perform_then. intros r. exists CancelSent. split; [done|]. apply drives_lift.
      split; [by right|done].
    + intros [] q' [_ Hc]. rewrite (Hc eq_refl). by apply IH.
    + by intros e q' [Hq _].
    + by intros q' [Hq _].
Qed.

(** What may be written: the request, and a cancel frame for it. *)
Definition cancel_line (request : RequestId) (stream : StreamId) (bytes : string) : Prop :=
  exists frame_id cancel_id ms text, bytes = text +:+ EOL /\
    frame_to_string (FCancel PROTOCOL_VERSION_V1 frame_id stream
      {| cq_cancel_id := cancel_id; cq_request_id := request; cq_reason := UserRequested; cq_requested_at_ms := ms |}) = Ok text.

Definition writes (permitted : string -> Prop) (e : event csys) : Prop :=
  match ev_call e with CWriteAll bytes => permitted bytes | _ => True end.

Lemma aside_writes permitted e : aside e -> writes permitted e.
Proof. destruct e as [A c r]. unfold aside, writes. cbn. by destruct c. Qed.

Lemma emits_aside_writes permitted {E A} (m : eff csys Client E A) : emits aside m -> emits (writes permitted) m.
Proof. apply emits_mono. intros e. apply aside_writes. Qed.
#[local] Hint Resolve emits_aside_writes : sentia.

Lemma write_json_line_writes (permitted : string -> Prop) frame :
  (forall text, frame_to_string frame = Ok text -> permitted (text +:+ EOL)) -> emits (writes permitted) (write_json_line frame).
Proof.
  intros Hf. unfold write_json_line, ctry. apply emits_bind_lift. intros text Ht. unfold invalid_data in Ht. apply map_err_Ok in Ht.
  emits_tac. cbn. by apply Hf.
Qed.

Lemma connect_router_writes permitted path : emits (writes permitted) (connect_router path).
Proof.
  unfold connect_router. emits_tac; [done|]. generalize CONNECT_TURNS as turns. intros turns.
  induction turns as [|turns IH]; cbn [connect_loop]; unfold verify_socket, ctry; emits_tac; done.
Qed.

Lemma exchange_loop_writes (permitted : string -> Prop) fuel request stream output frames interrupted failed :
  (forall bytes, cancel_line request stream bytes -> permitted bytes) ->
  emits (writes permitted) (exchange_loop fuel request stream output frames interrupted failed).
Proof.
  intros Hc. revert frames interrupted failed. induction fuel as [|fuel IH]; intros frames interrupted failed; cbn [exchange_loop].
  { apply emits_lift. }
  apply emits_bind; [apply emits_with_state|]. intros [[bytes|]|signal]; [| apply emits_lift|].
  - apply emits_bind; [apply emits_lift|]. intros frame. apply emits_bind; [apply emits_lift|]. intros _.
    apply emits_bind; [apply emits_aside_writes, render_frame_aside|]. intros _.
    destruct (ends_exchange request stream frame); [|apply IH]. apply emits_bind.
    + apply emits_aside_writes. by emits_tac.
    + intros _. by destruct (match stream_failure stream frame with Some _ => _ | None => _ end); emits_tac.
  - apply emits_bind; [apply emits_lift|]. intros _. apply emits_bind; [|intros _; apply IH]. unfold send_cancel.
    do 2 (apply emits_bind; [apply emits_aside_writes, generated_id_aside|]; intros ?).
    apply emits_bind; [by apply emits_perform|]. intros ms. apply write_json_line_writes. intros text Ht. apply Hc.
    unfold cancel_line. eauto 7.
Qed.

Lemma exchange_drives frame output text : frame_to_string frame = Ok text ->
  drives (link_step (text +:+ EOL)) Unlinked (exchange frame output)
    (fun r q => is_ok r = true -> past_request q).
Proof.
  intros Ht. unfold exchange. apply drives_lift_then; [done|done|]. intros [request stream] _.
  apply drives_aside_then; [apply socket_path_aside|done|done|]. intros path.
  eapply (drives_bind _ _ _ _ linked_or_unsent).
  { unfold connect_router. apply drives_perform_then. intros now. exists Unlinked. split; [done|]. by apply connect_loop_drives. }
  2:{ done. }
  2:{ done. }
  intros [] q ->. unfold ctry.
  eapply (drives_bind _ _ _ _ (fun r q' => forall uid, r = Ok uid -> q' = Peer uid)).
  { apply drives_perform_then. intros [e|uid]; eexists; (split; [done|]); apply drives_lift; [by intros u [=]|by intros u [= <-]]. }
  2:{ done. }
  2:{ done. }
  intros uid q Hq. rewrite (Hq uid eq_refl). apply drives_perform_then. intros euid.
  exists (if uid =? euid then Cleared else Unlinked). split; [done|].
  apply drives_lift_then; [done|done|]. intros [] Hf. apply fail_if_Ok in Hf. apply negb_false_iff in Hf. rewrite Hf.
  eapply (drives_bind _ _ _ _ (fun r q' => is_ok r = true -> q' = Sent)).
  { unfold write_json_line, ctry. apply drives_lift_then; [done|done|]. intros bytes Hb. unfold invalid_data in Hb.
    apply map_err_Ok in Hb. assert (bytes = text) as -> by congruence. apply drives_perform_then. intros r. exists Sent.
    split; [cbn; by rewrite String.eqb_refl|]. by apply drives_lift. }
  2:{ done. }
  2:{ done. }
  intros [] q' Hs. rewrite (Hs eq_refl). apply drives_perform_then. intros incoming. exists Sent. split; [done|].
  eapply (drives_bind _ _ _ _ (fun _ q' => q' = Sent)); [by apply drives_with_state|..|done|done].
  intros [] q'' ->. eapply drives_mono; [|by apply exchange_loop_drives]. done.
Qed.

Lemma exchange_writes (permitted : string -> Prop) version frame_id stream request output :
  (forall text, frame_to_string (FRequest version frame_id stream request) = Ok text -> permitted (text +:+ EOL)) ->
  (forall bytes, cancel_line (rr_request_id request) stream bytes -> permitted bytes) ->
  emits (writes permitted) (exchange (FRequest version frame_id stream request) output).
Proof.
  intros Hr Hc. unfold exchange. apply emits_bind_lift. intros p [= <-].
  apply emits_bind; [apply emits_aside_writes, socket_path_aside|]. intros path.
  apply emits_bind; [apply connect_router_writes|]. intros _. apply emits_bind; [unfold ctry; by emits_tac|]. intros uid.
  apply emits_bind; [by apply emits_perform|]. intros euid. apply emits_bind; [apply emits_lift|]. intros _.
  apply emits_bind; [by apply write_json_line_writes|]. intros _.
  apply emits_bind; [by apply emits_perform|]. intros incoming. apply emits_bind; [apply emits_with_state|]. intros _.
  by apply exchange_loop_writes.
Qed.

(** C9 The client talks only to its own router.  In every environment, an exchange writes only
    after it has found, at the path it connects to, a socket of its own user with mode 0600,
    has connected to that path and has seen that the peer runs as its user; the first line is
    the request, at most one more line follows, and that is a cancel frame for the same
    request and stream. *)
Theorem client_talks_to_its_own_router version frame_id stream request output text env h s :
  let frame := FRequest version frame_id stream request in
  frame_to_string frame = Ok text ->
  let o := exchange frame output env h s in
  exists q, steps (link_step (text +:+ EOL)) Unlinked (trace o) = Some q /\
    (is_ok (value o) = true -> past_request q) /\
    Forall (writes (fun bytes => bytes = text +:+ EOL \/ cancel_line (rr_request_id request) stream bytes)) (trace o).
Proof.
  intros frame Ht. cbn zeta. destruct (exchange_drives frame output text Ht env h s) as (q & Hs & Hq). exists q.
  split; [exact Hs|]. split; [exact Hq|]. apply exchange_writes; [|by right]. left. unfold frame in Ht. congruence.
Qed.

(** ** The requests it makes *)

(** A request frame with the given contents that passed the contract's validation. *)
Record made (capability : RouterCapability) (policy : RoutingPolicy) (provider : option string) (token : option ConsentToken)
    (mime content : string) (request : RouterRequest) : Prop := {
  md_capability : rr_capability request = capability;
  md_policy : rr_policy request = policy;
  md_provider : as_str <$> rr_provider_id request = provider;
  md_token : rr_consent_token request = token;
  md_mime : as_str (rp_mime_type (rr_payload request)) = mime;
  md_content : as_str (rp_content (rr_payload request)) = content;
  md_whole : rp_truncated (rr_payload request) = false;
  md_ids : is_empty (as_str (rr_request_id request)) = false /\ is_empty (as_str (rr_session_id request)) = false;
  md_valid : RouterRequest_validate request = Ok tt;
}.

Definition request_frame (good : RouterRequest -> Prop) (frame : JsonlFrame) : Prop :=
  exists frame_id stream request, frame = FRequest PROTOCOL_VERSION_V1 frame_id stream request /\ good request.

Lemma bounded_Ok {MAX} value (b : BoundedString MAX) : bounded value = Ok b -> as_str b = value.
Proof. unfold bounded. rewrite map_err_Ok. unfold BoundedString_new. destruct (Sumbool.sumbool_of_bool _); [|done]. by intros [= <-]. Qed.

Lemma generated_id_yields c prefix : yields (generated_id (String c prefix)) (fun id => is_empty (as_str id) = false).
Proof.
  unfold generated_id. apply yields_bind. intros pid. apply yields_bind. intros ms. apply yields_bind. intros sequence.
  intros env h s id Hid. cbn in Hid. by rewrite (bounded_Ok _ _ Hid).
Qed.

Lemma make_request_yields capability policy provider token mime content :
  yields (make_request capability policy provider token mime content) (request_frame (made capability policy provider token mime content)).
Proof.
  unfold make_request. eapply yields_bind_post; [apply generated_id_yields|]. intros request_id Hr.
  apply yields_bind. intros stream_id. apply yields_bind_lift. intros version Hv.
  eapply yields_bind_post; [apply generated_id_yields|]. intros session_id Hs. apply yields_bind. intros ms.
  apply yields_bind_lift. intros provider_id Hp. apply yields_bind_lift. intros origin _.
  apply yields_bind_lift. intros mime' Hm. apply yields_bind_lift. intros content' Hc. cbn zeta.
  apply yields_bind_lift. intros [] Hval. unfold contract_error in Hval. apply map_err_Ok in Hval.
  apply yields_bind. intros frame_id. apply yields_ret. do 3 eexists. split; [done|].
  split; cbn; try done.
  - destruct provider as [p|]; [|by injection Hp as <-]. apply bind_Ok in Hp as (id & Hid & [= <-]). cbn.
    by rewrite (bounded_Ok _ _ Hid).
  - by apply bounded_Ok in Hm.
  - by apply bounded_Ok in Hc.
Qed.

Lemma make_control_request_yields capability control :
  yields (make_control_request capability control) (request_frame (fun request => exists content,
    control_to_string control = Ok content /\ made capability LocalOnly None None CONTROL_MIME content request)).
Proof.
  unfold make_control_request. apply yields_bind_lift. intros content Hc. unfold invalid_data in Hc. apply map_err_Ok in Hc.
  intros env h s frame Hf. apply make_request_yields in Hf as (f & st & r & -> & Hr). exists f, st, r. eauto.
Qed.

Lemma make_chat_request_yields question policy provider token :
  yields (make_chat_request question policy provider token) (request_frame (fun request => exists content,
    chat_to_string {| cc_question := question; cc_context := []; cc_max_tokens := None |} = Ok content /\
    made Inference policy provider token CHAT_MIME content request)).
Proof.
  unfold make_chat_request. apply yields_bind_lift. intros content Hc. unfold invalid_data in Hc. apply map_err_Ok in Hc.
  intros env h s frame Hf. apply make_request_yields in Hf as (f & st & r & -> & Hr). exists f, st, r. eauto.
Qed.
End safety.

#[export] Hint Resolve generated_id_aside print_aside eprint_aside println_aside eprintln_aside : sentia.
