(* ===== verification/ClientExchange.v ===== *)
(** * How an exchange ends

    Every run of the client ends: waiting for the router is bounded by the clock, and an
    exchange by what its connection delivers.  A stream that ends with the result of the
    request is returned and shown whole, however its bytes arrive. *)

From Stdlib Require Import Ascii String.
From S2P Require Import Prelude RustStr RustText Bounded Contract RouterContract ToolContract SocketContract Effects Monitor Framing RouterApi Client ClientSafety.

(** ** Termination *)

(** What the history says about the clock: the last reading, and the sleeps since. *)
Definition client_clock_step (now : Z) (e : event csys) : Z :=
  match ev_call e in csys A return A -> Z with
  | CInstantMs => fun r => r
  | CSleepMs ms => fun _ => now + ms
  | _ => fun _ => now
  end (ev_reply e).
Definition client_clock (h : list (event csys)) : Z := fold_left client_clock_step h 0.

(** A monotone clock that counts the sleeps, and a terminal that can be written. *)
Record working (env : environment csys) : Prop := {
  wk_clock : forall h, client_clock h <= env h _ CInstantMs;
  wk_stdout : forall h text, env h _ (CStdout text) = true;
  wk_stderr : forall h text, env h _ (CStderr text) = true;
}.

Lemma client_clock_app h t : client_clock (h ++ t) = fold_left client_clock_step t (client_clock h).
Proof. apply fold_left_app. Qed.

(** Calls that do not move the clock. *)
Definition timeless (e : event csys) : Prop :=
  match ev_call e with CInstantMs | CSleepMs _ => False | _ => True end.

Lemma timeless_clock t now : Forall timeless t -> fold_left client_clock_step t now = now.
Proof.
  intros Ht. induction Ht as [|[A c r] t He _ IH]; [done|]. cbn [fold_left].
  replace (client_clock_step now (Event A c r)) with now; [done|]. unfold timeless, client_clock_step in *. cbn in *. by destruct c.
Qed.

Class CalmJson `{ClientJson} : Prop := {
  calm_frame_to_string : forall f, frame_to_string f <> Panic;
  calm_frame_from_slice : forall s, frame_from_slice s <> Panic;
  calm_chat_to_string : forall c, chat_to_string c <> Panic;
  calm_control_to_string : forall c, control_to_string c <> Panic;
  calm_response_from_str : forall s, response_from_str s <> Panic;
  calm_settings_pretty : forall s, settings_pretty s <> Panic;
}.

Section ends.
Context `{J : ClientJson} {JC : CalmJson} (env : environment csys) (Hw : working env).

Lemma map_err_no_panic {E F A} (f : E -> F) (r : result E A) : r <> Panic -> map_err f r <> Panic.
Proof. by destruct r. Qed.
Lemma of_cio_no_panic {A} (r : cio A) : of_cio r <> Panic.
Proof. by destruct r. Qed.
Lemma bounded_no_panic {MAX} value : bounded (MAX := MAX) value <> Panic.
Proof. unfold bounded, BoundedString_new. by destruct (Sumbool.sumbool_of_bool _). Qed.
Lemma fail_if_no_panics {E} b (e : E) : fail_if b e <> Panic.
Proof. by destruct b. Qed.
Lemma ok_or_returns {E A} (o : option A) (e : E) : ok_or o e <> Panic.
Proof. by destruct o. Qed.
#[local] Hint Resolve of_cio_no_panic bounded_no_panic fail_if_no_panics ok_or_returns : core.

Lemma validate_no_panic request : RouterRequest_validate request <> Panic.
Proof.
  unfold RouterRequest_validate, RequestPayload_validate, fail_if, mbind, result_bind. by repeat case_match.
Qed.

Lemma print_returns {E} text : returns env (print (E := E) text).
Proof. intros h s. unfold print, mbind, eff_bind, perform, lift. cbn. by rewrite (wk_stdout env Hw). Qed.
Lemma eprint_returns {E} text : returns env (eprint (E := E) text).
Proof. intros h s. unfold eprint, mbind, eff_bind, perform, lift. cbn. by rewrite (wk_stderr env Hw). Qed.
Lemma println_returns {E} text : returns env (println (E := E) text).
Proof. apply print_returns. Qed.
Lemma eprintln_returns {E} text : returns env (eprintln (E := E) text).
Proof. apply eprint_returns. Qed.
#[local] Hint Resolve print_returns eprint_returns println_returns eprintln_returns : sentia.

Lemma generated_id_returns prefix : returns env (generated_id prefix).
Proof. unfold generated_id, next_sequence. returns_tac; [|done]. by apply returns_with_state. Qed.
#[local] Hint Resolve generated_id_returns : sentia.

Lemma print_lines_returns lines : returns env (print_lines lines).
Proof. induction lines; cbn [print_lines]; returns_tac; done. Qed.
#[local] Hint Resolve print_lines_returns : sentia.

Lemma render_frame_returns frame output : returns env (render_frame frame output).
Proof.
  unfold render_frame, render_human, render_control_payload, ctry, invalid_data.
  returns_tac; try done; apply map_err_no_panic;
    first [apply calm_response_from_str | apply calm_settings_pretty | apply calm_frame_to_string].
Qed.

Lemma make_request_returns capability policy provider token mime content :
  returns env (make_request capability policy provider token mime content).
Proof.
  unfold make_request. returns_tac; try done.
  - destruct provider as [p|]; [|done]. pose proof (bounded_no_panic (MAX := 48) p) as Hp. by destruct (bounded p).
  - apply map_err_no_panic, validate_no_panic.
Qed.

Lemma write_json_line_returns frame : returns env (write_json_line frame).
Proof. unfold write_json_line, ctry, invalid_data. returns_tac; [|done]. apply map_err_no_panic, calm_frame_to_string. Qed.

(** *** Connecting *)

Lemma attempt_timeless path : emits timeless (verify_socket path;; ctry (CConnect path)).
Proof. unfold verify_socket, ctry. by emits_tac. Qed.

Lemma attempt_returns path : returns env (verify_socket path;; ctry (CConnect path)).
Proof. unfold verify_socket, ctry. by returns_tac. Qed.

Lemma connect_loop_returns turns path deadline h s :
  (0 < turns)%nat -> deadline <= client_clock h + ROUTER_CONNECT_RETRY * Z.of_nat (turns - 1) ->
  value (connect_loop turns path deadline env h s) <> Panic.
Proof.
  revert h s. induction turns as [|turns IH]; intros h s Hpos Hfuel; [lia|]. cbn [connect_loop].
  unfold mbind at 1, eff_bind at 1, attempt. pose proof (attempt_returns path h s) as Hr. pose proof (attempt_timeless path env h s) as Ht.
  set (o := (verify_socket path;; ctry (CConnect path)) env h s) in *. clearbody o.
  destruct (value o) as [[]|error|]; [done| |done]. cbn [value trace final].
  destruct (negb (starting error)); [done|]. unfold mbind at 1, eff_bind at 1, perform at 1. cbn [value trace final].
  set (h1 := h ++ trace o). assert (client_clock h1 = client_clock h) as Hh by (unfold h1; by rewrite client_clock_app, timeless_clock).
  pose proof (wk_clock env Hw h1) as Hc.
  destruct (Z.leb_spec deadline (env h1 _ CInstantMs)) as [|Hlt]; [done|]. unfold mbind at 1, eff_bind at 1, perform at 1. cbn [value trace final].
  unfold ROUTER_CONNECT_RETRY in *. destruct turns as [|turns]; [lia|].
  apply IH; [lia|]. rewrite !client_clock_app. cbn -[Z.of_nat]. lia.
Qed.

Lemma connect_router_returns path : returns env (connect_router path).
Proof.
  intros h s. unfold connect_router, mbind, eff_bind, perform. cbn [value trace final].
  apply connect_loop_returns; [unfold CONNECT_TURNS; lia|]. rewrite client_clock_app. cbn -[Z.of_nat Z.mul CONNECT_TURNS].
  change (Z.of_nat (CONNECT_TURNS - 1)) with 121. unfold ROUTER_CONNECT_TIMEOUT, ROUTER_CONNECT_RETRY. lia.
Qed.

(** *** Reading *)

Lemma push_back_turns available take rest : (0 < take)%nat -> is_empty available = false ->
  (arrival_turns (push_back (sdrop take available) rest) < arrival_turns (ABytes available :: rest))%nat.
Proof.
  intros Ht He. unfold push_back. destruct (is_empty (sdrop take available)); [cbn; lia|]. cbn.
  assert (String.length (sdrop take available) < String.length available)%nat; [|lia].
  destruct available as [|c available]; [done|]. destruct take as [|take]; [lia|]. cbn [sdrop String.length].
  clear. revert take. induction available as [|d available IH]; intros [|take]; cbn; try lia. specialize (IH take). lia.
Qed.

Lemma push_back_silence bytes rest : ASilence ∉ rest -> ASilence ∉ push_back bytes rest.
Proof. intros H. unfold push_back. destruct (is_empty bytes); [done|]. by apply not_elem_of_cons. Qed.

(** No silence comes from reading. *)
Lemma read_loop_silence fuel race maximum output arrivals r rest :
  read_loop fuel race maximum output arrivals = (r, rest) -> ASilence ∉ arrivals -> ASilence ∉ rest.
Proof.
  revert output arrivals. induction fuel as [|fuel IH]; intros output arrivals; cbn [read_loop]; [by intros [= <- <-]|].
  destruct arrivals as [|[available|error|signal|] arrivals]; [by intros [= <- <-]| | | |by intros [= <- <-]];
    intros Hr Hs; pose proof Hs as [_ Hrest]%not_elem_of_cons.
  - destruct (is_empty available); [by injection Hr as <- <-|]. destruct (_ <? _); [by injection Hr as <- <-|].
    set (taken := match position_lf available with Some index => S index | None => String.length available end) in *.
    pose proof (push_back_silence (sdrop taken available) arrivals Hrest) as Hp.
    destruct (position_lf available); [|by apply IH in Hr]. destruct (is_empty _); [by apply IH in Hr|by injection Hr as <- <-].
  - by injection Hr as <- <-.
  - destruct race; [by injection Hr as <- <-|by apply IH in Hr].
Qed.

Lemma read_loop_progress fuel race maximum output arrivals :
  (arrival_turns arrivals < fuel)%nat -> ASilence ∉ arrivals ->
  let '(r, rest) := read_loop fuel race maximum output arrivals in
  r <> Panic /\ (forall read, r = Ok read -> read <> RFrame None -> (arrival_turns rest < arrival_turns arrivals)%nat).
Proof.
  revert output arrivals. induction fuel as [|fuel IH]; intros output arrivals Hf Hs; [lia|]. cbn [read_loop].
  assert (forall o, at_end o <> Panic /\ forall read, at_end o = Ok read -> read <> RFrame None -> False) as Hend.
  { intros o. unfold at_end. destruct (is_empty o); (split; [done|]); [by intros read [= <-] ?|done]. }
  destruct arrivals as [|[available|error|signal|] rest]; [| | | |by rewrite elem_of_cons in Hs; tauto].
  - destruct (Hend output) as [Hp Hr]. split; [done|]. intros read H H'. by destruct (Hr read).
  - destruct (is_empty available) eqn:He.
    { destruct (Hend output) as [Hp Hr]. split; [done|]. intros read H H'. by destruct (Hr read). }
    set (take := match position_lf available with Some index => S index | None => String.length available end).
    assert (0 < take)%nat as Ht by (unfold take; destruct (position_lf available); [lia|]; destruct available; [done|cbn; lia]).
    pose proof (push_back_turns available take rest Ht He) as Hlt. destruct (_ <? _); [done|].
    assert (forall o, let '(r, rest') := read_loop fuel race maximum o (push_back (sdrop take available) rest) in
      r <> Panic /\ (forall read, r = Ok read -> read <> RFrame None -> (arrival_turns rest' < arrival_turns (ABytes available :: rest))%nat)) as Hgo.
    { intros o. specialize (IH o (push_back (sdrop take available) rest)). destruct (read_loop _ _ _ _ _) as [r rest'].
      destruct IH as [Hp Hr]; [lia|apply push_back_silence; by apply not_elem_of_cons in Hs as []|].
      split; [done|]. intros read H H'. specialize (Hr read H H'). lia. }
    destruct (position_lf available); [|apply Hgo].
    by destruct (is_empty (strip_newline _)); [apply Hgo|].
  - done.
  - destruct race; [split; [done|]; intros read _ _; cbn; lia|]. cbn in Hf. specialize (IH output rest).
    destruct (read_loop _ _ _ _ _) as [r rest']. destruct IH as [Hp Hr]; [lia|by apply not_elem_of_cons in Hs as []|]. split; [done|].
    intros read H H'. specialize (Hr read H H'). cbn. lia.
Qed.

(** Computations that leave the connection alone. *)
Definition keeps_incoming {A} (m : ceff A) : Prop := forall env h s, cl_incoming (final (m env h s)) = cl_incoming s.

Lemma keeps_incoming_bind {A B} (m : ceff A) (k : A -> ceff B) :
  keeps_incoming m -> (forall a, keeps_incoming (k a)) -> keeps_incoming (m ≫= k).
Proof.
  intros Hm Hk env' h s. unfold mbind, eff_bind. destruct (value (m env' h s)); cbn; rewrite ?Hk; apply Hm.
Qed.

Lemma keeps_incoming_state {A} (m : ceff A) : keeps_state m -> keeps_incoming m.
Proof. intros Hm env' h s. by rewrite Hm. Qed.

Lemma generated_id_incoming prefix : keeps_incoming (generated_id prefix).
Proof. by intros env' h s. Qed.

Lemma send_cancel_incoming request stream : keeps_incoming (send_cancel request stream).
Proof.
  unfold send_cancel, write_json_line, ctry. do 2 (apply keeps_incoming_bind; [apply generated_id_incoming|intros ?]).
  apply keeps_incoming_state. keeps_tac.
Qed.

Lemma render_frame_keeps frame output : keeps_state (render_frame frame output).
Proof.
  assert (forall lines, keeps_state (print_lines lines)) as Hl.
  { intros lines. induction lines; cbn [print_lines]; [apply keeps_ret|]. unfold println, print. apply keeps_bind; [keeps_tac|done]. }
  unfold render_frame, render_human, render_control_payload, println, eprintln, print, eprint, ctry. keeps_tac; apply Hl.
Qed.

(** A sequence from a state, by its first part. *)
Lemma bind_no_panic {A B} (m : ceff A) (k : A -> ceff B) h s :
  value (m env h s) <> Panic ->
  (forall a, value (m env h s) = Ok a -> value (k a env (h ++ trace (m env h s)) (final (m env h s))) <> Panic) ->
  value ((m ≫= k) env h s) <> Panic.
Proof. intros Hm Hk. unfold mbind, eff_bind. destruct (value (m env h s)); cbn; [by apply Hk|done|done]. Qed.

Lemma exchange_loop_returns fuel request stream output frames interrupted failed h s :
  (arrival_turns (cl_incoming s) < fuel)%nat -> ASilence ∉ cl_incoming s ->
  value (exchange_loop fuel request stream output frames interrupted failed env h s) <> Panic.
Proof.
  revert frames interrupted failed h s. induction fuel as [|fuel IH]; intros frames interrupted failed h s Hf Hquiet; [lia|].
  cbn [exchange_loop]. pose proof (read_loop_progress (S (arrival_turns (cl_incoming s))) (negb interrupted) MAX_FRAME_BYTES
    EmptyString (cl_incoming s) ltac:(lia) Hquiet) as Hr.
  apply bind_no_panic; unfold read_frame, with_state; destruct (read_loop _ _ _ _ _) as [r rest] eqn:Hread; [apply Hr|].
  apply read_loop_silence in Hread; [|done].
  cbn [value trace final]. intros read ->. destruct Hr as [_ Hr]. specialize (Hr read eq_refl). rewrite app_nil_r.
  destruct read as [[bytes|]|signal]; [| done|].
  - specialize (Hr ltac:(done)). apply bind_no_panic; [apply map_err_no_panic, calm_frame_from_slice|]. intros frame _.
    cbn [value trace final lift]. apply bind_no_panic.
    { cbn. apply map_err_no_panic. unfold validate_version. by destruct (String.eqb _ _). }
    intros [] _. apply bind_no_panic; [apply render_frame_returns|]. intros [] _. rewrite !render_frame_keeps.
    destruct (ends_exchange request stream frame); [|apply IH; cbn; [lia|done]].
    apply bind_no_panic; [destruct (bool_decide _); [apply println_returns|done]|]. intros [] _.
    by destruct (match stream_failure stream frame with Some _ => _ | None => _ end).
  - specialize (Hr ltac:(done)). apply bind_no_panic; [apply of_cio_no_panic|]. intros [] _. cbn [value trace final lift].
    apply bind_no_panic.
    { unfold send_cancel. revert h. intros h. match goal with |- value (?m env ?h' ?s') <> Panic => assert (returns env m) as H1; [|apply H1] end.
      returns_tac. apply write_json_line_returns. }
    intros [] _. apply IH; rewrite send_cancel_incoming; cbn; [lia|done].
Qed.

(** Every connection ends or fails at some time: the client does not wait for ever. *)
Context (Hends : forall h, ASilence ∉ env h _ CIncoming).

Lemma exchange_returns frame output : returns env (exchange frame output).
Proof.
  unfold exchange. apply returns_bind_lift; [by destruct frame|]. intros [request stream] _.
  apply returns_bind; [unfold client_socket_path; by returns_tac|]. intros path.
  apply returns_bind; [apply connect_router_returns|]. intros _. apply returns_bind; [unfold ctry; by returns_tac|]. intros uid.
  apply returns_bind; [apply returns_perform|]. intros euid. apply returns_bind; [by apply returns_lift|]. intros _.
  apply returns_bind; [apply write_json_line_returns|]. intros _.
  intros h s. apply bind_no_panic; [done|]. intros incoming [= <-]. apply bind_no_panic; [done|]. intros [] _. apply exchange_loop_returns; cbn; [lia|apply Hends].
Qed.

(** *** The whole program *)

Lemma control_response_no_panic frames : control_response frames <> Panic.
Proof.
  unfold control_response. induction (rev frames) as [|[] l IH]; cbn [last_response]; try done.
  destruct (rs_payload result) as [payload|]; [|done]. destruct (String.eqb _ _); [done|].
  pose proof (calm_response_from_str (as_str (sp_content payload))) as H. by destruct (response_from_str _).
Qed.

Lemma make_control_request_returns capability control : returns env (make_control_request capability control).
Proof.
  unfold make_control_request. apply returns_bind; [apply returns_lift, map_err_no_panic, calm_control_to_string|].
  intros content. apply make_request_returns.
Qed.

Lemma make_chat_request_returns question policy provider token : returns env (make_chat_request question policy provider token).
Proof.
  unfold make_chat_request. apply returns_bind; [apply returns_lift, map_err_no_panic, calm_chat_to_string|].
  intros content. apply make_request_returns.
Qed.
#[local] Hint Resolve exchange_returns make_control_request_returns make_chat_request_returns : sentia.

Lemma fetch_settings_returns : returns env fetch_settings.
Proof. unfold fetch_settings, cfail. returns_tac; [apply control_response_no_panic|done..]. Qed.
#[local] Hint Resolve fetch_settings_returns : sentia.

Lemma ask_remote_returns provider question output : returns env (ask_remote provider question output).
Proof.
  unfold ask_remote, confirm_preview, ctry, cfail. returns_tac; try done. apply control_response_no_panic.
Qed.
#[local] Hint Resolve ask_remote_returns : sentia.

Lemma run_returns options : returns env (run options).
Proof. unfold run, update_settings. by returns_tac. Qed.

Lemma chat_args_no_panic args policy provider question : chat_args args policy provider question <> Panic.
Proof.
  remember (length args) as n eqn:Hn. assert (length args <= n)%nat as Hl by lia. clear Hn. revert args policy provider question Hl.
  induction n as [|n IH]; intros [|arg args] policy provider question Hl; cbn in Hl; try done; try lia. cbn [chat_args].
  destruct (String.eqb arg "--policy").
  { destruct args as [|value args]; [done|]. unfold parse_policy. cbn in Hl.
    destruct (literal _ _); cbn [ok_or mbind result_bind]; [|done]. apply IH. lia. }
  destruct (String.eqb arg "--provider"); [destruct args as [|value args]; [done|apply IH; cbn in Hl; lia]|].
  destruct (String.eqb arg "--consent-token"); [done|]. destruct (starts_with "-" arg); [done|]. apply IH. lia.
Qed.

Lemma parse_command_no_panic args : parse_command args <> Panic.
Proof.
  assert (forall args, chat_command args <> Panic) as Hc.
  { intros l. unfold chat_command. pose proof (chat_args_no_panic l None None []) as H.
    destruct (chat_args l None None []) as [[[policy provider] question]| |]; cbn; [|done|done]. by destruct (bool_decide _). }
  destruct args as [|first rest]; [apply Hc|]. cbn [parse_command]. destruct (_ || _); [done|].
  destruct (_ && _); [done|]. destruct (String.eqb first "settings").
  - destruct rest as [|second [|value [|scope [|]]]]; try done; try apply Hc.
    + destruct (String.eqb second "policy"); [unfold parse_policy; by destruct (literal _ _)|].
      destruct (String.eqb second "provider"); [done|apply Hc].
    + destruct (String.eqb second "privacy"); [|apply Hc]. unfold parse_category.
      destruct (literal _ _); cbn; [|done]. by destruct (String.eqb scope "remote"); [|destruct (String.eqb scope "local")].
  - destruct (String.eqb first "ask-remote"); [|apply Hc]. by destruct rest as [|provider [|word words]]; try apply Hc.
Qed.

Lemma parse_args_returns args : returns env (parse_args args).
Proof.
  unfold parse_args. destruct (match remove_json args with Some _ => _ | None => _ end) as [output args'].
  destruct args'; returns_tac; [by apply map_err_no_panic|apply parse_command_no_panic].
Qed.

Lemma eprintln_written {E} text h s :
  (eprintln (E := E) text) env h s = {| trace := [Event _ (CStderr (text +:+ EOL)) true]; final := s; value := Ok tt |}.
Proof. unfold eprintln, eprint, mbind, eff_bind, perform, lift. cbn. by rewrite (wk_stderr env Hw). Qed.

(** C18 The client always exits: on a terminal that can be written, with a clock that runs and
    a router that closes every connection at some time, every invocation ends as its
    command did.  Arguments that are not UTF-8 are a panic before anything is done.  Otherwise a
    command that succeeds is status 0 and nothing after it, and a command line that is refused
    or a command that fails is its error, printed as the last thing, and status 2; no command
    line, router or file makes it panic or stay. *)
Theorem client_always_exits argv h s :
  let o := main argv env h s in
  let parsed := parse_args (drop 1 argv) env h s in
  if forallb valid_utf8 argv then
    match value parsed with
    | Ok options =>
        let ran := run options env (h ++ trace parsed) (final parsed) in
        match value ran with
        | Ok tt => value o = Ok 0 /\ trace o = trace parsed ++ trace ran
        | Err error => value o = Ok 2 /\
            trace o = trace parsed ++ trace ran ++ [Event _ (CStderr ("ai: " +:+ er_text error +:+ EOL)) true]
        | Panic => False
        end
    | Err message => value o = Ok 2 /\ trace o = trace parsed ++ [Event _ (CStderr ("ai: " +:+ message +:+ EOL)) true]
    | Panic => False
    end
  else value o = Panic /\ trace o = [].
Proof.
  cbn zeta. unfold main. destruct (forallb valid_utf8 argv); [|done].
  unfold main_on, mbind, eff_bind, attempt, lift. cbn [value trace final]. rewrite !app_nil_r, !app_nil_l.
  pose proof (parse_args_returns (drop 1 argv) h s) as Hp.
  destruct (value (parse_args (drop 1 argv) env h s)) as [options|message|]; [| |done]; cbn [value trace final mret eff_ret].
  - pose proof (run_returns options (h ++ trace (parse_args (drop 1 argv) env h s)) (final (parse_args (drop 1 argv) env h s))) as Hr.
    destruct (value (run options env _ _)) as [[]|error|]; [| |done]; cbn [value trace final mret eff_ret]; rewrite ?app_nil_r; [done|].
    rewrite eprintln_written. cbn [value trace final mret eff_ret]. by rewrite <-?app_assoc.
  - rewrite eprintln_written. cbn [value trace final mret eff_ret]. by rewrite <-?app_assoc.
Qed.
End ends.

(** * What an exchange returns and shows

    The frames of a stream arrive as lines, in pieces the client does not choose.  Without
    an interrupt the exchange returns them all, shows the answer as it comes, and ends with
    the error of the stream if there was one. *)

(** ** Reading a line from pieces *)

Definition filled_pieces (chunks : list string) : Prop := Forall (fun c => is_empty c = false) chunks.

Lemma push_back_pieces bytes chunks : filled_pieces chunks ->
  exists chunks', push_back bytes (ABytes <$> chunks) = ABytes <$> chunks' /\ filled_pieces chunks' /\
    sconcat chunks' = bytes +:+ sconcat chunks.
Proof.
  intros Hc. unfold push_back. destruct (is_empty bytes) eqn:E.
  - exists chunks. by destruct bytes.
  - exists (bytes :: chunks). split; [done|]. split; [by constructor|done].
Qed.

(** Two ways to cut a text at its first line feed. *)
Lemma first_lf a b a' b' : lacks LF a = true -> lacks LF a' = true ->
  a +:+ String LF b = a' +:+ String LF b' -> a = a' /\ b = b'.
Proof.
  revert a'. induction a as [|c a IH]; intros [|c' a']; rewrite ?lacks_cons.
  - by intros _ _ [= ->].
  - intros _ Ha' [= <- _]. by rewrite Ascii.eqb_refl in Ha'.
  - intros Ha _ [= -> _]. by rewrite Ascii.eqb_refl in Ha.
  - intros [_ Ha]%andb_true_iff [_ Ha']%andb_true_iff [= -> H]. by destruct (IH a' Ha Ha' H) as [-> ->].
Qed.

(** A piece without a line feed is a part of the line. *)
Lemma first_lf_later a b c rest : lacks LF c = true -> c +:+ b = a +:+ String LF rest ->
  exists a', a = c +:+ a' /\ b = a' +:+ String LF rest.
Proof.
  revert a. induction c as [|x c IH]; intros a; [by exists a|]. rewrite lacks_cons. intros [Hx Hc]%andb_true_iff Heq.
  destruct a as [|y a]; injection Heq as -> Heq; [by rewrite Ascii.eqb_refl in Hx|].
  destruct (IH a Hc Heq) as (a' & -> & ->). by exists a'.
Qed.

(** A line the client accepts as it is: a text without line ends, within the limit. *)
Definition line_text (maximum : Z) (line : string) : bool :=
  lacks LF line && negb (is_empty line) && String.eqb (strip_cr line) line && (len line + 1 <=? maximum).

(** The next line is read whole, however it was cut; what follows it stays. *)
Lemma read_line_pieces fuel race maximum output chunks line rest :
  filled_pieces chunks -> sconcat chunks = line +:+ String LF rest -> line_text maximum (output +:+ line) = true ->
  maximum < USIZE_MAX -> (arrival_turns (ABytes <$> chunks) < fuel)%nat ->
  exists chunks', read_loop fuel race maximum output (ABytes <$> chunks) = (Ok (RFrame (Some (output +:+ line))), ABytes <$> chunks') /\
    filled_pieces chunks' /\ sconcat chunks' = rest.
Proof.
  revert output chunks line. induction fuel as [|fuel IH]; intros output chunks line Hc Hs Hl Hu Hf; [lia|].
  destruct chunks as [|c chunks]; [by destruct line|]. rewrite fmap_cons in *. cbn [read_loop]. cbn [sconcat] in Hs.
  apply Forall_cons in Hc as [Hne Hc]. rewrite Hne. pose proof Hl as Hparts. unfold line_text in Hparts. apply andb_true_iff in Hparts as [[[Hlf He]%andb_true_iff Hcr]%andb_true_iff Hmax%Z.leb_le].
  apply negb_true_iff in He. apply String.eqb_eq in Hcr. rewrite lacks_app in Hlf. apply andb_true_iff in Hlf as [_ Hlf].
  rewrite len_app in Hmax. pose proof (len_nonneg output). destruct (position_lf c) as [index|] eqn:Hp.
  - apply position_lf_Some in Hp as (a & b & -> & Ha & ->). rewrite str_app_assoc in Hs.
    destruct (first_lf a (b +:+ sconcat chunks) line rest Ha Hlf Hs) as [-> <-]. destruct (take_lf line b) as [-> ->].
    rewrite saturating_ltb by lia. replace (maximum <? _) with false by (symmetry; apply Z.ltb_ge; unfold len in *; lia).
    rewrite <-str_app_assoc, strip_newline_lf, Hcr, He.
    destruct (push_back_pieces b chunks Hc) as (chunks' & -> & Hc' & Hs'). by exists chunks'.
  - apply position_lf_None in Hp. destruct (first_lf_later line (sconcat chunks) c rest Hp Hs) as (line' & -> & Hs').
    rewrite len_app in Hmax. pose proof (len_nonneg line'). rewrite saturating_ltb by lia.
    replace (maximum <? _) with false by (symmetry; apply Z.ltb_ge; unfold len in *; lia).
    replace (stake (String.length c) c) with c by (pose proof (stake_app_len c EmptyString); by rewrite app_empty_r in *).
    replace (sdrop (String.length c) c) with EmptyString by (pose proof (sdrop_app_len c EmptyString); by rewrite app_empty_r in *).
    cbn [push_back is_empty]. rewrite <-str_app_assoc. apply IH; [done|done| |done|cbn [arrival_turns] in Hf; lia].
    by rewrite str_app_assoc.
Qed.

(** ** What the client prints *)

Definition printed (e : event csys) : string :=
  match ev_call e with CStdout text => text | _ => EmptyString end.
Definition stdout_text (t : list (event csys)) : string := sconcat (printed <$> t).

Lemma stdout_text_app t u : stdout_text (t ++ u) = stdout_text t +:+ stdout_text u.
Proof. unfold stdout_text. by rewrite fmap_app, sconcat_app. Qed.

(** A call before the client reads: nothing is printed and nothing comes in. *)
Definition unheard (e : event csys) : Prop :=
  match ev_call e with CStdout _ | CIncoming => False | _ => True end.

Lemma unheard_stdout t : Forall unheard t -> stdout_text t = EmptyString.
Proof.
  intros Ht. induction Ht as [|[A c r] t He _ IH]; [done|]. unfold stdout_text in *. cbn [fmap list_fmap sconcat].
  unfold unheard, printed in *. cbn in *. rewrite IH. by destruct c.
Qed.

Section shown.
Context `{J : ClientJson}.

(** The text of a frame on the standard output; a control response has more than one line
    and is not described here. *)
Definition visible (output : OutputMode) (frame : JsonlFrame) : option string :=
  match output with
  | Silent => Some EmptyString
  | Json => match frame_to_string frame with Ok text => Some (text +:+ EOL) | _ => None end
  | Human =>
      match frame with
      | FEvent _ _ _ event => Some match sv_payload event with EpOutputDelta delta _ => as_str delta | _ => EmptyString end
      | FResult _ _ _ result =>
          match rs_payload result with
          | Some payload => if String.eqb (as_str (sp_mime_type payload)) "text/plain" then Some EmptyString else None
          | None => Some EmptyString
          end
      | _ => Some EmptyString
      end
  end.

(** The error of the stream: that of its last error frame. *)
Definition last_failure (stream : StreamId) (failed : option string) (frames : list JsonlFrame) : option string :=
  fold_left (fun failed frame => match stream_failure stream frame with Some message => Some message | None => failed end) frames failed.

Definition stream_value (frames : list JsonlFrame) (failed : option string) : result ClientError (list JsonlFrame) :=
  match failed with Some message => Err (MkError KOther message) | None => Ok frames end.

(** A line the client takes for a frame. *)
Record good_line (line : string) (frame : JsonlFrame) : Prop := {
  gl_text : line_text MAX_FRAME_BYTES line = true;
  gl_frame : frame_from_slice line = Ok frame;
  gl_version : validate_version frame = Ok tt;
}.

(** The lines of a stream and the frames they stand for, up to the result. *)
Inductive stream_lines (request : RequestId) (stream : StreamId) : list string -> list JsonlFrame -> Prop :=
| StreamEnd line frame : good_line line frame -> ends_exchange request stream frame = true ->
    stream_lines request stream [line] [frame]
| StreamMore line frame lines frames : good_line line frame -> ends_exchange request stream frame = false ->
    stream_lines request stream lines frames -> stream_lines request stream (line :: lines) (frame :: frames).

Definition stream_bytes (lines : list string) : string := sconcat ((fun line => line +:+ EOL) <$> lines).

Context (env : environment csys) (Hw : working env) (Hflush : forall h, env h _ CFlushStdout = inr tt).

Lemma println_shows {E} text h s : exists t,
  println (E := E) text env h s = Outcome t s (Ok tt) /\ stdout_text t = text +:+ EOL.
Proof.
  unfold println, print, mbind, eff_bind, perform, lift. cbn. rewrite (wk_stdout env Hw). eexists. split; [done|].
  cbn. by rewrite app_empty_r.
Qed.

Lemma eprintln_shows {E} text h s : exists t, eprintln (E := E) text env h s = Outcome t s (Ok tt) /\ stdout_text t = EmptyString.
Proof.
  unfold eprintln, eprint, mbind, eff_bind, perform, lift. cbn. rewrite (wk_stderr env Hw). by eexists.
Qed.

Lemma render_shows output frame text h s : visible output frame = Some text ->
  exists t, render_frame frame output env h s = Outcome t s (Ok tt) /\ stdout_text t = text.
Proof.
  unfold visible, render_frame. destruct output; [|destruct (frame_to_string frame) as [json|e|] eqn:Ej; [|done|done]; intros [= <-]|by intros [= <-]; eexists].
  - unfold render_human. destruct frame as [|? ? ? [? ? ? ? ? [| | | |]]|? ? ? result| | | | |]; intros Hv; cbn in Hv; try (injection Hv as <-); try by eexists.
    + unfold print, ctry, mbind, eff_bind, perform, lift. cbn. rewrite (wk_stdout env Hw). cbn. rewrite Hflush. eexists. split; [done|].
      cbn. by rewrite app_empty_r.
    + cbn. destruct (ps_message _); [apply eprintln_shows|by eexists].
    + apply eprintln_shows.
    + cbn. destruct (rs_payload result) as [payload|]; [|injection Hv as <-; by eexists].
      destruct (String.eqb _ _); [injection Hv as <-; by eexists|done].
    + apply eprintln_shows.
    + apply eprintln_shows.
  - destruct (println_shows (E := ClientError) json h s) as (t & Ht & Hs). exists t. split; [|done].
    unfold mbind, eff_bind at 1. unfold lift at 1, invalid_data. cbn. rewrite app_nil_r. by rewrite Ht.
Qed.

(** A sequence whose first part is known. *)
Lemma after_first {E A B} (m : eff csys Client E A) (k : A -> eff csys Client E B) h s t s' a t' s'' r :
  m env h s = Outcome t s' (Ok a) -> k a env (h ++ t) s' = Outcome t' s'' r -> (m ≫= k) env h s = Outcome (t ++ t') s'' r.
Proof. intros Hm Hk. unfold mbind, eff_bind. by rewrite Hm; cbn; rewrite Hk. Qed.

(** One line of the stream: its frame is shown, and the loop goes on with what follows. *)
Lemma exchange_line fuel request stream output line frame bytes chunks frames failed text h s :
  good_line line frame -> cl_incoming s = ABytes <$> chunks -> filled_pieces chunks ->
  sconcat chunks = line +:+ String LF bytes -> visible output frame = Some text ->
  exists t chunks', let s' := {| cl_sequence := cl_sequence s; cl_incoming := ABytes <$> chunks' |} in
    filled_pieces chunks' /\ sconcat chunks' = bytes /\ stdout_text t = text /\
    forall t' s'' r,
      (let failed := match stream_failure stream frame with Some message => Some message | None => failed end in
       if ends_exchange request stream frame then
         (if bool_decide (output = Human) then println EmptyString else mret tt);;
         match failed with Some message => cfail KOther message | None => mret (frames ++ [frame]) end
       else exchange_loop fuel request stream output (frames ++ [frame]) false failed) env (h ++ t) s' = Outcome t' s'' r ->
      exchange_loop (S fuel) request stream output frames false failed env h s = Outcome (t ++ t') s'' r.
Proof.
  intros [Hline Hframe Hversion] Hi Hc Hb Ht.
  destruct (read_line_pieces (S (arrival_turns (cl_incoming s))) true MAX_FRAME_BYTES EmptyString chunks line _ Hc Hb Hline)
    as (chunks' & Hread & Hc' & Hs'); [done|rewrite Hi; lia|].
  set (s' := {| cl_sequence := cl_sequence s; cl_incoming := ABytes <$> chunks' |}).
  destruct (render_shows output frame text h s' Ht) as (t & Hshow & Htext). exists t, chunks'. split; [done|]. split; [done|].
  split; [done|]. intros t' s'' r Hk. cbn [exchange_loop].
  apply (after_first _ _ h s [] s' (RFrame (Some line))).
  { unfold read_frame, with_state. cbn [negb]. rewrite Hi in Hread |- *. rewrite Hread. done. }
  rewrite app_nil_r. apply (after_first _ _ h s' [] s' frame); [unfold lift, invalid_data; by rewrite Hframe|].
  rewrite app_nil_r. apply (after_first _ _ h s' [] s' tt); [unfold lift, contract_error; by rewrite Hversion|].
  rewrite app_nil_r. by apply (after_first _ _ h s' t s' tt).
Qed.

(** The loop on a stream of lines: every line becomes a frame, is shown and returned. *)
Lemma exchange_loop_shows request stream output lines new : stream_lines request stream lines new ->
  forall fuel chunks more frames failed texts h s,
  cl_incoming s = ABytes <$> chunks -> filled_pieces chunks -> sconcat chunks = stream_bytes lines +:+ more ->
  (length lines <= fuel)%nat -> mapM (visible output) new = Some texts ->
  exists t s', exchange_loop fuel request stream output frames false failed env h s =
      Outcome t s' (stream_value (frames ++ new) (last_failure stream failed new)) /\
    stdout_text t = sconcat texts +:+ (if bool_decide (output = Human) then EOL else EmptyString).
Proof.
  intros Hs. induction Hs as [line frame Hg He|line frame lines new Hg He Hs IH]; intros [|fuel] chunks more frames failed texts h s Hi Hc Hb Hf Ht;
    cbn in Hf; try lia.
  all: cbn [mapM] in Ht; apply bind_Some in Ht as (text & Htext & Ht); apply bind_Some in Ht as (texts' & Htexts & [= <-]).
  all: unfold stream_bytes in Hb; cbn [fmap list_fmap sconcat] in Hb; rewrite !str_app_assoc in Hb; cbn [String.append EOL] in Hb.
  all: destruct (exchange_line fuel request stream output line frame _ chunks frames failed text h s Hg Hi Hc Hb Htext)
    as (t & chunks' & Hc' & Hb' & Hout & Hgo); rewrite He in Hgo; set (s' := {| cl_sequence := _; cl_incoming := _ |}) in *.
  - injection Htexts as <-. assert (exists t', (if bool_decide (output = Human) then println (E := ClientError) EmptyString else mret tt) env (h ++ t) s' =
      Outcome t' s' (Ok tt) /\ stdout_text t' = if bool_decide (output = Human) then EOL else EmptyString) as (t' & Hend & Hout').
    { destruct (bool_decide _); [apply println_shows|by eexists]. }
    exists (t ++ t'), s'. split.
    + rewrite <-(app_nil_r t'). apply Hgo. eapply after_first; [exact Hend|]. unfold last_failure, stream_value. cbn [fold_left].
      by destruct (match stream_failure stream frame with Some _ => _ | None => _ end).
    + rewrite stdout_text_app, Hout, Hout'. cbn [sconcat]. by rewrite app_empty_r.
  - destruct (IH fuel chunks' more (frames ++ [frame]) (match stream_failure stream frame with Some message => Some message | None => failed end)
      texts' (h ++ t) s' eq_refl Hc' Hb' ltac:(lia) Htexts) as (t' & s'' & Hrun & Hout').
    exists (t ++ t'), s''. split.
    + rewrite (Hgo _ _ _ Hrun). by rewrite <-app_assoc.
    + rewrite stdout_text_app, Hout, Hout'. cbn [sconcat]. by rewrite str_app_assoc.
Qed.

(** The client has begun to read. *)
Definition heard (t : list (event csys)) : Prop := exists arrivals, In (Event _ CIncoming arrivals) t.

Lemma unheard_heard t : Forall unheard t -> ~ heard t.
Proof. intros Ht (arrivals & Hin%list_elem_of_In). by eapply Forall_forall in Ht; [|exact Hin]. Qed.

(** What follows the calls before reading. *)
Definition if_heard {A} (Q : result ClientError A -> string -> Prop) (o : outcome csys Client ClientError A) : Prop :=
  heard (trace o) -> Q (value o) (stdout_text (trace o)).

Lemma if_heard_bind {A B} (m : ceff A) (k : A -> ceff B) Q h s :
  emits unheard m -> (forall a h s, if_heard Q (k a env h s)) -> if_heard Q ((m ≫= k) env h s).
Proof.
  intros Hm Hk. specialize (Hm env h s). unfold if_heard, mbind, eff_bind. destruct (value (m env h s)) as [a|e|]; cbn [trace value].
  - intros (arrivals & Hin). rewrite stdout_text_app, (unheard_stdout _ Hm). apply Hk. exists arrivals.
    apply in_app_or in Hin as [Hin|Hin]; [|done]. exfalso. apply (unheard_heard _ Hm). by exists arrivals.
  - intros H. by destruct (unheard_heard _ Hm).
  - intros H. by destruct (unheard_heard _ Hm).
Qed.

Lemma if_heard_lift {A B} (r : result ClientError A) (k : A -> ceff B) Q h s :
  (forall a, r = Ok a -> if_heard Q (k a env h s)) -> if_heard Q ((lift r ≫= k) env h s).
Proof.
  intros Hk. unfold if_heard, mbind, eff_bind, lift. destruct r as [a|e|]; cbn [trace value final app]; [|by intros (arrivals & [])..].
  rewrite app_nil_r. by apply Hk.
Qed.

Lemma connect_router_unheard path : emits unheard (connect_router path).
Proof.
  unfold connect_router. apply emits_bind; [by apply emits_perform|]. intros now. generalize CONNECT_TURNS as turns. intros turns.
  induction turns as [|turns IH]; cbn [connect_loop]; unfold verify_socket, ctry; emits_tac; done.
Qed.

Lemma stream_bytes_length lines : (length lines <= String.length (stream_bytes lines))%nat.
Proof.
  induction lines as [|line lines IH]; [done|]. unfold stream_bytes in *. cbn [fmap list_fmap sconcat length].
  rewrite !str_length_app. cbn. lia.
Qed.

Lemma arrival_turns_pieces chunks : (String.length (sconcat chunks) <= arrival_turns (ABytes <$> chunks))%nat.
Proof.
  induction chunks as [|c chunks IH]; [done|]. rewrite fmap_cons. cbn [arrival_turns sconcat]. rewrite str_length_app. lia.
Qed.

(** What the client returns and prints when it hears a stream. *)
Definition shows (output : OutputMode) (stream : StreamId) (frames : list JsonlFrame) (texts : list string)
    (v : result ClientError (list JsonlFrame)) (text : string) : Prop :=
  v = stream_value frames (last_failure stream None frames) /\
  text = sconcat texts +:+ (if bool_decide (output = Human) then EOL else EmptyString).

Lemma exchange_hears version frame_id stream request output lines frames texts chunks more h s :
  stream_lines (rr_request_id request) stream lines frames -> mapM (visible output) frames = Some texts ->
  filled_pieces chunks -> sconcat chunks = stream_bytes lines +:+ more ->
  (forall h, env h _ CIncoming = ABytes <$> chunks) ->
  if_heard (shows output stream frames texts) (exchange (FRequest version frame_id stream request) output env h s).
Proof.
  intros Hs Ht Hc Hb Hin.
  unfold exchange. apply if_heard_lift. intros p [= <-].
  apply if_heard_bind; [unfold client_socket_path; by emits_tac|]. intros path h1 s1.
  apply if_heard_bind; [apply connect_router_unheard|]. intros [] h2 s2.
  apply if_heard_bind; [unfold ctry; by emits_tac|]. intros uid h3 s3.
  apply if_heard_bind; [by emits_tac|]. intros euid h4 s4. apply if_heard_bind; [by emits_tac|]. intros [] h5 s5.
  apply if_heard_bind; [unfold write_json_line, ctry; by emits_tac|]. intros [] h6 s6 _.
  pose proof (arrival_turns_pieces chunks) as Hturns. pose proof (stream_bytes_length lines) as Hlen.
  rewrite Hb, str_length_app in Hturns. set (arrivals := ABytes <$> chunks) in *.
  set (s7 := {| cl_sequence := cl_sequence s6; cl_incoming := arrivals |}).
  destruct (exchange_loop_shows (rr_request_id request) stream output lines frames Hs (S (arrival_turns arrivals))
    chunks more [] None texts ((h6 ++ [Event _ CIncoming arrivals]) ++ []) s7) as (t & s8 & Hrun & Hout); [done|done|done|lia|done|].
  match goal with |- _ (value (?m env h6 s6)) _ =>
    assert (m env h6 s6 = Outcome ([Event _ CIncoming arrivals] ++ [] ++ t) s8 (stream_value ([] ++ frames) (last_failure stream None frames))) as -> end.
  { eapply after_first; [unfold perform; by rewrite Hin|]. eapply after_first; [done|exact Hrun]. }
  split; [done|exact Hout].
Qed.

(** C13 A client reads its stream to the end.  When the connection delivers the lines of a
    stream, cut into pieces in any way and followed by anything, the exchange returns exactly
    the frames of the stream up to the result of its request, or the error of the last error
    frame of its stream; and what it prints is the text of those frames, in their order, with
    a line end after an answer. *)
Theorem exchange_returns_the_stream version frame_id stream request output lines frames texts chunks more h s :
  stream_lines (rr_request_id request) stream lines frames -> mapM (visible output) frames = Some texts ->
  filled_pieces chunks -> sconcat chunks = stream_bytes lines +:+ more ->
  (forall h, env h _ CIncoming = ABytes <$> chunks) ->
  let o := exchange (FRequest version frame_id stream request) output env h s in
  heard (trace o) ->
  value o = stream_value frames (last_failure stream None frames) /\
  stdout_text (trace o) = sconcat texts +:+ (if bool_decide (output = Human) then EOL else EmptyString).
Proof.
  intros Hs Ht Hc Hb Hin. cbn zeta. intros Hheard. by eapply exchange_hears in Hheard as [Hv Hout]; [rewrite Hv, Hout|..].
Qed.
End shown.
