(* ===== verification/ClientConsent.v ===== *)
(** * Consent at the terminal

    [ask_remote] shows the payload the router proposes, asks, and only then sends the
    request that may leave the machine. *)

From Stdlib Require Import Ascii String.
From S2P Require Import Prelude RustStr RustText Bounded Contract RouterContract ToolContract SocketContract Effects Monitor Framing RouterApi Client ClientSafety ClientExchange.

(** ** The frames of an exchange are the router's *)

Definition sent_bytes (arrivals : list Arrival) : string :=
  sconcat ((fun arrival => match arrival with ABytes bytes => bytes | _ => EmptyString end) <$> arrivals).

Lemma sent_push_back bytes arrivals : sent_bytes (push_back bytes arrivals) = bytes +:+ sent_bytes arrivals.
Proof. unfold push_back. by destruct bytes. Qed.

Lemma stake_sdrop_whole n s : stake n s +:+ sdrop n s = s.
Proof. revert n. induction s as [|c s IH]; intros [|n]; cbn; [done..|]. by rewrite IH. Qed.

Lemma strip_newline_part s : exists b, s = strip_newline s +:+ b.
Proof.
  unfold strip_newline. destruct (strip_cr_app (stake (String.length s - 1) s)) as (t & Ht & _).
  exists (t +:+ sdrop (String.length s - 1) s). by rewrite <-str_app_assoc, <-Ht, stake_sdrop_whole.
Qed.

Definition in_order (maximum : Z) (whole : string) (r : result ClientError Read) (rest : list Arrival) (seen : string) : Prop :=
  (exists a, whole = a +:+ sent_bytes rest) /\ (forall line, r = Ok (RFrame (Some line)) -> exists a b, seen = a +:+ line +:+ b).

Lemma read_loop_order fuel race maximum output arrivals r rest : read_loop fuel race maximum output arrivals = (r, rest) ->
  (exists a, sent_bytes arrivals = a +:+ sent_bytes rest) /\
  (forall line, r = Ok (RFrame (Some line)) -> exists a b, output +:+ sent_bytes arrivals = a +:+ line +:+ b).
Proof.
  assert (forall o, forall line, at_end o <> Ok (RFrame (Some line))) as Hend by (intros o line; unfold at_end; by destruct (is_empty o)).
  revert output arrivals. induction fuel as [|fuel IH]; intros output arrivals; cbn [read_loop].
  { intros [= <- <-]. split; [by exists EmptyString|done]. }
  destruct arrivals as [|[available|error|signal|] arrivals]; [| | | |by intros [= <- <-]; split; [exists EmptyString|]].
  - intros [= <- <-]. split; [by exists EmptyString|]. by intros line H%Hend.
  - destruct (is_empty available) eqn:He.
    { intros [= <- <-]. split; [by exists available|]. by intros line H%Hend. }
    set (taken := match position_lf available with Some index => S index | None => String.length available end).
    clearbody taken. destruct (_ <? _); [intros [= <- <-]; split; [by exists EmptyString|done]|].
    assert (sent_bytes (ABytes available :: arrivals) = stake taken available +:+ sent_bytes (push_back (sdrop taken available) arrivals)) as Hsent.
    { rewrite sent_push_back, <-str_app_assoc, stake_sdrop_whole. done. }
    rewrite Hsent. assert (forall o, (exists x, output +:+ stake taken available = x +:+ o) ->
      read_loop fuel race maximum o (push_back (sdrop taken available) arrivals) = (r, rest) ->
      (exists a, stake taken available +:+ sent_bytes (push_back (sdrop taken available) arrivals) = a +:+ sent_bytes rest) /\
      (forall line, r = Ok (RFrame (Some line)) ->
       exists a b, output +:+ stake taken available +:+ sent_bytes (push_back (sdrop taken available) arrivals) = a +:+ line +:+ b)) as Hgo.
    { intros o (x & Hx) [(a & Ha) Hline]%IH. split.
      - exists (stake taken available +:+ a). by rewrite Ha, str_app_assoc.
      - intros line (a' & b & Hl)%Hline. exists (x +:+ a'), b. by rewrite <-str_app_assoc, Hx, str_app_assoc, Hl, str_app_assoc. }
    destruct (position_lf available); [|apply Hgo; by exists EmptyString].
    destruct (strip_newline_part (output +:+ stake taken available)) as (b & Hb). destruct (is_empty (strip_newline _)) eqn:Hnone.
    + intros Hr. apply (Hgo _) in Hr; [done|]. apply is_empty_true in Hnone. exists (output +:+ stake taken available).
      by rewrite Hnone, app_empty_r.
    + intros [= <- <-]. split; [by eexists|]. intros line [= <-].
      exists EmptyString, (b +:+ sent_bytes (push_back (sdrop taken available) arrivals)). cbn [String.append].
      rewrite <-!str_app_assoc. by rewrite <-Hb.
  - intros [= <- <-]. split; [by exists EmptyString|done].
  - destruct race; [intros [= <- <-]; split; [by exists EmptyString|done]|]. intros H. by apply IH in H.
Qed.

Section consent.
Context `{J : ClientJson}.

(** A frame parsed from a part of what the connection delivered. *)
Definition from_router (bytes : string) (frame : JsonlFrame) : Prop :=
  exists a line b, bytes = a +:+ line +:+ b /\ frame_from_slice line = Ok frame.

Lemma exchange_loop_frames bytes fuel request stream output frames interrupted failed env h s frames' :
  (exists a, bytes = a +:+ sent_bytes (cl_incoming s)) -> Forall (from_router bytes) frames ->
  value (exchange_loop fuel request stream output frames interrupted failed env h s) = Ok frames' -> Forall (from_router bytes) frames'.
Proof.
  revert frames interrupted failed h s. induction fuel as [|fuel IH]; intros frames interrupted failed h s (a & Hs) Hf; cbn [exchange_loop]; [done|].
  intros (read & Hread & Hgo & _)%run_bind_Ok. revert Hread Hgo. unfold read_frame, with_state.
  destruct (read_loop _ _ _ _ _) as [r rest] eqn:Er. cbn [value trace final]. intros -> Hgo.
  apply read_loop_order in Er as [(a' & Ha') Hline]. assert (exists a, bytes = a +:+ sent_bytes rest) as Hrest.
  { exists (a +:+ a'). by rewrite Hs, Ha', str_app_assoc. }
  destruct read as [[line|]|signal]; [|done|].
  - apply run_bind_Ok in Hgo as (frame & Hframe & Hgo & _). cbn in Hframe. unfold invalid_data in Hframe. apply map_err_Ok in Hframe.
    apply run_bind_Ok in Hgo as ([] & _ & Hgo & _). apply run_bind_Ok in Hgo as ([] & _ & Hgo & _).
    rewrite render_frame_keeps in Hgo. assert (Forall (from_router bytes) (frames ++ [frame])) as Hall.
    { apply Forall_app. split; [done|]. apply Forall_singleton. destruct (Hline line eq_refl) as (x & y & Hxy). cbn [String.append] in Hxy.
      exists (a +:+ x), line, y. by rewrite Hs, Hxy, !str_app_assoc. }
    destruct (ends_exchange request stream frame); [|by apply IH in Hgo].
    apply run_bind_Ok in Hgo as ([] & _ & Hgo & _). revert Hgo.
    destruct (match stream_failure stream frame with Some _ => _ | None => _ end); [done|]. by intros [= <-].
  - apply run_bind_Ok in Hgo as ([] & _ & Hgo & _). apply run_bind_Ok in Hgo as ([] & _ & Hgo & _). apply IH in Hgo; [done| |done].
    by rewrite send_cancel_incoming.
Qed.

Definition received (frames : list JsonlFrame) (t : list (event csys)) : Prop :=
  exists arrivals, In (Event _ CIncoming arrivals) t /\ Forall (from_router (sent_bytes arrivals)) frames.

Lemma received_later frames t u : received frames u -> received frames (t ++ u).
Proof. intros (arrivals & Hin & Hf). exists arrivals. split; [apply in_or_app; by right|done]. Qed.
Lemma received_earlier frames t u : received frames t -> received frames (t ++ u).
Proof. intros (arrivals & Hin & Hf). exists arrivals. split; [apply in_or_app; by left|done]. Qed.

Lemma ensures_received_after {A} (m : ceff A) (k : A -> ceff (list JsonlFrame)) :
  (forall a, ensures (k a) (fun _ => received)) -> ensures (m ≫= k) (fun _ => received).
Proof. intros Hk. eapply (ensures_bind _ _ _ _ (fun _ _ _ => True)); [done|exact Hk|]. intros env a t b u _. apply received_later. Qed.

(** The frames an exchange returns were delivered to it. *)
Lemma exchange_received frame output : ensures (exchange frame output) (fun _ => received).
Proof.
  unfold exchange. apply ensures_received_after. intros [request stream]. do 6 (apply ensures_received_after; intros ?).
  intros env h s frames (incoming & Hi & Hgo & -> & _)%run_bind_Ok.
  apply run_bind_Ok in Hgo as ([] & _ & Hgo & _). injection Hi as <-. exists (env h _ CIncoming). split; [by left|].
  eapply exchange_loop_frames; [| |exact Hgo]; [by exists EmptyString|done].
Qed.

Definition proposal (provider : string) (payload : Value) : string :=
  "Exact payload proposed for " +:+ provider +:+ ":" +:+ EOL +:+ default EmptyString (ok (value_pretty payload)).

(** The user saw the payload and the question and then typed yes. *)
Definition consented (provider : string) (payload : Value) (t : list (event csys)) : Prop :=
  exists t1 t2 t3 t4 answer,
    t = t1 ++ [Event _ (CStderr (proposal provider payload +:+ EOL)) true]
        ++ t2 ++ [Event _ (CStderr CONSENT_QUESTION) true]
        ++ t3 ++ [Event _ CStdinLine (inr answer)] ++ t4 /\ trim answer = "yes"%string.

Lemma consented_later provider payload t u : consented provider payload t -> consented provider payload (t ++ u).
Proof.
  intros (t1 & t2 & t3 & t4 & answer & -> & Ha). exists t1, t2, t3, (t4 ++ u), answer. split; [|done].
  by rewrite <-!app_assoc.
Qed.

Lemma consented_earlier provider payload t u : consented provider payload u -> consented provider payload (t ++ u).
Proof.
  intros (t1 & t2 & t3 & t4 & answer & -> & Ha). exists (t ++ t1), t2, t3, t4, answer. split; [|done].
  by rewrite <-!app_assoc.
Qed.

Lemma eprint_ensures {E} text : ensures (eprint (E := E) text) (fun _ _ t => t = [Event _ (CStderr text) true]).
Proof. intros env h s a. unfold eprint, mbind, eff_bind, perform, lift. cbn. by destruct (env h bool (CStderr text)). Qed.

Lemma ctry_ensures {A} (c : csys (cio A)) : ensures (ctry c) (fun _ a t => t = [Event _ c (inr a)]).
Proof.
  intros env h s a. unfold ctry, mbind, eff_bind, perform, lift. cbn. destruct (env h (cio A) c) as [e|a']; cbn; [done|].
  by intros [= <-].
Qed.

Lemma confirm_preview_ensures provider payload redactions :
  ensures (confirm_preview provider payload redactions) (fun _ _ t => consented provider payload t).
Proof.
  unfold confirm_preview. eapply ensures_step; [apply eprint_ensures|]. intros [].
  eapply (ensures_step _ _ _ _ (fun _ _ _ => True)); [done|]. intros []. eapply ensures_step; [apply eprint_ensures|]. intros [].
  eapply ensures_step; [apply ctry_ensures|]. intros []. eapply ensures_step; [apply ctry_ensures|]. intros answer.
  intros env h s a Hf t4 -> t3 -> t2 -> t1 _ t0 ->. cbn in Hf. apply fail_if_Ok, negb_false_iff, String.eqb_eq in Hf.
  exists [], t1, [Event _ CFlushStderr (inr tt)], [], answer. done.
Qed.

(** The preview request of [ask_remote]: no token, for this machine only. *)
Definition preview_request (provider question : string) (request : RouterRequest) : Prop :=
  exists content, control_to_string (CrConsentPreview provider question [] None) = Ok content /\
    made IntentClassification LocalOnly None None CONTROL_MIME content request.

Definition preview_line (provider question : string) (bytes : string) : Prop :=
  exists frame text, request_frame (preview_request provider question) frame /\ frame_to_string frame = Ok text /\ bytes = text +:+ EOL.

(** The chat request of [ask_remote]: the user's question for the named provider with the
    router's token. *)
Definition remote_request (provider question : string) (token : ConsentToken) (request : RouterRequest) : Prop :=
  exists content, chat_to_string {| cc_question := question; cc_context := []; cc_max_tokens := None |} = Ok content /\
    made Inference AskBeforeRemote (Some provider) (Some token) CHAT_MIME content request.

Definition remote_line (provider question : string) (token : ConsentToken) (bytes : string) : Prop :=
  exists frame text, request_frame (remote_request provider question token) frame /\
    frame_to_string frame = Ok text /\ bytes = text +:+ EOL.

Definition any_cancel (bytes : string) : Prop := exists request stream, cancel_line request stream bytes.

(** A preview the router sent: the token and the payload belong together. *)
Definition previewed (token : ConsentToken) (payload : Value) (t : list (event csys)) : Prop :=
  exists frames provider redactions, received frames t /\
    control_response frames = Ok (Some (CpConsentPreview provider token payload redactions)).

Definition permitted_write (provider question : string) (before : list (event csys)) (e : event csys) : Prop :=
  match ev_call e with
  | CWriteAll bytes => preview_line provider question bytes \/ any_cancel bytes \/
      exists token payload t1 t2, before = t1 ++ t2 /\ previewed token payload t1 /\ consented provider payload t2 /\
        remote_line provider question token bytes
  | _ => True
  end.

Lemma permitted_write_monotone provider question : monotone (permitted_write provider question).
Proof.
  intros t before [A c r]. unfold permitted_write. cbn. destruct c; try done.
  intros [H|[H|(token & payload & t1 & t2 & -> & (frames & name & redactions & Hrec & Hresp) & Hc & Hr)]]; [by left|by right; left|right; right].
  exists token, payload, (t ++ t1), t2. rewrite app_assoc. split; [done|]. split; [|done].
  exists frames, name, redactions. split; [by apply received_later|done].
Qed.

Lemma guarded_aside provider question {A} (m : ceff A) : emits aside m -> guarded (permitted_write provider question) m.
Proof.
  apply guarded_emits. intros before [A' c r]. unfold aside, permitted_write. cbn. by destruct c.
Qed.

(** Also with a history behind it. *)
Lemma guarded_aside' provider question {A} (m : ceff A) (P : list (event csys) -> list (event csys)) :
  emits aside m -> guarded (fun before => permitted_write provider question (P before)) m.
Proof.
  apply guarded_emits. intros before [A' c r]. unfold aside, permitted_write. cbn. by destruct c.
Qed.

Lemma guarded_writes provider question permitted {A} (m : ceff A) :
  (forall bytes, permitted bytes -> preview_line provider question bytes \/ any_cancel bytes) ->
  emits (writes permitted) m -> guarded (permitted_write provider question) m.
Proof.
  intros Hi. apply guarded_emits. intros before [A' c r]. unfold writes, permitted_write. cbn. destruct c; try done.
  intros H. destruct (Hi _ H); auto.
Qed.

(** What the first part returns may be relied on. *)
Lemma guarded_yields P {A B} (m : ceff A) (k : A -> ceff B) (F : A -> Prop) :
  guarded P m -> yields m F -> (forall a t, F a -> guarded (fun before => P (t ++ before)) (k a)) -> guarded P (m ≫= k).
Proof.
  intros Hm HF Hk. eapply (guarded_bind _ _ _ (fun _ a _ => F a)); [done|by intros env h s a Ha; eapply HF|].
  intros env a t Ha. by apply Hk.
Qed.

(** C10 A request that may leave the machine is sent only with the user's consent.  In every
    environment, whatever [ask_remote] writes is the preview request for that provider and
    question, a cancel frame, or the user's question for the named provider with the token of a
    preview the router sent, after the payload of that same preview was shown to the user and
    the user typed yes. *)
Theorem remote_requests_need_consent provider question output :
  guarded (permitted_write provider question) (ask_remote provider question output).
Proof.
  unfold ask_remote. apply guarded_seq; [apply permitted_write_monotone|apply guarded_lift|]. intros _.
  eapply guarded_yields; [apply guarded_aside, make_control_request_aside|apply make_control_request_yields|].
  intros frame t (fid & stream & request & -> & Hmade).
  eapply guarded_mono; [intros before e; apply permitted_write_monotone|].
  eapply guarded_bind; [|apply exchange_received|].
  { eapply (guarded_writes _ _ (fun bytes => preview_line provider question bytes \/ any_cancel bytes)); [done|]. apply exchange_writes.
    - intros text Ht. left. exists (FRequest PROTOCOL_VERSION_V1 fid stream request), text. split; [|done].
      by exists fid, stream, request.
    - intros bytes Hb. right. by exists (rr_request_id request), stream. }
  intros env frames t1 Hrec. eapply guarded_bind; [apply guarded_lift|apply ensures_lift|]. intros env' preview t' [Hp ->]. cbn [app].
  eapply guarded_bind; [apply guarded_lift|apply ensures_lift|]. intros env'' response t'' [Hr ->]. cbn [app].
  apply ok_or_Ok in Hr as ->. destruct response as [| |name token payload redactions]; [apply guarded_lift..|].
  assert (previewed token payload t1) as Hpre by (by exists frames, name, redactions). clear env env' env'' Hrec Hp Hmade.
  eapply guarded_bind; [apply guarded_aside'|apply confirm_preview_ensures|].
  { unfold confirm_preview, ctry. by emits_tac. }
  intros env3 [] t3 Hc. eapply guarded_yields; [apply guarded_aside', make_chat_request_aside|apply make_chat_request_yields|].
  intros frame t4 (fid' & stream' & request' & -> & content' & Hcontent & Hmade).
  eapply (guarded_yields _ _ _ (fun _ => True)); [|done|intros; apply guarded_ret].
  eapply (guarded_emits _ (writes (fun bytes => remote_line provider question token bytes \/ any_cancel bytes))).
  { intros before [A c r]. unfold writes, permitted_write. cbn. destruct c; try done. intros [H|H]; [|by right; left].
    right; right. exists token, payload, t1, (t3 ++ t4 ++ before). split; [done|]. split; [done|]. split; [by apply consented_later|done]. }
  apply exchange_writes.
  - intros text Ht. left. exists (FRequest PROTOCOL_VERSION_V1 fid' stream' request'), text. split; [|done].
    exists fid', stream', request'. split; [done|]. by exists content'.
  - intros bytes Hb. right. by exists (rr_request_id request'), stream'.
Qed.
End consent.
