(* ===== verification/ClientRouter.v ===== *)
(** * The client against the router and the terminal

    What the client sends is what the router takes: every request it makes passes the
    router's checks and is decoded to what the user asked for, except that a patch that
    clears the preferred provider arrives empty.  The command the terminal suggests for a
    question is one the client refuses.  Concrete runs of the client follow. *)

From Stdlib Require Import Ascii String.
From S2P Require Import Prelude RustStr RustText Bounded Contract RouterContract ToolContract SocketContract Effects Monitor Framing RouterApi Chunks StreamState UiTerminal Client ClientSafety ClientExchange ClientConsent.

(** ** On the wire *)

(** The request asks to clear the preferred provider. *)
Definition clears (control : ControlRequest) : bool :=
  match control with
  | CrSettingsUpdate patch => match pa_preferred_remote_provider patch with Some None => true | _ => false end
  | _ => false
  end.

(** The patch without its word on the preferred provider. *)
Definition silent_on_provider (patch : SettingsPatch) : SettingsPatch :=
  {| pa_default_policy := pa_default_policy patch; pa_preferred_remote_provider := None;
     pa_remote_categories := pa_remote_categories patch |}.

(** The router parses what the client wrote.  [serde] writes both [None] and [Some(None)] of
    the preferred provider as null, and reads null as [None]. *)
Class SameWire `{J : ClientJson} (parse_chat : string -> result string ChatContent)
    (parse_control : string -> result string ControlRequest) : Prop := {
  chat_arrives : forall content text, chat_to_string content = Ok text -> parse_chat text = Ok content;
  control_arrives : forall control text, clears control = false -> control_to_string control = Ok text ->
    parse_control text = Ok control;
  clearing_arrives : forall patch text, clears (CrSettingsUpdate patch) = true ->
    control_to_string (CrSettingsUpdate patch) = Ok text -> parse_control text = Ok (CrSettingsUpdate (silent_on_provider patch));
}.

Section accepted.
Context `{J : ClientJson} (parse_chat : string -> result string ChatContent) (parse_control : string -> result string ControlRequest).
Context `{W : !SameWire parse_chat parse_control}.

(** The router takes the frame and decodes its request. *)
Definition taken (decoded : DecodedRequest -> Prop) (frame : JsonlFrame) : Prop :=
  validate_version frame = Ok tt /\
  exists version frame_id stream request d, frame = FRequest version frame_id stream request /\
    validate_router_request request = Ok tt /\ decode_request parse_chat parse_control request = Ok d /\ decoded d.

Lemma made_valid capability policy provider token mime content request :
  made capability policy provider token mime content request -> validate_router_request request = Ok tt.
Proof.
  intros [_ _ _ _ _ _ Hwhole [Hr Hs] Hv]. unfold validate_router_request. rewrite Hv. cbn. by rewrite Hr, Hs, Hwhole.
Qed.

Definition asked (question : string) (policy : RoutingPolicy) (provider : option string) (token : option ConsentToken) (d : DecodedRequest) : Prop :=
  exists input, d = DChat input /\ in_question input = question /\ in_policy input = policy /\ in_provider input = provider /\
    in_consent_token input = token /\ in_context input = [] /\ in_max_tokens input = None.

Lemma chat_taken question policy provider token :
  yields (make_chat_request question policy provider token) (taken (asked question policy provider token)).
Proof.
  intros env h s frame Hf. apply make_chat_request_yields in Hf as (fid & stream & request & -> & content & Hc & Hm).
  split; [done|]. pose proof (made_valid _ _ _ _ _ _ _ Hm) as Hvalid. destruct Hm as [Hcap Hpol Hprov Htok Hmime Hcontent _ _ _].
  do 5 eexists. split; [done|]. split; [done|]. split.
  { unfold decode_request. rewrite Hcap, Hmime, Hcontent, (chat_arrives _ _ Hc). reflexivity. }
  eexists. split; [done|]. cbn. by rewrite Hprov.
Qed.

Lemma control_taken capability control decoded : capability <> Inference ->
  (forall text, control_to_string control = Ok text -> parse_control text = Ok decoded) ->
  yields (make_control_request capability control) (taken (eq (DControl decoded))).
Proof.
  intros Hne Harrives env h s frame Hf. apply make_control_request_yields in Hf as (fid & stream & request & -> & content & Hc & Hm).
  split; [done|]. pose proof (made_valid _ _ _ _ _ _ _ Hm) as Hvalid. destruct Hm as [Hcap Hpol Hprov Htok Hmime Hcontent _ _ _].
  do 5 eexists. split; [done|]. split; [done|]. split; [|done].
  unfold decode_request. rewrite Hcap, bool_decide_eq_false_2, Hmime, Hcontent by done. cbn. by rewrite (Harrives _ Hc).
Qed.

(** C14 The router takes every request the client makes: the frame has the version it
    requires, the request passes its validation, and it is decoded to the question, the
    policy, the provider and the token the client was given, or to the very control request
    the client was given; with one exception, a patch that clears the preferred provider,
    which is decoded to a patch that is silent on the provider, so that applied to any
    settings it keeps the preferred provider they have. *)
Theorem client_requests_are_taken :
  (forall question policy provider token, yields (make_chat_request question policy provider token)
     (taken (asked question policy provider token))) /\
  (forall control, clears control = false ->
     yields (make_control_request IntentClassification control) (taken (eq (DControl control)))) /\
  (forall patch, clears (CrSettingsUpdate patch) = true ->
     yields (make_control_request IntentClassification (CrSettingsUpdate patch))
       (taken (eq (DControl (CrSettingsUpdate (silent_on_provider patch))))) /\
     forall current settings, apply_patch current (silent_on_provider patch) = Ok settings ->
       us_preferred_remote_provider settings = us_preferred_remote_provider current) /\
  yields (make_control_request HealthCap CrStatus) (taken (eq (DControl CrStatus))).
Proof.
  split; [apply chat_taken|]. split; [|split].
  - intros control Hc. apply control_taken; [done|]. intros text. by apply control_arrives.
  - intros patch Hc. split; [|by intros current settings [= <-]].
    apply control_taken; [done|]. intros text. by apply clearing_arrives.
  - apply control_taken; [done|]. intros text. by apply control_arrives.
Qed.

(** The preferred provider cannot be cleared.  The request of [ai settings provider none]
    is decoded by the router to a patch that leaves every settings record as it is. *)
Theorem provider_is_never_cleared current output :
  run {| op_output := output; op_command := CmdSettingsProvider None |} = update_settings (provider_patch None) output /\
  yields (make_control_request IntentClassification (CrSettingsUpdate (provider_patch None)))
    (taken (fun d => exists patch, d = DControl (CrSettingsUpdate patch) /\ apply_patch current patch = Ok current)).
Proof.
  split; [done|]. intros env h s frame Hf. 
  eapply (control_taken _ _ (CrSettingsUpdate (silent_on_provider (provider_patch None)))) in Hf
    as (Hv & version & fid & stream & request & d & Hfr & Hval & Hd & <-); [|done|intros text; by apply clearing_arrives].
  split; [done|]. do 5 eexists. split; [exact Hfr|]. split; [exact Hval|]. split; [exact Hd|].
  eexists. split; [done|]. by destruct current.
Qed.
End accepted.

(** ** The suggested command *)

Lemma double_dash_refused rest env h s :
  parse_args ("--"%string :: rest) env h s = Outcome [] s (Err "unknown option: --"%string).
Proof.
  unfold parse_args. cbn [remove_json]. change (String.eqb "--" "--json") with false. cbn iota.
  by destruct (remove_json rest).
Qed.

Section suggested.
Context `{J : ClientJson} (env : environment csys) (Hw : working env).

(** C27 The terminal suggests a command that does not work.  For every line it takes for a
    question, a shell reads its hint as the program [ai] with the whole line as one argument
    after a double dash, and the client refuses exactly these arguments: it sends nothing,
    prints that the option is unknown and exits with status 2. *)
Theorem suggested_command_is_refused line config r h s :
  classify_command_line (E := Empty_set) line config = Ok r -> nf_class r = NaturalLanguage ->
  exists hint args, nf_ai_hint r = Some hint /\ sh_words hint = Some ("ai"%string :: args) /\ args = ["--"%string; trim line] /\
    value (main_on args env h s) = Ok 2 /\
    trace (main_on args env h s) = [Event _ (CStderr ("ai: unknown option: --" +:+ EOL)) true].
Proof.
  intros Hr Hc. destruct (classified_line (E := Empty_set) line config) as (r' & Hr' & _ & Hclass). assert (r' = r) as -> by congruence.
  rewrite Hc in Hclass. destruct Hclass as (_ & _ & _ & Hh). exists ("ai -- " +:+ shell_quote (trim line)), ["--"%string; trim line].
  split; [done|]. split; [apply sh_words_quote|]. split; [done|].
  unfold main_on, mbind, eff_bind, attempt. rewrite double_dash_refused. unfold eprintln, eprint, mbind, eff_bind, perform, lift.
  cbn. by rewrite (wk_stderr env Hw).
Qed.
End suggested.

(** * The client's theorems at concrete inputs

    A small codec, a quiet terminal and a router that answers one chat. *)

Definition demo_client_request : RouterRequest := {|
  rr_version := bstr "sentia.v1"; rr_request_id := bstr "request-1"; rr_session_id := bstr "session-1";
  rr_created_at_ms := 1000; rr_capability := Inference; rr_policy := LocalOnly; rr_provider_id := None;
  rr_provenance := {| dp_source := UserInput; dp_sensitivity := Internal; dp_redaction_applied := false;
                      dp_origin_label := bstr "ai-cli"; dp_trace_id := None |};
  rr_payload := {| rp_mime_type := bstr "text/plain"; rp_content := bstr "hello"; rp_byte_count := 5; rp_truncated := false |};
  rr_consent_token := None |}.

Definition demo_stream_id : StreamId := bstr "stream-1".
Definition demo_delta : JsonlFrame := FEvent PROTOCOL_VERSION_V1 (bstr "frame-1") demo_stream_id
  {| sv_event_id := bstr "event-1"; sv_request_id := bstr "request-1"; sv_sequence := 1; sv_status := RunningLocal;
     sv_emitted_at_ms := 1000; sv_payload := EpOutputDelta (bstr "Hi") 2 |}.
Definition demo_result : JsonlFrame := FResult PROTOCOL_VERSION_V1 (bstr "frame-2") demo_stream_id
  {| rs_version := bstr "sentia.v1"; rs_request_id := bstr "request-1"; rs_status := Completed; rs_provider_status := None;
     rs_payload := None; rs_error := None; rs_metrics := [] |}.

(** A codec of single words. *)
Definition demo_frame_of (line : string) : result string JsonlFrame :=
  if String.eqb line "delta" then Ok demo_delta else if String.eqb line "result" then Ok demo_result else Err "expected value"%string.
Definition demo_chat_text (content : ChatContent) : result string string :=
  match content with
  | {| cc_question := question; cc_context := []; cc_max_tokens := None |} => Ok question
  | _ => Err "unsupported"%string
  end.
Definition demo_control_text (control : ControlRequest) : result string string :=
  match control with
  | CrStatus => Ok "status"%string
  | CrSettingsUpdate {| pa_default_policy := None; pa_preferred_remote_provider := Some None; pa_remote_categories := None |} => Ok "clear"%string
  | _ => Err "unsupported"%string
  end.
Definition demo_parse_chat (text : string) : result string ChatContent :=
  Ok {| cc_question := text; cc_context := []; cc_max_tokens := None |}.
Definition demo_parse_control (text : string) : result string ControlRequest :=
  if String.eqb text "status" then Ok CrStatus
  else Ok (CrSettingsUpdate {| pa_default_policy := None; pa_preferred_remote_provider := None; pa_remote_categories := None |}).

#[global] Instance demo_client_json : ClientJson := {|
  frame_to_string := fun _ => Ok "request"%string; frame_from_slice := demo_frame_of;
  chat_to_string := demo_chat_text; control_to_string := demo_control_text;
  response_from_str := fun _ => Err "expected value"%string;
  value_pretty := fun _ => Ok "{}"%string; settings_pretty := fun _ => Ok "{}"%string |}.

#[global] Instance demo_client_calm : CalmJson.
Proof.
  split; intros x; cbn; try done.
  - unfold demo_frame_of. by destruct (String.eqb x "delta"), (String.eqb x "result").
  - by destruct x as [question [|] [|]].
  - by destruct x as [| |[[|] [[|]|] [|]]|].
Qed.

#[global] Instance demo_same_wire : SameWire demo_parse_chat demo_parse_control.
Proof.
  split.
  - by intros [question [|] [|]] text [= <-].
  - by intros [| |[[|] [[|]|] [|]]|] text Hc [= <-].
  - by intros [[|] [[|]|] [|]] text Hc [= <-].
Qed.

(** The calls of the client, with what the connection will deliver. *)
Definition demo_client_env (incoming : list Arrival) : environment csys := fun h A c =>
  match c with
  | CStdinAll => inr EmptyString
  | CStdinLine => inr "yes"%string
  | CStdout _ | CStderr _ => true
  | CFlushStdout | CFlushStderr => inr tt
  | CVarOs name => if String.eqb name "SENTIA_ROUTER_SOCKET" then Some "/run/user/1000/sentia/router.sock"%string else None
  | CProcessId => 7
  | CUnixMs => 1000
  | CEuid => 1000
  | CInstantMs => client_clock h
  | CSleepMs _ => tt
  | CLstat _ => inr {| sm_is_socket := true; sm_uid := 1000; sm_mode := 49536 |}
  | CConnect _ => inr tt
  | CPeerUid => inr 1000
  | CWriteAll _ => inr tt
  | CIncoming => incoming
  end.

Lemma demo_client_works incoming : working (demo_client_env incoming).
Proof. by split. Qed.

Definition demo_pieces : list string := ["del"; "ta" +:+ EOL +:+ "res"; "ult" +:+ EOL]%string.
Definition demo_exchange (output : OutputMode) (incoming : list Arrival) :=
  exchange (FRequest PROTOCOL_VERSION_V1 (bstr "frame-0") demo_stream_id demo_client_request) output (demo_client_env incoming) [] Client_start.

(** ** Witnesses *)

Lemma client_talks_to_its_own_router_witness :
  exists q, steps (link_step ("request" +:+ EOL)) Unlinked (trace (demo_exchange Human (ABytes <$> demo_pieces))) = Some q /\ past_request q.
Proof.
  destruct (client_talks_to_its_own_router (J := demo_client_json) PROTOCOL_VERSION_V1 (bstr "frame-0") demo_stream_id demo_client_request Human "request"
    (demo_client_env (ABytes <$> demo_pieces)) [] Client_start eq_refl) as (q & Hs & Hq & _).
  exists q. split; [exact Hs|]. apply Hq. vm_compute. reflexivity.
Defined.

Definition demo_status : list string := ["ai"; "status"]%string.
Definition demo_status_parsed := parse_args (drop 1 demo_status) (demo_client_env []) [] Client_start.
Definition demo_status_run := run {| op_command := CmdStatus; op_output := Human |} (demo_client_env []) ([] ++ trace demo_status_parsed) (final demo_status_parsed).

Lemma client_always_exits_witness :
  let o := main demo_status (demo_client_env []) [] Client_start in
  value o = Ok 2 /\ trace o = trace demo_status_parsed ++ trace demo_status_run
    ++ [Event _ (CStderr ("ai: router closed before completing the request" +:+ EOL)) true].
Proof.
  assert (forall h, ASilence ∉ demo_client_env [] h _ CIncoming) as Hends by (intros h; apply not_elem_of_nil).
  pose proof (client_always_exits (demo_client_env []) (demo_client_works []) Hends demo_status [] Client_start) as H.
  fold demo_status_parsed in H. cbn zeta in H.
  assert (forallb valid_utf8 demo_status = true) as E by (vm_compute; reflexivity). rewrite E in H. clear E.
  assert (value demo_status_parsed = Ok {| op_command := CmdStatus; op_output := Human |}) as E by (vm_compute; reflexivity).
  rewrite E in H. clear E. fold demo_status_run in H.
  assert (value demo_status_run = Err (MkError KUnexpectedEof "router closed before completing the request")) as E by (vm_compute; reflexivity).
  rewrite E in H. exact H.
Defined.

Lemma exchange_returns_the_stream_witness :
  value (demo_exchange Human (ABytes <$> demo_pieces)) = Ok [demo_delta; demo_result] /\
  stdout_text (trace (demo_exchange Human (ABytes <$> demo_pieces))) = "Hi" +:+ EOL.
Proof.
  unfold demo_exchange.
  destruct (exchange_returns_the_stream (demo_client_env (ABytes <$> demo_pieces)) (demo_client_works _) (fun _ => eq_refl)
    PROTOCOL_VERSION_V1 (bstr "frame-0") demo_stream_id demo_client_request Human ["delta"; "result"]%string [demo_delta; demo_result]
    ["Hi"; ""]%string demo_pieces EmptyString [] Client_start) as [Hv Ht].
  - apply StreamMore; [by split|reflexivity|]. apply StreamEnd; [by split|reflexivity].
  - reflexivity.
  - repeat constructor.
  - reflexivity.
  - done.
  - exists (ABytes <$> demo_pieces). vm_compute. repeat (first [left; reflexivity|right]).
  - split; [rewrite Hv; reflexivity|rewrite Ht; reflexivity].
Defined.

Lemma client_requests_are_taken_witness : exists frame,
  value (make_chat_request "hello" LocalOnly None None (demo_client_env []) [] Client_start) = Ok frame /\
  taken demo_parse_chat demo_parse_control (asked "hello" LocalOnly None None) frame.
Proof.
  eexists. split; [vm_compute; reflexivity|].
  apply (proj1 (client_requests_are_taken demo_parse_chat demo_parse_control) "hello"%string LocalOnly None None (demo_client_env []) [] Client_start).
  vm_compute. reflexivity.
Defined.

Lemma provider_is_never_cleared_witness : exists frame,
  value (make_control_request IntentClassification (CrSettingsUpdate (provider_patch None)) (demo_client_env []) [] Client_start) = Ok frame /\
  taken demo_parse_chat demo_parse_control
    (fun d => exists patch, d = DControl (CrSettingsUpdate patch) /\ apply_patch UserSettings_default patch = Ok UserSettings_default) frame.
Proof.
  eexists. split; [vm_compute; reflexivity|].
  apply (proj2 (provider_is_never_cleared demo_parse_chat demo_parse_control UserSettings_default Human) (demo_client_env []) [] Client_start).
  vm_compute. reflexivity.
Defined.

Definition demo_classifier : ClassifierConfig :=
  {| max_typo_distance := 1; executable_catalog := {["ls"%string; "grep"%string]}; package_index := None |}.

Lemma suggested_command_is_refused_witness : exists hint args, hint = "ai -- 'how do I list files?'"%string /\
  sh_words hint = Some ("ai"%string :: args) /\ value (main_on args (demo_client_env []) [] Client_start) = Ok 2.
Proof.
  destruct (suggested_command_is_refused (demo_client_env []) (demo_client_works []) "how do I list files?" demo_classifier
    (not_found NaturalLanguage "how" None [] (Some "ai -- 'how do I list files?'"%string)) [] Client_start)
    as (hint & args & Hh & Hw & _ & Hv & _); [vm_compute; reflexivity|reflexivity|].
  exists hint, args. split; [by injection Hh as <-|]. by split.
Defined.

(** ** An interrupt in the middle of a line *)

(** The part of the line already read is dropped, so the frame that was on its way is lost and
    the exchange fails; without the interrupt the same bytes are a complete stream. *)
Example interrupt_loses_the_line :
  value (demo_exchange Silent (ABytes <$> demo_pieces)) = Ok [demo_delta; demo_result] /\
  value (demo_exchange Silent (ABytes "del" :: ACtrlC (inr tt) :: (ABytes <$> drop 1 demo_pieces)))
    = Err (MkError KInvalidData "expected value").
Proof. split; vm_compute; reflexivity. Qed.
