(* ===== verification/ChatDelivery.v ===== *)
(** * From the answer of a provider to the terminal

    The composition of the chat of the router, the server that frames its events, the
    connection and the client: what the client of a chat prints and returns is what the
    providers answered. *)

From Stdlib Require Import Ascii String.
From S2P Require Import Prelude RustStr Bounded Contract RouterContract SocketContract Effects Monitor Framing RouterApi Privacy BrokerProtocol RouterTools Providers Router RouterStream StreamState ClientStream Connection RouterConnection RouterRequests Client ClientSafety ClientExchange ClientRouter.

(** ** The outcome of a chat *)

(** Either one answer is complete and no error was sent, or one error and no answer. *)
Definition one_outcome (events : list InternalEvent) : Prop :=
  existsb is_complete_answer events = true /\ events_errors events = [] \/
  existsb is_complete_answer events = false /\ exists message, events_errors events = [message].

Lemma events_errors_cons e events : events_errors (e :: events) = event_error e ++ events_errors events.
Proof. done. Qed.

Lemma follow_outcome request_id q events :
  follow request_id q events = Some Closed ->
  match q with
  | Closing | Closed => existsb is_complete_answer events = false /\ events_errors events = []
  | _ => one_outcome events
  end.
Proof.
  revert q. induction events as [|e events IH]; intros q; cbn [follow]; [by intros [= ->]|].
  destruct (String.eqb _ _); [|done]. intros Hf. destruct (stream_step q e) as [q'|] eqn:Hs; [|done].
  cbn in Hf. specialize (IH q' Hf). unfold one_outcome in *. rewrite events_errors_cons. cbn [existsb].
  destruct q, e; try done; cbn [stream_step event_error is_complete_answer orb negb app] in *; repeat case_match;
    simplify_eq; cbn [orb negb]; try exact IH; destruct IH as [Hc ->]; rewrite ?Hc; eauto.
Qed.

(** ** What the providers answered *)

Definition chunk_text (chunk : ProviderChunk) : string := match chunk with ChunkText content => content | _ => EmptyString end.
Definition chunks_text (chunks : list ProviderChunk) : string := sconcat (chunk_text <$> chunks).

(** The text of a run of a provider: the chunks it delivered before it ended and, when it
    ended well, those still in its channel. *)
Definition run_text (run : ChatRun) : string :=
  chunks_text (run_chunks run) +:+ match run_end run with EndReturned (Ok _) => chunks_text (run_left run) | _ => EmptyString end.

(** It ended well and asked for no tool. *)
Definition run_completes (run : ChatRun) : bool :=
  match run_end run with EndReturned (Ok output) => match po_tool_calls output with [] => true | _ => false end | _ => false end.

Definition run_of (e : event router_io) : list ChatRun :=
  match ev_call e in router_io A return A -> list ChatRun with
  | ProviderChat _ _ => fun run => [run]
  | _ => fun _ => []
  end (ev_reply e).

(** The runs of the providers in a chat, all their text, and whether the last one ended
    well with an answer. *)
Definition provider_runs (t : list (event router_io)) : list ChatRun := t ≫= run_of.
Definition provider_text (t : list (event router_io)) : string := sconcat (run_text <$> provider_runs t).
Definition completed_from (b : bool) (t : list (event router_io)) : bool :=
  fold_left (fun _ run => run_completes run) (provider_runs t) b.
Definition provider_completed : list (event router_io) -> bool := completed_from false.

Lemma provider_runs_app t u : provider_runs (t ++ u) = provider_runs t ++ provider_runs u.
Proof. apply bind_app. Qed.

(** The events sent in [t] carry the text of its runs; [c]: a complete answer was announced;
    [b], [b']: the last run before and after it ended well with an answer. *)
Record account (t : list (event router_io)) (b c b' : bool) : Prop := {
  ac_text : events_text (sends t) = provider_text t;
  ac_complete : existsb is_complete_answer (sends t) = c;
  ac_completed : completed_from b t = b';
}.

Lemma account_app t u b c b' c' b'' : account t b c b' -> account u b' c' b'' -> account (t ++ u) b (c || c') b''.
Proof.
  intros [H1 <- <-] [G1 <- <-]. split; unfold events_text, provider_text, completed_from in *.
  - by rewrite sends_app, provider_runs_app, !fmap_app, !sconcat_app, H1, G1.
  - by rewrite sends_app, existsb_app.
  - by rewrite provider_runs_app, fold_left_app.
Qed.

Lemma account_nil b : account [] b false b.
Proof. done. Qed.

(** A call that neither runs a provider nor sends a text or a complete answer. *)
Definition aside (e : event router_io) : Prop := forall b, account [e] b false b.

Lemma account_aside t b : Forall aside t -> account t b false b.
Proof.
  intros Ht. induction Ht as [|e t He _ IH]; [apply account_nil|]. exact (account_app [e] t b false b false b (He b) IH).
Qed.

Lemma send_aside {E} e : event_text e = EmptyString -> is_complete_answer e = false ->
  emits aside (send (E := E) e).
Proof.
  intros Ht Hc. apply emits_perform. intros r b. split; [|cbn; by rewrite Hc|done].
  unfold events_text. cbn. by rewrite Ht.
Qed.

Lemma ask_aside {E A} (c : router_io A) : (forall r, sent_of (Event A c r) = [] /\ run_of (Event A c r) = []) ->
  emits aside (perform (S := unit) (E := E) c).
Proof.
  intros Hc. apply emits_perform. intros r b. destruct (Hc r) as [Hs Hr].
  split; unfold events_text, provider_text, completed_from, provider_runs, sends; cbn; by rewrite ?Hs, ?Hr.
Qed.

(** Every run that returns, with a value or an error, accounts for [b], [c] and [b'] so. *)
Definition accounts {E A} (b : bool) (m : reff E A) (F : result E A -> bool * bool) : Prop :=
  forall env h s, match value (m env h s) with Panic => True | r => account (trace (m env h s)) b (F r).1 (F r).2 end.

Lemma accounts_lift {E A} b (r : result E A) F : (r <> Panic -> F r = (false, b)) -> accounts b (lift r) F.
Proof. intros HF env h s. cbn. destruct r; try done; rewrite HF by done; apply account_nil. Qed.

Lemma accounts_aside {E A} b (m : reff E A) F : emits aside m -> (forall r, F r = (false, b)) -> accounts b m F.
Proof.
  intros Hm HF env h s. specialize (Hm env h s). cbn zeta.
  destruct (value (m env h s)); try done; rewrite HF; by apply account_aside.
Qed.

Lemma accounts_bind {E A B} b (m : reff E A) (k : A -> reff E B) F G :
  accounts b m F -> (forall a, (F (Ok a)).1 = false) -> (forall a, accounts (F (Ok a)).2 (k a) G) ->
  (forall e, F (Err e) = G (Err e)) -> accounts b (m ≫= k) G.
Proof.
  intros Hm Hno Hk He env h s. specialize (Hm env h s). unfold mbind, eff_bind.
  destruct (value (m env h s)) as [a|e|]; cbn in *; [|by rewrite <-He|done].
  specialize (Hk a env (h ++ trace (m env h s)) (final (m env h s))). specialize (Hno a).
  destruct (F (Ok a)) as [c b']. cbn in *. subst c.
  destruct (value (k a _ _ _)); cbn in *; try done; exact (account_app _ _ _ false _ _ _ Hm Hk).
Qed.

Lemma accounts_after {E A B} b (m : reff E A) (k : A -> reff E B) G :
  emits aside m -> (forall a, accounts b (k a) G) -> (forall e, G (Err e) = (false, b)) -> accounts b (m ≫= k) G.
Proof.
  intros Hm Hk He. apply (accounts_bind _ _ _ (fun _ => (false, b))); [by apply accounts_aside|done|exact Hk|by intros e; rewrite He].
Qed.

(** What follows changes nothing any more. *)
Lemma accounts_then {E A B} b (m : reff E A) (k : A -> reff E B) F G :
  accounts b m F -> (forall a, emits aside (k a)) -> (forall a r, r <> Panic -> G r = F (Ok a)) -> (forall e, F (Err e) = G (Err e)) ->
  accounts b (m ≫= k) G.
Proof.
  intros Hm Hk Hok He env h s. specialize (Hm env h s). unfold mbind, eff_bind.
  destruct (value (m env h s)) as [a|e|]; cbn in *; [|by rewrite <-He|done].
  pose proof (account_aside _ (F (Ok a)).2 (Hk a env (h ++ trace (m env h s)) (final (m env h s)))) as Hu.
  pose proof (account_app _ _ _ _ _ _ _ Hm Hu) as Hall. rewrite orb_false_r in Hall.
  destruct (value (k a _ _ _)) eqn:Hv; cbn in *; try done; by rewrite (Hok a).
Qed.

Lemma accounts_attempt {E F' A} b (m : reff E A) F :
  accounts b m F -> accounts b (attempt (F := F') m) (fun r => match r with Ok r => F r | _ => (false, b) end).
Proof.
  intros Hm env h s. specialize (Hm env h s). unfold attempt. destruct (value (m env h s)); cbn in *; done.
Qed.

(** The computation accounts for its runs, and a complete answer was announced exactly when
    the last run ended well with an answer. *)
Definition balanced {E A} (m : reff E A) : Prop :=
  forall env h s, match value (m env h s) with Panic => True | _ => exists c, account (trace (m env h s)) false c c end.

Lemma balanced_aside {E A} (m : reff E A) : emits aside m -> balanced m.
Proof.
  intros Hm env h s. specialize (Hm env h s). destruct (value (m env h s)); try done; exists false; by apply account_aside.
Qed.

Lemma balanced_bind {A B} (m : reff Never A) (k : A -> reff Never B) (c : A -> bool) :
  accounts false m (fun r => match r with Ok a => (c a, c a) | _ => (false, false) end) ->
  (forall a, c a = true -> emits aside (k a)) -> (forall a, c a = false -> balanced (k a)) -> balanced (m ≫= k).
Proof.
  intros Hm Hend Hk env h s. specialize (Hm env h s). unfold mbind, eff_bind.
  destruct (value (m env h s)) as [a|e|]; cbn in *; [|destruct e|done]. set (h' := h ++ _). set (s' := final _).
  destruct (c a) eqn:Hc.
  - pose proof (account_app _ _ _ _ _ _ _ Hm (account_aside _ true (Hend a Hc env h' s'))) as Hall.
    destruct (value (k a env h' s')); try done; by exists true.
  - specialize (Hk a Hc env h' s'). destruct (value (k a env h' s')); try done; destruct Hk as [c' Hk]; exists c';
      exact (account_app _ _ _ _ _ _ _ Hm Hk).
Qed.

Lemma balanced_after {A B} (m : reff Never A) (k : A -> reff Never B) :
  emits aside m -> (forall a, (exists env h s, value (m env h s) = Ok a) -> balanced (k a)) -> balanced (m ≫= k).
Proof.
  intros Hm Hk env h s. specialize (Hm env h s). unfold mbind, eff_bind.
  destruct (value (m env h s)) as [a|e|] eqn:Hv; cbn; [|destruct e|done].
  assert (exists env h s, value (m env h s) = Ok a) as Ha by eauto.
  specialize (Hk a Ha env (h ++ trace (m env h s)) (final (m env h s))).
  destruct (value (k a _ _ _)); try done; destruct Hk as [c Hk]; exists c;
    exact (account_app _ _ _ _ _ _ _ (account_aside _ false Hm) Hk).
Qed.

(** ** The chat accounts for its providers *)

Section answering.
Context `{C : PrivacyCrypto} (config : RuntimeConfig) (providers : ProviderRegistry)
  (hash_order : list string -> list string) (from_str : string -> result string Value).

(** Events sent outside a run: their text. *)
Definition says (text : string) (t : list (event router_io)) : Prop :=
  events_text (sends t) = text /\ existsb is_complete_answer (sends t) = false /\ provider_runs t = [].

Lemma says_app text text' t u : says text t -> says text' u -> says (text +:+ text') (t ++ u).
Proof.
  intros (H1 & H2 & H3) (G1 & G2 & G3). unfold says, events_text in *.
  by rewrite sends_app, provider_runs_app, fmap_app, sconcat_app, existsb_app, H1, H2, H3, G1, G2, G3.
Qed.

(** A loop over chunks sends their text. *)
Lemma for_chunks_says f chunks env h s :
  (forall chunk h, exists t, f chunk env h s = Outcome t s (Ok tt) /\ says (chunk_text chunk) t) ->
  exists t, for_chunks f chunks env h s = Outcome t s (Ok tt) /\ says (chunks_text chunks) t.
Proof.
  intros Hf. revert h. induction chunks as [|chunk chunks IH]; intros h; cbn [for_chunks]; [by exists []|].
  destruct (Hf chunk h) as (t & Ht & Hs). destruct (IH (h ++ t)) as (u & Hu & Hs').
  exists (t ++ u). unfold mbind, eff_bind. rewrite Ht. cbn [value trace final]. rewrite Hu.
  split; [done|]. by apply says_app.
Qed.

Lemma send_says {E} e env h s : exists t, send (E := E) e env h s = Outcome t s (Ok tt) /\
  (is_complete_answer e = false -> says (event_text e) t).
Proof.
  unfold send, perform. destruct (env h unit (Send e)). eexists. split; [done|]. intros Hc.
  unfold says, events_text. cbn. by rewrite Hc, app_empty_r.
Qed.

Lemma send_chunk_says request_id answer_id chunk env h s :
  exists t, send_chunk request_id answer_id chunk env h s = Outcome t s (Ok tt) /\ says (chunk_text chunk) t.
Proof.
  destruct chunk; cbn [send_chunk];
    match goal with |- context [send ?e] => destruct (send_says (E := ProviderError) e env h s) as (t & Ht & Hs) end;
    exists t; (split; [done|]); by apply Hs.
Qed.

Lemma drain_chunk_says request_id answer_id chunk env h s :
  exists t, drain_chunk request_id answer_id chunk env h s = Outcome t s (Ok tt) /\ says (chunk_text chunk) t.
Proof.
  destruct chunk; cbn [drain_chunk]; [by exists []|].
  match goal with |- context [send ?e] => destruct (send_says (E := ProviderError) e env h s) as (t & Ht & Hs) end.
  exists t. split; [done|]. by apply Hs.
Qed.

(** A run followed by its text. *)
Lemma run_account provider request run t b :
  says (run_text run) t -> account (Event _ (ProviderChat provider request) run :: t) b false (run_completes run).
Proof.
  intros (Ht & Hc & Hr). unfold provider_runs in Hr.
  split; unfold provider_text, completed_from, provider_runs; cbn [mbind list_bind run_of ev_call ev_reply app fmap list_fmap sconcat fold_left].
  - change (events_text (sends t) = run_text run +:+ sconcat (run_text <$> t ≫= run_of)). by rewrite Hr, Ht, app_empty_r.
  - exact Hc.
  - change (fold_left (fun _ run => run_completes run) (t ≫= run_of) (run_completes run) = run_completes run). by rewrite Hr.
Qed.

Definition asks_nothing (output : ProviderOutput) : bool := match po_tool_calls output with [] => true | _ => false end.

Lemma run_provider_accounts b provider request_id answer_id request :
  accounts b (run_provider provider request_id answer_id request)
    (fun r => (false, match r with Ok output => asks_nothing output | _ => false end)).
Proof.
  intros env h s. unfold run_provider, mbind, eff_bind, perform, lift. cbn [value trace final fst snd].
  set (run := env h ChatRun (ProviderChat provider request)).
  match goal with |- context [for_chunks (send_chunk ?a ?b) ?c env ?h' s] =>
    destruct (for_chunks_says (send_chunk a b) c env h' s (fun chunk h => send_chunk_says a b chunk env h s)) as (t & -> & Ht) end.
  cbn [value trace final]. destruct (run_end run) as [|error|[output|error|]] eqn:Hend; cbn [value trace final app]; try done.
  1-2: rewrite app_nil_r; pose proof (run_account provider request run t b) as Ha; unfold run_completes, run_text in Ha;
    rewrite Hend, app_empty_r in Ha; by apply Ha.
  2: { rewrite app_nil_r; pose proof (run_account provider request run t b) as Ha; unfold run_completes, run_text in Ha;
    rewrite Hend, app_empty_r in Ha; by apply Ha. }
  match goal with |- context [for_chunks (drain_chunk ?a ?b) ?c env ?h' s] =>
    destruct (for_chunks_says (drain_chunk a b) c env h' s (fun chunk h => drain_chunk_says a b chunk env h s)) as (u & -> & Hu) end.
  cbn [value trace final app mret eff_ret]. rewrite app_nil_r.
  pose proof (run_account provider request run (t ++ u) b) as Ha. unfold run_completes, run_text in Ha. rewrite Hend in Ha.
  apply Ha. by apply says_app.
Qed.

Lemma handle_calls_aside definitions request_id calls messages seen :
  emits aside (handle_calls hash_order from_str definitions request_id calls messages seen).
Proof.
  revert messages seen. induction calls as [|call calls IH]; intros messages seen; cbn [handle_calls]; [apply emits_ret|].
  unfold validate_and_invoke. destruct (bool_decide _).
  - apply emits_bind; [by apply send_aside|done].
  - apply emits_bind.
    + destruct (validate_call _ _ _ _ _); [|apply emits_ret|apply emits_lift].
      apply emits_bind; [by apply ask_aside|intros; apply emits_ret].
    + intros [seen' [result|error|]]; [|done|apply emits_lift]. apply emits_bind; [by apply send_aside|done].
Qed.

Definition ended_well {E A} (r : result E A) : bool * bool := (false, match r with Ok _ => true | _ => false end).

Lemma agent_rounds_accounts fuel round provider request_id answer_id definitions messages max_tokens boundary seen :
  accounts false (agent_rounds hash_order from_str fuel round provider request_id answer_id definitions messages
    max_tokens boundary seen) ended_well.
Proof.
  revert round messages seen. induction fuel as [|fuel IH]; intros round messages seen; cbn [agent_rounds]; [by apply accounts_lift|].
  eapply accounts_bind; [apply run_provider_accounts|done| |done]. intros output. cbn [snd]. unfold asks_nothing.
  destruct (po_tool_calls output); [by apply (accounts_lift true (Ok _))|].
  apply accounts_after; [apply handle_calls_aside|intros [m s]; apply IH|done].
Qed.

Lemma run_agent_loop_accounts provider request_id answer_id messages max_tokens boundary :
  accounts false (run_agent_loop config hash_order from_str provider request_id answer_id messages max_tokens boundary) ended_well.
Proof.
  unfold run_agent_loop. apply accounts_after; [|intros; apply agent_rounds_accounts|done].
  destruct (pv_is_local provider); [by apply ask_aside|apply emits_ret].
Qed.

Lemma announce_aside request_id provider last_error : emits aside (announce request_id provider last_error).
Proof.
  unfold announce. destruct last_error; [|by apply send_aside]. destruct (pv_is_local provider); [|apply emits_ret].
  apply emits_bind; [by apply send_aside|intros _; by apply send_aside].
Qed.

Lemma breaker_aside {E} (b : bool) (c : router_io unit) :
  (forall r, sent_of (Event unit c r) = [] /\ run_of (Event unit c r) = []) ->
  emits aside (if b then mret tt else perform c : reff E unit).
Proof. intros Hc. destruct b; [apply emits_ret|by apply ask_aside]. Qed.

Definition answered_fully (r : option ProviderError) : bool := is_none r.

Lemma send_complete {E} request_id answer_id provider reason (k : reff E (option ProviderError)) :
  emits aside k -> (forall env h s, value (k env h s) = Ok None) ->
  accounts true (send (IeAnswerFinished request_id answer_id provider false reason);; k)
    (fun r => match r with Ok a => (answered_fully a, answered_fully a) | _ => (false, false) end).
Proof.
  intros Hk Hv env h s. unfold send, mbind, eff_bind, perform. cbn [value trace final]. rewrite Hv.
  match goal with |- context [k env ?h' s] => specialize (Hk env h' s) end.
  refine (account_app [_] _ true true true false true _ (account_aside _ true Hk)). done.
Qed.

Lemma answer_accounts request candidate fallback_reason last_error :
  accounts false (answer config hash_order from_str request candidate fallback_reason last_error)
    (fun r => match r with Ok a => (answered_fully a, answered_fully a) | _ => (false, false) end).
Proof.
  unfold answer. apply accounts_after; [by apply ask_aside|intros answer_id|done].
  apply accounts_after; [apply announce_aside|intros _|done].
  apply accounts_after; [by apply ask_aside|intros status|done].
  apply accounts_after; [by apply send_aside|intros _|done].
  apply accounts_after; [|intros boundary|done].
  { unfold boundary_of. destruct (rc_payload candidate) as [payload|]; [|apply emits_ret].
    destruct (payload_digest payload); [apply emits_ret|apply emits_lift..]. }
  eapply accounts_bind; [apply accounts_attempt, run_agent_loop_accounts|by intros []| |by intros []].
  intros [reason|error|]; cbn [ended_well snd].
  - apply accounts_bind with (F := fun r => (false, true)); [apply accounts_aside; [by apply breaker_aside|done]|done| |by intros []].
    intros _. cbn [snd]. apply send_complete; [apply emits_ret|done].
  - apply accounts_after; [by apply send_aside|intros _|done].
    apply accounts_after; [by apply breaker_aside|intros _|done]. by apply (accounts_lift false (Ok _)).
  - by apply accounts_lift.
Qed.

Lemma skip_candidate_aside provider : emits aside (skip_candidate provider).
Proof.
  unfold skip_candidate. destruct (pv_is_local provider); [apply emits_ret|].
  apply emits_bind; [by apply ask_aside|intros []; cbn [negb]; [|apply emits_ret]].
  apply emits_bind; [by apply ask_aside|intros health]. destruct (negb _); [|apply emits_ret].
  apply emits_bind; [by apply ask_aside|intros; apply emits_ret].
Qed.

Lemma close_aside {E} e request_id : event_text e = EmptyString -> is_complete_answer e = false ->
  emits aside (send e;; send_done request_id : reff E unit).
Proof. intros Ht Hc. apply emits_bind; [by apply send_aside|intros _; by apply send_aside]. Qed.

Lemma try_candidates_balanced request candidates fallback_reason last_error :
  balanced (try_candidates config hash_order from_str request candidates fallback_reason last_error).
Proof.
  revert fallback_reason last_error. induction candidates as [|candidate rest IH]; intros fallback_reason last_error;
    cbn [try_candidates]; [by apply balanced_aside, close_aside|].
  apply balanced_after; [by apply ask_aside|]. intros [] _; [by apply balanced_aside, close_aside|].
  apply balanced_after; [apply skip_candidate_aside|]. intros [error|] _; [apply IH|].
  apply (balanced_bind _ _ answered_fully); [apply answer_accounts|by intros [error|]; [|intros _; apply send_aside]|].
  intros [error|]; [intros _|done]. destruct (bool_decide _); [by apply balanced_aside, close_aside|].
  apply balanced_after; [by apply send_aside|intros _ _; apply IH].
Qed.

Lemma build_route_aside request settings : emits aside (build_route config providers request settings).
Proof.
  unfold build_route. repeat case_match; try apply emits_ret; try apply emits_lift;
    (apply emits_bind; [apply emits_lift|intros payload]); (apply emits_bind; [by apply ask_aside|intros consent]);
    (apply emits_bind; [apply emits_lift|intros; apply emits_ret]).
Qed.

Definition is_error (e : InternalEvent) : bool := match e with IeError _ _ _ => true | _ => false end.

Lemma build_route_error request settings env h s e :
  value (build_route config providers request settings env h s) = Err e -> is_error e = true.
Proof.
  unfold build_route. repeat case_match; cbn; try (intros [= <-]; done); try done.
  all: intros Hv; unfold mbind, eff_bind, perform, lift in Hv; cbn [value trace final] in Hv;
    destruct (sanitize _ _ _ _ _); cbn [map_err value] in Hv; [|by injection Hv as <-|done];
    destruct (env _ _ (ConsumeConsent _ _)); cbn [map_err value mret eff_ret] in Hv; try done; by injection Hv as <-.
Qed.

(** Whatever a chat does, the text of its events is the text of its providers, and it
    announces a complete answer exactly when the last run ended well with one. *)
Lemma chat_balanced request : balanced (chat config providers hash_order from_str request).
Proof.
  unfold chat. destruct (validate_chat request); [|by apply balanced_aside, close_aside|by apply balanced_aside, emits_lift].
  apply balanced_after; [by apply send_aside|intros _ _]. apply balanced_after; [by apply send_aside|intros _ _].
  apply balanced_after; [by apply ask_aside|intros settings _].
  apply balanced_after; [apply emits_attempt, build_route_aside|]. intros [route|e|] (env & h & s & Hv).
  - apply try_candidates_balanced.
  - apply balanced_aside. unfold attempt in Hv.
    destruct (value (build_route _ _ _ _ env h s)) eqn:He; cbn in Hv; simplify_eq. apply build_route_error in He.
    apply close_aside; by destruct e.
  - apply balanced_aside, emits_lift.
Qed.
End answering.

(** ** The frames of the server, as the client takes them *)

(** A line that carries a frame. *)
Definition carries `{J : ClientJson} (line : string) (frame : JsonlFrame) : Prop :=
  line_text MAX_FRAME_BYTES line = true /\ frame_from_slice line = Ok frame.

(** A frame that is no result. *)
Definition ongoing (frame : JsonlFrame) : Prop := match frame with FResult _ _ _ _ => False | _ => True end.

Section delivery.
Context `{J : ClientJson}.

Lemma ongoing_visible frame : ongoing frame -> visible Human frame = Some (frame_text frame).
Proof. by destruct frame as [|? ? ? []| | | | | |]. Qed.

Lemma ongoing_texts frames : Forall ongoing frames -> mapM (visible Human) frames = Some (frame_text <$> frames).
Proof. intros Hq. apply mapM_Some. induction Hq; constructor; [by apply ongoing_visible|done]. Qed.

Lemma ongoing_goes_on request stream frame : ongoing frame -> ends_exchange request stream frame = false.
Proof. by destruct frame. Qed.

Lemma stream_errors stream failed frames : Forall (addressed stream) frames ->
  last_failure stream failed frames = fold_left (fun _ message => Some message) (frames_errors frames) failed.
Proof.
  intros Ha. revert failed. induction Ha as [|frame frames [_ Hid] _ IH]; intros failed; [done|].
  unfold last_failure, frames_errors in *. cbn [fold_left mbind list_bind]. rewrite IH, fold_left_app. f_equal.
  destruct frame; try done. cbn in *. unfold same_id. by rewrite Hid, String.eqb_refl.
Qed.

Lemma carried_line line frame : carries line frame -> frame_version frame = PROTOCOL_VERSION_V1 -> good_line line frame.
Proof. intros [Hl Hf] Hv. split; [done..|]. by apply validate_version_Ok. Qed.

(** Frames that are no result of the stream, and its result, are a stream of the client. *)
Lemma carried_stream request stream frames result lines :
  Forall ongoing frames -> Forall (fun frame => frame_version frame = PROTOCOL_VERSION_V1) (frames ++ [result]) ->
  ends_exchange request stream result = true -> Forall2 carries lines (frames ++ [result]) ->
  stream_lines request stream lines (frames ++ [result]).
Proof.
  intros Hq. revert lines. induction Hq as [|frame frames Hq _ IH]; intros lines Hv He Hl; cbn [app] in *.
  - apply Forall2_cons_inv_r in Hl as (line & lines' & Hc & ->%Forall2_nil_inv_r & ->).
    apply Forall_cons in Hv as [Hv _]. apply StreamEnd; [by apply carried_line|done].
  - apply Forall2_cons_inv_r in Hl as (line & lines' & Hc & Hl & ->).
    apply Forall_cons in Hv as [Hv Hvs]. apply StreamMore; [by apply carried_line|by apply ongoing_goes_on|by apply IH].
Qed.

(** What the server of a chat sends: frames of its stream with the text and the errors of
    the events, then a result that ends the exchange and shows no text of its own. *)
Record served (id : RequestId) (stream : StreamId) (events : list InternalEvent) (l : list JsonlFrame)
    (frames : list JsonlFrame) (result : JsonlFrame) : Prop := {
  sd_frames : l = frames ++ [result];
  sd_ongoing : Forall ongoing frames;
  sd_addressed : Forall (addressed stream) frames;
  sd_text : frames_text frames = events_text events;
  sd_errors : frames_errors frames = events_errors events;
  sd_version : frame_version result = PROTOCOL_VERSION_V1;
  sd_ends : ends_exchange id stream result = true;
  sd_shown : visible Human result = Some EmptyString;
}.

Lemma chat_is_served (server : environment stream_io) to_string request_id id stream events :
  follow request_id Fresh events = Some Closed ->
  wp server (serve_events to_string events) (StreamState_new id stream)
    (fun _ _ l => exists frames result, served id stream events l frames result).
Proof.
  intros Hf. eapply wp_mono; [|by apply (serve_wp server to_string request_id events Fresh EmptyString)].
  cbn beta. intros [] _ l (s' & k & terminal & frame_id & r & -> & Hm & Hterm & Hp & _ & Hi & _).
  destruct Hm as [[Hi1 _] _ _ Hquiet Haddr Htext Herr]. cbn in Hi1, Haddr, Hterm.
  destruct Hterm as (f & ev & -> & _ & _ & _ & Hpay). destruct Hp as [_ P2 _ P4 P5].
  eexists (k ++ [_]), _. split; [by rewrite <-app_assoc|..].
  - apply Forall_app. split; [|by constructor]. eapply Forall_impl; [exact Hquiet|]. by intros [].
  - apply Forall_app. split; [done|]. by constructor.
  - rewrite frames_text_app, Htext. unfold frames_text. cbn. by rewrite Hpay, !app_empty_r.
  - rewrite frames_errors_app, Herr. apply app_nil_r.
  - done.
  - cbn. unfold same_id. by rewrite P2, Hi1, !String.eqb_refl.
  - cbn. destruct (decide (final_status s' = Completed)) as [Hc|Hc].
    + destruct (P4 Hc) as (payload & -> & Hmime & _). rewrite Hmime. unfold result_mime.
      by rewrite (sv_control _ _ _ Hi).
    + by destruct (P5 Hc) as [-> _].
Qed.

Lemma served_errors id stream events l frames result : served id stream events l frames result ->
  last_failure stream None (frames ++ [result]) = fold_left (fun _ message => Some message) (events_errors events) None.
Proof.
  intros Hs. unfold last_failure. rewrite fold_left_app. fold (last_failure stream None frames).
  rewrite (stream_errors _ _ _ (sd_addressed _ _ _ _ _ _ Hs)), (sd_errors _ _ _ _ _ _ Hs).
  pose proof (sd_ends _ _ _ _ _ _ Hs). by destruct result.
Qed.
End delivery.

(** The calls the chat of a request makes: what the router asked the settings, the providers
    and the tools, and what they replied. *)
Definition chat_calls `{C : PrivacyCrypto} config providers hash_order from_str (world : environment control_io)
    (question : ChatInput) : list (event router_io) :=
  trace (chat config providers hash_order from_str question (embed_env (call := router_io) (fun A c => Routed c) world []) [] tt).

(** C3 What the providers answer is what the terminal shows.  For every behaviour of the
    providers, the tools and the settings, when the lines of the frames the router serves for
    a chat reach the client, cut into pieces in any way, the exchange of the client prints
    exactly the text of the chunks the providers delivered for the question, those still in
    the channel of a run that ended well included, in their order, and a line end.  It
    returns the frames the router sent when the last run of a provider ended well and asked
    for no tool, and otherwise fails with the message of the one error the router raised. *)
Theorem answers_reach_the_terminal `{C : PrivacyCrypto} `{J : ClientJson} config providers hash_order from_str
    parse_chat parse_control control_to_string (world : environment control_io) (server : environment stream_io) h
    (client : environment csys) hc s version frame_id (asked : RouterRequest) (stream : StreamId) question lines chunks more :
  (forall s, from_str s <> Panic) -> (forall payload, is_Some (to_vec (canonical_value payload))) -> calm_control world ->
  decode_request parse_chat parse_control asked = Ok (DChat question) ->
  let calls := chat_calls config providers hash_order from_str world question in
  let sent := frames (trace (process_request config providers hash_order from_str parse_chat parse_control
                control_to_string world asked server h (StreamState_new (rr_request_id asked) stream))) in
  Forall2 carries lines sent ->
  working client -> (forall h, client h _ CFlushStdout = inr tt) ->
  filled_pieces chunks -> sconcat chunks = stream_bytes lines +:+ more ->
  (forall h, client h _ CIncoming = ABytes <$> chunks) ->
  let o := exchange (FRequest version frame_id stream asked) Human client hc s in
  heard (trace o) ->
  stdout_text (trace o) = provider_text calls +:+ EOL /\
  if provider_completed calls then value o = Ok sent
  else exists message, events_errors (sends calls) = [message] /\ value o = Err (MkError KOther message).
Proof.
  intros Hf Ht Hc Hd calls sent Hl Hw Hflush Hp Hb Hin o Hheard. set (id := rr_request_id asked) in *.
  destruct (chat_streams config providers hash_order from_str Hf Ht
    (embed_env (call := router_io) (fun A c => Routed c) world []) (calm_routed world [] Hc)
    (as_str id) question (decoded_chat_id _ _ _ _ Hd) []) as [_ (q & Hq & Hval & ->)].
  pose proof (chat_balanced config providers hash_order from_str question
    (embed_env (call := router_io) (fun A c => Routed c) world []) [] tt) as Hbal.
  rewrite Hval in Hbal. destruct Hbal as [c [Hanswer Hcomplete Hcompleted]].
  change (follow (as_str id) Fresh (sends calls) = Some Closed) in Hq.
  change (events_text (sends calls) = provider_text calls) in Hanswer.
  change (existsb is_complete_answer (sends calls) = c) in Hcomplete. change (provider_completed calls = c) in Hcompleted.
  assert (sent = frames (trace (serve_events control_to_string (sends calls) server h (StreamState_new id stream)))) as Hserve
    by (unfold sent, process_request; by rewrite Hd).
  clearbody sent calls. apply follow_outcome in Hq as Hout.
  destruct (chat_is_served server control_to_string _ id stream _ Hq h) as (_ & _ & frames & result & Hs).
  rewrite <-Hserve in Hs. pose proof Hs as [Hsent Hon Haddr Htext _ Hv He Hvis].
  assert (Forall (fun frame => frame_version frame = PROTOCOL_VERSION_V1) sent) as Hversions.
  { rewrite Hsent. apply Forall_app. split; [|by constructor]. eapply Forall_impl; [exact Haddr|]. by intros frame []. }
  assert (mapM (visible Human) sent = Some ((frame_text <$> frames) ++ [EmptyString])) as Htexts.
  { rewrite Hsent. apply mapM_Some, Forall2_app; [by apply mapM_Some, ongoing_texts|by constructor]. }
  apply served_errors in Hs as Hfail. rewrite <-Hsent in Hfail. rewrite Hsent in Hl, Hversions.
  pose proof (carried_stream _ _ _ _ _ Hon Hversions He Hl) as Hstream. rewrite <-Hsent in Hstream.
  destruct (exchange_hears client Hw Hflush version frame_id stream asked Human lines sent _ chunks more hc s
    Hstream Htexts Hp Hb Hin Hheard) as [Hvalue Hshown]. fold o in Hvalue, Hshown. split.
  - rewrite Hshown, sconcat_app. cbn. unfold frames_text in Htext. by rewrite Htext, app_empty_r, Hanswer.
  - rewrite Hvalue, Hfail, Hcompleted, <-Hcomplete. destruct Hout as [[-> ->]|[-> (message & ->)]]; [done|by exists message].
Qed.

(** ** A chat with a local model that asks for one tool and then answers *)

Definition demo_stream_name : StreamId := BStr "stream-1" eq_refl.
Definition demo_parser (_ : string) : result string ChatContent := Err "expected value"%string.
Definition demo_question : ChatInput :=
  match decode_request demo_parser (fun _ => Ok CrStatus) demo_router_request with Ok (DChat q) => q | _ => demo_request LocalOnly end.
Definition demo_sent : list JsonlFrame :=
  frames (trace (process_request (C := demo_crypto) RuntimeConfig_default demo_providers id demo_from_str demo_parser
    (fun _ => Ok CrStatus) (fun _ => Ok "{}"%string) demo_control_world demo_router_request demo_server []
    (StreamState_new (rr_request_id demo_router_request) demo_stream_name))).

(** A codec that writes the [n]th frame as [n] letters. *)
Fixpoint tally (n : nat) : string := match n with O => EmptyString | S n => String "x" (tally n) end.
Definition demo_codec : ClientJson := {|
  frame_to_string := fun _ => Ok "request"%string;
  frame_from_slice := fun line => match demo_sent !! pred (String.length line) with Some frame => Ok frame | None => Err "invalid"%string end;
  chat_to_string := demo_chat_text; control_to_string := demo_control_text;
  response_from_str := fun _ => Err "invalid"%string; value_pretty := fun _ => Err "invalid"%string;
  settings_pretty := fun _ => Err "invalid"%string;
|}.
Definition demo_lines : list string := tally <$> seq 1 (length demo_sent).
Definition demo_cut : list string :=
  [substring 0 4 (stream_bytes demo_lines); substring 4 1000 (stream_bytes demo_lines)].
Definition demo_delivery :=
  exchange (J := demo_codec) (FRequest PROTOCOL_VERSION_V1 (bstr "frame-0") demo_stream_name demo_router_request) Human
    (demo_client_env (ABytes <$> demo_cut)) [] Client_start.

Lemma tally_length n : String.length (tally n) = n.
Proof. induction n; cbn; congruence. Qed.

Lemma demo_carried : Forall2 (carries (J := demo_codec)) demo_lines demo_sent.
Proof.
  assert (forallb (fun n => line_text MAX_FRAME_BYTES (tally n)) (seq 1 (length demo_sent)) = true) as Hl by (vm_compute; reflexivity).
  apply Forall2_lookup. intros i. unfold demo_lines. rewrite list_lookup_fmap.
  destruct (demo_sent !! i) as [frame|] eqn:Hi.
  - apply lookup_lt_Some in Hi as Hlt. rewrite lookup_seq_lt by done. constructor. split.
    + rewrite forallb_forall in Hl. apply Hl, in_seq. lia.
    + cbn [frame_from_slice demo_codec]. rewrite tally_length. cbn [Nat.add pred]. by rewrite Hi.
  - rewrite lookup_seq_ge by by apply lookup_ge_None. constructor.
Qed.

Lemma demo_world_calm : calm_control demo_control_world.
Proof.
  intros h A c. destruct c as [A c|patch]; [|done]. split; [|by destruct c].
  destruct c; try done. split; [done|]. split; [by constructor|constructor].
Qed.

Lemma answers_reach_the_terminal_witness :
  stdout_text (trace demo_delivery) = "hihi" +:+ EOL /\ value demo_delivery = Ok demo_sent.
Proof.
  unfold demo_delivery.
  destruct (answers_reach_the_terminal (C := demo_crypto) (J := demo_codec) RuntimeConfig_default demo_providers id demo_from_str
    demo_parser (fun _ => Ok CrStatus) (fun _ => Ok "{}"%string) demo_control_world demo_server []
    (demo_client_env (ABytes <$> demo_cut)) [] Client_start PROTOCOL_VERSION_V1 (bstr "frame-0") demo_router_request
    demo_stream_name demo_question demo_lines demo_cut EmptyString) as [Ht Hv].
  - intros s. unfold demo_from_str. by destruct (String.eqb s "{}").
  - intros payload. by eexists.
  - exact demo_world_calm.
  - reflexivity.
  - exact demo_carried.
  - apply demo_client_works.
  - reflexivity.
  - vm_compute. repeat constructor.
  - vm_compute. reflexivity.
  - reflexivity.
  - exists (ABytes <$> demo_cut). vm_compute. repeat (first [left; reflexivity|right]).
  - split; [exact Ht|exact Hv].
Defined.
